(* ===== verification/_CoqProject ===== *)
-Q . S2P
Prelude.v
Triples.v
IntMath.v
BitSearch.v
Primes.v
Addresses.v
NodeSets.v
Destinations.v
StdHeap.v
Clocks.v
EventQueues.v
EventProofs.v
EventRuns.v
Filters.v
FilterProofs.v
Buffers.v
Wires.v
Arbiter.v
SlotTimes.v
Routing.v
Switches.v
Blocks.v
Policies.v
Caches.v
Tables.v
MsiTables.v
Controllers.v
DirectoryMemory.v
Messages.v
Sequencer.v
Memories.v
Packets.v
PacketQueues.v
MemoryControl.v
MemoryTiming.v
MemoryRuns.v
Machines.v
Dma.v
DirController.v
L1Controller.v
Functional.v
Pointers.v
Contents.v
Progress.v
DmaRuns.v
L1Safety.v
L1Progress.v
Coherence.v
L1Moves.v
L1Runs.v
DirSafety.v
DirRuns.v
CoherenceProof.v
FunctionalProof.v
