(* ===== verification/Prelude.v ===== *)
(** * A verification library for the PMSI extension of gem5's Ruby memory system

    ** The program

    The repository is the gem5 simulator with PMSI, a predictable MSI coherence
    protocol.  Its memory system, Ruby, is a set of controllers (caches and a
    directory, generated from SLICC state machines) that exchange messages over
    a network.  A message goes from a controller through a [MessageBuffer] into
    a throttle, from there into the central switch, and through a second
    throttle to the buffers of its destinations.  PMSI makes the bus
    predictable in the throttles that feed the central switch: time is divided
    into slots of [SLOT_WIDTH] cycles, each owned by one of [NPROC] cores, and
    in its slot a core sends one demand request or one write-back.  All paths
    below are relative to src/gem5-stable/src/, and mem/ruby/ where no other
    directory is named.

    ** Files and what they model

    - [Prelude]: outcomes and faults, machine words, bounded loops, vectors, the
      monad [prog] of stateful code, and the lemmas, hint database and tactics
      that the other files share.
    - [Triples]: triples on [prog] and the rules that prove them.
    - [IntMath] and [BitSearch]: base/intmath.hh and base/bitfield.hh; [Primes]: the
      search for primes of base/intmath.cc.
    - [Addresses]: common/Address and the block geometry of system/System.
    - [NodeSets]: common/Set, a set of nodes as an array of words.
    - [Destinations]: common/NetDest, a vector of node sets, one for each type of
      machine, and the functions SLICC generates on machine types.
    - [StdHeap]: push_heap and pop_heap of the C++ library, and the class
      [PriorityHeap] that states what the buffers rely on.
    - [Clocks]: sim/clocked_object.hh and common/Consumer.
    - [EventQueues], [EventProofs] and [EventRuns]: the queue of events, a list of
      lists linked through the events (sim/eventq and sim/simulate.cc), and proofs.
    - [Filters] and [FilterProofs]: the Bloom filters of filters/, and proofs about them.
    - [Buffers]: slicc_interface/Message, network/MessageBufferNode and
      network/MessageBuffer, with the constants of Trace.hh.
    - [Wires]: structures/WireBuffer.
    - [Arbiter]: network/simple/Throttle, slicc_interface/NetworkMessage and
      network/Network; the predictable bus.
    - [SlotTimes]: the slot arithmetic of slicc_interface/RubySlicc_Util.hh and
      the send time of the directory's action d_sendData.
    - [Routing]: network/Topology, shortest paths and routing entries.
    - [Switches]: network/simple/PerfectSwitch.
    - [Blocks]: common/DataBlock, common/SubBlock and the functional accesses of
      slicc_interface/RubySlicc_Util.hh.
    - [Policies]: structures/LRUPolicy and PseudoLRUPolicy behind the classes
      [ReplacementPolicy] and [PolicyLaws].
    - [Caches]: structures/CacheMemory, BankedArray and the cache entries, over
      any policy with those laws.
    - [Tables]: structures/TBETable, TimerTable, PersistentTable and
      PerfectCacheMemory.
    - [MsiTables]: the states, events, actions and transitions of the three
      machines of mem/protocol/MSI_Snooping_One_Level_RT.
    - [Controllers]: slicc_interface/AbstractController, the base of every
      controller, over a store of message buffers.
    - [DirectoryMemory]: structures/DirectoryMemory and the address maps of
      slicc_interface/RubySlicc_ComponentMapping.hh.
    - [Messages]: the messages of the protocol file -msg.sm and
      slicc_interface/RubyRequest.
    - [Sequencer]: system/Sequencer, between a processor and its cache.
    - [Memories]: the commands of packets (mem/packet) and the memory that serves
      packets, with its reservations (mem/abstract_mem).
    - [Packets] and [PacketQueues]: functional accesses to packets on their way
      (mem/packet.cc) and the queue of a port (mem/packet_queue.cc).
    - [MemoryControl]: structures/RubyMemoryControl and MemoryNode, over [Memories] and
      [PacketQueues]; [MemoryTiming] and [MemoryRuns]: proofs about it.
    - [Machines]: the code that mem/slicc/symbols/StateMachine.py writes for any
      machine: transitions with their resource checks and the wakeup loop.
    - [L1Controller]: the functions, ports and actions of the protocol file
      -cache.sm, put into [Machines] with the transitions of [MsiTables], over
      [Caches], [Tables], [Sequencer] and [Controllers].
    - [DirController]: the same for the protocol file -dir.sm, over
      [DirectoryMemory], [Tables] and [Controllers], with the memory port of
      slicc_interface/AbstractController on a [PacketQueues] queue.
    - [Dma]: system/DMASequencer and the protocol file -dma.sm over [Machines].
    - [Functional]: functional accesses to the whole system (system/System,
      RubyPort::recvFunctional, network/simple/SimpleNetwork and Switch), over the
      controllers behind the class [Controller]; [FunctionalProof]: proofs about it.
    - [Contents] and [Progress]: what the operations of buffers and controllers do
      to the messages they hold, and why the wakeup loop of any machine ends.
    - [Pointers], [L1Safety], [L1Progress], [L1Moves] and [L1Runs]: proofs about
      [L1Controller].
    - [DirSafety] and [DirRuns]: proofs about [DirController]; [DmaRuns]: about [Dma].
    - [Coherence] and [CoherenceProof]: the transition tables of caches and
      directory composed over a bus, for one line, and proofs about them.

    Each class of the source is a [Module] with a record [t] that has the
    fields of the class, and a definition of the same name for each method.  A
    method that changes the object returns the new record; calls on other
    objects that are not part of the record (the consumer of a buffer, say)
    are returned as a list.

    ** What the theorems show

    - Coherence: in every reachable state of any number of caches a writable copy
      is the only copy and copies hold the last value stored; what processors read;
      that no step ends in an invalid transition while each processor has at most
      one request outstanding, which is what the sequencer allows; that every miss
      completes within a bounded number of steps; and that all of this depends on
      answers being finished before the next grant of the bus.
    - Cache controller: whatever the processor asks and the network delivers, the
      state of a line agrees with the objects it has in the caches and the
      transaction table, no wakeup follows a null pointer, and each transition that
      a port fires is the one that a cache of [Coherence] makes, in the copy of the
      line, the messages it takes and sends, and the answer to the processor.
    - Directory controller: in every run the state of a line agrees with its entry,
      its owner and its transaction, every wakeup ends, and each transition that a
      port fires is the one that the directory of [Coherence] makes, in the messages
      it takes and sends and the packets it gives to the memory.
    - DMA: the port of the sequencer takes requests within a line, makes one message of
      each, and completes it with the bytes of the line that comes back.
    - Functional accesses: a functional read returns the last value stored, unless a
      write-back is on its way to the memory; a functional write is what a functional
      read returns.
    - Wakeups: the loop that SLICC generates ends, for the caches although it does
      not count the iterations that put a message off.
    - Memory port: scheduling a packet is insertion in order of time, a packet in the
      queue is always followed by an event or a retry that sends it, also when the
      receiver schedules more packets while it accepts one; what functional
      accesses do to a packet, and the byte that a partial read misses.
    - Memory controller: it keeps the timing of banks, bus and ranks, issues the requests
      of a bank in their order and forgets none; where its parameters, draining and
      functional accesses break this is shown by examples.  Memory: a store-conditional
      succeeds exactly if its context holds the reservation.
    - Sequencer: at most one outstanding request, filed under its type and line; a
      load brings back what a store wrote; a locked read-modify-write keeps other
      requests out; what the deadlock check detects; and that a failed
      store-conditional stores.
    - Base controller: waking all buffers gives every stalled message back, and
      waking the lower ranks from the lowest rank loses them.
    - Tables, data blocks, directory memory and messages: the transaction table,
      the persistent table and the directory memory refine maps; a functional
      write is what a functional read returns; what a request holds as its data.
    - Arbiter: a core sends a request that is not a side packet only in the
      first cycle of its own slot, two cores never do so in one cycle, every
      core gets a slot of each kind within two periods, a slot serves the kind
      of request that waits, the memory sends only to the owner of the slot, and
      write-back slots do not block it.  [slot_schedule] says what the slots are.
    - Slot times: the send time the directory writes into data, for the statistics, is
      the start of a slot of the receiving core in the sense of the arbiter and the
      accounted arbitration latency is bounded, both below cycle 2^32; beyond it the
      times wrap.
    - Switch and routing: a message is forwarded to all links it needs, if they have
      room, or to none, the pending counts are exact in every reachable state, the loop
      on a port ends; for weights below 2^30 distances are the least weights of walks
      and hop-by-hop routing arrives, over configured links if the distance is below
      INFINITE_LATENCY; routing entries hold the machines a link leads to.
    - Buffers: a strict FIFO buffer refines a queue under ordinary enqueues and
      dequeues of the head; dequeue gives the earliest message; stalling and reanalysis
      conserve the messages; and two operations that break the heap order are shown to
      do so.  A wire buffer of constant latency keeps the order of its messages.
    - Caches and policies: a cache array refines a partial map from line
      addresses to entries, an eviction makes room and changes nothing else,
      the victims are the ones the policies promise; and an entry marked
      NotPresent without deallocation leaves a tag that later aliases.
    - Bloom filters: whatever is put in, merged and asked, five of the seven classes
      find every address put in since the last clear; of the other two one cannot be
      configured and the other forgets its addresses when they are counted.
    - Event queue: over the linked events every operation is one on a list sorted by
      time and priority, with the last scheduled first among equals, and a run of the
      loop serves events in that order; the self-check accepts exactly the queues that
      are in order.
    - Integers: what the searches for bits, the masks and the powers of two compute, and
      from which numbers the search for the next lower prime finds one.
    - Sets: node sets and destination sets refine mathematical sets, for node
      sets up to 31 nodes; the failure beyond is a theorem as well.
    - Clocks and addresses: edges and cycle counts, wakeups posted once, the
      parts of an address, and strides.

    ** Modelling choices

    A fault (assert, panic, fatal, index out of range, null pointer, bad shift)
    is an [Err] of the monad [outcome].  Integers are [Z]; where a result can
    leave its width the wrap is written out.  The current tick, the global
    cycle and what rand() returns are arguments.  Objects are values.  What two
    components share is a part of a state that both act on: the message buffers of
    a controller are a store indexed by names ([Controllers]), a sequencer and its
    controller share caches and buffers ([Sequencer]); pointers to entries are
    [option]s that name a line and are followed at every use ([L1Controller]).
    [Coherence] keeps what of the controllers matters for one line, and takes its
    transitions from the same tables as [L1Controller].  Debug output and floating
    point statistics are left out.

    ** Fuel

    Loops without a structural measure take fuel, and [Err OutOfFuel] marks
    that it ran out.  The sift loops of the heap get one more than the index or
    length they start from, as each step moves to a parent or a child
    ([push_loop_spec], [adjust_loop_spec]); [Topology.extend_loop] gets the sum
    of the distances plus one, as each pass that changes something lowers it
    ([extend_loop_spec]); [PerfectSwitch.drain] gets the length of the queue
    plus one, as each round takes a message ([switch_drain_ends]); reanalysis
    gets the length of the list it empties ([reanalyze_conserves]); the loops
    of the pseudo-LRU constructor get 6, as it asserts at most 32 ways before
    them ([pseudo_lru_victim]); [RubySlicc_Util.advance] gets one step for each
    50 cycles ([advance_spec]).  [IntMath.isPrime_loop] gets one more than its
    argument ([isPrime_spec]) and [prevPrime] the same ([prevPrime_spec]).  The walks
    along the links of the event queue get one more than the number of events, and twice
    that where they go along both links ([find_bin_run], [find_in_bin_run]).
    [Str.tokens] gets the length of the string plus one, as each round takes a character.
    [System.serve] gets 2, as the directory takes a request from its queue in its
    second transition at the latest ([no_invalid_transition] excludes the fault).
    The wakeup loops of the controllers take any fuel; [l1_wakeup_ends] and
    [dir_wakeup_ends] show that enough of it gives the result.

    ** What is not modelled

    The connection of the directory with a memory: the memory behind its port is an
    argument of [DirController], and [Memories] and [MemoryControl] stand alone.  The
    other end of DMA messages, for which the directory of the protocol has no
    transitions.  The wiring of the simple network, which shares buffers between a
    switch and its throttles; the ports of RubyPort, the tester and the prefetcher;
    the other protocols.  The garnet networks, the compiler passes of
    SLICC, the classic memory system, the processors, architectures, devices,
    profilers, the configuration scripts, external libraries and
    benchmarks are outside the library. *)

From Stdlib Require Export ZArith Lia.
From stdpp Require Export base tactics numbers option list list_numbers fin_maps gmap.

(** ** Faults and outcomes

    A C++ statement that does not return normally is a value of [fault]: an
    [assert] that fails (the modelled build keeps asserts), a [panic] or
    [fatal], an access outside an array, a dereference of a null pointer (to an
    object, or to an array that was never made: [NullArray]), a shift whose
    amount is not smaller than the width of its operand, or a loop whose 64-bit
    counter wraps around before it reaches its bound ([Runaway]), which leaves
    some 2^58 iterations to go.
    [OutOfFuel] is not a behaviour of the code: it marks a loop of the model
    whose bound was too small, and the theorems show it does not occur. *)

Inductive fault : Set :=
  | AssertFail
  | PanicFault
  | FatalFault
  | OutOfBounds
  | NullDeref
  | NullArray
  | BadShift
  | Runaway
  | OutOfFuel.

#[global] Instance fault_eq_dec : EqDecision fault.
Proof. solve_decision. Defined.

Inductive outcome (A : Type) : Type :=
  | Ok (a : A)
  | Err (f : fault).
Arguments Ok {A} a.
Arguments Err {A} f.

#[global] Instance outcome_ret : MRet outcome := @Ok.
#[global] Instance outcome_bind : MBind outcome := λ A B f m,
  match m with Ok a => f a | Err e => Err e end.
#[global] Instance outcome_fmap : FMap outcome := λ A B f m,
  match m with Ok a => Ok (f a) | Err e => Err e end.

#[global] Instance outcome_eq_dec {A} `{EqDecision A} : EqDecision (outcome A).
Proof. solve_decision. Defined.

Definition is_Ok {A} (m : outcome A) : bool :=
  match m with Ok _ => true | Err _ => false end.

(** The result of a run that is known to succeed. *)
Definition get_Ok {A} (m : outcome A) : is_Ok m = true → A :=
  match m with
  | Ok a => λ _, a
  | Err _ => λ H, match Bool.diff_false_true H return A with end
  end.

Lemma get_Ok_eq {A} (m : outcome A) (H : is_Ok m = true) a : m = Ok a → get_Ok m H = a.
Proof. intros E. revert H. by rewrite E. Qed.

(** [assert(b)] *)
Definition assert_that (b : bool) : outcome unit :=
  if b then Ok tt else Err AssertFail.

Definition from_option_or {A} (f : fault) (o : option A) : outcome A :=
  match o with Some a => Ok a | None => Err f end.

(** A loop over the elements of a list whose body may fault. *)
Fixpoint mfold {A S} (f : S → A → outcome S) (s : S) (l : list A) : outcome S :=
  match l with
  | [] => Ok s
  | x :: l => s' ← f s x; mfold f s' l
  end.

(** [for (int i = 0; i < v.size(); i++) v[i] = f(i, v[i]);], the index of the
    head being [i]. *)
Fixpoint mapi {A B} (f : Z → A → outcome B) (i : Z) (l : list A) : outcome (list B) :=
  match l with
  | [] => Ok []
  | x :: l => y ← f i x; l' ← mapi f (i + 1)%Z l; Ok (y :: l')
  end.

(** [for (int i = 0; i < v.size(); i++) if (!p(i, v[i])) return false; return
    true;] *)
Fixpoint alli {A} (p : Z → A → outcome bool) (i : Z) (l : list A) : outcome bool :=
  match l with
  | [] => Ok true
  | x :: l => b ← p i x; if b : bool then alli p (i + 1)%Z l else Ok false
  end.

(** ** Stateful code

    A method that reads and writes the objects [S] it can reach, and may fault. *)

Definition prog (S A : Type) : Type := S → outcome (A * S).

Section prog.
Context {S : Type}.

#[global] Instance prog_ret : MRet (prog S) := λ A a s, Ok (a, s).
#[global] Instance prog_bind : MBind (prog S) := λ A B f m s,
  match m s with Ok (a, s') => f a s' | Err e => Err e end.

Definition getS : prog S S := λ s, Ok (s, s).
Definition gets {A} (f : S → A) : prog S A := λ s, Ok (f s, s).
Definition modS (f : S → S) : prog S unit := λ s, Ok (tt, f s).
Definition lift {A} (o : outcome A) : prog S A := λ s,
  match o with Ok a => Ok (a, s) | Err e => Err e end.
Definition raise {A} (f : fault) : prog S A := λ _, Err f.
(** A function that only reads. *)
Definition reads {A} (f : S → outcome A) : prog S A := λ s,
  match f s with Ok a => Ok (a, s) | Err e => Err e end.

(** [if (b) { p }] *)
Definition when (b : bool) (p : prog S unit) : prog S unit := if b then p else mret tt.

(** A loop without a result. *)
Fixpoint each {A} (f : A → prog S unit) (l : list A) : prog S unit :=
  match l with [] => mret tt | x :: l => _ ← f x; each f l end.

End prog.

(** Code that works on a part [T] of the objects [S]. *)
Definition zoom {S T A} (get : S → T) (put : S → T → S) (p : prog T A) : prog S A := λ s,
  match p (get s) with Ok (a, t) => Ok (a, put s t) | Err e => Err e end.

(** ** Ordered maps

    A [std::map] from addresses, as the list of its pairs in the order of the keys. *)

Section assoc.
Context {A : Type}.

Fixpoint assoc_find (k : Z) (l : list (Z * A)) : option A :=
  match l with
  | [] => None
  | (k', a) :: l => if decide (k = k') then Some a else assoc_find k l
  end.

Fixpoint assoc_set (k : Z) (a : A) (l : list (Z * A)) : list (Z * A) :=
  match l with
  | [] => [(k, a)]
  | (k', a') :: l' =>
      if decide (k = k') then (k, a) :: l'
      else if decide (k < k')%Z then (k, a) :: l
      else (k', a') :: assoc_set k a l'
  end.

Definition assoc_erase (k : Z) (l : list (Z * A)) : list (Z * A) := filter (λ p, p.1 ≠ k) l.

End assoc.

(** ** Arrays

    [v[i]] reads and writes one element; an index out of range is a fault, it
    neither grows the array nor is ignored. *)

Definition vget {A} (l : list A) (i : Z) : outcome A :=
  if decide (0 ≤ i)%Z then from_option_or OutOfBounds (l !! Z.to_nat i)
  else Err OutOfBounds.

Definition vset {A} (l : list A) (i : Z) (x : A) : outcome (list A) :=
  if decide (0 ≤ i < Z.of_nat (length l))%Z then Ok (<[Z.to_nat i := x]> l)
  else Err OutOfBounds.

(** ** Machine words

    A [w]-bit unsigned integer is a [Z] in [[0, 2^w)]; every operation that
    can leave that range is followed by [uwrap w]. *)

Definition uwrap (w z : Z) : Z := z `mod` 2 ^ w.
Definition u32 : Z → Z := uwrap 32.
Definition u64 : Z → Z := uwrap 64.
Definition fits (w z : Z) : Prop := (0 ≤ z < 2 ^ w)%Z.
(** A number as an [int]. *)
Definition s32 (z : Z) : Z := (u32 (z + 2 ^ 31) - 2 ^ 31)%Z.
(** [~x] *)
Definition not64 (x : Z) : Z := u64 (Z.lnot x).
(** [x << n] and [x >> n]; a shift by the width or more is undefined. *)
Definition shl64 (x n : Z) : outcome Z :=
  if decide (0 ≤ n < 64)%Z then Ok (u64 (Z.shiftl x n)) else Err BadShift.
Definition shr64 (x n : Z) : outcome Z :=
  if decide (0 ≤ n < 64)%Z then Ok (Z.shiftr x n) else Err BadShift.
(** All ones. *)
Definition ones64 : Z := 2 ^ 64 - 1.

#[global] Instance fits_dec w z : Decision (fits w z).
Proof. unfold fits. apply _. Defined.

(** ** Lemmas on outcomes *)

Lemma bind_Ok {A B} (m : outcome A) (f : A → outcome B) b :
  m ≫= f = Ok b ↔ ∃ a, m = Ok a ∧ f a = Ok b.
Proof. destruct m as [a|e]; simpl; naive_solver. Qed.

Lemma bind_eq_Ok {A B} (m : outcome A) (f : A → outcome B) a b :
  m = Ok a → m ≫= f = Ok b → f a = Ok b.
Proof. by intros ->. Qed.

Lemma assert_that_Ok b u : assert_that b = Ok u ↔ b = true.
Proof. destruct b, u; simpl; naive_solver. Qed.

Lemma from_option_or_Ok {A} f (o : option A) a :
  from_option_or f o = Ok a ↔ o = Some a.
Proof. destruct o; simpl; naive_solver. Qed.

Lemma mfold_app {A S} (f : S → A → outcome S) s l1 l2 :
  mfold f s (l1 ++ l2) = s' ← mfold f s l1; mfold f s' l2.
Proof.
  revert s. induction l1 as [|x l1 IH]; intros s; [done|].
  simpl. destruct (f s x); simpl; [apply IH|done].
Qed.

(** An invariant of the body is an invariant of the loop. *)
Lemma mfold_ext {A S} (f g : S → A → outcome S) l s :
  (∀ s x, x ∈ l → f s x = g s x) → mfold f s l = mfold g s l.
Proof.
  revert s. induction l as [|x l IH]; intros s H; [done|]. simpl.
  rewrite H by apply list_elem_of_here. destruct (g s x); [|done]. simpl.
  apply IH. intros. apply H. by apply list_elem_of_further.
Qed.

Lemma mfold_inv {A S} (P : S → Prop) (f : S → A → outcome S) l s s' :
  (∀ t x t', x ∈ l → P t → f t x = Ok t' → P t') →
  P s → mfold f s l = Ok s' → P s'.
Proof.
  revert s. induction l as [|x l IH]; intros s Hf Hs Hl; simpl in Hl; [naive_solver|].
  apply bind_Ok in Hl as (t & Ht & Hl).
  eapply IH; [|eapply Hf; [|exact Hs|exact Ht]|exact Hl]; [|set_solver].
  intros ? y ? ?. apply Hf. set_solver.
Qed.

(** A loop whose body never faults never faults. *)
Lemma mfold_total {A S} (P : S → Prop) (f : S → A → outcome S) l s :
  (∀ t x, x ∈ l → P t → ∃ t', f t x = Ok t' ∧ P t') →
  P s → ∃ s', mfold f s l = Ok s' ∧ P s'.
Proof.
  revert s. induction l as [|x l IH]; intros s Hf Hs; simpl; [eauto|].
  destruct (Hf s x) as (t & -> & Ht); [set_solver|done|]. simpl.
  apply IH; [|done]. intros t' y ?. apply Hf. set_solver.
Qed.

(** A loop whose body is total is a [foldl]. *)
Lemma mfold_pure {A S} (g : S → A → S) l s :
  mfold (λ t x, Ok (g t x)) s l = Ok (foldl g s l).
Proof. revert s. induction l as [|x l IH]; intros s; simpl; [done|apply IH]. Qed.

(** Every element is updated, and only by its own step. *)
Lemma mapi_total {A B} (P : nat → B → Prop) (f : Z → A → outcome B) (l : list A) i :
  (∀ k x, l !! k = Some x → ∃ y, f (i + Z.of_nat k)%Z x = Ok y ∧ P k y) →
  ∃ l', mapi f i l = Ok l' ∧ length l' = length l ∧ ∀ k y, l' !! k = Some y → P k y.
Proof.
  revert i P. induction l as [|x l IH]; intros i P Hf; simpl; [by exists []|].
  destruct (Hf 0%nat x eq_refl) as (y & Hy & HP). rewrite Z.add_0_r in Hy. rewrite Hy. simpl.
  destruct (IH (i + 1)%Z (λ k, P (S k))) as (l' & -> & Hlen & HP').
  { intros k z Hz. destruct (Hf (S k) z Hz) as (w & Hw & ?). exists w.
    by replace (i + 1 + Z.of_nat k)%Z with (i + Z.of_nat (S k))%Z by lia. }
  simpl. exists (y :: l'). split_and!; [done|by simpl; rewrite Hlen|].
  intros [|k] z; simpl; naive_solver.
Qed.

(** The loop answers whether a property holds of every element. *)
Lemma alli_spec {A} (P : nat → A → Prop) (Pdec : ∀ k x, Decision (P k x))
    (p : Z → A → outcome bool) (l : list A) i :
  (∀ k x, l !! k = Some x → p (i + Z.of_nat k)%Z x = Ok (bool_decide (P k x))) →
  ∃ b, alli p i l = Ok b ∧ (b = true ↔ ∀ k x, l !! k = Some x → P k x).
Proof.
  revert i P Pdec. induction l as [|x l IH]; intros i P Pdec Hp; simpl; [by exists true|].
  specialize (Hp 0%nat x eq_refl) as Hx. rewrite Z.add_0_r in Hx. rewrite Hx. simpl.
  case_bool_decide as E.
  - destruct (IH (i + 1)%Z (λ k, P (S k)) (λ k, Pdec (S k))) as (b & -> & Hb).
    { intros k z Hz. specialize (Hp (S k) z Hz).
      by replace (i + 1 + Z.of_nat k)%Z with (i + Z.of_nat (S k))%Z by lia. }
    exists b. split; [done|]. rewrite Hb. split; [|intros Hall k; apply (Hall (S k))].
    intros Hall [|k] z ?; simplify_eq/=; auto.
  - exists false. split; [done|]. split; [done|]. intros Hall. by destruct E; apply Hall.
Qed.

Lemma vget_Ok {A} (l : list A) i x :
  vget l i = Ok x ↔ (0 ≤ i)%Z ∧ l !! Z.to_nat i = Some x.
Proof.
  unfold vget. case_decide; [rewrite from_option_or_Ok|]; naive_solver.
Qed.

Lemma vset_Ok {A} (l l' : list A) i x :
  vset l i x = Ok l' ↔
  (0 ≤ i < Z.of_nat (length l))%Z ∧ l' = <[Z.to_nat i := x]> l.
Proof. unfold vset. case_decide; naive_solver. Qed.

Lemma vget_nat {A} (l : list A) (i : nat) x :
  l !! i = Some x → vget l (Z.of_nat i) = Ok x.
Proof. intros. apply vget_Ok. rewrite Nat2Z.id. split; [lia|done]. Qed.

Lemma vset_nat {A} (l : list A) (i : nat) x :
  i < length l → vset l (Z.of_nat i) x = Ok (<[i := x]> l).
Proof. intros. apply vset_Ok. rewrite Nat2Z.id. split; [lia|done]. Qed.

Lemma mapi_Ok {A B} (f : Z → A → outcome B) (l : list A) i l' k y :
  mapi f i l = Ok l' → l' !! k = Some y →
  ∃ x, l !! k = Some x ∧ f (i + Z.of_nat k)%Z x = Ok y.
Proof.
  revert i l' k. induction l as [|x l IH]; intros i l' k H Hk; simpl in H; [by injection H as <-|].
  apply bind_Ok in H as (z & Hz & H). apply bind_Ok in H as (ys & Hys & H). injection H as <-.
  destruct k as [|k]; simpl in Hk; [injection Hk as <-; exists x; by rewrite Z.add_0_r|].
  destruct (IH _ _ _ Hys Hk) as (x' & ? & Hf). exists x'. split; [done|].
  by replace (i + Z.of_nat (S k))%Z with (i + 1 + Z.of_nat k)%Z by lia.
Qed.

Lemma vget_lookup {A} (l : list A) i : (0 ≤ i)%Z → vget l i = from_option_or OutOfBounds (l !! Z.to_nat i).
Proof. intros Hi. unfold vget. by rewrite decide_True. Qed.

Lemma vget_range {A} (l : list A) i : (0 ≤ i < Z.of_nat (length l))%Z → ∃ x, vget l i = Ok x.
Proof.
  intros Hi. destruct (lookup_lt_is_Some_2 l (Z.to_nat i)) as [x Hx]; [lia|].
  exists x. apply vget_Ok. by split; [lia|].
Qed.

(** A loop over the indices of a vector is a loop over its elements. *)
Lemma mfold_vget {A T} (f : T → A → outcome T) (l : list A) s :
  mfold (λ t i, x ← vget l i; f t x) s (seqZ 0 (Z.of_nat (length l))) = mfold f s l.
Proof.
  assert (∀ k l' s, drop k l = l' →
    mfold (λ t i, x ← vget l i; f t x) s (seqZ (Z.of_nat k) (Z.of_nat (length l'))) = mfold f s l')
    as H; [|by apply (H 0%nat l s)].
  clear s. intros k l'. revert k. induction l' as [|x l' IH]; intros k s Hk; [done|].
  cbn [length]. rewrite seqZ_cons by lia. cbn [mfold].
  assert (l !! k = Some x) as Hx by (by rewrite <- (Nat.add_0_r k), <- lookup_drop, Hk).
  rewrite (vget_nat l k x Hx). cbn [mbind outcome_bind].
  destruct (f s x) as [t|]; [|done]. cbn [mbind outcome_bind].
  replace (Z.succ (Z.of_nat k)) with (Z.of_nat (S k)) by lia.
  replace (Z.pred (Z.of_nat (S (length l')))) with (Z.of_nat (length l')) by lia.
  apply IH. replace (S k) with (k + 1)%nat by lia. by rewrite <- drop_drop, Hk.
Qed.

(** An invariant indexed by the number of rounds done. *)
Lemma mfold_seqZ {T} (P : nat → T → Prop) (f : T → Z → outcome T) (n : nat) s s' :
  (∀ k t t', (k < n)%nat → P k t → f t (Z.of_nat k) = Ok t' → P (S k) t') →
  P 0%nat s → mfold f s (seqZ 0 (Z.of_nat n)) = Ok s' → P n s'.
Proof.
  intros Hf Hs. revert s'. induction n as [|n IH]; intros s' H; [by injection H as <-|].
  rewrite seqZ_S, Z.add_0_l, mfold_app in H. apply bind_Ok in H as (t & Ht & H).
  cbn [mfold] in H. apply bind_Ok in H as (t' & Ht' & H). injection H as <-.
  apply (Hf n t); [lia| |done]. apply IH; [|done]. intros k u u' Hk. apply Hf. lia.
Qed.

(** ** Lemmas on lists *)

(** A list with one element of interest. *)
Lemma concat_imap_only {A B} (f : nat → A → list B) (l : list A) i x :
  l !! i = Some x → (∀ j y, l !! j = Some y → j ≠ i → f j y = []) →
  concat (imap f l) = f i x.
Proof.
  revert f i. induction l as [|y l IH]; intros f i Hx Hf; [done|].
  rewrite imap_cons. cbn [concat]. destruct i as [|i]; simpl in Hx.
  - injection Hx as ->. rewrite <- (app_nil_r (f 0%nat x)) at 2. f_equal.
    assert (∀ j z, l !! j = Some z → (f ∘ S) j z = []) as Hz by (intros j z Hj; by apply (Hf (S j))).
    clear -Hz. revert f Hz. induction l as [|z l IH]; intros f Hz; [done|].
    rewrite imap_cons. cbn [concat]. rewrite (Hz 0%nat z) by done. simpl.
    apply (IH (f ∘ S)). intros j y Hj. by apply (Hz (S j)).
  - rewrite (Hf 0%nat y) by done. simpl. apply (IH (f ∘ S) i Hx).
    intros j z Hj Hne. apply (Hf (S j)); [done|lia].
Qed.

Lemma existsb_only {A} (f : A → bool) (l : list A) i x :
  l !! i = Some x → (∀ j y, l !! j = Some y → j ≠ i → f y = false) → existsb f l = f x.
Proof.
  intros Hx Hf. destruct (f x) eqn:E.
  - apply existsb_exists. exists x. split; [|done]. by eapply list_elem_of_In, list_elem_of_lookup_2.
  - apply not_true_is_false. intros (y & Hy & Ht)%existsb_exists.
    apply list_elem_of_In, list_elem_of_lookup_1 in Hy as [j Hj].
    destruct (decide (j = i)) as [->|Hne]; [|by rewrite (Hf j y) in Ht].
    rewrite Hx in Hj. injection Hj as <-. by rewrite E in Ht.
Qed.

(** Run an option at every position. *)
Lemma mapM_imap_Some {A B} (f : nat → A → option B) (g : nat → A → B) (l : list A) :
  (∀ j x, l !! j = Some x → f j x = Some (g j x)) → mapM id (imap f l) = Some (imap g l).
Proof.
  revert f g. induction l as [|x l IH]; intros f g Hf; [done|].
  rewrite !imap_cons. cbn [mapM]. rewrite (Hf 0%nat x) by done. simpl.
  rewrite (IH (f ∘ S) (g ∘ S)); [done|]. intros j y Hj. by apply (Hf (S j)).
Qed.

Lemma ForallOrdPairs_snoc {A} (R : A → A → Prop) (l : list A) x :
  ForallOrdPairs R l → Forall (λ y, R y x) l → ForallOrdPairs R (l ++ [x]).
Proof.
  induction 1 as [|y l Hy Hl IH]; intros Hx; [repeat constructor|].
  apply Forall_cons in Hx as [Hyx Hx]. simpl. constructor; [|by apply IH].
  apply Forall_app. by split; [|constructor].
Qed.

Lemma sum_list_with_insert {A} (f : A → nat) l i x y : l !! i = Some x →
  sum_list_with f (<[i := y]> l) + f x = sum_list_with f l + f y.
Proof.
  revert i. induction l as [|z l IH]; intros [|i]; try done; simpl.
  - intros [= ->]. lia.
  - intros H%IH. simpl in *. lia.
Qed.

Lemma sum_list_with_mono {A} (f : A → nat) l l' : length l = length l' →
  (∀ j x y, l !! j = Some x → l' !! j = Some y → f x ≤ f y) →
  sum_list_with f l ≤ sum_list_with f l'.
Proof.
  revert l'. induction l as [|x l IH]; intros [|y l'] Hlen H; try discriminate; simpl; [lia|].
  injection Hlen as Hlen.
  pose proof (H 0 x y eq_refl eq_refl). apply Nat.add_le_mono; [done|].
  apply IH; [done|]. intros j u u' Hu Hu'. by apply (H (S j)).
Qed.

Lemma sum_list_with_bounded {A} (f : A → nat) l b :
  (∀ i x, l !! i = Some x → f x ≤ b) → sum_list_with f l ≤ b * length l.
Proof.
  induction l as [|x l IH]; intros H; simpl; [lia|]. pose proof (H 0 x eq_refl).
  assert (sum_list_with f l ≤ b * length l); [|lia]. apply IH. intros i. apply (H (S i)).
Qed.

Lemma NoDup_bounded_length (l : list nat) n : NoDup l → Forall (λ i, i < n) l → length l ≤ n.
Proof.
  intros Hl Hn. rewrite <- (length_seq n 0). apply submseteq_length.
  apply NoDup_submseteq; [done|]. intros i Hi. rewrite Forall_forall in Hn.
  apply elem_of_seq. specialize (Hn i Hi). lia.
Qed.

(** Two lists that differ at one place, by at most [m]. *)
Lemma sum_list_with_le_one {A} (f : A → nat) l l' k m : length l = length l' →
  (∀ j x y, l !! j = Some x → l' !! j = Some y → f x ≤ (if decide (j = k) then m else 0) + f y) →
  sum_list_with f l ≤ sum_list_with f l' + m.
Proof.
  revert l' k. induction l as [|x l IH]; intros [|y l'] k Hlen H; try discriminate; simpl; [lia|].
  injection Hlen as Hlen.
  pose proof (H 0 x y eq_refl eq_refl) as H0. destruct k as [|k]; simpl in H0.
  - assert (sum_list_with f l ≤ sum_list_with f l'); [|lia].
    apply sum_list_with_mono; [done|]. intros j u u' Hu Hu'. by apply (H (S j)).
  - assert (sum_list_with f l ≤ sum_list_with f l' + m); [|lia].
    apply (IH l' k); [done|]. intros j u u' Hu Hu'.
    pose proof (H (S j) u u' Hu Hu') as Hj. destruct (decide (S j = S k)), (decide (j = k)); lia.
Qed.

Lemma ForallOrdPairs_app_r {A} (R : A → A → Prop) l k :
  ForallOrdPairs R (l ++ k) → ForallOrdPairs R k.
Proof. induction l as [|x l IH]; [done|]. intros H. inversion_clear H. auto. Qed.

Lemma ForallOrdPairs_mono {A} (R R' : A → A → Prop) (l : list A) :
  (∀ x y, x ∈ l → y ∈ l → R x y → R' x y) → ForallOrdPairs R l → ForallOrdPairs R' l.
Proof.
  intros H Hl. induction Hl as [|y l Hy Hl IH]; constructor.
  - rewrite Forall_forall in Hy |- *. intros z Hz. apply H; [set_solver|set_solver|by apply Hy].
  - apply IH. intros a b Ha Hb. apply H; set_solver.
Qed.

(** ** Lemmas on words *)

Lemma uwrap_fits w z : (0 ≤ w)%Z → fits w (uwrap w z).
Proof. intros. unfold fits, uwrap. apply Z.mod_pos_bound. lia. Qed.

Lemma uwrap_id w z : fits w z → uwrap w z = z.
Proof. unfold fits, uwrap. intros. by apply Z.mod_small. Qed.

Lemma s32_id z : (- 2 ^ 31 ≤ z < 2 ^ 31 → s32 z = z)%Z.
Proof. intros Hz. unfold s32, u32. rewrite uwrap_id; [lia|]. unfold fits. lia. Qed.

Lemma uwrap_testbit w z i : (0 ≤ w)%Z →
  Z.testbit (uwrap w z) i = (Z.testbit z i && (i <? w)%Z).
Proof.
  intros. unfold uwrap. destruct (Z.ltb_spec i w).
  - rewrite andb_true_r. destruct (decide (0 ≤ i)%Z).
    + apply Z.mod_pow2_bits_low. lia.
    + rewrite !Z.testbit_neg_r by lia. done.
  - rewrite andb_false_r. apply Z.mod_pow2_bits_high. lia.
Qed.

Lemma fits_testbit_high w z i : fits w z → (w ≤ i)%Z → Z.testbit z i = false.
Proof.
  intros Hz Hi. destruct (decide (0 ≤ w)%Z) as [Hw|Hw].
  - rewrite <- (uwrap_id w z Hz), uwrap_testbit by done.
    apply andb_false_intro2. lia.
  - destruct Hz. rewrite Z.pow_neg_r in *; lia.
Qed.

(** Two words are equal when their bits below the width are. *)
Lemma fits_bits_eq w x y : (0 ≤ w)%Z → fits w x → fits w y →
  (∀ i, (0 ≤ i < w)%Z → Z.testbit x i = Z.testbit y i) → x = y.
Proof.
  intros Hw Hx Hy H. apply Z.bits_inj'. intros i Hi.
  destruct (decide (i < w)%Z); [by apply H|].
  rewrite !(fits_testbit_high w) by (done || lia). done.
Qed.

Lemma fits_of_bits w z : (0 ≤ w)%Z → (0 ≤ z)%Z →
  (∀ i, (w ≤ i)%Z → Z.testbit z i = false) → fits w z.
Proof.
  intros Hw Hz Hb. split; [done|].
  destruct (decide (z = 0)%Z) as [->|]; [lia|].
  apply Z.log2_lt_pow2; [lia|].
  destruct (decide (Z.log2 z < w)%Z); [done|].
  specialize (Hb (Z.log2 z)). rewrite Z.bit_log2 in Hb by lia. discriminate Hb. lia.
Qed.

Lemma fits_land w x y : (0 ≤ w)%Z → fits w x → (0 ≤ y)%Z → fits w (Z.land x y).
Proof.
  intros Hw Hx Hy. apply fits_of_bits; [done|apply Z.land_nonneg; lia|].
  intros i Hi. rewrite Z.land_spec, (fits_testbit_high w x) by done. done.
Qed.

Lemma fits_lor w x y : (0 ≤ w)%Z → fits w x → fits w y → fits w (Z.lor x y).
Proof.
  intros Hw Hx Hy. apply fits_of_bits; [done|apply Z.lor_nonneg; unfold fits in *; lia|].
  intros i Hi. by rewrite Z.lor_spec, !(fits_testbit_high w).
Qed.

Lemma fits_shiftr w x n : (0 ≤ n)%Z → fits w x → fits w (Z.shiftr x n).
Proof.
  intros Hn [H1 H2]. split; [by apply Z.shiftr_nonneg|].
  rewrite Z.shiftr_div_pow2 by done.
  assert (1 ≤ 2 ^ n)%Z by (apply (Z.pow_le_mono_r 2 0); lia).
  assert (x / 2 ^ n ≤ x)%Z; [|lia].
  apply Z.div_le_upper_bound; nia.
Qed.

Lemma not64_testbit x i :
  Z.testbit (not64 x) i = (negb (Z.testbit x i) && (0 <=? i)%Z && (i <? 64)%Z).
Proof.
  unfold not64, u64. rewrite uwrap_testbit by lia.
  destruct (Z.leb_spec 0 i).
  - rewrite Z.lnot_spec by done. by rewrite andb_true_r.
  - rewrite !Z.testbit_neg_r by lia. done.
Qed.

Lemma not64_fits x : fits 64 (not64 x).
Proof. by apply uwrap_fits. Qed.

Lemma ones64_testbit i : (0 ≤ i)%Z → Z.testbit ones64 i = (i <? 64)%Z.
Proof.
  intros. change ones64 with (Z.ones 64). rewrite Z.testbit_ones_nonneg by lia. done.
Qed.

(** ** Lemmas on stateful code and on ordered maps *)

Section prog_lemmas.
Context {S : Type}.

Lemma prog_bind_Ok {A B} (m : prog S A) (f : A → prog S B) s b s' :
  (m ≫= f) s = Ok (b, s') ↔ ∃ a s1, m s = Ok (a, s1) ∧ f a s1 = Ok (b, s').
Proof.
  unfold mbind, prog_bind. destruct (m s) as [[a s1]|e]; split.
  - intros H. by exists a, s1.
  - intros (? & ? & [= <- <-] & H). done.
  - done.
  - by intros (? & ? & ? & _).
Qed.

Lemma prog_bind_step {A B} (m : prog S A) (f : A → prog S B) s a s1 :
  m s = Ok (a, s1) → (m ≫= f) s = f a s1.
Proof. unfold mbind, prog_bind. by intros ->. Qed.

Lemma lift_Ok {A} (o : outcome A) (s : S) a s' :
  lift o s = Ok (a, s') ↔ o = Ok a ∧ s' = s.
Proof. unfold lift. destruct o; naive_solver. Qed.

Lemma reads_Ok {A} (f : S → outcome A) (s : S) a s' :
  reads f s = Ok (a, s') ↔ f s = Ok a ∧ s' = s.
Proof. unfold reads. destruct (f s); naive_solver. Qed.

Lemma zoom_Ok {T A} (get : S → T) (put : S → T → S) (p : prog T A) s a s' :
  zoom get put p s = Ok (a, s') ↔ ∃ t, p (get s) = Ok (a, t) ∧ s' = put s t.
Proof. unfold zoom. destruct (p (get s)) as [[]|]; naive_solver. Qed.

(** What every step of a loop keeps, the loop keeps. *)
Lemma each_inv {A} (P : S → Prop) (f : A → prog S unit) l s u s' :
  (∀ x s u s', x ∈ l → P s → f x s = Ok (u, s') → P s') →
  P s → each f l s = Ok (u, s') → P s'.
Proof.
  revert s. induction l as [|x l IH]; intros s Hf Hs; cbn; [by intros [= _ <-]|].
  intros (a & s1 & H1 & H2)%prog_bind_Ok.
  apply (IH s1); [set_solver| |done]. apply (Hf x s a); [set_solver|done|done].
Qed.

Lemma each_total {A} (P : S → Prop) (f : A → prog S unit) l s :
  (∀ x s, x ∈ l → P s → ∃ s', f x s = Ok (tt, s') ∧ P s') →
  P s → ∃ s', each f l s = Ok (tt, s') ∧ P s'.
Proof.
  revert s. induction l as [|x l IH]; intros s Hf Hs; cbn; [by exists s|].
  destruct (Hf x s) as (s1 & H1 & Hs1); [set_solver|done|].
  rewrite (prog_bind_step _ _ _ _ _ H1). apply IH; [set_solver|done].
Qed.

End prog_lemmas.

Section assoc_lemmas.
Context {A : Type}.
Implicit Types (l : list (Z * A)) (a : A).

Lemma assoc_find_set_same k a l : assoc_find k (assoc_set k a l) = Some a.
Proof.
  induction l as [|[k' a'] l IH]; cbn; [by rewrite decide_True|].
  destruct (decide (k = k')) as [<-|Hne]; cbn; [by rewrite decide_True|].
  destruct (decide (k < k')%Z); cbn; [by rewrite decide_True|]. by rewrite decide_False.
Qed.

Lemma assoc_find_set_other k j a l : j ≠ k → assoc_find j (assoc_set k a l) = assoc_find j l.
Proof.
  intros Hj. induction l as [|[k' a'] l IH]; cbn; [by rewrite decide_False|].
  destruct (decide (k = k')) as [<-|Hne]; cbn; [by rewrite !decide_False|].
  destruct (decide (k < k')%Z); cbn; [by rewrite (decide_False (P := j = k))|]. by rewrite IH.
Qed.

Lemma assoc_find_erase_same k l : assoc_find k (assoc_erase k l) = None.
Proof.
  unfold assoc_erase. induction l as [|[k' a'] l IH]; [done|]. rewrite filter_cons. cbn.
  destruct (decide (k' ≠ k)) as [H|H]; [|done]. cbn. by rewrite decide_False by congruence.
Qed.

Lemma assoc_find_erase_other k j l : j ≠ k → assoc_find j (assoc_erase k l) = assoc_find j l.
Proof.
  intros Hj. unfold assoc_erase. induction l as [|[k' a'] l IH]; [done|]. rewrite filter_cons. cbn.
  destruct (decide (k' ≠ k)) as [H|H]; cbn; [by rewrite IH|].
  rewrite IH, decide_False; [done|]. intros ->. by apply H.
Qed.

Lemma assoc_find_elem k a l : assoc_find k l = Some a → (k, a) ∈ l.
Proof.
  induction l as [|[k' a'] l IH]; cbn; [done|].
  destruct (decide (k = k')) as [<-|]; [intros [= ->]; set_solver|]. intros H%IH. set_solver.
Qed.

Lemma assoc_set_elem k a l p : p ∈ assoc_set k a l → p = (k, a) ∨ p ∈ l.
Proof.
  induction l as [|[k' a'] l IH]; cbn; [set_solver|].
  destruct (decide (k = k')); [set_solver|]. destruct (decide (k < k')%Z); [set_solver|].
  intros [->|H%IH]%elem_of_cons; set_solver.
Qed.

Lemma assoc_set_set k a a' l : assoc_set k a' (assoc_set k a l) = assoc_set k a' l.
Proof.
  induction l as [|[j b] l IH]; cbn; [by rewrite decide_True|].
  destruct (decide (k = j)) as [<-|Hne]; cbn; [by rewrite decide_True|].
  destruct (decide (k < j)%Z) as [Hlt|Hlt]; cbn; [by rewrite decide_True|].
  rewrite (decide_False (P := k = j)), (decide_False (P := (k < j)%Z)) by done. by rewrite IH.
Qed.

End assoc_lemmas.

(** ** Automation *)

Create HintDb words discriminated.
#[export] Hint Resolve uwrap_fits not64_fits fits_land fits_lor fits_shiftr : words.
#[export] Hint Extern 1 (_ ≤ _)%Z => lia : words.
#[export] Hint Extern 1 (_ < _)%Z => lia : words.

(** Take a successful run apart into the steps it is made of. *)
Ltac outcome_inv :=
  repeat match goal with
  | H : mbind _ _ = Ok _ |- _ => apply bind_Ok in H as (? & ? & ?)
  | H : assert_that _ = Ok _ |- _ => apply assert_that_Ok in H
  | H : from_option_or _ _ = Ok _ |- _ => apply from_option_or_Ok in H
  | H : vget _ _ = Ok _ |- _ => apply vget_Ok in H as [? ?]
  | H : vset _ _ _ = Ok _ |- _ => apply vset_Ok in H as [? ?]
  | H : Ok _ = Ok _ |- _ => injection H as H
  | H : Err _ = Ok _ |- _ => discriminate H
  end; subst; simpl in *.
