(* ===== verification/Triples.v ===== *)
(** * Specifications of stateful code

    A triple says what a method that starts in a state with [P] leaves when it returns,
    and that it does not end in one of the excluded faults.  The rules follow the
    structure of the code; the database [avoids] holds
    those about pure code. *)

From S2P Require Import Prelude.

(** A run avoids the excluded faults. *)
Definition avoids {A} (bad : fault → Prop) (o : outcome A) : Prop :=
  match o with Ok _ => True | Err f => ¬ bad f end.

Definition triple {S A} (bad : fault → Prop) (P : S → Prop) (p : prog S A) (Q : A → S → Prop) : Prop :=
  ∀ s, P s → match p s with Ok (a, s') => Q a s' | Err f => ¬ bad f end.

(** Partial correctness alone. *)
Lemma triple_partial {S A} P (p : prog S A) Q :
  (∀ s a s', P s → p s = Ok (a, s') → Q a s') → triple (λ _, False) P p Q.
Proof. intros H s Hs. destruct (p s) as [[a s']|f] eqn:E; [by eapply H|tauto]. Qed.

Section rules.
Context {S : Type} (bad : fault → Prop).
Implicit Types (P : S → Prop).

Lemma avoids_bind {A B} (o : outcome A) (k : A → outcome B) :
  avoids bad o → (∀ a, o = Ok a → avoids bad (k a)) → avoids bad (o ≫= k).
Proof. destruct o; cbn; auto. Qed.

Lemma avoids_Err_inv {A} (o : outcome A) f : avoids bad o → o = Err f → ¬ bad f.
Proof. by intros H ->. Qed.

Lemma triple_bad {A} (bad' : fault → Prop) P (p : prog S A) Q : (∀ f, bad' f → bad f) →
  triple bad P p Q → triple bad' P p Q.
Proof.
  intros Hb Hp s Hs. specialize (Hp s Hs). destruct (p s) as [[a s']|f]; [done|]. auto.
Qed.

Lemma triple_conseq {A} P P' (p : prog S A) (Q Q' : A → S → Prop) :
  triple bad P' p Q' → (∀ s, P s → P' s) → (∀ a s, Q' a s → Q a s) → triple bad P p Q.
Proof. intros H HP HQ s Hs. specialize (H s (HP s Hs)). destruct (p s) as [[a s']|]; auto. Qed.

Lemma triple_ret {A} P (a : A) (Q : A → S → Prop) : (∀ s, P s → Q a s) → triple bad P (mret a) Q.
Proof. intros H s Hs. by apply H. Qed.

Lemma triple_raise {A} P f (Q : A → S → Prop) : ¬ bad f → triple bad P (raise f) Q.
Proof. intros H s _. done. Qed.

Lemma triple_bind {A B} P (R : A → S → Prop) (p : prog S A) (k : A → prog S B) Q :
  triple bad P p R → (∀ a, triple bad (R a) (k a) Q) → triple bad P (p ≫= k) Q.
Proof.
  intros Hp Hk s Hs. specialize (Hp s Hs). unfold mbind, prog_bind.
  destruct (p s) as [[a s']|]; [|done]. by apply Hk.
Qed.

Lemma triple_pure {A} (φ : Prop) P (p : prog S A) Q :
  (φ → triple bad P p Q) → triple bad (λ s, φ ∧ P s) p Q.
Proof. intros H s [Hφ Hs]. by apply H. Qed.

(** A fact that the precondition gives. *)
Lemma triple_fact {A} (φ : Prop) P (p : prog S A) Q :
  (∀ s, P s → φ) → (φ → triple bad P p Q) → triple bad P p Q.
Proof. intros Hφ H s Hs. by apply H; [eapply Hφ|]. Qed.

Lemma triple_exists {A B} (P : B → S → Prop) (p : prog S A) Q :
  (∀ x, triple bad (P x) p Q) → triple bad (λ s, ∃ x, P x s) p Q.
Proof. intros H s [x Hs]. by apply (H x). Qed.

Lemma triple_lift {A} P (o : outcome A) (Q : A → S → Prop) :
  avoids bad o → (∀ a s, o = Ok a → P s → Q a s) → triple bad P (lift o) Q.
Proof. intros Ho HQ s Hs. unfold lift. destruct o; [by apply HQ|done]. Qed.

(** A computation whose result does not matter. *)
Lemma triple_lift_any {A} P (o : outcome A) : avoids bad o → triple bad P (lift o) (λ _, P).
Proof. intros Ho. by apply triple_lift. Qed.

Lemma triple_reads {A} P (f : S → outcome A) (Q : A → S → Prop) :
  (∀ s, P s → avoids bad (f s) ∧ ∀ a, f s = Ok a → Q a s) → triple bad P (reads f) Q.
Proof.
  intros H s Hs. destruct (H s Hs) as [Ha HQ]. unfold reads. destruct (f s); [by apply HQ|done].
Qed.

Lemma triple_gets {A} P (f : S → A) (Q : A → S → Prop) :
  (∀ s, P s → Q (f s) s) → triple bad P (gets f) Q.
Proof. intros H s Hs. by apply H. Qed.

Lemma triple_modS P (f : S → S) (Q : unit → S → Prop) :
  (∀ s, P s → Q tt (f s)) → triple bad P (modS f) Q.
Proof. intros H s Hs. by apply H. Qed.

Lemma triple_when P (b : bool) (p : prog S unit) :
  triple bad P p (λ _, P) → triple bad P (when b p) (λ _, P).
Proof. destruct b; [done|]. intros _. by apply triple_ret. Qed.

Lemma triple_each {A} P (f : A → prog S unit) (l : list A) :
  (∀ x, x ∈ l → triple bad P (f x) (λ _, P)) → triple bad P (each f l) (λ _, P).
Proof.
  induction l as [|x l IH]; intros H; cbn [each]; [by apply triple_ret|].
  eapply triple_bind; [apply H; set_solver|]. intros u. apply IH. set_solver.
Qed.

Lemma foldl_bind_None {A D} (step : A → D → option D) (l : list A) :
  foldl (λ o x, o ≫= step x) None l = None.
Proof. by induction l. Qed.

(** A loop over actions that each take one description of the state to the next. *)
Lemma triple_each_run {A D} (step : A → D → option D) (I : D → S → Prop) (f : A → prog S unit)
    (l : list A) : ∀ d d',
  (∀ x d d', step x d = Some d' → triple bad (I d) (f x) (λ _, I d')) →
  foldl (λ o x, o ≫= step x) (Some d) l = Some d' → triple bad (I d) (each f l) (λ _, I d').
Proof.
  induction l as [|x l IH]; intros d d' Hstep Hrun; cbn [each foldl] in *.
  - injection Hrun as <-. by apply triple_ret.
  - destruct (step x d) as [d1|] eqn:E.
    + eapply triple_bind; [apply Hstep, E|]. intros u. apply IH; [done|]. cbn in Hrun.
      by rewrite E in Hrun.
    + cbn in Hrun. rewrite E, foldl_bind_None in Hrun. done.
Qed.

Lemma triple_and {A} P P' (p : prog S A) (Q Q' : A → S → Prop) :
  triple bad P p Q → triple bad P' p Q' → triple bad (λ s, P s ∧ P' s) p (λ a s, Q a s ∧ Q' a s).
Proof.
  intros H H' s [Hs Hs']. specialize (H s Hs). specialize (H' s Hs'). by destruct (p s) as [[]|].
Qed.

(** Code that keeps an invariant. *)
Lemma keeps_bind {A B} P (p : prog S A) (k : A → prog S B) :
  triple bad P p (λ _, P) → (∀ a, triple bad P (k a) (λ _, P)) → triple bad P (p ≫= k) (λ _, P).
Proof. intros Hp Hk. eapply triple_bind; [exact Hp|exact Hk]. Qed.

Lemma keeps_ret {A} P (a : A) : triple bad P (mret a) (λ _, P).
Proof. by apply triple_ret. Qed.

Lemma keeps_gets {A} P (f : S → A) : triple bad P (gets f) (λ _, P).
Proof. by apply triple_gets. Qed.

Lemma keeps_reads {A} P (f : S → outcome A) : (∀ s, P s → avoids bad (f s)) →
  triple bad P (reads f) (λ _, P).
Proof. intros Hf. apply triple_reads. intros s Hs. split; [by apply Hf|done]. Qed.

(** What is read is known beforehand. *)
Lemma triple_gets_eq {A B} P (f : S → A) x (k : A → prog S B) Q :
  (∀ s, P s → f s = x) → triple bad P (k x) Q → triple bad P (gets f ≫= k) Q.
Proof.
  intros Hf Hk s Hs. specialize (Hk s Hs). unfold mbind, prog_bind, gets. by rewrite (Hf s Hs).
Qed.

Lemma triple_reads_eq {A B} P (f : S → outcome A) x (k : A → prog S B) Q :
  (∀ s, P s → f s = Ok x) → triple bad P (k x) Q → triple bad P (reads f ≫= k) Q.
Proof.
  intros Hf Hk s Hs. specialize (Hk s Hs). unfold mbind, prog_bind, reads. by rewrite (Hf s Hs).
Qed.

(** What a call that reads no state returned is known afterwards. *)
Lemma triple_lift_bind {A B} P (o : outcome A) (k : A → prog S B) Q :
  avoids bad o → (∀ x, o = Ok x → triple bad P (k x) Q) → triple bad P (lift o ≫= k) Q.
Proof.
  intros Ho Hk s Hs. unfold mbind, prog_bind, lift. destruct o as [x|]; [|done]. by apply Hk.
Qed.

Lemma triple_Ok {A} P (p : prog S A) Q s a s' :
  triple bad P p Q → P s → p s = Ok (a, s') → Q a s'.
Proof. intros H Hs E. specialize (H s Hs). by rewrite E in H. Qed.

Lemma triple_avoids {A} P (p : prog S A) Q s : triple bad P p Q → P s → avoids bad (p s).
Proof. intros H Hs. specialize (H s Hs). by destruct (p s) as [[]|]. Qed.

End rules.

Lemma triple_zoom {S T A} bad (get : S → T) (put : S → T → S) (p : prog T A)
    (P : S → Prop) (Q : A → S → Prop) :
  (∀ s, P s → match p (get s) with Ok (a, t) => Q a (put s t) | Err f => ¬ bad f end) →
  triple bad P (zoom get put p) Q.
Proof. intros H s Hs. specialize (H s Hs). unfold zoom. by destruct (p (get s)) as [[]|]. Qed.

(** A part of the state with a specification of its own, of which the whole asks no
    more. *)
Lemma triple_zoom_frame {S T A} bad (get : S → T) (put : S → T → S) (p : prog T A)
    (PT : T → Prop) (QT : A → T → Prop) (P : S → Prop) (Q : A → S → Prop) :
  triple bad PT p QT → (∀ s, P s → PT (get s)) → (∀ s a t, P s → QT a t → Q a (put s t)) →
  triple bad P (zoom get put p) Q.
Proof.
  intros Hp HP HQ. apply triple_zoom. intros s Hs. specialize (Hp (get s) (HP s Hs)).
  destruct (p (get s)) as [[a t]|]; [by apply HQ|done].
Qed.

(** ** Faults of the basic operations *)

Section basic.
Context (bad : fault → Prop).

Lemma avoids_Ok {A} (a : A) : avoids bad (Ok a).
Proof. done. Qed.
Lemma avoids_assert b : ¬ bad AssertFail → avoids bad (assert_that b).
Proof. by destruct b. Qed.
Lemma avoids_vget {A} (l : list A) i : ¬ bad OutOfBounds → avoids bad (vget l i).
Proof. intros H. unfold vget. case_decide; [|done]. by destruct (l !! _). Qed.
Lemma avoids_vset {A} (l : list A) i x : ¬ bad OutOfBounds → avoids bad (vset l i x).
Proof. intros H. unfold vset. by case_decide. Qed.
Lemma avoids_from_option {A} f (o : option A) : ¬ bad f → avoids bad (from_option_or f o).
Proof. by destruct o. Qed.
Lemma avoids_shl64 x n : ¬ bad BadShift → avoids bad (shl64 x n).
Proof. intros H. unfold shl64. by case_decide. Qed.
Lemma avoids_shr64 x n : ¬ bad BadShift → avoids bad (shr64 x n).
Proof. intros H. unfold shr64. by case_decide. Qed.
Lemma avoids_mfold {A T} (f : T → A → outcome T) l : (∀ s x, avoids bad (f s x)) →
  ∀ s, avoids bad (mfold f s l).
Proof.
  intros Hf. induction l as [|x l IH]; intros s; cbn [mfold]; [done|].
  apply avoids_bind; [apply Hf|]. intros a _. apply IH.
Qed.
Lemma avoids_mapi {A B} (f : Z → A → outcome B) l : (∀ i x, avoids bad (f i x)) →
  ∀ i, avoids bad (mapi f i l).
Proof.
  intros Hf. induction l as [|x l IH]; intros i; cbn [mapi]; [done|].
  apply avoids_bind; [apply Hf|]. intros a _. apply avoids_bind; [apply IH|]. done.
Qed.
Lemma avoids_alli {A} (p : Z → A → outcome bool) l : (∀ i x, avoids bad (p i x)) →
  ∀ i, avoids bad (alli p i l).
Proof.
  intros Hf. induction l as [|x l IH]; intros i; cbn [alli]; [done|].
  apply avoids_bind; [apply Hf|]. intros [] _; [apply IH|done].
Qed.

End basic.

(** ** Automation *)

Create HintDb avoids discriminated.
#[export] Hint Resolve avoids_Ok avoids_assert avoids_vget avoids_vset avoids_from_option
  avoids_shl64 avoids_shr64 avoids_mfold avoids_mapi avoids_alli : avoids.

(** Follow the binds and tests of a computation; the leaves are left to the database. *)
Ltac avoid_faults :=
  repeat match goal with
  | |- avoids _ (_ ≫= _) => apply avoids_bind; [|intros ? ?]
  | |- avoids _ (match ?x with _ => _ end) => destruct x
  | |- avoids _ (mfold _ _ _) => apply avoids_mfold; intros ? ?
  | |- avoids _ (mapi _ _ _) => apply avoids_mapi; intros ? ?
  | |- avoids _ (alli _ _ _) => apply avoids_alli; intros ? ?
  | |- avoids _ (Ok _) => exact I
  | |- avoids _ (Err _) => cbn [avoids]; first [done|congruence|auto with avoids]
  | |- avoids _ _ => solve [auto with avoids]
  end.
