(* ===== verification/IntMath.v ===== *)
(** * Integer and bit-field helpers (base/intmath.hh, base/bitfield.hh)

    The word-level helpers the Ruby code is built on, at the width they are
    instantiated with, and their meaning: [floorLog2] is the integer logarithm,
    [isPowerOf2] decides powers of two, [divCeil], [roundUp] and [roundDown]
    round, [bits] is the slice of a word, [insertBits] replaces a slice. *)

From S2P Require Import Prelude.
Local Open Scope Z_scope.

Module IntMath.

(** [n & ~(n - 1)] on a [w]-bit unsigned type. *)
Definition leastSigBit (w n : Z) : Z :=
  Z.land n (uwrap w (Z.lnot (uwrap w (n - 1)))).

Definition isPowerOf2 (w n : Z) : bool :=
  bool_decide (n ≠ 0) && bool_decide (leastSigBit w n = n).

(** One step [if (x & m) { y += k; x >>= k; }] of the binary search. *)
Definition log2_step (m k : Z) (s : Z * Z) : Z * Z :=
  let '(x, y) := s in
  if decide (Z.land x m = 0) then (x, y) else (Z.shiftr x k, y + k).

(** [floorLog2(unsigned x)] *)
Definition floorLog2 (x : Z) : outcome Z :=
  assert_that (bool_decide (0 < x));;
  let s := (x, 0) in
  let s := log2_step 0xffff0000 16 s in
  let s := log2_step 0x0000ff00 8 s in
  let s := log2_step 0x000000f0 4 s in
  let s := log2_step 0x0000000c 2 s in
  let '(x, y) := s in
  Ok (if decide (Z.land x 0x00000002 = 0) then y else y + 1).

(** [floorLog2(unsigned long long x)] *)
Definition floorLog2_ull (x : Z) : outcome Z :=
  assert_that (bool_decide (0 < x));;
  let s := (x, 0) in
  let s := log2_step 0xffffffff00000000 32 s in
  let s := log2_step 0x00000000ffff0000 16 s in
  let s := log2_step 0x000000000000ff00 8 s in
  let s := log2_step 0x00000000000000f0 4 s in
  let s := log2_step 0x000000000000000c 2 s in
  let '(x, y) := s in
  Ok (if decide (Z.land x 0x0000000000000002 = 0) then y else y + 1).

(** [floorLog2(int x)]: a positive [int] converts to [unsigned] unchanged. *)
Definition floorLog2_int (x : Z) : outcome Z :=
  assert_that (bool_decide (0 < x));; floorLog2 (u32 x).

(** [ceilLog2] at [T = unsigned]. *)
Definition ceilLog2 (n : Z) : outcome Z :=
  if decide (n = 1) then Ok 0
  else y ← floorLog2 (u32 (n - 1)); Ok (y + 1).

(** [divCeil] at a [w]-bit unsigned type; dividing by zero is undefined. *)
Definition divCeil (w a b : Z) : outcome Z :=
  if decide (b = 0) then Err OutOfBounds else Ok (uwrap w (a + b - 1) `div` b).

Definition roundUp (w val align : Z) : Z :=
  let mask := uwrap w (align - 1) in
  Z.land (uwrap w (val + mask)) (uwrap w (Z.lnot mask)).

Definition roundDown (w val align : Z) : Z :=
  let mask := uwrap w (align - 1) in
  Z.land val (uwrap w (Z.lnot mask)).

(** [isPrime] at [T = int]: the loop [for (i = 5; i*i <= n; i += 6)], with as
    much fuel as the number of values [i] can take. *)
Fixpoint isPrime_loop (fuel : nat) (n i : Z) : option bool :=
  match fuel with
  | O => None
  | S fuel =>
      if decide (i * i ≤ n) then
        if decide (Z.rem n i = 0 ∨ Z.rem n (i + 2) = 0) then Some false
        else isPrime_loop fuel n (i + 6)
      else Some true
  end.

Definition isPrime (n : Z) : option bool :=
  if decide (n = 2 ∨ n = 3) then Some true
  else isPrime_loop (S (Z.to_nat n)) n 5.

End IntMath.

Module Bitfield.

(** [mask(int nbits)]: [nbits] low ones; a shift by more than 64 is undefined. *)
Definition mask (nbits : Z) : outcome Z :=
  if decide (nbits = 64) then Ok ones64
  else m ← shl64 1 nbits; Ok (u64 (m - 1)).

(** [bits(val, first, last)] on [uint64_t]. *)
Definition bits (val first last : Z) : outcome Z :=
  v ← shr64 val last;
  m ← mask (first - last + 1);
  Ok (Z.land v m).

Definition mbits (val first last : Z) : outcome Z :=
  hi ← mask (first + 1);
  lo ← mask last;
  Ok (Z.land val (Z.land hi (not64 lo))).

Definition insertBits (val first last bit_val : Z) : outcome Z :=
  m ← mask (first - last + 1);
  bmask ← shl64 m last;
  t ← shl64 bit_val last;
  Ok (Z.lor (Z.land t bmask) (Z.land val (not64 bmask))).

(** [isPow2]: a power of two or zero. *)
Definition isPow2 (w v : Z) : bool :=
  bool_decide (Z.land v (uwrap w (v - 1)) = 0).

End Bitfield.

Import IntMath.

(** ** The binary search for the highest bit *)

(** The mask [(2^k - 1) << k] tests whether a word below [2^(2k)] reaches
    [2^k]. *)
Lemma land_high_half x k : 0 ≤ k → 0 ≤ x < 2 ^ (2 * k) →
  (Z.land x (Z.shiftl (Z.ones k) k) = 0 ↔ x < 2 ^ k).
Proof.
  intros Hk Hx. split.
  - intros H. destruct (decide (x < 2 ^ k)); [done|].
    assert (Z.testbit (Z.land x (Z.shiftl (Z.ones k) k)) (Z.log2 x) = true) as E.
    { assert (k ≤ Z.log2 x) by (apply Z.log2_le_pow2; lia).
      assert (Z.log2 x < 2 * k) by (apply Z.log2_lt_pow2; lia).
      rewrite Z.land_spec, Z.bit_log2, Z.shiftl_spec, Z.testbit_ones_nonneg by lia.
      simpl. apply Z.ltb_lt. lia. }
    by rewrite H, Z.bits_0 in E.
  - intros H. apply Z.bits_inj'. intros i Hi.
    rewrite Z.land_spec, Z.bits_0, Z.shiftl_spec by lia.
    destruct (decide (i < k)).
    + rewrite (Z.testbit_neg_r _ (i - k)) by lia. by rewrite andb_false_r.
    + rewrite (fits_testbit_high k x) by (unfold fits; lia). done.
Qed.

(** What one step does to the logarithm still to be found. *)
Lemma log2_step_spec k x y x' y' :
  0 < k → 0 < x < 2 ^ (2 * k) →
  log2_step (Z.shiftl (Z.ones k) k) k (x, y) = (x', y') →
  0 < x' < 2 ^ k ∧ y' + Z.log2 x' = y + Z.log2 x.
Proof.
  intros Hk Hx. unfold log2_step. case_decide as E; intros [= <- <-].
  - apply land_high_half in E; lia.
  - rewrite land_high_half in E by lia.
    assert (k ≤ Z.log2 x) by (apply Z.log2_le_pow2; lia).
    rewrite Z.log2_shiftr by lia. split; [|lia].
    rewrite Z.shiftr_div_pow2 by lia. split.
    + apply Z.div_str_pos. lia.
    + apply Z.div_lt_upper_bound; [lia|]. rewrite <- Z.pow_add_r by lia.
      replace (k + k) with (2 * k) by lia. lia.
Qed.

(** The last two bits: what remains is 1, 2 or 3. *)
Lemma log2_last x y : 0 < x < 2 ^ 2 →
  (if decide (Z.land x 2 = 0) then y else y + 1) = y + Z.log2 x.
Proof.
  intros H. assert (x = 1 ∨ x = 2 ∨ x = 3) as [->|[->| ->]] by lia; simpl; lia.
Qed.

(** The common tail of the two searches, from 16 bits down. *)
Lemma log2_tail x y : 0 < x < 2 ^ 32 →
  (let s := log2_step 0xffff0000 16 (x, y) in
   let s := log2_step 0x0000ff00 8 s in
   let s := log2_step 0x000000f0 4 s in
   let s := log2_step 0x0000000c 2 s in
   let '(x, y) := s in
   if decide (Z.land x 0x00000002 = 0) then y else y + 1) = y + Z.log2 x.
Proof.
  intros Hx. cbv zeta.
  destruct (log2_step _ 16 _) as [x1 y1] eqn:E1.
  apply (log2_step_spec 16) in E1 as [B1 <-]; [|lia..].
  destruct (log2_step _ 8 _) as [x2 y2] eqn:E2.
  apply (log2_step_spec 8) in E2 as [B2 <-]; [|lia..].
  destruct (log2_step _ 4 _) as [x3 y3] eqn:E3.
  apply (log2_step_spec 4) in E3 as [B3 <-]; [|lia..].
  destruct (log2_step _ 2 _) as [x4 y4] eqn:E4.
  apply (log2_step_spec 2) in E4 as [B4 <-]; [|lia..].
  by apply log2_last.
Qed.

(** [floorLog2] of a positive 32-bit value is its integer logarithm. *)
Lemma floorLog2_log2 x : 0 < x < 2 ^ 32 → floorLog2 x = Ok (Z.log2 x).
Proof.
  intros Hx. unfold floorLog2. rewrite bool_decide_eq_true_2 by lia. cbn [assert_that].
  change (Ok tt ≫= ?f) with (f tt). cbv beta.
  change (Z.log2 x) with (0 + Z.log2 x). rewrite <- (log2_tail x 0) by done.
  cbv zeta. by destruct (log2_step 12 2 _).
Qed.

Lemma floorLog2_ull_log2 x : 0 < x < 2 ^ 64 → floorLog2_ull x = Ok (Z.log2 x).
Proof.
  intros Hx. unfold floorLog2_ull. rewrite bool_decide_eq_true_2 by lia.
  cbn [assert_that]. change (Ok tt ≫= ?f) with (f tt). cbv beta zeta.
  destruct (log2_step _ 32 _) as [x1 y1] eqn:E1.
  apply (log2_step_spec 32) in E1 as [B1 E1]; [|lia..].
  change (0 + Z.log2 x) with (Z.log2 x) in E1. rewrite <- E1, <- log2_tail by done.
  cbv zeta. by destruct (log2_step 12 2 _).
Qed.

Lemma floorLog2_int_log2 x : 0 < x < 2 ^ 31 → floorLog2_int x = Ok (Z.log2 x).
Proof.
  intros Hx. unfold floorLog2_int. rewrite bool_decide_eq_true_2 by lia. simpl.
  unfold u32. rewrite uwrap_id by (unfold fits; lia). apply floorLog2_log2. lia.
Qed.

Lemma floorLog2_nonpos x : x ≤ 0 → floorLog2 x = Err AssertFail.
Proof. intros. unfold floorLog2. by rewrite bool_decide_eq_false_2 by lia. Qed.

(** [ceilLog2] is the smallest exponent whose power reaches the argument. *)
Lemma ceilLog2_log2_up n : 0 < n < 2 ^ 32 → ceilLog2 n = Ok (Z.log2_up n).
Proof.
  intros Hn. unfold ceilLog2. case_decide as E; [by subst|].
  unfold u32. rewrite uwrap_id by (unfold fits; lia).
  rewrite floorLog2_log2 by lia. simpl. f_equal.
  rewrite Z.log2_up_eqn by lia. by rewrite <- Z.sub_1_r.
Qed.

(** ** Powers of two *)

Lemma land_pred_pow2 k : 0 ≤ k → Z.land (2 ^ k) (2 ^ k - 1) = 0.
Proof.
  intros. rewrite Z.sub_1_r, <- Z.ones_equiv, Z.land_ones by done.
  apply Z.mod_same. lia.
Qed.

(** [n & ~(n-1)] in terms of the bits that [n - 1] clears. *)
Lemma leastSigBit_land w n : 0 ≤ w → fits w n → 0 < n →
  leastSigBit w n = n - Z.land n (n - 1).
Proof.
  intros Hw Hn Hpos. unfold leastSigBit.
  rewrite (uwrap_id w (n - 1)) by (unfold fits in *; lia).
  assert (Z.land n (uwrap w (Z.lnot (n - 1))) = Z.ldiff n (n - 1)) as ->.
  { apply Z.bits_inj'. intros i Hi.
    rewrite Z.land_spec, uwrap_testbit, Z.lnot_spec, Z.ldiff_spec by done.
    destruct (Z.ltb_spec i w); [by rewrite andb_true_r|].
    by rewrite (fits_testbit_high w n). }
  rewrite (Z.sub_nocarry_ldiff n (Z.land n (n - 1))).
  - apply Z.bits_inj'. intros i Hi. rewrite !Z.ldiff_spec, Z.land_spec.
    by destruct (Z.testbit n i), (Z.testbit (n - 1) i).
  - apply Z.bits_inj'. intros i Hi. rewrite Z.ldiff_spec, Z.land_spec, Z.bits_0.
    by destruct (Z.testbit n i), (Z.testbit (n - 1) i).
Qed.

(** The lowest set bit of [n] is gone from [n & (n-1)]: only powers of two
    lose everything. *)
Lemma land_pred_zero n : 0 < n → (Z.land n (n - 1) = 0 ↔ n = 2 ^ Z.log2 n).
Proof.
  intros Hn. split.
  - intros H. destruct (Z.log2_spec n Hn) as [Hlo Hhi].
    destruct (decide (n = 2 ^ Z.log2 n)) as [|Hne]; [done|].
    exfalso. assert (n ≠ 1) by (by intros ->).
    assert (Z.testbit (Z.land n (n - 1)) (Z.log2 n) = true) as E.
    { rewrite Z.land_spec, Z.bit_log2 by done. simpl.
      replace (Z.log2 n) with (Z.log2 (n - 1)); [apply Z.bit_log2; lia|].
      apply Z.log2_unique; [apply Z.log2_nonneg|lia]. }
    by rewrite H, Z.bits_0 in E.
  - intros ->. apply land_pred_pow2, Z.log2_nonneg.
Qed.

(** [isPowerOf2] on a [w]-bit unsigned value is true exactly on the powers of
    two. *)
Lemma isPowerOf2_spec w n : 0 ≤ w → fits w n →
  isPowerOf2 w n = true ↔ ∃ k, 0 ≤ k ∧ n = 2 ^ k.
Proof.
  intros Hw Hn. unfold isPowerOf2.
  rewrite andb_true_iff, !bool_decide_eq_true. split.
  - intros [Hne H]. assert (0 < n) by (unfold fits in Hn; lia).
    rewrite leastSigBit_land in H by done.
    exists (Z.log2 n). split; [apply Z.log2_nonneg|].
    apply land_pred_zero; lia.
  - intros (k & Hk & ->). split; [lia|].
    rewrite leastSigBit_land, land_pred_pow2 by (done || lia). lia.
Qed.

Lemma isPow2_spec w n : 0 ≤ w → fits w n →
  Bitfield.isPow2 w n = true ↔ n = 0 ∨ isPowerOf2 w n = true.
Proof.
  intros Hw Hn. rewrite isPowerOf2_spec by done.
  unfold Bitfield.isPow2. rewrite bool_decide_eq_true.
  destruct (decide (n = 0)) as [->|Hne].
  - rewrite Z.land_0_l. naive_solver.
  - assert (0 < n) by (unfold fits in Hn; lia).
    rewrite (uwrap_id w (n - 1)) by (unfold fits in *; lia).
    rewrite land_pred_zero by done. split.
    + intros ->. right. exists (Z.log2 n). split; [apply Z.log2_nonneg|done].
    + intros [?|(k & ? & ->)]; [lia|]. by rewrite Z.log2_pow2.
Qed.

(** ** Rounding *)

Lemma divCeil_spec w a b : 0 < b → fits w (a + b - 1) →
  ∃ q, divCeil w a b = Ok q ∧ b * (q - 1) < a ≤ b * q.
Proof.
  intros Hb Hfit. unfold divCeil. rewrite decide_False by lia.
  rewrite uwrap_id by done. eexists; split; [done|].
  pose proof (Z.div_mod (a + b - 1) b ltac:(lia)).
  pose proof (Z.mod_pos_bound (a + b - 1) b Hb). nia.
Qed.

Lemma land_not_mask w x k : 0 ≤ k ≤ w → fits w x →
  Z.land x (uwrap w (Z.lnot (uwrap w (2 ^ k - 1)))) = x - x `mod` 2 ^ k.
Proof.
  intros Hk Hx.
  assert (2 ^ k ≤ 2 ^ w) by (apply Z.pow_le_mono_r; lia).
  rewrite (uwrap_id w (2 ^ k - 1)) by (unfold fits; lia).
  rewrite Z.sub_1_r, <- Z.ones_equiv.
  transitivity (Z.ldiff x (Z.ones k)).
  - apply Z.bits_inj'. intros i Hi.
    rewrite Z.land_spec, uwrap_testbit, Z.lnot_spec, Z.ldiff_spec by lia.
    destruct (Z.ltb_spec i w); [by rewrite andb_true_r|].
    by rewrite (fits_testbit_high w x).
  - rewrite Z.ldiff_ones_r, Z.shiftr_div_pow2, Z.shiftl_mul_pow2 by lia.
    pose proof (Z.div_mod x (2 ^ k)). lia.
Qed.

Lemma roundDown_spec w x k : 0 ≤ k ≤ w → fits w x →
  roundDown w x (2 ^ k) = 2 ^ k * (x `div` 2 ^ k).
Proof.
  intros. unfold roundDown. rewrite land_not_mask by done.
  pose proof (Z.div_mod x (2 ^ k)). lia.
Qed.

Lemma roundUp_spec w x k : 0 ≤ k ≤ w → fits w (x + 2 ^ k - 1) → 0 ≤ x →
  roundUp w x (2 ^ k) = 2 ^ k * ((x + 2 ^ k - 1) `div` 2 ^ k).
Proof.
  intros Hk Hx ?. unfold roundUp.
  assert (2 ^ k ≤ 2 ^ w) by (apply Z.pow_le_mono_r; lia).
  rewrite (uwrap_id w (x + _)).
  - rewrite land_not_mask; [|done|].
    + rewrite uwrap_id by (unfold fits; lia).
      replace (x + (2 ^ k - 1)) with (x + 2 ^ k - 1) by lia.
      pose proof (Z.div_mod (x + 2 ^ k - 1) (2 ^ k)). lia.
    + rewrite uwrap_id by (unfold fits; lia).
      by replace (x + (2 ^ k - 1)) with (x + 2 ^ k - 1) by lia.
  - rewrite uwrap_id by (unfold fits; lia).
    by replace (x + (2 ^ k - 1)) with (x + 2 ^ k - 1) by lia.
Qed.
