(* ===== verification/BitSearch.v ===== *)
(** * The rest of base/intmath.hh and base/bitfield.hh

    Powers, character classes, sign extension, the searches for the highest and the lowest set
    bit, and the count of set bits; what they compute. *)

From S2P Require Import Prelude IntMath.
Local Open Scope Z_scope.

Module Numbers.

(** [power(uint32_t n, uint32_t e)]: the product wraps at 64 bits; an [int] counts up to [e]. *)
Definition power (n e : Z) : outcome Z :=
  if decide (e = 0) then Ok 1
  else if decide (2 ^ 31 ≤ e) then Err OutOfBounds
  else Ok (foldl (λ result _, u64 (result * n)) n (seqZ 1 (e - 1))).

(** [floorPow2] and [ceilPow2] at [T = unsigned]; a shift by 32 is undefined. *)
Definition floorPow2 (n : Z) : outcome Z := y ← IntMath.floorLog2 n; Ok (u32 (Z.shiftl 1 y)).
Definition ceilPow2 (n : Z) : outcome Z :=
  y ← IntMath.ceilLog2 n; if decide (y < 32) then Ok (u32 (Z.shiftl 1 y)) else Err BadShift.

(** Characters are their codes. *)
Definition isHex (c : Z) : bool :=
  ((48 <=? c) && (c <=? 57)) || ((65 <=? c) && (c <=? 70)) || ((97 <=? c) && (c <=? 102)).
Definition isOct (c : Z) : bool := (48 <=? c) && (c <=? 55).
Definition isDec (c : Z) : bool := (48 <=? c) && (c <=? 57).

Definition hex2Int (c : Z) : Z :=
  if (48 <=? c) && (c <=? 57) then c - 48
  else if (65 <=? c) && (c <=? 70) then c - 65 + 10
  else if (97 <=? c) && (c <=? 102) then c - 97 + 10
  else 0.

End Numbers.

Module BitSearch.
Import Bitfield.

(** [mask(first, last)] *)
Definition mask_range (first last : Z) : outcome Z := mbits ones64 first last.

(** [sext<N>] *)
Definition sext (N val : Z) : outcome Z :=
  sign_bit ← bits val (N - 1) (N - 1);
  if decide (sign_bit = 0) then Ok val else m ← mask N; Ok (Z.lor val (not64 m)).

(** One step [if (bits(val, first, last)) { msb += k; val >>= k; }]. *)
Definition msb_step (first last k : Z) (s : Z * Z) : outcome (Z * Z) :=
  b ← bits s.1 first last;
  Ok (if decide (b = 0) then s else (Z.shiftr s.1 k, s.2 + k)).

Definition findMsbSet (val : Z) : outcome Z :=
  if decide (val = 0) then Ok 0
  else
    s ← msb_step 63 32 32 (val, 0);
    s ← msb_step 31 16 16 s;
    s ← msb_step 15 8 8 s;
    s ← msb_step 7 4 4 s;
    s ← msb_step 3 2 2 s;
    s ← msb_step 1 1 1 s;
    Ok s.2.

(** One step [if (!bits(val, first, 0)) { lsb += k; val >>= k; }]. *)
Definition lsb_step (first k : Z) (s : Z * Z) : outcome (Z * Z) :=
  b ← bits s.1 first 0;
  Ok (if decide (b = 0) then (Z.shiftr s.1 k, s.2 + k) else s).

Definition findLsbSet (val : Z) : outcome Z :=
  if decide (val = 0) then Ok 64
  else
    s ← lsb_step 31 32 (val, 0);
    s ← lsb_step 15 16 s;
    s ← lsb_step 7 8 s;
    s ← lsb_step 3 4 s;
    s ← lsb_step 1 2 s;
    s ← lsb_step 0 1 s;
    Ok s.2.

(** [popCount] as it is written for compilers without a builtin. *)
Definition popCount (val : Z) : Z :=
  let m1 := 0x5555555555555555 in
  let m2 := 0x3333333333333333 in
  let m4 := 0x0f0f0f0f0f0f0f0f in
  let sum := 0x0101010101010101 in
  let val := u64 (val - Z.land (Z.shiftr val 1) m1) in
  let val := u64 (Z.land val m2 + Z.land (Z.shiftr val 2) m2) in
  let val := Z.land (u64 (val + Z.shiftr val 4)) m4 in
  s32 (Z.shiftr (u64 (val * sum)) 56).

End BitSearch.

Import Numbers BitSearch.

(** ** Powers *)

Lemma power_spec n e : fits 32 n → 0 ≤ e < 2 ^ 31 → power n e = Ok (u64 (n ^ e)).
Proof.
  intros Hn He. unfold power. case_decide as E; [by subst|]. rewrite decide_False by lia. f_equal.
  assert (∀ k : nat, foldl (λ result _, u64 (result * n)) n (seqZ 1 (Z.of_nat k)) = u64 (n ^ (Z.of_nat k + 1))) as H.
  { induction k as [|k IH].
    - change (Z.of_nat 0) with 0. rewrite Z.add_0_l, Z.pow_1_r. change (n = u64 n). unfold u64. by rewrite uwrap_id by (unfold fits in *; lia).
    - rewrite seqZ_S, foldl_app, IH. cbn [foldl]. rewrite Nat2Z.inj_succ, <- Z.add_1_r, (Z.pow_add_r n (_ + 1)), Z.pow_1_r by lia.
      unfold u64, uwrap. by rewrite Zmult_mod_idemp_l. }
  replace (e - 1) with (Z.of_nat (Z.to_nat (e - 1))) by lia. rewrite H. do 2 f_equal. lia.
Qed.

Lemma floorPow2_spec n : 0 < n < 2 ^ 32 → ∃ k, 0 ≤ k ∧ floorPow2 n = Ok (2 ^ k) ∧ 2 ^ k ≤ n < 2 * 2 ^ k.
Proof.
  intros Hn. unfold floorPow2. rewrite floorLog2_log2 by done. pose proof (Z.log2_nonneg n). exists (Z.log2 n). cbn.
  pose proof (Z.log2_spec n ltac:(lia)) as Hl. rewrite Z.pow_succ_r in Hl by done. split_and!; [done| |lia..].
  rewrite Z.shiftl_1_l. unfold u32. rewrite uwrap_id; [done|]. unfold fits. lia.
Qed.

(** The value of a hexadecimal digit; the digits are the characters that [isHex] accepts. *)
Lemma hex2Int_spec d : 0 ≤ d < 16 →
  ∃ c, isHex c = true ∧ hex2Int c = d ∧ (isDec c = true ↔ d < 10) ∧ (isOct c = true ↔ d < 8).
Proof.
  intros Hd. exists (if decide (d < 10) then 48 + d else 87 + d). unfold isHex, isDec, isOct, hex2Int.
  case_decide; repeat split; repeat case_match; lia.
Qed.

(** ** Slices *)

Lemma mask_ones n : 0 ≤ n ≤ 64 → Bitfield.mask n = Ok (Z.ones n).
Proof.
  intros Hn. unfold Bitfield.mask. case_decide as E; [by subst|]. unfold shl64. rewrite decide_True by lia. cbn.
  rewrite Z.shiftl_1_l. assert (2 ^ n ≤ 2 ^ 63) by (apply Z.pow_le_mono_r; lia).
  unfold u64. rewrite (uwrap_id 64 (2 ^ n)), uwrap_id by (unfold fits; lia). by rewrite Z.ones_equiv, Z.sub_1_r.
Qed.

Lemma bits_slice v first last : 0 ≤ last ≤ first → first < 64 →
  Bitfield.bits v first last = Ok ((v `div` 2 ^ last) `mod` 2 ^ (first - last + 1)).
Proof.
  intros Hl Hf. unfold Bitfield.bits, shr64. rewrite decide_True by lia. cbn. rewrite mask_ones by lia. cbn.
  by rewrite Z.land_ones, Z.shiftr_div_pow2 by lia.
Qed.

(** The sign bit of the low [N] bits goes to all higher ones: as a two's complement number of
    64 bits the result is what the low bits are as one of [N] bits. *)
Lemma sext_spec N v : 0 < N ≤ 64 → fits N v →
  sext N v = Ok (if decide (v < 2 ^ (N - 1)) then v else u64 (v - 2 ^ N)).
Proof.
  intros HN Hv. unfold sext. rewrite bits_slice by lia. cbn. replace (N - 1 - (N - 1) + 1) with 1 by lia.
  assert (2 ^ N = 2 ^ (N - 1) * 2) as Hp by (rewrite Z.mul_comm, <- Z.pow_succ_r by lia; f_equal; lia). unfold fits in Hv.
  destruct (decide (v < 2 ^ (N - 1))).
  - rewrite Z.div_small, decide_True by (done || lia). done.
  - assert (v `div` 2 ^ (N - 1) = 1) as -> by (symmetry; apply (Z.div_unique_pos _ _ _ (v - 2 ^ (N - 1))); lia).
    change (1 `mod` 2 ^ 1) with 1. rewrite decide_False, mask_ones by lia. cbn. f_equal.
    apply Z.bits_inj'. intros i Hi. rewrite Z.lor_spec, not64_testbit, Z.testbit_ones_nonneg by lia.
    unfold u64. rewrite uwrap_testbit by done.
    assert (Z.testbit (v - 2 ^ N) i = if decide (i < N) then Z.testbit v i else true) as ->.
    { case_decide.
      - rewrite <- (Z.mod_pow2_bits_low (v - 2 ^ N) N i), <- (Z.mod_pow2_bits_low v N i) by lia. f_equal.
        replace (v - 2 ^ N) with (v + (-1) * 2 ^ N) by lia. apply Z_mod_plus_full.
      - assert (v - 2 ^ N = Z.lnot (2 ^ N - 1 - v)) as -> by (unfold Z.lnot; lia).
        rewrite Z.lnot_spec, (fits_testbit_high N) by (done || unfold fits; lia). done. }
    destruct (decide (i < N)).
    + assert (i <? N = true) as -> by lia. assert (i <? 64 = true) as -> by lia. cbn. by rewrite andb_true_r, orb_false_r.
    + assert (i <? N = false) as -> by lia. rewrite (fits_testbit_high N v) by (done || unfold fits; lia).
      cbn. assert (0 <=? i = true) as -> by lia. done.
Qed.

(** ** The searches *)

Lemma msb_step_spec first k x y : first = 2 * k - 1 → 0 < k → 2 * k ≤ 64 → 0 < x < 2 ^ (2 * k) →
  ∃ x' y', msb_step first k k (x, y) = Ok (x', y') ∧ 0 < x' < 2 ^ k ∧ y' + Z.log2 x' = y + Z.log2 x.
Proof.
  intros -> Hk Hk2 Hx. unfold msb_step. cbn [fst snd]. rewrite bits_slice by lia. cbn [mbind outcome_bind].
  replace (2 * k - 1 - k + 1) with k by lia.
  assert (2 ^ (2 * k) = 2 ^ k * 2 ^ k) as Hp by (rewrite <- Z.pow_add_r by lia; f_equal; lia).
  assert (0 ≤ x `div` 2 ^ k < 2 ^ k) as Hd by (split; [apply Z.div_pos; lia|apply Z.div_lt_upper_bound; lia]).
  rewrite Z.mod_small by done. case_decide as E; (eexists _, _; split; [reflexivity|]).
  - apply Z.div_small_iff in E; lia.
  - rewrite Z.shiftr_div_pow2 by lia. split; [lia|]. rewrite <- Z.shiftr_div_pow2, Z.log2_shiftr by lia.
    assert (k ≤ Z.log2 x); [|lia]. apply Z.log2_le_pow2; [lia|].
    destruct (decide (x < 2 ^ k)); [|lia]. by rewrite Z.div_small in E by lia.
Qed.

Lemma findMsbSet_log2 v : 0 < v < 2 ^ 64 → findMsbSet v = Ok (Z.log2 v).
Proof.
  intros Hv. unfold findMsbSet. rewrite decide_False by lia.
  destruct (msb_step_spec 63 32 v 0) as (x1 & y1 & E1 & B1 & S1); [lia..|].
  destruct (msb_step_spec 31 16 x1 y1) as (x2 & y2 & E2 & B2 & S2); [lia..|].
  destruct (msb_step_spec 15 8 x2 y2) as (x3 & y3 & E3 & B3 & S3); [lia..|].
  destruct (msb_step_spec 7 4 x3 y3) as (x4 & y4 & E4 & B4 & S4); [lia..|].
  destruct (msb_step_spec 3 2 x4 y4) as (x5 & y5 & E5 & B5 & S5); [lia..|].
  destruct (msb_step_spec 1 1 x5 y5) as (x6 & y6 & E6 & B6 & S6); [lia..|].
  rewrite E1. cbn -[msb_step]. rewrite E2. cbn -[msb_step]. rewrite E3. cbn -[msb_step].
  rewrite E4. cbn -[msb_step]. rewrite E5. cbn -[msb_step]. rewrite E6. cbn. f_equal.
  assert (x6 = 1) as -> by lia. change (Z.log2 1) with 0 in *. lia.
Qed.

Lemma lsb_step_spec first k x y : first = k - 1 → 0 < k ≤ 32 → x `mod` 2 ^ (2 * k) ≠ 0 → 0 ≤ y →
  ∃ x' y', lsb_step first k (x, y) = Ok (x', y') ∧ x' `mod` 2 ^ k ≠ 0 ∧ x' * 2 ^ y' = x * 2 ^ y ∧ y ≤ y' ≤ y + k.
Proof.
  intros -> Hk Hx Hy. unfold lsb_step. cbn [fst snd]. rewrite bits_slice by lia. cbn [mbind outcome_bind].
  rewrite Z.div_1_r. replace (k - 1 - 0 + 1) with k by lia. 
  case_decide as E; (eexists _, _; split; [reflexivity|]); [|split_and!; (done || lia)]. rewrite Z.shiftr_div_pow2 by lia.
  pose proof (Z.div_mod x (2 ^ k) ltac:(lia)) as Hd. rewrite E, Z.add_0_r in Hd.
  assert (2 ^ (2 * k) = 2 ^ k * 2 ^ k) as Hp by (rewrite <- Z.pow_add_r by lia; f_equal; lia).
  split_and!; [|rewrite Z.pow_add_r by lia; nia|lia..].
  intros H0. apply Hx. rewrite Hp, Hd, Zmult_mod_distr_l, H0. lia.
Qed.

(** The lowest set bit: the word is an odd multiple of its power. *)
Lemma findLsbSet_spec v : 0 < v < 2 ^ 64 →
  ∃ r m, findLsbSet v = Ok r ∧ 0 ≤ r < 64 ∧ v = m * 2 ^ r ∧ m `mod` 2 = 1.
Proof.
  intros Hv. unfold findLsbSet. rewrite decide_False by lia.
  destruct (lsb_step_spec 31 32 v 0) as (x1 & y1 & E1 & B1 & S1 & R1); [lia|lia|by rewrite Z.mod_small; lia|lia|].
  destruct (lsb_step_spec 15 16 x1 y1) as (x2 & y2 & E2 & B2 & S2 & R2); [lia|lia|done|lia|].
  destruct (lsb_step_spec 7 8 x2 y2) as (x3 & y3 & E3 & B3 & S3 & R3); [lia|lia|done|lia|].
  destruct (lsb_step_spec 3 4 x3 y3) as (x4 & y4 & E4 & B4 & S4 & R4); [lia|lia|done|lia|].
  destruct (lsb_step_spec 1 2 x4 y4) as (x5 & y5 & E5 & B5 & S5 & R5); [lia|lia|done|lia|].
  destruct (lsb_step_spec 0 1 x5 y5) as (x6 & y6 & E6 & B6 & S6 & R6); [lia|lia|done|lia|].
  rewrite E1. cbn -[lsb_step]. rewrite E2. cbn -[lsb_step]. rewrite E3.
  cbn -[lsb_step]. rewrite E4. cbn -[lsb_step]. rewrite E5. cbn -[lsb_step]. rewrite E6. cbn.
  exists y6, x6. split_and!; [done|lia|lia| |].
  - rewrite S6, S5, S4, S3, S2, S1. lia.
  - pose proof (Z.mod_pos_bound x6 2 ltac:(lia)). change (2 ^ 1) with 2 in B6. lia.
Qed.

(** ** Counting bits *)

(** The number of ones among the low [n] bits. *)
Fixpoint ones_in (n : nat) (v : Z) : Z :=
  match n with O => 0 | S n => v `mod` 2 + ones_in n (v `div` 2) end.

(** A word as [n] digits of [k] bits, each at most [b], with their sum. *)
Inductive digits (k b : Z) : nat → Z → Z → Prop :=
  | digits_nil : digits k b 0 0 0
  | digits_cons n d v s : 0 ≤ d ≤ b → digits k b n v s → digits k b (S n) (d + 2 ^ k * v) (d + s).

Lemma digits_bits n : ∀ v, fits (Z.of_nat n) v → digits 1 1 n v (ones_in n v).
Proof.
  induction n as [|n IH]; intros v Hv.
  - unfold fits in Hv. assert (v = 0) as -> by (change (2 ^ Z.of_nat 0) with 1 in Hv; lia). constructor.
  - pose proof (Z.div_mod v 2 ltac:(lia)). pose proof (Z.mod_pos_bound v 2 ltac:(lia)). cbn [ones_in].
    assert (digits 1 1 (S n) (v `mod` 2 + 2 ^ 1 * (v `div` 2)) (v `mod` 2 + ones_in n (v `div` 2))) as HD.
    { constructor; [lia|]. apply IH. unfold fits in *. rewrite Nat2Z.inj_succ, Z.pow_succ_r in Hv by lia.
      split; [apply Z.div_pos; lia|apply Z.div_lt_upper_bound; lia]. }
    by replace (v `mod` 2 + 2 ^ 1 * (v `div` 2)) with v in HD by lia.
Qed.

(** The conjunction of two words, low part and high part. *)
Lemma land_split n a c u w : 0 ≤ n → 0 ≤ a < 2 ^ n → 0 ≤ c < 2 ^ n →
  Z.land (a + 2 ^ n * u) (c + 2 ^ n * w) = Z.land a c + 2 ^ n * Z.land u w.
Proof.
  intros Hn Ha Hc.
  assert (∀ x y, 0 ≤ x < 2 ^ n → ∀ i, 0 ≤ i → Z.testbit (x + 2 ^ n * y) i = if i <? n then Z.testbit x i else Z.testbit y (i - n)) as H.
  { intros x y Hx i Hi. destruct (Z.ltb_spec i n).
    - rewrite <- (Z.mod_pow2_bits_low _ n i) by done. by rewrite Z.mul_comm, Z_mod_plus_full, Z.mod_small.
    - replace i with ((i - n) + n) at 1 by lia. rewrite <- Z.div_pow2_bits by lia.
      by rewrite Z.mul_comm, Z.div_add, Z.div_small, Z.add_0_l by lia. }
  apply Z.bits_inj'. intros i Hi.
  assert (0 ≤ Z.land a c < 2 ^ n) as Hac.
  { split; [apply Z.land_nonneg; lia|]. destruct (decide (Z.land a c = 0)) as [->|]; [lia|].
    apply Z.log2_lt_pow2; [pose proof (Z.land_nonneg a c); lia|]. pose proof (Z.log2_land a c ltac:(lia) ltac:(lia)).
    assert (0 < a) by (destruct (decide (a = 0)) as [->|]; [by rewrite Z.land_0_l in *|lia]).
    pose proof (proj1 (Z.log2_lt_pow2 a n ltac:(done)) ltac:(lia)). lia. }
  rewrite Z.land_spec, !H, Z.land_spec by done. destruct (i <? n); by rewrite ?Z.land_spec.
Qed.

(** The masks: [n] times [k] ones below [k] zeros. *)
Fixpoint half_mask (k : Z) (n : nat) : Z :=
  match n with O => 0 | S n => Z.ones k + 2 ^ (2 * k) * half_mask k n end.

Section digits.
Context (k b : Z) (Hk : 0 < k) (Hb : b < 2 ^ k).
Implicit Types (n : nat) (v s : Z).

Lemma digits_nonneg n v s : digits k b n v s → 0 ≤ v.
Proof. induction 1; nia. Qed.

Lemma digits_fits n v s : digits k b n v s → fits (k * Z.of_nat n) v.
Proof using Hk Hb.
  induction 1 as [|n d v s Hd _ IH]; unfold fits in *; [lia|].
  rewrite Nat2Z.inj_succ, Z.mul_succ_r, Z.pow_add_r by lia. nia.
Qed.

Lemma digits_low n v s : digits k b n v s → 0 ≤ b → 0 ≤ v `mod` 2 ^ k ≤ b.
Proof using Hk Hb.
  intros [|n' d v' s' Hd _] H0; [by rewrite Z.mod_0_l by lia|]. by rewrite Z.mul_comm, Z_mod_plus_full, Z.mod_small by lia.
Qed.

Lemma shift_digit d v : 0 ≤ d < 2 ^ k → Z.shiftr (d + 2 ^ k * v) k = v.
Proof using Hk. intros Hd. rewrite Z.shiftr_div_pow2, Z.mul_comm, Z.div_add, Z.div_small by lia. done. Qed.

Lemma low_half d d' v m : 0 ≤ d < 2 ^ k → 0 ≤ d' < 2 ^ k →
  Z.land (d + 2 ^ k * (d' + 2 ^ k * v)) (Z.ones k + 2 ^ (2 * k) * m) = d + 2 ^ (2 * k) * Z.land v m.
Proof using Hk.
  intros Hd Hd'. assert (2 ^ (2 * k) = 2 ^ k * 2 ^ k) as Hp by (rewrite <- Z.pow_add_r by lia; f_equal; lia).
  replace (d + 2 ^ k * (d' + 2 ^ k * v)) with ((d + 2 ^ k * d') + 2 ^ (2 * k) * v) by nia.
  rewrite Z.ones_equiv, land_split by nia. f_equal. rewrite <- Z.ones_equiv, Z.land_ones by lia.
  by rewrite Z.mul_comm, Z_mod_plus_full, Z.mod_small.
Qed.

(** Adding the digits in pairs, after masking. *)
Lemma pair_sum n : ∀ v s, digits k b (2 * n) v s →
  digits (2 * k) (2 * b) n (Z.land v (half_mask k n) + Z.land (Z.shiftr v k) (half_mask k n)) s ∧
  v = Z.land v (half_mask k n) + 2 ^ k * Z.land (Z.shiftr v k) (half_mask k n).
Proof using Hk Hb.
  assert (2 ^ (2 * k) = 2 ^ k * 2 ^ k) as Hp by (rewrite <- Z.pow_add_r by lia; f_equal; lia).
  induction n as [|n IH]; intros v s HD.
  { inversion HD; subst. cbn [half_mask]. rewrite !Z.land_0_r. split; [constructor|lia]. }
  replace (2 * S n)%nat with (S (S (2 * n))) in HD by lia. inversion HD as [|? d v1 s1 Hd HD1]; subst.
  inversion HD1 as [|? d' v2 s2 Hd' HD2]; subst. destruct (IH v2 s2 HD2) as [IH1 IH2]. cbn [half_mask].
  rewrite low_half by lia. rewrite shift_digit by lia.
  pose proof (Z.div_mod v2 (2 ^ k) ltac:(lia)) as Hv. rewrite <- Z.shiftr_div_pow2 in Hv by lia.
  pose proof (Z.mod_pos_bound v2 (2 ^ k) ltac:(lia)) as Hm.
  assert (Z.land (d' + 2 ^ k * v2) (Z.ones k + 2 ^ (2 * k) * half_mask k n) =
    d' + 2 ^ (2 * k) * Z.land (Z.shiftr v2 k) (half_mask k n)) as ->.
  { rewrite <- (low_half d' (v2 `mod` 2 ^ k)) by lia. do 3 f_equal. lia. }
  split; [|nia]. replace (d + (d' + s2)) with ((d + d') + s2) by lia.
  match goal with |- digits _ _ _ ?x _ => replace x with ((d + d') + 2 ^ (2 * k) *
    (Z.land v2 (half_mask k n) + Z.land (Z.shiftr v2 k) (half_mask k n))) by lia end.
  constructor; [lia|done].
Qed.

(** Adding them before masking, when the sums are small. *)
Lemma sum_pairs n : 0 ≤ b → 2 * b < 2 ^ k → ∀ v s, digits k b (2 * n) v s →
  digits (2 * k) (2 * b) n (Z.land (v + Z.shiftr v k) (half_mask k n)) s.
Proof using Hk Hb.
  intros H0 Hbb. assert (2 ^ (2 * k) = 2 ^ k * 2 ^ k) as Hp by (rewrite <- Z.pow_add_r by lia; f_equal; lia).
  induction n as [|n IH]; intros v s HD.
  { inversion HD; subst. cbn [half_mask]. rewrite !Z.land_0_r. constructor. }
  replace (2 * S n)%nat with (S (S (2 * n))) in HD by lia. inversion HD as [|? d v1 s1 Hd HD1]; subst.
  inversion HD1 as [|? d' v2 s2 Hd' HD2]; subst. specialize (IH v2 s2 HD2). cbn [half_mask].
  rewrite shift_digit by lia.
  pose proof (Z.div_mod v2 (2 ^ k) ltac:(lia)) as Hv. rewrite <- Z.shiftr_div_pow2 in Hv by lia.
  pose proof (digits_low _ _ _ HD2 H0) as Hm.
  match goal with |- digits _ _ _ (Z.land ?x _) _ => replace x with
    ((d + d') + 2 ^ k * ((d' + v2 `mod` 2 ^ k) + 2 ^ k * (v2 + Z.shiftr v2 k))) by lia end.
  rewrite low_half by lia. replace (d + (d' + s2)) with ((d + d') + s2) by lia. constructor; [lia|done].
Qed.

End digits.

(** The sum of eight bytes by one multiplication: below it in the product are the sums of the
    lower bytes, above it those of the higher ones. *)
Lemma horizontal_sum v s : digits 8 8 8 v s → s32 (Z.shiftr (u64 (v * 0x0101010101010101)) 56) = s.
Proof.
  intros HD. inversion HD as [|? d0 ? ? H0 HD']; subst; clear HD; rename HD' into HD.
  inversion HD as [|? d1 ? ? H1 HD']; subst; clear HD; rename HD' into HD.
  inversion HD as [|? d2 ? ? H2 HD']; subst; clear HD; rename HD' into HD.
  inversion HD as [|? d3 ? ? H3 HD']; subst; clear HD; rename HD' into HD.
  inversion HD as [|? d4 ? ? H4 HD']; subst; clear HD; rename HD' into HD.
  inversion HD as [|? d5 ? ? H5 HD']; subst; clear HD; rename HD' into HD.
  inversion HD as [|? d6 ? ? H6 HD']; subst; clear HD; rename HD' into HD.
  inversion HD as [|? d7 ? ? H7 HD']; subst; clear HD; rename HD' into HD.
  inversion HD; subst. change (2 ^ 8) with 256. rewrite Z.shiftr_div_pow2 by lia. unfold u64, uwrap.
  set (low := (d0) * 256 ^ 0 + (d0 + d1) * 256 ^ 1 + (d0 + d1 + d2) * 256 ^ 2 + (d0 + d1 + d2 + d3) * 256 ^ 3 + (d0 + d1 + d2 + d3 + d4) * 256 ^ 4 + (d0 + d1 + d2 + d3 + d4 + d5) * 256 ^ 5 + (d0 + d1 + d2 + d3 + d4 + d5 + d6) * 256 ^ 6).
  set (high := (d1 + d2 + d3 + d4 + d5 + d6 + d7) * 256 ^ 0 + (d2 + d3 + d4 + d5 + d6 + d7) * 256 ^ 1 + (d3 + d4 + d5 + d6 + d7) * 256 ^ 2 + (d4 + d5 + d6 + d7) * 256 ^ 3 + (d5 + d6 + d7) * 256 ^ 4 + (d6 + d7) * 256 ^ 5 + (d7) * 256 ^ 6).
  set (s := d0 + (d1 + (d2 + (d3 + (d4 + (d5 + (d6 + (d7 + 0)))))))).
  assert (0 ≤ low < 2 ^ 56) by (unfold low; lia). assert (0 ≤ s ≤ 64) by (unfold s; lia).
  rewrite <- (Z.mod_unique_pos _ (2 ^ 64) high (s * 2 ^ 56 + low)); [|lia|unfold s, low, high; lia].
  rewrite <- (Z.div_unique_pos _ (2 ^ 56) s low) by lia. apply s32_id. lia.
Qed.

Lemma sum_fits v s : digits 4 4 16 v s → fits 64 (v + Z.shiftr v 4).
Proof.
  assert (∀ n v s, digits 4 4 n v s → 0 ≤ 15 * v ≤ 4 * (2 ^ (4 * Z.of_nat n) - 1)) as H.
  { induction 1 as [|n d v' s' Hd _ IH]; [done|]. rewrite Nat2Z.inj_succ, Z.mul_succ_r, Z.pow_add_r by lia. lia. }
  intros HD%H. rewrite Z.shiftr_div_pow2 by lia. unfold fits.
  pose proof (Z.div_mod v (2 ^ 4) ltac:(lia)). pose proof (Z.mod_pos_bound v (2 ^ 4) ltac:(lia)). lia.
Qed.

(** [popCount], as it is written without a builtin, is the number of bits that are set. *)
Lemma popCount_counts v : fits 64 v → popCount v = ones_in 64 v.
Proof.
  intros Hv. unfold popCount. cbv zeta. apply (digits_bits 64) in Hv. revert Hv. generalize (ones_in 64 v) as s. intros s HD.
  destruct (pair_sum 1 1 ltac:(lia) ltac:(lia) 32 v s HD) as [HD1 E1].
  change (half_mask 1 32) with 0x5555555555555555 in *.
  replace (v - Z.land (Z.shiftr v 1) 0x5555555555555555)
    with (Z.land v 0x5555555555555555 + Z.land (Z.shiftr v 1) 0x5555555555555555) by lia.
  clear E1 HD. revert HD1. generalize (Z.land v 0x5555555555555555 + Z.land (Z.shiftr v 1) 0x5555555555555555) as v1.
  intros v1 HD1. pose proof (digits_fits 2 2 ltac:(lia) ltac:(lia) 32 v1 s HD1) as F1.
  change (u64 v1) with (uwrap 64 v1). rewrite (uwrap_id 64 v1) by exact F1.
  destruct (pair_sum 2 2 ltac:(lia) ltac:(lia) 16 v1 s HD1) as [HD2 _].
  change (half_mask 2 16) with 0x3333333333333333 in *. revert HD2.
  generalize (Z.land v1 0x3333333333333333 + Z.land (Z.shiftr v1 2) 0x3333333333333333) as v2. intros v2 HD2.
  pose proof (digits_fits 4 4 ltac:(lia) ltac:(lia) 16 v2 s HD2) as F2.
  change (u64 v2) with (uwrap 64 v2). rewrite (uwrap_id 64 v2) by exact F2.
  pose proof (sum_pairs 4 4 ltac:(lia) ltac:(lia) 8 ltac:(lia) ltac:(lia) v2 s HD2) as HD3.
  change (half_mask 4 8) with 0x0f0f0f0f0f0f0f0f in HD3. apply horizontal_sum.
  assert (fits 64 (v2 + Z.shiftr v2 4)) as F3 by (eapply sum_fits; exact HD2).
  change (u64 (v2 + Z.shiftr v2 4)) with (uwrap 64 (v2 + Z.shiftr v2 4)). by rewrite uwrap_id.
Qed.
