(* ===== verification/Primes.v ===== *)
(** * Primes (base/intmath.hh, base/intmath.cc)

    [isPrime] tests divisors that are neither even nor multiples of three, so its answer is right
    for numbers that are neither themselves; [prevPrime] is meant to ask it only about such
    numbers.  It does when it starts from a multiple of three; otherwise its two strides are
    swapped, and it can return a multiple of three. *)

From Stdlib Require Import Znumtheory.
From S2P Require Import Prelude IntMath.
Local Open Scope Z_scope.

Module Primes.
Import IntMath.

(** The loop of [prevPrime], with fuel; [None] if it ran out. *)
Fixpoint prev_loop (fuel : nat) (n decr : Z) : option Z :=
  match fuel with
  | O => None
  | S fuel =>
      b ← isPrime n;
      if b : bool then Some n else prev_loop fuel (n - decr) (6 - decr)
  end.

Definition prevPrime (n : Z) : option Z :=
  let n := if decide (Z.land n 1 = 0) then n - 1 else n in
  let decr := Z.rem n 3 in
  let '(n, decr) := if decide (decr = 0) then (n - 2, 2) else (n, if decide (decr = 1) then 4 else decr) in
  prev_loop (S (Z.to_nat n)) n decr.

End Primes.

Import IntMath Primes.

(** Neither even nor a multiple of three. *)
Definition coprime6 (n : Z) : Prop := n `mod` 6 = 1 ∨ n `mod` 6 = 5.

Lemma coprime6_odd n d : coprime6 n → (d | n) → d `mod` 2 = 1 ∧ d `mod` 3 ≠ 0.
Proof.
  intros Hn [q ->]. unfold coprime6 in Hn. split.
  - pose proof (Z.mod_pos_bound d 2 ltac:(lia)). destruct (decide (d `mod` 2 = 0)) as [E|]; [|lia].
    apply Z.mod_divide in E as [e ->]; [|lia]. replace (q * (e * 2)) with (2 * (q * e)) in Hn by lia.
    assert ((2 * (q * e)) `mod` 6 = 2 * ((q * e) `mod` 3)) by (change 6 with (2 * 3); apply Zmult_mod_distr_l). lia.
  - intros [e ->]%Z.mod_divide; [|lia]. replace (q * (e * 3)) with (3 * (q * e)) in Hn by lia.
    assert ((3 * (q * e)) `mod` 6 = 3 * ((q * e) `mod` 2)) by (change 6 with (3 * 2); apply Zmult_mod_distr_l).
    pose proof (Z.mod_pos_bound (q * e) 2 ltac:(lia)). lia.
Qed.

(** A number without divisors up to its root is prime. *)
Lemma prime_by_root n i : 1 < n → n < i * i → 0 < i → (∀ d, 2 ≤ d < i → ¬ (d | n)) → prime n.
Proof.
  intros Hn Hi Hi0 Hd. apply prime_alt. split; [done|]. intros d Hdn [q Hq].
  assert (0 < q) by nia. destruct (decide (d < i)); [apply (Hd d); [lia|by exists q]|].
  apply (Hd q); [nia|]. exists d. lia.
Qed.

(** The loop decides whether a number that is neither even nor a multiple of three is prime. *)
Lemma isPrime_loop_spec fuel n : ∀ i, 5 ≤ n → coprime6 n → 5 ≤ i → i `mod` 6 = 5 → n < i + 6 * Z.of_nat fuel →
  (∀ d, 2 ≤ d < i → ¬ (d | n)) → ∃ b, isPrime_loop (S fuel) n i = Some b ∧ (b = true ↔ prime n).
Proof.
  induction fuel as [|fuel IH]; intros i Hn Hc Hi Hm Hf Hd; cbn [isPrime_loop]; case_decide as E.
  1: nia.
  1,3: exists true; split; [done|]; split; [|done]; intros _; apply (prime_by_root n i); [lia..|done].
  case_decide as Ed.
  - exists false. split; [done|]. split; [done|]. intros [_ Hp]%prime_alt.
    exfalso. destruct Ed as [Ed|Ed]; (apply Z.rem_divide in Ed; [|lia]); [apply (Hp i)|apply (Hp (i + 2))]; (done || nia).
  - apply Decidable.not_or in Ed as [E1 E2]. apply IH; [done|done|lia| |lia|].
    + rewrite <- Hm. replace (i + 6) with (i + 1 * 6) by lia. apply Z_mod_plus_full.
    + intros d Hdd Hdiv. destruct (decide (d < i)); [apply (Hd d); [lia|done]|].
      destruct (coprime6_odd n d Hc Hdiv) as [H2 H3].
      assert (d = i ∨ d = i + 2) as [->| ->].
      { assert (∃ k, i = 6 * k + 5) as [k ->] by (exists (i `div` 6); pose proof (Z.div_mod i 6); lia).
        assert (d = 6 * k + 5 ∨ d = 6 * k + 6 ∨ d = 6 * k + 7 ∨ d = 6 * k + 8 ∨ d = 6 * k + 9 ∨ d = 6 * k + 10)
          as [->|[->|[->|[->|[->| ->]]]]] by lia; [lia| |lia| | |].
        - replace (6 * k + 6) with (0 + (3 * k + 3) * 2) in H2 by lia. by rewrite Z_mod_plus_full in H2.
        - replace (6 * k + 8) with (0 + (3 * k + 4) * 2) in H2 by lia. by rewrite Z_mod_plus_full in H2.
        - replace (6 * k + 9) with (0 + (2 * k + 3) * 3) in H3 by lia. by rewrite Z_mod_plus_full in H3.
        - replace (6 * k + 10) with (0 + (3 * k + 5) * 2) in H2 by lia. by rewrite Z_mod_plus_full in H2. }
      * apply E1. by apply Z.rem_divide; [lia|].
      * apply E2. by apply Z.rem_divide; [lia|].
Qed.

Lemma isPrime_spec n : 5 ≤ n → coprime6 n → ∃ b, isPrime n = Some b ∧ (b = true ↔ prime n).
Proof.
  intros Hn Hc. unfold isPrime. rewrite decide_False by lia. apply isPrime_loop_spec; try (done || lia).
  intros d Hd Hdiv. destruct (coprime6_odd n d Hc Hdiv) as [H2 H3].
  assert (d = 2 ∨ d = 3 ∨ d = 4) as [->|[->| ->]] by lia; by vm_compute in H2, H3.
Qed.

(** The greatest prime up to [n]. *)
Definition greatest_prime (n p : Z) : Prop := prime p ∧ p ≤ n ∧ ∀ q, prime q → q ≤ n → q ≤ p.

(** From a number of the right residue with the right stride the loop visits all numbers that
    are neither even nor multiples of three. *)
Lemma prev_loop_spec fuel : ∀ n decr, 5 ≤ n → n ≤ Z.of_nat fuel →
  n `mod` 6 = 1 ∧ decr = 2 ∨ n `mod` 6 = 5 ∧ decr = 4 → ∃ p, prev_loop fuel n decr = Some p ∧ greatest_prime n p.
Proof.
  induction fuel as [|fuel IH]; intros n decr Hn Hf Hr; [lia|]. cbn [prev_loop].
  assert (coprime6 n) as Hc by (unfold coprime6; lia).
  destruct (isPrime_spec n Hn Hc) as (b & -> & Hb). cbn [mbind option_bind]. destruct b.
  { exists n. split; [done|]. split; [by apply Hb|]. split; [lia|]. by intros. }
  assert (¬ prime n) as Hnp by (intros H; by apply Hb in H).
  assert (∃ k, n = 6 * k + n `mod` 6) as [k Hk] by (exists (n `div` 6); apply Z.div_mod; lia).
  destruct (decide (n = 5)) as [->|]; [exfalso; apply Hnp|].
  { apply (prime_by_root 5 3); [lia..|]. intros d Hd [q Hq]. assert (d = 2) by lia. subst. lia. }
  assert (5 ≤ n - decr) by lia.
  destruct (IH (n - decr) (6 - decr)) as (p & -> & Hp & Hle & Hmax); [done|lia| |].
  { destruct Hr as [[H1 ->]|[H1 ->]]; rewrite H1 in Hk; subst n; [right|left]; (split; [|lia]).
    - replace (6 * k + 1 - 2) with (5 + (k - 1) * 6) by lia. by rewrite Z_mod_plus_full.
    - replace (6 * k + 5 - 4) with (1 + k * 6) by lia. by rewrite Z_mod_plus_full. }
  exists p. split; [done|]. split; [done|]. split; [lia|]. intros q Hq Hqn. apply Hmax; [done|].
  destruct (decide (q ≤ n - decr)); [done|]. exfalso. apply prime_alt in Hq as Hq'. destruct Hq' as [_ Hq'].
  destruct (decide (q = n)) as [->|]; [done|].
  assert ((2 | q) ∨ (3 | q)) as [Hdiv|Hdiv].
  { destruct Hr as [[H1 ->]|[H1 ->]]; rewrite H1 in Hk; subst n; [left; exists (3 * k); lia|].
    assert (q = 6 * k + 2 ∨ q = 6 * k + 3 ∨ q = 6 * k + 4) as [->|[->| ->]] by lia;
      [left; exists (3 * k + 1)|right; exists (2 * k + 1)|left; exists (3 * k + 2)]; lia. }
  - apply (Hq' 2); [lia|done].
  - apply (Hq' 3); [lia|done].
Qed.

(** Started at an odd multiple of three (or one above), [prevPrime] finds the greatest prime below. *)
Lemma prevPrime_spec n : 9 ≤ n → n `mod` 6 = 3 ∨ n `mod` 6 = 4 → ∃ p, prevPrime n = Some p ∧ greatest_prime n p.
Proof.
  intros Hn Hr. unfold prevPrime.
  assert (∃ k, n = 6 * k + n `mod` 6) as [k Hk] by (exists (n `div` 6); apply Z.div_mod; lia).
  set (n' := if decide (Z.land n 1 = 0) then n - 1 else n).
  assert (n' = 6 * k + 3) as Hn'.
  { unfold n'. assert (Z.land n 1 = n `mod` 2) as -> by (change 1 with (Z.ones 1); by rewrite Z.land_ones by lia).
    destruct Hr as [Hr|Hr]; rewrite Hr in Hk.
    - assert (n `mod` 2 = 1) as ->; [|by rewrite decide_False by lia].
      rewrite Hk. replace (6 * k + 3) with (1 + (3 * k + 1) * 2) by lia. by rewrite Z_mod_plus_full.
    - assert (n `mod` 2 = 0) as ->; [|rewrite decide_True by done; lia].
      rewrite Hk. replace (6 * k + 4) with (0 + (3 * k + 2) * 2) by lia. by rewrite Z_mod_plus_full. }
  assert (Z.rem n' 3 = 0) as -> by (rewrite Hn'; replace (6 * k + 3) with ((2 * k + 1) * 3) by lia; by rewrite Z.rem_mul).
  rewrite decide_True by done.
  destruct (prev_loop_spec (S (Z.to_nat (n' - 2))) (n' - 2) 2) as (p & Hp & Hpr & Hle & Hmax); [lia|lia| |].
  { left. split; [|done]. rewrite Hn'. replace (6 * k + 3 - 2) with (1 + k * 6) by lia. by rewrite Z_mod_plus_full. }
  exists p. split; [done|]. split; [done|]. split; [lia|]. intros q Hq Hqn.
  destruct (decide (q ≤ n' - 2)); [by apply Hmax|]. exfalso. apply prime_alt in Hq as [_ Hq].
  assert ((2 | q) ∨ (3 | q)) as [H|H]; [|by apply (Hq 2); [lia|]|by apply (Hq 3); [lia|]].
  assert (q = 6 * k + 2 ∨ q = 6 * k + 3 ∨ q = 6 * k + 4) as [->|[->| ->]] by lia;
    [left; exists (3 * k + 1)|right; exists (2 * k + 1)|left; exists (3 * k + 2)]; lia.
Qed.

(** From the other residues it goes to a multiple of three first, for which [isPrime] answers
    without a test of that divisor: from 25 it returns 21, from 35 it returns 33. *)
Lemma prevPrime_not_prime : prevPrime 25 = Some 21 ∧ prevPrime 35 = Some 33 ∧ ¬ prime 21 ∧ ¬ prime 33.
Proof.
  split; [by vm_compute|]. split; [by vm_compute|].
  split; intros [_ H]%prime_alt; apply (H 3); try lia; [by exists 7|by exists 11].
Qed.
