(* ===== verification/Addresses.v ===== *)
(** * Addresses (mem/ruby/common/Address.hh, Address.cc; RubySystem's geometry)

    A Ruby [Address] is a 64-bit physical address.  [RubySystem] keeps the block
    geometry as static data; every operation that reads it takes the record.
    The theorems give each operation its meaning as a slice of the address. *)

From S2P Require Import Prelude IntMath.
Local Open Scope Z_scope.

Module RubySystem.

(** The static configuration [RubySystem] keeps (mem/ruby/system/System.hh). *)
Record t := mk {
  m_randomization : bool;
  m_block_size_bytes : Z;
  m_block_size_bits : Z;
  m_memory_size_bits : Z;
  m_warmup_enabled : bool }.

(** The part of the constructor that sets the configuration: the block size
    must be a power of two. *)
Definition create (randomization : bool) (block_size_bytes memory_size_bits : Z) : outcome t :=
  assert_that (IntMath.isPowerOf2 32 block_size_bytes);;
  bits ← IntMath.floorLog2 block_size_bytes;
  Ok (mk randomization block_size_bytes bits memory_size_bits false).

(** Accessors. *)
Definition getRandomization (s : t) : bool := m_randomization s.
Definition getBlockSizeBytes (s : t) : Z := m_block_size_bytes s.
Definition getBlockSizeBits (s : t) : Z := m_block_size_bits s.
Definition getMemorySizeBits (s : t) : Z := m_memory_size_bits s.
Definition getWarmupEnabled (s : t) : bool := m_warmup_enabled s.

End RubySystem.

Module Address.

Definition ADDRESS_WIDTH : Z := 64.

(** Bits [small..big] of the address, inclusive, right justified. *)
Definition bitSelect (m_address small big : Z) : outcome Z :=
  assert_that (bool_decide (small ≤ big));;
  if decide (ADDRESS_WIDTH - 1 ≤ big) then shr64 m_address small
  else
    m ← shl64 ones64 (big + 1);
    let mask := not64 m in
    let partial := Z.land m_address mask in
    shr64 partial small.

(** "removes bits inclusive" *)
Definition bitRemove (m_address small big : Z) : outcome Z :=
  assert_that (bool_decide (small ≤ big));;
  if decide (ADDRESS_WIDTH - 1 ≤ small) then Ok m_address
  else if decide (ADDRESS_WIDTH - 1 ≤ big) then
    mask ← shr64 ones64 small;
    Ok (Z.land m_address mask)
  else if decide (small = 0) then
    mask ← shl64 ones64 big;
    Ok (Z.land m_address mask)
  else
    m ← shl64 ones64 small;
    let lower_bits := Z.land m_address (not64 m) in
    mask ← shl64 ones64 (big + 1);
    let higher_bits := Z.land m_address mask in
    h ← shr64 higher_bits (big - small + 1);
    Ok (Z.lor h lower_bits).

(** [number < 63] keeps the shift defined: the other branch takes all ones. *)
Definition maskLowOrderBits (m_address number : Z) : Z :=
  let mask :=
    if decide (ADDRESS_WIDTH - 1 ≤ number) then ones64
    else u64 (Z.shiftl ones64 number) in
  Z.land m_address mask.

Definition maskHighOrderBits (m_address number : Z) : Z :=
  let mask :=
    if decide (ADDRESS_WIDTH - 1 ≤ number) then ones64
    else Z.shiftr ones64 number in
  Z.land m_address mask.

Definition shiftLowOrderBits (m_address number : Z) : outcome Z :=
  shr64 m_address number.

Definition getLineAddress (sys : RubySystem.t) (m_address : Z) : outcome Z :=
  bitSelect m_address (RubySystem.getBlockSizeBits sys) ADDRESS_WIDTH.

(** [getBlockSizeBits() - 1] is a [uint32_t] subtraction. *)
Definition getOffset (sys : RubySystem.t) (m_address : Z) : outcome Z :=
  bitSelect m_address 0 (u32 (RubySystem.getBlockSizeBits sys - 1)).

Definition makeLineAddress (sys : RubySystem.t) (m_address : Z) : Z :=
  maskLowOrderBits m_address (RubySystem.getBlockSizeBits sys).

(** [getBlockSizeBytes() * stride] multiplies a [uint32_t] by an [int]: the
    product is a [uint32_t], and only then is it widened to 64 bits. *)
Definition makeNextStrideAddress (sys : RubySystem.t) (m_address stride : Z) : Z :=
  u64 (maskLowOrderBits m_address (RubySystem.getBlockSizeBits sys)
       + u32 (RubySystem.getBlockSizeBytes sys * stride)).

(** The result is an [int64]: an index of [2^63] or more reads as negative. *)
Definition memoryModuleIndex (sys : RubySystem.t) (m_address : Z) : outcome Z :=
  index ← bitSelect m_address
    (u32 (RubySystem.getBlockSizeBits sys + RubySystem.getMemorySizeBits sys))
    ADDRESS_WIDTH;
  assert_that (bool_decide (index < 2 ^ 63));;
  Ok index.

(** The [int] offset is sign-extended by the cast. *)
Definition setOffset (sys : RubySystem.t) (m_address offset : Z) : Z :=
  Z.lor (makeLineAddress sys m_address) (u64 offset).

Definition line_address (sys : RubySystem.t) (addr : Z) : Z :=
  makeLineAddress sys addr.

Definition next_stride_address (sys : RubySystem.t) (addr stride : Z) : Z :=
  makeNextStrideAddress sys addr stride.

(** The geometry a constructed [RubySystem] has, with a block of at least two
    bytes and at most 2^31 (the [uint32_t] block sizes). *)
Definition geometry (sys : RubySystem.t) : Prop :=
  1 ≤ RubySystem.m_block_size_bits sys ≤ 31 ∧
  RubySystem.m_block_size_bytes sys = 2 ^ RubySystem.m_block_size_bits sys.

End Address.

Import Address.

(** ** Words and slices *)

Lemma not64_ones_shl k : 0 ≤ k < 64 → not64 (u64 (Z.shiftl ones64 k)) = Z.ones k.
Proof.
  intros Hk. apply Z.bits_inj'. intros i Hi.
  rewrite not64_testbit. unfold u64. rewrite uwrap_testbit, Z.shiftl_spec by lia.
  rewrite Z.testbit_ones_nonneg by lia.
  replace (0 <=? i) with true by lia. rewrite andb_true_r.
  destruct (Z.ltb_spec i k).
  - rewrite (Z.testbit_neg_r _ (i - k)) by lia. simpl. lia.
  - rewrite ones64_testbit by lia. lia.
Qed.

Lemma land_ones_shl x k : 0 ≤ k < 64 → fits 64 x →
  Z.land x (u64 (Z.shiftl ones64 k)) = 2 ^ k * (x `div` 2 ^ k).
Proof.
  intros Hk Hx. transitivity (Z.ldiff x (Z.ones k)).
  - apply Z.bits_inj'. intros i Hi. unfold u64.
    rewrite Z.land_spec, uwrap_testbit, Z.shiftl_spec, Z.ldiff_spec by lia.
    rewrite Z.testbit_ones_nonneg by lia.
    destruct (Z.ltb_spec i k).
    + by rewrite (Z.testbit_neg_r _ (i - k)) by lia.
    + rewrite ones64_testbit by lia. destruct (Z.ltb_spec i 64).
      * replace (i - k <? 64) with true by lia. done.
      * rewrite (fits_testbit_high 64 x) by done. done.
  - rewrite Z.ldiff_ones_r, Z.shiftr_div_pow2, Z.shiftl_mul_pow2 by lia. lia.
Qed.

Lemma shr64_Ok x n : 0 ≤ n < 64 → shr64 x n = Ok (x `div` 2 ^ n).
Proof.
  intros. unfold shr64. rewrite decide_True by done.
  by rewrite Z.shiftr_div_pow2 by lia.
Qed.

Lemma shl64_Ok x n : 0 ≤ n < 64 → shl64 x n = Ok (u64 (Z.shiftl x n)).
Proof. intros. unfold shl64. by rewrite decide_True by done. Qed.

Lemma mod_div_slice x s b : 0 ≤ s ≤ b →
  (x `mod` 2 ^ b) `div` 2 ^ s = (x `div` 2 ^ s) `mod` 2 ^ (b - s).
Proof.
  intros H. rewrite <- !Z.land_ones, <- !Z.shiftr_div_pow2 by lia.
  rewrite Z.shiftr_land. f_equal. apply Z.bits_inj'. intros i Hi.
  rewrite Z.shiftr_spec, !Z.testbit_ones_nonneg by lia. lia.
Qed.

(** [bitSelect] is the slice of the address between its two bounds. *)
Lemma bitSelect_spec a small big :
  fits 64 a → 0 ≤ small ≤ big → small < 64 →
  bitSelect a small big = Ok ((a `div` 2 ^ small) `mod` 2 ^ (big - small + 1)).
Proof.
  intros Ha Hs Hw. unfold bitSelect. rewrite bool_decide_eq_true_2 by lia. simpl.
  case_decide as Hb; unfold ADDRESS_WIDTH in *.
  - rewrite shr64_Ok by lia. f_equal. symmetry. apply Z.mod_small.
    split; [apply Z.div_pos; unfold fits in Ha; lia|].
    apply Z.div_lt_upper_bound; [lia|]. rewrite <- Z.pow_add_r by lia.
    assert (2 ^ 64 ≤ 2 ^ (small + (big - small + 1)))
      by (apply Z.pow_le_mono_r; lia). unfold fits in Ha. lia.
  - rewrite shl64_Ok by lia. simpl. rewrite not64_ones_shl by lia.
    rewrite shr64_Ok by lia. rewrite Z.land_ones, mod_div_slice by lia.
    by replace (big + 1 - small) with (big - small + 1) by lia.
Qed.

Lemma maskLowOrderBits_spec a n : fits 64 a → 0 ≤ n < 63 →
  maskLowOrderBits a n = 2 ^ n * (a `div` 2 ^ n).
Proof.
  intros Ha Hn. unfold maskLowOrderBits, ADDRESS_WIDTH.
  rewrite decide_False by lia. apply land_ones_shl; [lia|done].
Qed.

Lemma maskHighOrderBits_spec a n : fits 64 a → 0 ≤ n < 63 →
  maskHighOrderBits a n = a `mod` 2 ^ (64 - n).
Proof.
  intros Ha Hn. unfold maskHighOrderBits, ADDRESS_WIDTH.
  rewrite decide_False by lia. rewrite <- Z.land_ones by lia. f_equal.
  apply Z.bits_inj'. intros i Hi.
  rewrite Z.shiftr_spec, ones64_testbit, Z.testbit_ones_nonneg by lia. lia.
Qed.

(** ** Blocks and offsets *)

Lemma line_address_eq sys a : geometry sys → fits 64 a →
  line_address sys a =
  RubySystem.m_block_size_bytes sys * (a `div` RubySystem.m_block_size_bytes sys).
Proof.
  intros [Hb Hs] Ha. unfold line_address, makeLineAddress, RubySystem.getBlockSizeBits.
  rewrite maskLowOrderBits_spec by (done || lia). by rewrite Hs.
Qed.

Lemma getOffset_eq sys a : geometry sys → fits 64 a →
  getOffset sys a = Ok (a `mod` RubySystem.m_block_size_bytes sys).
Proof.
  intros [Hb Hs] Ha. unfold getOffset, RubySystem.getBlockSizeBits.
  unfold u32. rewrite uwrap_id by (unfold fits; lia).
  rewrite bitSelect_spec by (done || lia).
  rewrite Z.pow_0_r, Z.div_1_r, Hs. do 3 f_equal. lia.
Qed.

Lemma getLineAddress_eq sys a : geometry sys → fits 64 a →
  getLineAddress sys a = Ok (a `div` RubySystem.m_block_size_bytes sys).
Proof.
  intros [Hb Hs] Ha. unfold getLineAddress, RubySystem.getBlockSizeBits, ADDRESS_WIDTH.
  rewrite bitSelect_spec by (done || lia). f_equal. rewrite Hs. apply Z.mod_small.
  split; [apply Z.div_pos; unfold fits in Ha; lia|].
  apply Z.div_lt_upper_bound; [lia|]. rewrite <- Z.pow_add_r by lia.
  assert (2 ^ 64 ≤ 2 ^ (RubySystem.m_block_size_bits sys
     + (64 - RubySystem.m_block_size_bits sys + 1))) by (apply Z.pow_le_mono_r; lia).
  unfold fits in Ha. lia.
Qed.

Lemma line_address_fits sys a : fits 64 a → fits 64 (line_address sys a).
Proof.
  intros. unfold line_address, makeLineAddress, maskLowOrderBits.
  apply fits_land; [lia|done|]. case_decide; [done|].
  apply (uwrap_fits 64). lia.
Qed.

Lemma block_pos sys : geometry sys → 2 ≤ RubySystem.m_block_size_bytes sys.
Proof.
  intros [Hb ->]. change 2 with (2 ^ 1) at 1. apply Z.pow_le_mono_r; lia.
Qed.

Lemma line_address_idem sys a : geometry sys → fits 64 a →
  line_address sys (line_address sys a) = line_address sys a.
Proof.
  intros Hg Ha. pose proof (block_pos sys Hg).
  rewrite (line_address_eq sys (line_address sys a)) by auto using line_address_fits.
  rewrite line_address_eq by done.
  rewrite (Z.mul_comm _ (a `div` _)), Z.div_mul by lia. lia.
Qed.

(** Being its own line address is being a multiple of the block size. *)
Lemma line_address_fix sys a : geometry sys → fits 64 a →
  line_address sys a = a ↔ a `mod` RubySystem.m_block_size_bytes sys = 0.
Proof.
  intros Hg Ha. pose proof (block_pos sys Hg). rewrite line_address_eq by done.
  pose proof (Z.div_mod a (RubySystem.m_block_size_bytes sys)). lia.
Qed.

(** An address is its line address plus its offset: the offset is below
    the block size, the line address is a multiple of it and its own line
    address, and [getLineAddress] is the number of the line. *)
Theorem address_decomposition (sys : RubySystem.t) (a : Z) :
  geometry sys → fits 64 a →
  ∃ off line,
    getOffset sys a = Ok off ∧ getLineAddress sys a = Ok line ∧
    0 ≤ off < RubySystem.m_block_size_bytes sys ∧
    line_address sys a = RubySystem.m_block_size_bytes sys * line ∧
    a = line_address sys a + off ∧
    line_address sys (line_address sys a) = line_address sys a.
Proof.
  intros Hg Ha. pose proof (block_pos sys Hg).
  eexists _, _. rewrite getOffset_eq, getLineAddress_eq by done.
  split_and!; rewrite ?line_address_idem, ?line_address_eq by done;
    try done; try (apply Z.mod_pos_bound; lia).
  apply Z.div_mod. lia.
Qed.

(** The geometry of a system that was created with a block of two bytes or
    more. *)
Lemma create_geometry r bytes m sys : 1 < bytes < 2 ^ 32 →
  RubySystem.create r bytes m = Ok sys → geometry sys.
Proof.
  intros Hb. unfold RubySystem.create. intros H. outcome_inv.
  match goal with H : IntMath.isPowerOf2 _ _ = true |- _ =>
    apply isPowerOf2_spec in H as (k & Hk & ->); [|lia|unfold fits; lia] end.
  rewrite floorLog2_log2 in * by lia. outcome_inv.
  unfold geometry. simpl. rewrite Z.log2_pow2 by done.
  assert (k ≠ 0) by (intros ->; lia).
  assert (k < 32) by (apply (Z.pow_lt_mono_r_iff 2); lia). lia.
Qed.

Lemma setOffset_eq sys a off : geometry sys → fits 64 a →
  0 ≤ off < RubySystem.m_block_size_bytes sys →
  setOffset sys a off = line_address sys a + off.
Proof.
  intros [Hb Hs] Ha Ho. unfold setOffset. fold (line_address sys a).
  assert (RubySystem.m_block_size_bytes sys ≤ 2 ^ 31)
    by (rewrite Hs; apply Z.pow_le_mono_r; lia).
  unfold u64. rewrite uwrap_id by (unfold fits; lia).
  rewrite line_address_eq by done. rewrite Hs in *. symmetry.
  rewrite Z.mul_comm, <- Z.shiftl_mul_pow2 by lia.
  rewrite <- Z.lxor_lor; [apply Z.add_nocarry_lxor|];
    (apply Z.bits_inj'; intros i Hi; rewrite Z.land_spec, Z.shiftl_spec, Z.bits_0 by lia;
     destruct (decide (i < RubySystem.m_block_size_bits sys));
     [by rewrite Z.testbit_neg_r by lia
     |rewrite (fits_testbit_high (RubySystem.m_block_size_bits sys) off) by (unfold fits; lia);
      by rewrite andb_false_r]).
Qed.

(** Setting an offset below the block size keeps the line and is read
    back by [getOffset]. *)
Theorem setOffset_getOffset (sys : RubySystem.t) (a off : Z) :
  geometry sys → fits 64 a → 0 ≤ off < RubySystem.m_block_size_bytes sys →
  getOffset sys (setOffset sys a off) = Ok off ∧
  line_address sys (setOffset sys a off) = line_address sys a.
Proof.
  intros Hg Ha Ho. pose proof (block_pos sys Hg). rewrite setOffset_eq by done.
  assert (fits 64 (line_address sys a + off)) as Hf.
  { rewrite line_address_eq by done. destruct Hg as [Hb Hs].
    set (q := a `div` _). unfold fits in *.
    assert (a = RubySystem.m_block_size_bytes sys * q
              + a `mod` RubySystem.m_block_size_bytes sys) by (apply Z.div_mod; lia).
    assert (0 ≤ q) by (apply Z.div_pos; lia).
    assert (RubySystem.m_block_size_bytes sys * (q + 1) ≤ 2 ^ 64); [|nia].
    replace (2 ^ 64) with (RubySystem.m_block_size_bytes sys
      * 2 ^ (64 - RubySystem.m_block_size_bits sys)).
    - apply Z.mul_le_mono_nonneg_l; [lia|].
      enough (q < 2 ^ (64 - RubySystem.m_block_size_bits sys)) by lia.
      apply Z.div_lt_upper_bound; [lia|]. rewrite Hs, <- Z.pow_add_r by lia.
      replace (_ + (64 - _)) with 64 by lia. lia.
    - rewrite Hs, <- Z.pow_add_r by lia. f_equal. lia. }
  rewrite getOffset_eq, (line_address_eq sys (_ + _)) by done.
  rewrite line_address_eq by done.
  split; [f_equal|f_equal].
  - rewrite Z.add_comm, Z.mul_comm, Z.mod_add by lia. apply Z.mod_small. lia.
  - rewrite Z.add_comm, Z.mul_comm, Z.div_add by lia.
    rewrite (Z.div_small off) by lia. lia.
Qed.

(** ** Removing a slice *)

Lemma lor_concat h l k : 0 ≤ k → 0 ≤ h → 0 ≤ l < 2 ^ k →
  Z.lor (2 ^ k * h) l = 2 ^ k * h + l.
Proof.
  intros Hk Hh Hl. rewrite Z.mul_comm, <- Z.shiftl_mul_pow2 by lia.
  assert (Z.land (Z.shiftl h k) l = 0) as E.
  { apply Z.bits_inj'. intros i Hi. rewrite Z.land_spec, Z.shiftl_spec, Z.bits_0 by lia.
    destruct (decide (i < k)); [by rewrite Z.testbit_neg_r by lia|].
    rewrite (fits_testbit_high k l) by (unfold fits; lia). apply andb_false_r. }
  rewrite <- Z.lxor_lor, <- Z.add_nocarry_lxor by done. done.
Qed.

(** Away from the ends of the word, [bitRemove] deletes the bits
    [small..big]: what is above them moves down onto what is below. *)
Theorem bitRemove_middle (a small big : Z) :
  fits 64 a → 0 < small ≤ big → big < 63 →
  bitRemove a small big = Ok (2 ^ small * (a `div` 2 ^ (big + 1)) + a `mod` 2 ^ small).
Proof.
  intros Ha Hs Hb. unfold bitRemove, ADDRESS_WIDTH.
  rewrite bool_decide_eq_true_2 by lia. simpl. rewrite !decide_False by lia.
  rewrite !shl64_Ok by lia. simpl. rewrite not64_ones_shl, land_ones_shl by (done || lia).
  rewrite shr64_Ok by lia. simpl. f_equal. rewrite Z.land_ones by lia.
  replace ((2 ^ (big + 1) * (a `div` 2 ^ (big + 1))) `div` 2 ^ (big - small + 1))
    with (2 ^ small * (a `div` 2 ^ (big + 1))).
  - apply lor_concat; [lia| |apply Z.mod_pos_bound; lia].
    apply Z.div_pos; unfold fits in Ha; lia.
  - replace (2 ^ (big + 1)) with (2 ^ small * 2 ^ (big - small + 1)) at 2
      by (rewrite <- Z.pow_add_r by lia; f_equal; lia).
    rewrite <- Z.mul_assoc, (Z.mul_comm (2 ^ (big - small + 1))), Z.mul_assoc.
    by rewrite Z.div_mul by lia.
Qed.

Lemma bitRemove_middle_witness :
  bitRemove 0xABCD 4 7 = Ok (2 ^ 4 * (0xABCD `div` 2 ^ 8) + 0xABCD `mod` 2 ^ 4).
Proof. apply (bitRemove_middle 0xABCD 4 7); [unfold fits|..]; lia. Defined.

(** At the low end [bitRemove(0, big)] does not delete the bits [0..big]:
    it clears the [big] low bits in place, keeping bit [big] and moving nothing
    down. *)
Theorem bitRemove_from_zero (a big : Z) :
  fits 64 a → 0 ≤ big < 63 →
  bitRemove a 0 big = Ok (2 ^ big * (a `div` 2 ^ big)).
Proof.
  intros Ha Hb. unfold bitRemove, ADDRESS_WIDTH.
  rewrite bool_decide_eq_true_2 by lia. simpl.
  rewrite !decide_False by lia. rewrite shl64_Ok by lia. simpl.
  by rewrite land_ones_shl by (done || lia).
Qed.

Lemma bitRemove_from_zero_witness :
  bitRemove 0xFF 0 3 = Ok (2 ^ 3 * (0xFF `div` 2 ^ 3)) ∧
  2 ^ 3 * (0xFF `div` 2 ^ 3) ≠ 0xFF `div` 2 ^ 4.
Proof. split; [apply (bitRemove_from_zero 0xFF 3); [unfold fits|]; lia|done]. Defined.

(** ** Strides *)

(** For a stride that goes up, [next_stride_address] is the line address
    moved by [stride] blocks, as long as the distance fits in 32 bits and the
    sum in 64. *)
Theorem next_stride_up (sys : RubySystem.t) (a stride : Z) :
  geometry sys → fits 64 a → 0 ≤ stride →
  RubySystem.m_block_size_bytes sys * stride < 2 ^ 32 →
  line_address sys a + RubySystem.m_block_size_bytes sys * stride < 2 ^ 64 →
  next_stride_address sys a stride
  = line_address sys a + RubySystem.m_block_size_bytes sys * stride.
Proof.
  intros Hg Ha Hs H1 H2. pose proof (block_pos sys Hg).
  pose proof (line_address_fits sys a Ha) as Hl. unfold fits in Hl.
  unfold next_stride_address, makeNextStrideAddress, RubySystem.getBlockSizeBytes.
  fold (makeLineAddress sys a). fold (line_address sys a).
  unfold u32, u64. rewrite (uwrap_id 32) by (unfold fits; nia).
  apply uwrap_id. unfold fits. nia.
Qed.

Definition sys64 : RubySystem.t := RubySystem.mk false 64 6 32 false.

Lemma next_stride_up_witness :
  next_stride_address sys64 0x1234 2 = line_address sys64 0x1234 + 64 * 2.
Proof. apply (next_stride_up sys64 0x1234 2); vm_compute; intuition congruence. Defined.

(** For a stride that goes down, the distance wraps at 32 bits before it is
    widened: the result is [2^32] above the intended address. *)
Theorem next_stride_down (sys : RubySystem.t) (a k : Z) :
  geometry sys → fits 64 a → 0 < k →
  RubySystem.m_block_size_bytes sys * k ≤ line_address sys a →
  RubySystem.m_block_size_bytes sys * k < 2 ^ 32 →
  line_address sys a + 2 ^ 32 < 2 ^ 64 →
  next_stride_address sys a (- k)
  = line_address sys a - RubySystem.m_block_size_bytes sys * k + 2 ^ 32.
Proof.
  intros Hg Ha Hk H1 H2 H3. pose proof (block_pos sys Hg).
  pose proof (line_address_fits sys a Ha) as Hl. unfold fits in Hl.
  unfold next_stride_address, makeNextStrideAddress, RubySystem.getBlockSizeBytes.
  fold (makeLineAddress sys a). fold (line_address sys a).
  unfold u32, u64, uwrap at 2.
  rewrite <- (Z.mod_add _ 1), Z.mod_small by nia.
  rewrite uwrap_id by (unfold fits; nia). nia.
Qed.

Lemma next_stride_down_witness :
  next_stride_address sys64 0x1234 (- 1) = line_address sys64 0x1234 - 64 * 1 + 2 ^ 32.
Proof. apply (next_stride_down sys64 0x1234 1); vm_compute; intuition congruence. Defined.

Lemma address_decomposition_witness :
  ∃ off line,
    getOffset sys64 0x1234 = Ok off ∧ getLineAddress sys64 0x1234 = Ok line ∧
    0 ≤ off < 64 ∧ line_address sys64 0x1234 = 64 * line ∧
    0x1234 = line_address sys64 0x1234 + off ∧
    line_address sys64 (line_address sys64 0x1234) = line_address sys64 0x1234.
Proof. apply (address_decomposition sys64 0x1234); vm_compute; intuition congruence. Defined.

Lemma setOffset_getOffset_witness :
  getOffset sys64 (setOffset sys64 0x1234 7) = Ok 7 ∧
  line_address sys64 (setOffset sys64 0x1234 7) = line_address sys64 0x1234.
Proof. apply (setOffset_getOffset sys64 0x1234 7); vm_compute; intuition congruence. Defined.
