(* ===== verification/NodeSets.v ===== *)
(** * Sets of nodes (mem/ruby/common/Set.hh, Set.cc)

    [Set] packs a set of node numbers into an array of 64-bit words.  The
    constants are those of the source: [numeric_limits<unsigned long>::digits]
    is 64, so [LONG_BITS] is 65, [INDEX_SHIFT] is 5 and [INDEX_MASK] is 31.
    Sets of at most 31 nodes refine finite sets of integers; what happens
    beyond is stated too. *)

From S2P Require Import Prelude IntMath Addresses.
Local Open Scope Z_scope.

Module NodeSet.

Definition NUMBER_WORDS_PER_SET : Z := 1.
(** [std::numeric_limits<unsigned long>::digits] on an LP64 machine. *)
Definition ulong_digits : Z := 64.
Definition LONG_BITS : Z := ulong_digits + 1.
Definition INDEX_SHIFT : Z := if decide (LONG_BITS = 64) then 6 else 5.
Definition INDEX_MASK : Z := Z.shiftl 1 INDEX_SHIFT - 1.

(** Where [m_p_nArray] points. *)
Inductive array_ptr : Type :=
  | PNull
  | PStatic
  | PDynamic (ws : list Z).

Record t := mk {
  m_nSize : Z;
  m_nArrayLen : Z;
  m_p_nArray : array_ptr;
  m_p_nArray_Static : list Z }.

Definition words (s : t) : outcome (list Z) :=
  match m_p_nArray s with
  | PNull => Err NullArray
  | PStatic => Ok (m_p_nArray_Static s)
  | PDynamic ws => Ok ws
  end.

Definition set_words (s : t) (ws : list Z) : t :=
  match m_p_nArray s with
  | PNull => s
  | PStatic => mk (m_nSize s) (m_nArrayLen s) PStatic ws
  | PDynamic _ => mk (m_nSize s) (m_nArrayLen s) (PDynamic ws) (m_p_nArray_Static s)
  end.

(** [m_p_nArray[i]] as a value and as the target of an assignment. *)
Definition word (s : t) (i : Z) : outcome Z := ws ← words s; vget ws i.
Definition set_word (s : t) (i w : Z) : outcome t :=
  ws ← words s; ws' ← vset ws i w; Ok (set_words s ws').

(** [for (int i = 0; i < m_nArrayLen; i++)] *)
Definition indices (s : t) : list Z := seqZ 0 (m_nArrayLen s).

Definition getSize (s : t) : Z := m_nSize s.

Definition clear (s : t) : outcome t :=
  mfold (λ s i, set_word s i 0) s (indices s).

(** Division of [int]s truncates.  The words of a dynamic array are all
    overwritten by [clear], those of the static one up to [m_nArrayLen]. *)
Definition setSize (s : t) (size : Z) : outcome t :=
  let len := (size + LONG_BITS - 1) `quot` LONG_BITS in
  let ptr :=
    if decide (len ≤ NUMBER_WORDS_PER_SET) then PStatic
    else PDynamic (replicate (Z.to_nat len) 0) in
  clear (mk size len ptr (m_p_nArray_Static s)).

(** [Set()]; the static array holds whatever the memory held. *)
Definition create_empty (junk : Z) : t := mk 0 0 PNull [junk].

(** [Set(int size)] *)
Definition create (junk size : Z) : outcome t :=
  if decide (0 < size) then setSize (create_empty junk) size
  else Ok (create_empty junk).

(** [*this = obj], for [this != &obj]; the copy constructor is the same on a
    fresh object. *)
Definition assign (s obj : t) : outcome t :=
  s ← setSize s (getSize obj);
  mfold (λ s i, w ← word obj i; set_word s i w) s (indices s).

Definition copy (junk : Z) (obj : t) : outcome t := assign (create_empty junk) obj.

(** [index >> INDEX_SHIFT] and [1ul << (index & INDEX_MASK)] *)
Definition slot (index : Z) : Z := Z.shiftr index INDEX_SHIFT.
Definition bit_of (index : Z) : Z := Z.shiftl 1 (Z.land index INDEX_MASK).

Definition add (s : t) (index : Z) : outcome t :=
  w ← word s (slot index);
  set_word s (slot index) (Z.lor w (bit_of index)).

Definition remove (s : t) (index : Z) : outcome t :=
  w ← word s (slot index);
  set_word s (slot index) (Z.land w (not64 (bit_of index))).

(** A word-by-word update [m_p_nArray[i] = f(m_p_nArray[i], set.m_p_nArray[i])]. *)
Definition zip_words (f : Z → Z → Z) (s set : t) : outcome t :=
  mfold (λ s i, x ← word s i; y ← word set i; set_word s i (f x y)) s (indices s).

Definition addSet (s set : t) : outcome t :=
  assert_that (bool_decide (getSize s = getSize set));; zip_words Z.lor s set.

Definition removeSet (s set : t) : outcome t :=
  assert_that (bool_decide (m_nSize s = m_nSize set));;
  zip_words (λ x y, Z.land x (not64 y)) s set.

(** The loop of [clearExcess]: [mask] starts at 63 ones and loses one bit per
    iteration. *)
Definition clearExcess_step (st : t * Z) (_ : Z) : outcome (t * Z) :=
  let '(s, mask) := st in
  w ← word s (m_nArrayLen s - 1);
  s' ← set_word s (m_nArrayLen s - 1) (Z.land w mask);
  Ok (s', Z.shiftr mask 1).

Definition clearExcess (s : t) : outcome t :=
  if decide (Z.rem (m_nSize s) LONG_BITS = 0) then Ok s
  else
    r ← mfold clearExcess_step (s, 0x7FFFFFFFFFFFFFFF) (seqZ 0 (64 - Z.land (m_nSize s) INDEX_MASK));
    Ok r.1.

Definition broadcast (s : t) : outcome t :=
  s ← mfold (λ s i, set_word s i ones64) s (indices s);
  clearExcess s.

(** The inner loop of [count]: the mask is shifted out of the word after 64
    steps, the 65th adds nothing. *)
Definition count_word (w : Z) : Z :=
  (foldl (λ '(counter, mask) (_ : Z),
     (if decide (Z.land w mask = 0) then counter else counter + 1, u64 (Z.shiftl mask 1)))
   (0, 1) (seqZ 0 LONG_BITS)).1.

Definition count (s : t) : outcome Z :=
  mfold (λ counter i, w ← word s i; Ok (counter + count_word w)) 0 (indices s).

(** [for (...) if (!p(m_p_nArray[i], set.m_p_nArray[i])) return false; return
    true;] *)
Fixpoint all_words (p : Z → Z → bool) (s set : t) (idx : list Z) : outcome bool :=
  match idx with
  | [] => Ok true
  | i :: idx =>
      x ← word s i; y ← word set i;
      if p x y then all_words p s set idx else Ok false
  end.

Definition isEqual (s set : t) : outcome bool :=
  assert_that (bool_decide (m_nSize s = m_nSize set));;
  all_words (λ x y, bool_decide (x = y)) s set (indices s).

Definition intersectionIsEmpty (s other : t) : outcome bool :=
  all_words (λ x y, bool_decide (Z.land x y = 0)) s other (indices s).

Definition isSuperset (s test : t) : outcome bool :=
  assert_that (bool_decide (m_nSize s = m_nSize test));;
  all_words (λ x y, bool_decide (Z.lor (Z.land y x) (not64 y) = ones64)) s test (indices s).

Definition isSubset (s test : t) : outcome bool := isSuperset test s.

Definition isEmpty (s : t) : outcome bool :=
  all_words (λ x _, bool_decide (x = 0)) s s (indices s).

Definition isElement (s : t) (element : Z) : outcome bool :=
  w ← word s (slot element);
  Ok (negb (bool_decide (Z.land w (bit_of element) = 0))).

Definition elementAt (s : t) (index : Z) : outcome Z :=
  b ← isElement s index; Ok (if b : bool then 1 else 0).

(** [Set result(m_nSize)] followed by the loop. *)
Definition combine (f : Z → Z → Z) (junk : Z) (s other : t) : outcome t :=
  result ← create junk (m_nSize s);
  assert_that (bool_decide (m_nSize s = m_nSize other));;
  mfold (λ r i, x ← word s i; y ← word other i; set_word r i (f x y)) result (indices s).

Definition OR (junk : Z) : t → t → outcome t := combine Z.lor junk.
Definition AND (junk : Z) : t → t → outcome t := combine Z.land junk.

(** The inner loop of [smallestElement] on one nonzero word. *)
Fixpoint lowest_bit (x : Z) (js : list Z) : option Z :=
  match js with
  | [] => None
  | j :: js => if decide (Z.land x 1 = 0) then lowest_bit (Z.shiftr x 1) js else Some j
  end.

Fixpoint smallest_loop (s : t) (idx : list Z) : outcome Z :=
  match idx with
  | [] => Err PanicFault
  | i :: idx =>
      x ← word s i;
      if decide (x = 0) then smallest_loop s idx
      else match lowest_bit x (seqZ 0 LONG_BITS) with
           | Some j => Ok (LONG_BITS * i + j)
           | None => Err PanicFault
           end
  end.

Definition smallestElement (s : t) : outcome Z :=
  c ← count s;
  assert_that (bool_decide (0 < c));;
  smallest_loop s (indices s).

(** The loop of [isBroadcast] over the last word, [mask] shifted left at each
    step. *)
Fixpoint low_bits_set (w mask : Z) (js : list Z) : bool :=
  match js with
  | [] => true
  | _ :: js =>
      if decide (Z.land mask w = 0) then false
      else low_bits_set w (u64 (Z.shiftl mask 1)) js
  end.

Definition isBroadcast (s : t) : outcome bool :=
  let rem := Z.rem (m_nSize s) LONG_BITS in
  let max := if decide (rem = 0) then m_nArrayLen s else m_nArrayLen s - 1 in
  full ← all_words (λ x _, bool_decide (x = ones64)) s s (seqZ 0 max);
  if negb full then Ok false
  else if decide (rem ≤ 0) then Ok true
  else w ← word s (m_nArrayLen s - 1); Ok (low_bits_set w 1 (seqZ 0 rem)).

End NodeSet.

Import NodeSet.

(** ** Sets of at most 31 nodes: one word *)

(** A set of [n] nodes whose only word is [w]. *)
Definition single (n w : Z) : t := mk n 1 PStatic [w].

Lemma word_single n w : word (single n w) 0 = Ok w.
Proof. done. Qed.

Lemma set_word_single n w w' : set_word (single n w) 0 w' = Ok (single n w').
Proof. done. Qed.

Lemma indices_single n w : indices (single n w) = [0].
Proof. done. Qed.

Lemma slot_small i : 0 ≤ i < 32 → slot i = 0.
Proof.
  intros. unfold slot. change INDEX_SHIFT with 5.
  rewrite Z.shiftr_div_pow2 by lia. apply Z.div_small. lia.
Qed.

Lemma bit_of_small i : 0 ≤ i < 32 → bit_of i = 2 ^ i.
Proof.
  intros. unfold bit_of. change INDEX_MASK with (Z.ones 5).
  rewrite Z.land_ones, Z.shiftl_1_l by lia. f_equal. apply Z.mod_small. lia.
Qed.

Lemma testbit_pow2 i j : 0 ≤ i → Z.testbit (2 ^ i) j = bool_decide (i = j).
Proof.
  intros. rewrite Z.pow2_bits_eqb by done. destruct (Z.eqb_spec i j).
  - by rewrite bool_decide_eq_true_2.
  - by rewrite bool_decide_eq_false_2.
Qed.

Lemma land_pow2_zero w i : 0 ≤ i → Z.land w (2 ^ i) = 0 ↔ Z.testbit w i = false.
Proof.
  intros Hi. split.
  - intros H. assert (Z.testbit (Z.land w (2 ^ i)) i = false) as E by (by rewrite H, Z.bits_0).
    rewrite Z.land_spec, testbit_pow2, bool_decide_eq_true_2 in E by done.
    by rewrite andb_true_r in E.
  - intros H. apply Z.bits_inj'. intros j Hj.
    rewrite Z.land_spec, testbit_pow2, Z.bits_0 by done.
    case_bool_decide; [by subst; rewrite H|apply andb_false_r].
Qed.

Lemma fits_pow2 w i : 0 ≤ i < w → fits w (2 ^ i).
Proof. intros. split; [lia|]. apply Z.pow_lt_mono_r; lia. Qed.

Lemma fits_mono v w z : v ≤ w → fits v z → fits w z.
Proof.
  unfold fits. intros. assert (2 ^ v ≤ 2 ^ w) by (apply Z.pow_le_mono_r; lia). lia.
Qed.

(** [repr n X s]: the object [s] stands for the set [X] of nodes below [n]. *)
Definition repr (n : Z) (X : gset Z) (s : t) : Prop :=
  1 ≤ n ≤ 31 ∧ ∃ w, s = single n w ∧ fits n w ∧
    ∀ i, i ∈ X ↔ Z.testbit w i = true.

Lemma repr_bounds n X s i : repr n X s → i ∈ X → 0 ≤ i < n.
Proof.
  intros (Hn & w & -> & Hw & HX) Hi%HX.
  destruct (decide (i < 0)); [by rewrite Z.testbit_neg_r in Hi by lia|].
  destruct (decide (n ≤ i)); [|lia].
  by rewrite (fits_testbit_high n w) in Hi.
Qed.

Lemma create_single junk n : 1 ≤ n ≤ 31 → create junk n = Ok (single n 0).
Proof.
  intros Hn. unfold create. rewrite decide_True by lia. unfold setSize.
  replace ((n + LONG_BITS - 1) `quot` LONG_BITS) with 1; [done|].
  change LONG_BITS with 65. rewrite Z.quot_div_nonneg by lia.
  apply (Z.div_unique _ _ _ (n - 1)); lia.
Qed.

Lemma repr_create junk n : 1 ≤ n ≤ 31 → ∃ s, create junk n = Ok s ∧ repr n ∅ s.
Proof.
  intros Hn. eexists. split; [by apply create_single|]. split; [done|].
  exists 0. split_and!; [done|unfold fits; lia|].
  intros i. rewrite Z.bits_0. set_solver.
Qed.

(** The pattern of every operation that rewrites the word. *)
Lemma repr_word n X Y w w' : repr n X (single n w) → fits n w' →
  (∀ i, 0 ≤ i < n → Z.testbit w' i = bool_decide (i ∈ Y)) →
  (∀ i, i ∈ Y → 0 ≤ i < n) → repr n Y (single n w').
Proof.
  intros (Hn & _) Hf Hb Hin. split; [done|]. exists w'. split_and!; [done|done|].
  intros i. destruct (decide (0 ≤ i < n)).
  - rewrite Hb by done. by rewrite bool_decide_eq_true.
  - split; [intros ?%Hin; lia|]. intros Ht. exfalso.
    destruct (decide (i < 0)); [by rewrite Z.testbit_neg_r in Ht by lia|].
    rewrite (fits_testbit_high n) in Ht by (done || lia). done.
Qed.

Lemma repr_testbit n X w i : repr n X (single n w) → Z.testbit w i = bool_decide (i ∈ X).
Proof.
  intros (_ & w' & [= ->] & _ & H). apply eq_true_iff_eq.
  by rewrite bool_decide_eq_true.
Qed.

Lemma repr_inv n X s : repr n X s →
  1 ≤ n ≤ 31 ∧ ∃ w, s = single n w ∧ fits n w ∧ repr n X (single n w).
Proof. intros (Hn & w & -> & Hf & H). split; [done|]. exists w. unfold repr. eauto 10. Qed.

Lemma repr_add n X s i : repr n X s → 0 ≤ i < n →
  ∃ s', add s i = Ok s' ∧ repr n ({[i]} ∪ X) s'.
Proof.
  intros Hr Hi. pose proof (repr_bounds n X s) as Hb.
  destruct (repr_inv _ _ _ Hr) as (Hn & w & -> & Hf & _).
  exists (single n (Z.lor w (2 ^ i))). split.
  - unfold add. by rewrite slot_small, bit_of_small by lia.
  - eapply repr_word; [done|apply fits_lor; [lia|done|by apply fits_pow2]| |set_solver].
    intros j Hj. rewrite Z.lor_spec, (repr_testbit n X), testbit_pow2 by (done || lia).
    destruct (decide (i = j)) as [->|]; repeat case_bool_decide; set_solver.
Qed.

Lemma repr_remove n X s i : repr n X s → 0 ≤ i < n →
  ∃ s', remove s i = Ok s' ∧ repr n (X ∖ {[i]}) s'.
Proof.
  intros Hr Hi. pose proof (repr_bounds n X s) as Hb.
  destruct (repr_inv _ _ _ Hr) as (Hn & w & -> & Hf & _).
  exists (single n (Z.land w (not64 (2 ^ i)))). split.
  - unfold remove. by rewrite slot_small, bit_of_small by lia.
  - eapply repr_word; [done|apply fits_land; [lia|done|apply not64_fits]| |set_solver].
    intros j Hj. rewrite Z.land_spec, not64_testbit, (repr_testbit n X), testbit_pow2
      by (done || lia).
    replace (0 <=? j) with true by lia. replace (j <? 64) with true by lia.
    rewrite !andb_true_r.
    destruct (decide (i = j)) as [->|]; repeat case_bool_decide; set_solver.
Qed.

(** Binary operations on the word, [fb] being their action on one bit. *)
Lemma repr_zip (f : Z → Z → Z) (fb : bool → bool → bool) n X Y Z w w' :
  (∀ i, (0 ≤ i < n)%Z → Z.testbit (f w w') i = fb (Z.testbit w i) (Z.testbit w' i)) →
  fits n (f w w') →
  (∀ i, (0 ≤ i < n)%Z → bool_decide (i ∈ Z) = fb (bool_decide (i ∈ X)) (bool_decide (i ∈ Y))) →
  (∀ i, i ∈ Z → (0 ≤ i < n)%Z) →
  repr n X (single n w) → repr n Y (single n w') → repr n Z (single n (f w w')).
Proof.
  intros Hf Hfit Hb Hin HX HY. eapply repr_word; [exact HX|done| |done].
  intros i Hi. by rewrite Hf, (repr_testbit n X w), (repr_testbit n Y w'), Hb by done.
Qed.

Lemma repr_addSet n X Y s s' : repr n X s → repr n Y s' →
  ∃ r, addSet s s' = Ok r ∧ repr n (X ∪ Y) r.
Proof.
  intros HX HY. pose proof (repr_bounds n X s) as HbX. pose proof (repr_bounds n Y s') as HbY.
  destruct (repr_inv _ _ _ HX) as (Hn & w & -> & Hf & _).
  destruct (repr_inv _ _ _ HY) as (_ & w' & -> & Hf' & _).
  exists (single n (Z.lor w w')). split.
  - unfold addSet, getSize. simpl. by rewrite bool_decide_eq_true_2.
  - apply (repr_zip Z.lor orb n X Y (X ∪ Y)); [intros; apply Z.lor_spec|..];
      [apply fits_lor; lia || done| |set_solver|done|done].
    intros i _. repeat case_bool_decide; set_solver.
Qed.

Lemma repr_removeSet n X Y s s' : repr n X s → repr n Y s' →
  ∃ r, removeSet s s' = Ok r ∧ repr n (X ∖ Y) r.
Proof.
  intros HX HY. pose proof (repr_bounds n X s) as HbX.
  destruct (repr_inv _ _ _ HX) as (Hn & w & -> & Hf & _).
  destruct (repr_inv _ _ _ HY) as (_ & w' & -> & Hf' & _).
  exists (single n (Z.land w (not64 w'))). split.
  - unfold removeSet. simpl. by rewrite bool_decide_eq_true_2.
  - apply (repr_zip (λ x y, Z.land x (not64 y)) (λ a b, a && negb b) n X Y (X ∖ Y));
      [..|done|done].
    + intros i Hi. rewrite Z.land_spec, not64_testbit.
      replace (0 <=? i) with true by lia. replace (i <? 64) with true by lia.
      by rewrite !andb_true_r.
    + apply fits_land; [lia|done|apply not64_fits].
    + intros i _. repeat case_bool_decide; set_solver.
    + set_solver.
Qed.

Lemma combine_single f junk n w w' : 1 ≤ n ≤ 31 →
  combine f junk (single n w) (single n w') = Ok (single n (f w w')).
Proof.
  intros. unfold combine. simpl. rewrite create_single by done. simpl.
  by rewrite bool_decide_eq_true_2.
Qed.

Lemma repr_OR junk n X Y s s' : repr n X s → repr n Y s' →
  ∃ r, OR junk s s' = Ok r ∧ repr n (X ∪ Y) r.
Proof.
  intros HX HY. pose proof (repr_bounds n X s) as HbX. pose proof (repr_bounds n Y s') as HbY.
  destruct (repr_inv _ _ _ HX) as (Hn & w & -> & Hf & _).
  destruct (repr_inv _ _ _ HY) as (_ & w' & -> & Hf' & _).
  eexists. split; [by apply combine_single|].
  apply (repr_zip Z.lor orb n X Y (X ∪ Y)); [intros; apply Z.lor_spec|..];
    [apply fits_lor; lia || done| |set_solver|done|done].
  intros i _. repeat case_bool_decide; set_solver.
Qed.

Lemma repr_AND junk n X Y s s' : repr n X s → repr n Y s' →
  ∃ r, AND junk s s' = Ok r ∧ repr n (X ∩ Y) r.
Proof.
  intros HX HY. pose proof (repr_bounds n X s) as HbX.
  destruct (repr_inv _ _ _ HX) as (Hn & w & -> & Hf & _).
  destruct (repr_inv _ _ _ HY) as (_ & w' & -> & Hf' & _).
  eexists. split; [by apply combine_single|].
  apply (repr_zip Z.land andb n X Y (X ∩ Y)); [intros; apply Z.land_spec|..];
    [apply fits_land; unfold fits in *; lia || done| |set_solver|done|done].
  intros i _. repeat case_bool_decide; set_solver.
Qed.

Lemma repr_clear n X s : repr n X s → ∃ r, clear s = Ok r ∧ repr n ∅ r.
Proof.
  intros HX. destruct (repr_inv _ _ _ HX) as (Hn & w & -> & Hf & _).
  exists (single n 0). split; [done|].
  eapply repr_word; [done|unfold fits; lia| |set_solver].
  intros i _. rewrite Z.bits_0. case_bool_decide; set_solver.
Qed.

(** ** Observers *)

Lemma land_u64_pow2_zero w i : 0 ≤ i → fits 64 w →
  Z.land w (u64 (2 ^ i)) = 0 ↔ Z.testbit w i = false.
Proof.
  intros Hi Hw. destruct (decide (i < 64)).
  - unfold u64. rewrite uwrap_id by (by apply fits_pow2). by apply land_pow2_zero.
  - unfold u64, uwrap. replace (2 ^ i) with (2 ^ (i - 64) * 2 ^ 64)
      by (rewrite <- Z.pow_add_r by lia; f_equal; lia).
    rewrite Z.mod_mul, Z.land_0_r, (fits_testbit_high 64 w) by (done || lia). done.
Qed.

Lemma u64_shl_pow2 j : 0 ≤ j → u64 (Z.shiftl (u64 (2 ^ j)) 1) = u64 (2 ^ (j + 1)).
Proof.
  intros. unfold u64, uwrap. rewrite Z.shiftl_mul_pow2, Z.mul_mod_idemp_l by lia.
  f_equal. by rewrite <- Z.pow_add_r by lia.
Qed.

(** The bits of [w] among the positions [j .. j + k - 1]. *)
Definition bits_in (w j k : Z) : list Z :=
  filter (λ i, Z.testbit w i = true) (seqZ j k).

Lemma count_loop w (l : list Z) j c : 0 ≤ j → fits 64 w →
  (foldl (λ '(counter, mask) (_ : Z),
     (if decide (Z.land w mask = 0) then counter else counter + 1, u64 (Z.shiftl mask 1)))
   (c, u64 (2 ^ j)) l).1 = c + Z.of_nat (length (bits_in w j (Z.of_nat (length l)))).
Proof.
  intros Hj Hw. revert j c Hj. induction l as [|x l IH]; intros j c Hj.
  - unfold bits_in. rewrite seqZ_nil by (simpl; lia). simpl. lia.
  - simpl foldl. rewrite u64_shl_pow2, IH by lia. unfold bits_in.
    rewrite (seqZ_cons j) by (simpl; lia).
    replace (Z.pred (Z.of_nat (length (x :: l)))) with (Z.of_nat (length l)) by (simpl; lia).
    replace (Z.succ j) with (j + 1) by lia. rewrite filter_cons.
    case_decide as E; rewrite land_u64_pow2_zero in E by done; case_decide;
      [congruence|lia| |destruct (Z.testbit w j); congruence]. simpl length. lia.
Qed.

Lemma count_word_bits w : fits 64 w →
  count_word w = Z.of_nat (length (bits_in w 0 65)).
Proof. intros. unfold count_word. by rewrite (count_loop w _ 0 0). Qed.

Lemma bits_in_elements w (X : gset Z) : fits 64 w →
  (∀ i, i ∈ X ↔ Z.testbit w i = true) → length (bits_in w 0 65) = size X.
Proof.
  intros Hw HX. assert (X = list_to_set (bits_in w 0 65)) as ->.
  { apply set_eq. intros i. rewrite HX, elem_of_list_to_set. unfold bits_in.
    rewrite list_elem_of_filter, elem_of_seqZ. split; [|tauto].
    intros Hi. split; [done|]. destruct (decide (i < 0)).
    - by rewrite Z.testbit_neg_r in Hi by lia.
    - destruct (decide (i < 64)); [lia|].
      by rewrite (fits_testbit_high 64 w) in Hi by (done || lia). }
  rewrite size_list_to_set; [done|]. apply NoDup_filter, NoDup_seqZ.
Qed.

Lemma repr_count n X s : repr n X s → count s = Ok (Z.of_nat (size X)).
Proof.
  intros (Hn & w & -> & Hf & HX). assert (fits 64 w) by (eapply fits_mono; [|done]; lia).
  unfold count. rewrite indices_single. simpl. f_equal.
  rewrite count_word_bits by done. by rewrite (bits_in_elements w X).
Qed.

Lemma repr_isElement n X s i : repr n X s → 0 ≤ i < 32 →
  isElement s i = Ok (bool_decide (i ∈ X)).
Proof.
  intros Hr Hi. destruct (repr_inv _ _ _ Hr) as (Hn & w & -> & Hf & Hr').
  unfold isElement. rewrite slot_small, bit_of_small by done. simpl. f_equal.
  rewrite <- (repr_testbit n X w i Hr').
  case_bool_decide as E; rewrite land_pow2_zero in E by lia; destruct (Z.testbit w i); done.
Qed.

(** Two words agree on every bit when they stand for the same set. *)
Lemma repr_word_eq n X Y w w' : repr n X (single n w) → repr n Y (single n w') →
  w = w' ↔ X = Y.
Proof.
  intros HX HY. split.
  - intros ->. apply set_eq. intros i.
    destruct HX as (_ & ? & [= <-] & _ & HX), HY as (_ & ? & [= <-] & _ & HY).
    by rewrite HX, HY.
  - intros ->. apply Z.bits_inj. intros i.
    by rewrite (repr_testbit n Y w), (repr_testbit n Y w').
Qed.

Lemma repr_isEqual n X Y s s' : repr n X s → repr n Y s' →
  isEqual s s' = Ok (bool_decide (X = Y)).
Proof.
  intros HX HY.
  destruct (repr_inv _ _ _ HX) as (Hn & w & -> & Hf & HX').
  destruct (repr_inv _ _ _ HY) as (_ & w' & -> & Hf' & HY').
  unfold isEqual. simpl. rewrite (bool_decide_eq_true_2 (n = n)) by done. simpl.
  rewrite (bool_decide_ext _ _ (repr_word_eq n X Y w w' HX' HY')).
  by case_bool_decide.
Qed.

Lemma repr_isEmpty n X s : repr n X s → isEmpty s = Ok (bool_decide (X = ∅)).
Proof.
  intros HX. destruct (repr_inv _ _ _ HX) as (Hn & w & -> & Hf & HX').
  destruct (repr_create 0 n Hn) as (s0 & Hc & H0).
  rewrite create_single in Hc by done. injection Hc as <-.
  unfold isEmpty. simpl. rewrite (bool_decide_ext _ _ (repr_word_eq n X ∅ w 0 HX' H0)).
  by case_bool_decide.
Qed.

Lemma repr_intersectionIsEmpty n X Y s s' : repr n X s → repr n Y s' →
  intersectionIsEmpty s s' = Ok (bool_decide (X ∩ Y = ∅)).
Proof.
  intros HX HY. destruct (repr_AND 0 n X Y s s' HX HY) as (r & Hr & HXY).
  destruct (repr_inv _ _ _ HX) as (Hn & w & -> & Hf & HX').
  destruct (repr_inv _ _ _ HY) as (_ & w' & -> & Hf' & HY').
  unfold AND in Hr. rewrite combine_single in Hr by done. injection Hr as <-.
  apply repr_isEmpty in HXY. unfold isEmpty in HXY. simpl in HXY.
  unfold intersectionIsEmpty. simpl. done.
Qed.

Lemma superset_word x y n : 0 ≤ n ≤ 64 → fits n x → fits n y →
  Z.lor (Z.land y x) (not64 y) = ones64 ↔
  ∀ i, 0 ≤ i → Z.testbit y i = true → Z.testbit x i = true.
Proof.
  intros Hn Hx Hy. split.
  - intros H i Hi Ht.
    assert (Z.testbit (Z.lor (Z.land y x) (not64 y)) i = (i <? 64)) as E
      by (by rewrite H, ones64_testbit).
    rewrite Z.lor_spec, Z.land_spec, not64_testbit, Ht in E. simpl in E.
    rewrite orb_false_r in E. rewrite E. apply Z.ltb_lt.
    destruct (decide (i < n)); [lia|].
    by rewrite (fits_testbit_high n y) in Ht by (done || lia).
  - intros H. apply Z.bits_inj'. intros i Hi.
    rewrite Z.lor_spec, Z.land_spec, not64_testbit, ones64_testbit by done.
    replace (0 <=? i) with true by lia. specialize (H i Hi).
    destruct (Z.testbit y i) eqn:Ey; simpl.
    + rewrite H by done. simpl. symmetry. apply Z.ltb_lt.
      destruct (decide (i < n)); [lia|].
      by rewrite (fits_testbit_high n y) in Ey by (done || lia).
    + done.
Qed.

Lemma repr_isSuperset n X Y s s' : repr n X s → repr n Y s' →
  isSuperset s s' = Ok (bool_decide (Y ⊆ X)).
Proof.
  intros HX HY.
  destruct (repr_inv _ _ _ HX) as (Hn & w & -> & Hf & HX').
  destruct (repr_inv _ _ _ HY) as (_ & w' & -> & Hf' & HY').
  unfold isSuperset. simpl. rewrite (bool_decide_eq_true_2 (n = n)) by done. simpl.
  rewrite (bool_decide_ext (Z.lor _ _ = _) (Y ⊆ X)); [by case_bool_decide|].
  rewrite (superset_word w w' n) by (done || lia). split.
  - intros H i Hi. pose proof (repr_bounds _ _ _ i HY Hi).
    specialize (H i). rewrite (repr_testbit n X w), (repr_testbit n Y w') in H by done.
    rewrite !bool_decide_eq_true in H. apply H; [lia|done].
  - intros H i _. rewrite (repr_testbit n X w), (repr_testbit n Y w') by done.
    rewrite !bool_decide_eq_true. apply H.
Qed.

(** ** The smallest element *)

Lemma land_1_testbit x : Z.land x 1 = 0 ↔ Z.testbit x 0 = false.
Proof. exact (land_pow2_zero x 0 ltac:(lia)). Qed.

(** The loop stops at the first bit that is set. *)
Lemma lowest_bit_first x j k i : 0 ≤ i < k → Z.testbit x i = true →
  (∀ i', 0 ≤ i' < i → Z.testbit x i' = false) →
  lowest_bit x (seqZ j k) = Some (j + i).
Proof.
  intros Hi Ht Hlow. remember (Z.to_nat i) as m eqn:Em.
  revert x j k i Hi Ht Hlow Em. induction m as [|m IH]; intros x j k i Hi Ht Hlow Em;
    rewrite seqZ_cons by lia; cbn [lowest_bit].
  - assert (i = 0) as -> by lia. rewrite decide_False; [f_equal; lia|].
    rewrite land_1_testbit. congruence.
  - rewrite decide_True by (apply land_1_testbit, Hlow; lia).
    rewrite (IH _ _ _ (i - 1)); [f_equal; lia|lia| | |lia].
    + rewrite Z.shiftr_spec by lia. by replace (i - 1 + 1) with i by lia.
    + intros i' Hi'. rewrite Z.shiftr_spec by lia. apply Hlow. lia.
Qed.

Lemma repr_smallestElement n X s i : repr n X s →
  i ∈ X → (∀ j, j ∈ X → i ≤ j) → smallestElement s = Ok i.
Proof.
  intros Hr Hi Hmin. pose proof (repr_bounds _ _ _ i Hr Hi) as Hb.
  unfold smallestElement. rewrite (repr_count n X) by done. simpl.
  rewrite bool_decide_eq_true_2.
  2:{ destruct (decide (size X = 0%nat)) as [E|]; [|lia].
      apply size_empty_inv in E. set_solver. }
  destruct (repr_inv _ _ _ Hr) as (Hn & w & -> & Hf & Hr').
  rewrite indices_single. cbn [smallest_loop]. rewrite word_single.
  assert (Z.testbit w i = true) as Ht
    by (rewrite (repr_testbit n X) by done; by apply bool_decide_eq_true_2).
  change (Ok w ≫= ?f) with (f w). cbv beta.
  rewrite decide_False by (intros ->; by rewrite Z.bits_0 in Ht).
  change LONG_BITS with 65.
  rewrite (lowest_bit_first w 0 65 i); [done|lia|done|].
  intros i' Hi'. rewrite (repr_testbit n X) by done. apply bool_decide_eq_false_2.
  intros ?%Hmin. lia.
Qed.

(** ** Broadcast *)

Lemma land_ones_ones a b : 0 ≤ b ≤ a → Z.land (Z.ones a) (Z.ones b) = Z.ones b.
Proof.
  intros. apply Z.bits_inj'. intros i Hi.
  rewrite Z.land_spec, !Z.testbit_ones_nonneg by lia. lia.
Qed.

Lemma shiftr_ones_1 a : 1 ≤ a → Z.shiftr (Z.ones a) 1 = Z.ones (a - 1).
Proof.
  intros. apply Z.bits_inj'. intros i Hi.
  rewrite Z.shiftr_spec, !Z.testbit_ones_nonneg by lia. lia.
Qed.

(** After [j] iterations the word holds [64 - j] ones and the mask [63 - j]. *)
Lemma clearExcess_loop n (l : list Z) j : 0 ≤ j → j + Z.of_nat (length l) ≤ 63 →
  mfold clearExcess_step
    (single n (Z.ones (64 - j)), Z.ones (63 - j)) l
  = Ok (single n (Z.ones (64 - j - Z.of_nat (length l))),
        Z.ones (63 - j - Z.of_nat (length l))).
Proof.
  revert j. induction l as [|x l IH]; intros j Hj Hl.
  - simpl. by rewrite !Z.sub_0_r.
  - simpl in Hl. cbn [mfold].
    assert (clearExcess_step (single n (Z.ones (64 - j)), Z.ones (63 - j)) x
            = Ok (single n (Z.ones (64 - (j + 1))), Z.ones (63 - (j + 1)))) as ->.
    { unfold clearExcess_step. change (m_nArrayLen (single n ?w) - 1) with 0.
      change (Ok (single n (Z.land (Z.ones (64 - j)) (Z.ones (63 - j))),
                  Z.shiftr (Z.ones (63 - j)) 1)
              = Ok (single n (Z.ones (64 - (j + 1))), Z.ones (63 - (j + 1)))).
      rewrite land_ones_ones, shiftr_ones_1 by lia.
      replace (63 - j - 1) with (63 - (j + 1)) by lia.
      by replace (63 - j) with (64 - (j + 1)) by lia. }
    change (Ok ?w ≫= ?f) with (f w). cbv beta. rewrite IH by lia.
    replace (64 - (j + 1) - Z.of_nat (length l))
      with (64 - j - Z.of_nat (length (x :: l))) by (simpl; lia).
    by replace (63 - (j + 1) - Z.of_nat (length l))
      with (63 - j - Z.of_nat (length (x :: l))) by (simpl; lia).
Qed.

Lemma repr_broadcast n X s : repr n X s →
  ∃ r, broadcast s = Ok r ∧ repr n (list_to_set (seqZ 0 n)) r.
Proof.
  intros HX. destruct (repr_inv _ _ _ HX) as (Hn & w & -> & Hf & _).
  exists (single n (Z.ones n)). split.
  - unfold broadcast. rewrite indices_single. cbn [mfold]. rewrite set_word_single. simpl.
    unfold clearExcess. cbn [m_nSize single]. change LONG_BITS with 65.
    rewrite Z.rem_mod_nonneg, Z.mod_small, decide_False by lia.
    change INDEX_MASK with (Z.ones 5). rewrite Z.land_ones, Z.mod_small by lia.
    change ones64 with (Z.ones (64 - 0)). change 0x7FFFFFFFFFFFFFFF with (Z.ones (63 - 0)).
    rewrite (clearExcess_loop n _ 0) by (rewrite ?length_seqZ; lia).
    rewrite length_seqZ. simpl. do 2 f_equal. f_equal. lia.
  - eapply repr_word; [done|..].
    + assert (0 < 2 ^ n) by (apply Z.pow_pos_nonneg; lia).
      unfold fits. rewrite Z.ones_equiv. lia.
    + intros i Hi. rewrite Z.testbit_ones_nonneg by lia.
      rewrite bool_decide_eq_true_2; [lia|]. rewrite elem_of_list_to_set, elem_of_seqZ. lia.
    + intros i. rewrite elem_of_list_to_set, elem_of_seqZ. lia.
Qed.

Lemma low_bits_set_spec w j k : 0 ≤ j → fits 64 w →
  low_bits_set w (u64 (2 ^ j)) (seqZ j k) = true ↔
  ∀ i, j ≤ i < j + k → Z.testbit w i = true.
Proof.
  intros Hj Hw. remember (Z.to_nat k) as m eqn:Em.
  revert j k Hj Em. induction m as [|m IH]; intros j k Hj Em.
  - rewrite seqZ_nil by lia. simpl. split; [lia|done].
  - rewrite seqZ_cons by lia. cbn [low_bits_set]. rewrite u64_shl_pow2 by done.
    rewrite Z.land_comm. case_decide as E; rewrite land_u64_pow2_zero in E by done.
    + split; [done|]. intros H. specialize (H j). rewrite E in H. apply H. lia.
    + replace (j + 1) with (Z.succ j) by lia. rewrite IH by lia. split.
      * intros H i Hi. destruct (decide (i = j)) as [->|]; [by destruct (Z.testbit w j)|].
        apply H. lia.
      * intros H i Hi. apply H. lia.
Qed.

Lemma repr_isBroadcast n X s : repr n X s →
  isBroadcast s = Ok (bool_decide (X = list_to_set (seqZ 0 n))).
Proof.
  intros Hr. destruct (repr_inv _ _ _ Hr) as (Hn & w & -> & Hf & Hr').
  unfold isBroadcast. cbn [m_nSize m_nArrayLen single]. change LONG_BITS with 65.
  rewrite Z.rem_mod_nonneg, Z.mod_small by lia. rewrite (decide_False (P := n = 0)) by lia.
  change (1 - 1) with 0. change (seqZ 0 0) with (@nil Z). cbn [all_words].
  change (Ok ?w ≫= ?f) with (f w). cbv beta. cbn [negb].
  rewrite decide_False by lia. rewrite word_single.
  change (Ok ?w ≫= ?f) with (f w). cbv beta. f_equal.
  apply eq_true_iff_eq. change 1 with (u64 (2 ^ 0)) at 1.
  rewrite low_bits_set_spec, bool_decide_eq_true by (lia || (eapply fits_mono; [|done]; lia)).
  split.
  - intros H. apply set_eq. intros i. rewrite elem_of_list_to_set, elem_of_seqZ. split.
    + intros Hi. pose proof (repr_bounds _ _ _ i Hr Hi). lia.
    + intros Hi. specialize (H i). rewrite (repr_testbit n X), bool_decide_eq_true in H by done.
      apply H. lia.
  - intros -> i Hi. rewrite (repr_testbit n _ w i Hr'), bool_decide_eq_true.
    rewrite elem_of_list_to_set, elem_of_seqZ. lia.
Qed.

Lemma repr_assign n X s obj : repr n X obj →
  length (m_p_nArray_Static s) = 1%nat → ∃ r, assign s obj = Ok r ∧ repr n X r.
Proof.
  intros HX Hlen. destruct (repr_inv _ _ _ HX) as (Hn & w & -> & Hf & HX').
  exists (single n w). split; [|done].
  destruct s as [sz len ptr [|a [|? ?]]]; simpl in Hlen; try done.
  unfold assign, setSize. cbn [getSize m_nSize single m_p_nArray_Static].
  replace ((n + LONG_BITS - 1) `quot` LONG_BITS) with 1; [done|].
  change LONG_BITS with 65. rewrite Z.quot_div_nonneg by lia.
  apply (Z.div_unique _ _ _ (n - 1)); lia.
Qed.

(** ** Refinement *)

(** The mutators of [Set], as a client calls them; [AddSet] and [RemoveSet]
    take another object. *)
Inductive update : Type :=
  | Add (i : Z)
  | Remove (i : Z)
  | Clear
  | Broadcast
  | AddSet (other : t)
  | RemoveSet (other : t)
  | Assign (other : t).

Definition run_update (s : t) (u : update) : outcome t :=
  match u with
  | Add i => add s i
  | Remove i => remove s i
  | Clear => clear s
  | Broadcast => broadcast s
  | AddSet o => addSet s o
  | RemoveSet o => removeSet s o
  | Assign o => assign s o
  end.

(** The elements an object reports. *)
Definition nodes (s : t) : gset Z :=
  list_to_set (filter (λ i, isElement s i = Ok true) (seqZ 0 (getSize s))).

Definition spec_update (n : Z) (X : gset Z) (u : update) : gset Z :=
  match u with
  | Add i => {[i]} ∪ X
  | Remove i => X ∖ {[i]}
  | Clear => ∅
  | Broadcast => list_to_set (seqZ 0 n)
  | AddSet o => X ∪ nodes o
  | RemoveSet o => X ∖ nodes o
  | Assign o => nodes o
  end.

Definition update_ok (n : Z) (u : update) : Prop :=
  match u with
  | Add i | Remove i => 0 ≤ i < n
  | Clear | Broadcast => True
  | AddSet o | RemoveSet o | Assign o => repr n (nodes o) o
  end.

Lemma repr_nodes n X s : repr n X s → nodes s = X.
Proof.
  intros Hr. apply set_eq. intros i. unfold nodes.
  rewrite elem_of_list_to_set, list_elem_of_filter, elem_of_seqZ.
  assert (getSize s = n) as -> by (by destruct Hr as (_ & w & -> & _)).
  split.
  - intros [He Hi]. destruct Hr as (Hn & Hr).
    rewrite (repr_isElement n X s) in He by (done || lia).
    injection He as He. by apply bool_decide_eq_true in He.
  - intros Hi. pose proof (repr_bounds _ _ _ i Hr Hi). split; [|lia].
    assert (1 ≤ n ≤ 31) by apply Hr.
    rewrite (repr_isElement n X s) by (done || lia). by rewrite bool_decide_eq_true_2.
Qed.

Lemma repr_static n X s : repr n X s → length (m_p_nArray_Static s) = 1%nat.
Proof. by intros (_ & w & -> & _). Qed.

Lemma repr_update n X s u : repr n X s → update_ok n u →
  ∃ s', run_update s u = Ok s' ∧ repr n (spec_update n X u) s'.
Proof.
  intros Hr. destruct u; simpl; intros Hu;
    eauto using repr_add, repr_remove, repr_clear, repr_broadcast, repr_addSet, repr_removeSet.
  eapply repr_assign; [done|by eapply repr_static].
Qed.

Lemma repr_updates n us : Forall (update_ok n) us → ∀ X s, repr n X s →
  ∃ s', mfold run_update s us = Ok s' ∧ repr n (foldl (spec_update n) X us) s'.
Proof.
  induction 1 as [|u us Hu _ IH]; intros X s Hr; simpl; [eauto|].
  destruct (repr_update n X s u Hr Hu) as (s' & -> & Hr'). simpl. eauto.
Qed.

(** On at most 31 nodes, any sequence of in-range mutations of a fresh
    [Set] succeeds and leaves an object that stands for the mathematical set
    the same sequence of set operations gives. *)
Theorem set_updates_refine junk n us : 1 ≤ n ≤ 31 → Forall (update_ok n) us →
  ∃ s0 s, create junk n = Ok s0 ∧ mfold run_update s0 us = Ok s ∧
    repr n (foldl (spec_update n) ∅ us) s ∧
    nodes s = foldl (spec_update n) ∅ us.
Proof.
  intros Hn Hus. destruct (repr_create junk n Hn) as (s0 & Hc & H0).
  destruct (repr_updates n us Hus ∅ s0 H0) as (s & Hs & Hr).
  exists s0, s. eauto using repr_nodes.
Qed.

Lemma set_updates_refine_witness : ∃ s0 s,
  create 77 4 = Ok s0 ∧
  mfold run_update s0 [Broadcast; Remove 2; AddSet (single 4 4); Remove 0] = Ok s ∧
  repr 4 (foldl (spec_update 4) ∅ [Broadcast; Remove 2; AddSet (single 4 4); Remove 0]) s ∧
  nodes s = foldl (spec_update 4) ∅ [Broadcast; Remove 2; AddSet (single 4 4); Remove 0].
Proof.
  apply (set_updates_refine 77 4 [Broadcast; Remove 2; AddSet (single 4 4); Remove 0]); [lia|].
  repeat constructor; try lia. exists 4. split_and!; [done|unfold fits; lia|].
  intros i. assert (nodes (single 4 4) = {[2]}) as -> by (vm_compute; done).
  change 4 with (2 ^ 2). rewrite testbit_pow2, bool_decide_eq_true, elem_of_singleton by lia.
  done.
Defined.

(** On at most 31 nodes, every query of a [Set] answers for the set it
    stands for: the size, membership, equality, inclusion, disjointness,
    fullness, and the smallest element when there is one. *)
Theorem set_queries_refine n X Y s s' : repr n X s → repr n Y s' →
  count s = Ok (Z.of_nat (size X)) ∧
  (∀ i, 0 ≤ i < 32 → isElement s i = Ok (bool_decide (i ∈ X))) ∧
  isEqual s s' = Ok (bool_decide (X = Y)) ∧
  isSubset s s' = Ok (bool_decide (X ⊆ Y)) ∧
  isSuperset s s' = Ok (bool_decide (Y ⊆ X)) ∧
  isEmpty s = Ok (bool_decide (X = ∅)) ∧
  intersectionIsEmpty s s' = Ok (bool_decide (X ∩ Y = ∅)) ∧
  isBroadcast s = Ok (bool_decide (X = list_to_set (seqZ 0 n))) ∧
  (∀ i, i ∈ X → (∀ j, j ∈ X → i ≤ j) → smallestElement s = Ok i).
Proof.
  intros HX HY. unfold isSubset. split_and!;
    eauto using repr_count, repr_isElement, repr_isEqual, repr_isSuperset, repr_isEmpty,
      repr_intersectionIsEmpty, repr_isBroadcast, repr_smallestElement.
Qed.

Lemma set_queries_refine_witness : ∃ X s, repr 5 X s ∧
  count s = Ok 2 ∧ smallestElement s = Ok 1 ∧ isSubset s s = Ok true.
Proof.
  destruct (repr_create 0 5 ltac:(lia)) as (s0 & _ & H0).
  destruct (repr_add 5 ∅ s0 3 H0 ltac:(lia)) as (s1 & _ & H1).
  destruct (repr_add 5 _ s1 1 H1 ltac:(lia)) as (s & _ & H).
  destruct (set_queries_refine 5 _ _ s s H H) as (Hc & _ & _ & Hs & _ & _ & _ & _ & Hm).
  exists ({[1]} ∪ ({[3]} ∪ ∅)), s. split_and!; [done|exact Hc| |exact Hs].
  apply Hm; [set_solver|]. intros j. rewrite !elem_of_union, !elem_of_singleton. set_solver by lia.
Defined.

(** C40: the word index uses 32 bits per word while the array is sized at 65
    bits per word, so on a set of 33 to 65 nodes adding any node from 32 on
    runs past the array, and [broadcast] on a set of 32 nodes leaves it
    empty. *)
Theorem set_beyond_31_nodes junk n i : 33 ≤ n ≤ 65 → 32 ≤ i < n →
  (∃ s, create junk n = Ok s ∧ add s i = Err OutOfBounds) ∧
  (∃ s r, create junk 32 = Ok s ∧ broadcast s = Ok r ∧ isEmpty r = Ok true).
Proof.
  intros Hn Hi. split.
  - exists (single n 0). split.
    + unfold create. rewrite decide_True by lia. unfold setSize.
      replace ((n + LONG_BITS - 1) `quot` LONG_BITS) with 1; [done|].
      change LONG_BITS with 65. rewrite Z.quot_div_nonneg by lia.
      apply (Z.div_unique _ _ _ (n - 1)); lia.
    + unfold add, word, vget, slot. change INDEX_SHIFT with 5.
      rewrite Z.shiftr_div_pow2 by lia. simpl.
      assert (1 ≤ i / 2 ^ 5) by (apply Z.div_le_lower_bound; lia).
      rewrite decide_True by lia.
      by rewrite lookup_ge_None_2 by (simpl; lia).
  - eexists _, _. split_and!; vm_compute; reflexivity.
Qed.

Lemma set_beyond_31_nodes_witness :
  (∃ s, create 0 40 = Ok s ∧ add s 32 = Err OutOfBounds) ∧
  (∃ s r, create 0 32 = Ok s ∧ broadcast s = Ok r ∧ isEmpty r = Ok true).
Proof. apply (set_beyond_31_nodes 0 40 32); lia. Defined.
