(* ===== verification/Destinations.v ===== *)
(** * Destination sets (mem/ruby/common/NetDest.hh, NetDest.cc, MachineID.hh)

    A message is addressed to a set of machines, kept as one [Set] of node
    numbers per machine type.  The functions on machine types are those the
    SLICC compiler writes (slicc/symbols/Type.py); they depend on the number
    of controllers of each type, which the model takes as a list.  The set of
    machines a [NetDest] stands for is a finite set of [MachineID]s. *)

From S2P Require Import Prelude NodeSets.
Local Open Scope Z_scope.

(** The enumeration counts from 0; [MachineType_NUM] is the number of its
    constructors.  [getNumControllers] of a type that the protocol does not
    define is 0. *)
Module MachineType.

Definition NUM (counts : list Z) : Z := Z.of_nat (length counts).

Definition base_level (counts : list Z) (m : Z) : outcome Z :=
  if decide (0 ≤ m ≤ NUM counts) then Ok m else Err PanicFault.

Definition from_base_level (counts : list Z) (level : Z) : outcome Z :=
  if decide (0 ≤ level < NUM counts) then Ok level else Err PanicFault.

(** The cases fall through from the given type down to the first. *)
Definition base_number (counts : list Z) (m : Z) : outcome Z :=
  if decide (0 ≤ m ≤ NUM counts)
  then Ok (foldr Z.add 0 (take (Z.to_nat m) counts)) else Err PanicFault.

Definition base_count (counts : list Z) (m : Z) : outcome Z :=
  if decide (0 ≤ m) then from_option_or PanicFault (counts !! Z.to_nat m)
  else Err PanicFault.

End MachineType.

Record MachineID := mkMachineID { mach_type : Z; mach_num : Z }.

#[global] Instance MachineID_eq_dec : EqDecision MachineID.
Proof. solve_decision. Defined.

#[global] Instance MachineID_countable : Countable MachineID :=
  inj_countable' (λ m, (mach_type m, mach_num m)) (λ p, mkMachineID p.1 p.2)
    ltac:(by intros []).

Module NetDest.

Record t := mk {
  m_bits : list NodeSet.t;
  special : bool;
  sidePacket : bool;
  direct : bool }.

Definition set_bits (d : t) (b : list NodeSet.t) : t :=
  mk b (special d) (sidePacket d) (direct d).

Definition getSize (d : t) : Z := Z.of_nat (length (m_bits d)).

Section operations.
Context (counts : list Z) (junk : Z).

(** [m_bits.resize(n)] default-constructs the new elements. *)
Definition resize (d : t) : outcome t :=
  n ← MachineType.base_level counts (MachineType.NUM counts);
  let bits := take (Z.to_nat n) (m_bits d)
    ++ replicate (Z.to_nat n - length (m_bits d)) (NodeSet.create_empty junk) in
  assert_that (bool_decide (Z.of_nat (length bits) = MachineType.NUM counts));;
  bits ← mapi (λ i s, c ← MachineType.base_count counts i; NodeSet.setSize s c) 0 bits;
  Ok (set_bits d bits).

(** [NetDest()] *)
Definition create : outcome t :=
  d ← resize (mk [] false false false);
  Ok (mk (m_bits d) false false false).

Definition makeSpecial (d : t) : t := mk (m_bits d) true (sidePacket d) (direct d).
Definition makeSidePacket (d : t) : t := mk (m_bits d) (special d) true (direct d).
Definition setDirect (d : t) : t := mk (m_bits d) (special d) (sidePacket d) true.

Definition vecIndex (d : t) (m : MachineID) : outcome Z :=
  vec_index ← MachineType.base_level counts (mach_type m);
  assert_that (bool_decide (vec_index < getSize d));;
  Ok vec_index.

Definition bitIndex (index : Z) : Z := index.

(** [m_bits[i].op()] *)
Definition update_row (d : t) (i : Z) (op : NodeSet.t → outcome NodeSet.t) : outcome t :=
  s ← vget (m_bits d) i;
  s ← op s;
  bits ← vset (m_bits d) i s;
  Ok (set_bits d bits).

Definition add (d : t) (newElement : MachineID) : outcome t :=
  i ← vecIndex d newElement;
  s ← vget (m_bits d) i;
  assert_that (bool_decide (bitIndex (mach_num newElement) < NodeSet.getSize s));;
  update_row d i (λ s, NodeSet.add s (bitIndex (mach_num newElement))).

Definition remove (d : t) (oldElement : MachineID) : outcome t :=
  i ← vecIndex d oldElement;
  update_row d i (λ s, NodeSet.remove s (bitIndex (mach_num oldElement))).

(** [m_bits[i].op(netDest.m_bits[i])] for every [i] *)
Definition zip_rows (op : NodeSet.t → NodeSet.t → outcome NodeSet.t) (d netDest : t) : outcome t :=
  assert_that (bool_decide (getSize d = getSize netDest));;
  bits ← mapi (λ i s, s' ← vget (m_bits netDest) i; op s s') 0 (m_bits d);
  Ok (set_bits d bits).

Definition addNetDest : t → t → outcome t := zip_rows NodeSet.addSet.
Definition removeNetDest : t → t → outcome t := zip_rows NodeSet.removeSet.

Definition setNetDest (d : t) (machine : Z) (set : NodeSet.t) : outcome t :=
  next ← MachineType.base_level counts (machine + 1);
  level ← MachineType.base_level counts machine;
  assert_that (bool_decide (next - level = 1));;
  update_row d level (λ s, NodeSet.assign s set).

Definition clear (d : t) : outcome t :=
  bits ← mapi (λ _ s, NodeSet.clear s) 0 (m_bits d); Ok (set_bits d bits).

(** [broadcast(MachineType)] *)
Definition broadcast_type (d : t) (machineType : Z) : outcome t :=
  n ← MachineType.base_count counts machineType;
  mfold (λ d i, add d (mkMachineID machineType i)) d (seqZ 0 n).

Definition broadcast (d : t) : outcome t :=
  mfold broadcast_type d (seqZ 0 (MachineType.NUM counts)).

(** The nodes of one row, in increasing order. *)
Definition row_elements (s : NodeSet.t) : outcome (list Z) :=
  mfold (λ acc j, b ← NodeSet.isElement s j; Ok (if b : bool then acc ++ [j] else acc))
    [] (seqZ 0 (NodeSet.getSize s)).

Definition getAllDest (d : t) : outcome (list Z) :=
  rows ← mapi (λ i s,
    js ← row_elements s;
    mfold (λ acc j, base ← MachineType.base_number counts i; Ok (acc ++ [u32 (base + j)]))
      [] js) 0 (m_bits d);
  Ok (concat rows).

Definition count (d : t) : outcome Z :=
  mfold (λ counter s, c ← NodeSet.count s; Ok (counter + c)) 0 (m_bits d).

Definition elementAt (d : t) (index : MachineID) : outcome Z :=
  i ← vecIndex d index; s ← vget (m_bits d) i; NodeSet.elementAt s (bitIndex (mach_num index)).

(** The first [j] below the size with [isElement(j)]. *)
Fixpoint first_element (s : NodeSet.t) (js : list Z) : outcome (option Z) :=
  match js with
  | [] => Ok None
  | j :: js => b ← NodeSet.isElement s j;
               if b : bool then Ok (Some j) else first_element s js
  end.

Definition row_first (s : NodeSet.t) : outcome (option Z) :=
  first_element s (seqZ 0 (NodeSet.getSize s)).

(** The first row with an element, with that element. *)
Fixpoint first_row (i : Z) (bits : list NodeSet.t) : outcome (Z * Z) :=
  match bits with
  | [] => Err PanicFault
  | s :: bits =>
      o ← row_first s;
      match o with Some j => Ok (i, j) | None => first_row (i + 1) bits end
  end.

Definition smallestElement (d : t) : outcome MachineID :=
  c ← count d;
  assert_that (bool_decide (0 < c));;
  ij ← first_row 0 (m_bits d);
  ty ← MachineType.from_base_level counts ij.1;
  Ok (mkMachineID ty ij.2).

(** [smallestElement(MachineType)] *)
Definition smallestElement_type (d : t) (machine : Z) : outcome MachineID :=
  level ← MachineType.base_level counts machine;
  s ← vget (m_bits d) level;
  o ← row_first s;
  match o with Some j => Ok (mkMachineID machine j) | None => Err PanicFault end.

Definition smallestNodeID (d : t) : outcome Z :=
  c ← count d;
  assert_that (bool_decide (0 < c));;
  ij ← first_row 0 (m_bits d);
  Ok ij.2.

Definition isBroadcast (d : t) : outcome bool :=
  alli (λ _ s, NodeSet.isBroadcast s) 0 (m_bits d).

Definition isEmpty (d : t) : outcome bool :=
  alli (λ _ s, NodeSet.isEmpty s) 0 (m_bits d).

(** [NetDest result;] then [result.m_bits[i] = m_bits[i].op(other.m_bits[i])] *)
Definition combine (op : NodeSet.t → NodeSet.t → outcome NodeSet.t) (d other : t) : outcome t :=
  assert_that (bool_decide (getSize d = getSize other));;
  result ← create;
  bits ← mapi (λ i s,
    s' ← vget (m_bits other) i; r ← op s s'; old ← vget (m_bits result) i;
    NodeSet.assign old r) 0 (m_bits d);
  Ok (set_bits result bits).

Definition OR : t → t → outcome t := combine (NodeSet.OR junk).
Definition AND : t → t → outcome t := combine (NodeSet.AND junk).

(** A loop that compares the rows pairwise. *)
Definition all_rows (p : NodeSet.t → NodeSet.t → outcome bool) (d other : t) : outcome bool :=
  assert_that (bool_decide (getSize d = getSize other));;
  alli (λ i s, s' ← vget (m_bits other) i; p s s') 0 (m_bits d).

Definition intersectionIsNotEmpty (d other : t) : outcome bool :=
  b ← all_rows NodeSet.intersectionIsEmpty d other; Ok (negb b).

Definition isSuperset : t → t → outcome bool := all_rows NodeSet.isSuperset.
Definition isSubset (d test : t) : outcome bool := isSuperset test d.
Definition isEqual : t → t → outcome bool := all_rows NodeSet.isEqual.

Definition isElement (d : t) (element : MachineID) : outcome bool :=
  i ← vecIndex d element; s ← vget (m_bits d) i; NodeSet.isElement s (bitIndex (mach_num element)).

End operations.

End NetDest.

(** ** Rows

    A machine type with no controllers has a [Set] of size 0, whose array has
    length 0; the others have one word. *)

Definition row_repr (n : Z) (X : gset Z) (s : NodeSet.t) : Prop :=
  repr n X s ∨ (n = 0 ∧ X = ∅ ∧ ∃ w, s = NodeSet.mk 0 0 NodeSet.PStatic [w]).

Lemma row_repr_bounds n X s i : row_repr n X s → i ∈ X → 0 ≤ i < n ∧ 1 ≤ n ≤ 31.
Proof.
  intros [Hr|(-> & -> & _)] Hi; [|set_solver].
  split; [by eapply repr_bounds|apply Hr].
Qed.

Lemma row_repr_pos n X s : row_repr n X s → 0 < n → repr n X s.
Proof. intros [|(-> & _)]; [done|lia]. Qed.

Lemma row_repr_size n X s : row_repr n X s → NodeSet.getSize s = n.
Proof. intros [(_ & w & -> & _)|(-> & _ & w & ->)]; done. Qed.

Lemma row_repr_static n X s : row_repr n X s →
  length (NodeSet.m_p_nArray_Static s) = 1%nat.
Proof. intros [Hr|(_ & _ & w & ->)]; [by eapply repr_static|done]. Qed.

(** An operation that refines a set operation on nonempty rows and does nothing
    on the empty one. *)
Ltac row_cases :=
  intros;
  repeat match goal with
  | H : row_repr _ _ _ |- _ => destruct H as [?|(? & ? & ? & ?)]; simplify_eq
  | H : repr 0 _ _ |- _ => destruct H as [? _]; lia
  end.

Lemma row_setSize w0 n : 0 ≤ n ≤ 31 →
  ∃ s, NodeSet.setSize (NodeSet.create_empty w0) n = Ok s ∧ row_repr n ∅ s.
Proof.
  intros Hn. destruct (decide (n = 0)) as [->|].
  - eexists. split; [done|]. right. eauto.
  - destruct (repr_create w0 n) as (s & Hs & Hr); [lia|].
    unfold NodeSet.create in Hs. rewrite decide_True in Hs by lia. exists s. split; [done|by left].
Qed.

Lemma row_clear n X s : row_repr n X s → ∃ r, NodeSet.clear s = Ok r ∧ row_repr n ∅ r.
Proof.
  row_cases.
  - destruct (repr_clear n X s) as (r & ? & ?); [done|]. exists r. split; [done|by left].
  - eexists. split; [done|]. right. eauto.
Qed.

Lemma row_addSet n X Y s s' : row_repr n X s → row_repr n Y s' →
  ∃ r, NodeSet.addSet s s' = Ok r ∧ row_repr n (X ∪ Y) r.
Proof.
  row_cases.
  - destruct (repr_addSet n X Y s s') as (r & ? & ?); [done..|]. exists r. split; [done|by left].
  - eexists. split; [done|]. right. split_and!; [done|set_solver|eauto].
Qed.

Lemma row_removeSet n X Y s s' : row_repr n X s → row_repr n Y s' →
  ∃ r, NodeSet.removeSet s s' = Ok r ∧ row_repr n (X ∖ Y) r.
Proof.
  row_cases.
  - destruct (repr_removeSet n X Y s s') as (r & ? & ?); [done..|]. exists r. split; [done|by left].
  - eexists. split; [done|]. right. split_and!; [done|set_solver|eauto].
Qed.

Lemma row_assign n X s obj : row_repr n X obj →
  length (NodeSet.m_p_nArray_Static s) = 1%nat →
  ∃ r, NodeSet.assign s obj = Ok r ∧ row_repr n X r.
Proof.
  intros HX Hlen. row_cases.
  - destruct (repr_assign n X s obj) as (r & ? & ?); [done..|]. exists r. split; [done|by left].
  - destruct s as [sz len ptr [|a [|? ?]]]; simpl in Hlen; try done.
    eexists. split; [done|]. right. eauto.
Qed.

(** [result.m_bits[i] = x.op(y)], [op] being [OR] or [AND]. *)
Lemma row_combine (op : Z → Z → Z) (sop : gset Z → gset Z → gset Z) junk n X Y s s' old :
  (∀ n X Y s s', repr n X s → repr n Y s' →
     ∃ r, NodeSet.combine op junk s s' = Ok r ∧ repr n (sop X Y) r) →
  sop ∅ ∅ = ∅ → row_repr n X s → row_repr n Y s' →
  length (NodeSet.m_p_nArray_Static old) = 1%nat →
  ∃ r r', NodeSet.combine op junk s s' = Ok r ∧ NodeSet.assign old r = Ok r' ∧
    row_repr n (sop X Y) r'.
Proof.
  intros Hop H0 HX HY Hlen. row_cases.
  - destruct (Hop n X Y s s') as (r & Hr & Hrepr); [done..|].
    destruct (row_assign n (sop X Y) old r) as (r' & ? & ?); [by left|done|]. eauto.
  - destruct old as [sz len ptr [|a [|? ?]]]; simpl in Hlen; try done.
    eexists _, _. split_and!; [done|done|]. right. rewrite H0. eauto.
Qed.

Lemma row_count n X s : row_repr n X s → NodeSet.count s = Ok (Z.of_nat (size X)).
Proof. row_cases; [by eapply repr_count|]. by rewrite size_empty. Qed.

Lemma row_isEmpty n X s : row_repr n X s → NodeSet.isEmpty s = Ok (bool_decide (X = ∅)).
Proof. row_cases; [by eapply repr_isEmpty|done]. Qed.

Lemma row_isBroadcast n X s : row_repr n X s →
  NodeSet.isBroadcast s = Ok (bool_decide (X = list_to_set (seqZ 0 n))).
Proof. row_cases; [by eapply repr_isBroadcast|done]. Qed.

Lemma row_isEqual n X Y s s' : row_repr n X s → row_repr n Y s' →
  NodeSet.isEqual s s' = Ok (bool_decide (X = Y)).
Proof. row_cases; [by eapply repr_isEqual|done]. Qed.

Lemma row_isSuperset n X Y s s' : row_repr n X s → row_repr n Y s' →
  NodeSet.isSuperset s s' = Ok (bool_decide (Y ⊆ X)).
Proof. row_cases; [by eapply repr_isSuperset|done]. Qed.

Lemma row_intersectionIsEmpty n X Y s s' : row_repr n X s → row_repr n Y s' →
  NodeSet.intersectionIsEmpty s s' = Ok (bool_decide (X ∩ Y = ∅)).
Proof. row_cases; [by eapply repr_intersectionIsEmpty|done]. Qed.

(** [isElement(j)] is asked only below the size. *)
Lemma row_isElement n X s j : row_repr n X s → 0 ≤ j < n →
  NodeSet.isElement s j = Ok (bool_decide (j ∈ X)).
Proof. intros Hr Hj. row_cases; [|lia]. eapply repr_isElement; [done|]. destruct H; lia. Qed.

(** ** Destination sets as sets of machines *)

(** The numbers of the machines of type [i] in [D]. *)
Definition row (i : Z) (D : gset MachineID) : gset Z :=
  set_map mach_num (filter (λ m, mach_type m = i) D).

Lemma elem_of_row i j D : j ∈ row i D ↔ mkMachineID i j ∈ D.
Proof.
  unfold row. rewrite elem_of_map. split.
  - intros ([ty nm] & -> & [Hty Hm]%elem_of_filter). simpl in *. by subst.
  - intros H. exists (mkMachineID i j). split; [done|]. by apply elem_of_filter.
Qed.

Lemma row_empty i : row i ∅ = ∅.
Proof. apply set_eq. intros j. rewrite elem_of_row. set_solver. Qed.

Lemma row_union i D E : row i (D ∪ E) = row i D ∪ row i E.
Proof. apply set_eq. intros j. rewrite elem_of_union, !elem_of_row. set_solver. Qed.

Lemma row_difference i D E : row i (D ∖ E) = row i D ∖ row i E.
Proof. apply set_eq. intros j. rewrite elem_of_difference, !elem_of_row. set_solver. Qed.

Lemma row_intersection i D E : row i (D ∩ E) = row i D ∩ row i E.
Proof. apply set_eq. intros j. rewrite elem_of_intersection, !elem_of_row. set_solver. Qed.

Section refinement.
Context (counts : list Z) (junk : Z).

(** A machine that exists in the configuration. *)
Definition machine_ok (m : MachineID) : Prop :=
  0 ≤ mach_type m ∧
  ∃ n, counts !! Z.to_nat (mach_type m) = Some n ∧ 0 ≤ mach_num m < n.

Definition dest_repr (D : gset MachineID) (d : NetDest.t) : Prop :=
  length (NetDest.m_bits d) = length counts ∧
  (∀ k s n, NetDest.m_bits d !! k = Some s → counts !! k = Some n →
     row_repr n (row (Z.of_nat k) D) s) ∧
  ∀ m, m ∈ D → machine_ok m.

Lemma dest_repr_row D d k s : dest_repr D d → NetDest.m_bits d !! k = Some s →
  ∃ n, counts !! k = Some n ∧ row_repr n (row (Z.of_nat k) D) s.
Proof.
  intros (Hlen & Hrow & _) Hk. destruct (counts !! k) as [n|] eqn:E; [eauto|].
  apply lookup_ge_None_1 in E. apply lookup_lt_Some in Hk. lia.
Qed.

(** The rows at two objects for the same configuration. *)
Lemma dest_repr_rows D E d e k s : dest_repr D d → dest_repr E e →
  NetDest.m_bits d !! k = Some s →
  ∃ n s', counts !! k = Some n ∧ NetDest.m_bits e !! k = Some s' ∧
    row_repr n (row (Z.of_nat k) D) s ∧ row_repr n (row (Z.of_nat k) E) s'.
Proof.
  intros HD HE Hk. destruct (dest_repr_row D d k s HD Hk) as (n & Hn & Hr).
  destruct (NetDest.m_bits e !! k) as [s'|] eqn:Es.
  - destruct (dest_repr_row E e k s' HE Es) as (n' & Hn' & Hr'). simplify_eq. eauto 10.
  - apply lookup_ge_None_1 in Es. apply lookup_lt_Some in Hk.
    destruct HD as [HD _], HE as [HE _]. lia.
Qed.

Lemma dest_repr_getSize D E d e : dest_repr D d → dest_repr E e →
  bool_decide (NetDest.getSize d = NetDest.getSize e) = true.
Proof.
  intros [HD _] [HE _]. apply bool_decide_eq_true_2. unfold NetDest.getSize. lia.
Qed.

(** A loop that takes every row from [row k D] to [row k E]. *)
Lemma dest_mapi (f : Z → NodeSet.t → outcome NodeSet.t) (E : gset MachineID) bits d' :
  length bits = length counts → (∀ m, m ∈ E → machine_ok m) →
  (∀ k s, bits !! k = Some s → ∃ n y, counts !! k = Some n ∧
     f (Z.of_nat k) s = Ok y ∧ row_repr n (row (Z.of_nat k) E) y) →
  ∃ bits', mapi f 0 bits = Ok bits' ∧ dest_repr E (NetDest.set_bits d' bits').
Proof.
  intros Hlen HE Hf.
  destruct (mapi_total (λ k y, ∃ n, counts !! k = Some n ∧ row_repr n (row (Z.of_nat k) E) y)
    f bits 0) as (bits' & Hm & Hlen' & Hrow).
  { intros k s Hk. destruct (Hf k s Hk) as (n & y & Hn & Hy & Hr).
    rewrite Z.add_0_l. eauto. }
  exists bits'. split; [done|]. split_and!; [simpl; lia| |done].
  intros k s n Hs Hn. simpl in Hs. destruct (Hrow k s Hs) as (n' & Hn' & ?). by simplify_eq.
Qed.

Lemma dest_clear D d : dest_repr D d → ∃ r, NetDest.clear d = Ok r ∧ dest_repr ∅ r.
Proof.
  intros HD. unfold NetDest.clear.
  destruct (dest_mapi (λ _ s, NodeSet.clear s) ∅ (NetDest.m_bits d) d)
    as (b & -> & Hb); [apply HD|set_solver| |simpl; eauto].
  intros k s Hk. destruct (dest_repr_row D d k s HD Hk) as (n & Hn & Hr).
  destruct (row_clear n _ s Hr) as (y & Hy & Hr'). rewrite row_empty. eauto.
Qed.

(** The pairwise in-place loops. *)
Lemma dest_zip op (sop : gset Z → gset Z → gset Z) D E F d e :
  (∀ n X Y s s', row_repr n X s → row_repr n Y s' →
     ∃ r, op s s' = Ok r ∧ row_repr n (sop X Y) r) →
  (∀ i, row i F = sop (row i D) (row i E)) → (∀ m, m ∈ F → machine_ok m) →
  dest_repr D d → dest_repr E e →
  ∃ r, NetDest.zip_rows op d e = Ok r ∧ dest_repr F r.
Proof.
  intros Hop HF HFok HD HE. unfold NetDest.zip_rows.
  rewrite (dest_repr_getSize D E) by done. simpl.
  destruct (dest_mapi (λ i s, s' ← vget (NetDest.m_bits e) i; op s s') F (NetDest.m_bits d) d)
    as (b & -> & Hb); [apply HD|done| |simpl; eauto].
  intros k s Hk. destruct (dest_repr_rows D E d e k s HD HE Hk) as (n & s' & Hn & Hs' & H1 & H2).
  rewrite (vget_nat _ _ _ Hs'). simpl. destruct (Hop n _ _ s s' H1 H2) as (y & Hy & Hr).
  exists n, y. rewrite HF. eauto.
Qed.

Lemma dest_addNetDest D E d e : dest_repr D d → dest_repr E e →
  ∃ r, NetDest.addNetDest d e = Ok r ∧ dest_repr (D ∪ E) r.
Proof.
  intros HD HE. apply (dest_zip _ (∪) D E); auto using row_addSet, row_union.
  intros m [?|?]%elem_of_union; [by apply HD|by apply HE].
Qed.

Lemma dest_removeNetDest D E d e : dest_repr D d → dest_repr E e →
  ∃ r, NetDest.removeNetDest d e = Ok r ∧ dest_repr (D ∖ E) r.
Proof.
  intros HD HE. apply (dest_zip _ (∖) D E); auto using row_removeSet, row_difference.
  intros m [? _]%elem_of_difference. by apply HD.
Qed.

(** [m_bits[i].op()] on one row. *)
Lemma dest_update_row D E d i s n op y : dest_repr D d → 0 ≤ i →
  NetDest.m_bits d !! Z.to_nat i = Some s → counts !! Z.to_nat i = Some n →
  op s = Ok y → row_repr n (row i E) y → (∀ k, k ≠ i → row k E = row k D) →
  (∀ m, m ∈ E → machine_ok m) →
  ∃ r, NetDest.update_row d i op = Ok r ∧ dest_repr E r.
Proof.
  intros HD Hi Hs Hn Hop Hy Hother HE. unfold NetDest.update_row.
  rewrite (proj2 (vget_Ok _ _ _) (conj Hi Hs)). simpl. rewrite Hop. simpl.
  pose proof (lookup_lt_Some _ _ _ Hs) as Hlt.
  unfold vset. rewrite decide_True by lia. simpl. eexists. split; [done|].
  destruct HD as (Hlen & Hrow & _). split_and!; [by simpl; rewrite length_insert| |done].
  simpl. intros k s' n' Hk Hn'. destruct (decide (k = Z.to_nat i)) as [->|].
  - rewrite list_lookup_insert_eq in Hk by done. simplify_eq. by rewrite Z2Nat.id by done.
  - rewrite list_lookup_insert_ne in Hk by done. rewrite Hother by lia. by eapply Hrow.
Qed.

Lemma machine_row D d m : dest_repr D d → machine_ok m → ∃ s n,
  NetDest.vecIndex counts d m = Ok (mach_type m) ∧
  0 ≤ mach_type m ∧ 0 ≤ mach_num m < n ∧
  NetDest.m_bits d !! Z.to_nat (mach_type m) = Some s ∧
  counts !! Z.to_nat (mach_type m) = Some n ∧ row_repr n (row (mach_type m) D) s.
Proof.
  intros HD (Hty & n & Hn & Hnum). pose proof (lookup_lt_Some _ _ _ Hn) as Hlt.
  destruct HD as (Hlen & Hrow & _).
  destruct (lookup_lt_is_Some_2 (NetDest.m_bits d) (Z.to_nat (mach_type m))) as [s Hs]; [lia|].
  exists s, n. split_and!; [| |lia|lia| | |]; try done.
  - unfold NetDest.vecIndex, MachineType.base_level, MachineType.NUM, NetDest.getSize.
    rewrite decide_True by lia. simpl. by rewrite bool_decide_eq_true_2 by lia.
  - specialize (Hrow _ s n Hs Hn). by rewrite Z2Nat.id in Hrow.
Qed.

Lemma row_insert_ne m D k : k ≠ mach_type m → row k ({[m]} ∪ D) = row k D.
Proof.
  intros Hk. apply set_eq. intros j. rewrite !elem_of_row, elem_of_union, elem_of_singleton.
  split; [|auto]. intros [<-|]; [done|done].
Qed.

Lemma row_insert m D : row (mach_type m) ({[m]} ∪ D) = {[mach_num m]} ∪ row (mach_type m) D.
Proof.
  apply set_eq. intros j. rewrite elem_of_row, !elem_of_union, !elem_of_singleton, elem_of_row.
  destruct m as [ty nm]. simpl. naive_solver.
Qed.

Lemma dest_add D d m : dest_repr D d → machine_ok m →
  ∃ r, NetDest.add counts d m = Ok r ∧ dest_repr ({[m]} ∪ D) r.
Proof.
  intros HD Hm. destruct (machine_row D d m HD Hm) as (s & n & Hv & Hty & Hnum & Hs & Hn & Hr).
  unfold NetDest.add. rewrite Hv. simpl. rewrite (proj2 (vget_Ok _ _ _) (conj Hty Hs)). simpl.
  unfold NetDest.bitIndex. rewrite (row_repr_size _ _ _ Hr), bool_decide_eq_true_2 by lia. simpl.
  destruct (repr_add n (row (mach_type m) D) s (mach_num m)) as (y & Hy & Hr');
    [by apply row_repr_pos; [|lia]|done|].
  eapply (dest_update_row D _ d (mach_type m) s n); eauto using row_insert_ne.
  - left. by rewrite row_insert.
  - intros m' [->%elem_of_singleton|?]%elem_of_union; [done|by apply HD].
Qed.

Lemma dest_remove D d m : dest_repr D d → machine_ok m →
  ∃ r, NetDest.remove counts d m = Ok r ∧ dest_repr (D ∖ {[m]}) r.
Proof.
  intros HD Hm. destruct (machine_row D d m HD Hm) as (s & n & Hv & Hty & Hnum & Hs & Hn & Hr).
  unfold NetDest.remove. rewrite Hv. simpl. unfold NetDest.bitIndex.
  destruct (repr_remove n (row (mach_type m) D) s (mach_num m)) as (y & Hy & Hr');
    [by apply row_repr_pos; [|lia]|done|].
  eapply (dest_update_row D _ d (mach_type m) s n); eauto.
  - left. rewrite row_difference. enough (row (mach_type m) {[m]} = {[mach_num m]}) as -> by done.
    rewrite <- (right_id_L ∅ (∪) {[m]}), row_insert, row_empty. set_solver.
  - intros k Hk. rewrite row_difference, <- (right_id_L ∅ (∪) {[m]}), row_insert_ne, row_empty
      by done. set_solver.
  - intros m' [? _]%elem_of_difference. by apply HD.
Qed.

Lemma dest_create : Forall (λ n, 0 ≤ n ≤ 31) counts →
  ∃ d, NetDest.create counts junk = Ok d ∧ dest_repr ∅ d ∧
    NetDest.special d = false ∧ NetDest.sidePacket d = false ∧ NetDest.direct d = false ∧
    Forall (λ s, length (NodeSet.m_p_nArray_Static s) = 1%nat) (NetDest.m_bits d).
Proof.
  intros Hc. unfold NetDest.create, NetDest.resize, MachineType.base_level, MachineType.NUM.
  rewrite decide_True by lia. cbn [mbind outcome_bind NetDest.m_bits length]. rewrite take_nil, app_nil_l.
  rewrite length_replicate, bool_decide_eq_true_2 by lia. cbn [assert_that mbind outcome_bind].
  destruct (dest_mapi (λ i s, c ← MachineType.base_count counts i; NodeSet.setSize s c) ∅
    (replicate (Z.to_nat (Z.of_nat (length counts)) - 0) (NodeSet.create_empty junk))
    (NetDest.mk [] false false false)) as (b & -> & Hb).
  - rewrite length_replicate. lia.
  - set_solver.
  - intros k s [-> Hk]%lookup_replicate. rewrite row_empty.
    destruct (lookup_lt_is_Some_2 counts k) as [n Hn]; [lia|].
    rewrite Forall_lookup in Hc. specialize (Hc k n Hn).
    unfold MachineType.base_count. rewrite decide_True, Nat2Z.id, Hn by lia. simpl.
    destruct (row_setSize junk n Hc) as (y & Hy & Hr). eauto.
  - eexists. split_and!; [done|exact Hb|done|done|done|].
    apply Forall_lookup. intros k s Hk.
    destruct (dest_repr_row ∅ _ k s Hb Hk) as (n & _ & Hr). by eapply row_repr_static.
Qed.

Lemma dest_combine op (sop : gset Z → gset Z → gset Z) D E F d e :
  (∀ n X Y s s', repr n X s → repr n Y s' →
     ∃ r, NodeSet.combine op junk s s' = Ok r ∧ repr n (sop X Y) r) → sop ∅ ∅ = ∅ →
  (∀ i, row i F = sop (row i D) (row i E)) → (∀ m, m ∈ F → machine_ok m) →
  Forall (λ n, 0 ≤ n ≤ 31) counts → dest_repr D d → dest_repr E e →
  ∃ r, NetDest.combine counts junk (NodeSet.combine op junk) d e = Ok r ∧ dest_repr F r ∧
    NetDest.special r = false ∧ NetDest.sidePacket r = false ∧ NetDest.direct r = false.
Proof.
  intros Hop H0 HF HFok Hc HD HE. unfold NetDest.combine.
  rewrite (dest_repr_getSize D E) by done. simpl.
  destruct (dest_create Hc) as (res & -> & Hres & Hsp & Hsd & Hdi & Hst). simpl.
  destruct (dest_mapi (λ i s, s' ← vget (NetDest.m_bits e) i; r ← NodeSet.combine op junk s s';
    old ← vget (NetDest.m_bits res) i; NodeSet.assign old r) F (NetDest.m_bits d) res)
    as (b & -> & Hb); [apply HD|done| |simpl; eauto 10].
  intros k s Hk. destruct (dest_repr_rows D E d e k s HD HE Hk) as (n & s' & Hn & Hs' & H1 & H2).
  destruct (dest_repr_rows D ∅ d res k s HD Hres Hk) as (_ & old & _ & Hold & _ & _).
  rewrite (vget_nat _ _ _ Hs'), (vget_nat _ _ _ Hold). simpl.
  rewrite Forall_lookup in Hst.
  destruct (row_combine op sop junk n _ _ s s' old Hop H0 H1 H2 (Hst k old Hold))
    as (r & r' & -> & Hr' & Hrr). simpl. exists n, r'. rewrite HF. eauto.
Qed.

Lemma dest_AND D E d e : Forall (λ n, 0 ≤ n ≤ 31) counts → dest_repr D d → dest_repr E e →
  ∃ r, NetDest.AND counts junk d e = Ok r ∧ dest_repr (D ∩ E) r ∧
    NetDest.special r = false ∧ NetDest.sidePacket r = false ∧ NetDest.direct r = false.
Proof.
  intros Hc HD HE. apply (dest_combine _ (∩) D E); [|done| | |done..].
  - intros. by eapply (repr_AND junk).
  - intros. apply row_intersection.
  - intros m' [? _]%elem_of_intersection. by apply HD.
Qed.

(** [broadcast(machineType)] adds the machines one after the other. *)
Lemma dest_add_list D d ms : dest_repr D d → Forall machine_ok ms →
  ∃ r, mfold (NetDest.add counts) d ms = Ok r ∧ dest_repr (list_to_set ms ∪ D) r.
Proof.
  intros HD Hms. revert D d HD. induction Hms as [|m ms Hm _ IH]; intros D d HD; simpl.
  - exists d. split; [done|]. by rewrite (left_id_L ∅ (∪)).
  - destruct (dest_add D d m HD Hm) as (d' & -> & HD'). simpl.
    destruct (IH _ _ HD') as (r & -> & Hr). exists r. split; [done|].
    by replace ({[m]} ∪ list_to_set ms ∪ D) with (list_to_set ms ∪ ({[m]} ∪ D)) by set_solver.
Qed.

Lemma dest_broadcast_type D d ty n : dest_repr D d → 0 ≤ ty →
  counts !! Z.to_nat ty = Some n →
  ∃ F r, NetDest.broadcast_type counts d ty = Ok r ∧ dest_repr F r ∧
    ∀ m, m ∈ F ↔ m ∈ D ∨ (machine_ok m ∧ mach_type m = ty).
Proof.
  intros HD Hty Hn. unfold NetDest.broadcast_type, MachineType.base_count.
  rewrite decide_True, Hn by done. simpl.
  assert (∀ d l, mfold (λ d i, NetDest.add counts d (mkMachineID ty i)) d l
    = mfold (NetDest.add counts) d (mkMachineID ty <$> l)) as ->.
  { intros d' l. revert d'. induction l as [|x l IH]; intros d'; simpl; [done|].
    destruct (NetDest.add _ _ _); simpl; [apply IH|done]. }
  destruct (dest_add_list D d (mkMachineID ty <$> seqZ 0 n) HD) as (r & -> & Hr).
  { apply Forall_forall. intros m (i & -> & Hi)%list_elem_of_fmap.
    apply elem_of_seqZ in Hi. split; [done|]. exists n. simpl. split; [done|lia]. }
  eexists _, r. split_and!; [done|exact Hr|]. intros [ty' j].
  rewrite elem_of_union, elem_of_list_to_set, list_elem_of_fmap. split.
  - intros [(i & [= -> ->] & Hi)|]; [|auto]. apply elem_of_seqZ in Hi.
    right. split; [|done]. split; [done|]. exists n. simpl. split; [done|lia].
  - intros [|[(_ & n' & Hn' & Hj) Ht]]; [by right|]. simpl in *. simplify_eq.
    left. exists j. rewrite elem_of_seqZ. split; [done|lia].
Qed.

Lemma dest_broadcast D d : dest_repr D d →
  ∃ F r, NetDest.broadcast counts d = Ok r ∧ dest_repr F r ∧ ∀ m, m ∈ F ↔ machine_ok m.
Proof.
  intros HD. unfold NetDest.broadcast.
  assert (∀ l, (∀ i, i ∈ l → 0 ≤ i < MachineType.NUM counts) → ∀ D d, dest_repr D d →
    ∃ F r, mfold (NetDest.broadcast_type counts) d l = Ok r ∧ dest_repr F r ∧
      ∀ m, m ∈ F ↔ m ∈ D ∨ (machine_ok m ∧ mach_type m ∈ l)) as Hgen.
  { induction l as [|ty l IH]; intros Hl D0 d0 HD0.
    { exists D0, d0. split_and!; [done|done|]. set_solver. }
    destruct (Hl ty) as [Hty Hlt]; [set_solver|]. unfold MachineType.NUM in Hlt.
    destruct (lookup_lt_is_Some_2 counts (Z.to_nat ty)) as [n Hn]; [lia|].
    destruct (dest_broadcast_type D0 d0 ty n HD0 Hty Hn) as (F & r & Hb & HF & Hm).
    simpl. rewrite Hb. simpl. destruct (IH ltac:(set_solver) F r HF) as (F' & r' & -> & HF' & Hm').
    exists F', r'. split_and!; [done|done|]. intros m. rewrite Hm', Hm, elem_of_cons. tauto. }
  destruct (Hgen (seqZ 0 (MachineType.NUM counts))) with (D := D) (d := d)
    as (F & r & -> & HF & Hm); [|done|].
  { intros i. rewrite elem_of_seqZ. lia. }
  exists F, r. split_and!; [done|done|]. intros m. rewrite Hm. split; [|].
  - intros [?|[? _]]; [by apply HD|done].
  - intros Hok. right. split; [done|]. rewrite elem_of_seqZ.
    destruct Hok as (? & n & Hn%lookup_lt_Some & _). unfold MachineType.NUM. lia.
Qed.

Lemma dest_isElement D d m : dest_repr D d → machine_ok m →
  NetDest.isElement counts d m = Ok (bool_decide (m ∈ D)).
Proof.
  intros HD Hm. destruct (machine_row D d m HD Hm) as (s & n & Hv & Hty & Hnum & Hs & Hn & Hr).
  unfold NetDest.isElement. rewrite Hv. simpl. rewrite (proj2 (vget_Ok _ _ _) (conj Hty Hs)).
  simpl. unfold NetDest.bitIndex. rewrite (row_isElement n _ s) by done.
  f_equal. apply bool_decide_ext. rewrite elem_of_row. by destruct m.
Qed.

(** A property of all rows is a property of all machines. *)
Lemma dest_rows_forall D d (P : nat → Prop) (Q : Prop) : dest_repr D d →
  ((∀ k, (k < length counts)%nat → P k) ↔ Q) →
  (∀ k s, NetDest.m_bits d !! k = Some s → P k) ↔ Q.
Proof.
  intros (Hlen & _) <-. split; intros H k.
  - intros Hk. destruct (lookup_lt_is_Some_2 (NetDest.m_bits d) k) as [s Hs]; [lia|]. eauto.
  - intros s Hs%lookup_lt_Some. apply H. lia.
Qed.

Lemma machine_ok_type m : machine_ok m →
  ∃ k, (k < length counts)%nat ∧ mach_type m = Z.of_nat k.
Proof.
  intros (? & n & Hn%lookup_lt_Some & _). exists (Z.to_nat (mach_type m)). split; lia.
Qed.

Lemma dest_all_rows (R : gset Z → gset Z → Prop) (Rdec : ∀ X Y, Decision (R X Y)) p (Q : Prop)
    `{Decision Q} D E d e :
  (∀ n X Y s s', row_repr n X s → row_repr n Y s' → p s s' = Ok (bool_decide (R X Y))) →
  ((∀ k, (k < length counts)%nat → R (row (Z.of_nat k) D) (row (Z.of_nat k) E)) ↔ Q) →
  dest_repr D d → dest_repr E e → NetDest.all_rows p d e = Ok (bool_decide Q).
Proof.
  intros Hp HQ HD HE. unfold NetDest.all_rows.
  rewrite (dest_repr_getSize D E) by done. cbn [assert_that mbind outcome_bind].
  destruct (alli_spec (λ k _, R (row (Z.of_nat k) D) (row (Z.of_nat k) E)) (λ k _, Rdec _ _)
    (λ i s, s' ← vget (NetDest.m_bits e) i; p s s') (NetDest.m_bits d) 0) as (b & -> & Hb).
  - intros k s Hk. destruct (dest_repr_rows D E d e k s HD HE Hk) as (n & s' & _ & Hs' & H1 & H2).
    rewrite Z.add_0_l, (vget_nat _ _ _ Hs'). simpl. eauto.
  - f_equal. apply eq_true_iff_eq.
    rewrite Hb, bool_decide_eq_true. exact (dest_rows_forall D d _ Q HD HQ).
Qed.

Lemma rows_subset D E : (∀ m, m ∈ D → machine_ok m) →
  (∀ k, (k < length counts)%nat → row (Z.of_nat k) D ⊆ row (Z.of_nat k) E) ↔ D ⊆ E.
Proof.
  intros HD. split.
  - intros H m Hm. destruct (machine_ok_type m (HD m Hm)) as (k & Hk & Hty).
    specialize (H k Hk (mach_num m)). rewrite !elem_of_row, <- Hty in H. destruct m; auto.
  - intros H k _ j. rewrite !elem_of_row. apply H.
Qed.

Lemma dest_isSuperset D E d e : dest_repr D d → dest_repr E e →
  NetDest.isSuperset d e = Ok (bool_decide (E ⊆ D)).
Proof.
  intros HD HE. 
  apply (dest_all_rows (λ X Y, Y ⊆ X) (λ X Y, decide (Y ⊆ X)) _ (E ⊆ D) D E d e);
    [intros; by eapply row_isSuperset|by apply (rows_subset E D), HE|done|done].
Qed.

Lemma dest_isEqual D E d e : dest_repr D d → dest_repr E e →
  NetDest.isEqual d e = Ok (bool_decide (D = E)).
Proof.
  intros HD HE. 
  apply (dest_all_rows (=) (λ X Y, decide (X = Y)) _ (D = E) D E d e); [intros; by eapply row_isEqual| |done|done].
  split; [|by intros ->]. intros H.
  apply (anti_symm (⊆)); apply rows_subset; [apply HD| |apply HE|]; intros k Hk; by rewrite H.
Qed.

Lemma dest_intersectionIsNotEmpty D E d e : dest_repr D d → dest_repr E e →
  NetDest.intersectionIsNotEmpty d e = Ok (bool_decide (D ∩ E ≠ ∅)).
Proof.
  intros HD HE. unfold NetDest.intersectionIsNotEmpty.
  rewrite (dest_all_rows (λ X Y, X ∩ Y = ∅) (λ X Y, decide (X ∩ Y = ∅)) _ (D ∩ E = ∅) D E d e);
    [|intros; by eapply row_intersectionIsEmpty| |done|done].
  - simpl. by rewrite bool_decide_not.
  - split; [|intros H k _; by rewrite <- row_intersection, H, row_empty].
    intros H. apply equiv_empty_L, rows_subset.
    + intros m [Hm _]%elem_of_intersection. by apply HD.
    + intros k Hk. rewrite row_intersection, H, row_empty by done. done.
Qed.

Lemma dest_isEmpty D d : dest_repr D d → NetDest.isEmpty d = Ok (bool_decide (D = ∅)).
Proof.
  intros HD. unfold NetDest.isEmpty.
  destruct (alli_spec (λ k _, row (Z.of_nat k) D = ∅) (λ k _, decide (row (Z.of_nat k) D = ∅)) (λ _ s, NodeSet.isEmpty s)
    (NetDest.m_bits d) 0) as (b & -> & Hb).
  - intros k s Hk. destruct (dest_repr_row D d k s HD Hk) as (n & _ & Hr).
    by eapply row_isEmpty.
  - f_equal. apply eq_true_iff_eq. rewrite Hb, bool_decide_eq_true.
    apply (dest_rows_forall D d _ _ HD). split; [|by intros -> k _; apply row_empty].
    intros H. apply equiv_empty_L, rows_subset; [apply HD|].
    intros k Hk. by rewrite H, row_empty.
Qed.

Lemma dest_isBroadcast D d : dest_repr D d →
  ∃ b, NetDest.isBroadcast d = Ok b ∧ (b = true ↔ ∀ m, machine_ok m → m ∈ D).
Proof.
  intros HD. unfold NetDest.isBroadcast.
  destruct (alli_spec (λ k _,
      row (Z.of_nat k) D = list_to_set (seqZ 0 (default 0 (counts !! k)))) (λ k _, decide _) (λ _ s, NodeSet.isBroadcast s)
    (NetDest.m_bits d) 0) as (b & Hb & HB); [|exists b; split; [done|]].
  - intros k s Hk. destruct (dest_repr_row D d k s HD Hk) as (n & Hn & Hr).
    by rewrite (row_isBroadcast n _ s Hr), Hn.
  - rewrite HB. apply (dest_rows_forall D d _ _ HD). split.
    + intros H [ty nm] Hok. destruct (machine_ok_type _ Hok) as (k & Hk & Hty). simpl in Hty.
      destruct Hok as (_ & n & Hn & Hj). simpl in *. subst ty. rewrite Nat2Z.id in Hn.
      rewrite <- elem_of_row, H, Hn, elem_of_list_to_set, elem_of_seqZ by done. simpl. lia.
    + intros H k Hk. destruct (lookup_lt_is_Some_2 counts k Hk) as [n Hn]. rewrite Hn. simpl.
      apply set_eq. intros j.
      rewrite elem_of_row, elem_of_list_to_set, elem_of_seqZ. split.
      * intros Hm. destruct HD as (_ & _ & HD). destruct (HD _ Hm) as (_ & n' & Hn' & Hj).
        simpl in *. rewrite Nat2Z.id in Hn'. simplify_eq. lia.
      * intros Hj. apply H. split; [simpl; lia|]. exists n. simpl. rewrite Nat2Z.id. split; [done|lia].
Qed.

(** ** The number of destinations *)

Lemma sum_list_with_one `{EqDecision A} (f g : A → nat) (l : list A) x : NoDup l → x ∈ l →
  f x = S (g x) → (∀ y, y ≠ x → f y = g y) → sum_list_with f l = S (sum_list_with g l).
Proof.
  intros Hl Hx Hf Hfg. induction Hl as [|y l Hy Hl IH]; [set_solver|]. simpl.
  destruct (decide (y = x)) as [->|Hne].
  - rewrite Hf. enough (sum_list_with f l = sum_list_with g l) by lia.
    clear IH Hl Hx. induction l as [|z l IH]; [done|]. simpl.
    rewrite Hfg, IH by set_solver. done.
  - rewrite Hfg, IH by set_solver. lia.
Qed.

Lemma size_rows D : (∀ m, m ∈ D → machine_ok m) →
  size D = sum_list_with (λ k, size (row (Z.of_nat k) D)) (seq 0 (length counts)).
Proof.
  induction D as [|m D Hm IH] using set_ind_L; intros HD.
  - rewrite size_empty. induction (seq 0 (length counts)) as [|k l IH]; [done|].
    simpl. by rewrite row_empty, size_empty, <- IH.
  - rewrite size_union, size_singleton, IH by set_solver.
    destruct (machine_ok_type m) as (k & Hk & Hty); [set_solver|]. symmetry.
    apply (sum_list_with_one _ _ _ k); [apply NoDup_seq|apply elem_of_seq; lia| |].
    + rewrite <- Hty, row_insert, size_union, size_singleton; [done|].
      intros j ->%elem_of_singleton. rewrite elem_of_row. by destruct m.
    + intros k' Hne. rewrite row_insert_ne; [done|]. lia.
Qed.

Lemma count_rows (f : nat → nat) bits k0 c :
  (∀ k s, bits !! k = Some s → NodeSet.count s = Ok (Z.of_nat (f (k0 + k)%nat))) →
  mfold (λ counter s, c ← NodeSet.count s; Ok (counter + c)) c bits
  = Ok (c + Z.of_nat (sum_list_with f (seq k0 (length bits)))).
Proof.
  revert k0 c. induction bits as [|s bits IH]; intros k0 c H; simpl; [f_equal; lia|].
  rewrite (H 0%nat s), Nat.add_0_r by done. simpl. rewrite (IH (S k0)); [f_equal; lia|].
  intros k s' Hs'. rewrite (H (S k) s') by done. do 3 f_equal. lia.
Qed.

Lemma dest_count D d : dest_repr D d → NetDest.count d = Ok (Z.of_nat (size D)).
Proof.
  intros HD. unfold NetDest.count. pose proof HD as (Hlen & _ & Hok).
  rewrite (count_rows (λ k, size (row (Z.of_nat k) D)) _ 0%nat), Z.add_0_l, Hlen.
  - by rewrite <- size_rows.
  - intros k s Hk. destruct (dest_repr_row D d k s HD Hk) as (n & _ & Hr).
    by eapply row_count.
Qed.

(** ** The smallest destination *)

Lemma first_element_spec X s n a k : row_repr n X s → 0 ≤ a → 0 ≤ k → a + k = n →
  ∃ o, NetDest.first_element s (seqZ a k) = Ok o ∧
    match o with
    | Some j => j ∈ X ∧ ∀ j', j' ∈ X → a ≤ j' → j ≤ j'
    | None => ∀ j, j ∈ X → j < a
    end.
Proof.
  intros Hr Ha Hk Hn. remember (Z.to_nat k) as z eqn:Ez.
  revert a k Ha Hk Hn Ez. induction z as [|z IH]; intros a k Ha Hk Hn Ez.
  - rewrite seqZ_nil by lia. exists None. split; [done|].
    intros j Hj. destruct (row_repr_bounds _ _ _ _ Hr Hj). lia.
  - rewrite seqZ_cons by lia. cbn [NetDest.first_element].
    rewrite (row_isElement n X s) by (done || lia). simpl. case_bool_decide as E.
    + exists (Some a). split; [done|]. split; [done|]. lia.
    + destruct (IH (Z.succ a) (Z.pred k)) as (o & -> & Ho); [lia..|]. exists o. split; [done|].
      destruct o as [j|].
      * destruct Ho as [Hj Ho]. split; [done|]. intros j' Hj' Haj.
        apply Ho; [done|]. destruct (decide (j' = a)) as [->|]; [done|lia].
      * intros j Hj. specialize (Ho j Hj). destruct (decide (j = a)) as [->|]; [done|lia].
Qed.

Definition machine_le (m m' : MachineID) : Prop :=
  mach_type m < mach_type m' ∨ (mach_type m = mach_type m' ∧ mach_num m ≤ mach_num m').

Lemma first_row_spec D bits i :
  (∀ k s, bits !! k = Some s → ∃ n, 0 ≤ n ∧ row_repr n (row (i + Z.of_nat k) D) s) →
  (∃ m, m ∈ D ∧ i ≤ mach_type m < i + Z.of_nat (length bits)) →
  ∃ m, NetDest.first_row i bits = Ok (mach_type m, mach_num m) ∧ m ∈ D ∧
    (∀ m', m' ∈ D → i ≤ mach_type m' → machine_le m m').
Proof.
  revert i. induction bits as [|s bits IH]; intros i Hrow (m & Hm & Hi); [simpl in Hi; lia|].
  cbn [NetDest.first_row]. destruct (Hrow 0%nat s eq_refl) as (n & Hn & Hr).
  rewrite Z.add_0_r in Hr. unfold NetDest.row_first. rewrite (row_repr_size _ _ _ Hr).
  destruct (first_element_spec _ s n 0 n Hr) as (o & -> & Ho); [lia..|]. simpl.
  assert (∀ j, j ∈ row i D → 0 ≤ j) as Hpos.
  { intros j Hj. destruct (row_repr_bounds _ _ _ _ Hr Hj). lia. }
  destruct o as [j|].
  - exists (mkMachineID i j). destruct Ho as [Hj Hmin]. rewrite elem_of_row in Hj.
    split_and!; [done|done|]. intros [ty nm] Hm' Hty. unfold machine_le. simpl in *.
    destruct (decide (ty = i)) as [->|]; [right|left; lia]. split; [done|].
    rewrite <- elem_of_row in Hm'. auto.
  - destruct (IH (i + 1)) as (m0 & Hf & Hm0 & Hmin).
    + intros k s' Hs'. replace (i + 1 + Z.of_nat k) with (i + Z.of_nat (S k)) by lia. by apply Hrow.
    + exists m. split; [done|]. simpl in Hi. destruct (decide (mach_type m = i)) as [E|]; [|lia].
      assert (mach_num m ∈ row i D) as Hin by (rewrite elem_of_row, <- E; by destruct m).
      specialize (Ho _ Hin). specialize (Hpos _ Hin). lia.
    + exists m0. split_and!; [done|done|]. intros m' Hm' Hty. apply Hmin; [done|].
      destruct (decide (mach_type m' = i)) as [E|]; [|lia].
      assert (mach_num m' ∈ row i D) as Hin by (rewrite elem_of_row, <- E; by destruct m').
      specialize (Ho _ Hin). specialize (Hpos _ Hin). lia.
Qed.

Lemma dest_smallest D d : dest_repr D d → D ≠ ∅ →
  ∃ m, NetDest.smallestElement counts d = Ok m ∧ m ∈ D ∧ ∀ m', m' ∈ D → machine_le m m'.
Proof.
  intros HD Hne. unfold NetDest.smallestElement. rewrite (dest_count D d HD). simpl.
  assert (size D ≠ 0%nat) by (by rewrite size_empty_iff, leibniz_equiv_iff).
  rewrite bool_decide_eq_true_2 by lia. simpl.
  pose proof HD as (Hlen & Hrow & Hok).
  destruct (set_choose_L D Hne) as [m0 Hm0].
  destruct (first_row_spec D (NetDest.m_bits d) 0) as (m & -> & Hm & Hmin).
  - intros k s Hk. destruct (dest_repr_row D d k s HD Hk) as (n & Hn & Hr).
    exists n. split; [|done]. by destruct Hr as [[? _]|[-> _]]; lia.
  - exists m0. split; [done|]. destruct (machine_ok_type m0 (Hok m0 Hm0)) as (k & Hk & ->). lia.
  - simpl. destruct (machine_ok_type m (Hok m Hm)) as (k & Hk & Hty).
    unfold MachineType.from_base_level, MachineType.NUM. rewrite decide_True by lia. simpl.
    exists m. split_and!; [by destruct m|done|]. intros m' Hm'. apply Hmin; [done|].
    destruct (machine_ok_type m' (Hok m' Hm')) as (k' & Hk' & ->). lia.
Qed.

End refinement.

(** For a configuration with at most 31 machines of each type (some types
    possibly absent), a fresh [NetDest] is empty, and each mutator succeeds on
    machines of the configuration and acts as the set operation of its name;
    [OR] and [AND] also reset the [special], [sidePacket] and [direct] marks. *)
Theorem netdest_updates_refine counts junk D E d e m :
  Forall (λ n, 0 ≤ n ≤ 31) counts →
  dest_repr counts D d → dest_repr counts E e → machine_ok counts m →
  (∃ r, NetDest.create counts junk = Ok r ∧ dest_repr counts ∅ r) ∧
  (∃ r, NetDest.add counts d m = Ok r ∧ dest_repr counts ({[m]} ∪ D) r) ∧
  (∃ r, NetDest.remove counts d m = Ok r ∧ dest_repr counts (D ∖ {[m]}) r) ∧
  (∃ r, NetDest.addNetDest d e = Ok r ∧ dest_repr counts (D ∪ E) r) ∧
  (∃ r, NetDest.removeNetDest d e = Ok r ∧ dest_repr counts (D ∖ E) r) ∧
  (∃ r, NetDest.clear d = Ok r ∧ dest_repr counts ∅ r) ∧
  (∃ F r, NetDest.broadcast counts d = Ok r ∧ dest_repr counts F r ∧
     ∀ m, m ∈ F ↔ machine_ok counts m) ∧
  (∃ r, NetDest.OR counts junk d e = Ok r ∧ dest_repr counts (D ∪ E) r ∧
     NetDest.special r = false ∧ NetDest.sidePacket r = false ∧ NetDest.direct r = false) ∧
  (∃ r, NetDest.AND counts junk d e = Ok r ∧ dest_repr counts (D ∩ E) r ∧
     NetDest.special r = false ∧ NetDest.sidePacket r = false ∧ NetDest.direct r = false).
Proof.
  intros Hc HD HE Hm. split_and!;
    eauto using dest_add, dest_remove, dest_addNetDest, dest_removeNetDest, dest_clear,
      dest_broadcast.
  - destruct (dest_create counts junk Hc) as (r & ? & ? & _). eauto.
  - apply (dest_combine counts junk _ (∪) D E); [|done| | |done..].
    + intros. by eapply (repr_OR junk).
    + intros. apply row_union.
    + intros m' [?|?]%elem_of_union; [by apply HD|by apply HE].
  - by apply dest_AND.
Qed.

Lemma netdest_updates_refine_witness : ∃ d, NetDest.create [4; 0; 1] 9 = Ok d ∧
  (∃ r, NetDest.add [4; 0; 1] d (mkMachineID 2 0) = Ok r ∧
     dest_repr [4; 0; 1] ({[mkMachineID 2 0]} ∪ ∅) r).
Proof.
  assert (Forall (λ n, 0 ≤ n ≤ 31) [4; 0; 1]) as Hc by (repeat constructor; lia).
  destruct (dest_create [4; 0; 1] 9 Hc) as (d & Hd & HD & _). exists d. split; [exact Hd|].
  refine (proj1 (proj2 (netdest_updates_refine [4; 0; 1] 9 ∅ ∅ d d (mkMachineID 2 0) Hc HD HD _))).
  split; [simpl; lia|]. exists 1. split; [reflexivity|simpl; lia].
Defined.

(** Under the same configuration, the queries of a [NetDest] answer for
    the set of machines it stands for: membership, the number of
    destinations, inclusion, equality, whether two destinations share a
    machine, emptiness, fullness, and the least machine by type and number. *)
Theorem netdest_queries_refine counts D E d e :
  dest_repr counts D d → dest_repr counts E e →
  (∀ m, machine_ok counts m → NetDest.isElement counts d m = Ok (bool_decide (m ∈ D))) ∧
  NetDest.count d = Ok (Z.of_nat (size D)) ∧
  NetDest.isSubset d e = Ok (bool_decide (D ⊆ E)) ∧
  NetDest.isEqual d e = Ok (bool_decide (D = E)) ∧
  NetDest.intersectionIsNotEmpty d e = Ok (bool_decide (D ∩ E ≠ ∅)) ∧
  NetDest.isEmpty d = Ok (bool_decide (D = ∅)) ∧
  (∃ b, NetDest.isBroadcast d = Ok b ∧ (b = true ↔ ∀ m, machine_ok counts m → m ∈ D)) ∧
  (D ≠ ∅ → ∃ m, NetDest.smallestElement counts d = Ok m ∧ m ∈ D ∧
     ∀ m', m' ∈ D → machine_le m m').
Proof.
  intros HD HE. unfold NetDest.isSubset. split_and!;
    eauto using dest_isElement, dest_count, dest_isSuperset, dest_isEqual,
      dest_intersectionIsNotEmpty, dest_isEmpty, dest_isBroadcast, dest_smallest.
Qed.

Lemma netdest_queries_refine_witness : ∃ d, NetDest.count d = Ok 1 ∧
  (∃ m, NetDest.smallestElement [4; 0; 1] d = Ok m ∧ m = mkMachineID 2 0).
Proof.
  assert (Forall (λ n, 0 ≤ n ≤ 31) [4; 0; 1]) as Hc by (repeat constructor; lia).
  destruct (dest_create [4; 0; 1] 9 Hc) as (d0 & _ & H0 & _).
  destruct (dest_add [4; 0; 1] ∅ d0 (mkMachineID 2 0) H0) as (d & _ & HD).
  { split; [simpl; lia|]. exists 1. split; [reflexivity|simpl; lia]. }
  destruct (netdest_queries_refine [4; 0; 1] _ _ d d HD HD)
    as (_ & Hcount & _ & _ & _ & _ & _ & Hs).
  exists d. split; [exact Hcount|]. destruct Hs as (m & Hm & Hin & _); [set_solver|].
  exists m. split; [done|set_solver].
Defined.
