(* ===== verification/StdHeap.v ===== *)
(** * The heap algorithms of the C++ library

    [std::push_heap] and [std::pop_heap] as libstdc++ implements them (hole
    based, with the sift down to a leaf followed by a sift up), on a random
    access range held as a list.  The comparison may fault, because the one
    that message buffers use contains an assert.  The file ends with the
    contract that clients rely on, a class, and its instance. *)

From S2P Require Import Prelude.
Local Open Scope nat_scope.

Module StdHeap.

Section algorithms.
Context {A : Type} (comp : A → A → outcome bool).

Definition at_ (l : list A) (i : nat) : outcome A := from_option_or OutOfBounds (l !! i).
Definition store (l : list A) (i : nat) (x : A) : outcome (list A) :=
  if decide (i < length l) then Ok (<[i := x]> l) else Err OutOfBounds.

Definition parent (i : nat) : nat := (i - 1) `div` 2.

(** [std::__push_heap]: move the hole up while its parent compares before
    [value]; [fuel] bounds the number of levels. *)
Fixpoint push_loop (fuel : nat) (l : list A) (hole top : nat) (value : A) : outcome (list A) :=
  match fuel with
  | O => Err OutOfFuel
  | S fuel =>
      if decide (top < hole) then
        p ← at_ l (parent hole);
        b ← comp p value;
        if b : bool then l ← store l hole p; push_loop fuel l (parent hole) top value
        else store l hole value
      else store l hole value
  end.

(** The hole at least halves at each level. *)
Definition push_from (l : list A) (hole top : nat) (value : A) : outcome (list A) :=
  push_loop (S hole) l hole top value.

(** [std::push_heap(l.begin(), l.end(), comp)]; the range is not empty. *)
Definition push_heap (l : list A) : outcome (list A) :=
  value ← at_ l (length l - 1); push_from l (length l - 1) 0 value.

(** The loop of [std::__adjust_heap]; it returns the array, the hole and
    [secondChild]. *)
Fixpoint adjust_loop (fuel : nat) (l : list A) (hole second len : nat)
    : outcome (list A * nat * nat) :=
  match fuel with
  | O => Err OutOfFuel
  | S fuel =>
      if decide (second < (len - 1) `div` 2) then
        let second := 2 * (second + 1) in
        x ← at_ l second; y ← at_ l (second - 1);
        b ← comp x y;
        let second := if b : bool then second - 1 else second in
        v ← at_ l second;
        l ← store l hole v;
        adjust_loop fuel l second second len
      else Ok (l, hole, second)
  end.

(** [std::__adjust_heap(first, holeIndex, len, value, comp)] *)
Definition adjust_heap (l : list A) (hole len : nat) (value : A) : outcome (list A) :=
  r ← adjust_loop (S len) l hole hole len;
  let '(l, hole', second) := r in
  if decide (Nat.even len ∧ second = (len - 2) `div` 2 ∧ 2 ≤ len) then
    let second := 2 * (second + 1) in
    v ← at_ l (second - 1);
    l ← store l hole' v;
    push_from l (second - 1) hole value
  else push_from l hole' hole value.

(** [std::pop_heap(l.begin(), l.end(), comp)]: the first element goes to the
    end. *)
Definition pop_heap (l : list A) : outcome (list A) :=
  if decide (1 < length l) then
    let n := length l - 1 in
    value ← at_ l n;
    first ← at_ l 0;
    l ← store l n first;
    adjust_heap l 0 n value
  else Ok l.

End algorithms.

End StdHeap.

Import StdHeap.

(** ** Positions in the tree *)

Lemma parent_spec i : 0 < i → i = 2 * parent i + 1 ∨ i = 2 * parent i + 2.
Proof.
  intros. unfold parent. pose proof (Nat.div_mod (i - 1) 2). 
  pose proof (Nat.mod_upper_bound (i - 1) 2). lia.
Qed.

Lemma parent_child i p : i = 2 * p + 1 ∨ i = 2 * p + 2 → parent i = p.
Proof. intros. destruct (parent_spec i); lia. Qed.

Lemma parent_lt i : 0 < i → parent i < i.
Proof. intros. destruct (parent_spec i); lia. Qed.

Lemma half_spec n : n = 2 * (n `div` 2) ∨ n = 2 * (n `div` 2) + 1.
Proof.
  pose proof (Nat.div_mod n 2). pose proof (Nat.mod_upper_bound n 2). lia.
Qed.

Lemma swap_perm {A} (L : list A) i j x y : i ≠ j → L !! i = Some x → L !! j = Some y →
  <[i := y]> (<[j := x]> L) ≡ₚ L.
Proof.
  assert (∀ (L : list A) i j x y, i < j → L !! i = Some x → L !! j = Some y →
    <[i := y]> (<[j := x]> L) ≡ₚ L) as Hlt.
  { clear. intros L i j x y Hij Hi Hj.
    apply list_elem_of_split_length in Hi as (l1 & l2 & -> & Hl1).
    rewrite lookup_app_r in Hj by lia. rewrite lookup_cons in Hj.
    destruct (j - length l1) as [|k] eqn:Ek; [lia|].
    apply list_elem_of_split_length in Hj as (l3 & l4 & -> & Hl3).
    replace j with (length l1 + S k) by lia. subst i.
    rewrite insert_app_r. simpl. rewrite Hl3. replace (length l3) with (length l3 + 0) by lia.
    rewrite insert_app_r. simpl. rewrite <- (Nat.add_0_r (length l1)).
    rewrite insert_app_r. simpl. apply Permutation_app_head.
    rewrite <- !Permutation_middle. apply perm_swap. }
  intros Hij Hi Hj. destruct (decide (i < j)); [by apply Hlt|].
  rewrite list_insert_insert_ne by done. apply Hlt; [lia|done|done].
Qed.

(** ** What the algorithms leave, whatever the comparison answers *)

Section rearrangement.
Context {A : Type} (comp : A → A → outcome bool).
Implicit Types (l : list A) (i h n : nat) (v : A).

Lemma at_Ok l i x : at_ l i = Ok x → l !! i = Some x.
Proof. unfold at_. destruct (l !! i); cbn; congruence. Qed.

Lemma store_Ok l i x l' : store l i x = Ok l' → i < length l ∧ l' = <[i := x]> l.
Proof. unfold store. case_decide; by intros [= <-]. Qed.

Lemma push_loop_perm fuel l h top v l' n : h < n → push_loop comp fuel l h top v = Ok l' →
  l' ≡ₚ <[h := v]> l ∧ ∀ i, n ≤ i → l' !! i = l !! i.
Proof.
  revert l h. induction fuel as [|fuel IH]; intros l h Hn; [done|]. cbn [push_loop].
  assert (store l h v = Ok l' → l' ≡ₚ <[h := v]> l ∧ ∀ i, n ≤ i → l' !! i = l !! i) as Hst.
  { intros [_ ->]%store_Ok. split; [done|]. intros i Hi. by rewrite list_lookup_insert_ne by lia. }
  case_decide; [|done]. intros (y & Hy%at_Ok & H1)%bind_Ok. apply bind_Ok in H1 as ([] & _ & H1); [|by apply Hst].
  apply bind_Ok in H1 as (l1 & [Hh ->]%store_Ok & H1). pose proof (parent_lt h) as Hp.
  apply IH in H1 as [Hperm Hrest]; [|lia]. split.
  - rewrite Hperm. rewrite <- (list_insert_insert_eq l h y v). apply swap_perm; [lia| |].
    + by rewrite list_lookup_insert_ne by lia.
    + by apply list_lookup_insert_eq.
  - intros i Hi. rewrite Hrest by done. by rewrite list_lookup_insert_ne by lia.
Qed.

Lemma adjust_loop_perm fuel l h n v l' h' s' : h < n ≤ length l →
  adjust_loop comp fuel l h h n = Ok (l', h', s') →
  h' < n ∧ s' = h' ∧ length l' = length l ∧ <[h' := v]> l' ≡ₚ <[h := v]> l ∧
  ∀ i, n ≤ i → l' !! i = l !! i.
Proof.
  revert l h. induction fuel as [|fuel IH]; intros l h Hn; [done|]. cbn [adjust_loop].
  case_decide as Hlt; [|by intros [= <- <- <-]; split_and!; [lia|..]]. pose proof (half_spec (n - 1)).
  intros (x & _ & H1)%bind_Ok. apply bind_Ok in H1 as (y & _ & H1). apply bind_Ok in H1 as (b & _ & H1).
  apply bind_Ok in H1 as (w & Hw%at_Ok & H1). apply bind_Ok in H1 as (l1 & [Hh ->]%store_Ok & H1).
  set (c := if b : bool then _ else _) in *. assert (h < c < n) as Hc by (subst c; destruct b; lia).
  apply IH in H1 as (Hh' & -> & Hlen & Hperm & Hrest); [|rewrite length_insert; lia].
  rewrite length_insert in Hlen. split_and!; [done|done|done| |].
  - rewrite Hperm. rewrite <- (list_insert_insert_eq l h w v). apply swap_perm; [lia| |].
    + by rewrite list_lookup_insert_ne by lia.
    + by apply list_lookup_insert_eq.
  - intros i Hi. rewrite Hrest by done. by rewrite list_lookup_insert_ne by lia.
Qed.

Lemma adjust_heap_perm l n v l' : 0 < n ≤ length l → adjust_heap comp l 0 n v = Ok l' →
  l' ≡ₚ <[0 := v]> l ∧ ∀ i, n ≤ i → l' !! i = l !! i.
Proof.
  intros Hn. unfold adjust_heap, push_from. intros ([[l1 h] s] & H1 & H2)%bind_Ok.
  apply (adjust_loop_perm _ _ _ _ v) in H1 as (Hh & -> & Hlen & Hperm & Hrest); [|done].
  case_decide as Hc.
  - apply bind_Ok in H2 as (w & Hw%at_Ok & H2). apply bind_Ok in H2 as (l2 & [_ ->]%store_Ok & H2).
    pose proof (half_spec (n - 2)). set (c := 2 * (h + 1) - 1) in *. assert (h < c < n) by lia.
    apply (push_loop_perm _ _ _ _ _ _ n) in H2 as [Hp2 Hr2]; [|lia]. split.
    + rewrite Hp2, <- Hperm. rewrite <- (list_insert_insert_eq l1 h w v). apply swap_perm; [lia| |].
      * by rewrite list_lookup_insert_ne by lia.
      * apply list_lookup_insert_eq. lia.
    + intros i Hi. rewrite Hr2 by done. rewrite list_lookup_insert_ne by lia. by apply Hrest.
  - apply (push_loop_perm _ _ _ _ _ _ n) in H2 as [Hp2 Hr2]; [|done]. split; [by rewrite Hp2|].
    intros i Hi. rewrite Hr2 by done. by apply Hrest.
Qed.

(** The first element goes to the end, and nothing is lost. *)
Lemma pop_heap_perm x l l' : pop_heap comp (x :: l) = Ok l' → ∃ q, l' = q ++ [x] ∧ q ≡ₚ l.
Proof.
  unfold pop_heap. case_decide as Hlen.
  - intros (v & Hv%at_Ok & H1)%bind_Ok. apply bind_Ok in H1 as (y & Hy%at_Ok & H1).
    apply bind_Ok in H1 as (l1 & [_ ->]%store_Ok & H1). injection Hy as <-. cbn [length] in *.
    replace (S (length l) - 1) with (length l) in * by lia.
    apply adjust_heap_perm in H1 as [Hperm Hrest]; [|rewrite length_insert; cbn; lia].
    destruct l as [|z l _] using rev_ind; [cbn in Hlen; lia|]. rewrite length_app in *. cbn [length] in *.
    replace (length l + 1) with (S (length l)) in * by lia.
    change ((l ++ [z]) !! length l = Some v) in Hv. rewrite list_lookup_middle in Hv by done. injection Hv as ->.
    assert (<[S (length l) := x]> (x :: l ++ [v]) = x :: l ++ [x]) as E.
    { change (x :: <[length l := x]> (l ++ [v]) = x :: l ++ [x]). f_equal.
      by rewrite insert_app_r_alt, Nat.sub_diag by lia. }
    rewrite E in Hperm, Hrest. cbn [insert list_insert] in Hperm.
    assert (length l' = S (S (length l))) as Hl' by (rewrite Hperm; cbn; rewrite length_app; cbn; lia).
    destruct l' as [|w q _] using rev_ind; [done|]. rewrite length_app in Hl'. cbn in Hl'.
    specialize (Hrest (S (length l)) ltac:(lia)). rewrite list_lookup_middle in Hrest by lia.
    change (Some w = (l ++ [x]) !! length l) in Hrest. rewrite list_lookup_middle in Hrest by done.
    injection Hrest as ->.
    exists q. split; [done|]. rewrite app_comm_cons in Hperm. apply Permutation_app_inv_r in Hperm.
    rewrite Hperm. apply Permutation_cons_append.
  - intros [= <-]. exists []. destruct l; [done|cbn in Hlen; lia].
Qed.

Lemma push_heap_perm l l' : push_heap comp l = Ok l' → l' ≡ₚ l.
Proof.
  unfold push_heap, push_from. intros (v & Hv%at_Ok & H1)%bind_Ok.
  apply (push_loop_perm _ _ _ _ _ _ (length l)) in H1 as [Hp _];
    [|apply lookup_lt_Some in Hv; lia]. by rewrite Hp, list_insert_id.
Qed.

End rearrangement.

Section correctness.
Context {A K : Type} (comp : A → A → outcome bool) (key : A → K) (le : A → A → Prop).
Context `{!PreOrder le}.
(** On elements with different keys the comparison returns, and decides the
    order. *)
Hypothesis comp_spec : ∀ a b, key a ≠ key b →
  ∃ r, comp a b = Ok r ∧ if r : bool then le b a else le a b.

Implicit Types (L l : list A) (i h n : nat) (v x y : A).

(** Element [i] is not before its parent. *)
Definition edge (L : list A) (i : nat) : Prop :=
  ∀ x y, L !! i = Some x → L !! parent i = Some y → le y x.

(** The first [n] elements form a heap. *)
Definition heap (n : nat) (L : list A) : Prop := ∀ i, 0 < i < n → edge L i.

(** The children of [h] are not before the parent of [h]. *)
Definition bridged (n : nat) (L : list A) (h : nat) : Prop :=
  ∀ c x y, 0 < h → 0 < c < n → parent c = h →
    L !! c = Some x → L !! parent h = Some y → le y x.

(** A heap except between [h] and its parent. *)
Definition up_inv (n : nat) (L : list A) (h : nat) : Prop :=
  (∀ i, 0 < i < n → i ≠ h → edge L i) ∧ bridged n L h.

(** A heap except around [h]. *)
Definition hole_inv (n : nat) (L : list A) (h : nat) : Prop :=
  (∀ i, 0 < i < n → i ≠ h → parent i ≠ h → edge L i) ∧ bridged n L h.

Lemma at_Some l i x : l !! i = Some x → at_ l i = Ok x.
Proof. unfold at_. by intros ->. Qed.

Lemma store_lt l i x : i < length l → store l i x = Ok (<[i := x]> l).
Proof. intros. unfold store. by rewrite decide_True. Qed.

(** Comparison of the elements at two positions. *)
Lemma comp_at L i j x y : NoDup (key <$> L) → i ≠ j → L !! i = Some x → L !! j = Some y →
  ∃ r, comp x y = Ok r ∧ if r : bool then le y x else le x y.
Proof.
  intros Hnd Hij Hi Hj. apply comp_spec. intros E. apply Hij.
  apply (NoDup_lookup (key <$> L) i j (key x)); [done|..]; rewrite list_lookup_fmap.
  - by rewrite Hi.
  - by rewrite Hj, E.
Qed.

Lemma swap_NoDup L i j x y : i ≠ j → L !! i = Some x → L !! j = Some y →
  NoDup (key <$> L) → NoDup (key <$> <[i := y]> (<[j := x]> L)).
Proof. intros. by rewrite swap_perm. Qed.

(** One level up. *)
Lemma up_step n L h v y : 0 < h < n → up_inv n L h →
  L !! h = Some v → L !! parent h = Some y → le v y →
  up_inv n (<[parent h := v]> (<[h := y]> L)) (parent h).
Proof.
  intros Hh [Hedge Hbr] Hv Hy Hle. pose proof (parent_lt h) as Hp.
  pose proof (lookup_lt_Some _ _ _ Hv). pose proof (lookup_lt_Some _ _ _ Hy). split.
  - intros i Hi Hne a b Ha Hb. pose proof (parent_lt i).
    rewrite list_lookup_insert_ne in Ha by lia.
    destruct (decide (i = h)) as [->|].
    { rewrite list_lookup_insert_eq in Ha, Hb by (rewrite ?length_insert; lia). by simplify_eq. }
    rewrite list_lookup_insert_ne in Ha by lia.
    destruct (decide (parent i = parent h)) as [E|].
    { rewrite E, list_lookup_insert_eq in Hb by (rewrite length_insert; lia). simplify_eq.
      trans y; [done|]. apply (Hedge i Hi); [lia|done|by rewrite E]. }
    rewrite list_lookup_insert_ne in Hb by lia.
    destruct (decide (parent i = h)) as [E|].
    { rewrite E, list_lookup_insert_eq in Hb by lia. simplify_eq. apply (Hbr i); auto; lia. }
    rewrite list_lookup_insert_ne in Hb by lia. by apply (Hedge i Hi).
  - intros c a b Hp0 Hc Hpc Ha Hb. pose proof (parent_lt (parent h)). pose proof (parent_lt c).
    rewrite list_lookup_insert_ne in Ha, Hb by lia.
    rewrite list_lookup_insert_ne in Hb by lia.
    assert (le b y) as Hby by (apply (Hedge (parent h)); [lia..|done|done]).
    destruct (decide (c = h)) as [->|].
    + rewrite list_lookup_insert_eq in Ha by lia. by simplify_eq.
    + rewrite list_lookup_insert_ne in Ha by lia. trans y; [done|].
      apply (Hedge c Hc); [lia|done|by rewrite Hpc].
Qed.

Lemma up_done n L h : up_inv n L h → edge L h ∨ h = 0 → heap n L.
Proof.
  intros [Hedge _] Hh i Hi. destruct (decide (i = h)) as [->|]; [|by apply Hedge].
  destruct Hh; [done|lia].
Qed.

Lemma push_loop_spec fuel l h v n :
  h < fuel → h < n ≤ length l → NoDup (key <$> <[h := v]> l) → up_inv n (<[h := v]> l) h →
  ∃ l', push_loop comp fuel l h 0 v = Ok l' ∧ l' ≡ₚ <[h := v]> l ∧ heap n l' ∧
    ∀ i, n ≤ i → l' !! i = l !! i.
Proof.
  revert l h. induction fuel as [|fuel IH]; intros l h Hf Hh Hnd Hinv; [lia|].
  cbn [push_loop]. case_decide as Hpos; [|assert (h = 0) as -> by lia].
  2:{ rewrite store_lt by lia. eexists. split_and!; [done|done|eapply up_done; eauto|].
      intros i Hi. by rewrite list_lookup_insert_ne by lia. }
  pose proof (parent_lt h Hpos).
  destruct (lookup_lt_is_Some_2 l (parent h)) as [y Hy]; [lia|].
  rewrite (at_Some _ _ _ Hy). cbn [mbind outcome_bind].
  assert (<[h := v]> l !! h = Some v) as HLv by (by apply list_lookup_insert_eq; lia).
  assert (<[h := v]> l !! parent h = Some y) as HLy by (by rewrite list_lookup_insert_ne by lia).
  destruct (comp_at (<[h := v]> l) (parent h) h y v) as (r & -> & Hr); [done|lia|done|done|].
  cbn [mbind outcome_bind]. destruct r; rewrite store_lt by lia; cbn [mbind outcome_bind].
  - assert (<[parent h := v]> (<[h := y]> l) = <[parent h := v]> (<[h := y]> (<[h := v]> l)))
      as Heq by (by rewrite list_insert_insert_eq).
    destruct (IH (<[h := y]> l) (parent h)) as (l' & -> & Hperm & Hheap & Hrest);
      [lia|rewrite length_insert; lia|..].
    + rewrite Heq. apply swap_NoDup; [lia|done..].
    + rewrite Heq. apply up_step; auto; lia.
    + exists l'. split_and!; [done| |done|].
      * rewrite Hperm, Heq. apply swap_perm; [lia|done|done].
      * intros i Hi. rewrite Hrest by done. by rewrite list_lookup_insert_ne by lia.
  - eexists. split_and!; [done|done| |].
    + eapply up_done; [done|]. left. intros a b Ha Hb. by simplify_eq.
    + intros i Hi. by rewrite list_lookup_insert_ne by lia.
Qed.

(** One level down, to the child [c] that is not after its sibling. *)
Lemma down_step n L h c v w : h < n → 0 < c < n → parent c = h → hole_inv n L h →
  L !! h = Some v → L !! c = Some w →
  (∀ d x, 0 < d < n → parent d = h → L !! d = Some x → le w x) →
  hole_inv n (<[c := v]> (<[h := w]> L)) c.
Proof.
  intros Hh Hc Hpc [Hedge Hbr] Hv Hw Hmin. pose proof (parent_lt c) as Hp.
  pose proof (lookup_lt_Some _ _ _ Hv). pose proof (lookup_lt_Some _ _ _ Hw). split.
  - intros i Hi Hne Hnp a b Ha Hb. pose proof (parent_lt i).
    rewrite list_lookup_insert_ne in Ha, Hb by lia.
    destruct (decide (i = h)) as [->|].
    { rewrite list_lookup_insert_eq in Ha by lia. rewrite list_lookup_insert_ne in Hb by lia.
      simplify_eq. by apply (Hbr c); auto; lia. }
    rewrite list_lookup_insert_ne in Ha by lia.
    destruct (decide (parent i = h)) as [E|].
    { rewrite E, list_lookup_insert_eq in Hb by lia. simplify_eq. by apply (Hmin i). }
    rewrite list_lookup_insert_ne in Hb by lia. by apply (Hedge i Hi).
  - intros d a b _ Hd Hpd Ha Hb. pose proof (parent_lt d).
    rewrite list_lookup_insert_ne in Ha, Hb by lia.
    rewrite list_lookup_insert_ne in Ha by lia. rewrite Hpc in Hb.
    rewrite list_lookup_insert_eq in Hb by lia. simplify_eq.
    apply (Hedge d Hd); [lia|lia|done|done].
Qed.

Lemma adjust_loop_spec fuel l h v n :
  n < h + fuel → h < n ≤ length l → NoDup (key <$> <[h := v]> l) →
  hole_inv n (<[h := v]> l) h →
  ∃ l' h', adjust_loop comp fuel l h h n = Ok (l', h', h') ∧ h' < n ∧
    length l' = length l ∧ (n - 1) `div` 2 ≤ h' ∧
    <[h' := v]> l' ≡ₚ <[h := v]> l ∧ hole_inv n (<[h' := v]> l') h' ∧
    ∀ i, n ≤ i → l' !! i = l !! i.
Proof.
  revert l h. induction fuel as [|fuel IH]; intros l h Hf Hh Hnd Hinv; [lia|].
  cbn [adjust_loop]. case_decide as Hlt; [|exists l, h; split_and!; auto; lia].
  pose proof (half_spec (n - 1)).
  destruct (lookup_lt_is_Some_2 l (2 * (h + 1))) as [x Hx]; [lia|].
  destruct (lookup_lt_is_Some_2 l (2 * (h + 1) - 1)) as [y Hy]; [lia|].
  rewrite (at_Some _ _ _ Hx), (at_Some _ _ _ Hy). cbn [mbind outcome_bind].
  assert (∀ i a, l !! i = Some a → i ≠ h → <[h := v]> l !! i = Some a) as HL
    by (intros; by rewrite list_lookup_insert_ne).
  destruct (comp_at (<[h := v]> l) (2 * (h + 1)) (2 * (h + 1) - 1) x y) as (r & -> & Hr);
    [done|lia|by apply HL; [|lia]|by apply HL; [|lia]|].
  cbn [mbind outcome_bind].
  set (c := if r then 2 * (h + 1) - 1 else 2 * (h + 1)).
  assert (∃ w, l !! c = Some w ∧ c < n ∧ h < c ∧ parent c = h ∧
    ∀ d z, 0 < d < n → parent d = h → <[h := v]> l !! d = Some z → le w z) as
    (w & Hw & Hcn & Hhc & Hpc & Hmin).
  { assert (∀ d z, 0 < d < n → parent d = h → <[h := v]> l !! d = Some z → z = x ∨ z = y)
      as Hchild.
    { intros d z Hd Hpd Hz. pose proof (parent_spec d).
      rewrite list_lookup_insert_ne in Hz by lia.
      assert (d = 2 * (h + 1) ∨ d = 2 * (h + 1) - 1) as [->| ->] by lia; naive_solver. }
    subst c. destruct r; eexists; split_and!; eauto; try lia; try (apply parent_child; lia);
      intros d z Hd Hpd Hz; destruct (Hchild d z Hd Hpd Hz) as [->| ->]; done. }
  rewrite (at_Some _ _ _ Hw). cbn [mbind outcome_bind].
  rewrite store_lt by lia. cbn [mbind outcome_bind].
  assert (<[c := v]> (<[h := w]> l) = <[c := v]> (<[h := w]> (<[h := v]> l))) as Heq
    by (by rewrite list_insert_insert_eq).
  assert (<[h := v]> l !! h = Some v) as Hv by (by apply list_lookup_insert_eq; lia).
  destruct (IH (<[h := w]> l) c) as (l' & h' & -> & Hh' & Hlen & Hleaf & Hperm & Hinv' & Hrest);
    [lia|rewrite length_insert; lia|..].
  - rewrite Heq. apply swap_NoDup; [lia|by apply HL; [|lia]|done|done].
  - rewrite Heq. apply down_step; auto; [lia..|]. by apply HL; [|lia].
  - rewrite length_insert in Hlen. exists l', h'. split_and!; [done|lia|done|done| |done|].
    + rewrite Hperm, Heq. apply swap_perm; [lia|by apply HL; [|lia]|done].
    + intros i Hi. rewrite Hrest by done. by rewrite list_lookup_insert_ne by lia.
Qed.

(** A hole without children is only wrong towards its parent. *)
Lemma hole_leaf n L h : n ≤ 2 * h + 1 → hole_inv n L h → up_inv n L h.
Proof.
  intros Hleaf [Hedge Hbr]. split; [|done]. intros i Hi Hne. apply Hedge; [done|done|].
  destruct (parent_spec i); lia.
Qed.

Lemma adjust_heap_spec l v n :
  0 < n ≤ length l → NoDup (key <$> <[0 := v]> l) → hole_inv n (<[0 := v]> l) 0 →
  ∃ l', adjust_heap comp l 0 n v = Ok l' ∧ l' ≡ₚ <[0 := v]> l ∧ heap n l' ∧
    ∀ i, n ≤ i → l' !! i = l !! i.
Proof.
  intros Hn Hnd Hinv. unfold adjust_heap.
  destruct (adjust_loop_spec (S n) l 0 v n) as
    (l1 & h & -> & Hh & Hlen & Hleaf & Hperm & Hinv1 & Hrest); [lia..|done|done|].
  cbn [mbind outcome_bind].
  pose proof (half_spec (n - 1)). pose proof (half_spec (n - 2)).
  assert (NoDup (key <$> <[h := v]> l1)) as Hnd1 by (by rewrite Hperm).
  case_decide as Hc; unfold push_from.
  - destruct Hc as (Heven & Hhn & Hn2). apply Is_true_true, Nat.even_spec in Heven as [k Hk].
    replace (2 * (h + 1) - 1) with (2 * h + 1) by lia.
    destruct (lookup_lt_is_Some_2 l1 (2 * h + 1)) as [w Hw]; [lia|].
    rewrite (at_Some _ _ _ Hw). cbn [mbind outcome_bind].
    rewrite store_lt by lia. cbn [mbind outcome_bind].
    assert (<[2 * h + 1 := v]> (<[h := w]> l1)
      = <[2 * h + 1 := v]> (<[h := w]> (<[h := v]> l1))) as Heq
      by (by rewrite list_insert_insert_eq).
    assert (<[h := v]> l1 !! h = Some v) as Hv by (by apply list_lookup_insert_eq; lia).
    assert (<[h := v]> l1 !! (2 * h + 1) = Some w) as HLw
      by (by rewrite list_lookup_insert_ne by lia).
    destruct (push_loop_spec (S (2 * h + 1)) (<[h := w]> l1) (2 * h + 1) v n)
      as (l' & -> & Hp & Hheap & Hr); [lia|rewrite length_insert; lia|..].
    + rewrite Heq. apply swap_NoDup; [lia|done..].
    + rewrite Heq. apply hole_leaf; [lia|].
      apply (down_step n _ h); auto; [lia|apply parent_child; lia|].
      intros d x Hd Hpd Hx. destruct (parent_spec d) as [E|E]; [lia| |lia].
      replace d with (2 * h + 1) in Hx by lia. by simplify_eq.
    + exists l'. split_and!; [done| |done|].
      * rewrite Hp, Heq, swap_perm; [done|lia|done|done].
      * intros i Hi. rewrite Hr, list_lookup_insert_ne by lia. by apply Hrest.
  - destruct (push_loop_spec (S h) l1 h v n) as (l' & -> & Hp & Hheap & Hr); [lia..|done| |].
    + apply hole_leaf; [|done]. apply Nat.le_ngt. intros Hcontra. apply Hc.
      split_and!; [apply Is_true_true, Nat.even_spec; exists (h + 1); lia|lia|lia].
    + exists l'. split_and!; [done|by rewrite Hp|done|].
      intros i Hi. rewrite Hr by done. by apply Hrest.
Qed.

(** Adding [x] at the end of a heap. *)
Lemma push_heap_spec l x : heap (length l) l → NoDup (key <$> l ++ [x]) →
  ∃ l', push_heap comp (l ++ [x]) = Ok l' ∧ l' ≡ₚ l ++ [x] ∧ heap (length l') l'.
Proof.
  intros Hheap Hnd. unfold push_heap, push_from. rewrite length_app. simpl length.
  replace (length l + 1 - 1) with (length l) by lia.
  rewrite (at_Some _ _ x) by (by apply list_lookup_middle). cbn [mbind outcome_bind].
  assert (<[length l := x]> (l ++ [x]) = l ++ [x]) as Heq
    by (apply list_insert_id, list_lookup_middle; done).
  destruct (push_loop_spec (S (length l)) (l ++ [x]) (length l) x (length l + 1))
    as (l' & -> & Hp & Hh & _); rewrite ?Heq; [lia|rewrite length_app; simpl; lia|done| |].
  - split.
    + intros i Hi Hne a b Ha Hb. pose proof (parent_lt i).
      rewrite lookup_app_l in Ha, Hb by lia. apply (Hheap i); auto. lia.
    + intros c a b _ Hc Hpc. pose proof (parent_lt c). lia.
  - exists l'. rewrite Heq in Hp. split_and!; [done|done|].
    by rewrite (Permutation_length Hp), length_app.
Qed.

(** Removing the first element of a heap. *)
Lemma pop_heap_spec x l : heap (length (x :: l)) (x :: l) → NoDup (key <$> x :: l) →
  ∃ l', pop_heap comp (x :: l) = Ok (l' ++ [x]) ∧ l' ≡ₚ l ∧ heap (length l') l'.
Proof.
  intros Hheap Hnd. unfold pop_heap. destruct l as [|y l0 _] using rev_ind.
  { exists []. simpl. split_and!; [done|done|]. intros i ?. simpl in *. lia. }
  rewrite decide_True by (simpl; rewrite length_app; simpl; lia).
  replace (length (x :: l0 ++ [y]) - 1) with (length (x :: l0)) by (simpl; rewrite length_app; simpl; lia).
  change (x :: l0 ++ [y]) with ((x :: l0) ++ [y]) in *.
  rewrite (at_Some _ _ y (list_lookup_middle (x :: l0) [] y _ eq_refl)). cbn [mbind outcome_bind].
  rewrite (at_Some _ 0 x) by done. cbn [mbind outcome_bind].
  rewrite store_lt by (rewrite length_app; simpl; lia). cbn [mbind outcome_bind].
  replace (<[length (x :: l0) := x]> ((x :: l0) ++ [y])) with ((x :: l0) ++ [x])
    by (rewrite <- (Nat.add_0_r (length (x :: l0))), insert_app_r; done).
  assert (<[0 := y]> ((x :: l0) ++ [x]) ≡ₚ x :: l0 ++ [y]) as Hperm.
  { simpl. rewrite <- !Permutation_cons_append. apply perm_swap. }
  destruct (adjust_heap_spec ((x :: l0) ++ [x]) y (length (x :: l0)))
    as (r & -> & Hp & Hh & Hrest).
  - rewrite length_app. simpl. lia.
  - by rewrite Hperm.
  - split; [|intros ?; lia]. intros i Hi Hne Hnp a b Ha Hb. pose proof (parent_lt i).
    rewrite list_lookup_insert_ne, lookup_app_l in Ha, Hb by lia.
    apply (Hheap i); [rewrite length_app; simpl in *; lia|by rewrite lookup_app_l by lia..].
  - assert (length r = length (x :: l0) + 1) as Hlen
      by (by rewrite (Permutation_length Hp), length_insert, length_app).
    assert (r !! length (x :: l0) = Some x) as Hlast
      by (rewrite Hrest by lia; exact (list_lookup_middle (x :: l0) [] x _ eq_refl)).
    destruct r as [|z l' _] using rev_ind; [simpl in Hlen; lia|].
    rewrite length_app in Hlen. simpl in Hlen.
    replace (length (x :: l0)) with (length l' + 0) in Hlast by (simpl; lia).
    rewrite lookup_app_r, Nat.add_comm, Nat.add_sub in Hlast by lia. simpl in Hlast. simplify_eq.
    exists l'. split_and!; [done| |].
    + apply (Permutation_app_inv_r [x]). rewrite Hp, Hperm.
      apply (Permutation_cons_append (l0 ++ [y])).
    + intros i Hi a b Ha Hb. pose proof (parent_lt i).
      apply (Hh i); [simpl; lia|by rewrite lookup_app_l by lia..].
Qed.

(** The first element of a heap is before every other. *)
Lemma heap_head x l : heap (length (x :: l)) (x :: l) → ∀ y, y ∈ x :: l → le x y.
Proof.
  intros Hheap y [i Hi]%list_elem_of_lookup. revert y Hi.
  induction i as [i IH] using lt_wf_ind. intros y Hi.
  destruct (decide (i = 0)) as [->|]; [simpl in Hi; by simplify_eq|].
  pose proof (lookup_lt_Some _ _ _ Hi). pose proof (parent_lt i).
  destruct (lookup_lt_is_Some_2 (x :: l) (parent i)) as [z Hz]; [lia|].
  trans z; [apply (IH (parent i)); [lia|done]|]. apply (Hheap i); [lia|done|done].
Qed.

End correctness.

(** ** The contract *)

(** What a client of the two algorithms relies on, for elements told apart by
    [key] and ordered by [le]. *)
Class PriorityHeap {A K} (key : A → K) (le : A → A → Prop)
    (push pop : list A → outcome (list A)) := {
  is_heap : list A → Prop;
  heap_nil : is_heap [];
  heap_push l x : is_heap l → NoDup (key <$> l ++ [x]) →
    ∃ l', push (l ++ [x]) = Ok l' ∧ l' ≡ₚ l ++ [x] ∧ is_heap l';
  heap_pop x l : is_heap (x :: l) → NoDup (key <$> x :: l) →
    ∃ l', pop (x :: l) = Ok (l' ++ [x]) ∧ l' ≡ₚ l ∧ is_heap l';
  heap_least x l y : is_heap (x :: l) → y ∈ x :: l → le x y;
  (** elements may be replaced by others of the same rank *)
  heap_same_rank l l' : is_heap l → Forall2 (λ x y, le x y ∧ le y x) l l' → is_heap l' }.

(** The library's algorithms meet it, for any comparison that decides the
    order on elements with different keys. *)
Definition std_heap {A K} (comp : A → A → outcome bool) (key : A → K) (le : A → A → Prop)
    `{!PreOrder le}
    (H : ∀ a b, key a ≠ key b → ∃ r, comp a b = Ok r ∧ if r : bool then le b a else le a b) :
    PriorityHeap key le (push_heap comp) (pop_heap comp).
Proof.
  refine {| is_heap := λ l, heap le (length l) l |}.
  - intros i ?. simpl in *. lia.
  - by apply push_heap_spec.
  - by apply pop_heap_spec.
  - intros x l y Hh Hy. by eapply heap_head.
  - intros l l' Hh HF i Hi a b Ha Hb. rewrite <- (Forall2_length _ _ _ HF) in Hi.
    destruct (Forall2_lookup_r _ _ _ _ _ HF Ha) as (a' & Ha' & [Haa _]).
    destruct (Forall2_lookup_r _ _ _ _ _ HF Hb) as (b' & Hb' & [_ Hbb]).
    etrans; [exact Hbb|]. etrans; [|exact Haa]. by apply (Hh i Hi a' b').
Defined.
