(* ===== verification/Clocks.v ===== *)
(** * Clocks and wakeups (sim/clocked_object.hh, mem/ruby/common/Consumer.hh, .cc)

    A [ClockedObject] caches the next edge of its clock and the number of that
    cycle; [update] brings the cache up to the global time, which is an
    argument here.  A [Consumer] asks the event queue to be woken at a tick
    and remembers which ticks it has asked for. *)

From S2P Require Import Prelude IntMath.
Local Open Scope Z_scope.

Module ClockedObject.

(** [clockPeriod] is the period of the clock domain, which is never zero. *)
Record t := mk { tick : Z; cycle : Z; clockPeriod : Z }.

Definition create (period : Z) : t := mk 0 0 period.

(** [Cycles(divCeil(ticks, clockPeriod()))] on 64-bit operands *)
Definition cycles_of (ticks period : Z) : Z := u64 (ticks + period - 1) `div` period.

Definition update (now : Z) (c : t) : t :=
  if decide (now ≤ tick c) then c
  else
    let tick1 := u64 (tick c + clockPeriod c) in
    let cycle1 := u64 (cycle c + 1) in
    if decide (now ≤ tick1) then mk tick1 cycle1 (clockPeriod c)
    else
      let elapsedCycles := cycles_of (u64 (now - tick1)) (clockPeriod c) in
      mk (u64 (tick1 + elapsedCycles * clockPeriod c)) (u64 (cycle1 + elapsedCycles))
         (clockPeriod c).

Definition resetClock (now : Z) (c : t) : t :=
  let elapsedCycles := cycles_of now (clockPeriod c) in
  mk (u64 (elapsedCycles * clockPeriod c)) elapsedCycles (clockPeriod c).

(** The accessors update the cache before they read it; [update] being
    idempotent, the value read is that of the updated cache. *)
Definition clockEdge (now : Z) (c : t) (cycles : Z) : Z :=
  u64 (tick (update now c) + u64 (clockPeriod c * cycles)).

Definition curCycle (now : Z) (c : t) : Z := cycle (update now c).

Definition nextCycle (now : Z) (c : t) : Z := clockEdge now c 1.

Definition ticksToCycles (c : t) (ticks : Z) : Z := cycles_of ticks (clockPeriod c).

End ClockedObject.

Module Consumer.

(** [em] is the clocked object that keeps the time of the consumer. *)
Record t := mk { m_scheduled_wakeups : gset Z; em : ClockedObject.t }.

Definition alreadyScheduled (c : t) (time : Z) : bool :=
  bool_decide (time ∈ m_scheduled_wakeups c).

Definition insertScheduledWakeupTime (c : t) (time : Z) : t :=
  mk ({[time]} ∪ m_scheduled_wakeups c) (em c).

(** The second component lists the events handed to the event queue; the
    ticks before the current edge are forgotten. *)
Definition scheduleEventAbsolute (now : Z) (c : t) (evt_time : Z) : t * list Z :=
  let '(c, posted) :=
    if alreadyScheduled c evt_time then (c, [])
    else (insertScheduledWakeupTime c evt_time, [evt_time]) in
  let t := ClockedObject.clockEdge now (em c) 0 in
  (mk (filter (λ time, t ≤ time) (m_scheduled_wakeups c)) (em c), posted).

Definition scheduleEvent (now : Z) (c : t) (timeDelta : Z) : t * list Z :=
  scheduleEventAbsolute now c (ClockedObject.clockEdge now (em c) timeDelta).

(** A sequence of calls [scheduleEventAbsolute(time)], each made at a time. *)
Fixpoint schedule_all (c : t) (calls : list (Z * Z)) : t * list Z :=
  match calls with
  | [] => (c, [])
  | (now, time) :: calls =>
      let '(c1, p1) := scheduleEventAbsolute now c time in
      let '(c2, p2) := schedule_all c1 calls in
      (c2, p1 ++ p2)
  end.

End Consumer.

Import ClockedObject.

(** ** The clock *)

(** The cached edge is a multiple of the period and the cached cycle counts
    the periods; the clock has been read up to time [last]. *)
Definition clock_ok (last : Z) (c : t) : Prop :=
  0 < clockPeriod c ∧ 0 ≤ cycle c ∧ tick c = cycle c * clockPeriod c ∧
  tick c < last + clockPeriod c.

(** The simulation ends before the 64-bit counter of ticks does. *)
Definition time_ok (now : Z) (c : t) : Prop := 0 ≤ now ∧ now + 2 * clockPeriod c < 2 ^ 64.

Definition ceil_div (a b : Z) : Z := (a + b - 1) `div` b.

Lemma ceil_div_spec a b : 0 < b → b * (ceil_div a b - 1) < a ≤ b * ceil_div a b.
Proof.
  intros Hb. unfold ceil_div.
  pose proof (Z.div_mod (a + b - 1) b ltac:(lia)).
  pose proof (Z.mod_pos_bound (a + b - 1) b Hb). nia.
Qed.

Lemma ceil_div_unique a b q : 0 < b → b * (q - 1) < a ≤ b * q → ceil_div a b = q.
Proof. intros Hb Hq. pose proof (ceil_div_spec a b Hb). nia. Qed.

Lemma cycles_of_ceil ticks period : 0 < period → 0 ≤ ticks → ticks + period ≤ 2 ^ 64 →
  cycles_of ticks period = ceil_div ticks period.
Proof. intros. unfold cycles_of, u64. rewrite uwrap_id; [done|]. unfold fits. lia. Qed.

(** The cached cycle after an update is the first whose edge is not before
    the current time, unless the cache was already ahead. *)
Lemma update_spec last now c : clock_ok last c → time_ok now c → last ≤ now →
  update now c = mk (Z.max (cycle c) (ceil_div now (clockPeriod c)) * clockPeriod c)
                    (Z.max (cycle c) (ceil_div now (clockPeriod c))) (clockPeriod c).
Proof.
  destruct c as [tk cy p]. intros (Hp & Hcy & Htk & Hlast) [Hnow Hmax] Hle. simpl in *.
  pose proof (ceil_div_spec now p Hp) as Hceil. unfold update. simpl.
  case_decide as H1; [rewrite Z.max_l by nia; by f_equal|].
  unfold u64. rewrite !(uwrap_id 64 (tk + p)), !(uwrap_id 64 (cy + 1)) by (unfold fits; nia).
  case_decide as H2.
  { assert (ceil_div now p = cy + 1) as -> by (apply ceil_div_unique; [done|nia]).
    rewrite Z.max_r by lia. f_equal. lia. }
  rewrite (uwrap_id 64 (now - (tk + p))) by (unfold fits; lia).
  rewrite cycles_of_ceil by (unfold fits in *; lia).
  assert (ceil_div now p = cy + 1 + ceil_div (now - (tk + p)) p) as Heq.
  { apply ceil_div_unique; [done|]. pose proof (ceil_div_spec (now - (tk + p)) p Hp). nia. }
  pose proof (ceil_div_spec (now - (tk + p)) p Hp).
  rewrite !uwrap_id by (unfold fits; nia). rewrite Heq, Z.max_r by nia. f_equal. nia.
Qed.

Lemma update_ok last now c : clock_ok last c → time_ok now c → last ≤ now →
  clock_ok now (update now c) ∧ now ≤ tick (update now c) ∧
  clockPeriod (update now c) = clockPeriod c.
Proof.
  intros Hok Ht Hle. rewrite (update_spec last) by done.
  destruct c as [tk cy p]. destruct Hok as (Hp & Hcy & Htk & Hlast). simpl in *.
  pose proof (ceil_div_spec now p Hp). split_and!; simpl; try nia. split_and!; simpl; nia.
Qed.

Lemma ceil_div_mono a a' b : 0 < b → a ≤ a' → ceil_div a b ≤ ceil_div a' b.
Proof. intros. unfold ceil_div. apply Z.div_le_mono; lia. Qed.

(** The edge of a cycle [n] cycles ahead. *)
Lemma clockEdge_spec last now c n : clock_ok last c → time_ok now c → last ≤ now →
  0 ≤ n → now + (n + 1) * clockPeriod c < 2 ^ 64 →
  clockEdge now c n = tick (update now c) + n * clockPeriod c.
Proof.
  intros Hok Ht Hle Hn Hmax. destruct (update_ok last now c) as ((? & ? & ? & ?) & ? & Hp); [done..|].
  rewrite Hp in *. unfold clockEdge, u64. destruct Ht.
  rewrite (uwrap_id 64 (clockPeriod c * n)) by (unfold fits; nia).
  rewrite uwrap_id by (unfold fits; nia). lia.
Qed.

Lemma clockEdge_mono last now now' c : clock_ok last c → time_ok now' c →
  last ≤ now → 0 ≤ now → now ≤ now' → clockEdge now c 0 ≤ clockEdge now' c 0.
Proof.
  intros Hok Ht Hl H0 Hle. destruct Ht as [Hn Hm]. pose proof Hok as (Hp & _).
  rewrite !(clockEdge_spec last) by (done || (try split; lia)).
  rewrite !(update_spec last) by (done || (try split; lia)). simpl.
  pose proof (ceil_div_mono now now' (clockPeriod c) Hp Hle). nia.
Qed.

(** Reading a clock at a time gives the first edge that is not earlier,
    less than one period away, together with its number; the cache left
    behind gives the same answers as the cache before it at any later time,
    so reading a clock has no observable effect. *)
Theorem clock_reads last now now' n c :
  clock_ok last c → time_ok now' c → last ≤ now → 0 ≤ now → now ≤ now' →
  now ≤ clockEdge now c 0 < now + clockPeriod c ∧
  clockEdge now c 0 = curCycle now c * clockPeriod c ∧
  clock_ok now (update now c) ∧
  clockEdge now' (update now c) n = clockEdge now' c n ∧
  curCycle now' (update now c) = curCycle now' c ∧
  curCycle now c ≤ curCycle now' c.
Proof.
  intros Hok Ht Hl H0 Hle. pose proof Hok as (Hp & Hcy & Htk & Hlast).
  pose proof Ht as [Ht0 Htm].
  assert (time_ok now c) as Ht1 by (split; lia).
  destruct (update_ok last now c) as (Hok' & Hnow & Hper); [done..|].
  assert (time_ok now' (update now c)) as Ht2 by (split; rewrite ?Hper; lia).
  assert (update now' (update now c) = update now' c) as Hup.
  { rewrite (update_spec now) by done. rewrite Hper, !(update_spec last) by (done || lia). simpl.
    pose proof (ceil_div_mono now now' (clockPeriod c) Hp Hle).
    replace (Z.max (Z.max (cycle c) (ceil_div now (clockPeriod c))) (ceil_div now' (clockPeriod c)))
      with (Z.max (cycle c) (ceil_div now' (clockPeriod c))) by lia. done. }
  rewrite (clockEdge_spec last) by (done || lia).
  unfold clockEdge, curCycle. rewrite Hup, Hper.
  pose proof Hok' as (? & ? & Heq & ?). rewrite Hper in *. split_and!; try done; try lia.
  - rewrite !(update_spec last) by (done || lia). simpl.
    pose proof (ceil_div_mono now now' (clockPeriod c) Hp Hle). lia.
Qed.

Lemma clock_reads_witness :
  10 ≤ clockEdge 10 (create 4) 0 < 14 ∧ clockEdge 10 (create 4) 0 = curCycle 10 (create 4) * 4.
Proof.
  assert (clock_ok 0 (create 4)) as Hok by (repeat split; simpl; lia).
  destruct (clock_reads 0 10 20 1 (create 4) Hok) as (H1 & H2 & _); [split; simpl; lia|lia..|].
  split; [exact H1|exact H2].
Defined.

(** ** Wakeups *)

(** Calls at nondecreasing times, each for a tick not before the edge of the
    time it is made at. *)
Fixpoint calls_ok (c : t) (last : Z) (calls : list (Z * Z)) : Prop :=
  match calls with
  | [] => True
  | (now, time) :: calls =>
      last ≤ now ∧ 0 ≤ now ∧ time_ok now c ∧ clockEdge now c 0 ≤ time ∧ calls_ok c now calls
  end.

Lemma calls_ok_edge last0 last c calls : clock_ok last0 c → last0 ≤ last → 0 ≤ last →
  calls_ok c last calls → Forall (λ p, clockEdge last c 0 ≤ p.2) calls.
Proof.
  intros Hok. revert last. induction calls as [|[now time] calls IH]; intros last Hl H0; [done|].
  intros (Hle & Hnow & Ht & Hedge & Hrest).
  assert (clockEdge last c 0 ≤ clockEdge now c 0) by (apply (clockEdge_mono last0); auto).
  constructor; [simpl; lia|].
  eapply Forall_impl; [apply IH; [| |exact Hrest]; lia|]. simpl. intros. lia.
Qed.

Lemma schedule_all_spec last0 last k calls :
  clock_ok last0 (Consumer.em k) → last0 ≤ last → calls_ok (Consumer.em k) last calls →
  let posted := (Consumer.schedule_all k calls).2 in
  NoDup posted ∧
  (∀ t, t ∈ posted ↔ t ∈ calls.*2 ∧ t ∉ Consumer.m_scheduled_wakeups k).
Proof.
  intros Hok. revert last k Hok. induction calls as [|[now time] calls IH];
    intros last k Hok Hl Hcalls; simpl; [split; [constructor|set_solver]|].
  destruct Hcalls as (Hle & Hnow & Ht & Hedge & Hrest).
  pose proof (calls_ok_edge last0 now _ calls Hok ltac:(lia) Hnow Hrest) as Hlater.
  assert (∀ t, t ∈ calls.*2 → clockEdge now (Consumer.em k) 0 ≤ t) as Hge.
  { intros t (p & -> & Hp)%list_elem_of_fmap. rewrite Forall_forall in Hlater. auto. }
  unfold Consumer.scheduleEventAbsolute, Consumer.alreadyScheduled.
  set (edge := clockEdge now (Consumer.em k) 0) in *.
  case_bool_decide as Hin; simpl; fold edge;
    (destruct (Consumer.schedule_all _ _) as [k2 p2] eqn:E;
     epose proof (IH now (Consumer.mk _ (Consumer.em k)) Hok ltac:(lia) Hrest) as [Hnd Hp];
     rewrite E in Hnd, Hp; simpl in Hnd, Hp; simpl).
  - split; [done|]. intros t. rewrite Hp, elem_of_cons, elem_of_filter. naive_solver.
  - split.
    + constructor; [|done]. rewrite Hp, elem_of_filter. set_solver.
    + intros t. rewrite !elem_of_cons, Hp, elem_of_filter. 
      destruct (decide (t = time)) as [->|]; [tauto|]. set_solver.
Qed.

(** Whatever sequence of wakeups a consumer requests, for ticks that are
    not in the past, each requested tick is posted to the event queue exactly
    once, although the consumer forgets the ticks that have gone by. *)
Theorem wakeups_posted_once last k calls :
  clock_ok last (Consumer.em k) → calls_ok (Consumer.em k) last calls →
  Consumer.m_scheduled_wakeups k = ∅ →
  let posted := (Consumer.schedule_all k calls).2 in
  NoDup posted ∧ ∀ t, t ∈ posted ↔ t ∈ calls.*2.
Proof.
  intros Hok Hcalls Hk. destruct (schedule_all_spec last last k calls) as [Hnd Hp]; [done..|].
  split; [done|]. intros t. rewrite Hp, Hk. set_solver.
Qed.

Lemma wakeups_posted_once_witness :
  let calls := [(0, 8); (4, 8); (4, 12); (12, 12)] in
  let posted := (Consumer.schedule_all (Consumer.mk ∅ (create 4)) calls).2 in
  NoDup posted ∧ ∀ t, t ∈ posted ↔ t ∈ calls.*2.
Proof.
  apply (wakeups_posted_once 0 (Consumer.mk ∅ (create 4)) [(0, 8); (4, 8); (4, 12); (12, 12)]);
    [repeat split; simpl; lia| |reflexivity].
  repeat split; try (simpl; lia); vm_compute; discriminate.
Defined.
