(* ===== verification/EventQueues.v ===== *)
(** * The event queue (sim/eventq.hh, sim/eventq.cc, sim/eventq_impl.hh, sim/simulate.cc)

    Events are objects in a heap, linked by two pointers each: [nextInBin] from an event to the
    one below it on the stack of its bin (the events of one time and priority), and [nextBin]
    from the top of a bin to the top of the next one.  The [nextBin] of an event below the top is
    stale.  The methods follow and change these pointers; a pointer to nothing is
    [Err NullDeref]. *)

From S2P Require Import Prelude.
Local Open Scope Z_scope.

Module Event.

Definition PublicWrite : Z := 0x001d.
Definition Squashed : Z := 0x0001.
Definition Scheduled : Z := 0x0002.
Definition AutoDelete : Z := 0x0004.
Definition AutoSerialize : Z := 0x0008.
Definition IsExitEvent : Z := 0x0010.
Definition IsMainQueue : Z := 0x0020.
Definition Initialized : Z := 0x7a40.
Definition InitMask : Z := 0xffc0.

Record t := mk {
  nextBin : option nat;
  nextInBin : option nat;
  _when : Z;
  _priority : Z;
  flags : Z;
  queue : option nat }.

Definition with_nextBin (e : t) (p : option nat) : t :=
  mk p (nextInBin e) (_when e) (_priority e) (flags e) (queue e).
Definition with_nextInBin (e : t) (p : option nat) : t :=
  mk (nextBin e) p (_when e) (_priority e) (flags e) (queue e).
Definition with_flags (e : t) (f : Z) : t :=
  mk (nextBin e) (nextInBin e) (_when e) (_priority e) f (queue e).
Definition with_priority (e : t) (p : Z) : t :=
  mk (nextBin e) (nextInBin e) (_when e) p (flags e) (queue e).

Definition isSet (e : t) (f : Z) : bool := negb (bool_decide (Z.land (flags e) f = 0)).
Definition set_flag (f : Z) (e : t) : t := with_flags e (Z.lor (flags e) f).
Definition clear_flag (f : Z) (e : t) : t := with_flags e (Z.ldiff (flags e) f).

Definition create (p f : Z) : outcome t :=
  assert_that (bool_decide (Z.ldiff f PublicWrite = 0));;
  Ok (mk None None 0 p (Z.lor Initialized f) None).

Definition setWhen (when_ : Z) (q : nat) (e : t) : t :=
  mk (nextBin e) (nextInBin e) when_ (_priority e) (flags e) (Some q).

Definition initialized (e : t) : bool := bool_decide (Z.land (flags e) InitMask = Initialized).
Definition scheduled (e : t) : bool := isSet e Scheduled.
Definition squashed (e : t) : bool := isSet e Squashed.
Definition squash : t → t := set_flag Squashed.
Definition isExitEvent (e : t) : bool := isSet e IsExitEvent.

(** The operators [<], [<=] and [==]. *)
Definition lt (l r : t) : bool :=
  bool_decide (_when l < _when r) || (bool_decide (_when l = _when r) && bool_decide (_priority l < _priority r)).
Definition le (l r : t) : bool :=
  bool_decide (_when l < _when r) || (bool_decide (_when l = _when r) && bool_decide (_priority l ≤ _priority r)).
Definition eq (l r : t) : bool := bool_decide (_when l = _when r) && bool_decide (_priority l = _priority r).

End Event.

Module EventQueue.

(** A queue, with the events of the simulation. *)
Record t := mk {
  heap : gmap nat Event.t;
  head : option nat;
  _curTick : Z;
  async_queue : list nat }.

Definition with_heap (s : t) (h : gmap nat Event.t) : t := mk h (head s) (_curTick s) (async_queue s).
Definition with_head (s : t) (h : option nat) : t := mk (heap s) h (_curTick s) (async_queue s).
Definition with_async (s : t) (l : list nat) : t := mk (heap s) (head s) (_curTick s) l.
Definition setCurTick (v : Z) (s : t) : t := mk (heap s) (head s) v (async_queue s).

Definition create (h : gmap nat Event.t) : t := mk h None 0 [].

(** [*p] and an assignment to fields of [*p]. *)
Definition load (p : nat) : prog t Event.t := reads (λ s, from_option_or NullDeref (heap s !! p)).
Definition update (p : nat) (f : Event.t → Event.t) : prog t unit :=
  e ← load p; modS (λ s, with_heap s (<[p := f e]> (heap s))).
Definition check (b : bool) : prog t unit := lift (assert_that b).

Definition empty (s : t) : bool := bool_decide (head s = None).
Definition nextTick : prog t Z :=
  h ← gets head;
  match h with Some p => e ← load p; mret (Event._when e) | None => raise NullDeref end.

(** Fuel for a walk over the bins, or down a bin. *)
Definition fuel_of (s : t) : nat := S (size (heap s)).

(** *** Insertion and removal *)

Definition insertBefore (event : nat) (curr : option nat) : prog t nat :=
  e ← load event;
  match curr with
  | None => _ ← update event (λ e, Event.with_nextInBin (Event.with_nextBin e None) None); mret event
  | Some c =>
      ec ← load c;
      if Event.lt e ec then
        _ ← update event (λ e, Event.with_nextInBin (Event.with_nextBin e curr) None); mret event
      else
        _ ← update event (λ e, Event.with_nextInBin (Event.with_nextBin e (Event.nextBin ec)) curr); mret event
  end.

(** [while (curr && *curr < *event) { prev = curr; curr = curr->nextBin; }] *)
Fixpoint find_bin (fuel : nat) (event prev : nat) (curr : option nat) : prog t (nat * option nat) :=
  match fuel with
  | O => raise OutOfFuel
  | S fuel =>
      match curr with
      | None => mret (prev, None)
      | Some c =>
          ec ← load c; e ← load event;
          if Event.lt ec e then find_bin fuel event c (Event.nextBin ec) else mret (prev, Some c)
      end
  end.

Definition insert (event : nat) : prog t unit :=
  e ← load event;
  h ← gets head;
  match h with
  | None => r ← insertBefore event None; modS (λ s, with_head s (Some r))
  | Some p =>
      eh ← load p;
      if Event.le e eh then r ← insertBefore event h; modS (λ s, with_head s (Some r))
      else
        fuel ← gets fuel_of;
        f ← find_bin fuel event p (Event.nextBin eh);
        r ← insertBefore event f.2;
        update f.1 (λ e, Event.with_nextBin e (Some r))
  end.

(** [while (event != next) { if (!next) panic; curr = next; next = next->nextInBin; }] *)
Fixpoint find_in_bin (fuel : nat) (event curr : nat) (next : option nat) : prog t (nat * nat) :=
  match fuel with
  | O => raise OutOfFuel
  | S fuel =>
      match next with
      | None => raise PanicFault
      | Some n =>
          if decide (n = event) then mret (curr, n)
          else e ← load n; find_in_bin fuel event n (Event.nextInBin e)
      end
  end.

Definition removeItem (event top : nat) : prog t (option nat) :=
  e ← load top;
  let next := Event.nextInBin e in
  if decide (event = top) then
    match next with
    | None => mret (Event.nextBin e)
    | Some n => _ ← update n (λ x, Event.with_nextBin x (Event.nextBin e)); mret next
    end
  else
    fuel ← gets fuel_of;
    f ← find_in_bin fuel event top next;
    en ← load f.2;
    _ ← update f.1 (λ x, Event.with_nextInBin x (Event.nextInBin en));
    mret (Some top).

Section queue.
(** The address of the queue. *)
Context (this : nat).

Definition remove (event : nat) : prog t unit :=
  h ← gets head;
  match h with
  | None => raise PanicFault
  | Some p =>
      e ← load event;
      _ ← check (bool_decide (Event.queue e = Some this));
      eh ← load p;
      if Event.eq eh e then r ← removeItem event p; modS (λ s, with_head s r)
      else
        fuel ← gets fuel_of;
        f ← find_bin fuel event p (Event.nextBin eh);
        match f.2 with
        | None => raise PanicFault
        | Some c =>
            ec ← load c;
            if Event.eq ec e then r ← removeItem event c; update f.1 (λ x, Event.with_nextBin x r)
            else raise PanicFault
        end
  end.

Definition asyncInsert (event : nat) : prog t unit := modS (λ s, with_async s (async_queue s ++ [event])).

(** [delete event]: the destructor asserts that it is not scheduled. *)
Definition delete_event (event : nat) : prog t unit :=
  e ← load event;
  _ ← check (negb (Event.scheduled e));
  modS (λ s, with_heap s (delete event (heap s))).

(** *** Scheduling *)

(** [parallel] is [inParallelMode], [mine] is [this == curEventQueue()]. *)
Definition schedule (parallel mine : bool) (event : nat) (when_ : Z) (global : bool) : prog t unit :=
  now ← gets _curTick;
  _ ← check (bool_decide (now ≤ when_));
  e ← load event;
  _ ← check (negb (Event.scheduled e));
  _ ← check (Event.initialized e);
  _ ← update event (Event.setWhen when_ this);
  _ ← (if parallel && (negb mine || global) then asyncInsert event else insert event);
  update event (Event.set_flag Event.Scheduled).

Definition deschedule (parallel mine : bool) (event : nat) : prog t unit :=
  e ← load event;
  _ ← check (Event.scheduled e);
  _ ← check (Event.initialized e);
  _ ← check (negb parallel || mine);
  _ ← remove event;
  _ ← update event (Event.clear_flag Event.Squashed);
  _ ← update event (Event.clear_flag Event.Scheduled);
  e ← load event;
  when (Event.isSet e Event.AutoDelete) (delete_event event).

Definition reschedule (parallel mine : bool) (event : nat) (when_ : Z) (always : bool) : prog t unit :=
  now ← gets _curTick;
  _ ← check (bool_decide (now ≤ when_));
  e ← load event;
  _ ← check (always || Event.scheduled e);
  _ ← check (Event.initialized e);
  _ ← check (negb parallel || mine);
  _ ← when (Event.scheduled e) (remove event);
  _ ← update event (Event.setWhen when_ this);
  _ ← insert event;
  _ ← update event (Event.clear_flag Event.Squashed);
  update event (Event.set_flag Event.Scheduled).

(** The events of other threads, in their order. *)
Definition handleAsyncInsertions (mine : bool) : prog t unit :=
  _ ← check mine;
  l ← gets async_queue;
  _ ← each insert l;
  modS (λ s, with_async s []).

(** [Event::unserialize] with the values of the checkpoint. *)
Definition unserialize (parallel mine : bool) (event : nat) (when_ priority flags_ : Z) : prog t unit :=
  e ← load event;
  _ ← when (Event.scheduled e) (deschedule parallel mine event);
  _ ← update event (λ e, Event.mk (Event.nextBin e) (Event.nextInBin e) when_ priority (Event.flags e) (Event.queue e));
  e ← load event;
  _ ← check (Event.initialized e);
  _ ← update event (λ e, Event.with_flags e (Z.lor flags_ Event.Initialized));
  e ← load event;
  let wasScheduled := Event.scheduled e && negb (Event.squashed e) in
  _ ← update event (Event.clear_flag (Z.lor Event.Squashed Event.Scheduled));
  when wasScheduled (schedule parallel mine event when_ false).

(** *** Service *)

Section service.
(** The virtual method of an event. *)
Context (process : nat → prog t unit).

(** [serviceOne], from [if (!event->squashed())] on: what is done with the event. *)
Definition handle (event : nat) : prog t (option nat) :=
  e ← load event;
  exit ← (if Event.squashed e then
            _ ← update event (Event.clear_flag Event.Squashed); mret false
          else
            _ ← modS (setCurTick (Event._when e));
            _ ← process event;
            e ← load event;
            if Event.isExitEvent e then
              _ ← check (negb (Event.isSet e Event.AutoDelete) || negb (Event.isSet e Event.IsMainQueue));
              mret true
            else mret false);
  if exit : bool then mret (Some event)
  else
    e ← load event;
    _ ← when (Event.isSet e Event.AutoDelete && negb (Event.scheduled e)) (delete_event event);
    mret None.

(** Returns the event if it ends the simulation. *)
Definition serviceOne : prog t (option nat) :=
  h ← gets head;
  match h with
  | None => raise NullDeref
  | Some event =>
      e ← load event;
      let next := Event.nextInBin e in
      _ ← update event (Event.clear_flag Event.Scheduled);
      _ ← match next with
          | Some n =>
              _ ← update n (λ x, Event.with_nextBin x (Event.nextBin e));
              modS (λ s, with_head s next)
          | None => modS (λ s, with_head s (Event.nextBin e))
          end;
      handle event
  end.

(** [while (!empty()) { if (nextTick() > when) break; serviceOne(); } setCurTick(when);] *)
Fixpoint serviceEvents (fuel : nat) (when_ : Z) : prog t unit :=
  match fuel with
  | O => raise OutOfFuel
  | S fuel =>
      b ← gets empty;
      if b : bool then modS (setCurTick when_)
      else
        n ← nextTick;
        if decide (when_ < n) then modS (setCurTick when_)
        else _ ← serviceOne; serviceEvents fuel when_
  end.

(** The loop of [doSimLoop], without signals. *)
Fixpoint sim_loop (fuel : nat) : prog t nat :=
  match fuel with
  | O => raise OutOfFuel
  | S fuel =>
      b ← gets empty;
      _ ← check (negb b);
      now ← gets _curTick;
      n ← nextTick;
      _ ← check (bool_decide (now ≤ n));
      r ← serviceOne;
      match r with Some event => mret event | None => sim_loop fuel end
  end.

Definition doSimLoop (fuel : nat) : prog t nat := _ ← handleAsyncInsertions true; sim_loop fuel.

End service.
End queue.

(** *** Inspection *)

(** The two nested loops over all events: [cur] in the bin whose top is [top].  The body gives
    the next value of its variables, or the result. *)
Fixpoint walk {A B} (body : A → nat → Event.t → A + B) (fuel : nat) (top : nat) (cur : option nat) (a : A)
    : prog t (A + B) :=
  match fuel with
  | O => raise OutOfFuel
  | S fuel =>
      match cur with
      | Some c =>
          e ← load c;
          match body a c e with
          | inl a => walk body fuel top (Event.nextInBin e) a
          | inr b => mret (inr b)
          end
      | None =>
          e ← load top;
          match Event.nextBin e with
          | Some b => walk body fuel b (Some b) a
          | None => mret (inl a)
          end
      end
  end.

Definition walk_all {A B} (body : A → nat → Event.t → A + B) (a : A) : prog t (A + B) :=
  h ← gets head;
  match h with
  | None => mret (inl a)
  | Some p => fuel ← gets (λ s, (2 * fuel_of s)%nat); walk body fuel p h a
  end.

(** Times, priorities, and no event twice. *)
Definition debugVerify : prog t bool :=
  r ← walk_all (λ (a : Z * Z * gset nat) p e,
        let '(time, priority, seen) := a in
        if decide (Event._when e < time) then inr false
        else if decide (Event._when e = time ∧ Event._priority e < priority) then inr false
        else if decide (p ∈ seen) then inr false
        else inl (Event._when e, Event._priority e, {[p]} ∪ seen)) (0, 0, ∅);
  mret (match r with inl _ => true | inr b => b end).

(** The events [serialize] writes, in their order. *)
Definition serialize : prog t (list nat) :=
  r ← walk_all (B := Empty_set) (λ l p e, inl (if Event.isSet e Event.AutoSerialize then l ++ [p] else l)) [];
  mret (match r with inl l => l | inr b => Empty_set_rect (λ _, list nat) b end).

(** The events [dump] prints, in their order. *)
Definition dump : prog t (list nat) :=
  r ← walk_all (B := Empty_set) (λ l p e, inl (l ++ [p])) [];
  mret (match r with inl l => l | inr b => Empty_set_rect (λ _, list nat) b end).

Definition replaceHead (p : option nat) : prog t (option nat) :=
  h ← gets head; _ ← modS (λ s, with_head s p); mret h.

End EventQueue.
