(* ===== verification/EventProofs.v ===== *)
(** * The event queue is a sorted list (proofs about [EventQueues])

    The pointers of a queue represent a list of bins, each a stack of events of one time and
    priority.  Insertion and removal change the list as they should, whatever stale pointers the
    events have. *)

From S2P Require Import Prelude Triples EventQueues.
Local Open Scope Z_scope.

(** ** Running programs *)

Lemma bind_run {S A B} (m : prog S A) (k : A → prog S B) s a s' : m s = Ok (a, s') → (m ≫= k) s = k a s'.
Proof. unfold mbind, prog_bind. by intros ->. Qed.

(** ** Times and priorities *)

Definition key : Type := Z * Z.
Definition klt (a b : key) : Prop := a.1 < b.1 ∨ (a.1 = b.1 ∧ a.2 < b.2).
#[export] Instance klt_dec a b : Decision (klt a b).
Proof. unfold klt. apply _. Defined.

Definition key_of (e : Event.t) : key := (Event._when e, Event._priority e).

Lemma event_lt l r : Event.lt l r = bool_decide (klt (key_of l) (key_of r)).
Proof.
  apply eq_true_iff_eq. unfold Event.lt, klt. rewrite orb_true_iff, andb_true_iff, !bool_decide_eq_true. done.
Qed.
Lemma event_le l r : Event.le l r = bool_decide (¬ klt (key_of r) (key_of l)).
Proof.
  apply eq_true_iff_eq. unfold Event.le, klt. rewrite orb_true_iff, andb_true_iff, !bool_decide_eq_true. cbn. lia.
Qed.
Lemma event_eq l r : Event.eq l r = bool_decide (key_of l = key_of r).
Proof.
  apply eq_true_iff_eq. unfold Event.eq, key_of. rewrite andb_true_iff, !bool_decide_eq_true. split; [intros [-> ->]|intros [=]]; done.
Qed.

Lemma klt_trans a b c : klt a b → klt b c → klt a c.
Proof. unfold klt. lia. Qed.
Lemma klt_irrefl a : ¬ klt a a.
Proof. unfold klt. lia. Qed.
Lemma klt_total a b : klt a b ∨ a = b ∨ klt b a.
Proof. destruct a as [x y], b as [x' y']. unfold klt. cbn. destruct (decide (x = x')), (decide (y = y')); subst; try lia. auto. Qed.
Lemma klt_ge_trans a b c : klt a b → ¬ klt c b → klt a c.
Proof. unfold klt. destruct (klt_total b c) as [H|[->|H]]; unfold klt in *; lia. Qed.

(** ** Bins *)

Section heap.
Implicit Types (h : gmap nat Event.t) (p q : option nat) (l : list nat) (bs : list (list nat)).

(** The stack below [p]. *)
Fixpoint stack h p l : Prop :=
  match l with
  | [] => p = None
  | e :: l => p = Some e ∧ ∃ ev, h !! e = Some ev ∧ stack h (Event.nextInBin ev) l
  end.

(** The bins from [p] to [q]. *)
Fixpoint seg h p bs q : Prop :=
  match bs with
  | [] => p = q
  | b :: bs => ∃ e l ev, b = e :: l ∧ p = Some e ∧ h !! e = Some ev ∧ stack h (Event.nextInBin ev) l ∧
      seg h (Event.nextBin ev) bs q
  end.

Lemma seg_app h bs1 bs2 : ∀ p q, seg h p (bs1 ++ bs2) q ↔ ∃ r, seg h p bs1 r ∧ seg h r bs2 q.
Proof.
  induction bs1 as [|b bs1 IH]; intros p q; cbn [app seg]; [naive_solver|].
  split.
  - intros (e & l & ev & -> & -> & He & Hs & H%IH). naive_solver.
  - intros (r & (e & l & ev & -> & -> & He & Hs & H1) & H2). exists e, l, ev. split_and!; try done. apply IH. eauto.
Qed.

(** The links of the representation are all that matters. *)
Lemma stack_frame h h' l : ∀ p,
  (∀ e, e ∈ l → Event.nextInBin <$> h' !! e = Event.nextInBin <$> h !! e) → stack h p l → stack h' p l.
Proof.
  induction l as [|e l IH]; intros p Hf; [done|]. intros [-> (ev & He & Hs)]. split; [done|].
  pose proof (Hf e ltac:(left)) as Hfe. rewrite He in Hfe. apply fmap_Some in Hfe as (ev' & He' & Hn).
  exists ev'. split; [done|]. rewrite <- Hn. apply IH; [|done]. intros x Hx. apply Hf. by right.
Qed.

Definition tops bs : list nat := omap head bs.

Lemma seg_frame h h' bs : ∀ p q,
  (∀ e, e ∈ concat bs → Event.nextInBin <$> h' !! e = Event.nextInBin <$> h !! e) →
  (∀ e, e ∈ tops bs → Event.nextBin <$> h' !! e = Event.nextBin <$> h !! e) → seg h p bs q → seg h' p bs q.
Proof.
  induction bs as [|b bs IH]; intros p q Hi Hb; [done|]. intros (e & l & ev & -> & -> & He & Hs & H).
  pose proof (Hi e ltac:(left)) as Hie. pose proof (Hb e ltac:(left)) as Hbe. rewrite He in Hie, Hbe.
  apply fmap_Some in Hie as (ev' & He' & Hn). rewrite He' in Hbe. injection Hbe as Hbn.
  exists e, l, ev'. split_and!; [done..| |].
  - rewrite <- Hn. eapply stack_frame; [|done]. intros x Hx. apply Hi. right. apply elem_of_app. by left.
  - rewrite Hbn. apply IH; [| |done]; intros x Hx; [apply Hi; right; apply elem_of_app; by right|apply Hb; by right].
Qed.

Lemma tops_concat bs e : e ∈ tops bs → e ∈ concat bs.
Proof.
  unfold tops. rewrite list_elem_of_omap. intros (b & Hb & Ht). apply list_elem_of_In, in_concat. exists b.
  rewrite <- !list_elem_of_In. split; [done|]. destruct b; [done|]. injection Ht as ->. left.
Qed.

(** What lies in a queue exists. *)
Lemma stack_in h l : ∀ p e, stack h p l → e ∈ l → is_Some (h !! e).
Proof.
  induction l as [|x l IH]; intros p e Hs; [by intros []%not_elem_of_nil|]. destruct Hs as [_ (ev & Hx & Hs)].
  intros [->|He]%elem_of_cons; [by eexists|by eapply IH].
Qed.
Lemma seg_in h bs : ∀ p q e, seg h p bs q → e ∈ concat bs → is_Some (h !! e).
Proof.
  induction bs as [|b bs IH]; intros p q e Hs; [by intros []%not_elem_of_nil|].
  destruct Hs as (x & l & ev & -> & _ & Hx & Hl & Hs). cbn [concat].
  intros [[->|He]%elem_of_cons|He]%elem_of_app; [by eexists|by eapply stack_in|by eapply IH].
Qed.

(** An update of an event outside of the segment, or of data other than the links. *)
Lemma seg_insert_out h p bs q e ev : e ∉ concat bs → seg h p bs q → seg (<[e := ev]> h) p bs q.
Proof.
  intros He. apply seg_frame; intros x Hx; rewrite lookup_insert_ne; try done; intros ->; [done|].
  by apply He, tops_concat.
Qed.

Lemma seg_insert_data h p bs q e ev ev' : h !! e = Some ev →
  Event.nextBin ev' = Event.nextBin ev → Event.nextInBin ev' = Event.nextInBin ev →
  seg h p bs q → seg (<[e := ev']> h) p bs q.
Proof.
  intros He Hb Hi. apply seg_frame; intros x _; (destruct (decide (x = e)) as [->|];
    [rewrite lookup_insert_eq, He; cbn; by f_equal|by rewrite lookup_insert_ne]).
Qed.

(** The top of the last bin gets another successor. *)
Lemma seg_relink h p bs e l q q' ev : NoDup (concat (bs ++ [e :: l])) → h !! e = Some ev →
  seg h p (bs ++ [e :: l]) q → seg (<[e := Event.with_nextBin ev q']> h) p (bs ++ [e :: l]) q'.
Proof.
  intros Hnd He. rewrite !seg_app. intros (r & H1 & e' & l' & ev' & [= <- <-] & -> & He' & Hs & _).
  rewrite He in He'. injection He' as <-. rewrite concat_app in Hnd. cbn [concat] in Hnd. rewrite app_nil_r in Hnd.
  apply NoDup_app in Hnd as (_ & Hd & Hnl). exists (Some e). split.
  - apply seg_insert_out; [|done]. intros Hin. apply (Hd e Hin). left.
  - exists e, l, (Event.with_nextBin ev q'). split_and!; [done|done|by rewrite lookup_insert_eq| |done].
    eapply stack_frame; [|exact Hs]. intros x Hx. rewrite lookup_insert_ne; [done|]. intros ->. by apply NoDup_cons in Hnl as [? _].
Qed.

(** There are not more bins, or events in a bin, than events. *)
Lemma count_heap h l : NoDup l → (∀ e, e ∈ l → is_Some (h !! e)) → (length l ≤ size h)%nat.
Proof.
  intros Hnd Hl. rewrite <- size_dom, <- (size_list_to_set (C := gset nat) l) by done. apply subseteq_size.
  intros e He%elem_of_list_to_set. by apply elem_of_dom, Hl.
Qed.
Lemma bins_le h p bs q : seg h p bs q → (length bs ≤ length (concat bs))%nat.
Proof.
  revert p. induction bs as [|b bs IH]; intros p; [done|]. intros (e & l & ev & -> & _ & _ & _ & Hs).
  cbn [concat length]. rewrite length_app. cbn. specialize (IH _ Hs). lia.
Qed.

End heap.

(** ** Insertion *)

Import EventQueue.

(** The time and priority of an event. *)
Definition K (h : gmap nat Event.t) (e : nat) : key := default (0, 0) (key_of <$> h !! e).

(** Everything but the links. *)
Definition data (e : Event.t) : Z * Z * Z * option nat :=
  (Event._when e, Event._priority e, Event.flags e, Event.queue e).
Definition same_data (h h' : gmap nat Event.t) : Prop := ∀ x, data <$> h' !! x = data <$> h !! x.

Lemma K_eq h e ev : h !! e = Some ev → K h e = key_of ev.
Proof. intros He. unfold K. by rewrite He. Qed.
Lemma same_data_K h h' e : same_data h h' → K h' e = K h e.
Proof.
  intros Hd. specialize (Hd e). unfold K. destruct (h !! e) as [ev|], (h' !! e) as [ev'|]; try done.
  injection Hd as H1 H2 _ _. cbn. unfold key_of. by rewrite H1, H2.
Qed.
Lemma same_data_update h e ev ev' : h !! e = Some ev → data ev' = data ev → same_data h (<[e := ev']> h).
Proof.
  intros He Hd x. destruct (decide (x = e)) as [->|]; [|by rewrite lookup_insert_ne].
  rewrite lookup_insert_eq, He. cbn. by f_equal.
Qed.
#[export] Instance same_data_preorder : PreOrder same_data.
Proof. split; [by intros h x|]. intros h1 h2 h3 H12 H23 x. by rewrite H23. Qed.

Lemma load_Ok s p e s' : load p s = Ok (e, s') ↔ heap s !! p = Some e ∧ s' = s.
Proof. unfold load. by rewrite reads_Ok, from_option_or_Ok. Qed.

(** The parts of a queue that insertion and removal leave. *)
Definition frame (s s' : t) : Prop :=
  same_data (heap s) (heap s') ∧ _curTick s' = _curTick s ∧ async_queue s' = async_queue s.

Lemma load_run s p e : heap s !! p = Some e → load p s = Ok (e, s).
Proof. intros He. unfold load, Prelude.reads. by rewrite He. Qed.
Lemma update_run s p e f : heap s !! p = Some e → update p f s = Ok (tt, with_heap s (<[p := f e]> (heap s))).
Proof. intros He. unfold update. by rewrite (bind_run _ _ _ _ _ (load_run s p e He)). Qed.

Section bins.
Implicit Types (bs : list (list nat)).

(** Bins are ordered, and the events of a bin have the same key. *)
Definition ordered (k : nat → key) bs : Prop :=
  ForallOrdPairs (λ b b', ∀ x y, x ∈ b → y ∈ b' → klt (k x) (k y)) bs ∧
  Forall (λ b, ∀ x y, x ∈ b → y ∈ b → k x = k y) bs.

Definition repr (s : t) bs : Prop :=
  seg (heap s) (head s) bs None ∧ NoDup (concat bs) ∧ ordered (K (heap s)) bs.

(** All events of the bins have smaller keys, or none has. *)
Definition below (k : nat → key) (x : key) bs : Prop := ∀ e, e ∈ concat bs → klt (k e) x.
Definition not_below (k : nat → key) (x : key) bs : Prop := ∀ e, e ∈ concat bs → ¬ klt (k e) x.

(** From the top of the first bin on. *)
Lemma ordered_not_below k x y l bs : ordered k ((y :: l) :: bs) → ¬ klt (k y) x → not_below k x ((y :: l) :: bs).
Proof.
  intros [Ho Hs] Hy e. cbn [concat]. intros [He|He]%elem_of_app.
  - apply Forall_cons in Hs as [Hs _]. by rewrite (Hs e y He ltac:(left)).
  - intros Hlt. inversion_clear Ho as [|? ? Hb _]. rewrite Forall_forall in Hb.
    apply list_elem_of_In, in_concat in He as (b & Hbb & Hbe). rewrite <- !list_elem_of_In in *.
    specialize (Hb b Hbb y e ltac:(left) Hbe). apply Hy. by eapply klt_trans.
Qed.
Lemma ordered_app k bs1 bs2 : ordered k (bs1 ++ bs2) → ordered k bs1 ∧ ordered k bs2 ∧
  ∀ x y, x ∈ concat bs1 → y ∈ concat bs2 → klt (k x) (k y).
Proof.
  unfold ordered. rewrite Forall_app. intros [Ho [Hs1 Hs2]]. split_and!; try done.
  - clear Hs1 Hs2. induction bs1 as [|b bs1 IH]; [constructor|]. inversion_clear Ho as [|? ? Hb Hr].
    constructor; [|by apply IH]. by apply Forall_app in Hb as [Hb _].
  - by eapply ForallOrdPairs_app_r.
  - clear Hs1 Hs2. induction bs1 as [|b bs1 IH]; [by intros x y []%not_elem_of_nil|].
    cbn [app] in Ho. inversion_clear Ho as [|? ? Hb Hr]. apply Forall_app in Hb as [_ Hb].
    intros x y. cbn [concat]. intros [Hx|Hx]%elem_of_app Hy; [|by apply IH]. rewrite Forall_forall in Hb.
    apply list_elem_of_In, in_concat in Hy as (b' & Hb' & Hy). rewrite <- !list_elem_of_In in *. by apply (Hb b').
Qed.

(** The bins after an event was put in front of the first bins that are not below it. *)
Definition put_in (k : nat → key) (x : key) (e : nat) bs : list (list nat) :=
  match bs with
  | (y :: l) :: bs' => if decide (klt x (k y)) then [e] :: bs else (e :: y :: l) :: bs'
  | _ => [e] :: bs
  end.

Lemma put_in_concat k x e bs : concat (put_in k x e bs) = e :: concat bs.
Proof. destruct bs as [|[|y l] bs]; cbn; [done|done|]. by case_decide. Qed.

Lemma insertBefore_run s e ev curr bs : heap s !! e = Some ev → e ∉ concat bs → seg (heap s) curr bs None →
  ∃ s', insertBefore e curr s = Ok (e, s') ∧ seg (heap s') (Some e) (put_in (K (heap s)) (key_of ev) e bs) None ∧
    frame s s' ∧ head s' = head s ∧ ∀ x, x ≠ e → heap s' !! x = heap s !! x.
Proof.
  intros He Hn Hs. unfold insertBefore. rewrite (bind_run _ _ _ _ _ (load_run s e ev He)).
  assert (∀ nb nib b rest, stack (heap s) nib b → seg (heap s) nb rest None → e ∉ b → e ∉ concat rest →
    ∃ s', (_ ← update e (λ e, Event.with_nextInBin (Event.with_nextBin e nb) nib); mret e) s = Ok (e, s') ∧
      seg (heap s') (Some e) ((e :: b) :: rest) None ∧ frame s s' ∧ head s' = head s ∧
      ∀ x, x ≠ e → heap s' !! x = heap s !! x) as Hput.
  { intros nb nib b rest Hb Hr Hnb Hnr. rewrite (bind_run _ _ _ _ _ (update_run s e ev _ He)). eexists. split; [done|].
    cbn [heap head with_heap]. split_and!.
    - eexists e, b, _. split_and!; [done|done|by rewrite lookup_insert_eq| |].
      + eapply stack_frame; [|exact Hb]. intros x Hx. rewrite lookup_insert_ne; [done|]. by intros ->.
      + by apply seg_insert_out.
    - split_and!; [|done|done]. by eapply same_data_update.
    - done.
    - intros x Hx. by rewrite lookup_insert_ne. }
  destruct bs as [|b bs].
  - cbn in Hs. subst curr. by apply (Hput None None [] []).
  - destruct Hs as (y & l & ey & -> & -> & Hy & Hl & Hr). rewrite (bind_run _ _ _ _ _ (load_run s y ey Hy)).
    cbn [put_in]. rewrite (K_eq _ _ _ Hy), event_lt. cbn [concat] in Hn. apply not_elem_of_app in Hn as [Hn1 Hn2].
    destruct (decide (klt (key_of ev) (key_of ey))).
    + rewrite bool_decide_eq_true_2 by done.
      apply (Hput (Some y) None [] ((y :: l) :: bs)); [done| |by intros ?%not_elem_of_nil|by apply not_elem_of_app].
      by exists y, l, ey.
    + rewrite bool_decide_eq_false_2 by done. apply (Hput (Event.nextBin ey) (Some y) (y :: l) bs); try done. by split; [|exists ey].
Qed.

(** The walk over the bins stops at the first one that is not below the event. *)
Lemma find_bin_run s e ev p0 : heap s !! e = Some ev → ∀ suf fuel pre x l curr, (length suf < fuel)%nat →
  seg (heap s) p0 (pre ++ [x :: l]) curr → seg (heap s) curr suf None →
  (∀ y l', (y :: l') ∈ pre ++ [x :: l] → klt (K (heap s) y) (key_of ev)) →
  ∃ pre' x' l' suf' curr', find_bin fuel e x curr s = Ok ((x', curr'), s) ∧
    pre ++ (x :: l) :: suf = pre' ++ (x' :: l') :: suf' ∧
    seg (heap s) p0 (pre' ++ [x' :: l']) curr' ∧ seg (heap s) curr' suf' None ∧
    (∀ y l2, (y :: l2) ∈ pre' ++ [x' :: l'] → klt (K (heap s) y) (key_of ev)) ∧
    (suf' = [] ∨ ∃ y l2 suf2, suf' = (y :: l2) :: suf2 ∧ ¬ klt (K (heap s) y) (key_of ev)).
Proof.
  intros He. induction suf as [|b suf IH]; intros [|fuel] pre x l curr Hf H1 H2 Hlt; cbn [length] in Hf; try lia; cbn [find_bin].
  { cbn in H2. subst curr. exists pre, x, l, [], None. split_and!; try done. by left. }
  destruct H2 as (y & l2 & ey & -> & -> & Hy & Hl & Hr).
  rewrite (bind_run _ _ _ _ _ (load_run s y ey Hy)), (bind_run _ _ _ _ _ (load_run s e ev He)), event_lt.
  case_bool_decide as E.
  - destruct (IH fuel (pre ++ [x :: l]) y l2 (Event.nextBin ey)) as (pre' & x' & l' & suf' & curr' & Hrun & Heq & Hrest).
    + lia.
    + rewrite seg_app. exists (Some y). split; [done|]. exists y, l2, ey. by split_and!.
    + done.
    + intros z l3. rewrite elem_of_app. intros [Hz|Hz%list_elem_of_singleton]; [by eapply Hlt|].
      injection Hz as -> _. by rewrite (K_eq _ _ _ Hy).
    + exists pre', x', l', suf', curr'. split; [done|]. split; [|done]. by rewrite <- Heq, <- app_assoc.
  - exists pre, x, l, ((y :: l2) :: suf), (Some y). split_and!; try done.
    + by exists y, l2, ey.
    + right. exists y, l2, suf. split; [done|]. by rewrite (K_eq _ _ _ Hy).
Qed.

Lemma tops_below k x bs : ordered k bs → (∀ y l, (y :: l) ∈ bs → klt (k y) x) → below k x bs.
Proof.
  intros [_ Hs] Ht e He. apply list_elem_of_In, in_concat in He as (b & Hb & He). rewrite <- !list_elem_of_In in *.
  destruct b as [|y l]; [by apply not_elem_of_nil in He|]. rewrite Forall_forall in Hs.
  rewrite (Hs _ Hb e y He ltac:(left)). by eapply Ht.
Qed.

(** The bins of a queue as those below a key and the rest. *)
Lemma insert_run s bs e ev : repr s bs → heap s !! e = Some ev → e ∉ concat bs →
  ∃ s' bs1 bs2, insert e s = Ok (tt, s') ∧ frame s s' ∧ bs = bs1 ++ bs2 ∧
    below (K (heap s)) (key_of ev) bs1 ∧ not_below (K (heap s)) (key_of ev) bs2 ∧
    seg (heap s') (head s') (bs1 ++ put_in (K (heap s)) (key_of ev) e bs2) None.
Proof.
  intros (Hs & Hnd & Ho) He Hn. unfold insert. rewrite (bind_run _ _ _ _ _ (load_run s e ev He)).
  unfold gets. rewrite (bind_run _ _ s (head s) s) by done.
  destruct bs as [|b bs].
  { cbn in Hs. rewrite Hs. destruct (insertBefore_run s e ev None [] He Hn eq_refl) as (s' & Hrun & Hseg & Hfr & Hh & _).
    rewrite (bind_run _ _ _ _ _ Hrun). exists (with_head s' (Some e)), [], []. split_and!; try done; by intros x ?%not_elem_of_nil. }
  pose proof Hs as (y & l & ey & -> & Hhd & Hy & Hl & Hr). rewrite Hhd, (bind_run _ _ _ _ _ (load_run s y ey Hy)), event_le.
  case_bool_decide as E.
  - rewrite Hhd in Hs. destruct (insertBefore_run s e ev (Some y) ((y :: l) :: bs) He Hn Hs) as (s' & Hrun & Hseg & Hfr & Hh & _).
    rewrite (bind_run _ _ _ _ _ Hrun). exists (with_head s' (Some e)), [], ((y :: l) :: bs). split_and!; try done.
    + by intros x ?%not_elem_of_nil.
    + apply ordered_not_below; [done|]. by rewrite (K_eq _ _ _ Hy).
  - rewrite (bind_run _ _ s (fuel_of s) s) by done.
    destruct (find_bin_run s e ev (Some y) He bs (fuel_of s) [] y l (Event.nextBin ey))
      as (pre & x & l' & suf & curr & Hrun & Heq & H1 & H2 & Hlt & Hsuf).
    { unfold fuel_of. pose proof (bins_le _ _ _ _ Hr). cbn [concat] in Hnd.
      assert (length (concat bs) ≤ size (heap s))%nat; [|lia]. apply count_heap; [by apply NoDup_app in Hnd as (_ & _ & ?)|].
      intros z Hz. by eapply seg_in. }
    { by exists y, l, ey. }
    { done. }
    { intros z l2 Hz%list_elem_of_singleton. injection Hz as -> _. by rewrite (K_eq _ _ _ Hy). }
    rewrite (bind_run _ _ _ _ _ Hrun). cbn [fst snd]. cbn [app] in Heq. rewrite Heq in *.
    change ((x :: l') :: suf) with ([x :: l'] ++ suf) in *. rewrite app_assoc in *.
    rewrite concat_app in Hn, Hnd. apply not_elem_of_app in Hn as [Hn1 Hn2]. apply NoDup_app in Hnd as (Hnd1 & Hd & Hnd2).
    destruct (ordered_app _ _ _ Ho) as (Ho1 & Ho2 & Ho12).
    destruct (insertBefore_run s e ev curr suf He Hn2 H2) as (s' & Hrun' & Hseg & Hfr & Hh & Hoth).
    rewrite (bind_run _ _ _ _ _ Hrun').
    assert (x ∈ concat (pre ++ [x :: l'])) as Hxin.
    { rewrite concat_app. apply elem_of_app. right. cbn. left. }
    assert (x ≠ e) as Hxe by (by intros ->).
    destruct (seg_in _ _ _ _ _ H1 Hxin) as [ex Hex]. pose proof Hex as Hex'. rewrite <- Hoth in Hex' by done.
    rewrite (update_run s' x ex _ Hex'). eexists _, (pre ++ [x :: l']), suf. split; [done|]. split_and!.
    + destruct Hfr as (Hd' & Ht & Ha). split_and!; [|done|done]. etransitivity; [exact Hd'|].
      cbn [heap with_heap]. by eapply same_data_update.
    + done.
    + by apply tops_below.
    + destruct Hsuf as [->|(z & l2 & suf2 & -> & Hz)]; [by intros w ?%not_elem_of_nil|by apply ordered_not_below].
    + cbn [heap head with_heap]. rewrite Hh, Hhd. apply seg_app. exists (Some e). split.
      * eapply (seg_relink _ _ _ _ _ curr); [done|done|]. eapply seg_frame; [| |exact H1]; intros w Hw; rewrite Hoth; try done.
        -- by intros ->.
        -- intros ->. apply Hn1. by apply tops_concat.
      * apply seg_insert_out; [|done]. rewrite put_in_concat. rewrite elem_of_cons. intros [?|Hx2]; [done|]. by eapply Hd.
Qed.

Lemma ordered_join k bs1 bs2 : ordered k bs1 → ordered k bs2 →
  (∀ x y, x ∈ concat bs1 → y ∈ concat bs2 → klt (k x) (k y)) → ordered k (bs1 ++ bs2).
Proof.
  intros [Ho1 Hs1] [Ho2 Hs2] H. split; [|by apply Forall_app]. clear Hs1 Hs2.
  induction bs1 as [|b bs1 IH]; [done|]. inversion_clear Ho1 as [|? ? Hb Hr]. cbn [app]. constructor.
  - apply Forall_app. split; [done|]. apply Forall_forall. intros b' Hb' x y Hx Hy. apply H; [apply elem_of_app; by left|].
    apply list_elem_of_In, in_concat. exists b'. by rewrite <- !list_elem_of_In.
  - apply IH; [done|]. intros x y Hx Hy. apply H; [apply elem_of_app; by right|done].
Qed.

Lemma ordered_ext k k' bs : (∀ e, e ∈ concat bs → k' e = k e) → ordered k bs → ordered k' bs.
Proof.
  intros Hk [Ho Hs].
  assert (∀ b x, b ∈ bs → x ∈ b → k' x = k x) as H.
  { intros b x Hb Hx. apply Hk, list_elem_of_In, in_concat. exists b. by rewrite <- !list_elem_of_In. }
  split.
  - eapply ForallOrdPairs_mono; [|exact Ho]. intros b b' Hb Hb' HR x y Hx Hy. rewrite (H b), (H b') by done. by apply HR.
  - rewrite Forall_forall in Hs |- *. intros b Hb x y Hx Hy. rewrite !(H b) by done. by apply (Hs b).
Qed.

Lemma put_in_ordered h p q k e bs : seg h p bs q → ordered k bs → not_below k (k e) bs → ordered k (put_in k (k e) e bs).
Proof.
  intros Hseg Ho Hnb. assert (∀ bs', (∀ y, y ∈ concat bs' → klt (k e) (k y)) → ordered k bs' → ordered k ([e] :: bs')) as Hnew.
  { intros bs' Hlt Ho'. apply (ordered_join k [[e]]); [|done|].
    - split; [repeat constructor|]. repeat constructor. intros x y ->%list_elem_of_singleton ->%list_elem_of_singleton. done.
    - intros x y Hx. cbn in Hx. apply list_elem_of_singleton in Hx as ->. apply Hlt. }
  destruct bs as [|b bs]; [apply Hnew; [by intros y ?%not_elem_of_nil|done]|].
  destruct Hseg as (y & l & ey & -> & _). cbn [put_in]. destruct (ordered_app k [y :: l] bs Ho) as (Ho1 & Ho2 & Ho12).
  assert (∀ z, z ∈ y :: l → k z = k y) as Hsame.
  { intros z Hz. destruct Ho1 as [_ Hs]. apply Forall_cons in Hs as [Hs _]. apply Hs; [done|left]. }
  case_decide as E.
  - apply Hnew; [|done]. intros z. cbn [concat]. intros [Hz|Hz]%elem_of_app; [by rewrite (Hsame z)|].
    eapply klt_trans; [exact E|]. apply Ho12; [left|done].
  - assert (k e = k y) as Ek.
    { destruct (klt_total (k e) (k y)) as [?|[?|?]]; [done|done|]. exfalso. apply (Hnb y); [left|done]. }
    apply (ordered_join k [e :: y :: l]); [|done|].
    + split; [repeat constructor|]. constructor; [|constructor]. intros x z Hx Hz.
      assert (∀ w, w ∈ e :: y :: l → k w = k y) as Hw by (intros w [->|Hw]%elem_of_cons; [done|by apply Hsame]).
      by rewrite (Hw x Hx), (Hw z Hz).
    + intros x z Hx Hz. cbn in Hx. rewrite app_nil_r in Hx. apply elem_of_cons in Hx as [->|Hx].
      * rewrite Ek. apply Ho12; [left|done].
      * apply Ho12; [|done]. cbn. by rewrite app_nil_r.
Qed.

(** Where an event goes in the order of service: before the events that are not earlier. *)
Definition place (k : nat → key) (x : key) (e : nat) (l : list nat) : list nat :=
  filter (λ y, klt (k y) x) l ++ e :: filter (λ y, ¬ klt (k y) x) l.

Lemma filter_keep (P : nat → Prop) `{∀ x, Decision (P x)} (l : list nat) : (∀ x, x ∈ l → P x) → filter P l = l.
Proof.
  induction l as [|x l IH]; intros Hl; [done|]. rewrite filter_cons_True by (apply Hl; left). f_equal. apply IH.
  intros y Hy. apply Hl. by right.
Qed.
Lemma filter_drop (P : nat → Prop) `{∀ x, Decision (P x)} (l : list nat) : (∀ x, x ∈ l → ¬ P x) → filter P l = [].
Proof.
  induction l as [|x l IH]; intros Hl; [done|]. rewrite filter_cons_False by (apply Hl; left). apply IH.
  intros y Hy. apply Hl. by right.
Qed.

Lemma place_split k x e bs1 bs2 : below k x bs1 → not_below k x bs2 →
  place k x e (concat (bs1 ++ bs2)) = concat bs1 ++ e :: concat bs2.
Proof.
  intros H1 H2. unfold place. rewrite concat_app, !filter_app.
  rewrite (filter_keep _ (concat bs1)), (filter_drop _ (concat bs2)), app_nil_r; [|by intros y Hy; apply H2|by intros y Hy; apply H1].
  rewrite (filter_drop _ (concat bs1)), (filter_keep _ (concat bs2)); [done|by intros y Hy; apply H2|].
  intros y Hy Hn. apply Hn. by apply H1.
Qed.

(** [EventQueue::insert] on a well-formed queue. *)
Lemma insert_repr s bs e ev : repr s bs → heap s !! e = Some ev → e ∉ concat bs →
  ∃ s' bs', insert e s = Ok (tt, s') ∧ frame s s' ∧ repr s' bs' ∧
    concat bs' = place (K (heap s)) (key_of ev) e (concat bs).
Proof.
  intros Hr He Hn. destruct (insert_run s bs e ev Hr He Hn) as (s' & bs1 & bs2 & Hrun & Hfr & -> & Hb1 & Hb2 & Hseg).
  destruct Hr as (Hs & Hnd & Ho). exists s', (bs1 ++ put_in (K (heap s)) (key_of ev) e bs2). split; [done|]. split; [done|].
  rewrite place_split by done. rewrite concat_app, put_in_concat. split; [|done].
  rewrite concat_app in Hn, Hnd. destruct (ordered_app _ _ _ Ho) as (Ho1 & Ho2 & Ho12).
  apply not_elem_of_app in Hn as [Hn1 Hn2]. apply NoDup_app in Hnd as (Hnd1 & Hd & Hnd2).
  split; [done|]. split.
  - rewrite concat_app, put_in_concat. apply NoDup_app. split_and!; [done| |by constructor].
    intros x Hx [->|Hx2]%elem_of_cons; [done|]. by apply (Hd x).
  - apply (ordered_ext (K (heap s))); [intros x _; by apply same_data_K, Hfr|].
    apply seg_app in Hs as (r & _ & Hs2). rewrite <- (K_eq _ _ _ He) in *. apply ordered_join; [done|by eapply put_in_ordered|].
    intros x y Hx. rewrite put_in_concat. intros [->|Hy]%elem_of_cons; [by apply Hb1|by apply Ho12].
Qed.

(** ** Removal *)

(** The bins without an event that was in a bin with the others [l]. *)
Definition rest_bin (l : list nat) bs : list (list nat) := match l with [] => bs | _ => l :: bs end.

Lemma rest_bin_concat l bs : concat (rest_bin l bs) = l ++ concat bs.
Proof. by destruct l. Qed.

(** The walk down a bin to the event before the one looked for, which gets a new link. *)
Lemma find_in_bin_run s e ev l2 : heap s !! e = Some ev → ∀ l1 fuel c ec, heap s !! c = Some ec →
  (length l1 < fuel)%nat → stack (heap s) (Event.nextInBin ec) (l1 ++ e :: l2) → NoDup (c :: l1 ++ e :: l2) →
  ∃ c' ec', find_in_bin fuel e c (Event.nextInBin ec) s = Ok ((c', e), s) ∧ heap s !! c' = Some ec' ∧ c' ∈ c :: l1 ∧
    let h := <[c' := Event.with_nextInBin ec' (Event.nextInBin ev)]> (heap s) in
    ∃ ec2, h !! c = Some ec2 ∧ Event.nextBin ec2 = Event.nextBin ec ∧ stack h (Event.nextInBin ec2) (l1 ++ l2).
Proof.
  intros He. induction l1 as [|d l1 IH]; intros [|fuel] c ec Hc Hf Hs Hnd; cbn [length] in Hf; try lia; cbn [find_in_bin].
  - cbn [app] in Hs. destruct Hs as [-> (ev' & He' & Hs)]. rewrite He in He'. injection He' as <-. rewrite decide_True by done.
    exists c, ec. split_and!; [done|done|left|]. eexists. split; [by rewrite lookup_insert_eq|]. split; [done|].
    eapply stack_frame; [|exact Hs]. intros x Hx. rewrite lookup_insert_ne; [done|]. intros ->.
    apply NoDup_cons in Hnd as [Hnin _]. apply Hnin. right. done.
  - cbn [app] in Hs. destruct Hs as [Hn (ed & Hd & Hs)]. rewrite Hn.
    apply NoDup_cons in Hnd as [Hcn Hnd].
    rewrite decide_False by (intros ->; apply NoDup_cons in Hnd as [Hnin _]; apply Hnin; apply elem_of_app; right; left).
    rewrite (bind_run _ _ _ _ _ (load_run s d ed Hd)).
    destruct (IH fuel d ed Hd ltac:(lia) Hs Hnd) as (c' & ec' & Hrun & Hc' & Hin & ed2 & Hd2 & Hnb & Hs2).
    assert (c' ≠ c) as Hne.
    { intros ->. apply Hcn. apply elem_of_cons in Hin as [->|Hin]; [left|right; apply elem_of_app; by left]. }
    exists c', ec'. split_and!; [done|done|by right|]. exists ec. split; [by rewrite lookup_insert_ne|]. split; [done|].
    rewrite Hn. split; [done|]. by exists ed2.
Qed.

Lemma removeItem_run s e y l bs : seg (heap s) (Some y) ((y :: l) :: bs) None → NoDup (concat ((y :: l) :: bs)) → e ∈ y :: l →
  ∃ s' r l', removeItem e y s = Ok (r, s') ∧ frame s s' ∧ head s' = head s ∧
    (∀ x, x ∉ y :: l → heap s' !! x = heap s !! x) ∧ (∃ l1 l2, y :: l = l1 ++ e :: l2 ∧ l' = l1 ++ l2) ∧
    seg (heap s') r (rest_bin l' bs) None.
Proof.
  intros (y' & l' & ey & [= <- <-] & _ & Hy & Hl & Hr) Hnd Hin. unfold removeItem.
  rewrite (bind_run _ _ _ _ _ (load_run s y ey Hy)). cbn [concat] in Hnd. apply NoDup_app in Hnd as (Hnb & Hd & _).
  case_decide as E.
  - subst e. destruct l as [|n l].
    + cbn in Hl. rewrite Hl. exists s, (Event.nextBin ey), []. split_and!; try done. by exists [], [].
    + destruct Hl as [Hn (en & Hen & Hl)]. rewrite Hn. rewrite (bind_run _ _ _ _ _ (update_run s n en _ Hen)).
      eexists _, (Some n), (n :: l). split; [done|]. cbn [heap head with_heap].
      apply NoDup_cons in Hnb as [Hyn Hnl]. apply NoDup_cons in Hnl as [Hnl _]. split_and!.
      * split_and!; [|done|done]. by eapply same_data_update.
      * done.
      * intros x Hx. rewrite lookup_insert_ne; [done|]. intros ->. apply Hx. right. left.
      * by exists [], (n :: l).
      * exists n, l, (Event.with_nextBin en (Event.nextBin ey)). split_and!; [done|done|by rewrite lookup_insert_eq| |].
        -- eapply stack_frame; [|exact Hl]. intros x Hx. rewrite lookup_insert_ne; [done|]. by intros ->.
        -- apply seg_insert_out; [|done]. intros Hnr. apply (Hd n); [right; left|done].
  - apply elem_of_cons in Hin as [?|Hin]; [done|]. apply list_elem_of_split in Hin as (l1 & l2 & ->).
    unfold gets. rewrite (bind_run _ _ s (fuel_of s) s) by done.
    destruct (stack_in _ _ _ e Hl ltac:(apply elem_of_app; right; left)) as [ev He].
    destruct (find_in_bin_run s e ev l2 He l1 (fuel_of s) y ey Hy) as (c & ec & Hrun & Hc & Hcin & ey2 & Hy2 & Hnb2 & Hs2);
      [|done|done|].
    { unfold fuel_of. assert (length l1 ≤ size (heap s))%nat; [|lia]. apply count_heap.
      - apply NoDup_cons in Hnb as [_ Hnb]. by apply NoDup_app in Hnb as (? & _ & _).
      - intros x Hx. eapply stack_in; [exact Hl|]. apply elem_of_app. by left. }
    rewrite (bind_run _ _ _ _ _ Hrun). cbn [fst snd].
    rewrite (bind_run _ _ _ _ _ (load_run s e ev He)), (bind_run _ _ _ _ _ (update_run s c ec _ Hc)).
    eexists _, (Some y), (y :: l1 ++ l2). split; [done|]. cbn [heap head with_heap].
    assert (c ∈ y :: l1 ++ e :: l2) as Hcb.
    { apply elem_of_cons in Hcin as [->|Hcin]; [left|]. right. apply elem_of_app. by left. }
    split_and!.
    + split_and!; [|done|done]. by eapply same_data_update.
    + done.
    + intros x Hx. rewrite lookup_insert_ne; [done|]. by intros ->.
    + by exists (y :: l1), l2.
    + exists y, (l1 ++ l2), ey2. split_and!; [done|done|done|done|]. rewrite Hnb2. apply seg_insert_out; [|done].
      intros Hcr. by apply (Hd c).
Qed.

Lemma rest_ordered k pre l1 e l2 suf : NoDup (concat (pre ++ (l1 ++ e :: l2) :: suf)) → ordered k (pre ++ (l1 ++ e :: l2) :: suf) →
  NoDup (concat (pre ++ rest_bin (l1 ++ l2) suf)) ∧ ordered k (pre ++ rest_bin (l1 ++ l2) suf) ∧
  concat (pre ++ rest_bin (l1 ++ l2) suf) = filter (.≠ e) (concat (pre ++ (l1 ++ e :: l2) :: suf)).
Proof.
  intros Hnd Ho. rewrite !concat_app, rest_bin_concat. cbn [concat].
  rewrite concat_app in Hnd. cbn [concat] in Hnd.
  replace (concat pre ++ (l1 ++ e :: l2) ++ concat suf) with ((concat pre ++ l1) ++ e :: l2 ++ concat suf) in * by (by rewrite <- !app_assoc).
  assert (concat pre ++ (l1 ++ l2) ++ concat suf = (concat pre ++ l1) ++ l2 ++ concat suf) as -> by (by rewrite <- !app_assoc).
  pose proof Hnd as (_ & Hd & Hnd2)%NoDup_app. apply NoDup_cons in Hnd2 as [Hn2 _].
  split_and!.
  - eapply sublist_NoDup; [exact Hnd|]. apply sublist_app; [done|]. by apply sublist_cons.
  - destruct (ordered_app k pre _ Ho) as (Ho1 & Ho2 & Ho12). destruct (ordered_app k [_] suf Ho2) as (Hob & Ho3 & Hob3).
    destruct (decide (l1 ++ l2 = [])) as [E|E].
    { rewrite E. cbn. apply ordered_join; [done|done|]. intros x y Hx Hy. apply Ho12; [done|]. cbn. apply elem_of_app. by right. }
    assert (rest_bin (l1 ++ l2) suf = (l1 ++ l2) :: suf) as -> by (by destruct (l1 ++ l2)).
    assert (∀ x, x ∈ l1 ++ l2 → x ∈ l1 ++ e :: l2) as Hsub.
    { intros x. rewrite !elem_of_app, elem_of_cons. tauto. }
    apply ordered_join; [done| |].
    + apply (ordered_join k [_]); [|done|].
      * split; [repeat constructor|]. destruct Hob as [_ Hs]. apply Forall_cons in Hs as [Hs _]. constructor; [|constructor].
        intros x y Hx Hy. apply Hs; by apply Hsub.
      * intros x y Hx Hy. apply Hob3; [|done]. cbn in *. rewrite app_nil_r in *. by apply Hsub.
    + intros x y Hx Hy. apply Ho12; [done|]. cbn in *. apply elem_of_app. apply elem_of_app in Hy as [Hy|Hy]; [left; by apply Hsub|by right].
  - rewrite filter_app, filter_cons_False by auto. rewrite !filter_keep; [done| |].
    + intros x Hx ->. done.
    + intros x Hx ->. apply (Hd e Hx). left.
Qed.

(** The end of [remove], when the walk has found the bin before that of the event. *)
Lemma remove_found s e ev pre x l curr suf : heap s !! e = Some ev →
  seg (heap s) (head s) (pre ++ [x :: l]) curr → seg (heap s) curr suf None →
  NoDup (concat ((pre ++ [x :: l]) ++ suf)) → ordered (K (heap s)) ((pre ++ [x :: l]) ++ suf) →
  e ∈ concat ((pre ++ [x :: l]) ++ suf) →
  (∀ y l2, (y :: l2) ∈ pre ++ [x :: l] → klt (K (heap s) y) (key_of ev)) →
  (suf = [] ∨ ∃ y l2 suf2, suf = (y :: l2) :: suf2 ∧ ¬ klt (K (heap s) y) (key_of ev)) →
  ∃ s' c suf2 l1 l2 ec, curr = Some c ∧ heap s !! c = Some ec ∧ key_of ec = key_of ev ∧ suf = (l1 ++ e :: l2) :: suf2 ∧
    (r ← removeItem e c; update x (λ y, Event.with_nextBin y r)) s = Ok (tt, s') ∧ frame s s' ∧
    seg (heap s') (head s') ((pre ++ [x :: l]) ++ rest_bin (l1 ++ l2) suf2) None.
Proof.
  intros He H1 H2 Hnd Ho Hin Hbel Hsuf. destruct (ordered_app _ _ _ Ho) as (Ho1 & Ho2 & Ho12).
  assert (e ∉ concat (pre ++ [x :: l])) as Hn1.
  { intros H. apply (klt_irrefl (key_of ev)). rewrite <- (K_eq _ _ _ He) at 1. by apply (tops_below _ _ _ Ho1 Hbel). }
  rewrite concat_app in Hin, Hnd. apply elem_of_app in Hin as [?|Hin]; [done|]. apply NoDup_app in Hnd as (Hnd1 & Hd & Hnd2).
  destruct Hsuf as [->|(c & l2 & suf2 & -> & Hc)]; [by apply not_elem_of_nil in Hin|].
  pose proof H2 as (c' & l2' & ec & [= <- <-] & -> & Hec & Hl & Hr).
  destruct (ordered_app _ [c :: l2] suf2 Ho2) as (Hob & _ & Hob2).
  assert (e ∈ c :: l2) as Hb.
  { cbn [concat] in Hin. apply elem_of_app in Hin as [?|Hin]; [done|]. exfalso. apply Hc. rewrite <- (K_eq _ _ _ He).
    apply Hob2; [left|done]. }
  destruct (removeItem_run s e c l2 suf2 H2 Hnd2 Hb) as (s1 & r & l' & Hrun & Hfr & Hh & Hoth & (m1 & m2 & Heq & ->) & Hseg).
  assert (x ∈ concat (pre ++ [x :: l])) as Hxin.
  { rewrite concat_app. apply elem_of_app. right. cbn. left. }
  destruct (seg_in _ _ _ _ _ H1 Hxin) as [ex Hex].
  assert (∀ z, z ∈ concat (pre ++ [x :: l]) → heap s1 !! z = heap s !! z) as Hz.
  { intros z Hz. apply Hoth. intros Hzb. apply (Hd z Hz). cbn [concat]. apply elem_of_app. by left. }
  pose proof Hex as Hex1. rewrite <- Hz in Hex1 by done.
  eexists _, c, suf2, m1, m2, ec. split_and!; [done|done| |by rewrite Heq| | |].
  - rewrite <- (K_eq _ _ _ Hec), <- (K_eq _ _ _ He). destruct Hob as [_ Hsame].
    apply Forall_cons in Hsame as [Hsame _]. apply Hsame; [left|done].
  - rewrite (bind_run _ _ _ _ _ Hrun). by rewrite (update_run s1 x ex _ Hex1).
  - destruct Hfr as (Hd' & Ht & Ha). split_and!; [|done|done]. etransitivity; [exact Hd'|]. by eapply same_data_update.
  - cbn [heap head with_heap]. rewrite Hh. apply seg_app. exists r. split.
    + eapply (seg_relink _ _ _ _ _ (Some c)); [done|done|]. eapply seg_frame; [| |exact H1]; intros w Hw; rewrite Hz; try done.
      by apply tops_concat.
    + apply seg_insert_out; [|done]. rewrite rest_bin_concat. intros Hx2. apply (Hd x Hxin). cbn [concat]. rewrite Heq.
      rewrite !elem_of_app in *. rewrite elem_of_cons. tauto.
Qed.

(** [EventQueue::remove] of an event of a well-formed queue. *)
Lemma remove_repr this s bs e ev : repr s bs → e ∈ concat bs → heap s !! e = Some ev → Event.queue ev = Some this →
  ∃ s' bs', remove this e s = Ok (tt, s') ∧ frame s s' ∧ repr s' bs' ∧ concat bs' = filter (.≠ e) (concat bs).
Proof.
  intros (Hs & Hnd & Ho) Hin He Hq. unfold remove, gets. rewrite (bind_run _ _ s (head s) s) by done.
  destruct bs as [|b bs]; [by apply not_elem_of_nil in Hin|].
  pose proof Hs as (y & l & ey & -> & Hhd & Hy & Hl & Hr). rewrite Hhd, (bind_run _ _ _ _ _ (load_run s e ev He)).
  rewrite (bind_run _ _ s tt s) by (unfold check, lift; by rewrite Hq, bool_decide_eq_true_2).
  rewrite (bind_run _ _ _ _ _ (load_run s y ey Hy)), event_eq.
  destruct (ordered_app _ [y :: l] bs Ho) as (Ho1 & Ho2 & Ho12).
  assert (∀ s' pre suf b l1 l2, frame s s' → (y :: l) :: bs = pre ++ b :: suf → b = l1 ++ e :: l2 →
    seg (heap s') (head s') (pre ++ rest_bin (l1 ++ l2) suf) None →
    repr s' (pre ++ rest_bin (l1 ++ l2) suf) ∧
    concat (pre ++ rest_bin (l1 ++ l2) suf) = filter (.≠ e) (concat ((y :: l) :: bs))) as Hdone.
  { intros s' pre suf b l1 l2 Hfr Heq -> Hseg. rewrite Heq in Hnd, Ho |- *.
    destruct (rest_ordered _ _ _ _ _ _ Hnd Ho) as (H1 & H2 & H3). split; [|done]. split; [done|]. split; [done|].
    eapply ordered_ext; [|exact H2]. intros x _. by apply same_data_K, Hfr. }
  case_bool_decide as E.
  - assert (e ∈ y :: l) as Hb.
    { cbn [concat] in Hin. apply elem_of_app in Hin as [?|Hin]; [done|]. exfalso. apply (klt_irrefl (key_of ev)).
      rewrite <- E at 1. rewrite <- (K_eq _ _ _ Hy), <- (K_eq _ _ _ He). apply Ho12; [left|done]. }
    rewrite Hhd in Hs. destruct (removeItem_run s e y l bs Hs Hnd Hb) as (s' & r & l' & Hrun & Hfr & Hh & _ & (l1 & l2 & Heq & ->) & Hseg).
    rewrite (bind_run _ _ _ _ _ Hrun). eexists _, ([] ++ rest_bin (l1 ++ l2) bs). split; [done|]. split; [exact Hfr|].
    by apply (Hdone _ [] bs (y :: l) l1 l2).
  - rewrite (bind_run _ _ s (fuel_of s) s) by done.
    assert (e ∉ y :: l) as Hb.
    { intros Hb. apply E. rewrite <- (K_eq _ _ _ Hy), <- (K_eq _ _ _ He). destruct Ho1 as [_ Hsame].
      apply Forall_cons in Hsame as [Hsame _]. apply Hsame; [left|done]. }
    assert (klt (key_of ey) (key_of ev)) as Hlt.
    { cbn [concat] in Hin. apply elem_of_app in Hin as [?|Hin]; [done|]. rewrite <- (K_eq _ _ _ Hy), <- (K_eq _ _ _ He).
      apply Ho12; [left|done]. }
    destruct (find_bin_run s e ev (Some y) He bs (fuel_of s) [] y l (Event.nextBin ey))
      as (pre & x & l' & suf & curr & Hrun & Heq & H1 & H2 & Hbel & Hsuf).
    { unfold fuel_of. pose proof (bins_le _ _ _ _ Hr). cbn [concat] in Hnd.
      assert (length (concat bs) ≤ size (heap s))%nat; [|lia]. apply count_heap; [by apply NoDup_app in Hnd as (_ & _ & ?)|].
      intros z Hz. by eapply seg_in. }
    { by exists y, l, ey. }
    { done. }
    { intros z l2 Hz%list_elem_of_singleton. injection Hz as -> _. by rewrite (K_eq _ _ _ Hy). }
    rewrite (bind_run _ _ _ _ _ Hrun). cbn [fst snd]. cbn [app] in Heq.
    assert (pre ++ (x :: l') :: suf = (pre ++ [x :: l']) ++ suf) as Happ by (by rewrite <- app_assoc).
    rewrite <- Hhd in H1. rewrite Heq, Happ in Hnd, Ho, Hin.
    destruct (remove_found s e ev pre x l' curr suf He H1 H2 Hnd Ho Hin Hbel Hsuf)
      as (s' & c & suf2 & l1 & l2 & ec & -> & Hec & Hk & -> & Hrun' & Hfr & Hseg).
    rewrite (bind_run _ _ _ _ _ (load_run s c ec Hec)), event_eq, bool_decide_eq_true_2 by done. rewrite Hrun'.
    eexists _, _. split; [done|]. split; [done|]. apply (Hdone s' (pre ++ [x :: l']) suf2 (l1 ++ e :: l2) l1 l2); [done| |done|done].
    by rewrite Heq, <- app_assoc.
Qed.

End bins.

(** ** The invariant of a queue *)

Lemma isSet_set e a b : Event.isSet (Event.set_flag a e) b = Event.isSet e b || negb (bool_decide (Z.land a b = 0)).
Proof.
  unfold Event.isSet, Event.set_flag. cbn. rewrite Z.land_lor_distr_l. apply eq_true_iff_eq.
  rewrite orb_true_iff, !negb_true_iff, !bool_decide_eq_false, Z.lor_eq_0_iff. destruct (decide (Z.land (Event.flags e) b = 0)); tauto.
Qed.
Lemma isSet_clear e a b : Event.isSet (Event.clear_flag a e) b = Event.isSet e (Z.ldiff b a).
Proof.
  unfold Event.isSet, Event.clear_flag. cbn.
  assert (Z.land (Z.ldiff (Event.flags e) a) b = Z.land (Event.flags e) (Z.ldiff b a)) as ->; [|done].
  apply Z.bits_inj'. intros i _. rewrite !Z.land_spec, !Z.ldiff_spec. destruct (Z.testbit (Event.flags e) i), (Z.testbit b i), (Z.testbit a i); done.
Qed.
Lemma scheduled_set e : Event.scheduled (Event.set_flag Event.Scheduled e) = true.
Proof. unfold Event.scheduled. rewrite isSet_set. apply orb_true_r. Qed.
Lemma scheduled_clear e : Event.scheduled (Event.clear_flag Event.Scheduled e) = false.
Proof. unfold Event.scheduled. rewrite isSet_clear. unfold Event.isSet. cbn. by rewrite Z.land_0_r. Qed.
Lemma scheduled_other e a : Z.land a Event.Scheduled = 0 →
  Event.scheduled (Event.clear_flag a e) = Event.scheduled e ∧ Event.scheduled (Event.set_flag a e) = Event.scheduled e.
Proof.
  intros Ha. unfold Event.scheduled. rewrite isSet_set, isSet_clear, Ha, orb_false_r. split; [|done]. f_equal.
  apply Z.bits_inj'. intros i Hi. assert (Z.testbit (Z.land a Event.Scheduled) i = false) as H by (by rewrite Ha, Z.bits_0).
  rewrite Z.land_spec in H. rewrite Z.ldiff_spec. destruct (Z.testbit a i), (Z.testbit Event.Scheduled i); done.
Qed.

Section queue.
Context (this : nat).

(** The scheduled events are those in the queue, and none is in the past. *)
Definition agrees (tick : Z) (l : list nat) (h : gmap nat Event.t) : Prop :=
  ∀ e ev, h !! e = Some ev → (Event.scheduled ev = true ↔ e ∈ l) ∧
    (e ∈ l → Event.queue ev = Some this ∧ tick ≤ Event._when ev).

(** A queue whose events, in the order of service, are [l]. *)
Definition holds (s : t) (l : list nat) : Prop :=
  (∃ bs, repr s bs ∧ concat bs = l) ∧ agrees (_curTick s) l (heap s) ∧ async_queue s = [].

Lemma holds_in s l e : holds s l → e ∈ l → ∃ ev, heap s !! e = Some ev ∧ Event.scheduled ev = true ∧
  Event.queue ev = Some this ∧ _curTick s ≤ Event._when ev.
Proof.
  intros ((bs & (Hs & _) & <-) & Ha & _) He. destruct (seg_in _ _ _ _ _ Hs He) as [ev Hev]. exists ev.
  destruct (Ha e ev Hev) as [H1 H2]. split; [done|]. split; [by apply H1|by apply H2].
Qed.

Lemma agrees_frame tick l h h' : same_data h h' → agrees tick l h → agrees tick l h'.
Proof.
  intros Hd Ha e ev' He'. specialize (Hd e). rewrite He' in Hd. destruct (h !! e) as [ev|] eqn:He; [|done].
  injection Hd as H1 H2 H3 H4. specialize (Ha e ev He). unfold Event.scheduled, Event.isSet in *. by rewrite H1, H3, H4.
Qed.

(** An update of an event that leaves its links, and its key if it is in the queue. *)
Lemma repr_with_event s bs e ev ev' : repr s bs → heap s !! e = Some ev →
  Event.nextBin ev' = Event.nextBin ev → Event.nextInBin ev' = Event.nextInBin ev →
  (e ∈ concat bs → key_of ev' = key_of ev) → repr (with_heap s (<[e := ev']> (heap s))) bs.
Proof.
  intros (Hs & Hnd & Ho) He Hb Hi Hk. split; [|split; [done|]].
  - cbn. by eapply seg_insert_data.
  - eapply ordered_ext; [|exact Ho]. intros x Hx. unfold K. cbn. destruct (decide (x = e)) as [->|]; [|by rewrite lookup_insert_ne].
    rewrite lookup_insert_eq, He. cbn. by apply Hk.
Qed.

Lemma place_ext k k' x e l : (∀ y, y ∈ l → k' y = k y) → place k' x e l = place k x e l.
Proof.
  intros Hk. assert (∀ (P Q : nat → Prop) `{∀ y, Decision (P y)} `{∀ y, Decision (Q y)}, (∀ y, y ∈ l → P y ↔ Q y) → filter P l = filter Q l) as Hf.
  { clear Hk. induction l as [|y l IH]; intros P Q HP HQ HPQ; [done|]. rewrite !filter_cons.
    pose proof (HPQ y ltac:(left)). rewrite (IH P Q HP HQ (λ z Hz, HPQ z (list_elem_of_further _ _ _ Hz))). repeat case_decide; tauto. }
  unfold place. f_equal; [|f_equal]; apply Hf; intros y Hy; by rewrite Hk.
Qed.

Lemma elem_of_place k x e l y : y ∈ place k x e l ↔ y = e ∨ y ∈ l.
Proof.
  unfold place. rewrite elem_of_app, elem_of_cons, !list_elem_of_filter. destruct (decide (klt (k y) x)); naive_solver.
Qed.

Definition agrees_but (e : nat) (tick : Z) (l : list nat) (h : gmap nat Event.t) : Prop :=
  ∀ x ev, x ≠ e → h !! x = Some ev → (Event.scheduled ev = true ↔ x ∈ l) ∧
    (x ∈ l → Event.queue ev = Some this ∧ tick ≤ Event._when ev).

Lemma check_run b (s : t) : b = true → check b s = Ok (tt, s).
Proof. by intros ->. Qed.
Lemma gets_run {A} (f : t → A) s : gets f s = Ok (f s, s).
Proof. done. Qed.

Lemma agrees_but_frame e tick l h h' : same_data h h' → agrees_but e tick l h → agrees_but e tick l h'.
Proof.
  intros Hd Ha x ev' Hne He'. specialize (Hd x). rewrite He' in Hd. destruct (h !! x) as [ev|] eqn:He; [|done].
  injection Hd as H1 H2 H3 H4. specialize (Ha x ev Hne He). unfold Event.scheduled, Event.isSet in *. by rewrite H1, H3, H4.
Qed.
Lemma agrees_but_insert e tick l h ev : agrees_but e tick l h → agrees_but e tick l (<[e := ev]> h).
Proof. intros Ha x ev' Hne. rewrite lookup_insert_ne by done. by apply Ha. Qed.
Lemma agrees_but_list e tick l l' h : (∀ x, x ≠ e → x ∈ l ↔ x ∈ l') → agrees_but e tick l h → agrees_but e tick l' h.
Proof. intros Hl Ha x ev Hne He. rewrite <- !Hl by done. by apply Ha. Qed.

(** An event that is not in the queue gets its time and goes into it. *)
Lemma enter_run s bs e ev when_ : repr s bs → e ∉ concat bs → heap s !! e = Some ev →
  agrees_but e (_curTick s) (concat bs) (heap s) →
  ∃ s' bs' ev', (_ ← update e (Event.setWhen when_ this); insert e) s = Ok (tt, s') ∧ repr s' bs' ∧
    concat bs' = place (K (heap s)) (when_, Event._priority ev) e (concat bs) ∧
    heap s' !! e = Some ev' ∧ data ev' = data (Event.setWhen when_ this ev) ∧
    agrees_but e (_curTick s') (concat bs') (heap s') ∧ _curTick s' = _curTick s ∧ async_queue s' = async_queue s ∧
    (∀ x, x ≠ e → data <$> heap s' !! x = data <$> heap s !! x).
Proof.
  intros Hr Hn He Ha. rewrite (bind_run _ _ _ _ _ (update_run s e ev _ He)).
  set (s1 := with_heap s (<[e := Event.setWhen when_ this ev]> (heap s))).
  assert (repr s1 bs) as Hr1 by (by eapply repr_with_event).
  assert (heap s1 !! e = Some (Event.setWhen when_ this ev)) as He1 by (cbn; by rewrite lookup_insert_eq).
  destruct (insert_repr s1 bs e _ Hr1 He1 Hn) as (s' & bs' & Hrun & (Hd & Ht & Hq) & Hr' & Hc).
  assert (place (K (heap s1)) (when_, Event._priority ev) e (concat bs) = place (K (heap s)) (when_, Event._priority ev) e (concat bs)) as Hp.
  { apply place_ext. intros y Hy. unfold K. cbn. rewrite lookup_insert_ne; [done|]. by intros ->. }
  pose proof (Hd e) as He'. rewrite He1 in He'. cbn in He'. apply fmap_Some in He' as (ev' & He' & Hdata).
  exists s', bs', ev'. split_and!; [done|done|by rewrite Hc, <- Hp|done|done| |done|done|].
  - rewrite Ht. eapply agrees_but_frame; [exact Hd|]. cbn. apply agrees_but_insert. eapply agrees_but_list; [|exact Ha].
    intros x Hx. rewrite Hc, elem_of_place. naive_solver.
  - intros x Hx. rewrite Hd. cbn. by rewrite lookup_insert_ne.
Qed.

Lemma holds_update s bs e ev ev' : repr s bs → heap s !! e = Some ev →
  Event.nextBin ev' = Event.nextBin ev → Event.nextInBin ev' = Event.nextInBin ev → key_of ev' = key_of ev →
  agrees_but e (_curTick s) (concat bs) (heap s) → (Event.scheduled ev' = true ↔ e ∈ concat bs) →
  (e ∈ concat bs → Event.queue ev' = Some this ∧ _curTick s ≤ Event._when ev') → async_queue s = [] →
  holds (with_heap s (<[e := ev']> (heap s))) (concat bs).
Proof.
  intros Hr He Hb Hi Hk Ha Hsch Hq Hs. split; [exists bs; split; [by eapply repr_with_event|done]|]. split; [|done].
  intros x evx. cbn. destruct (decide (x = e)) as [->|Hne]; [|rewrite lookup_insert_ne by done; by apply Ha].
  rewrite lookup_insert_eq. by intros [= <-].
Qed.

Lemma agrees_but_intro e tick l h : agrees tick l h → agrees_but e tick l h.
Proof. intros Ha x ev _. apply Ha. Qed.

(** Scheduling an event that is not scheduled puts it in its place. *)
Lemma schedule_run s l e ev when_ : holds s l → heap s !! e = Some ev → Event.scheduled ev = false →
  Event.initialized ev = true → _curTick s ≤ when_ →
  ∃ s', schedule this false true e when_ false s = Ok (tt, s') ∧
    holds s' (place (K (heap s)) (when_, Event._priority ev) e l) ∧ _curTick s' = _curTick s ∧
    K (heap s') e = (when_, Event._priority ev) ∧ ∀ x, x ≠ e → data <$> heap s' !! x = data <$> heap s !! x.
Proof.
  intros ((bs & Hr & <-) & Ha & Has) He Hsch Hin Hw. unfold schedule.
  rewrite (bind_run _ _ _ _ _ (gets_run _ s)), (bind_run _ _ _ _ _ (check_run _ s (bool_decide_eq_true_2 _ Hw))).
  rewrite (bind_run _ _ _ _ _ (load_run s e ev He)), (bind_run _ _ s tt s) by (by rewrite Hsch).
  rewrite (bind_run _ _ _ _ _ (check_run _ s Hin)). cbn [andb].
  assert (e ∉ concat bs) as Hn by (intros Hb; apply (proj1 (Ha e ev He)) in Hb; congruence).
  destruct (enter_run s bs e ev when_ Hr Hn He (agrees_but_intro _ _ _ _ Ha))
    as (s1 & bs' & ev' & Hrun & Hr' & Hc & He' & Hd & Ha' & Ht & Hq & Hoth).
  apply prog_bind_Ok in Hrun as ([] & s0 & Hu & Hins).
  rewrite (bind_run _ _ _ _ _ Hu), (bind_run _ _ _ _ _ Hins), (update_run s1 e ev' _ He'). eexists. split; [done|].
  injection Hd as Hd1 Hd2 Hd3 Hd4. rewrite <- Hc. split_and!; [|done| |].
  - eapply holds_update; [done|exact He'|done|done|done|done| | |by rewrite Hq].
    + rewrite scheduled_set. split; [|done]. intros _. rewrite Hc, elem_of_place. by left.
    + intros _. cbn. rewrite Hd4, Hd1, Ht. done.
  - unfold K. cbn. rewrite lookup_insert_eq. cbn. unfold key_of. cbn. by rewrite Hd1, Hd2.
  - intros x Hx. cbn. rewrite lookup_insert_ne by done. by apply Hoth.
Qed.

Lemma leave_run s l e : holds s l → e ∈ l → ∃ s' bs' ev ev', remove this e s = Ok (tt, s') ∧ repr s' bs' ∧ concat bs' = filter (.≠ e) l ∧
  frame s s' ∧ heap s !! e = Some ev ∧ heap s' !! e = Some ev' ∧ data ev' = data ev ∧ e ∉ concat bs' ∧
  agrees_but e (_curTick s') (concat bs') (heap s').
Proof.
  intros Hh He. destruct (holds_in s l e Hh He) as (ev & Hev & _ & Hq & _). destruct Hh as ((bs & Hr & <-) & Ha & _).
  destruct (remove_repr this s bs e ev Hr He Hev Hq) as (s' & bs' & Hrun & Hfr & Hr' & Hc).
  destruct Hfr as (Hd & Ht & Hs). pose proof (Hd e) as Hev'. rewrite Hev in Hev'. cbn in Hev'. apply fmap_Some in Hev' as (ev' & Hev' & Hdata).
  exists s', bs', ev, ev'. split_and!; try done.
  - rewrite Hc, list_elem_of_filter. naive_solver.
  - rewrite Ht. eapply agrees_but_frame; [exact Hd|]. eapply agrees_but_list; [|apply agrees_but_intro, Ha].
    intros x Hx. rewrite Hc, list_elem_of_filter. naive_solver.
Qed.

Lemma holds_delete s l e : holds s l → e ∉ l → holds (with_heap s (delete e (heap s))) l.
Proof.
  intros ((bs & (Hs & Hnd & Ho) & <-) & Ha & Has) Hn. split; [|split; [|done]].
  - exists bs. split; [|done]. split; [|split; [done|]].
    + cbn. eapply seg_frame; [| |exact Hs]; intros x Hx; rewrite lookup_delete_ne; try done; intros ->; [done|].
      by apply Hn, tops_concat.
    + eapply ordered_ext; [|exact Ho]. intros x Hx. unfold K. cbn. rewrite lookup_delete_ne; [done|]. by intros ->.
  - intros x ev. cbn. rewrite lookup_delete_Some. intros [_ Hx]. by apply Ha.
Qed.

(** Descheduling takes the event out. *)
Lemma deschedule_run s l e ev : holds s l → heap s !! e = Some ev → Event.scheduled ev = true → Event.initialized ev = true →
  ∃ s', deschedule this false true e s = Ok (tt, s') ∧ holds s' (filter (.≠ e) l) ∧ _curTick s' = _curTick s ∧
    ∀ x, x ≠ e → data <$> heap s' !! x = data <$> heap s !! x.
Proof.
  intros Hh He Hsch Hin. unfold deschedule. rewrite (bind_run _ _ _ _ _ (load_run s e ev He)).
  rewrite (bind_run _ _ _ _ _ (check_run _ s Hsch)), (bind_run _ _ _ _ _ (check_run _ s Hin)).
  rewrite (bind_run _ _ s tt s) by done.
  assert (e ∈ l) as Hel by (destruct Hh as (_ & Ha & _); by apply (proj1 (Ha e ev He))).
  destruct (leave_run s l e Hh Hel) as (s1 & bs & ev0 & ev1 & Hrun & Hr & Hc & (Hd & Ht & Hs) & He0 & He1 & Hdata & Hn & Ha).
  rewrite He in He0. injection He0 as <-. rewrite (bind_run _ _ _ _ _ Hrun), (bind_run _ _ _ _ _ (update_run s1 e ev1 _ He1)).
  set (s2 := with_heap s1 _). set (ev2 := Event.clear_flag Event.Squashed ev1).
  assert (heap s2 !! e = Some ev2) as He2 by (cbn; by rewrite lookup_insert_eq).
  rewrite (bind_run _ _ _ _ _ (update_run s2 e ev2 _ He2)).
  set (s3 := with_heap s2 _). set (ev3 := Event.clear_flag Event.Scheduled ev2).
  assert (heap s3 !! e = Some ev3) as He3 by (cbn; by rewrite lookup_insert_eq).
  rewrite (bind_run _ _ _ _ _ (load_run s3 e ev3 He3)).
  assert (holds s3 (concat bs)) as Hh3.
  { eapply holds_update; [by eapply repr_with_event|exact He2|done|done|done| | |done|].
    - cbn. by apply agrees_but_insert.
    - rewrite scheduled_clear. by split.
    - cbn. rewrite Hs. by destruct Hh as (_ & _ & ?). }
  rewrite <- Hc. assert (∀ x, x ≠ e → data <$> heap s3 !! x = data <$> heap s !! x) as Hoth.
  { intros x Hx. cbn. rewrite !lookup_insert_ne by done. by apply Hd. }
  unfold when. destruct (Event.isSet ev3 Event.AutoDelete); [|exists s3; by split_and!].
  unfold delete_event. rewrite (bind_run _ _ _ _ _ (load_run s3 e ev3 He3)).
  rewrite (bind_run _ _ s3 tt s3) by (apply check_run; unfold ev3; by rewrite scheduled_clear).
  eexists. split; [done|]. split_and!; [by apply holds_delete|done|].
  intros x Hx. cbn. rewrite lookup_delete_ne by done. by apply Hoth.
Qed.

(** Rescheduling takes the event out, if it is in, and puts it in its new place. *)
Lemma reschedule_run s l e ev when_ always : holds s l → heap s !! e = Some ev →
  always || Event.scheduled ev = true → Event.initialized ev = true → _curTick s ≤ when_ →
  ∃ s', reschedule this false true e when_ always s = Ok (tt, s') ∧
    holds s' (place (K (heap s)) (when_, Event._priority ev) e (filter (.≠ e) l)) ∧ _curTick s' = _curTick s ∧
    K (heap s') e = (when_, Event._priority ev) ∧ ∀ x, x ≠ e → data <$> heap s' !! x = data <$> heap s !! x.
Proof.
  intros Hh He Hal Hin Hw. unfold reschedule.
  rewrite (bind_run _ _ _ _ _ (gets_run _ s)), (bind_run _ _ _ _ _ (check_run _ s (bool_decide_eq_true_2 _ Hw))).
  rewrite (bind_run _ _ _ _ _ (load_run s e ev He)), (bind_run _ _ _ _ _ (check_run _ s Hal)).
  rewrite (bind_run _ _ _ _ _ (check_run _ s Hin)), (bind_run _ _ s tt s) by done.
  assert (∃ s1 bs ev1, when (Event.scheduled ev) (remove this e) s = Ok (tt, s1) ∧ repr s1 bs ∧ concat bs = filter (.≠ e) l ∧
    frame s s1 ∧ heap s1 !! e = Some ev1 ∧ data ev1 = data ev ∧ e ∉ concat bs ∧
    agrees_but e (_curTick s1) (concat bs) (heap s1)) as (s1 & bs & ev1 & Hrun1 & Hr & Hc & (Hd & Ht & Hs) & He1 & Hdata & Hn & Ha).
  { pose proof Hh as ((bs & Hr & Hbs) & Ha & _). destruct (Event.scheduled ev) eqn:Hsch.
    - assert (e ∈ l) as Hel by (by apply (proj1 (Ha e ev He))).
      destruct (leave_run s l e Hh Hel) as (s1 & bs1 & ev0 & ev1 & H1 & H2 & H3 & H4 & He0 & H5).
      rewrite He in He0. injection He0 as <-. by exists s1, bs1, ev1.
    - assert (e ∉ l) as Hel by (intros Hb; apply (proj1 (Ha e ev He)) in Hb; congruence).
      exists s, bs, ev. subst l. split_and!; try done; [|by apply agrees_but_intro].
      rewrite filter_keep; [done|]. by intros x Hx ->. }
  rewrite (bind_run _ _ _ _ _ Hrun1).
  destruct (enter_run s1 bs e ev1 when_ Hr Hn He1 Ha) as (s2 & bs' & ev2 & Hrun & Hr' & Hc' & He2 & Hd2 & Ha' & Ht' & Hq & Hoth).
  apply prog_bind_Ok in Hrun as ([] & s0 & Hu & Hins).
  rewrite (bind_run _ _ _ _ _ Hu), (bind_run _ _ _ _ _ Hins), (bind_run _ _ _ _ _ (update_run s2 e ev2 _ He2)).
  set (s3 := with_heap s2 _). set (ev3 := Event.clear_flag Event.Squashed ev2).
  assert (heap s3 !! e = Some ev3) as He3 by (cbn; by rewrite lookup_insert_eq). rewrite (update_run s3 e ev3 _ He3).
  eexists. split; [done|]. injection Hdata as _ Hp _ _. injection Hd2 as Hd1 Hd2 Hd3 Hd4. rewrite Hp in Hc', Hd2.
  assert (concat bs' = place (K (heap s)) (when_, Event._priority ev) e (filter (.≠ e) l)) as Hc2.
  { rewrite Hc', Hc. apply place_ext. intros y _. by apply same_data_K. }
  rewrite <- Hc2. split_and!.
  - eapply holds_update; [by eapply repr_with_event|exact He3|done|done|done| | | |].
    + cbn. by apply agrees_but_insert.
    + rewrite scheduled_set. split; [|done]. intros _. rewrite Hc2, elem_of_place. by left.
    + intros _. cbn. rewrite Hd4, Hd1, Ht', Ht. done.
    + cbn. rewrite Hq, Hs. by destruct Hh as (_ & _ & ?).
  - cbn. by rewrite Ht', Ht.
  - unfold K. cbn. rewrite lookup_insert_eq. cbn. unfold key_of. cbn. by rewrite Hd1, Hd2.
  - intros x Hx. cbn. rewrite !lookup_insert_ne by done. rewrite Hoth by done. by apply Hd.
Qed.

(** ** Service *)

(** The first event comes out; what follows is [handle]. *)
Lemma serviceOne_run s e l : holds s (e :: l) →
  ∃ s' ev ev', heap s !! e = Some ev ∧ heap s' !! e = Some ev' ∧ key_of ev' = key_of ev ∧
    Event.flags ev' = Z.ldiff (Event.flags ev) Event.Scheduled ∧
    holds s' l ∧ e ∉ l ∧ _curTick s' = _curTick s ∧ same_data (<[e := ev']> (heap s)) (heap s') ∧
    ∀ process, serviceOne process s = handle process e s'.
Proof.
  intros Hh. destruct (holds_in s _ e Hh ltac:(left)) as (ev & He & Hsch & _ & _). destruct Hh as ((bs & (Hs & Hnd & Ho) & Hbs) & Ha & Has).
  destruct bs as [|b bs]; [done|]. pose proof Hs as (e' & b' & ev0 & -> & Hhd & He0 & Hst & Hr). cbn [concat app] in Hbs.
  injection Hbs as -> Hl. rewrite He in He0. injection He0 as <-.
  set (ev1 := Event.clear_flag Event.Scheduled ev). set (s1 := with_heap s (<[e := ev1]> (heap s))).
  assert (∀ s2, match Event.nextInBin ev with
      | Some n => _ ← update n (λ x, Event.with_nextBin x (Event.nextBin ev)); modS (λ s, with_head s (Event.nextInBin ev))
      | None => modS (λ s, with_head s (Event.nextBin ev)) end s1 = Ok (tt, s2) →
    ∀ process, serviceOne process s = handle process e s2) as Hsv.
  { intros s2 H2 process. unfold serviceOne. rewrite (bind_run _ _ _ _ _ (gets_run _ s)), Hhd, (bind_run _ _ _ _ _ (load_run s e ev He)).
    by rewrite (bind_run _ _ _ _ _ (update_run s e ev _ He)), (bind_run _ _ _ _ _ H2). }
  cbn [concat app] in Hnd. rewrite Hl in Hnd. apply NoDup_cons in Hnd as [Hn Hnd].
  destruct (ordered_app _ [e :: b'] bs Ho) as ([_ Ho1] & Ho2 & Ho12).
  assert (∀ s2 bs2, frame s1 s2 → seg (heap s2) (head s2) bs2 None → bs2 = rest_bin b' bs → heap s2 !! e = Some ev1 →
    holds s2 l) as Hdone.
  { intros s2 bs2 (Hd & Ht & Hq) Hseg -> He2. split; [|split; [|by rewrite Hq]].
    - exists (rest_bin b' bs). rewrite rest_bin_concat. split; [|done]. split; [done|]. rewrite rest_bin_concat, Hl. split; [done|].
      apply (ordered_ext (K (heap s))).
      + intros x Hx. rewrite rest_bin_concat, Hl in Hx. rewrite (same_data_K _ _ x Hd). unfold K. cbn.
        rewrite lookup_insert_ne; [done|]. by intros ->.
      + destruct b' as [|n b']; [done|]. apply (ordered_join _ [n :: b']); [|done|].
        * split; [repeat constructor|]. constructor; [|constructor]. apply Forall_cons in Ho1 as [Ho1 _].
          intros x y Hx Hy. apply Ho1; by right.
        * intros x y Hx Hy. apply Ho12; [|done]. cbn in *. rewrite app_nil_r in *. by right.
    - rewrite Ht. eapply agrees_frame; [exact Hd|]. intros x evx. cbn. destruct (decide (x = e)) as [->|Hne].
      + rewrite lookup_insert_eq. intros [= <-]. unfold ev1. rewrite scheduled_clear. by split.
      + rewrite lookup_insert_ne by done. intros Hx. destruct (Ha x evx Hx) as [H1 H2].
        assert (x ∈ l ↔ x ∈ e :: l) as -> by (rewrite elem_of_cons; naive_solver). done. }
  assert (heap s1 !! e = Some ev1) as He1 by (cbn; by rewrite lookup_insert_eq).
  destruct b' as [|n b'].
  - cbn in Hst. set (s2 := with_head s1 (Event.nextBin ev)).
    exists s2, ev, ev1. split_and!; try done; [|apply Hsv; by rewrite Hst].
    apply (Hdone s2 bs); [done| |done|done]. cbn. by apply (seg_insert_data _ _ _ _ _ ev).
  - destruct Hst as [Hnx (en & Hen & Hst)].
    assert (e ≠ n) as Hne by (intros ->; apply Hn; rewrite <- Hl; left).
    assert (heap s1 !! n = Some en) as Hen1 by (cbn; by rewrite lookup_insert_ne).
    set (s2 := with_head (with_heap s1 (<[n := Event.with_nextBin en (Event.nextBin ev)]> (heap s1))) (Some n)).
    assert (∀ process, serviceOne process s = handle process e s2) as Hsv2.
    { apply Hsv. rewrite Hnx. by rewrite (bind_run _ _ _ _ _ (update_run s1 n en _ Hen1)). }
    assert (same_data (heap s1) (heap s2)) as Hd2 by (by eapply same_data_update).
    assert (heap s2 !! e = Some ev1) as He2 by (cbn; by rewrite lookup_insert_ne).
    exists s2, ev, ev1. split_and!; try done. apply (Hdone s2 ((n :: b') :: bs)); [done| |done|done].
    exists n, b', (Event.with_nextBin en (Event.nextBin ev)). split_and!; [done|done|cbn; by rewrite lookup_insert_eq| |].
    + cbn [heap s2 with_head with_heap]. eapply stack_frame; [|exact Hst]. intros x Hx. cbn.
      rewrite <- Hl in Hn, Hnd. cbn [app] in Hnd. apply NoDup_cons in Hnd as [Hnn _].
      rewrite !lookup_insert_ne; [done| |]; intros ->; [apply Hn; cbn; right; apply elem_of_app; by left|apply Hnn; apply elem_of_app; by left].
    + cbn [heap s2 with_head with_heap]. apply seg_insert_out.
      * intros Hx. rewrite <- Hl in Hnd. cbn [app] in Hnd. apply NoDup_cons in Hnd as [Hnn _]. apply Hnn, elem_of_app. by right.
      * cbn. by apply (seg_insert_data _ _ _ _ _ ev).
Qed.

End queue.

(** ** Inspection *)

Section walks.
Context {A B : Type} (body : A → nat → Event.t → A + B).

(** The loop body over the events of a list. *)
Fixpoint visit (h : gmap nat Event.t) (a : A) (l : list nat) : A + B :=
  match l with
  | [] => inl a
  | c :: l =>
      match h !! c with
      | Some e => match body a c e with inl a => visit h a l | inr b => inr b end
      | None => inl a
      end
  end.

Lemma walk_stack s top l : ∀ fuel cur a, stack (heap s) cur l →
  walk body (length l + fuel) top cur a s =
  match visit (heap s) a l with inl a' => walk body fuel top None a' s | inr b => Ok (inr b, s) end.
Proof.
  induction l as [|c l IH]; intros fuel cur a Hs; [cbn in Hs; by subst|].
  destruct Hs as [-> (e & He & Hs)]. cbn [length Nat.add walk visit].
  rewrite (bind_run _ _ _ _ _ (load_run s c e He)), He. destruct (body a c e) as [a'|b]; [by apply IH|done].
Qed.

Lemma walk_bins s bs : ∀ fuel top l a, seg (heap s) (Some top) ((top :: l) :: bs) None →
  (length (concat ((top :: l) :: bs)) + length ((top :: l) :: bs) ≤ fuel)%nat →
  walk body fuel top (Some top) a s = Ok (visit (heap s) a (concat ((top :: l) :: bs)), s).
Proof.
  assert (∀ h l1 l2 a, (∀ x, x ∈ l1 → is_Some (h !! x)) →
    visit h a (l1 ++ l2) = match visit h a l1 with inl a' => visit h a' l2 | inr b => inr b end) as Happ.
  { intros h l1 l2. induction l1 as [|x l1 IH]; intros a Hin; [done|]. cbn [app visit].
    destruct (Hin x ltac:(left)) as [ex ->]. destruct (body a x ex); [|done]. apply IH. intros y Hy. apply Hin. by right. }
  induction bs as [|b bs IH]; intros fuel top l a (e & l' & ev & [= <- <-] & _ & He & Hst & Hr) Hf;
    cbn [concat] in *; rewrite length_app in Hf; rewrite Happ by
      (intros x Hx; eapply (stack_in _ (top :: l) (Some top)); [by split; [|exists ev]|done]).
  - cbn in Hf. replace fuel with (length (top :: l) + S (fuel - length (top :: l) - 1))%nat by (cbn; lia).
    rewrite walk_stack by (by split; [|exists ev]). destruct (visit (heap s) a (top :: l)) as [a'|]; [|done].
    cbn [walk]. rewrite (bind_run _ _ _ _ _ (load_run s top ev He)). cbn in Hr. by rewrite Hr.
  - cbn [length] in Hf. replace fuel with (length (top :: l) + S (fuel - length (top :: l) - 1))%nat by (cbn; lia).
    rewrite walk_stack by (by split; [|exists ev]). destruct (visit (heap s) a (top :: l)) as [a'|]; [|done].
    cbn [walk]. rewrite (bind_run _ _ _ _ _ (load_run s top ev He)).
    pose proof Hr as (e2 & l2 & ev2 & -> & Hnb & _). rewrite Hnb in Hr |- *. apply IH; [done|]. cbn in *. lia.
Qed.

Lemma walk_all_run s bs a : repr s bs → walk_all body a s = Ok (visit (heap s) a (concat bs), s).
Proof.
  intros (Hs & Hnd & _). unfold walk_all. rewrite (bind_run _ _ _ _ _ (gets_run _ s)).
  destruct bs as [|b bs]; [cbn in Hs; by rewrite Hs|]. pose proof Hs as (top & l & ev & -> & Hh & _). rewrite Hh in Hs |- *.
  rewrite (bind_run _ _ _ _ _ (gets_run _ s)). apply walk_bins; [done|].
  pose proof (bins_le _ _ _ _ Hs). assert (length (concat ((top :: l) :: bs)) ≤ size (heap s))%nat.
  { apply count_heap; [done|]. intros x Hx. by eapply seg_in. }
  unfold fuel_of. lia.
Qed.

End walks.

Lemma dump_run this s l : holds this s l → dump s = Ok (l, s).
Proof.
  intros ((bs & Hr & <-) & _). unfold dump. rewrite (bind_run _ _ _ _ _ (walk_all_run _ s bs [] Hr)).
  assert (∀ l1 l2, (∀ x, x ∈ l2 → is_Some (heap s !! x)) →
    visit (B := Empty_set) (λ l p (_ : Event.t), inl (l ++ [p])) (heap s) l1 l2 = inl (l1 ++ l2)) as Hv.
  { intros l1 l2. revert l1. induction l2 as [|x l2 IH]; intros l1 Hin; cbn [visit]; [by rewrite app_nil_r|].
    destruct (Hin x ltac:(left)) as [ex ->]. rewrite IH, <- app_assoc; [done|]. intros y Hy. apply Hin. by right. }
  rewrite Hv; [done|]. intros x Hx. destruct Hr as (Hs & _). by eapply seg_in.
Qed.

Lemma pairs_app {A} (R : A → A → Prop) l1 l2 : ForallOrdPairs R l1 → ForallOrdPairs R l2 →
  (∀ x y, x ∈ l1 → y ∈ l2 → R x y) → ForallOrdPairs R (l1 ++ l2).
Proof.
  intros H1 H2 H. induction H1 as [|x l1 Hx H1 IH]; [done|]. cbn [app]. constructor.
  - apply Forall_app. split; [done|]. apply Forall_forall. intros y Hy. apply H; [left|done].
  - apply IH. intros y z Hy Hz. apply H; [by right|done].
Qed.
Lemma pairs_all {A} (R : A → A → Prop) l : (∀ x y, x ∈ l → y ∈ l → R x y) → ForallOrdPairs R l.
Proof.
  induction l as [|x l IH]; intros H; constructor.
  - apply Forall_forall. intros y Hy. apply H; [left|by right].
  - apply IH. intros y z Hy Hz. apply H; by right.
Qed.

(** The list of a queue is in the order of the keys. *)
Lemma ordered_concat k bs : ordered k bs → ForallOrdPairs (λ x y, ¬ klt (k y) (k x)) (concat bs).
Proof.
  induction bs as [|b bs IH]; intros Ho; [constructor|]. destruct (ordered_app k [b] bs Ho) as ([_ Hs] & Ho2 & Ho12).
  cbn [concat]. apply Forall_cons in Hs as [Hs _]. cbn in Ho12. rewrite app_nil_r in Ho12. apply pairs_app; [|by apply IH|].
  - apply pairs_all. intros x y Hx Hy. rewrite (Hs x y Hx Hy). apply klt_irrefl.
  - intros x y Hx Hy Hlt. apply (klt_irrefl (k x)). eapply klt_trans; [by apply Ho12|exact Hlt].
Qed.

Lemma holds_sorted this s l : holds this s l → ForallOrdPairs (λ x y, ¬ klt (K (heap s) y) (K (heap s) x)) l ∧ NoDup l.
Proof. intros ((bs & (_ & Hnd & Ho) & <-) & _). split; [by apply ordered_concat|done]. Qed.

(** [debugVerify] accepts a queue unless its first event is due at tick 0 with a negative
    priority: the check starts from priority 0. *)
Lemma debugVerify_run this s l : holds this s l →
  debugVerify s = Ok (bool_decide (Forall (λ e, ¬ klt (K (heap s) e) (0, 0)) l), s).
Proof.
  intros Hh. destruct (holds_sorted this s l Hh) as [Ho Hnd]. destruct Hh as ((bs & Hr & <-) & _).
  unfold debugVerify. rewrite (bind_run _ _ _ _ _ (walk_all_run _ s bs _ Hr)). unfold mret, prog_ret.
  assert (∀ x, x ∈ concat bs → is_Some (heap s !! x)) as Hin by (intros x Hx; destruct Hr as (Hs & _); by eapply seg_in).
  revert Hin Ho Hnd. generalize (concat bs) as l. intros l Hin Ho Hnd.
  set (body := λ (a : Z * Z * gset nat) (p : nat) (e : Event.t), _).
  assert (∀ l time prio seen, (∀ x, x ∈ l → is_Some (heap s !! x)) → ForallOrdPairs (λ x y, ¬ klt (K (heap s) y) (K (heap s) x)) l →
    NoDup l → (∀ x, x ∈ l → x ∉ seen) →
    match visit body (heap s) (time, prio, seen) l with inl _ => true | inr b => b end =
    bool_decide (Forall (λ e, ¬ klt (K (heap s) e) (time, prio)) l)) as H; [|by rewrite (H l 0 0 ∅)].
  clear. induction l as [|x l IH]; intros time prio seen Hin Ho Hnd Hseen.
  { done. }
  destruct (Hin x ltac:(left)) as [ex Hx]. cbn [visit]. rewrite Hx. unfold body at 1. cbv zeta beta iota.
  inversion_clear Ho as [|? ? Hxl Ho']. rewrite Forall_forall in Hxl. apply NoDup_cons in Hnd as [Hnx Hnd].
  pose proof (K_eq _ _ _ Hx) as Kx.
  case_decide as E1; [|case_decide as E2].
  1,2: symmetry; apply bool_decide_eq_false_2; intros [H _]%Forall_cons; apply H; rewrite Kx; unfold klt, key_of; cbn; lia.
  rewrite decide_False by (apply Hseen; left). rewrite IH; [|by intros y Hy; apply Hin; right|done|done|].
  - apply bool_decide_ext. rewrite Forall_cons, Kx. split; intros H.
    + split; [unfold klt, key_of; cbn; lia|]. eapply Forall_impl; [exact H|]. intros e He. unfold klt in *. cbn in *. lia.
    + apply Forall_forall. intros e He. specialize (Hxl e He). by rewrite Kx in Hxl.
  - intros y Hy. rewrite elem_of_union, elem_of_singleton. intros [->|Hs]; [done|]. apply (Hseen y); [by right|done].
Qed.
