(* ===== verification/EventRuns.v ===== *)
(** * Runs of the event queue

    Whatever its clients do, from creation on, a queue is a list of events in the order of time
    and priority; what each operation does to that list, and when it stops instead. *)

From S2P Require Import Prelude EventQueues EventProofs.
Import EventQueue.
Local Open Scope Z_scope.

Section runs.
(** The queue, in a simulation with one queue. *)
Context (this : nat).

(** What a client does with a queue. *)
Inductive op : Type :=
  | Schedule (e : nat) (when_ : Z)
  | Deschedule (e : nat)
  | Reschedule (e : nat) (when_ : Z) (always : bool)
  | Squash (e : nat).

Definition target (o : op) : nat :=
  match o with Schedule e _ | Deschedule e | Reschedule e _ _ | Squash e => e end.

Definition perform (o : op) : prog t unit :=
  match o with
  | Schedule e when_ => schedule this false true e when_ false
  | Deschedule e => deschedule this false true e
  | Reschedule e when_ always => reschedule this false true e when_ always
  | Squash e => update e Event.squash
  end.

(** What the operations assert. *)
Definition allowed (o : op) (s : t) (ev : Event.t) : bool :=
  match o with
  | Schedule _ when_ => bool_decide (_curTick s ≤ when_) && negb (Event.scheduled ev) && Event.initialized ev
  | Deschedule _ => Event.scheduled ev && Event.initialized ev
  | Reschedule _ when_ always =>
      bool_decide (_curTick s ≤ when_) && (always || Event.scheduled ev) && Event.initialized ev
  | Squash _ => true
  end.

(** What they do to the events in the order of service. *)
Definition effect (o : op) (s : t) (ev : Event.t) (l : list nat) : list nat :=
  match o with
  | Schedule e when_ => place (K (heap s)) (when_, Event._priority ev) e l
  | Deschedule e => filter (.≠ e) l
  | Reschedule e when_ _ => place (K (heap s)) (when_, Event._priority ev) e (filter (.≠ e) l)
  | Squash _ => l
  end.

(** Setting flags other than the one for scheduled events. *)
Lemma flags_holds s l e ev f : holds this s l → heap s !! e = Some ev → Event.scheduled (Event.with_flags ev f) = Event.scheduled ev →
  holds this (with_heap s (<[e := Event.with_flags ev f]> (heap s))) l.
Proof.
  intros ((bs & Hr & <-) & Ha & Hs) He Hf. eapply holds_update; [done|exact He|done|done|done|by apply agrees_but_intro| | |done].
  - rewrite Hf. apply (Ha e ev He).
  - apply (Ha e ev He).
Qed.

Lemma perform_refines s l o ev : holds this s l → heap s !! target o = Some ev →
  if allowed o s ev then ∃ s', perform o s = Ok (tt, s') ∧ holds this s' (effect o s ev l) ∧ _curTick s' = _curTick s
  else perform o s = Err AssertFail.
Proof.
  intros Hh He. destruct o as [e when_|e|e when_ always|e]; cbn [allowed effect perform target] in *.
  - unfold schedule. rewrite (bind_run _ _ _ _ _ (gets_run _ s)). case_bool_decide as Hw; cbn [andb]; [|done].
    destruct (Event.scheduled ev) eqn:Hsch; cbn [negb andb].
    { rewrite (bind_run _ _ _ _ _ (check_run _ s eq_refl)), (bind_run _ _ _ _ _ (load_run s e ev He)), Hsch. done. }
    destruct (Event.initialized ev) eqn:Hin.
    + destruct (schedule_run this s l e ev when_ Hh He Hsch Hin Hw) as (s' & Hrun & Hh' & Ht & _). exists s'. split; [|done].
      unfold schedule in Hrun. rewrite (bind_run _ _ _ _ _ (gets_run _ s)), (bool_decide_eq_true_2 _ Hw) in Hrun. done.
    + rewrite (bind_run _ _ _ _ _ (check_run _ s eq_refl)), (bind_run _ _ _ _ _ (load_run s e ev He)), Hsch.
      rewrite (bind_run _ _ _ _ _ (check_run _ s eq_refl)), Hin. done.
  - destruct (Event.scheduled ev) eqn:Hsch, (Event.initialized ev) eqn:Hin; cbn [andb].
    + destruct (deschedule_run this s l e ev Hh He Hsch Hin) as (s' & Hrun & Hh' & Ht & _). by exists s'.
    + unfold deschedule. by rewrite (bind_run _ _ _ _ _ (load_run s e ev He)), Hsch, (bind_run _ _ _ _ _ (check_run _ s eq_refl)), Hin.
    + unfold deschedule. by rewrite (bind_run _ _ _ _ _ (load_run s e ev He)), Hsch.
    + unfold deschedule. by rewrite (bind_run _ _ _ _ _ (load_run s e ev He)), Hsch.
  - destruct (bool_decide_reflect (_curTick s ≤ when_)) as [Hw|Hw]; cbn [andb];
      [|unfold reschedule; by rewrite (bind_run _ _ _ _ _ (gets_run _ s)), bool_decide_eq_false_2].
    destruct (always || Event.scheduled ev) eqn:Hal; cbn [andb].
    2:{ unfold reschedule. rewrite (bind_run _ _ _ _ _ (gets_run _ s)), (bool_decide_eq_true_2 _ Hw).
        by rewrite (bind_run _ _ _ _ _ (check_run _ s eq_refl)), (bind_run _ _ _ _ _ (load_run s e ev He)), Hal. }
    destruct (Event.initialized ev) eqn:Hin.
    + destruct (reschedule_run this s l e ev when_ always Hh He Hal Hin Hw) as (s' & Hrun & Hh' & Ht & _). by exists s'.
    + unfold reschedule. rewrite (bind_run _ _ _ _ _ (gets_run _ s)), (bool_decide_eq_true_2 _ Hw).
      rewrite (bind_run _ _ _ _ _ (check_run _ s eq_refl)), (bind_run _ _ _ _ _ (load_run s e ev He)), Hal.
      by rewrite (bind_run _ _ _ _ _ (check_run _ s eq_refl)), Hin.
  - rewrite (update_run s e ev _ He). eexists. split; [done|]. split; [|done]. apply flags_holds; [done|done|].
    by apply (scheduled_other ev Event.Squashed).
Qed.

Lemma perform_missing s o : heap s !! target o = None → ∃ f, perform o s = Err f.
Proof.
  intros He. assert (load (target o) s = Err NullDeref) as Hl by (unfold load, reads; by rewrite He).
  destruct o as [e w|e|e w a|e]; cbn [perform target] in *.
  - unfold schedule. rewrite (bind_run _ _ _ _ _ (gets_run _ s)). case_bool_decide; [|by eexists].
    rewrite (bind_run _ _ _ _ _ (check_run _ s eq_refl)). unfold mbind, prog_bind. rewrite Hl. by eexists.
  - unfold deschedule, mbind, prog_bind. rewrite Hl. by eexists.
  - unfold reschedule. rewrite (bind_run _ _ _ _ _ (gets_run _ s)). case_bool_decide; [|by eexists].
    rewrite (bind_run _ _ _ _ _ (check_run _ s eq_refl)). unfold mbind, prog_bind. rewrite Hl. by eexists.
  - unfold update, mbind, prog_bind. rewrite Hl. by eexists.
Qed.

Lemma perform_holds s l o s' : holds this s l → perform o s = Ok (tt, s') → ∃ l', holds this s' l' ∧ _curTick s' = _curTick s.
Proof.
  intros Hh Hrun. destruct (heap s !! target o) as [ev|] eqn:He.
  - pose proof (perform_refines s l o ev Hh He) as H. destruct (allowed o s ev).
    + destruct H as (s2 & H & Hh2 & Ht). rewrite H in Hrun. injection Hrun as ->. eauto.
    + rewrite H in Hrun. done.
  - destruct (perform_missing s o He) as [f H]. by rewrite H in Hrun.
Qed.

(** The code of an event: any sequence of operations, which may depend on the state. *)
Definition process (script : nat → t → list op) (e : nat) : prog t unit := λ s, each perform (script e s) s.

Lemma each_holds os : ∀ s l u s', holds this s l → each perform os s = Ok (u, s') → ∃ l', holds this s' l' ∧ _curTick s' = _curTick s.
Proof.
  induction os as [|o os IH]; intros s l u s' Hh Hrun; [injection Hrun as _ <-; eauto|].
  cbn [each] in Hrun. apply prog_bind_Ok in Hrun as ([] & s1 & H1 & H2).
  destruct (perform_holds s l o s1 Hh H1) as (l1 & Hh1 & Ht1). destruct (IH s1 l1 u s' Hh1 H2) as (l' & Hh' & Ht'). exists l'.
  split; [done|]. by rewrite Ht'.
Qed.

(** Time goes to that of an event that no event of the queue precedes. *)
Lemma tick_holds s l when_ : holds this s l → (∀ x ev, x ∈ l → heap s !! x = Some ev → when_ ≤ Event._when ev) →
  holds this (setCurTick when_ s) l.
Proof.
  intros (Hr & Ha & Hs) Hw. split; [done|]. split; [|done]. intros x ev Hx. destruct (Ha x ev Hx) as [H1 H2]. split; [done|].
  intros Hin. split; [by apply H2|by eapply Hw].
Qed.

Lemma handle_holds script s l e ev r s' : holds this s l → heap s !! e = Some ev → _curTick s ≤ Event._when ev →
  (∀ x ev', x ∈ l → heap s !! x = Some ev' → Event._when ev ≤ Event._when ev') →
  handle (process script) e s = Ok (r, s') → ∃ l', holds this s' l' ∧ _curTick s ≤ _curTick s'.
Proof.
  intros Hh He Ht Hw. unfold handle. rewrite (bind_run _ _ _ _ _ (load_run s e ev He)).
  intros (exit & s1 & H1 & H2)%prog_bind_Ok.
  assert (∃ l1, holds this s1 l1 ∧ _curTick s ≤ _curTick s1) as (l1 & Hh1 & Ht1).
  { destruct (Event.squashed ev).
    - rewrite (bind_run _ _ _ _ _ (update_run s e ev _ He)) in H1. injection H1 as _ <-. exists l. split; [|done].
      apply flags_holds; [done|done|]. by apply (scheduled_other ev Event.Squashed).
    - rewrite (bind_run _ _ s tt (setCurTick (Event._when ev) s)) in H1 by done.
      apply prog_bind_Ok in H1 as (u & s2 & Hp & H1). apply prog_bind_Ok in H1 as (ev2 & s3 & Hl & H1).
      destruct (each_holds _ _ _ _ _ (tick_holds s l (Event._when ev) Hh Hw) Hp) as (l2 & Hh2 & Ht2).
      apply load_Ok in Hl as [_ ->]. exists l2.
      assert (s1 = s2) as ->; [|by split; [|rewrite Ht2]].
      destruct (Event.isExitEvent ev2); [|by injection H1]. apply prog_bind_Ok in H1 as ([] & s4 & Hc & H1).
      apply lift_Ok in Hc as [_ ->]. by injection H1. }
  destruct exit; [injection H2 as _ <-; eauto|]. apply prog_bind_Ok in H2 as (ev1 & s2 & [He1 ->]%load_Ok & H2).
  apply prog_bind_Ok in H2 as ([] & s3 & H3 & [= <- <-]). exists l1.
  unfold when in H3. destruct (Event.isSet ev1 Event.AutoDelete && negb (Event.scheduled ev1)) eqn:E; [|by injection H3 as <-].
  apply andb_true_iff in E as [_ Hns%negb_true_iff]. unfold delete_event in H3.
  rewrite (bind_run _ _ _ _ _ (load_run s1 e ev1 He1)), (bind_run _ _ s1 tt s1) in H3 by (apply check_run; by rewrite Hns).
  injection H3 as <-. split; [|done]. apply holds_delete; [done|]. intros Hin. destruct Hh1 as (_ & Ha & _).
  apply (proj1 (Ha e ev1 He1)) in Hin. congruence.
Qed.

(** ** Runs *)

(** Objects are created, clients use the queue, the simulation serves an event. *)
Inductive step (s : t) : t → Prop :=
  | step_new e ev : heap s !! e = None → Event.scheduled ev = false → step s (with_heap s (<[e := ev]> (heap s)))
  | step_op o s' : perform o s = Ok (tt, s') → step s s'
  | step_service script r s' : serviceOne (process script) s = Ok (r, s') → step s s'.

Definition reachable (s : t) : Prop := rtc step (create ∅) s.

Lemma new_holds s l e ev : holds this s l → heap s !! e = None → Event.scheduled ev = false →
  holds this (with_heap s (<[e := ev]> (heap s))) l.
Proof.
  intros ((bs & (Hs & Hnd & Ho) & <-) & Ha & Has) He Hsch.
  assert (e ∉ concat bs) as Hn by (intros Hin; destruct (seg_in _ _ _ _ _ Hs Hin); congruence).
  split; [|split; [|done]].
  - exists bs. split; [|done]. split; [by apply seg_insert_out|]. split; [done|]. eapply ordered_ext; [|exact Ho].
    intros x Hx. unfold K. cbn. rewrite lookup_insert_ne; [done|]. by intros ->.
  - intros x evx. cbn. destruct (decide (x = e)) as [->|]; [|rewrite lookup_insert_ne by done; apply Ha].
    rewrite lookup_insert_eq. intros [= <-]. rewrite Hsch. by split.
Qed.

(** The first event of a queue comes before the others, and not before the current time. *)
Lemma first_event s e l : holds this s (e :: l) → ∃ ev, heap s !! e = Some ev ∧ _curTick s ≤ Event._when ev ∧
  ∀ x ev', x ∈ l → heap s !! x = Some ev' → ¬ klt (key_of ev') (key_of ev).
Proof.
  intros Hh. destruct (holds_in this s _ e Hh ltac:(left)) as (ev & He & _ & _ & Ht). exists ev. split; [done|]. split; [done|].
  intros x ev' Hx Hx'. destruct (holds_sorted this s _ Hh) as [Ho _]. inversion_clear Ho as [|? ? H _].
  rewrite Forall_forall in H. specialize (H x Hx). by rewrite (K_eq _ _ _ He), (K_eq _ _ _ Hx') in H.
Qed.

Lemma service_holds script s l r s' : holds this s l → serviceOne (process script) s = Ok (r, s') →
  ∃ l', holds this s' l' ∧ _curTick s ≤ _curTick s'.
Proof.
  intros Hh Hrun. destruct l as [|e l].
  { destruct Hh as ((bs & (Hs & _) & Hbs) & _). destruct bs as [|b bs]; [|destruct Hs as (x & b' & ? & -> & _); done].
    cbn in Hs. unfold serviceOne in Hrun. by rewrite (bind_run _ _ _ _ _ (gets_run _ s)), Hs in Hrun. }
  destruct (first_event s e l Hh) as (ev0 & He0 & Ht & Hfirst).
  destruct (serviceOne_run this s e l Hh) as (s1 & ev & ev1 & He & He1 & Hk & _ & Hh1 & Hn & Ht1 & Hd & Hsv).
  rewrite He in He0. injection He0 as <-. injection Hk as Hk1 Hk2. rewrite Hsv in Hrun.
  destruct (handle_holds script s1 l e ev1 r s' Hh1 He1) as (l' & Hh' & Ht'); [by rewrite Ht1, Hk1| |done|exists l'; split; [done|lia]].
  intros x ev' Hx Hx'. pose proof (Hd x) as Hdx. rewrite lookup_insert_ne, Hx' in Hdx by (by intros ->).
  destruct (heap s !! x) as [evx|] eqn:Hxs; [|done]. injection Hdx as E1 E2 _ _. rewrite E1, Hk1.
  specialize (Hfirst x evx Hx Hxs). unfold klt, key_of in Hfirst. cbn in Hfirst. lia.
Qed.

Lemma step_holds s s' l : holds this s l → step s s' → ∃ l', holds this s' l' ∧ _curTick s ≤ _curTick s'.
Proof.
  intros Hh [e ev He Hs|o s2 Hrun|script r s2 Hrun].
  - exists l. split; [by apply new_holds|done].
  - destruct (perform_holds s l o s2 Hh Hrun) as (l' & Hh' & Ht). exists l'. split; [done|lia].
  - by eapply service_holds.
Qed.

Lemma reachable_holds s : reachable s → ∃ l, holds this s l.
Proof.
  unfold reachable. intros H. assert (∃ l, holds this (create ∅) l) as H0.
  { exists []. split; [|split; [|done]].
    - exists []. split; [|done]. split; [done|]. split; [constructor|]. split; constructor.
    - intros e ev He. change (heap (create ∅)) with (∅ : gmap nat Event.t) in He. by rewrite lookup_empty in He. }
  revert H0. induction H as [s|s1 s2 s3 H12 _ IH]; [done|]. intros [l Hl]. apply IH.
  destruct (step_holds s1 s2 l Hl H12) as (l' & Hl' & _). eauto.
Qed.

(** C19: the event queue, a list of stacks linked by pointers that go stale, is a list of events in
    the order of service.  In every state a queue reaches, whatever its clients and the code of
    its events do: scheduling puts the event behind those of smaller time or priority and in
    front of all others, descheduling takes it out, rescheduling does both, and nothing else
    changes.  An operation that is not allowed (a time in the past, an event that is already
    scheduled, or not) fails its assertion; none fails to find an event, follows a bad pointer
    or does not end. *)
Theorem event_queue_refines s o ev : reachable s → heap s !! target o = Some ev →
  ∃ l, dump s = Ok (l, s) ∧ NoDup l ∧
    if allowed o s ev then ∃ s', perform o s = Ok (tt, s') ∧ dump s' = Ok (effect o s ev l, s')
    else perform o s = Err AssertFail.
Proof.
  intros [l Hl]%reachable_holds He. exists l. split; [by eapply dump_run|]. split; [by eapply holds_sorted|].
  pose proof (perform_refines s l o ev Hl He) as H. destruct (allowed o s ev); [|done].
  destruct H as (s' & Hrun & Hh' & _). exists s'. split; [done|]. by eapply dump_run.
Qed.

(** C30: events are served in order.  In every state a queue reaches the next event is not in the
    past (the assertion of the simulation loop), no other event of the queue is due before it,
    and serving it takes it out and runs its code at its time, unless it was squashed. *)
Theorem events_served_in_order s : reachable s →
  ∃ l, dump s = Ok (l, s) ∧ (head s = None ↔ l = []) ∧
    ∀ e l', l = e :: l' → ∃ ev s1 ev1, heap s !! e = Some ev ∧ nextTick s = Ok (Event._when ev, s) ∧
      _curTick s ≤ Event._when ev ∧
      (∀ x evx, x ∈ l' → heap s !! x = Some evx → ¬ klt (key_of evx) (key_of ev)) ∧
      dump s1 = Ok (l', s1) ∧ heap s1 !! e = Some ev1 ∧ key_of ev1 = key_of ev ∧ Event.scheduled ev1 = false ∧
      ∀ code, serviceOne code s = handle code e s1.
Proof.
  intros [l Hl]%reachable_holds. exists l. split; [by eapply dump_run|]. split.
  { pose proof Hl as ((bs & (Hs & _) & Hbs) & _). destruct bs as [|b bs]; [by subst|].
    destruct Hs as (x & b' & ex & -> & Hh & _). rewrite Hh. subst l. done. }
  intros e l' ->. destruct (first_event s e l' Hl) as (ev & He & Ht & Hfirst).
  destruct (serviceOne_run this s e l' Hl) as (s1 & ev0 & ev1 & He0 & He1 & Hk & Hfl & Hh1 & Hn & _ & _ & Hsv).
  rewrite He in He0. injection He0 as <-. exists ev, s1, ev1. split_and!; try done.
  - pose proof Hl as ((bs & (Hs & _) & Hbs) & _). destruct bs as [|b bs]; [done|].
    destruct Hs as (x & b' & ex & -> & Hh & Hx & _). injection Hbs as -> _. rewrite He in Hx. injection Hx as <-.
    unfold nextTick. by rewrite (bind_run _ _ _ _ _ (gets_run _ s)), Hh, (bind_run _ _ _ _ _ (load_run s e ev He)).
  - by eapply dump_run.
  - destruct (Event.scheduled ev1) eqn:E; [|done]. destruct Hh1 as (_ & Ha & _). by apply (proj1 (Ha e ev1 He1)) in E.
Qed.

(** [debugVerify] finds a queue in order, in every state it reaches, unless its first event is
    due at tick 0 with a negative priority: the comparison starts from tick 0 and priority 0, and
    so it rejects a queue that is in order. *)
Theorem debugVerify_exact s : reachable s → ∃ l, dump s = Ok (l, s) ∧
  debugVerify s = Ok (bool_decide (Forall (λ e, ¬ klt (K (heap s) e) (0, 0)) l), s).
Proof. intros [l Hl]%reachable_holds. exists l. split; [by eapply dump_run|by eapply debugVerify_run]. Qed.

End runs.

(** ** Witnesses *)

(** Four events; three of them are scheduled, two at the same time. *)
Definition event (priority : Z) : Event.t := get_Ok (Event.create priority 0) eq_refl.
Definition demo_events : t :=
  with_heap (create ∅) (<[4%nat := event (-1)]> (<[3%nat := event 0]> (<[2%nat := event 0]> (<[1%nat := event 0]> ∅)))).
Definition demo_queue : t :=
  get_Ok (r ← each (perform 0) [Schedule 1 10; Schedule 2 5; Schedule 3 10] demo_events; Ok r.2) eq_refl.

Lemma demo_events_reachable : reachable 0 demo_events.
Proof.
  eapply rtc_l; [apply (step_new _ _ 1 (event 0)); by vm_compute|].
  eapply rtc_l; [apply (step_new _ _ 2 (event 0)); by vm_compute|].
  eapply rtc_l; [apply (step_new _ _ 3 (event 0)); by vm_compute|].
  eapply rtc_l; [apply (step_new _ _ 4 (event (-1))); by vm_compute|]. apply rtc_refl.
Qed.
Lemma demo_queue_reachable : reachable 0 demo_queue.
Proof.
  unfold reachable. etransitivity; [exact demo_events_reachable|].
  eapply rtc_l; [apply (step_op _ _ (Schedule 1 10)); vm_compute; reflexivity|].
  eapply rtc_l; [apply (step_op _ _ (Schedule 2 5)); vm_compute; reflexivity|].
  eapply rtc_l; [apply (step_op _ _ (Schedule 3 10)); vm_compute; reflexivity|].
  assert (∀ s s', s = s' → rtc (step 0) s s') as H by (by intros s s' ->). apply H. by vm_compute.
Qed.

Lemma event_queue_refines_witness :
  dump demo_queue = Ok ([2; 3; 1]%nat, demo_queue) ∧
  ∃ l, dump demo_queue = Ok (l, demo_queue) ∧ NoDup l ∧
    ∃ s', perform 0 (Reschedule 3 5 false) demo_queue = Ok (tt, s') ∧ dump s' = Ok ([3; 2; 1]%nat, s').
Proof.
  split; [by vm_compute|]. assert (∃ ev, heap demo_queue !! 3%nat = Some ev) as [ev He] by (eexists; by vm_compute).
  destruct (event_queue_refines 0 demo_queue (Reschedule 3 5 false) ev demo_queue_reachable He) as (l & Hl & Hnd & H).
  exists l. split; [done|]. split; [done|]. assert (l = [2; 3; 1]%nat) as -> by (vm_compute in Hl; by injection Hl).
  vm_compute in He. injection He as <-. exact H.
Defined.

Lemma events_served_in_order_witness :
  ∃ ev s1, heap demo_queue !! 2%nat = Some ev ∧ Event._when ev = 5 ∧ dump s1 = Ok ([3; 1]%nat, s1) ∧
    serviceOne (process 0 (λ _ _, [])) demo_queue = handle (process 0 (λ _ _, [])) 2 s1.
Proof.
  destruct (events_served_in_order 0 demo_queue demo_queue_reachable) as (l & Hl & _ & H).
  assert (l = [2; 3; 1]%nat) as -> by (vm_compute in Hl; by injection Hl).
  destruct (H 2%nat [3; 1]%nat eq_refl) as (ev & s1 & ev1 & He & _ & _ & _ & Hd & _ & _ & _ & Hs).
  exists ev, s1. split; [done|]. split; [|by split]. vm_compute in He. by injection He as <-.
Defined.

(** An event at tick 0 with priority -1: the queue is in order, and [debugVerify] says it is not. *)
Definition demo_early : t := get_Ok (r ← perform 0 (Schedule 4 0) demo_events; Ok r.2) eq_refl.

Lemma debugVerify_exact_witness : ∃ l, dump demo_early = Ok (l, demo_early) ∧ l = [4%nat] ∧
  debugVerify demo_early = Ok (false, demo_early).
Proof.
  destruct (debugVerify_exact 0 demo_early) as (l & Hl & Hv).
  - eapply rtc_r; [exact demo_events_reachable|]. apply (step_op _ _ (Schedule 4 0)). by vm_compute.
  - assert (l = [4%nat]) as -> by (vm_compute in Hl; by injection Hl). exists [4%nat]. split; [done|]. split; [done|].
    rewrite Hv. by vm_compute.
Defined.
