(* ===== verification/FilterProofs.v ===== *)
(** * Bloom filters miss nothing (proofs about [Filters])

    The class [BloomLaws] says what a Bloom filter promises: an address that was put in is
    found, and stays so when other addresses and other filters are added.  Each class of
    [Filters] that keeps the promise has an instance.  Then what the others do. *)

From stdpp Require Import strings.
From S2P Require Import Prelude IntMath Addresses Filters.
Local Open Scope Z_scope.

(** ** Vectors *)

Section vectors.
Implicit Types (l : list Z) (i n : Z).

(** The element at an index is there and is not zero. *)
Definition marked l i : Prop := ∃ x, vget l i = Ok x ∧ x ≠ 0.

Lemma vget_in l i : 0 ≤ i < Z.of_nat (length l) → ∃ x, vget l i = Ok x.
Proof.
  intros Hi. destruct (lookup_lt_is_Some_2 l (Z.to_nat i)) as [x Hx]; [lia|]. exists x. apply vget_Ok. split; [lia|done].
Qed.

Lemma vset_in l i v : 0 ≤ i < Z.of_nat (length l) → vset l i v = Ok (<[Z.to_nat i := v]> l).
Proof. intros Hi. apply vset_Ok. done. Qed.

Lemma vget_insert l i j v : 0 ≤ i < Z.of_nat (length l) → 0 ≤ j →
  vget (<[Z.to_nat i := v]> l) j = if decide (j = i) then Ok v else vget l j.
Proof.
  intros Hi Hj. unfold vget. rewrite decide_True by lia. case_decide as E.
  - subst j. by rewrite list_lookup_insert_eq by lia.
  - rewrite list_lookup_insert_ne by lia. by rewrite decide_True by lia.
Qed.

(** Setting an element to one keeps what is marked. *)
Lemma mark_keeps l i j : 0 ≤ i < Z.of_nat (length l) → marked l j → marked (<[Z.to_nat i := 1]> l) j.
Proof.
  intros Hi (x & Hx & Hne). pose proof Hx as [Hj _]%vget_Ok. unfold marked. rewrite vget_insert by done.
  case_decide; [by exists 1|by exists x].
Qed.

Lemma mark_marks l i : 0 ≤ i < Z.of_nat (length l) → marked (<[Z.to_nat i := 1]> l) i.
Proof. intros Hi. exists 1. by rewrite vget_insert, decide_True by lia. Qed.

Lemma zeros_length n : length (zeros n) = Z.to_nat n.
Proof. apply length_replicate. Qed.

Lemma zeros_unmarked n i : ¬ marked (zeros n) i.
Proof.
  intros (x & Hx & Hne). apply vget_Ok in Hx as [_ Hx]. by apply lookup_replicate in Hx as [-> _].
Qed.

Lemma unmarked_zeros l n : Z.of_nat (length l) = n → (∀ i, ¬ marked l i) → l = zeros n.
Proof.
  intros <- Hu. unfold zeros. rewrite Nat2Z.id. apply list_eq. intros k. destruct (l !! k) as [x|] eqn:E.
  - rewrite lookup_replicate_2 by (by eapply lookup_lt_Some). destruct (decide (x = 0)) as [->|Hx]; [done|].
    destruct (Hu (Z.of_nat k)). exists x. split; [|done]. apply vget_Ok. rewrite Nat2Z.id. split; [lia|done].
  - symmetry. apply lookup_replicate_None. by apply lookup_ge_None.
Qed.

Lemma clear_vector_zeros l n : 0 ≤ n → Z.of_nat (length l) = n → clear_vector l n = Ok (zeros n).
Proof.
  intros Hn Hl. unfold clear_vector, zeros. rewrite <- Hl, Nat2Z.id. clear Hn Hl n.
  destruct (mfold_total (λ l' : list Z, length l' = length l) (λ l i, vset l i 0) (seqZ 0 (Z.of_nat (length l))) l)
    as (l' & Hl' & _); [|done|].
  { intros t i Hi%elem_of_seqZ Ht. rewrite vset_in by lia. eexists. split; [done|]. by rewrite length_insert. }
  rewrite Hl'. f_equal.
  assert (length l' = length l ∧ ∀ k : nat, (k < length l)%nat → l' !! k = Some 0) as [Hlen Hz].
  { revert Hl'. apply (mfold_seqZ (λ (n : nat) t, length t = length l ∧ ∀ k : nat, (k < n)%nat → t !! k = Some 0)).
    - intros k t t' Hk [Ht IH] [Hr ->]%vset_Ok. rewrite length_insert, Nat2Z.id. split; [done|]. intros j Hj.
      destruct (decide (j = k)) as [->|]; [apply list_lookup_insert_eq; lia|].
      rewrite list_lookup_insert_ne by done. apply IH. lia.
    - split; [done|lia]. }
  apply list_eq. intros k. destruct (decide (k < length l)%nat).
  - rewrite Hz by done. by rewrite lookup_replicate_2.
  - rewrite !lookup_ge_None_2; [done|rewrite length_replicate; lia|lia].
Qed.

(** A merge is the disjunction of the elements. *)
Lemma merge_vector_lookup l l' n : Z.of_nat (length l) = n → Z.of_nat (length l') = n →
  ∃ m, merge_vector l l' n = Ok m ∧ length m = length l ∧
    ∀ k : nat, m !! k = x ← l !! k; y ← l' !! k; Some (Z.lor x y).
Proof.
  intros Hl Hl'. unfold merge_vector. subst n.
  destruct (mfold_total (λ t : list Z, length t = length l)
    (λ t i, x ← vget t i; y ← vget l' i; vset t i (Z.lor x y)) (seqZ 0 (Z.of_nat (length l))) l) as (m & Hm & _); [|done|].
  { intros t i Hi%elem_of_seqZ Ht. destruct (vget_in t i) as [x ->]; [lia|]. destruct (vget_in l' i) as [y ->]; [lia|].
    cbn. rewrite vset_in by lia. eexists. split; [done|]. by rewrite length_insert. }
  exists m. split; [done|].
  assert (length m = length l ∧ ∀ k : nat, m !! k =
    if decide (k < length l)%nat then x ← l !! k; y ← l' !! k; Some (Z.lor x y) else l !! k) as [Hlen Hz].
  { refine (mfold_seqZ (λ (n : nat) (t : list Z), length t = length l ∧ ∀ k : nat, t !! k =
      if decide (k < n)%nat then x ← l !! k; y ← l' !! k; Some (Z.lor x y) else l !! k) _ (length l) l m _ _ Hm); [|done].
    intros k t t' Hk [Ht IH] (x & [_ Hx]%vget_Ok & (y & [_ Hy]%vget_Ok & [Hr ->]%vset_Ok)%bind_Ok)%bind_Ok.
    rewrite Nat2Z.id in *. rewrite length_insert. split; [done|]. intros j.
    rewrite IH, decide_False in Hx by lia.
    destruct (decide (j = k)) as [->|].
    - rewrite list_lookup_insert_eq, decide_True, Hx, Hy by lia. done.
    - rewrite list_lookup_insert_ne, IH by done. by repeat case_decide; try lia. }
  split; [done|]. intros k. rewrite Hz. case_decide; [done|]. by rewrite !lookup_ge_None_2 by lia.
Qed.

(** It marks what either filter has. *)
Lemma merge_vector_marks l l' n : Z.of_nat (length l) = n → Z.of_nat (length l') = n →
  ∃ m, merge_vector l l' n = Ok m ∧ length m = length l ∧ ∀ i, marked m i ↔ marked l i ∨ marked l' i.
Proof.
  intros Hl Hl'. destruct (merge_vector_lookup l l' n Hl Hl') as (m & Hm & Hlen & Hz).
  exists m. split_and!; [done|done|]. intros i. unfold marked. setoid_rewrite vget_Ok. setoid_rewrite Hz. split.
  - intros (x & [Hi Hx] & Hne). destruct (l !! _) as [u|]; [|done]. destruct (l' !! _) as [v|]; [|done].
    injection Hx as <-. rewrite Z.lor_eq_0_iff in Hne.
    destruct (decide (u = 0)); [right; exists v; naive_solver|left; exists u; naive_solver].
  - assert (∀ k : nat, is_Some (l !! k) ↔ is_Some (l' !! k)) as Hs by (intros k; rewrite !lookup_lt_is_Some; lia).
    intros [(x & [Hi Hx] & Hne)|(x & [Hi Hx] & Hne)]; destruct (Hs (Z.to_nat i)) as [H1 H2].
    + destruct H1 as [y Hy]; [by eexists|]. exists (Z.lor x y). rewrite Hx, Hy. cbn. rewrite Z.lor_eq_0_iff. naive_solver.
    + destruct H2 as [y Hy]; [by eexists|]. exists (Z.lor y x). rewrite Hx, Hy. cbn. rewrite Z.lor_eq_0_iff. naive_solver.
Qed.

(** The loops over hash functions whose indices are in range. *)
Lemma set_all_marks (index : Z → outcome Z) hashes l :
  (∀ i, 0 ≤ i < hashes → ∃ x, index i = Ok x ∧ 0 ≤ x < Z.of_nat (length l)) →
  ∃ l', MultiHash.set_all index hashes l = Ok l' ∧ length l' = length l ∧ (∀ j, marked l j → marked l' j) ∧
    ∀ i x, 0 ≤ i < hashes → index i = Ok x → marked l' x.
Proof.
  intros Hix. unfold MultiHash.set_all.
  destruct (mfold_total (λ t : list Z, length t = length l) (λ t i, idx ← index i; vset t idx 1) (seqZ 0 hashes) l)
    as (l' & Hl' & Hlen); [|done|].
  { intros t i Hi%elem_of_seqZ Ht. destruct (Hix i) as (x & -> & Hx); [lia|]. cbn. rewrite vset_in by lia.
    eexists. split; [done|]. by rewrite length_insert. }
  exists l'. split; [done|]. split; [done|].
  assert (∀ ks t t', (∀ i, i ∈ ks → 0 ≤ i < hashes) → length t = length l →
    mfold (λ t i, idx ← index i; vset t idx 1) t ks = Ok t' →
    (∀ j, marked t j → marked t' j) ∧ ∀ i x, i ∈ ks → index i = Ok x → marked t' x) as H.
  { induction ks as [|i ks IH]; intros t t' His Ht; cbn [mfold].
    { intros [= <-]. split; [done|]. intros i x []%not_elem_of_nil. }
    destruct (Hix i) as (x & Hx & Hr); [apply His, list_elem_of_here|]. rewrite Hx. cbn [mbind outcome_bind].
    rewrite vset_in by lia. cbn [mbind outcome_bind]. intros Hm.
    destruct (IH _ _ (λ i Hi, His i (list_elem_of_further _ _ _ Hi)) ltac:(by rewrite length_insert) Hm) as [H1 H2].
    split; [intros j Hj; apply H1, mark_keeps; [lia|done]|].
    intros k y [->|Hk]%elem_of_cons Hy; [|by eapply H2].
    rewrite Hx in Hy. injection Hy as <-. apply H1, mark_marks. lia. }
  destruct (H (seqZ 0 hashes) l l') as [H1 H2]; [intros i Hi%elem_of_seqZ; lia|done|done|]. split; [done|].
  intros i x Hi. apply H2. apply elem_of_seqZ. lia.
Qed.

Lemma all_set_marked (index : Z → outcome Z) hashes l :
  (∀ i, 0 ≤ i < hashes → ∃ x, index i = Ok x ∧ 0 ≤ x < Z.of_nat (length l)) →
  ∃ b, MultiHash.all_set index hashes l = Ok b ∧
    (b = true ↔ ∀ i x, 0 ≤ i < hashes → index i = Ok x → marked l x).
Proof.
  intros Hix. unfold MultiHash.all_set.
  assert (∀ ks b, (∀ i, i ∈ ks → 0 ≤ i < hashes) → ∃ b',
    mfold (λ (res : bool) i, idx ← index i; if res then x ← vget l idx; Ok (bool_decide (x ≠ 0)) else Ok false) b ks = Ok b' ∧
    (b' = true ↔ b = true ∧ ∀ i x, i ∈ ks → index i = Ok x → marked l x)) as H.
  { induction ks as [|i ks IH]; intros b His; cbn [mfold].
    { exists b. split; [done|]. split; [|by intros []]. intros ->. split; [done|]. intros i x []%not_elem_of_nil. }
    destruct (Hix i) as (x & Hx & Hr); [apply His, list_elem_of_here|]. rewrite Hx. cbn [mbind outcome_bind].
    destruct (vget_in l x) as [v Hv]; [done|].
    destruct (IH (b && bool_decide (v ≠ 0)) (λ i Hi, His i (list_elem_of_further _ _ _ Hi))) as (b' & Hb' & Hiff).
    exists b'. split; [by destruct b; cbn; rewrite ?Hv|]. rewrite Hiff, andb_true_iff, bool_decide_eq_true. split.
    - intros [[Hb Hne] H']. split; [done|]. intros k y [->|Hk]%elem_of_cons Hy; [|by eapply H'].
      rewrite Hx in Hy. injection Hy as <-. by exists v.
    - intros [Hb H']. split; [split; [done|]|]; [|intros k y Hk; apply H'; by right].
      destruct (H' i x (list_elem_of_here _ _) Hx) as (v' & Hv' & Hne). rewrite Hv in Hv'. by injection Hv' as <-. }
  destruct (H (seqZ 0 hashes) true) as (b & Hb & Hiff); [intros i Hi%elem_of_seqZ; lia|].
  exists b. split; [done|]. rewrite Hiff. setoid_rewrite elem_of_seqZ. rewrite Z.add_0_l. naive_solver.
Qed.

End vectors.

(** ** What a Bloom filter promises *)

(** [has f a]: all bits of address [a] are set.  [alike]: filters of the same configuration. *)
Class BloomLaws (F : Type) `{BloomFilter F} (ok : F → Prop) (alike : F → F → Prop) (has : F → Z → Prop) : Prop := {
  alike_equivalence : Equivalence alike;
  set_law f a : ok f → fits 64 a → ∃ f', set f a = Ok f' ∧ ok f' ∧ alike f f' ∧ has f' a ∧ ∀ b, has f b → has f' b;
  isSet_law f a : ok f → fits 64 a → ∃ b f', isSet f a = Ok (b, f') ∧ ok f' ∧ alike f f' ∧
    (b = true ↔ has f a) ∧ ∀ c, has f c → has f' c;
  merge_law f g : ok f → ok g → alike f g → ∃ f', merge f g = Ok f' ∧ ok f' ∧ alike f f' ∧ ∀ b, has f b → has f' b;
  clear_law f : ok f → ∃ f', clear f = Ok f' ∧ ok f' ∧ alike f f' ∧ ∀ a, fits 64 a → ¬ has f' a }.

(** *** Filters with one vector *)

Section one_vector.
Context {F : Type} `{BloomFilter F}.
Context (vec : F → list Z) (put : F → list Z → F) (index : F → Z → Z → outcome Z) (hashes : F → Z) (ok : F → Prop).
Context (vec_put : ∀ f l, vec (put f l) = l) (put_put : ∀ f l l', put (put f l) l' = put f l').
Context (index_put : ∀ f l, index (put f l) = index f) (hashes_put : ∀ f l, hashes (put f l) = hashes f).
Context (alike_index : ∀ f g, put f [] = put g [] → ok f → ok g → length (vec f) = length (vec g)).
Context (ok_put : ∀ f l, ok f → length l = length (vec f) → ok (put f l)).
Context (index_ok : ∀ f a i, ok f → fits 64 a → 0 ≤ i < hashes f →
  ∃ x, index f a i = Ok x ∧ 0 ≤ x < Z.of_nat (length (vec f))).
Context (hashes_pos : ∀ f, ok f → 0 < hashes f).
Context (set_eq : ∀ f a, ok f → fits 64 a → set f a = (l ← MultiHash.set_all (index f a) (hashes f) (vec f); Ok (put f l))).
Context (isSet_eq : ∀ f a, ok f → fits 64 a → isSet f a = (b ← MultiHash.all_set (index f a) (hashes f) (vec f); Ok (b, f))).
Context (clear_eq : ∀ f, ok f → clear f = Ok (put f (zeros (Z.of_nat (length (vec f)))))).
Context (merge_eq : (∀ f g, ok f → merge f g = (l ← merge_vector (vec f) (vec g) (Z.of_nat (length (vec f))); Ok (put f l))) ∨
  ∀ f g, merge f g = Ok f).

Definition vector_alike (f g : F) : Prop := put f [] = put g [].
Definition vector_has (f : F) (a : Z) : Prop :=
  ∀ i x, 0 ≤ i < hashes f → index f a i = Ok x → marked (vec f) x.

Lemma vector_grows f l b : (∀ j, marked (vec f) j → marked l j) → vector_has f b → vector_has (put f l) b.
Proof using vec_put index_put hashes_put.
  intros Hl Hb i x. rewrite hashes_put, index_put, vec_put. intros Hi Hx. by apply Hl, (Hb i).
Qed.

Lemma vector_laws : BloomLaws F ok vector_alike vector_has.
Proof using All.
  assert (∀ f l, vector_alike f (put f l)) as Hput by (intros f l; unfold vector_alike; by rewrite put_put).
  split.
  - split; [done|by intros f g E|intros f g h; apply eq_trans].
  - intros f a Hf Ha. rewrite set_eq by done.
    destruct (set_all_marks (index f a) (hashes f) (vec f)) as (l & -> & Hlen & Hk & Hm); [by intros; apply index_ok|].
    exists (put f l). split_and!; [done|by apply ok_put|done| |].
    + intros i x. rewrite hashes_put, index_put, vec_put. apply Hm.
    + intros b. by apply vector_grows.
  - intros f a Hf Ha. rewrite isSet_eq by done.
    destruct (all_set_marked (index f a) (hashes f) (vec f)) as (b & -> & Hb); [by intros; apply index_ok|].
    by exists b, f.
  - intros f g Hf Hg Hfg. destruct merge_eq as [E|E]; rewrite E by done; [|by exists f].
    destruct (merge_vector_marks (vec f) (vec g) (Z.of_nat (length (vec f)))) as (l & -> & Hlen & Hm);
      [done|by rewrite (alike_index f g)|].
    exists (put f l). split_and!; [done|by apply ok_put|done|]. intros b. apply vector_grows. intros j Hj. apply Hm. by left.
  - intros f Hf. rewrite clear_eq by done. eexists. split; [done|]. split_and!; [|done|].
    + apply ok_put; [done|]. by rewrite zeros_length, Nat2Z.id.
    + intros a Ha Hh. destruct (index_ok f a 0) as (x & Hx & _); [done|done|by split; [|apply hashes_pos]|].
      apply (zeros_unmarked (Z.of_nat (length (vec f))) x). rewrite <- (vec_put f (zeros _)).
      apply (Hh 0); [rewrite hashes_put; split; [done|by apply hashes_pos]|by rewrite index_put].
Qed.

End one_vector.

(** An index that is a slice of the address. *)
Lemma slice_index a lo n size : fits 64 a → 0 ≤ lo < 64 → 1 ≤ n → 2 ^ n ≤ size < 2 ^ 31 →
  ∃ x, (v ← Address.bitSelect a lo (lo + n - 1); Ok (s32 v)) = Ok x ∧ 0 ≤ x < size.
Proof.
  intros Ha Hlo Hn Hs. rewrite bitSelect_spec by (done || lia). cbn [mbind outcome_bind].
  replace (lo + n - 1 - lo + 1) with n by lia.
  pose proof (Z.mod_pos_bound (a `div` 2 ^ lo) (2 ^ n) ltac:(lia)).
  rewrite s32_id by lia. eexists. split; [done|lia].
Qed.

(** One index is a loop over one hash function. *)
Lemma set_all_one index l : MultiHash.set_all index 1 l = (i ← index 0; vset l i 1).
Proof. unfold MultiHash.set_all. change (seqZ 0 1) with [0]. cbn. destruct (index 0); [|done]. cbn. by destruct (vset l _ 1). Qed.
Lemma all_set_one index l : MultiHash.all_set index 1 l = (i ← index 0; x ← vget l i; Ok (bool_decide (x ≠ 0))).
Proof. unfold MultiHash.all_set. change (seqZ 0 1) with [0]. cbn. destruct (index 0) as [i|]; [|done]. cbn. by destruct (vget l i). Qed.

(** ** The classes *)

Section classes.
Context (sys : RubySystem.t) (Hgeo : Address.geometry sys).
#[local] Abbreviation B := (RubySystem.getBlockSizeBits sys).

(** The vector has the size of the configuration, whose logarithm is known. *)
Definition sized (l : list Z) (size bits : Z) : Prop :=
  Z.of_nat (length l) = size ∧ 1 ≤ bits ∧ 2 ^ bits ≤ size < 2 ^ 31.

Definition noncounting_ok (f : NonCountingBloomFilter.t) : Prop :=
  sized (NonCountingBloomFilter.m_filter f) (NonCountingBloomFilter.m_filter_size f) (NonCountingBloomFilter.m_filter_size_bits f) ∧
  0 ≤ B + NonCountingBloomFilter.m_offset f < 64.

Lemma noncounting_laws : BloomLaws (H := NonCountingBloomFilter.filter sys) NonCountingBloomFilter.t noncounting_ok
  (vector_alike NonCountingBloomFilter.with_filter)
  (vector_has NonCountingBloomFilter.m_filter (λ f a _, NonCountingBloomFilter.get_index sys f a) (λ _, 1)).
Proof.
  apply (vector_laws (H := NonCountingBloomFilter.filter sys)); try done.
  - intros [] [] [= <- <- <-] [[Hf _] _] [[Hg _] _]. cbn in *. lia.
  - intros [] l [(Hl & ?) ?] Hlen. cbn in *. split; [split; cbn; [by rewrite Hlen|done]|done].
  - intros f a i [(Hl & Hb & Hs) Ho] Ha _. rewrite Hl. by apply slice_index.
  - intros f a _ _. rewrite set_all_one. cbn. unfold NonCountingBloomFilter.set, NonCountingBloomFilter.writeBit.
    by destruct (NonCountingBloomFilter.get_index sys f a).
  - intros f a _ _. rewrite all_set_one. cbn. unfold NonCountingBloomFilter.isSet, NonCountingBloomFilter.getCount, NonCountingBloomFilter.readBit.
    destruct (NonCountingBloomFilter.get_index sys f a) as [i|]; [|done]. cbn. by destruct (vget _ i).
  - intros f [(Hl & Hb & Hs) _]. cbn. unfold NonCountingBloomFilter.clear. by rewrite Hl, clear_vector_zeros by lia.
  - left. intros f g [(Hl & _) _]. by rewrite Hl.
Qed.

(** The exclusive or of words of [k] bits. *)
Lemma lxor_fits k x y : 0 ≤ k → fits k x → fits k y → fits k (Z.lxor x y).
Proof.
  intros Hk Hx Hy. rewrite <- (uwrap_id k x Hx), <- (uwrap_id k y Hy).
  assert (Z.lxor (uwrap k x) (uwrap k y) = uwrap k (Z.lxor x y)) as ->; [|by apply uwrap_fits].
  apply Z.bits_inj'. intros i Hi. rewrite Z.lxor_spec, !uwrap_testbit, Z.lxor_spec by done.
  by destruct (i <? k); rewrite ?andb_true_r, ?andb_false_r.
Qed.

Definition block_ok (f : BlockBloomFilter.t) : Prop :=
  sized (BlockBloomFilter.m_filter f) (BlockBloomFilter.m_filter_size f) (BlockBloomFilter.m_filter_size_bits f) ∧
  1 ≤ B ≤ BlockBloomFilter.m_filter_size_bits f ∧ 2 * B + 5 < 64.

Lemma block_index f a : block_ok f → fits 64 a →
  ∃ x, BlockBloomFilter.get_index sys f a = Ok x ∧ 0 ≤ x < BlockBloomFilter.m_filter_size f.
Proof.
  intros [(Hl & Hb & Hs) [HB Hw]] Ha. unfold BlockBloomFilter.get_index.
  rewrite !bitSelect_spec by (done || lia). cbn [mbind outcome_bind].
  set (n := BlockBloomFilter.m_filter_size_bits f) in *.
  replace (2 * B + 5 + n - 1 - (2 * B + 5) + 1) with n by lia. replace (2 * B - 1 - B + 1) with B by lia.
  set (u := _ `mod` 2 ^ B). set (v := _ `mod` 2 ^ n).
  assert (fits n (Z.lxor u v)) as Hx.
  { apply lxor_fits; [lia| |apply Z.mod_pos_bound; lia]. unfold fits.
    pose proof (Z.mod_pos_bound (a `div` 2 ^ B) (2 ^ B) ltac:(lia)). fold u in H.
    assert (2 ^ B ≤ 2 ^ n) by (apply Z.pow_le_mono_r; lia). lia. }
  unfold fits in Hx. rewrite s32_id by lia. rewrite bool_decide_eq_true_2 by lia. eexists. split; [done|lia].
Qed.

Lemma block_laws : BloomLaws (H := BlockBloomFilter.filter sys) BlockBloomFilter.t block_ok
  (vector_alike BlockBloomFilter.with_filter)
  (vector_has BlockBloomFilter.m_filter (λ f a _, BlockBloomFilter.get_index sys f a) (λ _, 1)).
Proof.
  apply (vector_laws (H := BlockBloomFilter.filter sys)); try done.
  - intros [] [] [= <- <-] [[Hf _] _] [[Hg _] _]. cbn in *. lia.
  - intros [] l [(Hl & ?) ?] Hlen. cbn in *. split; [split; cbn; [by rewrite Hlen|done]|done].
  - intros f a i Hf Ha _. pose proof Hf as [(-> & _) _]. by apply block_index.
  - intros f a _ _. rewrite set_all_one. cbn. unfold BlockBloomFilter.set, BlockBloomFilter.writeBit.
    by destruct (BlockBloomFilter.get_index sys f a).
  - intros f a _ _. rewrite all_set_one. cbn. unfold BlockBloomFilter.isSet, BlockBloomFilter.getCount, BlockBloomFilter.readBit.
    destruct (BlockBloomFilter.get_index sys f a) as [i|]; [|done]. cbn. by destruct (vget _ i).
  - intros f [(Hl & Hb & Hs) _]. cbn. unfold BlockBloomFilter.clear. by rewrite Hl, clear_vector_zeros by lia.
  - by right.
Qed.

(** *** Several hash functions *)

(** The place of a hash value lies in the filter. *)
Lemma place_in parallel size par y i hashes : 0 ≤ y → 0 < par → par * hashes ≤ size → 0 ≤ i < hashes →
  ∃ x, MultiHash.place parallel size par y i = Ok x ∧ 0 ≤ x < size.
Proof.
  intros Hy Hp Hs Hi. unfold MultiHash.place. assert (0 < size) by nia. destruct parallel; rewrite decide_False by lia.
  - pose proof (Z.rem_bound_pos y par Hy Hp). eexists. split; [done|]. nia.
  - pose proof (Z.rem_bound_pos y size Hy ltac:(done)). eexists. by split.
Qed.

(** The configuration of a filter with several hash functions. *)
Definition hashed (l : list Z) (size hashes par : Z) : Prop :=
  Z.of_nat (length l) = size ∧ 0 < size < 2 ^ 31 ∧ 0 < hashes ∧ 0 < par ∧ par * hashes ≤ size.

Definition word30 (x : Z) : bool := (0 <=? x) && (x <? 2 ^ 30).

Lemma H3_words : forallb (λ row, (Z.of_nat (length row) =? 16) && forallb word30 row) H3BloomFilter.H3 = true ∧
  length H3BloomFilter.H3 = 64%nat.
Proof. by vm_compute. Qed.

Lemma H3_word i j : 0 ≤ i < 64 → 0 ≤ j < 16 → ∃ row h, vget H3BloomFilter.H3 i = Ok row ∧ vget row j = Ok h ∧ fits 30 h.
Proof.
  intros Hi Hj. destruct H3_words as [Hw Hn]. rewrite forallb_forall in Hw.
  destruct (lookup_lt_is_Some_2 H3BloomFilter.H3 (Z.to_nat i)) as [row Hrow]; [lia|].
  specialize (Hw row ltac:(by eapply list_elem_of_In, list_elem_of_lookup_2)).
  apply andb_prop in Hw as [Hlen%Z.eqb_eq Hall]. rewrite forallb_forall in Hall.
  destruct (lookup_lt_is_Some_2 row (Z.to_nat j)) as [h Hh]; [lia|].
  specialize (Hall h ltac:(by eapply list_elem_of_In, list_elem_of_lookup_2)). unfold word30 in Hall.
  exists row, h. rewrite !vget_Ok. split_and!; [lia|done|lia|done|unfold fits; lia..].
Qed.

Lemma hash_H3_word value index : 0 ≤ index < 16 → ∃ y, H3BloomFilter.hash_H3 value index = Ok y ∧ fits 30 y.
Proof.
  intros Hi. unfold H3BloomFilter.hash_H3.
  match goal with |- context [mfold ?g ?s ?l] =>
    destruct (mfold_total (λ acc : Z * Z, fits 30 acc.2) g l s) as ([v y] & -> & Hy) end; [| |by exists y].
  - intros [v y] i Hk%elem_of_seqZ Hy. cbn [fst snd] in *. case_decide; cbn [mbind outcome_bind]; [by eexists|].
    destruct (H3_word i index) as (row & h & -> & Hh & Hf); [lia|done|]. cbn [mbind outcome_bind]. rewrite Hh.
    cbn [mbind outcome_bind]. eexists. split; [done|]. by apply lxor_fits.
  - unfold fits. cbn. lia.
Qed.

Definition h3_ok (f : H3BloomFilter.t) : Prop :=
  hashed (H3BloomFilter.m_filter f) (H3BloomFilter.m_filter_size f) (H3BloomFilter.m_num_hashes f)
    (H3BloomFilter.m_par_filter_size f) ∧ H3BloomFilter.m_num_hashes f ≤ 16.

Lemma line_bits a : fits 64 a → ∃ x, Address.getLineAddress sys a = Ok x.
Proof using Hgeo.
  intros Ha. destruct Hgeo as [HB _]. unfold Address.getLineAddress, RubySystem.getBlockSizeBits.
  rewrite bitSelect_spec by (unfold Address.ADDRESS_WIDTH; done || lia). by eexists.
Qed.

Lemma h3_index f a i : h3_ok f → fits 64 a → 0 ≤ i < H3BloomFilter.m_num_hashes f →
  ∃ x, H3BloomFilter.get_index sys f a i = Ok x ∧ 0 ≤ x < H3BloomFilter.m_filter_size f.
Proof using Hgeo.
  intros [(Hl & Hs & Hh & Hp & Hm) H16] Ha Hi. unfold H3BloomFilter.get_index.
  destruct (line_bits a Ha) as [x ->]. cbn [mbind outcome_bind].
  destruct (hash_H3_word x i) as (y & -> & Hy); [lia|]. cbn [mbind outcome_bind]. unfold fits in Hy.
  apply (place_in _ _ _ _ _ (H3BloomFilter.m_num_hashes f)); [lia|done|lia|done].
Qed.

Lemma h3_laws : BloomLaws (H := H3BloomFilter.filter sys) H3BloomFilter.t h3_ok
  (vector_alike H3BloomFilter.with_filter)
  (vector_has H3BloomFilter.m_filter (H3BloomFilter.get_index sys) H3BloomFilter.m_num_hashes).
Proof using Hgeo.
  apply (vector_laws (H := H3BloomFilter.filter sys)); try done.
  - intros [] [] [=] [[Hf _] _] [[Hg _] _]. cbn in *. lia.
  - intros [] l [(Hl & ?) ?] Hlen. cbn in *. split; [split; cbn; [by rewrite Hlen|done]|done].
  - intros f a i Hf Ha Hi. pose proof Hf as [(-> & _) _]. by apply h3_index.
  - by intros f [(_ & _ & ? & _) _].
  - intros f [(Hl & Hs & _) _]. cbn. unfold H3BloomFilter.clear. by rewrite Hl, clear_vector_zeros by lia.
  - left. intros f g [(Hl & _) _]. by rewrite Hl.
Qed.

Lemma hash_bitsel_word value index jump (n : nat) : 0 ≤ index < jump → jump ≤ 2 ^ 26 → (n ≤ 30)%nat →
  ∃ y, MultiBitSelBloomFilter.hash_bitsel value index jump 30 (Z.of_nat n) = Ok y ∧ fits (Z.of_nat n) y.
Proof.
  intros Hi Hj. unfold MultiBitSelBloomFilter.hash_bitsel. induction n as [|n IH]; intros Hn.
  { exists 0. split; [done|]. unfold fits. cbn. lia. }
  destruct IH as (y & Hy & Hf); [lia|]. rewrite seqZ_S, mfold_app, Hy. cbn [mbind outcome_bind mfold].
  rewrite Z.add_0_l, (s32_id (jump * _)), s32_id by nia.
  pose proof (Z.rem_bound_pos (index + jump * Z.of_nat n) 30 ltac:(nia) ltac:(lia)) as Hr.
  unfold shl64. rewrite !decide_True by lia. cbn [mbind outcome_bind].
  assert (2 ^ Z.of_nat (S n) = 2 * 2 ^ Z.of_nat n) as Hpow by (rewrite Nat2Z.inj_succ, Z.pow_succ_r by lia; done).
  assert (2 ^ Z.of_nat n ≤ 2 ^ 29) by (apply Z.pow_le_mono_r; lia). unfold fits in *.
  case_decide; cbn [mbind outcome_bind]; [exists y; split; [done|lia]|].
  unfold u64. rewrite Z.shiftl_1_l, uwrap_id, s32_id by (unfold fits; lia). eexists. split; [done|lia].
Qed.

Definition bitsel_ok (f : MultiBitSelBloomFilter.t) : Prop :=
  hashed (MultiBitSelBloomFilter.m_filter f) (MultiBitSelBloomFilter.m_filter_size f) (MultiBitSelBloomFilter.m_num_hashes f)
    (MultiBitSelBloomFilter.m_par_filter_size f) ∧ MultiBitSelBloomFilter.m_num_hashes f ≤ 2 ^ 26 ∧
  0 ≤ MultiBitSelBloomFilter.m_filter_size_bits f ≤ 30 ∧ 0 ≤ MultiBitSelBloomFilter.m_skip_bits f < 64.

Lemma bitsel_index f a i : bitsel_ok f → fits 64 a → 0 ≤ i < MultiBitSelBloomFilter.m_num_hashes f →
  ∃ x, MultiBitSelBloomFilter.get_index sys f a i = Ok x ∧ 0 ≤ x < MultiBitSelBloomFilter.m_filter_size f.
Proof using Hgeo.
  intros [(Hl & Hs & Hh & Hp & Hm) (H26 & Hb & Hk)] Ha Hi. unfold MultiBitSelBloomFilter.get_index.
  destruct (line_bits a Ha) as [x ->]. cbn [mbind outcome_bind]. unfold shr64 at 1. rewrite decide_True by done.
  cbn [mbind outcome_bind]. rewrite <- (Z2Nat.id (MultiBitSelBloomFilter.m_filter_size_bits f)) by lia.
  destruct (hash_bitsel_word (Z.shiftr x (MultiBitSelBloomFilter.m_skip_bits f)) i (MultiBitSelBloomFilter.m_num_hashes f)
    (Z.to_nat (MultiBitSelBloomFilter.m_filter_size_bits f))) as (y & -> & Hy); [done|done|lia|].
  cbn [mbind outcome_bind]. unfold fits in Hy.
  apply (place_in _ _ _ _ _ (MultiBitSelBloomFilter.m_num_hashes f)); [lia|done|lia|done].
Qed.

Lemma bitsel_laws : BloomLaws (H := MultiBitSelBloomFilter.filter sys) MultiBitSelBloomFilter.t bitsel_ok
  (vector_alike MultiBitSelBloomFilter.with_filter)
  (vector_has MultiBitSelBloomFilter.m_filter (MultiBitSelBloomFilter.get_index sys) MultiBitSelBloomFilter.m_num_hashes).
Proof using Hgeo.
  apply (vector_laws (H := MultiBitSelBloomFilter.filter sys)); try done.
  - intros [] [] [=] [[Hf _] _] [[Hg _] _]. cbn in *. lia.
  - intros [] l [(Hl & ?) ?] Hlen. cbn in *. split; [split; cbn; [by rewrite Hlen|done]|done].
  - intros f a i Hf Ha Hi. pose proof Hf as [(-> & _) _]. by apply bitsel_index.
  - by intros f [(_ & _ & ? & _) _].
  - intros f [(Hl & Hs & _) _]. cbn. unfold MultiBitSelBloomFilter.clear. by rewrite Hl, clear_vector_zeros by lia.
  - left. intros f g [(Hl & _) _]. by rewrite Hl.
Qed.

(** *** The bulk filter *)

(** The intersection of a section: what it leaves, and whether something is left. *)
Lemma intersect_section l temp lo hi : length l = length temp → 0 ≤ lo ≤ hi → hi ≤ Z.of_nat (length temp) →
  ∃ temp' b, BulkBloomFilter.intersect l temp lo hi = Ok (temp', b) ∧ length temp' = length temp ∧
    (∀ i, lo ≤ i < hi → marked temp' i ↔ marked temp i ∧ marked l i) ∧
    (∀ i, ¬ lo ≤ i < hi → vget temp' i = vget temp i) ∧
    (b = true ↔ ∃ i, lo ≤ i < hi ∧ marked temp i ∧ marked l i).
Proof.
  intros Hlen Hlo Hhi. unfold BulkBloomFilter.intersect. rewrite <- (Z2Nat.id (hi - lo)) by lia.
  assert (Z.of_nat (Z.to_nat (hi - lo)) = hi - lo) as Hn by lia.
  revert Hn. generalize (Z.to_nat (hi - lo)) as n. intros n Hn.
  assert (hi = lo + Z.of_nat n) as -> by lia. clear Hn. induction n as [|n IH].
  { exists temp, false. split_and!; [done|done|intros; lia|done|]. split; [done|]. intros (i & Hi & _). lia. }
  destruct IH as (t & b & Hm & Ht & Hin & Hout & Hb); [lia|lia|].
  set (k := lo + Z.of_nat n) in *. rewrite seqZ_S, mfold_app, Hm. cbn [mbind outcome_bind mfold fst snd]. fold k.
  destruct (vget_in t k) as [x Hx]; [lia|]. destruct (vget_in l k) as [y Hy]; [lia|].
  pose proof (Hout k ltac:(lia)) as Hxk. rewrite Hx in Hxk |- *. cbn [mbind outcome_bind].
  assert ((if decide (x = 0) then Ok 0 else vget l k) = Ok (if decide (x = 0) then 0 else y)) as -> by (by case_decide).
  cbn [mbind outcome_bind]. rewrite vset_in by lia. cbn [mbind outcome_bind fst snd].
  set (c := negb (bool_decide (x = 0)) && negb (bool_decide ((if decide (x = 0) then 0 else y) = 0))).
  assert (c = true ↔ marked temp k ∧ marked l k) as Hc.
  { unfold c. rewrite andb_true_iff, !negb_true_iff, !bool_decide_eq_false. unfold marked. rewrite <- Hxk, Hy.
    case_decide; naive_solver. }
  eexists _, _. split; [done|]. split; [by rewrite length_insert|]. split_and!.
  - intros i Hi. unfold marked at 1. rewrite vget_insert by lia. case_decide as E; [|apply Hin; lia].
    rewrite E, <- Hc. destruct c; cbn; naive_solver.
  - intros i Hi. destruct (decide (0 ≤ i)); [|unfold vget; by rewrite !decide_False by lia].
    rewrite vget_insert, decide_False by lia. apply Hout. lia.
  - rewrite orb_true_iff, Hb, Hc. split.
    + intros [(i & Hi & H')|H']; [exists i|exists k]; split; try done; lia.
    + intros (i & Hi & H'). destruct (decide (i = k)) as [->|]; [by right|left; exists i; split; [lia|done]].
Qed.

Definition bulk_ok (f : BulkBloomFilter.t) : Prop :=
  sized (BulkBloomFilter.m_filter f) (BulkBloomFilter.m_filter_size f) (BulkBloomFilter.m_filter_size_bits f) ∧
  2 ≤ BulkBloomFilter.m_filter_size_bits f ∧ BulkBloomFilter.m_sector_bits f = BulkBloomFilter.m_filter_size_bits f - 1 ∧
  B + BulkBloomFilter.m_sector_bits f < 64 ∧ BulkBloomFilter.m_temp_filter f = zeros (BulkBloomFilter.m_filter_size f).

(** The two indices of an address, one in each section. *)
Definition bulk_index (f : BulkBloomFilter.t) (a i : Z) : outcome Z :=
  c ← BulkBloomFilter.sectors sys f a; Ok (if decide (i = 0) then c.1 + BulkBloomFilter.half f else c.2).

Lemma bulk_sectors f a : bulk_ok f → fits 64 a → ∃ c0 c1, BulkBloomFilter.sectors sys f a = Ok (c0, c1) ∧
  0 ≤ c0 < BulkBloomFilter.half f ∧ 0 ≤ c1 < BulkBloomFilter.half f ∧
  2 * BulkBloomFilter.half f ≤ BulkBloomFilter.m_filter_size f.
Proof using Hgeo.
  intros [(Hl & Hb & Hs) (H2 & Hsec & Hw & _)] Ha. destruct Hgeo as [HB _]. unfold BulkBloomFilter.sectors.
  set (n := BulkBloomFilter.m_sector_bits f) in *. set (size := BulkBloomFilter.m_filter_size f) in *.
  assert (2 ^ BulkBloomFilter.m_filter_size_bits f = 2 * 2 ^ n) as Hp.
  { rewrite <- Z.pow_succ_r by lia. f_equal. lia. }
  assert (2 * BulkBloomFilter.half f ≤ size ∧ 2 ^ n ≤ BulkBloomFilter.half f) as [Hh1 Hh2].
  { unfold BulkBloomFilter.half. fold size. rewrite Z.quot_div_nonneg by lia.
    pose proof (Z.div_mod size 2 ltac:(lia)). pose proof (Z.mod_pos_bound size 2 ltac:(lia)). lia. }
  unfold RubySystem.getBlockSizeBits in *. rewrite !bitSelect_spec by (done || lia). cbn [mbind outcome_bind].
  set (u := _ `mod` _). set (v := _ `mod` 2 ^ (_ + 2 * n - 1 - _ + 1)).
  assert (0 ≤ u < 2 ^ n) by (unfold u; replace (_ + n - 1 - _ + 1) with n by lia; apply Z.mod_pos_bound; lia).
  assert (0 ≤ v < 2 ^ n) by (unfold v; replace (_ + 2 * n - 1 - _ + 1) with n by lia; apply Z.mod_pos_bound; lia).
  exists u, v. rewrite !s32_id by lia. split_and!; [done|lia..].
Qed.

(** Both bits of an address are written; no other is. *)
Lemma bulk_mark l h c0 c1 v : 0 ≤ c0 + h < Z.of_nat (length l) → 0 ≤ c1 < Z.of_nat (length l) →
  ∃ l', BulkBloomFilter.mark l h c0 c1 v = Ok l' ∧ length l' = length l ∧
    ∀ i, marked l' i ↔ if decide (i = c0 + h ∨ i = c1) then v ≠ 0 else marked l i.
Proof.
  intros H0 H1. unfold BulkBloomFilter.mark. rewrite vset_in by done. cbn [mbind outcome_bind].
  rewrite vset_in by (by rewrite length_insert). eexists. split; [done|]. split; [by rewrite !length_insert|].
  intros i. unfold marked. destruct (decide (0 ≤ i)).
  - rewrite !vget_insert by (rewrite ?length_insert; done). repeat case_decide; naive_solver.
  - rewrite decide_False by lia. unfold vget. by rewrite !decide_False by lia.
Qed.

(** The intersection finds an address exactly when both its bits are set, and it leaves the
    temporary filter empty. *)
Lemma bulk_isSet f a : bulk_ok f → fits 64 a →
  BulkBloomFilter.isSet sys f a =
    (b ← MultiHash.all_set (bulk_index f a) 2 (BulkBloomFilter.m_filter f); Ok (b, f)).
Proof using Hgeo.
  intros Hf Ha. destruct (bulk_sectors f a Hf Ha) as (c0 & c1 & Hc & H0 & H1 & Hh).
  destruct Hf as [(Hl & _ & Hs) (_ & _ & _ & Htemp)]. unfold BulkBloomFilter.isSet. rewrite Hc. cbn [mbind outcome_bind fst snd].
  set (h := BulkBloomFilter.half f) in *. set (l := BulkBloomFilter.m_filter f) in *.
  set (size := BulkBloomFilter.m_filter_size f) in *.
  assert (∀ i, 0 ≤ i < 2 → bulk_index f a i = Ok (if decide (i = 0) then c0 + h else c1)) as Hix.
  { intros i _. unfold bulk_index. rewrite Hc. cbn. by case_decide. }
  destruct (all_set_marked (bulk_index f a) 2 l) as (b & -> & Hb).
  { intros i Hi. rewrite Hix by done. eexists. split; [done|]. case_decide; lia. }
  assert (b = true ↔ marked l (c0 + h) ∧ marked l c1) as Hb'.
  { rewrite Hb. split; [intros Hm; split; [apply (Hm 0)|apply (Hm 1)]; by rewrite ?Hix by lia|].
    intros [Hm0 Hm1] i x Hi. rewrite Hix by done. case_decide; by intros [= <-]. }
  clear Hb Hix Hc. rewrite Htemp. assert (length (zeros size) = length l) as Hz by (rewrite zeros_length; lia).
  destruct (bulk_mark (zeros size) h c0 c1 1) as (t0 & -> & Ht0 & Hm0); [lia|lia|]. cbn [mbind outcome_bind].
  assert (∀ i, marked t0 i ↔ i = c0 + h ∨ i = c1) as Hm0'.
  { intros i. rewrite Hm0. case_decide; [naive_solver|]. pose proof (zeros_unmarked size i). naive_solver. }
  destruct (intersect_section l t0 0 h) as (t1 & b1 & -> & Ht1 & Hi1 & Ho1 & Hb1); [lia|lia|lia|]. cbn [mbind outcome_bind fst snd].
  assert (b1 = true ↔ marked l c1) as Hb1'.
  { rewrite Hb1. setoid_rewrite Hm0'. split; [intros (i & Hi & [->| ->] & Hm); [lia|done]|]. intros Hm. exists c1. naive_solver lia. }
  assert (∀ t, length t = length l → (∀ i, marked t i → marked t0 i) →
    ∃ t', BulkBloomFilter.mark t h c0 c1 0 = Ok t' ∧ BulkBloomFilter.with_temp f t' = f) as Hreset.
  { intros t Ht Hsub. destruct (bulk_mark t h c0 c1 0) as (t' & -> & Ht' & Hm'); [lia|lia|]. exists t'. split; [done|].
    rewrite (unmarked_zeros t' size); [rewrite <- Htemp; by destruct f|lia|].
    intros i. rewrite Hm'. case_decide; [lia|]. intros Hm%Hsub%Hm0'. naive_solver. }
  assert (∀ i, marked t1 i → marked t0 i) as Hsub1.
  { intros i. destruct (decide (0 ≤ i < h)); [by intros [? _]%Hi1|unfold marked; by rewrite Ho1]. }
  destruct b1.
  - destruct (intersect_section l t1 h size) as (t2 & b2 & -> & Ht2 & Hi2 & Ho2 & Hb2); [lia|lia|lia|]. cbn [mbind outcome_bind fst snd].
    destruct (Hreset t2) as (t' & -> & Ht'); [lia| |].
    { intros i. destruct (decide (h ≤ i < size)); [intros Hm; apply Hi2 in Hm as [? _]; [by apply Hsub1|done]|unfold marked; rewrite Ho2 by done; apply Hsub1]. }
    cbn [mbind outcome_bind]. rewrite Ht'. do 2 f_equal. apply eq_bool_prop_intro. rewrite !Is_true_true, Hb', Hb2.
    split.
    + intros (i & Hi & Hm%Hsub1%Hm0' & Hml). destruct Hm as [->| ->]; [|lia]. naive_solver.
    + intros [Hm _]. exists (c0 + h). split_and!; [lia|lia| |done]. unfold marked. rewrite Ho1 by lia. apply Hm0'. by left.
  - destruct (Hreset t1) as (t' & -> & Ht'); [lia|done|]. cbn [mbind outcome_bind]. rewrite Ht'. do 2 f_equal.
    destruct b; [|done]. naive_solver.
Qed.

Lemma bulk_laws : BloomLaws (H := BulkBloomFilter.filter sys) BulkBloomFilter.t bulk_ok
  (vector_alike BulkBloomFilter.with_filter) (vector_has BulkBloomFilter.m_filter bulk_index (λ _, 2)).
Proof using Hgeo.
  apply (vector_laws (H := BulkBloomFilter.filter sys)); try done.
  - intros [] [] [=] [[Hf _] _] [[Hg _] _]. cbn in *. lia.
  - intros [] l [(Hl & ?) ?] Hlen. cbn in *. split; [split; cbn; [by rewrite Hlen|done]|done].
  - intros f a i Hf Ha _. destruct (bulk_sectors f a Hf Ha) as (c0 & c1 & Hc & ?). destruct Hf as [(-> & _) _].
    unfold bulk_index. rewrite Hc. cbn. eexists. split; [done|]. case_decide; lia.
  - intros f a _ _. unfold MultiHash.set_all. change (seqZ 0 2) with [0; 1]. cbn. unfold bulk_index, BulkBloomFilter.set, BulkBloomFilter.mark.
    destruct (BulkBloomFilter.sectors sys f a) as [[c0 c1]|]; [|done]. cbn. destruct (decide (0 = 0)); [|done].
    destruct (vset (BulkBloomFilter.m_filter f) (c0 + BulkBloomFilter.half f) 1) as [l|]; cbn; [|done].
    rewrite decide_False by done. by destruct (vset l c1 1).
  - intros f a. apply bulk_isSet.
  - intros f [(Hl & Hb & Hs) _]. cbn. unfold BulkBloomFilter.clear. by rewrite Hl, clear_vector_zeros by lia.
  - by right.
Qed.

End classes.

(** ** Runs of a filter *)

Section runs.
Context (sys : RubySystem.t) (Hgeo : Address.geometry sys).
Import GenericBloomFilter.
Implicit Types (g : t) (a : Z).

(** The two classes without an instance are not lawful: see below. *)
Definition ok_of (k : kind) : class_of k → Prop :=
  match k with
  | NonCounting => noncounting_ok sys
  | Bulk => bulk_ok sys
  | Block => block_ok sys
  | MultiBitSel => bitsel_ok
  | H3 => h3_ok
  | LSB_Counting | Multigrain => λ _, False
  end.

Definition alike_of (k : kind) : class_of k → class_of k → Prop :=
  match k with
  | NonCounting => vector_alike NonCountingBloomFilter.with_filter
  | Bulk => vector_alike BulkBloomFilter.with_filter
  | Block => vector_alike BlockBloomFilter.with_filter
  | MultiBitSel => vector_alike MultiBitSelBloomFilter.with_filter
  | H3 => vector_alike H3BloomFilter.with_filter
  | LSB_Counting | Multigrain => eq
  end.

Definition has_of (k : kind) : class_of k → Z → Prop :=
  match k with
  | NonCounting => vector_has NonCountingBloomFilter.m_filter (λ f a _, NonCountingBloomFilter.get_index sys f a) (λ _, 1)
  | Bulk => vector_has BulkBloomFilter.m_filter (bulk_index sys) (λ _, 2)
  | Block => vector_has BlockBloomFilter.m_filter (λ f a _, BlockBloomFilter.get_index sys f a) (λ _, 1)
  | MultiBitSel => vector_has MultiBitSelBloomFilter.m_filter (MultiBitSelBloomFilter.get_index sys) MultiBitSelBloomFilter.m_num_hashes
  | H3 => vector_has H3BloomFilter.m_filter (H3BloomFilter.get_index sys) H3BloomFilter.m_num_hashes
  | LSB_Counting | Multigrain => λ _ _, False
  end.

Lemma laws_of k : BloomLaws (H := methods sys k) (class_of k) (ok_of k) (alike_of k) (has_of k).
Proof using Hgeo.
  destruct k; [|by apply noncounting_laws|by apply bulk_laws|by apply block_laws| |by apply bitsel_laws|by apply h3_laws];
    (split; [apply eq_equivalence|by intros ..]).
Qed.

Definition lawful g : Prop := ok_of (class g) (m_filter g).
Definition holds g a : Prop := has_of (class g) (m_filter g) a.
Inductive same_config : t → t → Prop :=
  same_config_intro k f f' : alike_of k f f' → same_config (mk k f) (mk k f').

Inductive op : Type := Set_ (a : Z) | Query (a : Z) | Merge (g : t) | Clear.

Definition perform g (o : op) : outcome t :=
  match o with
  | Set_ a => GenericBloomFilter.set sys g a
  | Query a => snd <$> GenericBloomFilter.isSet sys g a
  | Merge g' => GenericBloomFilter.merge sys g g'
  | Clear => GenericBloomFilter.clear sys g
  end.

(** The addresses put in since the last [clear]. *)
Definition contents (os : list op) : list Z :=
  foldl (λ l o, match o with Set_ a => a :: l | Clear => [] | _ => l end) [] os.

Definition allowed g (o : op) : Prop :=
  match o with Set_ a | Query a => fits 64 a | Merge g' => lawful g' ∧ same_config g g' | Clear => True end.

Lemma same_config_trans g1 g2 g3 : same_config g1 g2 → same_config g2 g3 → same_config g1 g3.
Proof using Hgeo.
  intros [k f1 f2 H12] H. inversion H as [k' f f3 H23]. subst.
  repeat match goal with E : existT _ _ = existT _ _ |- _ => apply (Eqdep_dec.inj_pair2_eq_dec _ kind_eq_dec) in E; subst end.
  constructor. pose proof (alike_equivalence (BloomLaws := laws_of k)) as HE. by etransitivity.
Qed.
Lemma same_config_sym g1 g2 : same_config g1 g2 → same_config g2 g1.
Proof using Hgeo.
  intros [k f1 f2 H12]. constructor. pose proof (alike_equivalence (BloomLaws := laws_of k)) as HE. by symmetry.
Qed.

Lemma fmap_mk_Ok {A B : Type} (h : A → B) (m : outcome A) x : m = Ok x → h <$> m = Ok (h x).
Proof. by intros ->. Qed.

(** Every operation succeeds, and what the filter has, it keeps, but for [clear]. *)
Lemma perform_law g o : lawful g → allowed g o → ∃ g', perform g o = Ok g' ∧ lawful g' ∧ same_config g g' ∧
  (o ≠ Clear → ∀ b, holds g b → holds g' b) ∧ ∀ a, o = Set_ a → holds g' a.
Proof using Hgeo.
  destruct g as [k f]. unfold lawful, holds. cbn [class m_filter]. intros Hf Ho. pose proof (laws_of k) as HL. destruct o as [a|a|g'|]; cbn in Ho.
  - destruct (set_law (BloomLaws := HL) f a Hf Ho) as (f' & Hs & Hf' & Hal & Ha & Hk). exists (mk k f'). split; [by apply fmap_mk_Ok|].
    split_and!; [done|by constructor|done|]. by intros ? [= <-].
  - destruct (isSet_law (BloomLaws := HL) f a Hf Ho) as (b & f' & Hs & Hf' & Hal & Hb & Hk). exists (mk k f').
    split; [|by split_and!; [|constructor| |intros ? [=]]]. cbn. unfold GenericBloomFilter.isSet. cbn. by rewrite Hs.
  - destruct Ho as [Hg' Hsame]. inversion Hsame as [k' f1 f' Hal]. subst.
    repeat match goal with E : existT _ _ = existT _ _ |- _ => apply (Eqdep_dec.inj_pair2_eq_dec _ kind_eq_dec) in E; subst end.
    destruct (merge_law (BloomLaws := HL) f f' Hf Hg' Hal) as (f'' & Hm & Hf'' & Hal' & Hk). exists (mk k f'').
    split; [|by split_and!; [|constructor| |intros ? [=]]]. cbn. unfold GenericBloomFilter.merge. cbn.
    destruct (decide (k = k)) as [E|]; [|done]. rewrite (proof_irrel E eq_refl). cbn. by rewrite Hm.
  - destruct (clear_law (BloomLaws := HL) f Hf) as (f' & Hc & Hf' & Hal & _). exists (mk k f'). split; [by apply fmap_mk_Ok|].
    split_and!; [done|by constructor|done|by intros ? [=]].
Qed.

Lemma run_law os g : lawful g → (∀ o, o ∈ os → allowed g o) →
  ∃ g', mfold perform g os = Ok g' ∧ lawful g' ∧ same_config g g' ∧ ∀ a, a ∈ contents os → holds g' a.
Proof using Hgeo.
  intros Hg. induction os as [|o os IH] using rev_ind; intros Hos.
  { exists g. split_and!; [done|done| |by intros a []%not_elem_of_nil]. destruct g as [k f]. constructor.
    pose proof (alike_equivalence (BloomLaws := laws_of k)). done. }
  destruct IH as (g1 & H1 & Hg1 & Hs1 & Hc1); [intros o' Ho'; apply Hos, elem_of_app; by left|].
  assert (allowed g1 o) as Ho.
  { specialize (Hos o ltac:(apply elem_of_app; right; apply list_elem_of_here)). destruct o as [| |g2|]; try done.
    destruct Hos as [Hg2 Hs2]. split; [done|]. eapply same_config_trans; [|done]. by apply same_config_sym. }
  destruct (perform_law g1 o Hg1 Ho) as (g2 & H2 & Hg2 & Hs2 & Hk & Hset). exists g2.
  split_and!; [by rewrite mfold_app, H1; cbn; rewrite H2|done|by eapply same_config_trans|].
  intros a. unfold contents in *. rewrite foldl_app. cbn. destruct o as [b|b|g3|]; try (intros Ha; apply Hk; [done|by apply Hc1]).
  - intros [->|Ha]%elem_of_cons; [by apply Hset|apply Hk; [done|by apply Hc1]].
  - by intros []%not_elem_of_nil.
Qed.

(** C32: A Bloom filter misses nothing.  Take a filter of one of five classes (non-counting, block,
    bulk, H3, multiple bit selection) in a valid configuration and any sequence of insertions,
    queries, merges with filters of the same configuration, and clears.  No operation fails, and
    every address put in since the last clear is found. *)
Theorem bloom_filter_misses_nothing os g : lawful g → (∀ o, o ∈ os → allowed g o) →
  ∃ g', mfold perform g os = Ok g' ∧
    ∀ a, fits 64 a → a ∈ contents os → ∃ g'', GenericBloomFilter.isSet sys g' a = Ok (true, g'').
Proof using Hgeo.
  intros Hg Hos. destruct (run_law os g Hg Hos) as ([k f] & Hr & Hf & _ & Hc). exists (mk k f). split; [done|].
  intros a Ha Hin. pose proof (laws_of k) as HL. destruct (isSet_law (BloomLaws := HL) f a Hf Ha) as (b & f' & Hs & _ & _ & Hb & _).
  exists (mk k f'). unfold GenericBloomFilter.isSet. cbn. rewrite Hs. cbn. do 2 f_equal.
  rewrite (proj2 Hb); [done|]. by apply (Hc a).
Qed.

End runs.

(** A bulk filter of 64 bits, as its configuration string makes it. *)
Definition demo_bulk : BulkBloomFilter.t := BulkBloomFilter.mk (zeros 64) (zeros 64) 64 6 5.
Definition demo_run : list op :=
  [Set_ 4096; Query 64; Clear; Set_ 8192; Merge (GenericBloomFilter.mk GenericBloomFilter.Bulk demo_bulk); Query 64; Set_ 12352].

Lemma bloom_filter_misses_nothing_witness :
  GenericBloomFilter.create "Bulk_64_" = Ok (GenericBloomFilter.mk GenericBloomFilter.Bulk demo_bulk) ∧
  contents demo_run = [12352; 8192] ∧
  ∃ g', mfold (perform sys64) (GenericBloomFilter.mk GenericBloomFilter.Bulk demo_bulk) demo_run = Ok g' ∧
    ∀ a, fits 64 a → a ∈ contents demo_run → ∃ g'', GenericBloomFilter.isSet sys64 g' a = Ok (true, g'').
Proof.
  assert (bulk_ok sys64 demo_bulk) as Hok by (vm_compute; intuition discriminate).
  split; [by vm_compute|]. split; [done|]. apply (bloom_filter_misses_nothing sys64).
  - by split; vm_compute.
  - exact Hok.
  - intros o. unfold demo_run. rewrite !elem_of_cons, elem_of_nil.
    intros [->|[->|[->|[->|[->|[->|[->|[]]]]]]]]; by vm_compute.
Defined.

(** ** The other classes *)

(** The configuration of the counting filter is cut at the first underscore, so that it is never
    recognised. *)
Lemma lsb_counting_config_rejected tail :
  GenericBloomFilter.create (String.append "LSB_Counting_" tail) = Err AssertFail.
Proof. reflexivity. Qed.

Import MultiGrainBloomFilter.

(** Counting a multi-grain filter empties it: [getTotalCount] assigns zero to every element of
    the page filter where it means to add it, so that afterwards no address is found, whatever
    was put in. *)
Theorem multigrain_count_forgets sys f n f' a b f'' :
  Z.of_nat (length (m_page_filter f)) = m_page_filter_size f →
  MultiGrainBloomFilter.getTotalCount f = Ok (n, f') → MultiGrainBloomFilter.isSet sys f' a = Ok (b, f'') → b = false.
Proof.
  intros Hlen (m & _ & (pl & Hpl & [= <- <-])%bind_Ok)%bind_Ok. rewrite clear_vector_zeros in Hpl by lia. injection Hpl as <-.
  intros (i & _ & (x & _ & H)%bind_Ok)%bind_Ok. case_decide; [by injection H|].
  apply bind_Ok in H as (y & [_ Hy]%vget_Ok & [= <- _]). cbn in Hy. apply lookup_replicate in Hy as [-> _]. done.
Qed.

(** A filter of 64 elements with one address in it. *)
Definition demo_grain : MultiGrainBloomFilter.t :=
  mk (<[0%nat := 1]> (zeros 64)) 64 6 (<[0%nat := 1]> (zeros 64)) 64 6.

Lemma multigrain_count_forgets_witness :
  (f ← MultiGrainBloomFilter.create "64_64"; MultiGrainBloomFilter.set sys64 f 4096) = Ok demo_grain ∧
  MultiGrainBloomFilter.isSet sys64 demo_grain 4096 = Ok (true, demo_grain) ∧
  ∃ f', MultiGrainBloomFilter.getTotalCount demo_grain = Ok (1, f') ∧
    (λ r, r.1) <$> MultiGrainBloomFilter.isSet sys64 f' 4096 = Ok false.
Proof.
  split; [by vm_compute|]. split; [by vm_compute|]. eexists. split; [by vm_compute|].
  match goal with |- _ <$> ?m = _ => assert (∃ b f'', m = Ok (b, f'')) as (b & f'' & H) by (eexists _, _; by vm_compute) end.
  rewrite H. cbn. f_equal. refine (multigrain_count_forgets sys64 demo_grain 1 _ 4096 b f'' _ _ H); by vm_compute.
Defined.
