(* ===== verification/Buffers.v ===== *)
(** * Messages and message buffers (slicc_interface/Message.hh,
      network/MessageBufferNode.hh, network/MessageBuffer.hh, .cc)

    A [MessageBuffer] keeps timed messages in a heap ordered by arrival time
    and enqueue number, with a map of stalled messages beside it.  Messages
    move from buffer to buffer, they are never in two at once, so a message is
    a value and [dequeue] returns the one it removed.  The calls a buffer makes
    on its consumer are returned as signals. *)

From stdpp Require Import sorting.
From S2P Require Import Prelude IntMath Addresses Clocks StdHeap.
Local Open Scope Z_scope.

(** Compile-time switches of cpu/testers/rubytest/Trace.hh. *)
Module Trace.

Definition WB_RANDOM : bool := false.
Definition READ_WB_RANDOM : bool := false.
Definition RANDOM_RECV : bool := false.
Definition WRITE_HITS : bool := false.
Definition NPROC : Z := 4.
Definition BASELINE : bool := false.
Definition SLOT_WIDTH : Z := 50.

End Trace.

Module Message.

(** [payload] is what the subclass adds. *)
Record t (P : Type) := mk {
  m_time : Z;
  m_LastEnqueueTime : Z;
  m_DelayedTicks : Z;
  timeStamps : list Z;
  payload : P }.
Arguments mk {P}.
Arguments m_time {P}.
Arguments m_LastEnqueueTime {P}.
Arguments m_DelayedTicks {P}.
Arguments timeStamps {P}.
Arguments payload {P}.

Definition create {P} (curTime : Z) (p : P) : t P := mk curTime curTime 0 [curTime] p.

Definition updateDelayedTicks {P} (m : t P) (curTime : Z) : outcome (t P) :=
  assert_that (bool_decide (m_LastEnqueueTime m ≤ curTime));;
  let delta := curTime - m_LastEnqueueTime m in
  Ok (mk (m_time m) (m_LastEnqueueTime m) (u64 (m_DelayedTicks m + delta))
         (timeStamps m) (payload m)).

Definition setLastEnqueueTime {P} (m : t P) (time : Z) : t P :=
  mk (m_time m) time (m_DelayedTicks m) (timeStamps m) (payload m).

Definition set_payload {P} (m : t P) (p : P) : t P :=
  mk (m_time m) (m_LastEnqueueTime m) (m_DelayedTicks m) (timeStamps m) p.

End Message.

Module MessageBufferNode.

Record t (P : Type) := mk {
  m_time : Z;
  m_msg_counter : Z;
  m_msgptr : Message.t P }.
Arguments mk {P}.
Arguments m_time {P}.
Arguments m_msg_counter {P}.
Arguments m_msgptr {P}.

(** [operator>] *)
Definition greater {P} (n1 n2 : t P) : outcome bool :=
  if decide (m_time n1 = m_time n2) then
    assert_that (bool_decide (m_msg_counter n1 ≠ m_msg_counter n2));;
    Ok (bool_decide (m_msg_counter n2 < m_msg_counter n1))
  else Ok (bool_decide (m_time n2 < m_time n1)).

(** [operator<] *)
Definition less {P} (n1 n2 : t P) : outcome bool :=
  if decide (m_time n1 = m_time n2) then
    assert_that (bool_decide (m_msg_counter n1 ≠ m_msg_counter n2));;
    Ok (bool_decide (m_msg_counter n1 < m_msg_counter n2))
  else Ok (bool_decide (m_time n1 < m_time n2)).

End MessageBufferNode.

(** What is at the other end of a buffer. *)
Inductive consumer_ref : Type :=
  | ToThrottle (sid : Z)
  | ToPerfectSwitch (switch_id : Z)
  | ToController.

(** The calls [m_consumer->scheduleEventAbsolute(tick)] and
    [m_consumer->storeEventInfo(info)]. *)
Inductive signal : Type :=
  | ScheduleEventAbsolute (tick : Z)
  | StoreEventInfo (info : Z).

#[global] Instance signal_eq_dec : EqDecision signal.
Proof. solve_decision. Defined.

(** A pointer to a clocked object: its identity and its clock. *)
Record clocked_ref := mkClocked { obj_id : Z; obj_clock : ClockedObject.t }.

Module MessageBuffer.

(** The fields that only the setters change. *)
Record config := mkConfig {
  m_recycle_latency : Z;
  m_sender : option clocked_ref;
  m_receiver : option clocked_ref;
  m_consumer : option consumer_ref;
  m_max_size : Z;
  m_priority_rank : Z;
  m_strict_fifo : bool;
  m_ordering_set : bool;
  m_randomization : bool;
  m_input_link_id : Z;
  m_vnet_id : Z }.

Record t (P : Type) := mk {
  conf : config;
  m_prio_heap : list (MessageBufferNode.t P);
  m_stall_msg_map : list (Z * list (Message.t P));
  m_time_last_time_size_checked : Z;
  m_size_last_time_size_checked : Z;
  m_time_last_time_enqueue : Z;
  m_time_last_time_pop : Z;
  m_last_arrival_time : Z;
  m_size_at_cycle_start : Z;
  m_msgs_this_cycle : Z;
  m_not_avail_count : Z;
  m_msg_counter : Z }.
Arguments mk {P}.
Arguments conf {P}.
Arguments m_prio_heap {P}.
Arguments m_stall_msg_map {P}.
Arguments m_time_last_time_size_checked {P}.
Arguments m_size_last_time_size_checked {P}.
Arguments m_time_last_time_enqueue {P}.
Arguments m_time_last_time_pop {P}.
Arguments m_last_arrival_time {P}.
Arguments m_size_at_cycle_start {P}.
Arguments m_msgs_this_cycle {P}.
Arguments m_not_avail_count {P}.
Arguments m_msg_counter {P}.

(** The constructor; the recycle latency is set later. *)
Definition create {P} (recycle : Z) : t P :=
  mk (mkConfig recycle None None None 0 0 false false false 0 0)
     [] [] 0 0 0 0 0 0 0 0 0.

Section fields.
Context {P : Type}.
Implicit Types b : t P.

Definition with_conf b (c : config) : t P :=
  mk c (m_prio_heap b) (m_stall_msg_map b) (m_time_last_time_size_checked b)
     (m_size_last_time_size_checked b) (m_time_last_time_enqueue b) (m_time_last_time_pop b)
     (m_last_arrival_time b) (m_size_at_cycle_start b) (m_msgs_this_cycle b)
     (m_not_avail_count b) (m_msg_counter b).

Definition with_heap b (h : list (MessageBufferNode.t P)) : t P :=
  mk (conf b) h (m_stall_msg_map b) (m_time_last_time_size_checked b)
     (m_size_last_time_size_checked b) (m_time_last_time_enqueue b) (m_time_last_time_pop b)
     (m_last_arrival_time b) (m_size_at_cycle_start b) (m_msgs_this_cycle b)
     (m_not_avail_count b) (m_msg_counter b).

Definition with_stall b (s : list (Z * list (Message.t P))) : t P :=
  mk (conf b) (m_prio_heap b) s (m_time_last_time_size_checked b)
     (m_size_last_time_size_checked b) (m_time_last_time_enqueue b) (m_time_last_time_pop b)
     (m_last_arrival_time b) (m_size_at_cycle_start b) (m_msgs_this_cycle b)
     (m_not_avail_count b) (m_msg_counter b).

Definition with_size_checked b (time size : Z) : t P :=
  mk (conf b) (m_prio_heap b) (m_stall_msg_map b) time size
     (m_time_last_time_enqueue b) (m_time_last_time_pop b)
     (m_last_arrival_time b) (m_size_at_cycle_start b) (m_msgs_this_cycle b)
     (m_not_avail_count b) (m_msg_counter b).

(** The counters that [enqueue] maintains. *)
Definition with_enqueue b (time msgs counter last : Z) : t P :=
  mk (conf b) (m_prio_heap b) (m_stall_msg_map b) (m_time_last_time_size_checked b)
     (m_size_last_time_size_checked b) time (m_time_last_time_pop b)
     last (m_size_at_cycle_start b) msgs (m_not_avail_count b) counter.

Definition with_pop b (time size : Z) : t P :=
  mk (conf b) (m_prio_heap b) (m_stall_msg_map b) (m_time_last_time_size_checked b)
     (m_size_last_time_size_checked b) (m_time_last_time_enqueue b) time
     (m_last_arrival_time b) size (m_msgs_this_cycle b)
     (m_not_avail_count b) (m_msg_counter b).

Definition with_counters b (not_avail counter : Z) : t P :=
  mk (conf b) (m_prio_heap b) (m_stall_msg_map b) (m_time_last_time_size_checked b)
     (m_size_last_time_size_checked b) (m_time_last_time_enqueue b) (m_time_last_time_pop b)
     (m_last_arrival_time b) (m_size_at_cycle_start b) (m_msgs_this_cycle b)
     not_avail counter.

End fields.

Section operations.
Context {P : Type}.
Implicit Types b : t P.

(** *** Configuration *)

Definition update_conf b (f : config → config) : t P := with_conf b (f (conf b)).

Definition setRecycleLatency b (recycle_latency : Z) : t P := update_conf b (λ c,
  mkConfig recycle_latency (m_sender c) (m_receiver c) (m_consumer c) (m_max_size c)
    (m_priority_rank c) (m_strict_fifo c) (m_ordering_set c) (m_randomization c)
    (m_input_link_id c) (m_vnet_id c)).

Definition setConsumer b (consumer : consumer_ref) : outcome (t P) :=
  match m_consumer (conf b) with
  | Some _ => Err FatalFault
  | None => Ok (update_conf b (λ c,
      mkConfig (m_recycle_latency c) (m_sender c) (m_receiver c) (Some consumer) (m_max_size c)
        (m_priority_rank c) (m_strict_fifo c) (m_ordering_set c) (m_randomization c)
        (m_input_link_id c) (m_vnet_id c)))
  end.

(** [assert(m_sender == NULL || m_sender == obj)] *)
Definition null_or_same (old : option clocked_ref) (obj : clocked_ref) : bool :=
  match old with None => true | Some o => bool_decide (obj_id o = obj_id obj) end.

Definition setSender b (obj : clocked_ref) : outcome (t P) :=
  assert_that (null_or_same (m_sender (conf b)) obj);;
  Ok (update_conf b (λ c,
    mkConfig (m_recycle_latency c) (Some obj) (m_receiver c) (m_consumer c) (m_max_size c)
      (m_priority_rank c) (m_strict_fifo c) (m_ordering_set c) (m_randomization c)
      (m_input_link_id c) (m_vnet_id c))).

Definition setReceiver b (obj : clocked_ref) : outcome (t P) :=
  assert_that (null_or_same (m_receiver (conf b)) obj);;
  Ok (update_conf b (λ c,
    mkConfig (m_recycle_latency c) (m_sender c) (Some obj) (m_consumer c) (m_max_size c)
      (m_priority_rank c) (m_strict_fifo c) (m_ordering_set c) (m_randomization c)
      (m_input_link_id c) (m_vnet_id c))).

Definition setOrdering b (order : bool) : t P := update_conf b (λ c,
  mkConfig (m_recycle_latency c) (m_sender c) (m_receiver c) (m_consumer c) (m_max_size c)
    (m_priority_rank c) order true (m_randomization c) (m_input_link_id c) (m_vnet_id c)).

Definition resize b (size : Z) : t P := update_conf b (λ c,
  mkConfig (m_recycle_latency c) (m_sender c) (m_receiver c) (m_consumer c) size
    (m_priority_rank c) (m_strict_fifo c) (m_ordering_set c) (m_randomization c)
    (m_input_link_id c) (m_vnet_id c)).

Definition setRandomization b (random_flag : bool) : t P := update_conf b (λ c,
  mkConfig (m_recycle_latency c) (m_sender c) (m_receiver c) (m_consumer c) (m_max_size c)
    (m_priority_rank c) (m_strict_fifo c) (m_ordering_set c) random_flag
    (m_input_link_id c) (m_vnet_id c)).

Definition setIncomingLink b (link_id : Z) : t P := update_conf b (λ c,
  mkConfig (m_recycle_latency c) (m_sender c) (m_receiver c) (m_consumer c) (m_max_size c)
    (m_priority_rank c) (m_strict_fifo c) (m_ordering_set c) (m_randomization c)
    link_id (m_vnet_id c)).

Definition setVnet b (net : Z) : t P := update_conf b (λ c,
  mkConfig (m_recycle_latency c) (m_sender c) (m_receiver c) (m_consumer c) (m_max_size c)
    (m_priority_rank c) (m_strict_fifo c) (m_ordering_set c) (m_randomization c)
    (m_input_link_id c) net).

Definition clearStats b : t P := with_counters b 0 0.

(** *** The clocks of the two ends; a missing end is a null pointer. *)

Definition clock_of (o : option clocked_ref) : outcome ClockedObject.t :=
  match o with Some r => Ok (obj_clock r) | None => Err NullDeref end.

Definition sender b : outcome ClockedObject.t := clock_of (m_sender (conf b)).
Definition receiver b : outcome ClockedObject.t := clock_of (m_receiver (conf b)).

(** *** The heap *)

Definition heap_size b : Z := u32 (Z.of_nat (length (m_prio_heap b))).

Definition front b : outcome (MessageBufferNode.t P) :=
  from_option_or OutOfBounds (head (m_prio_heap b)).

Definition push_heap_greater := StdHeap.push_heap (MessageBufferNode.greater (P := P)).
Definition pop_heap_greater := StdHeap.pop_heap (MessageBufferNode.greater (P := P)).
Definition push_heap_less := StdHeap.push_heap (MessageBufferNode.less (P := P)).

(** [pop_back()] *)
Definition pop_back {A} (l : list A) : list A := take (length l - 1) l.

Definition getQSize b : Z := Z.of_nat (length (m_prio_heap b)).
Definition isEmpty b : bool := bool_decide (getQSize b = 0).

(** The size is sampled once per cycle of the receiver. *)
Definition getSize (now : Z) b : outcome (Z * t P) :=
  r ← receiver b;
  let cur := ClockedObject.curCycle now r in
  let b := if decide (m_time_last_time_size_checked b = cur) then b
           else with_size_checked b cur (heap_size b) in
  Ok (m_size_last_time_size_checked b, b).

Definition areNSlotsAvailable (now : Z) b (n : Z) : outcome (bool * t P) :=
  if decide (m_max_size (conf b) = 0) then Ok (true, b)
  else
    s ← sender b;
    let current_size :=
      if decide (m_time_last_time_pop b < ClockedObject.clockEdge now s 0) then heap_size b
      else if decide (m_time_last_time_enqueue b < ClockedObject.curCycle now s)
      then m_size_at_cycle_start b
      else u32 (m_size_at_cycle_start b + m_msgs_this_cycle b) in
    if decide (u32 (current_size + n) ≤ m_max_size (conf b)) then Ok (true, b)
    else Ok (false, with_counters b (m_not_avail_count b + 1) (m_msg_counter b)).

(** [random_time()], from the three numbers drawn. *)
Definition random_time (r03 r07 r115 : Z) : Z :=
  1 + r03 + (if decide (r07 = 0) then 100 + r115 else 0).

(** The arrival time and the new [m_last_arrival_time]; [rt] is what
    [random_time()] returned. *)
Definition arrival (sys : RubySystem.t) (rt : Z) b (current_time period delta : Z) : Z * Z :=
  if negb (RubySystem.getRandomization sys) || negb (m_randomization (conf b))
  then (u64 (current_time + u64 (delta * period)), m_last_arrival_time b)
  else if m_strict_fifo (conf b) then
    let last := if decide (m_last_arrival_time b < current_time) then current_time
                else m_last_arrival_time b in
    (u64 (last + period), last)
  else (u64 (current_time + u64 (rt * period)), m_last_arrival_time b).

Definition enqueue (sys : RubySystem.t) (now rt : Z) b (message : Message.t P)
    (delta : Z) (isRMWWrite : bool) : outcome (t P * list signal) :=
  assert_that (m_ordering_set (conf b));;
  s ← sender b;
  let cur := ClockedObject.curCycle now s in
  let '(msgs, time_enqueue) :=
    if decide (m_time_last_time_enqueue b < cur) then (0, cur)
    else (m_msgs_this_cycle b, m_time_last_time_enqueue b) in
  let counter := u64 (m_msg_counter b + 1) in
  let msgs := u32 (msgs + 1) in
  assert_that (bool_decide (0 < delta));;
  let current_time := ClockedObject.clockEdge now s 0 in
  let '(arrival_time, last) :=
    arrival sys rt b current_time (ClockedObject.clockPeriod s) delta in
  assert_that (bool_decide (current_time < arrival_time));;
  (if m_strict_fifo (conf b) && bool_decide (arrival_time < last)
   then Err PanicFault else Ok tt);;
  let last := if RubySystem.getWarmupEnabled sys then last else arrival_time in
  assert_that (bool_decide (Message.m_LastEnqueueTime message ≤ current_time));;
  message ← Message.updateDelayedTicks message current_time;
  let message := Message.setLastEnqueueTime message arrival_time in
  let thisNode := MessageBufferNode.mk arrival_time counter message in
  heap ← (if isRMWWrite then push_heap_less (thisNode :: m_prio_heap b)
          else push_heap_greater (m_prio_heap b ++ [thisNode]));
  assert_that (bool_decide (is_Some (m_consumer (conf b))));;
  Ok (with_heap (with_enqueue b time_enqueue msgs counter last) heap,
      [ScheduleEventAbsolute arrival_time; StoreEventInfo (m_vnet_id (conf b))]).

(** The bookkeeping the two [dequeue]s share: the message leaves with its
    delay updated. *)
Definition note_pop (now : Z) b (message : Message.t P) : outcome (Message.t P * t P) :=
  r ← receiver b;
  let edge := ClockedObject.clockEdge now r 0 in
  message ← Message.updateDelayedTicks message edge;
  Ok (message, if decide (m_time_last_time_pop b < edge) then with_pop b edge (heap_size b) else b).

Definition getCurrentCycles (now : Z) b : outcome Z :=
  s ← sender b; Ok (ClockedObject.ticksToCycles s (ClockedObject.clockEdge now s 0)).

(** [dequeue(pos)]: the element is erased from the middle of the deque. *)
Definition dequeue_at (now : Z) b (pos : Z) : outcome (Message.t P * Z * t P) :=
  node ← vget (m_prio_heap b) pos;
  r ← note_pop now b (MessageBufferNode.m_msgptr node);
  let '(message, b) := r in
  let b := with_heap b (delete (Z.to_nat pos) (m_prio_heap b)) in
  c ← getCurrentCycles now b;
  Ok (message, c, b).

(** [dequeue()] *)
Definition dequeue (now : Z) b : outcome (Message.t P * Z * t P) :=
  node ← front b;
  r ← note_pop now b (MessageBufferNode.m_msgptr node);
  let '(message, b) := r in
  heap ← (if Trace.RANDOM_RECV then Ok (tail (m_prio_heap b))
          else h ← pop_heap_greater (m_prio_heap b); Ok (pop_back h));
  let b := with_heap b heap in
  c ← getCurrentCycles now b;
  Ok (message, c, b).

Definition erasePacket b (pos : Z) : outcome (t P) :=
  _ ← vget (m_prio_heap b) pos; Ok (with_heap b (delete (Z.to_nat pos) (m_prio_heap b))).

Definition clear b : t P :=
  mk (conf b) [] (m_stall_msg_map b) (m_time_last_time_size_checked b)
     (m_size_last_time_size_checked b) 0 0 (m_last_arrival_time b) 0 0
     (m_not_avail_count b) 0.

Definition peek b : outcome (Message.t P) :=
  n ← front b; Ok (MessageBufferNode.m_msgptr n).

Definition isReady (now : Z) b : outcome bool :=
  match m_prio_heap b with
  | [] => Ok false
  | n :: _ => r ← receiver b;
      Ok (bool_decide (MessageBufferNode.m_time n ≤ ClockedObject.clockEdge now r 0))
  end.

(** [isReady(pos)] *)
Definition isReady_at (now : Z) b (pos : Z) : outcome bool :=
  match m_prio_heap b with
  | [] => Ok false
  | _ => n ← vget (m_prio_heap b) pos; r ← receiver b;
      Ok (bool_decide (MessageBufferNode.m_time n ≤ ClockedObject.clockEdge now r 0))
  end.

Definition peekMsgPtr (now : Z) b : outcome (Message.t P) :=
  r ← isReady now b; assert_that r;; peek b.

Definition peekMsgPtr_at b (pos : Z) : outcome (Message.t P) :=
  n ← vget (m_prio_heap b) pos; Ok (MessageBufferNode.m_msgptr n).

Definition delayHead (sys : RubySystem.t) (now rt : Z) b : outcome (t P * list signal) :=
  node ← front b;
  h ← pop_heap_greater (m_prio_heap b);
  enqueue sys now rt (with_heap b (pop_back h)) (MessageBufferNode.m_msgptr node) 1 false.

Definition recycle (now : Z) b : outcome (t P * list signal) :=
  node ← front b;
  h ← pop_heap_greater (m_prio_heap b);
  r ← receiver b;
  let time := ClockedObject.clockEdge now r (m_recycle_latency (conf b)) in
  let node := MessageBufferNode.mk time (MessageBufferNode.m_msg_counter node)
    (MessageBufferNode.m_msgptr node) in
  h ← push_heap_greater (pop_back h ++ [node]);
  Ok (with_heap b h, [ScheduleEventAbsolute time]).

(** *** Stalled messages: a [std::map] from line addresses, in key order *)

(** [m_stall_msg_map[addr].push_back(message)] *)
Fixpoint stall_push (addr : Z) (m : Message.t P) (s : list (Z * list (Message.t P)))
    : list (Z * list (Message.t P)) :=
  match s with
  | [] => [(addr, [m])]
  | (a, ms) :: s' =>
      if decide (addr = a) then (a, ms ++ [m]) :: s'
      else if decide (addr < a) then (addr, [m]) :: s
      else (a, ms) :: stall_push addr m s'
  end.

Fixpoint stall_find (addr : Z) (s : list (Z * list (Message.t P))) : option (list (Message.t P)) :=
  match s with
  | [] => None
  | (a, ms) :: s => if decide (addr = a) then Some ms else stall_find addr s
  end.

Definition stall_erase (addr : Z) (s : list (Z * list (Message.t P)))
    : list (Z * list (Message.t P)) := filter (λ e, e.1 ≠ addr) s.

(** One iteration of [reanalyzeList]: the position taken from the list. *)
Definition reanalyze_pos (lt : list (Message.t P)) : nat :=
  if Trace.RANDOM_RECV && bool_decide (1 < Z.of_nat (length lt))
  then (length lt - 2)%nat else 0%nat.

(** [while (!lt.empty())]; each iteration erases one message, so the length of
    the list is enough fuel. *)
Fixpoint reanalyzeList (fuel : nat) b (lt : list (Message.t P)) (nextTick : Z)
    : outcome (t P * list signal) :=
  match lt, fuel with
  | [], _ => Ok (b, [])
  | _, O => Err OutOfFuel
  | _, S fuel =>
      let counter := u64 (m_msg_counter b + 1) in
      let pos := reanalyze_pos lt in
      m ← from_option_or OutOfBounds (lt !! pos);
      let msgNode := MessageBufferNode.mk nextTick counter m in
      h ← (if Trace.RANDOM_RECV then Ok (m_prio_heap b ++ [msgNode])
           else push_heap_greater (m_prio_heap b ++ [msgNode]));
      r ← reanalyzeList fuel (with_heap (with_counters b (m_not_avail_count b) counter) h)
            (delete pos lt) nextTick;
      Ok (r.1, ScheduleEventAbsolute nextTick :: r.2)
  end.

Definition reanalyzeMessages (now : Z) b (addr : Z) : outcome (t P * list signal) :=
  lt ← from_option_or AssertFail (stall_find addr (m_stall_msg_map b));
  r ← receiver b;
  let nextTick := ClockedObject.clockEdge now r 1 in
  res ← reanalyzeList (length lt) b lt nextTick;
  Ok (with_stall res.1 (stall_erase addr (m_stall_msg_map res.1)), res.2).

Definition reanalyzeAllMessages (now : Z) b : outcome (t P * list signal) :=
  r ← receiver b;
  let nextTick := ClockedObject.clockEdge now r 1 in
  res ← mfold (λ acc e,
          res ← reanalyzeList (length e.2) acc.1 e.2 nextTick;
          Ok (res.1, acc.2 ++ res.2)) (b, []) (m_stall_msg_map b);
  Ok (with_stall res.1 [], res.2).

Definition stallMessage (sys : RubySystem.t) (now : Z) b (addr : Z) : outcome (t P) :=
  offset ← Address.getOffset sys addr;
  assert_that (bool_decide (offset = 0));;
  _ ← front b;
  r ← dequeue now b;
  let '(message, _, b) := r in
  Ok (with_stall b (stall_push addr message (m_stall_msg_map b))).

(** *** Functional accesses: the messages of the heap, then the stalled ones *)

Section functional.
Context {Packet : Type}.
(** The virtual methods of the messages: what a read makes of the packet, when
    it hits, and whether a write hits and what it makes of the message. *)
Context (msg_functionalRead : P → Packet → outcome (option Packet)).
Context (msg_functionalWrite : P → Packet → outcome (bool * P)).

Definition stalled b : list (Message.t P) := concat (m_stall_msg_map b).*2.

Fixpoint read_first (ms : list (Message.t P)) (pkt : Packet) : outcome (option Packet) :=
  match ms with
  | [] => Ok None
  | m :: ms =>
      o ← msg_functionalRead (Message.payload m) pkt;
      match o with Some pkt' => Ok (Some pkt') | None => read_first ms pkt end
  end.

Definition functionalRead b (pkt : Packet) : outcome (option Packet) :=
  read_first (map MessageBufferNode.m_msgptr (m_prio_heap b) ++ stalled b) pkt.

(** The number of messages written, and the messages. *)
Fixpoint write_each (ms : list (Message.t P)) (pkt : Packet) : outcome (Z * list (Message.t P)) :=
  match ms with
  | [] => Ok (0, [])
  | m :: ms =>
      r ← msg_functionalWrite (Message.payload m) pkt;
      rs ← write_each ms pkt;
      Ok (Z.b2z r.1 + rs.1, Message.set_payload m r.2 :: rs.2)
  end.

Fixpoint write_stalled (s : list (Z * list (Message.t P))) (pkt : Packet)
    : outcome (Z * list (Z * list (Message.t P))) :=
  match s with
  | [] => Ok (0, [])
  | e :: s =>
      r ← write_each e.2 pkt;
      rs ← write_stalled s pkt;
      Ok (r.1 + rs.1, (e.1, r.2) :: rs.2)
  end.

Definition functionalWrite b (pkt : Packet) : outcome (Z * t P) :=
  h ← write_each (map MessageBufferNode.m_msgptr (m_prio_heap b)) pkt;
  s ← write_stalled (m_stall_msg_map b) pkt;
  let heap := zip_with (λ n m, MessageBufferNode.mk (MessageBufferNode.m_time n)
                          (MessageBufferNode.m_msg_counter n) m) (m_prio_heap b) h.2 in
  Ok (u32 (h.1 + s.1), with_stall (with_heap b heap) s.2).

End functional.

End operations.

End MessageBuffer.

Import MessageBuffer.

(** ** The order of messages *)

Section ordering.
Context {P : Type}.
Implicit Types (b : t P) (n : MessageBufferNode.t P) (q : list (MessageBufferNode.t P)).

(** Earlier arrival first; among equal arrivals, earlier enqueue first. *)
Definition node_le n1 n2 : Prop :=
  MessageBufferNode.m_time n1 < MessageBufferNode.m_time n2 ∨
  (MessageBufferNode.m_time n1 = MessageBufferNode.m_time n2 ∧
   MessageBufferNode.m_msg_counter n1 ≤ MessageBufferNode.m_msg_counter n2).

#[global] Instance node_le_preorder : PreOrder node_le.
Proof.
  split.
  - intros n. right. lia.
  - unfold node_le. intros n1 n2 n3 ??. lia.
Qed.

Lemma greater_spec n1 n2 :
  MessageBufferNode.m_msg_counter n1 ≠ MessageBufferNode.m_msg_counter n2 →
  ∃ r, MessageBufferNode.greater n1 n2 = Ok r ∧ if r : bool then node_le n2 n1 else node_le n1 n2.
Proof.
  intros Hne. unfold MessageBufferNode.greater, node_le. case_decide.
  - rewrite (bool_decide_eq_true_2 (_ ≠ _)) by done. simpl. eexists. split; [done|].
    case_bool_decide; lia.
  - eexists. split; [done|]. case_bool_decide; lia.
Qed.

#[global] Instance node_heap :
  PriorityHeap MessageBufferNode.m_msg_counter node_le
    (push_heap_greater (P := P)) (pop_heap_greater (P := P)) :=
  std_heap MessageBufferNode.greater MessageBufferNode.m_msg_counter node_le greater_spec.

(** The queue is a heap, its messages have different numbers, and none is
    newer than the counter. *)
Definition buffer_ok b : Prop :=
  is_heap (push := push_heap_greater) (pop := pop_heap_greater) (m_prio_heap b) ∧
  NoDup (MessageBufferNode.m_msg_counter <$> m_prio_heap b) ∧
  0 ≤ m_msg_counter b ∧
  Forall (λ n, MessageBufferNode.m_msg_counter n ≤ m_msg_counter b) (m_prio_heap b).

Lemma create_ok recycle : buffer_ok (create (P := P) recycle).
Proof. split_and!; [apply heap_nil|constructor|done|constructor]. Qed.

(** A node with the next number goes in. *)
Lemma heap_insert b n : buffer_ok b → m_msg_counter b < MessageBufferNode.m_msg_counter n →
  ∃ h, push_heap_greater (m_prio_heap b ++ [n]) = Ok h ∧ h ≡ₚ m_prio_heap b ++ [n] ∧
    is_heap (push := push_heap_greater) (pop := pop_heap_greater) h ∧
    NoDup (MessageBufferNode.m_msg_counter <$> h) ∧
    Forall (λ m, MessageBufferNode.m_msg_counter m ≤ MessageBufferNode.m_msg_counter n) h.
Proof.
  intros (Hh & Hnd & H0 & Hmax) Hn.
  assert (NoDup (MessageBufferNode.m_msg_counter <$> m_prio_heap b ++ [n])) as Hnd'.
  { rewrite fmap_app. apply NoDup_app. split_and!; [done| |apply NoDup_singleton].
    intros c (m & -> & Hm)%list_elem_of_fmap Hc. simpl in Hc. apply list_elem_of_singleton in Hc.
    rewrite Forall_forall in Hmax. specialize (Hmax m Hm). lia. }
  destruct (heap_push (m_prio_heap b) n Hh Hnd') as (h & Hp & Hperm & Hh').
  exists h. split_and!; [done|done|done|by rewrite Hperm|].
  rewrite Hperm. apply Forall_app. split; [|by apply Forall_singleton].
  eapply Forall_impl; [done|]. simpl. intros. lia.
Qed.

Lemma pop_back_app {A} (l : list A) x : pop_back (l ++ [x]) = l.
Proof. unfold pop_back. rewrite length_app, Nat.add_sub. apply take_app_length. Qed.

(** The head comes out, and it is the least. *)
Lemma heap_remove b n q : buffer_ok b → m_prio_heap b = n :: q →
  ∃ h, pop_heap_greater (m_prio_heap b) = Ok (h ++ [n]) ∧ h ≡ₚ q ∧
    buffer_ok (with_heap b h) ∧ ∀ n', n' ∈ n :: q → node_le n n'.
Proof.
  intros (Hh & Hnd & H0 & Hmax) E. rewrite E in *.
  destruct (heap_pop n q Hh Hnd) as (h & Hp & Hperm & Hh').
  exists h. split_and!; [done|done| |].
  - simpl in Hnd. apply NoDup_cons in Hnd as [_ Hnd]. apply Forall_cons in Hmax as [_ Hmax].
    split_and!; simpl; [done|by rewrite Hperm|done|by rewrite Hperm].
  - intros n'. by apply heap_least.
Qed.

(** *** Enqueue *)

(** The node [enqueue] builds, for an arrival at [time]. *)
Definition enqueued_node b (edge time : Z) (m : Message.t P) : MessageBufferNode.t P :=
  MessageBufferNode.mk time (u64 (m_msg_counter b + 1))
    (Message.mk (Message.m_time m) time
       (u64 (Message.m_DelayedTicks m + (edge - Message.m_LastEnqueueTime m)))
       (Message.timeStamps m) (Message.payload m)).

(** What the caller of [enqueue] must ensure, [edge] and [period] being those
    of the sender. *)
Definition enqueue_pre (sys : RubySystem.t) (now rt : Z) b (m : Message.t P) (delta : Z)
    (edge time last : Z) : Prop :=
  m_ordering_set (conf b) = true ∧ is_Some (m_consumer (conf b)) ∧ 0 < delta ∧
  (∃ s, sender b = Ok s ∧ edge = ClockedObject.clockEdge now s 0 ∧
     (time, last) = arrival sys rt b edge (ClockedObject.clockPeriod s) delta) ∧
  edge < time ∧ Message.m_LastEnqueueTime m ≤ edge ∧
  (m_strict_fifo (conf b) = true → last ≤ time).

(** The new state and signals, given the reordered heap. *)
Definition enqueued sys b b' (time last : Z) : Prop :=
  conf b' = conf b ∧ m_stall_msg_map b' = m_stall_msg_map b ∧
  m_msg_counter b' = u64 (m_msg_counter b + 1) ∧
  m_last_arrival_time b' = (if RubySystem.getWarmupEnabled sys then last else time).

Lemma enqueue_total sys now rt b m delta edge time last :
  buffer_ok b → m_msg_counter b + 1 < 2 ^ 64 →
  enqueue_pre sys now rt b m delta edge time last →
  ∃ b', enqueue sys now rt b m delta false
      = Ok (b', [ScheduleEventAbsolute time; StoreEventInfo (m_vnet_id (conf b))]) ∧
    m_prio_heap b' ≡ₚ m_prio_heap b ++ [enqueued_node b edge time m] ∧
    buffer_ok b' ∧ enqueued sys b b' time last.
Proof.
  intros Hb Hc (Hord & Hcons & Hdelta & (s & Hs & -> & Harr) & Htime & Hlast & Hfifo).
  pose proof Hb as (_ & _ & H0 & _).
  assert (u64 (m_msg_counter b + 1) = m_msg_counter b + 1) as Hcnt
    by (apply uwrap_id; unfold fits; lia).
  unfold enqueue. rewrite Hord, Hs. cbn [assert_that mbind outcome_bind].
  destruct (if decide (m_time_last_time_enqueue b < _) then _ else _) as [msgs te] eqn:Ete.
  rewrite (bool_decide_eq_true_2 (0 < delta)) by done. cbn [assert_that mbind outcome_bind].
  rewrite <- Harr. rewrite (bool_decide_eq_true_2 (_ < time)) by done.
  cbn [assert_that mbind outcome_bind].
  replace (m_strict_fifo (conf b) && bool_decide (time < last)) with false.
  2:{ destruct (m_strict_fifo (conf b)); [|done]. symmetry. apply bool_decide_eq_false_2.
      specialize (Hfifo eq_refl). lia. }
  unfold Message.updateDelayedTicks.
  rewrite (bool_decide_eq_true_2 (_ ≤ _)) by done. cbn [assert_that mbind outcome_bind].
  destruct (heap_insert b (enqueued_node b (ClockedObject.clockEdge now s 0) time m))
    as (h & Hp & Hperm & Hh & Hnd & Hmax); [done|simpl; lia|].
  unfold enqueued_node in Hp. unfold Message.setLastEnqueueTime. simpl in *.
  rewrite Hp. cbn [mbind outcome_bind].
  rewrite (bool_decide_eq_true_2 (is_Some _)) by done. cbn [assert_that mbind outcome_bind].
  eexists. split_and!; [done|done| |done..].
  split_and!; simpl; [done|done|lia|done].
Qed.

(** The message of a node is the one enqueued, up to its clock. *)
Definition payloads q : list P :=
  map (λ n, Message.payload (MessageBufferNode.m_msgptr n)) q.

Lemma enqueue_Ok sys now rt b m delta b' sg :
  enqueue sys now rt b m delta false = Ok (b', sg) →
  ∃ edge time last, enqueue_pre sys now rt b m delta edge time last.
Proof.
  unfold enqueue. intros H. apply bind_Ok in H as ([] & Hord & H).
  apply bind_Ok in H as (s & Hs & H).
  destruct (if decide (m_time_last_time_enqueue b < _) then _ else _) as [msgs te].
  apply bind_Ok in H as ([] & Hdelta & H).
  destruct (arrival _ _ _ _ _ _) as [time last] eqn:Harr.
  apply bind_Ok in H as ([] & Htime & H). apply bind_Ok in H as ([] & Hfifo & H).
  apply bind_Ok in H as ([] & Hlast & H). apply bind_Ok in H as (m' & _ & H).
  apply bind_Ok in H as (h & _ & H). apply bind_Ok in H as ([] & Hcons & _).
  apply assert_that_Ok in Hord, Hdelta, Htime, Hlast, Hcons.
  rewrite bool_decide_eq_true in Hdelta, Htime, Hlast, Hcons.
  eexists _, time, last. split_and!; eauto.
  intros Hs'. rewrite Hs' in Hfifo. case_bool_decide; [done|lia].
Qed.

(** *** Dequeue *)

Lemma dequeue_total now b n q r s :
  buffer_ok b → m_prio_heap b = n :: q → receiver b = Ok r → sender b = Ok s →
  Message.m_LastEnqueueTime (MessageBufferNode.m_msgptr n) ≤ ClockedObject.clockEdge now r 0 →
  ∃ m c b', dequeue now b = Ok (m, c, b') ∧
    Message.payload m = Message.payload (MessageBufferNode.m_msgptr n) ∧
    m_prio_heap b' ≡ₚ q ∧ buffer_ok b' ∧ conf b' = conf b ∧
    m_msg_counter b' = m_msg_counter b ∧ m_stall_msg_map b' = m_stall_msg_map b ∧
    m_last_arrival_time b' = m_last_arrival_time b.
Proof.
  intros Hb E Hr Hs Hlast. unfold dequeue, front, note_pop, getCurrentCycles.
  rewrite E. cbn [head from_option_or mbind outcome_bind]. rewrite Hr.
  cbn [mbind outcome_bind]. unfold Message.updateDelayedTicks.
  rewrite (bool_decide_eq_true_2 (_ ≤ _)) by done. cbn [assert_that mbind outcome_bind].
  destruct (heap_remove b n q Hb E) as (h & Hp & Hperm & Hok & _).
  change Trace.RANDOM_RECV with false. cbv iota beta.
  case_decide; cbn [m_prio_heap with_pop with_heap]; rewrite Hp; cbn [mbind outcome_bind];
    rewrite pop_back_app; change (sender (with_heap _ _)) with (sender b); rewrite Hs;
    cbn [mbind outcome_bind]; eexists _, _, _; split_and!; done.
Qed.

Lemma dequeue_Ok now b m c b' : dequeue now b = Ok (m, c, b') →
  ∃ n q r s, m_prio_heap b = n :: q ∧ receiver b = Ok r ∧ sender b = Ok s ∧
    Message.m_LastEnqueueTime (MessageBufferNode.m_msgptr n) ≤ ClockedObject.clockEdge now r 0.
Proof.
  unfold dequeue, front, note_pop, Message.updateDelayedTicks. intros H.
  apply bind_Ok in H as (n & Hn & H). apply bind_Ok in H as ([m' b1] & Hpop & H).
  apply bind_Ok in Hpop as (r & Hr & Hpop). apply bind_Ok in Hpop as (m1 & Hm1 & Hpop).
  apply bind_Ok in Hm1 as ([] & Hle%assert_that_Ok & _). rewrite bool_decide_eq_true in Hle.
  apply bind_Ok in H as (h & _ & H). unfold getCurrentCycles in H.
  apply bind_Ok in H as (c' & Hc & _). apply bind_Ok in Hc as (s & Hs & _).
  destruct (m_prio_heap b) as [|n0 q] eqn:E; simpl in Hn; [done|]. injection Hn as ->.
  exists n, q, r, s. split_and!; try done.
  injection Hpop as _ <-. by destruct (decide (m_time_last_time_pop b < _)).
Qed.

Lemma dequeue_frame now b m c b' : dequeue now b = Ok (m, c, b') →
  m_stall_msg_map b' = m_stall_msg_map b ∧ conf b' = conf b ∧ m_msg_counter b' = m_msg_counter b.
Proof.
  unfold dequeue, note_pop. intros H.
  apply bind_Ok in H as (n & _ & H). apply bind_Ok in H as ([m' b1] & Hpop & H).
  apply bind_Ok in Hpop as (r & _ & Hpop). apply bind_Ok in Hpop as (m1 & _ & Hpop).
  apply bind_Ok in H as (h & _ & H). apply bind_Ok in H as (c' & _ & H).
  injection H as _ _ <-. injection Hpop as _ <-. cbn.
  by destruct (decide (m_time_last_time_pop b < _)).
Qed.

End ordering.

(** ** A strict FIFO buffer is a queue *)

Section fifo.
Context {P : Type}.
Implicit Types (b : t P) (n : MessageBufferNode.t P) (q : list (MessageBufferNode.t P)).

(** [q] lists the messages of [b] in order, none arriving after the last
    arrival time. *)
Definition fifo_repr b q : Prop :=
  buffer_ok b ∧ m_strict_fifo (conf b) = true ∧ q ≡ₚ m_prio_heap b ∧
  StronglySorted node_le q ∧
  Forall (λ n, MessageBufferNode.m_time n ≤ m_last_arrival_time b) q.

Inductive fifo_op : Type :=
  | Enq (now rt : Z) (m : Message.t P) (delta : Z)
  | Deq (now : Z).

(** The state after the operations and the messages dequeued. *)
Fixpoint fifo_run (sys : RubySystem.t) b (ops : list fifo_op) : outcome (t P * list P) :=
  match ops with
  | [] => Ok (b, [])
  | Enq now rt m delta :: ops =>
      r ← enqueue sys now rt b m delta false; fifo_run sys r.1 ops
  | Deq now :: ops =>
      r ← dequeue now b;
      let '(m, _, b) := r in
      r ← fifo_run sys b ops; Ok (r.1, Message.payload m :: r.2)
  end.

Fixpoint enqueued_payloads (ops : list fifo_op) : list P :=
  match ops with
  | [] => []
  | Enq _ _ m _ :: ops => Message.payload m :: enqueued_payloads ops
  | Deq _ :: ops => enqueued_payloads ops
  end.

Lemma StronglySorted_snoc {A} (R : A → A → Prop) (l : list A) x :
  StronglySorted R l → Forall (λ y, R y x) l → StronglySorted R (l ++ [x]).
Proof.
  induction 1 as [|y l Hl IH Hy]; intros Hx; simpl; [repeat constructor|].
  apply Forall_cons in Hx as [? ?]. constructor; [auto|].
  apply Forall_app. split; [done|]. by apply Forall_singleton.
Qed.

Lemma arrival_last sys rt b edge period delta :
  m_last_arrival_time b ≤ (arrival sys rt b edge period delta).2.
Proof. unfold arrival. repeat case_match; simpl; try case_decide; lia. Qed.

Lemma fifo_enqueue sys now rt b q m delta b' sg :
  fifo_repr b q → RubySystem.getWarmupEnabled sys = false → m_msg_counter b + 1 < 2 ^ 64 →
  enqueue sys now rt b m delta false = Ok (b', sg) →
  ∃ n, fifo_repr b' (q ++ [n]) ∧ m_msg_counter b' = m_msg_counter b + 1 ∧
    Message.payload (MessageBufferNode.m_msgptr n) = Message.payload m.
Proof.
  intros (Hok & Hstrict & Hperm & Hsorted & Hlast) Hw Hc Henq.
  destruct (enqueue_Ok _ _ _ _ _ _ _ _ Henq) as (edge & time & last & Hpre).
  destruct (enqueue_total sys now rt b m delta edge time last Hok Hc Hpre)
    as (b1 & Hb1 & Hheap & Hok1 & Hconf & Hst & Hcnt & Hla).
  rewrite Henq in Hb1. injection Hb1 as <- _. rewrite Hw in Hla.
  destruct Hpre as (_ & _ & _ & (s & _ & _ & Harr) & _ & _ & Hfifo).
  pose proof (arrival_last sys rt b edge (ClockedObject.clockPeriod s) delta) as Hmono.
  rewrite <- Harr in Hmono. simpl in Hmono. specialize (Hfifo Hstrict).
  pose proof Hok as (_ & _ & H0 & Hmax).
  assert (u64 (m_msg_counter b + 1) = m_msg_counter b + 1) as Hu
    by (apply uwrap_id; unfold fits; lia).
  exists (enqueued_node b edge time m). split_and!; [|congruence|done].
  split_and!; [done|congruence|by rewrite Hheap, Hperm| |].
  - apply StronglySorted_snoc; [done|]. apply Forall_forall. intros n Hn.
    rewrite Forall_forall in Hlast. specialize (Hlast n Hn).
    rewrite Hperm in Hn. rewrite Forall_forall in Hmax. specialize (Hmax n Hn).
    unfold node_le, enqueued_node. simpl. lia.
  - apply Forall_app. split; [|apply Forall_singleton; simpl; lia].
    eapply Forall_impl; [done|]. simpl. lia.
Qed.

Lemma node_le_antisym (l : list (MessageBufferNode.t P)) n n' :
  NoDup (MessageBufferNode.m_msg_counter <$> l) → n ∈ l → n' ∈ l →
  node_le n n' → node_le n' n → n = n'.
Proof.
  intros Hnd Hn Hn' H1 H2.
  assert (MessageBufferNode.m_msg_counter n = MessageBufferNode.m_msg_counter n') as E
    by (unfold node_le in *; lia).
  apply list_elem_of_lookup in Hn as [i Hi]. apply list_elem_of_lookup in Hn' as [j Hj].
  assert (i = j) as ->; [|congruence].
  apply (NoDup_lookup (MessageBufferNode.m_msg_counter <$> l) i j
    (MessageBufferNode.m_msg_counter n)); [done|..]; rewrite list_lookup_fmap.
  - by rewrite Hi.
  - by rewrite Hj, E.
Qed.

Lemma fifo_dequeue now b q m c b' :
  fifo_repr b q → dequeue now b = Ok (m, c, b') →
  ∃ n q', q = n :: q' ∧ fifo_repr b' q' ∧ m_msg_counter b' = m_msg_counter b ∧
    Message.payload m = Message.payload (MessageBufferNode.m_msgptr n).
Proof.
  intros (Hok & Hstrict & Hperm & Hsorted & Hlast) Hdeq.
  destruct (dequeue_Ok _ _ _ _ _ Hdeq) as (n & h & r & s & Hh & Hr & Hs & Hle).
  destruct (dequeue_total now b n h r s Hok Hh Hr Hs Hle)
    as (m1 & c1 & b1 & Hd & Hpay & Hheap & Hok1 & Hconf & Hcnt & _ & Hla).
  rewrite Hdeq in Hd. injection Hd as <- _ <-.
  destruct (heap_remove b n h Hok Hh) as (_ & _ & _ & _ & Hleast).
  rewrite Hh in Hperm. destruct q as [|n' q']; [by apply Permutation_nil_l in Hperm|].
  apply StronglySorted_inv in Hsorted as [Hsorted Hn'].
  assert (n' = n) as ->.
  { apply (node_le_antisym (n :: h)); [rewrite <- Hh; apply Hok|rewrite <- Hperm; set_solver| | |].
    - set_solver.
    - assert (n ∈ n' :: q') as [->|Hin]%elem_of_cons by (rewrite Hperm; set_solver); [done|].
      rewrite Forall_forall in Hn'. auto.
    - apply Hleast. rewrite <- Hperm. set_solver. }
  exists n, q'. split_and!; [done| |done|done].
  apply Forall_cons in Hlast as [_ Hlast].
  split_and!; [done|congruence| |done|by rewrite Hla].
  rewrite Hheap. by apply (Permutation_cons_inv (a := n)).
Qed.

Lemma fifo_run_spec sys ops : RubySystem.getWarmupEnabled sys = false →
  ∀ b q b' outs, fifo_repr b q → m_msg_counter b + Z.of_nat (length ops) < 2 ^ 64 →
  fifo_run sys b ops = Ok (b', outs) →
  ∃ q', fifo_repr b' q' ∧ payloads q ++ enqueued_payloads ops = outs ++ payloads q'.
Proof.
  intros Hw. induction ops as [|[now rt m delta|now] ops IH]; intros b q b' outs Hq Hc Hrun;
    cbn [fifo_run length enqueued_payloads] in *.
  - injection Hrun as <- <-. exists q. by rewrite app_nil_r.
  - apply bind_Ok in Hrun as ([b1 sg] & Henq & Hrun).
    destruct (fifo_enqueue sys now rt b q m delta b1 sg Hq Hw) as (n & Hq1 & Hc1 & Hp); [lia|done|].
    destruct (IH b1 (q ++ [n]) b' outs) as (q' & Hq' & Heq); [done|lia|done|].
    exists q'. split; [done|]. rewrite <- Heq. unfold payloads. rewrite map_app. simpl.
    by rewrite <- app_assoc, Hp.
  - apply bind_Ok in Hrun as ([[m c] b1] & Hdeq & Hrun).
    apply bind_Ok in Hrun as ([b2 outs2] & Hrun & [= <- <-]).
    destruct (fifo_dequeue now b q m c b1 Hq Hdeq) as (n & q1 & -> & Hq1 & Hc1 & Hp).
    destruct (IH b1 q1 b2 outs2) as (q' & Hq' & Heq); [done|lia|done|].
    exists q'. split; [done|]. simpl. by rewrite Hp, Heq.
Qed.

End fifo.

(** ** Stalled messages *)

Section stalling.
Context {P : Type}.
Implicit Types (b : t P).

(** Every message the buffer holds, queued or stalled. *)
Definition contents b : list P :=
  payloads (m_prio_heap b) ++ (Message.payload <$> stalled b).

Lemma reanalyzeList_total lt nextTick : ∀ b, buffer_ok b →
  m_msg_counter b + Z.of_nat (length lt) < 2 ^ 64 →
  ∃ b' sg, reanalyzeList (length lt) b lt nextTick = Ok (b', sg) ∧ buffer_ok b' ∧
    payloads (m_prio_heap b') ≡ₚ payloads (m_prio_heap b) ++ (Message.payload <$> lt) ∧
    m_stall_msg_map b' = m_stall_msg_map b ∧ conf b' = conf b ∧
    m_msg_counter b' = m_msg_counter b + Z.of_nat (length lt) ∧
    sg = replicate (length lt) (ScheduleEventAbsolute nextTick).
Proof.
  induction lt as [|m lt IH]; intros b Hb Hc.
  { exists b, []. split_and!; try done; [by rewrite app_nil_r|simpl; lia]. }
  cbn [reanalyzeList length]. cbn [length] in Hc.
  change (reanalyze_pos (m :: lt)) with 0%nat. change Trace.RANDOM_RECV with false.
  cbn [lookup list_lookup from_option_or mbind outcome_bind].
  pose proof Hb as (_ & _ & H0 & _).
  assert (u64 (m_msg_counter b + 1) = m_msg_counter b + 1) as Hu
    by (apply uwrap_id; unfold fits; lia).
  destruct (heap_insert b (MessageBufferNode.mk nextTick (u64 (m_msg_counter b + 1)) m))
    as (h & -> & Hperm & Hh & Hnd & Hmax); [done|simpl; lia|]. cbn [mbind outcome_bind].
  destruct (IH (with_heap (with_counters b (m_not_avail_count b) (u64 (m_msg_counter b + 1))) h))
    as (b' & sg & Hre & Hok & Hpay & Hst & Hconf & Hcnt & Hsg).
  - split_and!; simpl; [done|done|lia|done].
  - simpl. lia.
  - simpl delete. rewrite Hre. cbn [mbind outcome_bind]. exists b', (ScheduleEventAbsolute nextTick :: sg).
    split_and!; [done|done| |done|done|simpl in Hcnt; lia|by simpl; rewrite Hsg].
    rewrite Hpay. simpl. unfold payloads. rewrite Hperm, map_app. simpl.
    by rewrite <- app_assoc.
Qed.

Lemma stalled_push addr m s :
  concat (stall_push (P := P) addr m s).*2 ≡ₚ m :: concat s.*2.
Proof.
  induction s as [|[a ms] s IH]; simpl; [done|]. case_decide; [|case_decide]; simpl; [|done|].
  - rewrite <- app_assoc. simpl. by rewrite Permutation_middle.
  - rewrite IH. by rewrite Permutation_middle.
Qed.

Lemma stalled_erase addr s ms : NoDup (s.*1) → stall_find (P := P) addr s = Some ms →
  concat s.*2 ≡ₚ ms ++ concat (stall_erase addr s).*2.
Proof.
  induction s as [|[a ms'] s IH]; simpl; [done|]. intros [Ha Hnd]%NoDup_cons Hf.
  unfold stall_erase. rewrite filter_cons. case_decide as E; simpl.
  - injection Hf as ->. subst a. rewrite decide_False by (simpl; tauto).
    f_equiv. f_equiv. f_equiv. clear IH. induction s as [|[a' ms'] s IH]; [done|].
    rewrite filter_cons. simpl in Ha. rewrite decide_True by (simpl; set_solver).
    f_equiv. apply IH; [set_solver|by apply NoDup_cons in Hnd as [_ ?]].
  - rewrite decide_True by (simpl; congruence). simpl. rewrite IH by done.
    rewrite !app_assoc. apply Permutation_app_tail, Permutation_app_comm.
Qed.

(** The keys of the stall map are distinct. *)
Definition stall_ok b : Prop := NoDup (m_stall_msg_map b).*1.

Lemma reanalyzeMessages_total now b addr ms r : buffer_ok b → stall_ok b →
  stall_find addr (m_stall_msg_map b) = Some ms → receiver b = Ok r →
  m_msg_counter b + Z.of_nat (length ms) < 2 ^ 64 →
  ∃ b' sg, reanalyzeMessages now b addr = Ok (b', sg) ∧ buffer_ok b' ∧
    contents b' ≡ₚ contents b ∧ stall_find addr (m_stall_msg_map b') = None.
Proof.
  intros Hb Hst Hf Hr Hc. unfold reanalyzeMessages. rewrite Hf, Hr. cbn [from_option_or mbind outcome_bind].
  destruct (reanalyzeList_total ms (ClockedObject.clockEdge now r 1) b Hb Hc)
    as (b1 & sg & -> & Hok & Hpay & Hst1 & Hconf & Hcnt & Hsg). cbn [mbind outcome_bind].
  eexists _, sg. split_and!; [done|done| |].
  - unfold contents, stalled. simpl. rewrite Hst1, Hpay, <- app_assoc. f_equiv.
    rewrite (stalled_erase addr (m_stall_msg_map b) ms Hst Hf), fmap_app. done.
  - simpl. rewrite Hst1. unfold stall_erase. clear. induction (m_stall_msg_map b) as [|[a ms] s IH];
      [done|]. rewrite filter_cons. simpl. case_decide; [|done]. simpl.
    by rewrite decide_False by congruence.
Qed.

Lemma reanalyzeAll_loop nextTick s : ∀ b sg0, buffer_ok b →
  m_msg_counter b + Z.of_nat (length (concat s.*2)) < 2 ^ 64 →
  ∃ b' sg, mfold (λ acc (e : Z * list (Message.t P)),
      res ← reanalyzeList (length e.2) acc.1 e.2 nextTick; Ok (res.1, acc.2 ++ res.2))
      (b, sg0) s = Ok (b', sg) ∧ buffer_ok b' ∧ conf b' = conf b ∧
    m_msg_counter b' = m_msg_counter b + Z.of_nat (length (concat s.*2)) ∧
    payloads (m_prio_heap b') ≡ₚ payloads (m_prio_heap b) ++ (Message.payload <$> concat s.*2).
Proof.
  induction s as [|[a ms] s IH]; intros b sg0 Hb Hc.
  { eexists _, _. split_and!; [done|done|done|cbn; lia|]. by rewrite app_nil_r. }
  rewrite fmap_cons in *. cbn [mfold concat fst snd] in *. rewrite length_app in Hc.
  destruct (reanalyzeList_total ms nextTick b Hb) as (b1 & sg & -> & Hok & Hpay & _ & Hconf & Hcnt & _);
    [lia|]. cbn [mbind outcome_bind fst snd].
  destruct (IH b1 (sg0 ++ sg) Hok) as (b' & sg' & -> & Hok' & Hconf' & Hcnt' & Hpay'); [lia|].
  eexists _, _. split_and!; [done|done|congruence|rewrite length_app; lia|]. rewrite Hpay', Hpay, fmap_app, <- app_assoc. done.
Qed.

Lemma reanalyzeAllMessages_total now b r : buffer_ok b → receiver b = Ok r →
  m_msg_counter b + Z.of_nat (length (stalled b)) < 2 ^ 64 →
  ∃ b' sg, reanalyzeAllMessages now b = Ok (b', sg) ∧ buffer_ok b' ∧
    contents b' ≡ₚ contents b ∧ m_stall_msg_map b' = [] ∧ conf b' = conf b ∧
    m_msg_counter b' = m_msg_counter b + Z.of_nat (length (stalled b)).
Proof.
  intros Hb Hr Hc. unfold reanalyzeAllMessages. rewrite Hr. cbn [mbind outcome_bind].
  destruct (reanalyzeAll_loop (ClockedObject.clockEdge now r 1) (m_stall_msg_map b) b [] Hb Hc)
    as (b' & sg & -> & Hok & Hconf & Hcnt & Hpay). cbn [mbind outcome_bind].
  eexists _, sg. split_and!; [done|done| |done|done|done].
  unfold contents, stalled at 1. simpl. by rewrite app_nil_r, Hpay.
Qed.

End stalling.

(** ** Properties *)

(** A buffer between two ends on the same clock of period 1. *)
Definition demo_clock : clocked_ref := mkClocked 0 (ClockedObject.create 1).
Definition demo (strict : bool) : t Z :=
  with_conf (create 1) (mkConfig 1 (Some demo_clock) (Some demo_clock) (Some ToController)
    0 0 strict true false 0 0).
Definition demo_sys : RubySystem.t := RubySystem.mk false 64 6 0 false.
Definition demo_msg (p : Z) : Message.t Z := Message.create 0 p.

Lemma demo_fifo : fifo_repr (demo true) [].
Proof.
  split_and!; [|done|done|constructor|constructor].
  split_and!; [apply heap_nil|constructor|done|constructor].
Qed.

(** A buffer in strict FIFO mode behaves as a first-in first-out queue as long
    as it is used by ordinary enqueues and by [dequeue] of the head (neither an
    enqueue of a read-modify-write, [rmw_enqueue_delays_head], nor [dequeue] of a
    position, [dequeue_at_hides_ready]): over any run of them, whatever the delays, the
    messages that came out followed by those still queued are the messages
    that were queued followed by those enqueued, in order. *)
Theorem strict_fifo_order {P} sys (b : t P) q ops b' outs :
  RubySystem.getWarmupEnabled sys = false → fifo_repr b q →
  m_msg_counter b + Z.of_nat (length ops) < 2 ^ 64 →
  fifo_run sys b ops = Ok (b', outs) →
  ∃ q', fifo_repr b' q' ∧ payloads q ++ enqueued_payloads ops = outs ++ payloads q'.
Proof. intros. by eapply fifo_run_spec. Qed.

Lemma strict_fifo_order_witness : ∃ b' q',
  fifo_run demo_sys (demo true)
    [Enq 0 0 (demo_msg 7) 3; Enq 1 0 (demo_msg 8) 2; Deq 5; Enq 5 0 (demo_msg 9) 1]
  = Ok (b', [7]) ∧ fifo_repr b' q' ∧ [7; 8; 9] = [7] ++ payloads q'.
Proof.
  eexists. destruct (strict_fifo_order demo_sys (demo true) []
    [Enq 0 0 (demo_msg 7) 3; Enq 1 0 (demo_msg 8) 2; Deq 5; Enq 5 0 (demo_msg 9) 1] _ _
    eq_refl demo_fifo ltac:(vm_compute; reflexivity) ltac:(vm_compute; reflexivity))
    as (q' & Hq' & Heq).
  exists q'. split_and!; [vm_compute; reflexivity|exact Hq'|exact Heq].
Defined.

(** When a buffer is ready, [dequeue] returns, and what it returns is the
    queued message with the least arrival time and, among those, the one
    enqueued first; exactly that message leaves and the order of the others
    is kept.  When the head has not arrived yet, [dequeue] fails its assert. *)
Theorem dequeue_earliest {P} now (b : t P) r s : buffer_ok b →
  receiver b = Ok r → sender b = Ok s →
  Forall (λ n, Message.m_LastEnqueueTime (MessageBufferNode.m_msgptr n)
               = MessageBufferNode.m_time n) (m_prio_heap b) →
  (isReady now b = Ok true → ∃ n m c b',
     dequeue now b = Ok (m, c, b') ∧
     (∀ n', n' ∈ m_prio_heap b → node_le n n') ∧
     MessageBufferNode.m_time n ≤ ClockedObject.clockEdge now r 0 ∧
     Message.payload m = Message.payload (MessageBufferNode.m_msgptr n) ∧
     m_prio_heap b ≡ₚ n :: m_prio_heap b' ∧ buffer_ok b') ∧
  (isReady now b = Ok false → m_prio_heap b ≠ [] → dequeue now b = Err AssertFail).
Proof.
  intros Hb Hr Hs Hlast. unfold isReady.
  destruct (m_prio_heap b) as [|n q] eqn:E; [split; [done|done]|].
  rewrite Hr. cbn [mbind outcome_bind]. apply Forall_cons in Hlast as [Hn _].
  split; intros [= Hready].
  - rewrite bool_decide_eq_true in Hready. rewrite <- Hn in Hready.
    destruct (dequeue_total now b n q r s Hb E Hr Hs Hready)
      as (m & c & b' & Hd & Hpay & Hheap & Hok & _).
    destruct (heap_remove b n q Hb E) as (_ & _ & _ & _ & Hleast).
    exists n, m, c, b'. split_and!; [done|exact Hleast|by rewrite <- Hn|done|by rewrite Hheap|done].
  - intros _. rewrite bool_decide_eq_false in Hready.
    unfold dequeue, front, note_pop, Message.updateDelayedTicks. rewrite E.
    cbn [head from_option_or mbind outcome_bind]. rewrite Hr. cbn [mbind outcome_bind].
    rewrite Hn, bool_decide_eq_false_2 by done. done.
Qed.

(** Three messages enqueued at time 0 with delays 5, 2 and 2. *)
Definition demo3 : outcome (t Z) :=
  r ← enqueue demo_sys 0 0 (demo false) (demo_msg 7) 5 false;
  r ← enqueue demo_sys 0 0 r.1 (demo_msg 8) 2 false;
  r ← enqueue demo_sys 0 0 r.1 (demo_msg 9) 2 false;
  Ok r.1.

Lemma demo_enqueue b p delta : buffer_ok b → m_msg_counter b < 1000 → 0 < delta < 1000 →
  conf b = conf (demo false) →
  ∃ b' sg, enqueue demo_sys 0 0 b (demo_msg p) delta false = Ok (b', sg) ∧ buffer_ok b' ∧
    m_msg_counter b' = m_msg_counter b + 1 ∧ conf b' = conf (demo false).
Proof.
  intros Hb Hc Hd Hconf.
  assert (u64 (0 + u64 (delta * 1)) = delta) as Ht
    by (unfold u64; rewrite Z.add_0_l, Z.mul_1_r, !(uwrap_id 64 delta); unfold fits; lia).
  destruct (enqueue_total demo_sys 0 0 b (demo_msg p) delta 0 delta (m_last_arrival_time b))
    as (b' & -> & _ & Hok & Hcf & _ & Hcnt & _); [done|lia| |].
  - unfold enqueue_pre, sender, arrival. rewrite Hconf. split_and!; try done; try lia.
    eexists. split_and!; [done|done|]. simpl. by rewrite Ht.
  - eexists _, _. split_and!; [done|done| |congruence]. rewrite Hcnt.
    apply uwrap_id. pose proof Hb as (_ & _ & H0 & _). unfold fits. lia.
Qed.

Lemma demo3_ok : ∃ b, demo3 = Ok b ∧ buffer_ok b.
Proof.
  unfold demo3.
  destruct (demo_enqueue (demo false) 7 5) as (b1 & s1 & -> & H1 & C1 & F1);
    [split_and!; [apply heap_nil|constructor|done|constructor]|done|lia|done|].
  cbn [mbind outcome_bind fst].
  destruct (demo_enqueue b1 8 2) as (b2 & s2 & -> & H2 & C2 & F2); [done|rewrite C1; done|lia|done|].
  cbn [mbind outcome_bind fst].
  destruct (demo_enqueue b2 9 2) as (b3 & s3 & -> & H3 & _ & _);
    [done|rewrite C2, C1; done|lia|done|]. exists b3. split; [done|exact H3].
Qed.

Lemma dequeue_earliest_witness : ∃ b m c b',
  demo3 = Ok b ∧ dequeue 2 b = Ok (m, c, b') ∧ Message.payload m = 8 ∧
  dequeue 1 b = Err AssertFail.
Proof.
  destruct demo3_ok as (b & Hb & Hok). exists b.
  assert (Hb' := Hb). vm_compute in Hb'. injection Hb' as <-.
  edestruct (dequeue_earliest 2 _ _ _ Hok eq_refl eq_refl) as [Hready _];
    [repeat constructor|].
  edestruct (dequeue_earliest 1 _ _ _ Hok eq_refl eq_refl) as [_ Hearly];
    [repeat constructor|].
  destruct Hready as (n & m & c & b' & Hd & _ & _ & _ & _ & _); [vm_compute; reflexivity|].
  exists m, c, b'. split_and!; [exact Hb|exact Hd| |apply Hearly; [vm_compute; reflexivity|discriminate]].
  vm_compute in Hd. injection Hd as <- _ _. reflexivity.
Defined.

(** Stalling loses nothing: putting the stalled messages of an address (or
    of all addresses) back succeeds, keeps the queue ordered, leaves nothing
    stalled there, and preserves the collection of messages the buffer
    holds. *)
Theorem reanalyze_conserves {P} now (b : t P) addr ms r : buffer_ok b → stall_ok b →
  stall_find addr (m_stall_msg_map b) = Some ms → receiver b = Ok r →
  m_msg_counter b + Z.of_nat (length ms) + Z.of_nat (length (stalled b)) < 2 ^ 64 →
  (∃ b' sg, reanalyzeMessages now b addr = Ok (b', sg) ∧ buffer_ok b' ∧
     contents b' ≡ₚ contents b ∧ stall_find addr (m_stall_msg_map b') = None) ∧
  (∃ b' sg, reanalyzeAllMessages now b = Ok (b', sg) ∧ buffer_ok b' ∧
     contents b' ≡ₚ contents b ∧ m_stall_msg_map b' = []).
Proof.
  intros Hb Hst Hf Hr Hc. split.
  - eapply reanalyzeMessages_total; eauto. lia.
  - destruct (reanalyzeAllMessages_total now b r) as (b' & sg & ? & ? & ? & ? & _ & _); [done|done|lia|].
    by exists b', sg.
Qed.

Lemma reanalyze_conserves_witness : ∃ b' sg,
  reanalyzeMessages 3 (with_stall (demo false) [(64, [demo_msg 5; demo_msg 6])]) 64 = Ok (b', sg) ∧
  contents b' ≡ₚ [5; 6].
Proof.
  destruct (reanalyze_conserves 3 (with_stall (demo false) [(64, [demo_msg 5; demo_msg 6])]) 64
    [demo_msg 5; demo_msg 6] (ClockedObject.create 1)) as ((b' & sg & Hr & _ & Hc & _) & _).
  - split_and!; [apply heap_nil|constructor|done|constructor].
  - unfold stall_ok. simpl. apply NoDup_singleton.
  - reflexivity.
  - reflexivity.
  - reflexivity.
  - exists b', sg. split; [exact Hr|exact Hc].
Defined.

(** Moving the head to the stall map and back: [stallMessage] on a ready
    buffer removes exactly the head from the queue, records it under the
    address, and keeps the collection of messages the buffer holds. *)
Theorem stall_conserves {P} sys now (b : t P) addr n q r s :
  buffer_ok b → m_prio_heap b = n :: q → receiver b = Ok r → sender b = Ok s →
  Message.m_LastEnqueueTime (MessageBufferNode.m_msgptr n) ≤ ClockedObject.clockEdge now r 0 →
  Address.getOffset sys addr = Ok 0 →
  ∃ b', stallMessage sys now b addr = Ok b' ∧ buffer_ok b' ∧
    m_prio_heap b' ≡ₚ q ∧ contents b' ≡ₚ contents b.
Proof.
  intros Hb E Hr Hs Hle Hoff. unfold stallMessage, front. rewrite Hoff, E.
  cbn [mbind outcome_bind assert_that head from_option_or].
  destruct (dequeue_total now b n q r s Hb E Hr Hs Hle)
    as (m & c & b' & -> & Hpay & Hheap & Hok & _ & _ & Hst & _).
  rewrite (bool_decide_eq_true_2 (0 = 0)) by done. cbn [mbind outcome_bind assert_that].
  eexists. split_and!; [done|done|done|].
  unfold contents, stalled. simpl m_prio_heap. simpl m_stall_msg_map.
  rewrite stalled_push, Hst, fmap_cons, E. unfold payloads. rewrite Hheap. simpl.
  rewrite Hpay. by rewrite Permutation_middle.
Qed.

Lemma stall_conserves_witness : ∃ b b',
  demo3 = Ok b ∧ stallMessage demo_sys 2 b 128 = Ok b' ∧ contents b' ≡ₚ contents b.
Proof.
  destruct demo3_ok as (b & Hb & Hok). exists b.
  assert (Hb' := Hb). vm_compute in Hb'. injection Hb' as <-.
  edestruct (stall_conserves demo_sys 2 _ 128 _ _ _ _ Hok eq_refl eq_refl eq_refl)
    as (b' & Hs & _ & _ & Hc); [vm_compute; discriminate|vm_compute; reflexivity|].
  exists b'. split_and!; [exact Hb|exact Hs|exact Hc].
Defined.

(** The read-modify-write path pushes the new message at the front and then
    repairs the heap with the reversed comparison.  With two messages queued,
    the later one becomes the head and the buffer is not ready although both
    the first message and the new one have arrived. *)
Theorem rmw_enqueue_delays_head {P} sys now rt (b : t P) m delta edge time last x y now' r :
  enqueue_pre sys now rt b m delta edge time last → m_prio_heap b = [x; y] →
  time < MessageBufferNode.m_time y → receiver b = Ok r →
  ClockedObject.clockEdge now' r 0 < MessageBufferNode.m_time y →
  ∃ b' sg, enqueue sys now rt b m delta true = Ok (b', sg) ∧
    m_prio_heap b' = [y; x; enqueued_node b edge time m] ∧ isReady now' b' = Ok false.
Proof.
  intros (Hord & Hcons & Hdelta & (s & Hs & -> & Harr) & Htime & Hlast & Hfifo) E Hy Hr Hedge.
  unfold enqueue. rewrite Hord, Hs. cbn [assert_that mbind outcome_bind].
  destruct (if decide (m_time_last_time_enqueue b < _) then _ else _) as [msgs te] eqn:Ete.
  rewrite (bool_decide_eq_true_2 (0 < delta)) by done. cbn [assert_that mbind outcome_bind].
  rewrite <- Harr. rewrite (bool_decide_eq_true_2 (_ < time)) by done.
  cbn [assert_that mbind outcome_bind].
  replace (m_strict_fifo (conf b) && bool_decide (time < last)) with false.
  2:{ destruct (m_strict_fifo (conf b)); [|done]. symmetry. apply bool_decide_eq_false_2.
      specialize (Hfifo eq_refl). lia. }
  unfold Message.updateDelayedTicks.
  rewrite (bool_decide_eq_true_2 (_ ≤ _)) by done. cbn [assert_that mbind outcome_bind].
  rewrite E. unfold Message.setLastEnqueueTime. simpl.
  fold (enqueued_node b (ClockedObject.clockEdge now s 0) time m).
  set (n := enqueued_node b (ClockedObject.clockEdge now s 0) time m).
  assert (push_heap_less [n; x; y] = Ok [y; x; n]) as ->.
  { unfold push_heap_less, StdHeap.push_heap, StdHeap.push_from. simpl.
    change (StdHeap.parent 2) with 0%nat. simpl. unfold MessageBufferNode.less. simpl.
    rewrite decide_False by lia. simpl. by rewrite (bool_decide_eq_true_2 (time < _)) by done. }
  cbn [mbind outcome_bind]. rewrite (bool_decide_eq_true_2 (is_Some _)) by done.
  cbn [assert_that mbind outcome_bind]. eexists _, _. split_and!; [done|done|].
  unfold isReady. simpl. change (receiver (with_heap _ _)) with (receiver b). rewrite Hr. simpl.
  by rewrite bool_decide_eq_false_2 by lia.
Qed.

Lemma rmw_enqueue_delays_head_witness : ∃ b b' sg,
  (r ← enqueue demo_sys 0 0 (demo false) (demo_msg 7) 2 false;
   r ← enqueue demo_sys 0 0 r.1 (demo_msg 8) 9 false; Ok r.1) = Ok b ∧
  enqueue demo_sys 0 0 b (demo_msg 9) 3 true = Ok (b', sg) ∧ isReady 4 b' = Ok false.
Proof.
  eexists. edestruct (rmw_enqueue_delays_head demo_sys 0 0
    (match (r ← enqueue demo_sys 0 0 (demo false) (demo_msg 7) 2 false;
            r ← enqueue demo_sys 0 0 r.1 (demo_msg 8) 9 false; Ok r.1) with
     | Ok b => b | Err _ => demo false end)
    (demo_msg 9) 3 0 3 9) with (now' := 4) as (b' & sg & H1 & _ & H2).
  - split; [reflexivity|]. split; [eexists; vm_compute; reflexivity|]. split; [reflexivity|].
    split; [exists (ClockedObject.create 1); split_and!; vm_compute; reflexivity|].
    split; [reflexivity|]. split; [vm_compute; discriminate|]. vm_compute. discriminate.
  - vm_compute. reflexivity.
  - vm_compute. reflexivity.
  - reflexivity.
  - vm_compute. reflexivity.
  - exists b', sg. split_and!; [|exact H1|exact H2]. vm_compute. reflexivity.
Defined.

(** Taking a message by position erases it from the middle of the heap
    without repairing the order: after [dequeue(0)] the second element is the
    head whatever the third, so the buffer can report that it is not ready
    while it holds a message that has arrived. *)
Theorem dequeue_at_hides_ready {P} now (b : t P) x y z r s :
  m_prio_heap b = [x; y; z] → receiver b = Ok r → sender b = Ok s →
  Message.m_LastEnqueueTime (MessageBufferNode.m_msgptr x) ≤ ClockedObject.clockEdge now r 0 →
  MessageBufferNode.m_time z ≤ ClockedObject.clockEdge now r 0 < MessageBufferNode.m_time y →
  ∃ m c b', dequeue_at now b 0 = Ok (m, c, b') ∧ m_prio_heap b' = [y; z] ∧
    isReady now b' = Ok false ∧ isReady_at now b' 1 = Ok true.
Proof.
  intros E Hr Hs Hx [Hz Hy]. unfold dequeue_at, note_pop, getCurrentCycles.
  rewrite E. change (vget [x; y; z] 0) with (Ok x). cbn [mbind outcome_bind].
  rewrite Hr. cbn [mbind outcome_bind]. unfold Message.updateDelayedTicks.
  rewrite (bool_decide_eq_true_2 (_ ≤ _)) by done. cbn [assert_that mbind outcome_bind].
  assert (∀ b1, conf b1 = conf b → m_prio_heap b1 = [y; z] →
    isReady now b1 = Ok false ∧ isReady_at now b1 1 = Ok true) as Hready.
  { intros b1 Hc Hb1. unfold isReady, isReady_at, receiver. rewrite Hb1, Hc.
    unfold receiver in Hr. rewrite Hr. cbn [mbind outcome_bind].
    rewrite bool_decide_eq_false_2 by lia. split; [done|].
    change (vget [y; z] 1) with (Ok z). cbn [mbind outcome_bind].
    by rewrite bool_decide_eq_true_2 by lia. }
  case_decide; cbn [m_prio_heap with_pop with_heap]; rewrite E;
    change (sender (with_heap _ _)) with (sender b); rewrite Hs; cbn [mbind outcome_bind];
    eexists _, _, _; (split_and!; [done|done|..]); apply Hready; done.
Qed.

(** Three messages enqueued at time 0 with delays 1, 9 and 2. *)
Definition demo_uneven : outcome (t Z) :=
  r ← enqueue demo_sys 0 0 (demo false) (demo_msg 7) 1 false;
  r ← enqueue demo_sys 0 0 r.1 (demo_msg 8) 9 false;
  r ← enqueue demo_sys 0 0 r.1 (demo_msg 9) 2 false; Ok r.1.

Lemma demo_uneven_Ok : ∃ b, demo_uneven = Ok b.
Proof. eexists. vm_compute. reflexivity. Qed.

Lemma dequeue_at_hides_ready_witness : ∃ b m c b',
  demo_uneven = Ok b ∧
  dequeue_at 3 b 0 = Ok (m, c, b') ∧ isReady 3 b' = Ok false ∧ isReady_at 3 b' 1 = Ok true.
Proof.
  destruct demo_uneven_Ok as [b Hb]. exists b.
  assert (Hb' := Hb). vm_compute in Hb'. injection Hb' as <-.
  match type of Hb with
  | _ = Ok ?b => edestruct (dequeue_at_hides_ready 3 b) as (m & c & b' & H1 & _ & H2 & H3)
  end; [reflexivity|reflexivity|reflexivity|vm_compute; discriminate|
     split; vm_compute; [discriminate|reflexivity]|].
  exists m, c, b'. split_and!; [exact Hb|exact H1|exact H2|exact H3].
Defined.
