(* ===== verification/Wires.v ===== *)
(** * Wire buffers (structures/WireBuffer.hh, WireBuffer.cc)

    A buffer between controllers that are not separated by a network.  A message is put at the end
    of the vector, without [push_heap], and taken with [pop_heap]. *)

From stdpp Require Import sorting.
From S2P Require Import Prelude StdHeap Clocks Buffers.
Local Open Scope Z_scope.

Module WireBuffer.

(** [m_consumer_ptr] is whether there is a consumer; the operations return the wakeups they
    ask it for. *)
Record t (P : Type) := mk {
  m_msg_counter : Z;
  m_message_queue : list (MessageBufferNode.t P);
  m_consumer_ptr : bool }.
Arguments mk {P}.
Arguments m_msg_counter {P}.
Arguments m_message_queue {P}.
Arguments m_consumer_ptr {P}.

Section operations.
Context {P : Type} (clockPeriod : Z).
Implicit Types (b : t P) (cur : Z).

(** The constructor, and [setConsumer]. *)
Definition create : t P := mk 0 [] false.
Definition setConsumer b : t P := mk (m_msg_counter b) (m_message_queue b) true.

Definition isReady cur b : bool :=
  match m_message_queue b with [] => false | n :: _ => bool_decide (MessageBufferNode.m_time n ≤ cur) end.

(** [cur] is the cycle of the Ruby system; the second component is the tick of the wakeup. *)
Definition enqueue cur b (message : Message.t P) (latency : Z) : outcome (t P * Z) :=
  let arrival_time := u64 (cur + latency) in
  assert_that (bool_decide (cur < arrival_time));;
  let n := u64 (m_msg_counter b + 1) in
  if m_consumer_ptr b
  then Ok (mk n (m_message_queue b ++ [MessageBufferNode.mk arrival_time n message]) true,
           u64 (clockPeriod * arrival_time))
  else Err PanicFault.

Definition dequeue cur b : outcome (t P) :=
  assert_that (isReady cur b);;
  q ← MessageBuffer.pop_heap_greater (m_message_queue b);
  Ok (mk (m_msg_counter b) (MessageBuffer.pop_back q) (m_consumer_ptr b)).

Definition peekNode cur b : outcome (MessageBufferNode.t P) :=
  assert_that (isReady cur b);;
  from_option_or OutOfBounds (head (m_message_queue b)).

Definition recycle cur b : outcome (t P * Z) :=
  assert_that (isReady cur b);;
  node ← from_option_or OutOfBounds (head (m_message_queue b));
  q ← MessageBuffer.pop_heap_greater (m_message_queue b);
  let node := MessageBufferNode.mk (u64 (cur + 1)) (MessageBufferNode.m_msg_counter node) (MessageBufferNode.m_msgptr node) in
  q ← MessageBuffer.push_heap_greater (MessageBuffer.pop_back q ++ [node]);
  if m_consumer_ptr b
  then Ok (mk (m_msg_counter b) q true, u64 (clockPeriod * MessageBufferNode.m_time node))
  else Err NullDeref.

End operations.
End WireBuffer.

Import WireBuffer.

(** ** A wire keeps the order of arrival *)

Section wire.
Context {P : Type} (clockPeriod latency : Z).
Implicit Types (b : t P) (n m : MessageBufferNode.t P) (l q : list (MessageBufferNode.t P)) (cur : Z).

#[local] Instance node_le_dec n m : Decision (node_le n m).
Proof. unfold node_le. apply _. Defined.

(** What goes through a wire: messages, and the cycles in which the first is taken or put off. *)
Inductive wire_op := Put (msg : Message.t P) | Take | Put_off.

(** The specification: messages in the order of their times and numbers. *)
Fixpoint insert_node n l : list (MessageBufferNode.t P) :=
  match l with [] => [n] | m :: l' => if decide (node_le m n) then m :: insert_node n l' else n :: l end.
Definition spec_op cur (s : Z * list (MessageBufferNode.t P)) (o : wire_op) : option (Z * list (MessageBufferNode.t P)) :=
  match o, s.2 with
  | Put msg, l => Some (s.1 + 1, l ++ [MessageBufferNode.mk (cur + latency) (s.1 + 1) msg])
  | _, [] => None
  | Take, n :: l => if decide (MessageBufferNode.m_time n ≤ cur) then Some (s.1, l) else None
  | Put_off, n :: l =>
      if decide (MessageBufferNode.m_time n ≤ cur)
      then Some (s.1, insert_node (MessageBufferNode.mk (cur + 1) (MessageBufferNode.m_msg_counter n) (MessageBufferNode.m_msgptr n)) l)
      else None
  end.
Definition code_op cur b (o : wire_op) : outcome (t P) :=
  match o with
  | Put msg => r ← enqueue clockPeriod cur b msg latency; Ok r.1
  | Take => dequeue cur b
  | Put_off => r ← recycle clockPeriod cur b; Ok r.1
  end.

(** The vector is a heap with the messages of the list, none of them later than the latency. *)
Record wire cur b (s : Z * list (MessageBufferNode.t P)) : Prop := {
  wire_count : (m_msg_counter b = s.1 ∧ 0 ≤ s.1) ∧ m_consumer_ptr b = true;
  wire_heap : heap node_le (length (m_message_queue b)) (m_message_queue b);
  wire_perm : m_message_queue b ≡ₚ s.2;
  wire_sorted : StronglySorted node_le s.2;
  wire_numbers : NoDup (MessageBufferNode.m_msg_counter <$> s.2);
  wire_old n : n ∈ s.2 → MessageBufferNode.m_msg_counter n ≤ s.1 ∧ MessageBufferNode.m_time n ≤ cur + latency }.

Lemma heap_append q n : heap node_le (length q) q → (∀ m, m ∈ q → node_le m n) → heap node_le (length (q ++ [n])) (q ++ [n]).
Proof.
  intros Hq Hn i Hi x y Hx Hy. rewrite length_app in Hi. cbn in Hi. pose proof (parent_lt i (proj1 Hi)).
  rewrite lookup_app_l in Hy by lia. destruct (decide (i < length q)%nat).
  - rewrite lookup_app_l in Hx by done. apply (Hq i); [lia|done..].
  - replace i with (length q) in Hx by lia. rewrite list_lookup_middle in Hx by done. injection Hx as <-.
    apply Hn. by eapply list_elem_of_lookup_2.
Qed.

(** The front of the vector is the first of the list. *)
Lemma wire_front cur b k n l : wire cur b (k, n :: l) → ∃ q, m_message_queue b = n :: q ∧ q ≡ₚ l.
Proof.
  intros [_ Hh Hp Hs Hnd _]. cbn in *. destruct (m_message_queue b) as [|x q]; [by apply Permutation_nil_l in Hp|].
  assert (x = n) as ->; [|exists q; by apply Permutation_cons_inv in Hp].
  assert (x ∈ n :: l) as Hx by (rewrite <- Hp; by left). assert (n ∈ x :: q) as Hn by (rewrite Hp; by left).
  pose proof (heap_head _ _ _ Hh n Hn) as H1. apply elem_of_cons in Hx as [->|Hx]; [done|].
  apply StronglySorted_inv in Hs as [_ Hs]. rewrite Forall_forall in Hs. pose proof (Hs x Hx) as H2.
  cbn in Hnd. apply NoDup_cons in Hnd as [Hnd _]. destruct Hnd. apply list_elem_of_fmap. exists x. split; [|done].
  unfold node_le in *. lia.
Qed.

Lemma insert_perm n l : insert_node n l ≡ₚ n :: l.
Proof. induction l as [|m l IH]; cbn; [done|]. case_decide; [|done]. rewrite IH. apply Permutation_swap. Qed.

Lemma insert_sorted n l : StronglySorted node_le l → StronglySorted node_le (insert_node n l).
Proof.
  induction 1 as [|m l Hs IH Hm]; cbn; [repeat constructor|]. case_decide as E.
  - constructor; [done|]. rewrite insert_perm. by constructor.
  - assert (node_le n m) as Hnm by (unfold node_le in *; lia). constructor; [by constructor|]. constructor; [done|].
    eapply Forall_impl; [exact Hm|]. intros x Hx. by etransitivity.
Qed.

Lemma sorted_snoc n l : StronglySorted node_le l → (∀ m, m ∈ l → node_le m n) → StronglySorted node_le (l ++ [n]).
Proof.
  induction 1 as [|m l Hs IH Hm]; intros Hn; cbn; [repeat constructor|]. constructor; [apply IH; set_solver|].
  apply Forall_app. split; [done|]. constructor; [apply Hn; by left|done].
Qed.

Lemma wire_later cur cur' b s : cur ≤ cur' → wire cur b s → wire cur' b s.
Proof. intros Hc [? ? ? ? ? Ho]. split; try done. intros n Hn. specialize (Ho n Hn). lia. Qed.

(** Numbers and cycles fit in 64 bits. *)
Definition in_width cur (k : Z) : Prop := 0 ≤ cur ∧ cur + latency < 2 ^ 64 ∧ k + 1 < 2 ^ 64 ∧ 1 ≤ latency.

Lemma put_wire cur b k l msg : in_width cur k → wire cur b (k, l) →
  ∃ b', code_op cur b (Put msg) = Ok b' ∧ wire cur b' (k + 1, l ++ [MessageBufferNode.mk (cur + latency) (k + 1) msg]).
Proof.
  intros (H0 & H1 & H2 & H3) [[[Hk Hk0] Hcon] Hh Hp Hs Hnd Ho]. cbn in *. unfold enqueue. rewrite Hcon.
  assert (u64 (cur + latency) = cur + latency) as -> by (apply uwrap_id; unfold fits; lia).
  assert (u64 (m_msg_counter b + 1) = k + 1) as -> by (rewrite Hk; apply uwrap_id; unfold fits; lia).
  rewrite bool_decide_eq_true_2 by lia. cbn. eexists. split; [done|]. set (n := MessageBufferNode.mk _ _ msg).
  assert (∀ m, m ∈ l → node_le m n) as Hn.
  { intros m Hm. specialize (Ho m Hm). unfold node_le, n. cbn. lia. }
  split; cbn; [lia| | | | |].
  - apply heap_append; [done|]. intros m Hm. apply Hn. by rewrite <- Hp.
  - by rewrite Hp.
  - by apply sorted_snoc.
  - rewrite fmap_app. apply NoDup_app. split_and!; [done| |apply NoDup_singleton].
    intros c (m & -> & Hm)%list_elem_of_fmap Hc%list_elem_of_singleton. specialize (Ho m Hm). cbn in Hc. lia.
  - intros m [Hm| ->%list_elem_of_singleton]%elem_of_app; [specialize (Ho m Hm)|cbn]; lia.
Qed.

(** Taking the first message, for [dequeue] and for [recycle]. *)
Lemma pop_wire cur b k n l : wire cur b (k, n :: l) → ∃ q,
  MessageBuffer.pop_heap_greater (m_message_queue b) = Ok (q ++ [n]) ∧ q ≡ₚ l ∧ heap node_le (length q) q.
Proof.
  intros Hw. destruct (wire_front _ _ _ _ _ Hw) as (q & E & Hq). destruct Hw as [_ Hh Hp _ Hnd _]. rewrite E in *.
  destruct (pop_heap_spec MessageBufferNode.greater MessageBufferNode.m_msg_counter node_le greater_spec n q Hh) as (q' & H1 & H2 & H3).
  - by rewrite Hp.
  - exists q'. split; [done|]. split; [by rewrite H2|done].
Qed.

Lemma step_wire cur b s o : in_width cur s.1 → wire cur b s →
  match spec_op cur s o with
  | Some s' => ∃ b', code_op cur b o = Ok b' ∧ wire cur b' s'
  | None => code_op cur b o = Err AssertFail
  end.
Proof.
  intros Hin Hw. destruct s as [k l]. destruct o as [msg| |]; [by apply put_wire|..].
  all: destruct l as [|n l]; cbn [spec_op snd fst];
    [destruct Hw as [_ _ Hp _ _ _]; apply Permutation_nil_r in Hp; cbn; unfold dequeue, recycle, isReady; by rewrite Hp|].
  all: destruct (wire_front _ _ _ _ _ Hw) as (q0 & E & _); destruct (pop_wire _ _ _ _ _ Hw) as (q & Hpop & Hq & Hh).
  all: cbn [code_op]; unfold dequeue, recycle, isReady; rewrite E; cbn [head from_option_or].
  all: case_decide; [rewrite bool_decide_eq_true_2 by done|by rewrite bool_decide_eq_false_2].
  all: rewrite <- E, Hpop; cbn [assert_that mbind outcome_bind]; rewrite pop_back_app.
  all: destruct Hw as [Hk _ _ Hs Hnd Ho]; cbn [fst snd] in *; apply StronglySorted_inv in Hs as [Hs Hn].
  - eexists. split; [done|]. apply NoDup_cons in Hnd as [_ Hnd]. split; cbn; try done. intros m Hm. apply Ho. by right.
  - destruct Hin as (H0 & H1 & H2 & H3). assert (u64 (cur + 1) = cur + 1) as -> by (apply uwrap_id; unfold fits; lia).
    set (n' := MessageBufferNode.mk (cur + 1) _ _).
    destruct (push_heap_spec MessageBufferNode.greater MessageBufferNode.m_msg_counter node_le greater_spec q n' Hh) as (q' & Hpush & Hq' & Hh').
    { by rewrite Hq, Permutation_app_comm. }
    unfold MessageBuffer.push_heap_greater. cbn [MessageBufferNode.m_time]. fold n'. rewrite Hpush. destruct Hk as [Hk Hcon].
    cbn [mbind outcome_bind]. rewrite Hcon. eexists. split; [done|]. split; cbn; try done.
    + by rewrite Hq', insert_perm, Hq, Permutation_app_comm.
    + by apply insert_sorted.
    + by rewrite insert_perm.
    + intros m. rewrite insert_perm. intros [->|Hm]%elem_of_cons; [|apply Ho; by right].
      destruct (Ho n ltac:(by left)). cbn. lia.
Qed.

(** Operations in cycles that do not go back. *)
Fixpoint spec_run (s : Z * list (MessageBufferNode.t P)) (l : list (Z * wire_op)) : option (Z * list (MessageBufferNode.t P)) :=
  match l with [] => Some s | (cur, o) :: l => s' ← spec_op cur s o; spec_run s' l end.
Definition code_run b (l : list (Z * wire_op)) : outcome (t P) := mfold (λ b x, code_op x.1 b x.2) b l.
Fixpoint cycles_ok (last : Z) (l : list (Z * wire_op)) : Prop :=
  match l with [] => True | x :: l => last ≤ x.1 ∧ x.1 + latency < 2 ^ 64 ∧ cycles_ok x.1 l end.

Lemma spec_op_count cur s o s' : spec_op cur s o = Some s' → s.1 ≤ s'.1 ≤ s.1 + 1.
Proof.
  destruct s as [k l]. destruct o as [msg| |], l as [|n l]; cbn; try (intros [= <-]; cbn; lia); try done;
    case_decide; (intros [= <-]; cbn; lia) || done.
Qed.

Lemma run_wire last (ops : list (Z * wire_op)) : ∀ b s, 1 ≤ latency → 0 ≤ last → wire last b s → cycles_ok last ops →
  s.1 + Z.of_nat (length ops) < 2 ^ 64 →
  match spec_run s ops with
  | Some s' => ∃ b' cur, code_run b ops = Ok b' ∧ wire cur b' s'
  | None => code_run b ops = Err AssertFail
  end.
Proof.
  revert last. induction ops as [|[cur o] ops IH]; intros last b s Hl H0 Hw Hc Hn; cbn [spec_run code_run mfold]; [by eauto|].
  cbn [cycles_ok fst length] in Hc, Hn. destruct Hc as (H1 & H2 & Hc). cbn [fst snd].
  pose proof (step_wire cur b s o ltac:(unfold in_width; lia) (wire_later _ _ _ _ H1 Hw)) as Hs.
  destruct (spec_op cur s o) as [s'|] eqn:E; cbn [mbind option_bind outcome_bind].
  - destruct Hs as (b' & -> & Hw'). cbn [mbind outcome_bind]. apply spec_op_count in E. apply (IH cur); [lia..|done|done|lia].
  - by rewrite Hs.
Qed.

End wire.


(** Two messages of one cycle, of which the first is put off: the second overtakes it. *)
Definition demo_wire : list (Z * wire_op (P := Z)) :=
  [(0, Put (Message.create 0 7)); (0, Put (Message.create 0 8)); (1, Put_off)].


(** With latencies that differ, a message overtakes one that was sent before it, which a wire is
    said not to do. *)
Example wire_reorders : ∃ b1 b2 b3 b4,
  enqueue 1 0 (setConsumer (create (P := Z))) (Message.create 0 7) 1 = Ok (b1, 1) ∧ enqueue 1 0 b1 (Message.create 0 8) 9 = Ok (b2, 9) ∧
  enqueue 1 0 b2 (Message.create 0 9) 3 = Ok (b3, 3) ∧ dequeue 1 b3 = Ok b4 ∧
  Message.payload ∘ MessageBufferNode.m_msgptr <$> head (m_message_queue b4) = Some 9.
Proof. do 4 eexists. do 4 (split; [vm_compute; reflexivity|]). by vm_compute. Qed.
