(* ===== verification/Arbiter.v ===== *)
(** * The time-division arbiter (network/simple/Throttle.hh, Throttle.cc;
      slicc_interface/NetworkMessage.hh; network/Network.cc)

    A [Throttle] moves messages of one link, virtual network by virtual
    network, within a bandwidth.  The throttles that feed the central switch
    also implement the predictable bus: time is divided into slots, each owned
    by one core, and in a core's slot its demand requests (virtual network 2)
    and its write-backs (virtual network 6) take turns.  The global cycle count
    and the random draws are arguments. *)

From S2P Require Import Prelude Addresses NodeSets Destinations Clocks Buffers.
Local Open Scope Z_scope.

Inductive MessageSizeType : Set :=
  | Control | Data | Request_Control | Reissue_Control | Response_Data
  | ResponseL2hit_Data | ResponseLocal_Data | Response_Control | Writeback_Data
  | Writeback_Control | Broadcast_Control | Multicast_Control | Forwarded_Control
  | Invalidate_Control | Unblock_Control | Persistent_Control | Completion_Control.

#[global] Instance MessageSizeType_eq_dec : EqDecision MessageSizeType.
Proof. solve_decision. Defined.

(** The value of the enumerator. *)
Definition size_index (s : MessageSizeType) : Z :=
  match s with
  | Control => 0 | Data => 1 | Request_Control => 2 | Reissue_Control => 3
  | Response_Data => 4 | ResponseL2hit_Data => 5 | ResponseLocal_Data => 6
  | Response_Control => 7 | Writeback_Data => 8 | Writeback_Control => 9
  | Broadcast_Control => 10 | Multicast_Control => 11 | Forwarded_Control => 12
  | Invalidate_Control => 13 | Unblock_Control => 14 | Persistent_Control => 15
  | Completion_Control => 16
  end.

(** The machines of the protocol, in the order its files declare them. *)
Definition MachineType_L1Cache : Z := 0.
Definition MachineType_Directory : Z := 1.
Definition MachineType_DMA : Z := 2.

Module NetworkMessage.

(** What [NetworkMessage] adds to a message: the fields of the message that
    the network reads, and its own. *)
Record t := mk {
  getDestination : NetDest.t;
  getMessageSize : MessageSizeType;
  m_internal_dest : NetDest.t;
  m_internal_dest_valid : bool;
  incoming_link : Z;
  vnet : Z }.

(** Reading through a constant reference. *)
Definition getInternalDestination (m : t) : NetDest.t :=
  if m_internal_dest_valid m then m_internal_dest m else getDestination m.

(** Assigning through the reference. *)
Definition setInternalDestination (m : t) (d : NetDest.t) : t :=
  mk (getDestination m) (getMessageSize m) d true (incoming_link m) (vnet m).

Definition setIncomingLink (m : t) (link : Z) : t :=
  mk (getDestination m) (getMessageSize m) (m_internal_dest m) (m_internal_dest_valid m)
     link (vnet m).

Definition setVnet (m : t) (net : Z) : t :=
  mk (getDestination m) (getMessageSize m) (m_internal_dest m) (m_internal_dest_valid m)
     (incoming_link m) net.

End NetworkMessage.

Module Network.

(** The static configuration. *)
Record t := mk { m_virtual_networks : Z; m_control_msg_size : Z; m_data_msg_size : Z }.

(** [init()] *)
Definition init (sys : RubySystem.t) (n : t) : t :=
  mk (m_virtual_networks n) (m_control_msg_size n)
     (u32 (RubySystem.getBlockSizeBytes sys + m_control_msg_size n)).

Definition MessageSizeType_to_int (n : t) (size_type : MessageSizeType) : Z :=
  match size_type with
  | Data | Response_Data | ResponseLocal_Data | ResponseL2hit_Data | Writeback_Data =>
      m_data_msg_size n
  | _ => m_control_msg_size n
  end.

End Network.

(** A buffer of network messages. *)
Notation buffer := (MessageBuffer.t NetworkMessage.t).
Notation net_msg := (Message.t NetworkMessage.t).

Module Throttle.

Definition MESSAGE_SIZE_MULTIPLIER : Z := 1000.
Definition BROADCAST_SCALING : Z := 1.

(** The floating point utilisation statistic is left out. *)
Record t := mk {
  m_sID : Z;
  m_node : Z;
  m_link_bandwidth_multiplier : Z;
  m_link_latency : Z;
  m_endpoint_bandwidth : Z;
  m_in : list (option buffer);
  m_out : list (option buffer);
  m_vnets : Z;
  m_units_remaining : list Z;
  m_wakeups_wo_switch : Z;
  vToken : bool;
  smBlock : bool;
  doCheck : bool;
  m_msg_counts : gmap (Z * Z) Z }.

(** [init] *)
Definition init (sID node link_latency link_bandwidth_multiplier endpoint_bandwidth : Z)
    : outcome t :=
  assert_that (bool_decide (0 < link_bandwidth_multiplier));;
  Ok (mk sID node link_bandwidth_multiplier link_latency endpoint_bandwidth
        [] [] 0 [] 0 false false false ∅).

(** The constructor without a switch id leaves [vToken], [smBlock] and
    [doCheck] as the memory had them. *)
Definition create_node (node link_latency link_bandwidth_multiplier endpoint_bandwidth : Z)
    (junk : bool * bool * bool) : outcome t :=
  assert_that (bool_decide (0 < link_bandwidth_multiplier));;
  Ok (mk 0 node link_bandwidth_multiplier link_latency endpoint_bandwidth
        [] [] 0 [] 0 junk.1.1 junk.1.2 junk.2 ∅).

(** The constructor with a switch id. *)
Definition create (sID node link_latency link_bandwidth_multiplier endpoint_bandwidth : Z)
    : outcome t := init sID node link_latency link_bandwidth_multiplier endpoint_bandwidth.

Definition with_in (th : t) (l : list (option buffer)) : t :=
  mk (m_sID th) (m_node th) (m_link_bandwidth_multiplier th) (m_link_latency th)
     (m_endpoint_bandwidth th) l (m_out th) (m_vnets th) (m_units_remaining th)
     (m_wakeups_wo_switch th) (vToken th) (smBlock th) (doCheck th) (m_msg_counts th).

Definition with_out (th : t) (l : list (option buffer)) : t :=
  mk (m_sID th) (m_node th) (m_link_bandwidth_multiplier th) (m_link_latency th)
     (m_endpoint_bandwidth th) (m_in th) l (m_vnets th) (m_units_remaining th)
     (m_wakeups_wo_switch th) (vToken th) (smBlock th) (doCheck th) (m_msg_counts th).

Definition with_units (th : t) (l : list Z) : t :=
  mk (m_sID th) (m_node th) (m_link_bandwidth_multiplier th) (m_link_latency th)
     (m_endpoint_bandwidth th) (m_in th) (m_out th) (m_vnets th) l
     (m_wakeups_wo_switch th) (vToken th) (smBlock th) (doCheck th) (m_msg_counts th).

Definition with_token (th : t) (token block : bool) : t :=
  mk (m_sID th) (m_node th) (m_link_bandwidth_multiplier th) (m_link_latency th)
     (m_endpoint_bandwidth th) (m_in th) (m_out th) (m_vnets th) (m_units_remaining th)
     (m_wakeups_wo_switch th) token block (doCheck th) (m_msg_counts th).

Definition with_counts (th : t) (wakeups : Z) (c : gmap (Z * Z) Z) : t :=
  mk (m_sID th) (m_node th) (m_link_bandwidth_multiplier th) (m_link_latency th)
     (m_endpoint_bandwidth th) (m_in th) (m_out th) (m_vnets th) (m_units_remaining th)
     wakeups (vToken th) (smBlock th) (doCheck th) c.

(** One iteration of [addLinks]; a null [in_ptr] is dereferenced. *)
Definition addLink (th : t) (in_ptr out_ptr : option buffer) : outcome t :=
  b ← from_option_or NullDeref in_ptr;
  b ← MessageBuffer.setConsumer b (ToThrottle (m_sID th));
  Ok (mk (m_sID th) (m_node th) (m_link_bandwidth_multiplier th) (m_link_latency th)
        (m_endpoint_bandwidth th) (m_in th ++ [Some b]) (m_out th ++ [out_ptr])
        (u32 (m_vnets th + 1)) (m_units_remaining th ++ [0])
        (m_wakeups_wo_switch th) (vToken th) (smBlock th) (doCheck th) (m_msg_counts th)).

Definition addLinks (th : t) (in_vec out_vec : list (option buffer)) : outcome t :=
  assert_that (bool_decide (length in_vec = length out_vec));;
  mfold (λ th p, addLink th p.1 p.2) th (zip in_vec out_vec).

Definition returnSID (th : t) : Z := m_sID th.
Definition getLinkBandwidth (th : t) : Z :=
  m_endpoint_bandwidth th * m_link_bandwidth_multiplier th.

(** *** Slots: functions of the global cycle *)

Definition slot_period : Z := Trace.NPROC * Trace.SLOT_WIDTH.
Definition procs : list Z := seqZ 0 Trace.NPROC.

Definition isStartOfSlot (cycle : Z) : bool :=
  existsb (λ i, bool_decide (cycle `mod` slot_period = i * Trace.SLOT_WIDTH)) procs.

Definition getSlotOwner (cycle : Z) : Z :=
  from_option id (-1)
    (find (λ i, bool_decide (cycle `mod` slot_period < (i + 1) * Trace.SLOT_WIDTH)) procs).

Definition isStartDemandSlot (cycle : Z) : bool :=
  existsb (λ i, bool_decide (cycle `mod` slot_period = i * Trace.SLOT_WIDTH)) procs.

Definition isStartWBSlot (cycle : Z) : bool :=
  existsb (λ i, bool_decide
    (cycle `mod` (2 * slot_period) = (i + Trace.NPROC) * Trace.SLOT_WIDTH)) procs.

(** *** The token between demand requests and write-backs *)

Definition getVnetToken (th : t) : bool := vToken th.
Definition setSharedMemBlock (th : t) : t := with_token th (vToken th) true.
Definition setSharedMemUnblock (th : t) : t := with_token th (vToken th) false.
Definition isSharedMemUnblock (th : t) : bool := negb (smBlock th).

Definition changeVnetToken (th : t) : t :=
  let th := with_token th (negb (vToken th)) (smBlock th) in
  if vToken th then setSharedMemBlock th else setSharedMemUnblock th.

(** [draw] is what [rand()] returns. *)
Definition setSlotType (cycle draw : Z) (th : t) : t :=
  if Trace.READ_WB_RANDOM then
    with_token th (negb (bool_decide ((draw `mod` 10) `mod` 2 = 0))) (smBlock th)
  else if Trace.BASELINE then
    if isStartOfSlot cycle then with_token th false (smBlock th) else th
  else
    let th := if isStartDemandSlot cycle then with_token th false (smBlock th) else th in
    if isStartWBSlot cycle then with_token th true (smBlock th) else th.

(** *** Moving messages *)

(** The reference parameters of [operateVnet] with the throttle, and the
    calls made on the consumer of the output. *)
Record run := mkRun {
  self : t;
  bw_remaining : Z;
  schedule_wakeup : bool;
  sent : list signal }.

Definition with_self (r : run) (th : t) : run :=
  mkRun th (bw_remaining r) (schedule_wakeup r) (sent r).
Definition wake (r : run) : run := mkRun (self r) (bw_remaining r) true (sent r).

Section operation.
Context (sys : RubySystem.t) (net : Network.t) (counts : list Z).
(** The tick and the global cycle. *)
Context (now cycle : Z).
(** What [random_time()] returns for the message of a virtual network that the
    output numbers next, and what [rand()] returns. *)
Context (rt : Z → Z → Z) (draw : Z).

Definition network_message_to_size (m : NetworkMessage.t) : outcome Z :=
  let size := Network.MessageSizeType_to_int net (NetworkMessage.getMessageSize m)
              * MESSAGE_SIZE_MULTIPLIER in
  if decide (1 < BROADCAST_SCALING) then
    b ← NetDest.isBroadcast (NetworkMessage.getDestination m);
    Ok (if b : bool then size * BROADCAST_SCALING else size)
  else Ok size.

(** [m_in[i]->op()] *)
Definition buffer_at (l : list (option buffer)) (i : Z) : outcome buffer :=
  o ← vget l i; from_option_or NullDeref o.

Definition store_at (l : list (option buffer)) (i : Z) (b : buffer) : outcome (list (option buffer)) :=
  vset l i (Some b).

Definition in_ready (th : t) (vnet : Z) : outcome bool :=
  b ← buffer_at (m_in th) vnet; MessageBuffer.isReady now b.

(** [serviceRequest(m_in[vnet], m_out[vnet], vnet, pos)] *)
Definition serviceRequest (r : run) (vnet pos : Z) : outcome run :=
  let th := self r in
  inb ← buffer_at (m_in th) vnet;
  outb ← buffer_at (m_out th) vnet;
  msg ← (if decide (pos = -1) then MessageBuffer.peekMsgPtr now inb
         else MessageBuffer.peekMsgPtr_at inb pos);
  size ← network_message_to_size (Message.payload msg);
  u ← vget (m_units_remaining th) vnet;
  units ← vset (m_units_remaining th) vnet (u + size);
  d ← (if decide (pos = -1) then MessageBuffer.dequeue now inb
       else MessageBuffer.dequeue_at now inb pos);
  let '(msg, _, inb) := d in
  e ← MessageBuffer.enqueue sys now (rt vnet (MessageBuffer.m_msg_counter outb)) outb msg
        (m_link_latency th) false;
  let '(outb, signals) := e in
  ins ← store_at (m_in th) vnet inb;
  outs ← store_at (m_out th) vnet outb;
  let key := (size_index (NetworkMessage.getMessageSize (Message.payload msg)), vnet) in
  let counts := partial_alter (λ o, Some (default 0 o + 1)) key (m_msg_counts th) in
  let th := with_counts (with_units (with_out (with_in th ins) outs) units)
              (m_wakeups_wo_switch th) counts in
  Ok (mkRun th (bw_remaining r) (schedule_wakeup r) (sent r ++ signals)).

(** [int diff = m_units_remaining[vnet] - bw_remaining; ...] *)
Definition use_bandwidth (r : run) (vnet : Z) : outcome run :=
  u ← vget (m_units_remaining (self r)) vnet;
  let diff := u - bw_remaining r in
  units ← vset (m_units_remaining (self r)) vnet (Z.max 0 diff);
  Ok (mkRun (with_units (self r) units) (Z.max 0 (- diff)) (schedule_wakeup r) (sent r)).

(** [if (m_units_remaining[vnet] == 0 && in->isReady()) serviceRequest(...)] *)
Definition service_if_idle (r : run) (vnet pos : Z) : outcome run :=
  u ← vget (m_units_remaining (self r)) vnet;
  if decide (u = 0) then
    b ← in_ready (self r) vnet;
    if b : bool then serviceRequest r vnet pos else Ok r
  else Ok r.

(** [if (in->isReady()) schedule_wakeup = true;] *)
Definition wake_if_ready (r : run) (vnet : Z) : outcome run :=
  b ← in_ready (self r) vnet; Ok (if b : bool then wake r else r).

(** At the start of a slot, the throttle of a core sets the type of the slot,
    and gives it to the other kind of request when only that kind waits. *)
Definition arbitrate (th : t) (vnet : Z) : outcome t :=
  let slotStart := isStartOfSlot cycle in
  wbQueue ← vget (m_in th) 6;
  demandQueue ← vget (m_in th) 2;
  if negb Trace.BASELINE then
    if slotStart && bool_decide (vnet = 6) && bool_decide (returnSID th < 4) then
      let th := setSlotType cycle draw th in
      if getVnetToken th then
        q ← from_option_or NullDeref wbQueue; wb ← MessageBuffer.isReady now q;
        other ← (if wb : bool then Ok false
                 else q ← from_option_or NullDeref demandQueue; MessageBuffer.isReady now q);
        Ok (if other : bool then setSharedMemUnblock (changeVnetToken th)
            else setSharedMemBlock th)
      else
        q ← from_option_or NullDeref demandQueue; demand ← MessageBuffer.isReady now q;
        other ← (if demand : bool then Ok false
                 else q ← from_option_or NullDeref wbQueue; MessageBuffer.isReady now q);
        Ok (if other : bool then setSharedMemBlock (changeVnetToken th)
            else setSharedMemUnblock th)
    else Ok th
  else if slotStart && bool_decide (returnSID th < 4) then Ok (setSlotType cycle draw th)
  else Ok th.

(** The slot of the core: its write-backs when it is a write-back slot, its
    demand requests otherwise. *)
Definition core_slot (r : run) (vnet : Z) : outcome run :=
  let isWBSlot := getVnetToken (self r) in
  r ← (if bool_decide (vnet = 6) then
         if isWBSlot then
           pos ← (if Trace.WB_RANDOM then
                    b ← buffer_at (m_in (self r)) vnet;
                    Ok (draw `mod` MessageBuffer.getQSize b)
                  else Ok (-1));
           r ← service_if_idle r vnet pos; use_bandwidth r vnet
         else Ok r
       else
         if negb isWBSlot then r ← service_if_idle r vnet (-1); use_bandwidth r vnet
         else Ok r);
  wake_if_ready r vnet.

(** A ready demand request outside its slot: only marked messages go. *)
Definition side_packet (r : run) (vnet : Z) : outcome run :=
  inb ← buffer_at (m_in (self r)) vnet;
  msg ← MessageBuffer.peekMsgPtr now inb;
  let dest := NetworkMessage.getDestination (Message.payload msg) in
  r ← (if Trace.WRITE_HITS then
         if isStartOfSlot cycle && NetDest.special dest then
           b ← in_ready (self r) vnet;
           r ← (if b : bool then serviceRequest r vnet (-1) else Ok r);
           use_bandwidth r vnet
         else Ok r
       else if NetDest.sidePacket dest then
         r ← service_if_idle r vnet (-1); use_bandwidth r vnet
       else Ok r);
  wake_if_ready r vnet.

(** A core's request on its way to the central switch. *)
Definition core_request (r : run) (vnet SID : Z) : outcome run :=
  r ← (if bool_decide (getSlotOwner cycle = SID) && isStartOfSlot cycle
       then core_slot r vnet else Ok r);
  b ← (if bool_decide (vnet = 2) then in_ready (self r) vnet else Ok false);
  if b : bool then side_packet r vnet else Ok (wake r).

(** The first ready message, from position [i] on, that goes to the owner of
    the slot while the shared memory is not blocked. *)
Fixpoint find_for_owner (th : t) (inb : buffer) (owner : Z) (positions : list Z)
    : outcome (option Z) :=
  match positions with
  | [] => Ok None
  | i :: positions =>
      ready ← MessageBuffer.isReady_at now inb i;
      hit ← (if ready : bool then
               msg ← MessageBuffer.peekMsgPtr_at inb i;
               e ← NetDest.isElement counts (NetworkMessage.getDestination (Message.payload msg))
                     (mkMachineID MachineType_L1Cache (u32 owner));
               Ok ((e : bool) && isSharedMemUnblock th)
             else Ok false);
      if hit : bool then Ok (Some i) else find_for_owner th inb owner positions
  end.

(** The shared memory's messages on their way to the central switch. *)
Definition memory_response (r : run) (vnet : Z) : outcome run :=
  inb ← buffer_at (m_in (self r)) vnet;
  o ← find_for_owner (self r) inb (getSlotOwner cycle) (seqZ 0 (MessageBuffer.getQSize inb));
  match o with
  | Some pos =>
      ready ← MessageBuffer.isReady_at now inb pos;
      r ← (if ready : bool then serviceRequest r vnet pos else Ok r);
      r ← use_bandwidth r vnet;
      wake_if_ready r vnet
  | None => Ok (wake r)
  end.

(** The body of the loop of [operateVnet].  Every branch of it ends with a
    [break], so it runs at most once. *)
Definition transfer (r : run) (vnet : Z) : outcome run :=
  inb ← buffer_at (m_in (self r)) vnet;
  outb ← buffer_at (m_out (self r)) vnet;
  SID ← match MessageBuffer.m_consumer (MessageBuffer.conf inb) with
        | Some (ToThrottle sid) => Ok sid
        | _ => Err AssertFail
        end;
  match MessageBuffer.m_consumer (MessageBuffer.conf outb) with
  | Some (ToPerfectSwitch switchID) =>
      let vnetMatch := if Trace.BASELINE then bool_decide (vnet = 2)
                       else bool_decide (vnet = 6 ∨ vnet = 2) in
      if bool_decide (switchID = 5) && bool_decide (SID < 4) && vnetMatch then
        core_request r vnet SID
      else if bool_decide (switchID = 5) && bool_decide (SID = 4) then
        memory_response r vnet
      else
        r ← service_if_idle r vnet (-1); r ← use_bandwidth r vnet; wake_if_ready r vnet
  | _ => r ← service_if_idle r vnet (-1); use_bandwidth r vnet
  end.

(** [bw_remaining > 0 && (in->isReady() || m_units_remaining[vnet] > 0)] *)
Definition pending (r : run) (vnet : Z) : outcome bool :=
  if decide (0 < bw_remaining r) then
    b ← in_ready (self r) vnet;
    u ← vget (m_units_remaining (self r)) vnet;
    Ok ((b : bool) || bool_decide (0 < u))
  else Ok false.

(** [out->areNSlotsAvailable(1)] *)
Definition out_available (r : run) (vnet : Z) : outcome (bool * run) :=
  outb ← buffer_at (m_out (self r)) vnet;
  a ← MessageBuffer.areNSlotsAvailable now outb 1;
  outs ← store_at (m_out (self r)) vnet a.2;
  Ok (a.1, with_self r (with_out (self r) outs)).

Definition operateVnet (r : run) (vnet : Z) : outcome run :=
  th ← arbitrate (self r) vnet;
  let r := with_self r th in
  in_ptr ← vget (m_in th) vnet;
  out_ptr ← vget (m_out th) vnet;
  match in_ptr, out_ptr with
  | Some _, Some _ =>
      u ← vget (m_units_remaining th) vnet;
      assert_that (bool_decide (0 ≤ u));;
      p ← pending r vnet;
      r ← (if p : bool then
             a ← out_available r vnet;
             if a.1 : bool then transfer a.2 vnet else Ok a.2
           else Ok r);
      p ← pending r vnet;
      if p : bool then
        a ← out_available r vnet;
        Ok (if a.1 : bool then a.2 else wake a.2)
      else Ok r
  | _, _ => Ok r
  end.

(** [wakeup()]: the virtual networks from the highest; the last component says
    whether the throttle asks to be woken at the next cycle. *)
Definition wakeup (th : t) : outcome (t * list (Z * signal) * bool) :=
  assert_that (bool_decide (0 < getLinkBandwidth th));;
  let th := with_counts th (m_wakeups_wo_switch th + 1) (m_msg_counts th) in
  acc ← mfold (λ acc vnet,
          r ← operateVnet (mkRun acc.1.1.1 acc.1.1.2 acc.1.2 []) vnet;
          Ok (self r, bw_remaining r, schedule_wakeup r, acc.2 ++ map (pair vnet) (sent r)))
        (th, getLinkBandwidth th, false, []) (reverse (seqZ 0 (m_vnets th)));
  let '(th, bw, wake, signals) := acc in
  Ok (th, signals, negb (bool_decide (0 < bw) && negb wake)).

End operation.

End Throttle.

Import Throttle.

(** ** The schedule *)

Lemma in_procs i : i ∈ procs ↔ 0 ≤ i < 4.
Proof. unfold procs, Trace.NPROC. rewrite elem_of_seqZ. lia. Qed.

Lemma existsb_procs (p : Z → bool) : existsb p procs = true ↔ ∃ i, 0 ≤ i < 4 ∧ p i = true.
Proof.
  rewrite existsb_exists. split; intros (i & Hi & Hp); exists i; split; try done.
  - by apply in_procs, list_elem_of_In.
  - by apply list_elem_of_In, in_procs.
Qed.

Lemma isStartOfSlot_spec cycle : 0 ≤ cycle →
  isStartOfSlot cycle = true ↔ cycle `mod` Trace.SLOT_WIDTH = 0.
Proof.
  intros Hc. unfold isStartOfSlot. rewrite existsb_procs.
  unfold slot_period, Trace.NPROC, Trace.SLOT_WIDTH. change (4 * 50) with 200.
  pose proof (Z.div_mod cycle 200 ltac:(lia)). pose proof (Z.mod_pos_bound cycle 200 ltac:(lia)).
  pose proof (Z.div_mod cycle 50 ltac:(lia)). pose proof (Z.mod_pos_bound cycle 50 ltac:(lia)).
  split.
  - intros (i & Hi & Hp%bool_decide_eq_true). lia.
  - intros Hm. exists ((cycle `mod` 200) / 50).
    pose proof (Z.div_mod (cycle `mod` 200) 50 ltac:(lia)).
    pose proof (Z.mod_pos_bound (cycle `mod` 200) 50 ltac:(lia)).
    split; [lia|]. apply bool_decide_eq_true. lia.
Qed.

Lemma isStartWBSlot_spec cycle : 0 ≤ cycle →
  isStartWBSlot cycle = true ↔
  cycle `mod` Trace.SLOT_WIDTH = 0 ∧ (cycle / slot_period) `mod` 2 = 1.
Proof.
  intros Hc. unfold isStartWBSlot. rewrite existsb_procs.
  unfold slot_period, Trace.NPROC, Trace.SLOT_WIDTH.
  change (2 * (4 * 50)) with 400. change (4 * 50) with 200.
  pose proof (Z.div_mod cycle 200 ltac:(lia)). pose proof (Z.mod_pos_bound cycle 200 ltac:(lia)).
  pose proof (Z.div_mod cycle 50 ltac:(lia)). pose proof (Z.mod_pos_bound cycle 50 ltac:(lia)).
  pose proof (Z.div_mod cycle 400 ltac:(lia)). pose proof (Z.mod_pos_bound cycle 400 ltac:(lia)).
  pose proof (Z.div_mod (cycle / 200) 2 ltac:(lia)).
  pose proof (Z.mod_pos_bound (cycle / 200) 2 ltac:(lia)).
  split.
  - intros (i & Hi & Hp%bool_decide_eq_true). lia.
  - intros [Hm Ho]. exists ((cycle `mod` 200) / 50).
    pose proof (Z.div_mod (cycle `mod` 200) 50 ltac:(lia)).
    pose proof (Z.mod_pos_bound (cycle `mod` 200) 50 ltac:(lia)).
    split; [lia|]. apply bool_decide_eq_true. lia.
Qed.

Lemma getSlotOwner_spec cycle : 0 ≤ cycle →
  getSlotOwner cycle = (cycle `mod` slot_period) / Trace.SLOT_WIDTH.
Proof.
  intros Hc. unfold getSlotOwner, procs, slot_period, Trace.NPROC, Trace.SLOT_WIDTH.
  change (seqZ 0 4) with [0; 1; 2; 3]. change (4 * 50) with 200.
  pose proof (Z.mod_pos_bound cycle 200 ltac:(lia)).
  pose proof (Z.div_mod (cycle `mod` 200) 50 ltac:(lia)).
  pose proof (Z.mod_pos_bound (cycle `mod` 200) 50 ltac:(lia)).
  cbn [find]. repeat case_bool_decide; simpl; lia.
Qed.

(** [cycle] is the first cycle of a slot of core [i]; of a write-back slot when
    [wb], of a demand slot otherwise. *)
Definition slot_start (i : Z) (wb : bool) (cycle : Z) : Prop :=
  isStartOfSlot cycle = true ∧ getSlotOwner cycle = i ∧ isStartWBSlot cycle = wb.

Lemma slot_start_cycle i wb k : 0 ≤ i < 4 → 0 ≤ k →
  slot_start i wb (400 * k + (if wb then 200 else 0) + 50 * i).
Proof.
  intros Hi Hk. set (c := 400 * k + (if wb then 200 else 0) + 50 * i).
  assert (0 ≤ c) by (subst c; destruct wb; lia).
  assert (c `mod` 50 = 0 ∧ c / 200 = 2 * k + (if wb then 1 else 0) ∧ c `mod` 200 = 50 * i)
    as (H1 & H2 & H3).
  { subst c. destruct wb.
    - split_and!; [apply Z.mod_divide; [lia|exists (8 * k + 4 + i); lia]|
        symmetry; apply (Z.div_unique _ _ _ (50 * i)); lia|
        symmetry; apply (Z.mod_unique _ _ (2 * k + 1)); lia].
    - split_and!; [apply Z.mod_divide; [lia|exists (8 * k + i); lia]|
        symmetry; apply (Z.div_unique _ _ _ (50 * i)); lia|
        symmetry; apply (Z.mod_unique _ _ (2 * k)); lia]. }
  split_and!.
  - by apply isStartOfSlot_spec.
  - rewrite getSlotOwner_spec by done. unfold slot_period, Trace.NPROC, Trace.SLOT_WIDTH.
    change (4 * 50) with 200. rewrite H3. symmetry. apply Z.div_unique_exact; lia.
  - apply eq_true_iff_eq. rewrite isStartWBSlot_spec by done.
    unfold slot_period, Trace.NPROC, Trace.SLOT_WIDTH. change (4 * 50) with 200.
    rewrite H1, H2. split.
    + intros [_ Hodd]. destruct wb; [done|]. rewrite Z.add_0_r, Z.mul_comm, Z_mod_mult in Hodd. lia.
    + intros ->. split; [done|]. symmetry. apply (Z.mod_unique _ _ k); lia.
Qed.

(** ** What does not change the token *)

(** The identity and the token of a throttle. *)
Definition same_token (th th' : t) : Prop :=
  m_sID th' = m_sID th ∧ vToken th' = vToken th ∧ smBlock th' = smBlock th.

#[global] Instance same_token_preorder : PreOrder same_token.
Proof. split; [done|]. unfold same_token. intros ??? ? ?. naive_solver congruence. Qed.

Section frame.
Context (sys : RubySystem.t) (net : Network.t) (counts : list Z).
Context (now cycle : Z) (rt : Z → Z → Z) (draw : Z).

Lemma serviceRequest_token r vnet pos r' :
  serviceRequest sys net now rt r vnet pos = Ok r' → same_token (self r) (self r').
Proof.
  unfold serviceRequest. intros H. repeat (apply bind_Ok in H as (? & _ & H)).
  repeat case_match; repeat (apply bind_Ok in H as (? & _ & H)); repeat case_match;
    repeat (apply bind_Ok in H as (? & _ & H)); by simplify_eq.
Qed.

Lemma use_bandwidth_token r vnet r' :
  use_bandwidth r vnet = Ok r' → same_token (self r) (self r').
Proof.
  unfold use_bandwidth. intros H. repeat (apply bind_Ok in H as (? & _ & H)). by simplify_eq.
Qed.

Lemma service_if_idle_token r vnet pos r' :
  service_if_idle sys net now rt r vnet pos = Ok r' → same_token (self r) (self r').
Proof.
  unfold service_if_idle. intros H. apply bind_Ok in H as (u & _ & H).
  case_decide; [|by simplify_eq]. apply bind_Ok in H as (b & _ & H).
  destruct b; [by eapply serviceRequest_token|by simplify_eq].
Qed.

Lemma wake_if_ready_token r vnet r' :
  wake_if_ready now r vnet = Ok r' → same_token (self r) (self r').
Proof.
  unfold wake_if_ready. intros H. apply bind_Ok in H as (b & _ & H). destruct b; by simplify_eq.
Qed.

Hint Resolve serviceRequest_token use_bandwidth_token service_if_idle_token
  wake_if_ready_token : core.

(** Split a computation into its steps and compose the steps' frames. *)
Ltac token_steps H :=
  repeat match type of H with
  | mbind _ _ = Ok _ => apply bind_Ok in H as (? & ? & H)
  | (if ?b then _ else _) = Ok _ => destruct b
  | match ?o with Some _ => _ | None => _ end = Ok _ => destruct o
  | Ok _ = Ok _ => injection H as <-
  | Err _ = Ok _ => discriminate H
  end.

Lemma core_slot_token r vnet r' :
  core_slot sys net now rt draw r vnet = Ok r' → same_token (self r) (self r').
Proof.
  unfold core_slot. intros H. apply bind_Ok in H as (r1 & H1 & H).
  trans (self r1); [|eauto]. token_steps H1; try done.
  - etrans; [eapply service_if_idle_token; eassumption|eauto].
  - etrans; [eapply service_if_idle_token; eassumption|eauto].
Qed.

Lemma side_packet_token r vnet r' :
  side_packet sys net now cycle rt r vnet = Ok r' → same_token (self r) (self r').
Proof.
  unfold side_packet. intros H. apply bind_Ok in H as (b & _ & H).
  apply bind_Ok in H as (m & _ & H). apply bind_Ok in H as (r1 & H1 & H).
  trans (self r1); [|eauto]. change Trace.WRITE_HITS with false in H1. cbv iota in H1.
  token_steps H1; try done. etrans; [eapply service_if_idle_token; eassumption|eauto].
Qed.

Lemma core_request_token r vnet SID r' :
  core_request sys net now cycle rt draw r vnet SID = Ok r' → same_token (self r) (self r').
Proof.
  unfold core_request. intros H. apply bind_Ok in H as (r1 & H1 & H).
  trans (self r1).
  - token_steps H1; [by eapply core_slot_token|done].
  - apply bind_Ok in H as (b & _ & H). token_steps H; [by eapply side_packet_token|done].
Qed.

Lemma memory_response_token r vnet r' :
  memory_response sys net counts now cycle rt r vnet = Ok r' → same_token (self r) (self r').
Proof.
  unfold memory_response. intros H. apply bind_Ok in H as (b & _ & H).
  apply bind_Ok in H as (o & _ & H). destruct o as [pos|]; [|by simplify_eq].
  apply bind_Ok in H as (ready & _ & H). apply bind_Ok in H as (r1 & H1 & H).
  apply bind_Ok in H as (r2 & H2 & H). trans (self r1); [token_steps H1; eauto; done|].
  trans (self r2); eauto.
Qed.

Lemma transfer_token r vnet r' :
  transfer sys net counts now cycle rt draw r vnet = Ok r' → same_token (self r) (self r').
Proof.
  unfold transfer. intros H. apply bind_Ok in H as (inb & _ & H).
  apply bind_Ok in H as (outb & _ & H). apply bind_Ok in H as (SID & _ & H).
  assert (∀ r', (r ← service_if_idle sys net now rt r vnet (-1); use_bandwidth r vnet) = Ok r' →
    same_token (self r) (self r')) as Hfwd.
  { intros r0 H0. apply bind_Ok in H0 as (r1 & H1 & H0). trans (self r1); eauto. }
  destruct (MessageBuffer.m_consumer _) as [[| |]|]; [eauto| |eauto|eauto].
  destruct (_ && _); [by eapply core_request_token|].
  destruct (_ && _); [by eapply memory_response_token|].
  apply bind_Ok in H as (r1 & H1 & H). apply bind_Ok in H as (r2 & H2 & H).
  trans (self r1); [eauto|]. trans (self r2); eauto.
Qed.

Lemma out_available_token r vnet a : out_available now r vnet = Ok a →
  same_token (self r) (self a.2) ∧ sent a.2 = sent r.
Proof.
  unfold out_available. intros H. repeat (apply bind_Ok in H as (? & _ & H)). by simplify_eq.
Qed.

(** [operateVnet] changes the token only through [arbitrate]. *)
Lemma operateVnet_token r vnet r' :
  operateVnet sys net counts now cycle rt draw r vnet = Ok r' →
  ∃ th, arbitrate now cycle draw (self r) vnet = Ok th ∧ same_token th (self r').
Proof.
  unfold operateVnet. intros H. apply bind_Ok in H as (th & Ha & H). exists th. split; [done|].
  apply bind_Ok in H as (ip & _ & H). apply bind_Ok in H as (op & _ & H).
  destruct ip, op; simplify_eq; [|done|done|done].
  apply bind_Ok in H as (u & _ & H). apply bind_Ok in H as ([] & _ & H).
  apply bind_Ok in H as (p & _ & H). apply bind_Ok in H as (r1 & H1 & H).
  apply bind_Ok in H as (p2 & _ & H). trans (self r1).
  - destruct p; [|by simplify_eq]. apply bind_Ok in H1 as (a & Hav & H1).
    apply out_available_token in Hav as [Hav _]. change th with (self (with_self r th)).
    etrans; [exact Hav|]. destruct a as [[] r2]; simpl in *; [by eapply transfer_token|by simplify_eq].
  - destruct p2; [|by simplify_eq]. apply bind_Ok in H as (a & Hav & H).
    apply out_available_token in Hav as [Hav _]. etrans; [exact Hav|].
    destruct a as [[] r2]; by simplify_eq.
Qed.

End frame.

(** ** Isolation of the slots *)

Section isolation.
Context (sys : RubySystem.t) (net : Network.t) (counts : list Z).
Context (now cycle : Z) (rt : Z → Z → Z) (draw : Z).

(** No queued message of the virtual network is marked as a side packet. *)
Definition no_side_packets (th : t) (vnet : Z) : Prop :=
  ∀ b, buffer_at (m_in th) vnet = Ok b →
    Forall (λ n, NetDest.sidePacket (NetworkMessage.getDestination
       (Message.payload (MessageBufferNode.m_msgptr n))) = false) (MessageBuffer.m_prio_heap b).

(** The throttle of core [sid] in front of the central switch. *)
Definition core_link (th : t) (vnet sid : Z) : Prop :=
  ∃ inb outb, buffer_at (m_in th) vnet = Ok inb ∧ buffer_at (m_out th) vnet = Ok outb ∧
    MessageBuffer.m_consumer (MessageBuffer.conf inb) = Some (ToThrottle sid) ∧
    MessageBuffer.m_consumer (MessageBuffer.conf outb) = Some (ToPerfectSwitch 5).

Lemma wake_if_ready_sent r vnet r' :
  wake_if_ready now r vnet = Ok r' → sent r' = sent r ∧ self r' = self r.
Proof.
  unfold wake_if_ready. intros H. apply bind_Ok in H as (b & _ & H). destruct b; by simplify_eq.
Qed.

(** In a slot of the other kind nothing moves. *)
Lemma core_slot_other_kind r vnet r' :
  vToken (self r) = negb (bool_decide (vnet = 6)) →
  core_slot sys net now rt draw r vnet = Ok r' → sent r' = sent r ∧ self r' = self r.
Proof.
  unfold core_slot, getVnetToken. intros -> H. apply bind_Ok in H as (r1 & H1 & H).
  apply wake_if_ready_sent in H as [-> ->]. case_bool_decide; simpl in H1; by simplify_eq.
Qed.

Lemma side_packet_silent r vnet r' : no_side_packets (self r) vnet →
  side_packet sys net now cycle rt r vnet = Ok r' → sent r' = sent r.
Proof.
  unfold side_packet, MessageBuffer.peekMsgPtr, MessageBuffer.peek, MessageBuffer.front.
  intros Hno H. apply bind_Ok in H as (b & Hb & H). apply bind_Ok in H as (m & Hm & H).
  apply bind_Ok in Hm as (ready & _ & Hm). apply bind_Ok in Hm as ([] & _ & Hm).
  apply bind_Ok in Hm as (n & Hn%from_option_or_Ok & [= <-]).
  specialize (Hno b Hb). destruct (MessageBuffer.m_prio_heap b) as [|n' q]; simpl in Hn; [done|].
  injection Hn as ->. apply Forall_cons in Hno as [Hno _].
  change Trace.WRITE_HITS with false in H. cbv iota in H. rewrite Hno in H.
  simpl in H. by apply wake_if_ready_sent in H as [-> _].
Qed.

(** A core's request is forwarded only in the first cycle of a slot of its own
    of the right kind. *)
Lemma core_request_sends r vnet SID r' : vnet = 2 ∨ vnet = 6 →
  no_side_packets (self r) vnet →
  core_request sys net now cycle rt draw r vnet SID = Ok r' → sent r' ≠ sent r →
  isStartOfSlot cycle = true ∧ getSlotOwner cycle = SID ∧
  vToken (self r) = bool_decide (vnet = 6).
Proof.
  unfold core_request. intros Hv Hno H Hsent. apply bind_Ok in H as (r1 & H1 & H).
  apply bind_Ok in H as (b & Hb & H).
  destruct (bool_decide (getSlotOwner cycle = SID) && isStartOfSlot cycle) eqn:Hslot.
  - apply andb_true_iff in Hslot as [Howner%bool_decide_eq_true Hstart].
    split_and!; [done|done|]. destruct (decide (vToken (self r) = bool_decide (vnet = 6)))
      as [|Hne]; [done|]. exfalso. apply Hsent.
    apply core_slot_other_kind in H1 as [Hs1 Hself].
    2:{ destruct (vToken (self r)), (bool_decide (vnet = 6)); done. }
    destruct b; [|by simplify_eq].
    rewrite (side_packet_silent r1 vnet r'); [done|by rewrite Hself|done].
  - exfalso. simplify_eq. destruct b; [|by simplify_eq]. apply Hsent.
    by eapply side_packet_silent.
Qed.

Lemma arbitrate_queues th vnet th' : arbitrate now cycle draw th vnet = Ok th' →
  m_in th' = m_in th ∧ m_out th' = m_out th ∧ m_sID th' = m_sID th.
Proof.
  unfold arbitrate, setSlotType, changeVnetToken. intros H.
  apply bind_Ok in H as (wq & _ & H). apply bind_Ok in H as (dq & _ & H).
  change Trace.BASELINE with false in H. change Trace.READ_WB_RANDOM with false in H.
  cbv iota beta in H. cbn [negb] in H. destruct (_ && _); [|by simplify_eq].
  destruct (getVnetToken _); repeat (apply bind_Ok in H as (? & _ & H));
    repeat match type of H with context [if ?b then _ else _] => destruct b end;
    by simplify_eq.
Qed.

Lemma out_available_frame r vnet a : out_available now r vnet = Ok a →
  m_in (self a.2) = m_in (self r) ∧
  ∀ outb, buffer_at (m_out (self r)) vnet = Ok outb →
    ∃ outb', buffer_at (m_out (self a.2)) vnet = Ok outb' ∧
      MessageBuffer.conf outb' = MessageBuffer.conf outb.
Proof.
  unfold out_available, store_at. intros H. apply bind_Ok in H as (outb & Hout & H).
  apply bind_Ok in H as ([ok b'] & Ha & H). apply bind_Ok in H as (outs & Hs & [= <-]).
  split; [done|]. intros outb0 Hout0. rewrite Hout in Hout0. injection Hout0 as <-. exists b'. simpl in Hs |- *.
  apply vset_Ok in Hs as [Hr ->]. split.
  - unfold buffer_at. rewrite (proj2 (vget_Ok _ _ (Some b'))); [done|]. split; [lia|].
    apply list_lookup_insert_eq. lia.
  - unfold MessageBuffer.areNSlotsAvailable in Ha. case_decide; [by simplify_eq|].
    apply bind_Ok in Ha as (s & _ & Ha). case_decide; by simplify_eq.
Qed.

Lemma operateVnet_sends r vnet sid r' : vnet = 2 ∨ vnet = 6 → sid < 4 →
  core_link (self r) vnet sid → no_side_packets (self r) vnet →
  operateVnet sys net counts now cycle rt draw r vnet = Ok r' → sent r' ≠ sent r →
  isStartOfSlot cycle = true ∧ getSlotOwner cycle = sid ∧
  vToken (self r') = bool_decide (vnet = 6).
Proof.
  intros Hv Hsid (inb & outb & Hin & Hout & Hcin & Hcout) Hno H Hsent.
  pose proof (operateVnet_token _ _ _ _ _ _ _ _ _ _ H) as (th & Harb & Htok).
  destruct (arbitrate_queues _ _ _ Harb) as (Hmi & Hmo & Hid).
  unfold operateVnet in H. rewrite Harb in H. cbn [mbind outcome_bind] in H.
  apply bind_Ok in H as (ip & _ & H). apply bind_Ok in H as (op & _ & H).
  destruct ip, op; simplify_eq; simpl in Hsent; try done.
  apply bind_Ok in H as (u & _ & H). apply bind_Ok in H as ([] & _ & H).
  apply bind_Ok in H as (p & _ & H). apply bind_Ok in H as (r1 & H1 & H).
  apply bind_Ok in H as (p2 & _ & H).
  assert (sent r' = sent r1) as Hs1.
  { destruct p2; [|by simplify_eq]. apply bind_Ok in H as (a & Hav & H).
    apply out_available_token in Hav as [_ <-]. destruct a as [[] ?]; by simplify_eq. }
  destruct p; [|by simplify_eq]. apply bind_Ok in H1 as (a & Hav & H1).
  destruct (out_available_frame _ _ _ Hav) as [Hmi' Hmo']. simpl in Hmi', Hmo'.
  destruct (Hmo' outb) as (outb' & Hout' & Hconf); [by rewrite Hmo|].
  apply out_available_token in Hav as [Hav Hsa]. simpl in Hsa.
  destruct (a.1) eqn:Ea; [|simplify_eq; congruence].
  unfold transfer in H1. rewrite Hmi', Hmi, Hin, Hout' in H1. cbn [mbind outcome_bind] in H1.
  rewrite Hconf, Hcin, Hcout in H1. change Trace.BASELINE with false in H1.
  cbn [mbind outcome_bind] in H1.
  rewrite (bool_decide_eq_true_2 (5 = 5)), (bool_decide_eq_true_2 (sid < 4)),
    (bool_decide_eq_true_2 (vnet = 6 ∨ vnet = 2)) in H1 by (done || tauto). simpl in H1.
  destruct (core_request_sends a.2 vnet sid r1) as (Hst & How & Htk); [done| |done|congruence|].
  { intros b Hb. apply Hno. by rewrite <- Hmi, <- Hmi'. }
  split_and!; [done|done|]. destruct Htok as (_ & -> & _).
  destruct Hav as (_ & Hvt & _). simpl in Hvt. congruence.
Qed.

End isolation.

(** ** The memory's side *)

Section memory.
Context (sys : RubySystem.t) (net : Network.t) (counts : list Z).
Context (now cycle : Z) (rt : Z → Z → Z) (draw : Z).

Lemma find_for_owner_Some th inb owner ps i :
  find_for_owner counts now th inb owner ps = Ok (Some i) →
  i ∈ ps ∧ MessageBuffer.isReady_at now inb i = Ok true ∧ smBlock th = false ∧
  ∃ msg, MessageBuffer.peekMsgPtr_at inb i = Ok msg ∧
    NetDest.isElement counts (NetworkMessage.getDestination (Message.payload msg))
      (mkMachineID MachineType_L1Cache (u32 owner)) = Ok true.
Proof.
  induction ps as [|j ps IH]; cbn [find_for_owner]; [done|]. intros H.
  apply bind_Ok in H as (ready & Hready & H). apply bind_Ok in H as (hit & Hhit & H).
  destruct hit.
  - injection H as ->. destruct ready; [|done]. apply bind_Ok in Hhit as (msg & Hmsg & Hhit).
    apply bind_Ok in Hhit as (e & He & [= Hand]). apply andb_true_iff in Hand as [-> Hun].
    unfold isSharedMemUnblock in Hun. apply negb_true_iff in Hun.
    split_and!; [set_solver|done|done|eauto].
  - destruct (IH H) as (? & ?). split; [set_solver|done].
Qed.

Lemma memory_response_sends r vnet r' :
  memory_response sys net counts now cycle rt r vnet = Ok r' → sent r' ≠ sent r →
  smBlock (self r) = false ∧
  ∃ inb pos msg, buffer_at (m_in (self r)) vnet = Ok inb ∧
    MessageBuffer.isReady_at now inb pos = Ok true ∧
    MessageBuffer.peekMsgPtr_at inb pos = Ok msg ∧
    NetDest.isElement counts (NetworkMessage.getDestination (Message.payload msg))
      (mkMachineID MachineType_L1Cache (u32 (getSlotOwner cycle))) = Ok true.
Proof.
  unfold memory_response. intros H Hsent. apply bind_Ok in H as (inb & Hin & H).
  apply bind_Ok in H as (o & Ho & H). destruct o as [pos|]; [|by simplify_eq].
  apply find_for_owner_Some in Ho as (_ & Hready & Hblock & msg & Hmsg & He).
  split; [done|]. exists inb, pos, msg. done.
Qed.

(** A throttle that is not a core's never arbitrates. *)
Lemma arbitrate_not_core th vnet th' : 4 ≤ m_sID th →
  arbitrate now cycle draw th vnet = Ok th' → th' = th.
Proof.
  unfold arbitrate. intros Hid H. apply bind_Ok in H as (wq & _ & H).
  apply bind_Ok in H as (dq & _ & H). unfold returnSID in H.
  rewrite (bool_decide_eq_false_2 (m_sID th < 4)), andb_false_r in H by lia.
  rewrite andb_false_r in H. change Trace.BASELINE with false in H. by simplify_eq/=.
Qed.

Lemma wakeup_token th th' sg w : 4 ≤ m_sID th →
  wakeup sys net counts now cycle rt draw th = Ok (th', sg, w) → same_token th th'.
Proof.
  intros Hid H. unfold wakeup in H. apply bind_Ok in H as ([] & _ & H).
  apply bind_Ok in H as ([[[th1 bw] wk] sg1] & Hf & H). injection H as <- _ _.
  apply (mfold_inv (λ acc : t * Z * bool * list (Z * signal), same_token th acc.1.1.1)) in Hf.
  - exact Hf.
  - intros [[[t0 bw0] wk0] sg0] vnet acc _ Ht H0. simpl in *.
    apply bind_Ok in H0 as (r & Hop & [= <-]). simpl.
    apply operateVnet_token in Hop as (t1 & Harb & Htok). simpl in Harb.
    apply arbitrate_not_core in Harb; [|destruct Ht as [-> _]; lia]. subst t1. by etrans.
  - done.
Qed.

End memory.

Lemma addLinks_token th in_vec out_vec th' :
  addLinks th in_vec out_vec = Ok th' → same_token th th'.
Proof.
  unfold addLinks. intros H. apply bind_Ok in H as ([] & _ & H).
  apply (mfold_inv (same_token th)) in H; [done| |done].
  intros t0 [i o] t1 _ Ht Hl. unfold addLink in Hl.
  apply bind_Ok in Hl as (b & _ & Hl). apply bind_Ok in Hl as (b' & _ & [= <-]).
  by etrans.
Qed.

(** ** Properties *)

(** At every cycle exactly one core owns the slot, the one the position in
    the period gives; slots start every [SLOT_WIDTH] cycles; the slots of odd
    periods are write-back slots. *)
Theorem slot_schedule cycle : 0 ≤ cycle →
  0 ≤ getSlotOwner cycle < Trace.NPROC ∧
  getSlotOwner cycle * Trace.SLOT_WIDTH ≤ cycle `mod` slot_period
    < (getSlotOwner cycle + 1) * Trace.SLOT_WIDTH ∧
  (isStartOfSlot cycle = true ↔ cycle `mod` slot_period = getSlotOwner cycle * Trace.SLOT_WIDTH) ∧
  (isStartWBSlot cycle = true ↔ isStartOfSlot cycle = true ∧ (cycle / slot_period) `mod` 2 = 1).
Proof.
  intros Hc. rewrite isStartWBSlot_spec, isStartOfSlot_spec, getSlotOwner_spec by done.
  unfold slot_period, Trace.NPROC, Trace.SLOT_WIDTH. change (4 * 50) with 200.
  pose proof (Z.div_mod cycle 200 ltac:(lia)). pose proof (Z.mod_pos_bound cycle 200 ltac:(lia)).
  pose proof (Z.div_mod cycle 50 ltac:(lia)). pose proof (Z.mod_pos_bound cycle 50 ltac:(lia)).
  pose proof (Z.div_mod (cycle `mod` 200) 50 ltac:(lia)).
  pose proof (Z.mod_pos_bound (cycle `mod` 200) 50 ltac:(lia)).
  split_and!; lia.
Qed.

Lemma slot_schedule_witness : 0 ≤ getSlotOwner 1234 < Trace.NPROC ∧ getSlotOwner 1234 = 0.
Proof. split; [apply (slot_schedule 1234); lia|reflexivity]. Defined.

(** C11: the latency of the bus is bounded: from any cycle on, within two
    periods ([2 * NPROC * SLOT_WIDTH] cycles), every core gets the start of a
    demand slot and the start of a write-back slot of its own. *)
Theorem slot_latency i (wb : bool) cycle : 0 ≤ i < Trace.NPROC → 0 ≤ cycle →
  ∃ c, cycle ≤ c < cycle + 2 * slot_period ∧ slot_start i wb c.
Proof.
  unfold slot_period, Trace.NPROC, Trace.SLOT_WIDTH. intros Hi Hc.
  set (off := (if wb then 200 else 0) + 50 * i).
  assert (0 ≤ off < 400) by (subst off; destruct wb; lia).
  set (k := (cycle - off + 399) / 400).
  pose proof (Z.div_mod (cycle - off + 399) 400 ltac:(lia)).
  pose proof (Z.mod_pos_bound (cycle - off + 399) 400 ltac:(lia)).
  assert (0 ≤ k) by (apply Z.div_pos; lia).
  exists (400 * k + off). split; [lia|].
  replace (400 * k + off) with (400 * k + (if wb then 200 else 0) + 50 * i) by (subst off; lia).
  by apply slot_start_cycle.
Qed.

Lemma slot_latency_witness : ∃ c, 1000 ≤ c < 1400 ∧ slot_start 3 true c.
Proof. apply (slot_latency 3 true 1000); unfold Trace.NPROC; lia. Defined.

(** C20: at the start of a slot the arbiter of a core is work conserving: when
    one kind of request waits the slot serves that kind, and when both or
    neither wait it serves the kind of the schedule; the memory-block flag
    follows the token. *)
Theorem slot_work_conserving now cycle draw th wbq dq wb demand :
  isStartOfSlot cycle = true → m_sID th < 4 →
  buffer_at (m_in th) 6 = Ok wbq → buffer_at (m_in th) 2 = Ok dq →
  MessageBuffer.isReady now wbq = Ok wb → MessageBuffer.isReady now dq = Ok demand →
  ∃ th', arbitrate now cycle draw th 6 = Ok th' ∧
    vToken th' = (if wb && demand || negb wb && negb demand then isStartWBSlot cycle else wb) ∧
    smBlock th' = vToken th' ∧ m_in th' = m_in th ∧ m_out th' = m_out th.
Proof.
  intros Hstart Hid Hwb Hd Hrwb Hrd. unfold buffer_at in Hwb, Hd.
  apply bind_Ok in Hwb as ([q6|] & Hq6 & [= ->]). apply bind_Ok in Hd as ([q2|] & Hq2 & [= ->]).
  unfold arbitrate, setSlotType. rewrite Hq6, Hq2. cbn [mbind outcome_bind].
  change Trace.BASELINE with false. change Trace.READ_WB_RANDOM with false.
  cbn [negb]. rewrite Hstart. unfold returnSID.
  rewrite (bool_decide_eq_true_2 (6 = 6)), (bool_decide_eq_true_2 (_ < 4)) by done.
  change isStartDemandSlot with isStartOfSlot. rewrite Hstart. cbn [andb].
  destruct (isStartWBSlot cycle); simpl; rewrite ?Hrwb, ?Hrd; simpl;
    destruct wb, demand; simpl; rewrite ?Hrwb, ?Hrd; simpl; eexists; split_and!; done.
Qed.

(** *** An example: four cores, one memory, seven virtual networks *)

Definition demo_counts : list Z := [4; 1; 0].
Definition demo_net : Network.t := Network.mk 7 8 72.
Definition demo_rt (_ _ : Z) : Z := 1.

(** A message to core [i]. *)
Definition demo_payload (i : Z) : NetworkMessage.t :=
  let d := match (d ← NetDest.create demo_counts 0;
                  NetDest.add demo_counts d (mkMachineID MachineType_L1Cache i)) with
           | Ok d => d | Err _ => NetDest.mk [] false false false end in
  NetworkMessage.mk d Request_Control d false 0 0.

Definition demo_buffer (consumer : option consumer_ref) : buffer :=
  MessageBuffer.with_conf (MessageBuffer.create 1)
    (MessageBuffer.mkConfig 1 (Some demo_clock) (Some demo_clock) consumer 0 0 false true false 0 0).

(** The throttle with identifier [sid], a message for core [i] waiting in the
    virtual network [vnet] since tick 1. *)
Definition demo_throttle (sid vnet i : Z) : outcome t :=
  th ← create sid 0 1 16 1000;
  th ← addLinks th (replicate 7 (Some (demo_buffer None)))
                   (replicate 7 (Some (demo_buffer (Some (ToPerfectSwitch 5)))));
  b ← buffer_at (m_in th) vnet;
  e ← MessageBuffer.enqueue demo_sys 0 1 b (Message.create 0 (demo_payload i)) 1 false;
  ins ← store_at (m_in th) vnet e.1;
  Ok (with_in th ins).

Lemma demo_throttle_Ok : ∃ th1 th2 th4, demo_throttle 1 6 0 = Ok th1 ∧
  demo_throttle 2 2 0 = Ok th2 ∧ demo_throttle 4 4 3 = Ok th4.
Proof. eexists _, _, _. split_and!; vm_compute; reflexivity. Qed.

Lemma slot_work_conserving_witness : ∃ th th', demo_throttle 1 6 0 = Ok th ∧
  arbitrate 50 50 0 th 6 = Ok th' ∧ vToken th' = true.
Proof.
  destruct demo_throttle_Ok as (th & _ & _ & Hth & _ & _).
  assert (H := Hth). vm_compute in H. injection H as <-.
  match type of Hth with _ = Ok ?x => edestruct (slot_work_conserving 50 50 0 x)
    as (th' & Ha & Ht & _ & _ & _) end;
    [vm_compute; reflexivity|reflexivity|vm_compute; reflexivity|vm_compute; reflexivity|
     vm_compute; reflexivity|vm_compute; reflexivity|].
  eexists _, th'. split_and!; [exact Hth|exact Ha|]. vm_compute in Ht. exact Ht.
Defined.

(** C9: time-division isolation: on the link of a core into the central switch,
    a demand request or a write-back that is not a side packet is forwarded
    only in the first cycle of a slot owned by that core, and only in a slot
    of its kind. *)
Theorem requests_in_own_slot sys net counts now cycle rt draw r vnet sid r' :
  vnet = 2 ∨ vnet = 6 → sid < 4 →
  core_link (self r) vnet sid → no_side_packets (self r) vnet →
  operateVnet sys net counts now cycle rt draw r vnet = Ok r' → sent r' ≠ sent r →
  isStartOfSlot cycle = true ∧ getSlotOwner cycle = sid ∧
  vToken (self r') = bool_decide (vnet = 6).
Proof. apply operateVnet_sends. Qed.

(** Evidence that the demo throttle at cycle 50 sends its write-back. *)
Lemma demo_link th : demo_throttle 1 6 0 = Ok th →
  core_link th 6 1 ∧ no_side_packets th 6 ∧
  ∃ r', operateVnet demo_sys demo_net demo_counts 50 50 demo_rt 0 (mkRun th 1000 false []) 6
        = Ok r' ∧ sent r' ≠ [].
Proof.
  intros H. vm_compute in H. injection H as <-. split_and!.
  - eexists _, _. split_and!; vm_compute; reflexivity.
  - intros b Hb. vm_compute in Hb. injection Hb as <-. repeat constructor.
  - eexists. split; [vm_compute; reflexivity|]. vm_compute. discriminate.
Qed.

Lemma requests_in_own_slot_witness : isStartOfSlot 50 = true ∧ getSlotOwner 50 = 1.
Proof.
  destruct demo_throttle_Ok as (th & _ & _ & Hth & _ & _).
  destruct (demo_link th Hth) as (Hl & Hn & r' & Hr & Hs).
  destruct (requests_in_own_slot demo_sys demo_net demo_counts 50 50 demo_rt 0
    (mkRun th 1000 false []) 6 1 r') as (H1 & H2 & _);
    [right; reflexivity|lia|exact Hl|exact Hn|exact Hr|exact Hs|].
  split; [exact H1|exact H2].
Defined.

(** C10: the bus is exclusive: two different cores never forward a request (that
    is not a side packet) into the central switch in the same cycle. *)
Theorem bus_exclusive sys net counts now cycle rt draw r1 vnet1 sid1 r1' r2 vnet2 sid2 r2' :
  vnet1 = 2 ∨ vnet1 = 6 → sid1 < 4 → core_link (self r1) vnet1 sid1 →
  no_side_packets (self r1) vnet1 →
  vnet2 = 2 ∨ vnet2 = 6 → sid2 < 4 → core_link (self r2) vnet2 sid2 →
  no_side_packets (self r2) vnet2 → sid1 ≠ sid2 →
  operateVnet sys net counts now cycle rt draw r1 vnet1 = Ok r1' →
  operateVnet sys net counts now cycle rt draw r2 vnet2 = Ok r2' →
  sent r1' = sent r1 ∨ sent r2' = sent r2.
Proof.
  intros Hv1 Hs1 Hl1 Hn1 Hv2 Hs2 Hl2 Hn2 Hne H1 H2.
  destruct (decide (sent r1' = sent r1)) as [|Hd1]; [by left|].
  destruct (decide (sent r2' = sent r2)) as [|Hd2]; [by right|]. exfalso.
  destruct (operateVnet_sends _ _ _ _ _ _ _ _ _ _ _ Hv1 Hs1 Hl1 Hn1 H1 Hd1) as (_ & O1 & _).
  destruct (operateVnet_sends _ _ _ _ _ _ _ _ _ _ _ Hv2 Hs2 Hl2 Hn2 H2 Hd2) as (_ & O2 & _).
  congruence.
Qed.

Lemma demo_link2 th : demo_throttle 2 2 0 = Ok th →
  core_link th 2 2 ∧ no_side_packets th 2 ∧
  ∃ r', operateVnet demo_sys demo_net demo_counts 50 50 demo_rt 0 (mkRun th 1000 false []) 2
        = Ok r'.
Proof.
  intros H. vm_compute in H. injection H as <-. split_and!.
  - eexists _, _. split_and!; vm_compute; reflexivity.
  - intros b Hb. vm_compute in Hb. injection Hb as <-. repeat constructor.
  - eexists. vm_compute. reflexivity.
Qed.

Lemma bus_exclusive_witness : ∃ th1 th2 r1' r2',
  operateVnet demo_sys demo_net demo_counts 50 50 demo_rt 0 (mkRun th1 1000 false []) 6 = Ok r1' ∧
  operateVnet demo_sys demo_net demo_counts 50 50 demo_rt 0 (mkRun th2 1000 false []) 2 = Ok r2' ∧
  sent r1' ≠ [] ∧ sent r2' = [].
Proof.
  destruct demo_throttle_Ok as (th1 & th2 & _ & H1 & H2 & _).
  destruct (demo_link th1 H1) as (Hl1 & Hn1 & r1' & Hr1 & Hs1).
  destruct (demo_link2 th2 H2) as (Hl2 & Hn2 & r2' & Hr2).
  destruct (bus_exclusive demo_sys demo_net demo_counts 50 50 demo_rt 0
    (mkRun th1 1000 false []) 6 1 r1' (mkRun th2 1000 false []) 2 2 r2') as [E|E];
    [right; reflexivity|lia|exact Hl1|exact Hn1|left; reflexivity|lia|exact Hl2|exact Hn2|lia|
     exact Hr1|exact Hr2|contradiction|].
  exists th1, th2, r1', r2'. split_and!; [exact Hr1|exact Hr2|exact Hs1|exact E].
Defined.

(** What the shared memory sends into the central switch in a cycle has the
    owner of the current slot among its destinations. *)
Theorem memory_sends_to_owner sys net counts now cycle rt r vnet r' :
  memory_response sys net counts now cycle rt r vnet = Ok r' → sent r' ≠ sent r →
  ∃ inb pos msg, buffer_at (m_in (self r)) vnet = Ok inb ∧
    MessageBuffer.isReady_at now inb pos = Ok true ∧
    MessageBuffer.peekMsgPtr_at inb pos = Ok msg ∧
    NetDest.isElement counts (NetworkMessage.getDestination (Message.payload msg))
      (mkMachineID MachineType_L1Cache (u32 (getSlotOwner cycle))) = Ok true.
Proof. intros H Hs. by apply memory_response_sends in H as [_ ?]. Qed.

Lemma demo_memory th : demo_throttle 4 4 3 = Ok th → m_sID th = 4 ∧
  (∃ r', memory_response demo_sys demo_net demo_counts 160 160 demo_rt (mkRun th 1000 false []) 4
         = Ok r' ∧ sent r' ≠ []) ∧
  ∃ th' sg w, wakeup demo_sys demo_net demo_counts 160 160 demo_rt 0 th = Ok (th', sg, w).
Proof.
  intros H. vm_compute in H. injection H as <-. split_and!.
  - reflexivity.
  - eexists. split; [vm_compute; reflexivity|]. vm_compute. discriminate.
  - eexists _, _, _. vm_compute. reflexivity.
Qed.

Lemma memory_sends_to_owner_witness : ∃ th inb pos msg,
  buffer_at (m_in th) 4 = Ok inb ∧ MessageBuffer.peekMsgPtr_at inb pos = Ok msg ∧
  NetDest.isElement demo_counts (NetworkMessage.getDestination (Message.payload msg))
    (mkMachineID MachineType_L1Cache 3) = Ok true.
Proof.
  destruct demo_throttle_Ok as (_ & _ & th & _ & _ & Hth).
  destruct (demo_memory th Hth) as (_ & (r' & Hr & Hs) & _).
  destruct (memory_sends_to_owner demo_sys demo_net demo_counts 160 160 demo_rt
    (mkRun th 1000 false []) 4 r' Hr Hs) as (inb & pos & msg & Hi & _ & Hm & He).
  exists th, inb, pos, msg. split_and!; [exact Hi|exact Hm|exact He].
Defined.

(** The shared memory is never blocked: the flag that the memory's throttle
    tests is its own, only throttles of cores change theirs, so whatever
    happens in its wakeups it stays as the constructor left it, and a
    write-back slot does not keep the memory from sending. *)
Theorem memory_never_blocked sys net counts sid node latency mult bw in_vec out_vec ws th0 th th' :
  4 ≤ sid → create sid node latency mult bw = Ok th0 → addLinks th0 in_vec out_vec = Ok th →
  mfold (λ th '(now, cycle, rt, draw, ins, outs),
    res ← wakeup sys net counts now cycle rt draw (with_out (with_in th ins) outs);
    Ok res.1.1) th ws = Ok th' →
  isSharedMemUnblock th' = true.
Proof.
  intros Hid Hth Hlinks Hw.
  assert (m_sID th = sid ∧ smBlock th = false) as [Hs Hb].
  { unfold create, init in Hth. apply bind_Ok in Hth as ([] & _ & [= <-]).
    apply addLinks_token in Hlinks as (-> & _ & ->). done. }
  apply (mfold_inv (λ th, m_sID th = sid ∧ smBlock th = false)) in Hw; [|..|done].
  - unfold isSharedMemUnblock. destruct Hw as [_ ->]. done.
  - intros t0 [[[[[now cycle] rt] draw] ins] outs] t1 _ [Ht0 Hb0] Hstep.
    apply bind_Ok in Hstep as ([[t2 sg] w] & Hwk & [= <-]).
    apply wakeup_token in Hwk as (H1 & _ & H3); [|simpl; lia].
    simpl in *. split; congruence.
Qed.

Lemma memory_never_blocked_witness : ∃ th th' sg w,
  demo_throttle 4 4 3 = Ok th ∧
  wakeup demo_sys demo_net demo_counts 200 200 demo_rt 0 th = Ok (th', sg, w) ∧
  isStartWBSlot 200 = true ∧ isSharedMemUnblock th' = true.
Proof.
  destruct demo_throttle_Ok as (_ & _ & th & _ & _ & Hth). exists th.
  assert (H := Hth). vm_compute in H. injection H as <-.
  eexists _, _, _. split_and!; [exact Hth|vm_compute; reflexivity|vm_compute; reflexivity|].
  match type of Hth with _ = Ok ?x =>
    eapply (memory_never_blocked demo_sys demo_net demo_counts 4 0 1 16 1000
      (replicate 7 (Some (demo_buffer None)))
      (replicate 7 (Some (demo_buffer (Some (ToPerfectSwitch 5)))))
      [(200, 200, demo_rt, 0, m_in x, m_out x)])
  end; [lia|vm_compute; reflexivity|vm_compute; reflexivity|vm_compute; reflexivity].
Defined.
