(* ===== verification/SlotTimes.v ===== *)
(** * Slot times of the protocol (slicc_interface/RubySlicc_Util.hh;
      protocol/MSI_Snooping_One_Level_RT-dir.sm)

    The functions with which the controllers compute slot boundaries: the
    directory sets the send time of a response to a slot of its destination,
    and the caches account the time a request waited for the bus.  The
    theorems relate them to the schedule of the arbiter. *)

From S2P Require Import Prelude Buffers Arbiter.
Import Throttle.
Local Open Scope Z_scope.

Module RubySlicc_Util.

(** [Cycles::operator-] asserts that the difference is not negative. *)
Definition cycles_sub (a b : Z) : outcome Z :=
  assert_that (bool_decide (b ≤ a));; Ok (a - b).

(** The [int] products with [nodeID] are converted to 64 bits. *)
Definition inBound (t nodeID : Z) : bool :=
  let slot_period := u32 (Trace.NPROC * Trace.SLOT_WIDTH) in
  bool_decide (t `mod` slot_period < u64 ((nodeID + 1) * Trace.SLOT_WIDTH)) &&
  bool_decide (u64 (nodeID * Trace.SLOT_WIDTH) ≤ t `mod` slot_period).

(** [periodId] and its product with [slotPeriod] are 32-bit. *)
Definition getNearestStartPeriod (t : Z) : Z :=
  let slotPeriod := u32 (Trace.NPROC * Trace.SLOT_WIDTH) in
  let periodId := u32 (t / slotPeriod) in
  u32 (periodId * slotPeriod).

Definition refineFirstScheduledTime (t : Z) : outcome Z := cycles_sub t 5.

(** [while (t > periodStart)]; past [2 ^ 64] the start wraps, and the loop goes round. *)
Fixpoint advance (fuel : nat) (t periodStart : Z) : outcome Z :=
  match fuel with
  | O => Err OutOfFuel
  | S fuel =>
      if decide (periodStart < t) then
        if decide (periodStart + 50 < 2 ^ 64) then advance fuel t (u64 (periodStart + 50))
        else Err Runaway
      else Ok periodStart
  end.

(** The start advances by 50, so [t / 50 + 1] steps pass [t]. *)
Definition getCurrentStartSlot (t nodeID : Z) : outcome Z :=
  let periodStart := getNearestStartPeriod t in
  if decide (nodeID = -1) then advance (Z.to_nat (t / 50) + 2) t periodStart
  else Ok (u64 (periodStart + u64 (nodeID * 50))).

Definition needRefineIntraCoreCohLatency (t : Z) : bool := bool_decide (400 < t).
Definition getDifferenceIntraCoreCohLatency (t : Z) : outcome Z := cycles_sub t 400.
Definition getCycles (t : Z) : Z := u32 t.

Definition getNearestSlot (t nodeID : Z) : Z :=
  let nearestPeriod := getNearestStartPeriod t in
  let ownerStartSlot := u64 (nearestPeriod + u64 (nodeID * 50)) in
  let slotPeriod := u32 (Trace.NPROC * Trace.SLOT_WIDTH) in
  if decide (t < ownerStartSlot) then ownerStartSlot else u64 (ownerStartSlot + slotPeriod).

Definition getArbitLatency (t nodeID : Z) (zeroArb : bool) : outcome Z :=
  if zeroArb then
    nearestSlot ← getCurrentStartSlot t (-1);
    cycles_sub nearestSlot t
  else
    let nearestSlot := getNearestSlot (u64 (t + 5)) nodeID in
    if decide (nearestSlot < t) then cycles_sub t nearestSlot else cycles_sub nearestSlot t.

(** The small helpers of the header.  Those on an [Address] call its methods: see [Addresses]. *)
Definition zero_time : Z := 0.
Definition intToID (nodenum : Z) : Z := u32 nodenum.
Definition IDToInt (id : Z) : Z := s32 id.
Definition mod_ (val m : Z) : outcome Z := if decide (m = 0) then Err OutOfBounds else Ok (Z.rem val m).
Definition max_tokens : Z := 1024.

(** The send time in the action [d_sendData] of the directory: [node] is the
    smallest destination and [t] the time the memory queue returned. *)
Definition send_time (node t : Z) : outcome Z :=
  if decide (0 ≤ node ≤ 7) then
    if inBound t node then getCurrentStartSlot t node else Ok (getNearestSlot t node)
  else Ok t.

End RubySlicc_Util.

Import RubySlicc_Util.

(** An [int] survives the conversion to a [NodeID] and back. *)
Lemma IDToInt_intToID n : - 2 ^ 31 ≤ n < 2 ^ 31 → IDToInt (intToID n) = n.
Proof.
  intros Hn. unfold IDToInt, intToID, s32, u32, uwrap. rewrite Zplus_mod_idemp_l.
  rewrite Z.mod_small by lia. lia.
Qed.

(** ** Slot boundaries within 32 bits *)

Lemma start_period t : 0 ≤ t < 2 ^ 32 → getNearestStartPeriod t = 200 * (t / 200).
Proof.
  intros Ht. unfold getNearestStartPeriod, u32, Trace.NPROC, Trace.SLOT_WIDTH.
  change (uwrap 32 (4 * 50)) with 200.
  pose proof (Z.div_mod t 200 ltac:(lia)). pose proof (Z.mod_pos_bound t 200 ltac:(lia)).
  rewrite (uwrap_id 32 (t / 200)), uwrap_id by (unfold fits; lia). lia.
Qed.

Lemma start_period_fits t : 0 ≤ getNearestStartPeriod t < 2 ^ 32.
Proof. unfold getNearestStartPeriod. apply (uwrap_fits 32). lia. Qed.

(** The product with a core number is small. *)
Lemma node_slot n : 0 ≤ n < 8 → u64 (n * 50) = n * 50.
Proof. intros. apply uwrap_id. unfold fits. lia. Qed.

(** [c] starts a slot of core [n] exactly if it is at [50 * n] in a period. *)
Lemma slot_of_core n c : 0 ≤ n < Trace.NPROC → 0 ≤ c →
  isStartOfSlot c = true ∧ getSlotOwner c = n ↔ c `mod` 200 = 50 * n.
Proof.
  intros Hn Hc. rewrite isStartOfSlot_spec, getSlotOwner_spec by done.
  unfold slot_period, Trace.NPROC, Trace.SLOT_WIDTH in *. change (4 * 50) with 200.
  pose proof (Z.div_mod c 200 ltac:(lia)). pose proof (Z.mod_pos_bound c 200 ltac:(lia)).
  pose proof (Z.div_mod c 50 ltac:(lia)). pose proof (Z.mod_pos_bound c 50 ltac:(lia)).
  pose proof (Z.div_mod (c `mod` 200) 50 ltac:(lia)).
  pose proof (Z.mod_pos_bound (c `mod` 200) 50 ltac:(lia)).
  lia.
Qed.

Lemma inBound_owner t n : 0 ≤ t → 0 ≤ n < Trace.NPROC →
  inBound t n = true ↔ getSlotOwner t = n.
Proof.
  intros Ht Hn. rewrite getSlotOwner_spec by done.
  unfold inBound, slot_period, u32, Trace.NPROC, Trace.SLOT_WIDTH in *.
  change (uwrap 32 (4 * 50)) with 200. change (4 * 50) with 200.
  rewrite andb_true_iff, !bool_decide_eq_true, !node_slot by lia.
  pose proof (Z.div_mod (t `mod` 200) 50 ltac:(lia)).
  pose proof (Z.mod_pos_bound (t `mod` 200) 50 ltac:(lia)). lia.
Qed.

(** The next slot of a core is at most a period away and is the first. *)
Lemma nearest_slot t n : 0 ≤ t < 2 ^ 32 → 0 ≤ n < Trace.NPROC →
  let c := getNearestSlot t n in
  t < c ≤ t + 200 ∧ c `mod` 200 = 50 * n.
Proof.
  intros Ht Hn. unfold getNearestSlot. rewrite start_period, node_slot by (unfold Trace.NPROC in *; lia).
  unfold u32, u64, Trace.NPROC, Trace.SLOT_WIDTH in *. change (uwrap 32 (4 * 50)) with 200.
  pose proof (Z.div_mod t 200 ltac:(lia)). pose proof (Z.mod_pos_bound t 200 ltac:(lia)).
  rewrite (uwrap_id 64 (200 * (t / 200) + n * 50)) by (unfold fits; lia).
  destruct (decide _); [|rewrite uwrap_id by (unfold fits; lia)]; (split; [lia|]).
  - symmetry. apply (Z.mod_unique _ _ (t / 200)); lia.
  - symmetry. apply (Z.mod_unique _ _ (t / 200 + 1)); lia.
Qed.

Lemma current_slot t n : 0 ≤ t < 2 ^ 32 → 0 ≤ n < Trace.NPROC →
  getCurrentStartSlot t n = Ok (200 * (t / 200) + 50 * n).
Proof.
  intros Ht Hn. unfold getCurrentStartSlot. rewrite decide_False by lia.
  rewrite start_period, node_slot by (unfold Trace.NPROC in *; lia).
  pose proof (Z.div_mod t 200 ltac:(lia)). pose proof (Z.mod_pos_bound t 200 ltac:(lia)).
  unfold u64. rewrite uwrap_id by (unfold fits, Trace.NPROC in *; lia). f_equal. lia.
Qed.

(** The loop stops at the first value not below [t]. *)
Lemma advance_spec fuel t s : 0 ≤ s → 0 ≤ t ≤ 2 ^ 64 - 50 → t - s < 50 * (Z.of_nat fuel - 1) →
  s < t + 50 → s < 2 ^ 64 →
  ∃ c k, advance fuel t s = Ok c ∧ 0 ≤ k ∧ c = s + 50 * k ∧ t ≤ c < t + 50.
Proof.
  revert s. induction fuel as [|fuel IH]; intros s Hs Ht Hf Hst Hw; [lia|]. cbn [advance].
  destruct (decide (s < t)); [|exists s, 0; split_and!; [done|lia..]].
  rewrite decide_True by lia.
  unfold u64. rewrite uwrap_id by (unfold fits; lia).
  destruct (IH (s + 50)) as (c & k & E & Hk & -> & Hc); [lia..|].
  exists (s + 50 + 50 * k), (k + 1). split_and!; [exact E|lia..].
Qed.

(** ** Properties *)

(** Below cycle [2 ^ 32] the send time that the directory writes into a data
    message, which the statistics of the caches use, is the start of a slot of
    the core it is for, as the arbiter's schedule defines it: of the current slot
    if the core owns it, and otherwise of the core's next slot, with none in
    between. *)
Theorem send_time_in_own_slot t n : 0 ≤ t < 2 ^ 32 → 0 ≤ n < Trace.NPROC →
  ∃ c, send_time n t = Ok c ∧ isStartOfSlot c = true ∧ getSlotOwner c = n ∧
    (getSlotOwner t = n → c ≤ t < c + Trace.SLOT_WIDTH) ∧
    (getSlotOwner t ≠ n → t < c ≤ t + slot_period ∧
       ∀ d, t < d < c → ¬ (isStartOfSlot d = true ∧ getSlotOwner d = n)).
Proof.
  intros Ht Hn. pose proof Hn as Hn4. unfold Trace.NPROC in Hn4.
  unfold send_time. rewrite decide_True by lia.
  pose proof (inBound_owner t n ltac:(lia) Hn) as Hin.
  pose proof (Z.div_mod t 200 ltac:(lia)). pose proof (Z.mod_pos_bound t 200 ltac:(lia)).
  destruct (inBound t n).
  - assert (getSlotOwner t = n) as Ho by by apply Hin.
    rewrite current_slot by done. eexists; split; [done|].
    assert ((200 * (t / 200) + 50 * n) `mod` 200 = 50 * n) as Hm
      by (symmetry; apply (Z.mod_unique _ _ (t / 200)); lia).
    apply slot_of_core in Hm as [Hs Hown]; [|done|lia].
    rewrite getSlotOwner_spec in Ho by lia.
    unfold slot_period, Trace.NPROC, Trace.SLOT_WIDTH in *. change (4 * 50) with 200 in *.
    pose proof (Z.div_mod (t `mod` 200) 50 ltac:(lia)).
    pose proof (Z.mod_pos_bound (t `mod` 200) 50 ltac:(lia)).
    split_and!; [done..| |]; intros; lia.
  - assert (getSlotOwner t ≠ n) as Ho by (intros E; by apply Hin in E).
    destruct (nearest_slot t n Ht Hn) as [Hr Hm]. eexists; split; [done|].
    set (c := getNearestSlot t n) in *.
    pose proof Hm as Hm'. apply slot_of_core in Hm' as [Hs Hown]; [|done|lia].
    split_and!; [done..| |]; [intros; lia|]. intros _.
    split; [change slot_period with 200; lia|].
    intros d Hd Hsd. apply slot_of_core in Hsd; [|done|lia].
    pose proof (Z.div_mod d 200 ltac:(lia)). pose proof (Z.div_mod c 200 ltac:(lia)). lia.
Qed.

Lemma send_time_in_own_slot_witness :
  ∃ c, send_time 3 1234 = Ok c ∧ getSlotOwner 1234 ≠ 3 ∧ 1234 < c ≤ 1434 ∧ getSlotOwner c = 3.
Proof.
  destruct (send_time_in_own_slot 1234 3) as (c & E & _ & Ho & _ & Hn);
    [lia|unfold Trace.NPROC; lia|].
  assert (getSlotOwner 1234 ≠ 3) as H by (vm_compute; discriminate).
  exists c. split_and!; [exact E|exact H|apply (Hn H)|apply (Hn H)|exact Ho].
Defined.

(** The arbitration latency that the caches account is computed without a
    failing assert and ends at the start of a slot: less than a slot away with
    [zeroArb], and otherwise the core's first slot more than five cycles away,
    at most a period and five cycles later; times are below [2 ^ 32 - 5]. *)
Theorem arbit_latency_bounded t n (zeroArb : bool) :
  0 ≤ t < 2 ^ 32 - 5 → 0 ≤ n < Trace.NPROC →
  ∃ l, getArbitLatency t n zeroArb = Ok l ∧ isStartOfSlot (t + l) = true ∧
    if zeroArb then 0 ≤ l < Trace.SLOT_WIDTH
    else getSlotOwner (t + l) = n ∧ 5 < l ≤ slot_period + 5.
Proof.
  intros Ht Hn. unfold getArbitLatency. destruct zeroArb.
  - unfold getCurrentStartSlot. rewrite decide_True by done. rewrite start_period by lia.
    pose proof (Z.div_mod t 200 ltac:(lia)). pose proof (Z.mod_pos_bound t 200 ltac:(lia)).
    pose proof (Z.div_mod t 50 ltac:(lia)). pose proof (Z.mod_pos_bound t 50 ltac:(lia)).
    destruct (advance_spec (Z.to_nat (t / 50) + 2) t (200 * (t / 200)))
      as (c & k & -> & Hk & Hc & Hr); [lia..|].
    cbn [mbind outcome_bind]. unfold cycles_sub. rewrite bool_decide_eq_true_2 by lia.
    exists (c - t). split; [done|]. replace (t + (c - t)) with c by lia.
    split; [|unfold Trace.SLOT_WIDTH; lia]. apply isStartOfSlot_spec; [lia|].
    apply Z.mod_divide; [done|]. exists (4 * (t / 200) + k). unfold Trace.SLOT_WIDTH. lia.
  - unfold u64. rewrite uwrap_id by (unfold fits; lia).
    destruct (nearest_slot (t + 5) n ltac:(lia) Hn) as [Hr Hm].
    set (c := getNearestSlot (t + 5) n) in *. rewrite decide_False by lia.
    unfold cycles_sub. rewrite bool_decide_eq_true_2 by lia.
    exists (c - t). split; [done|]. replace (t + (c - t)) with c by lia.
    apply slot_of_core in Hm as [Hs Ho]; [|done|lia].
    change slot_period with 200. split_and!; [done..|lia|lia].
Qed.

Lemma arbit_latency_bounded_witness :
  ∃ l, getArbitLatency 1234 2 false = Ok l ∧ getSlotOwner (1234 + l) = 2 ∧ 5 < l ≤ 205.
Proof.
  destruct (arbit_latency_bounded 1234 2 false) as (l & E & _ & Ho & Hl);
    [lia|unfold Trace.NPROC; lia|].
  exists l. split_and!; [exact E|exact Ho|apply Hl|apply Hl].
Defined.

(** The period number is kept in 32 bits, so two periods past cycle
    [2 ^ 32] the next slot of every core is computed to lie in the past. *)
Theorem slot_time_wraps t n : 2 ^ 32 + 2 * slot_period ≤ t → 0 ≤ n < Trace.NPROC →
  getNearestSlot t n < t.
Proof.
  intros Ht Hn. change (2 * slot_period) with 400 in Ht. unfold Trace.NPROC in Hn.
  pose proof (start_period_fits t). unfold getNearestSlot. rewrite node_slot by lia.
  unfold u32, u64, Trace.NPROC, Trace.SLOT_WIDTH. change (uwrap 32 (4 * 50)) with 200.
  rewrite (uwrap_id 64 (getNearestStartPeriod t + n * 50)) by (unfold fits; lia).
  rewrite decide_False, uwrap_id by (unfold fits; lia). lia.
Qed.

Lemma slot_time_wraps_witness : getNearestSlot 5000000000 1 < 5000000000.
Proof. apply (slot_time_wraps 5000000000 1); [vm_compute; discriminate|unfold Trace.NPROC; lia]. Defined.
