(* ===== verification/Routing.v ===== *)
(** * Topology and routing tables (network/Topology.hh, Topology.cc,
      BasicLink.hh)

    The topology turns the external and internal links into a weighted graph
    on switch identifiers (the endpoints first, then the routers), computes all
    shortest distances by repeated relaxation, and gives each link the set of
    machines it leads to.  Weights, distances, latencies and hop counts are C++
    [int]s: their sums wrap at 32 bits here, and the theorems on distances ask
    for weights below [2^30], far above [INFINITE_LATENCY]. *)

From S2P Require Import Prelude NodeSets Destinations.
Local Open Scope Z_scope.

Module Topology.

Definition INFINITE_LATENCY : Z := 10000.

Inductive LinkDirection : Set := LinkDirection_In | LinkDirection_Out.

(** [BasicLink] *)
Record BasicLink := mkLink { m_latency : Z; m_bandwidth_factor : Z; m_weight : Z }.

(** The parameters of an external link: the controller's machine type and
    version, and the router; those of an internal link: two routers. *)
Record BasicExtLink := mkExtLink {
  ext_link : BasicLink; ext_type : Z; ext_version : Z; ext_router : Z }.
Record BasicIntLink := mkIntLink { int_link : BasicLink; node_a : Z; node_b : Z }.

Record LinkEntry := mkEntry { link : BasicLink; direction : LinkDirection }.

(** [std::vector<std::vector<int>>] *)
Notation Matrix := (list (list Z)).

Definition mget (m : Matrix) (i j : Z) : outcome Z := row ← vget m i; vget row j.
Definition mset (m : Matrix) (i j x : Z) : outcome Matrix :=
  row ← vget m i; row ← vset row j x; vset m i row.

Record t := mk {
  m_nodes : Z;
  m_number_of_switches : Z;
  m_component_latencies : Matrix;
  m_component_inter_switches : Matrix;
  m_link_map : gmap (Z * Z) LinkEntry }.

Definition addLink (m : gmap (Z * Z) LinkEntry) (src dest : Z) (l : BasicLink)
    (dir : LinkDirection) : gmap (Z * Z) LinkEntry := <[(src, dest) := mkEntry l dir]> m.

(** The constructor. *)
Definition create (counts : list Z) (num_routers : Z) (ext_links : list BasicExtLink)
    (int_links : list BasicIntLink) : outcome t :=
  nodes ← MachineType.base_number counts (MachineType.NUM counts);
  assert_that (bool_decide (1 < nodes));;
  (if decide (nodes = Z.of_nat (length ext_links)) then Ok tt else Err FatalFault);;
  links ← mfold (λ m e,
    machine_base_idx ← MachineType.base_number counts (ext_type e);
    let ext_idx1 := machine_base_idx + ext_version e in
    let ext_idx2 := ext_idx1 + nodes in
    let int_idx := ext_router e + 2 * nodes in
    let m := addLink m ext_idx1 int_idx (ext_link e) LinkDirection_In in
    Ok (addLink m int_idx ext_idx2 (ext_link e) LinkDirection_Out)) ∅ ext_links;
  links ← mfold (λ m e,
    let a := node_a e + 2 * nodes in
    let b := node_b e + 2 * nodes in
    let m := addLink m a b (int_link e) LinkDirection_In in
    Ok (addLink m b a (int_link e) LinkDirection_Out)) links int_links;
  Ok (mk nodes num_routers [] [] links).

(** *** All-pairs shortest paths *)

(** The matrices that [extend_shortest_path] updates. *)
Record tables := mkTables { current_dist : Matrix; latencies : Matrix; inter_switches : Matrix }.

(** The loop over [k] for one cell: [minimum], [intermediate_switch] and the
    hop counts. *)
Definition relax_via (dist : Matrix) (i j : Z) (st : Z * Z * Matrix) (k : Z)
    : outcome (Z * Z * Matrix) :=
  let '(minimum, mid, inter) := st in
  dik ← mget dist i k;
  dkj ← mget dist k j;
  let minimum' := Z.min minimum (s32 (dik + dkj)) in
  if decide (minimum = minimum') then Ok (minimum', mid, inter)
  else
    ik ← mget inter i k;
    kj ← mget inter k j;
    inter ← mset inter i j (s32 (ik + kj + 1));
    Ok (minimum', k, inter).

(** One cell; the flag is [change]. *)
Definition relax_cell (nodes : Z) (st : bool * tables) (ij : Z * Z) : outcome (bool * tables) :=
  let '(change, tb) := st in
  let '(i, j) := ij in
  dij ← mget (current_dist tb) i j;
  r ← mfold (relax_via (current_dist tb) i j) (dij, -1, inter_switches tb) (seqZ 0 nodes);
  let '(minimum, mid, inter) := r in
  if decide (dij = minimum) then Ok (change, mkTables (current_dist tb) (latencies tb) inter)
  else
    dist ← mset (current_dist tb) i j minimum;
    assert_that (bool_decide (0 ≤ mid));;
    row ← vget (latencies tb) i;
    assert_that (bool_decide (mid < Z.of_nat (length row)));;
    l1 ← mget (latencies tb) i mid;
    l2 ← mget (latencies tb) mid j;
    lat ← mset (latencies tb) i j (s32 (l1 + l2));
    Ok (true, mkTables dist lat inter).

(** The cells in row order. *)
Definition cells (nodes : Z) : list (Z * Z) :=
  i ← seqZ 0 nodes; j ← seqZ 0 nodes; [(i, j)].

(** One iteration of [while (change)]. *)
Definition relax_pass (tb : tables) : outcome (bool * tables) :=
  let nodes := Z.of_nat (length (current_dist tb)) in
  mfold (relax_cell nodes) (false, tb) (cells nodes).

Fixpoint extend_loop (fuel : nat) (tb : tables) : outcome tables :=
  match fuel with
  | O => Err OutOfFuel
  | S fuel =>
      r ← relax_pass tb;
      if r.1 : bool then extend_loop fuel r.2 else Ok r.2
  end.

(** Every iteration but the last lowers the sum of the distances. *)
Definition total (m : Matrix) : Z := foldr (λ row acc, foldr Z.add 0 row + acc) 0 m.

Definition extend_shortest_path (tb : tables) : outcome tables :=
  extend_loop (S (Z.to_nat (total (current_dist tb)))) tb.

(** [shortest_path]: the distances, with the updated latencies and hop counts. *)
Definition shortest_path (weights lat inter : Matrix) : outcome tables :=
  extend_shortest_path (mkTables weights lat inter).

Definition link_is_shortest_path_to_node (weights dist : Matrix) (src next final : Z)
    : outcome bool :=
  w ← mget weights src next;
  d ← mget dist next final;
  d' ← mget dist src final;
  Ok (bool_decide (s32 (w + d) = d')).

(** The test on a destination: the links into the router numbered like the
    number of nodes, the central switch, lead to every machine. *)
Definition leads_to (weights dist : Matrix) (nodes src next final : Z) : outcome bool :=
  if decide (u32 (next - 2 * nodes) = nodes) then Ok true
  else link_is_shortest_path_to_node weights dist src next final.

(** The loop over the machines of one type; the state is [result] and [d]. *)
Definition type_machines (counts : list Z) (lead : Z → outcome bool) (st : NetDest.t * Z) (m : Z)
    : outcome (NetDest.t * Z) :=
  n ← MachineType.base_count counts m;
  mfold (λ '(result, d) i,
    add ← lead d;
    result ← (if add : bool then NetDest.add counts result (mkMachineID m i) else Ok result);
    Ok (result, d + 1)) st (seqZ 0 n).

(** The routing table entry of the link from [src] to [next]. *)
Definition shortest_path_to_node (counts : list Z) (junk : Z) (weights dist : Matrix)
    (nodes src next : Z) : outcome NetDest.t :=
  result ← NetDest.create counts junk;
  max_machines ← MachineType.base_number counts (MachineType.NUM counts);
  r ← mfold (type_machines counts (λ d, leads_to weights dist nodes src next (d + max_machines)))
        (result, 0) (seqZ 0 (MachineType.NUM counts));
  Ok r.1.

(** *** The links *)

(** The calls on the network, in order. *)
Inductive link_call : Type :=
  | makeInLink (src dest : Z) (e : LinkEntry) (routing_table_entry : NetDest.t)
  | makeOutLink (src dest : Z) (e : LinkEntry) (routing_table_entry : NetDest.t)
  | makeInternalLink (src dest : Z) (e : LinkEntry) (routing_table_entry : NetDest.t).

(** [m_link_map[src_dest]] is there, since the weight of the pair was set from
    it. *)
Definition makeLink (top : t) (src dest : Z) (entry : NetDest.t) : outcome link_call :=
  let n := m_nodes top in
  assert_that (bool_decide (2 * n ≤ src ∨ 2 * n ≤ dest));;
  e ← from_option_or NullDeref (m_link_map top !! (src, dest));
  if decide (src < n) then Ok (makeInLink src (dest - 2 * n) e entry)
  else if decide (dest < 2 * n) then
    assert_that (bool_decide (n ≤ dest));;
    Ok (makeOutLink (src - 2 * n) (dest - n) e entry)
  else
    assert_that (bool_decide (2 * n ≤ src ∧ 2 * n ≤ dest));;
    Ok (makeInternalLink (src - 2 * n) (dest - 2 * n) e entry).

(** An [n] by [n] matrix. *)
Definition square (n : Z) (f : Z → Z → Z) : Matrix :=
  map (λ i, map (f i) (seqZ 0 n)) (seqZ 0 n).

(** The identifiers in use, the weights and the latencies. *)
Definition max_switch_id (m : gmap (Z * Z) LinkEntry) : Z :=
  map_fold (λ sd _ acc, Z.max acc (Z.max sd.1 sd.2)) 0 m.

Definition link_weights (m : gmap (Z * Z) LinkEntry) (n : Z) : Matrix :=
  square n (λ i j, match m !! (i, j) with
                   | Some e => m_weight (link e)
                   | None => if decide (i = j) then 0 else INFINITE_LATENCY
                   end).

Definition link_latencies (m : gmap (Z * Z) LinkEntry) (n : Z) : Matrix :=
  square n (λ i j, match m !! (i, j) with
                   | Some e => s32 (m_latency (link e))
                   | None => -1
                   end).

Definition createLinks (counts : list Z) (junk : Z) (top : t) : outcome (t * list link_call) :=
  let num_switches := max_switch_id (m_link_map top) + 1 in
  let weights := link_weights (m_link_map top) num_switches in
  tb ← shortest_path weights (link_latencies (m_link_map top) num_switches)
         (square num_switches (λ _ _, 0));
  calls ← mfold (λ calls '(i, j),
      weight ← mget weights i j;
      if decide (0 < weight ∧ weight ≠ INFINITE_LATENCY) then
        destination_set ← shortest_path_to_node counts junk weights (current_dist tb)
                            (m_nodes top) i j;
        c ← makeLink top i j destination_set;
        Ok (calls ++ [c])
      else Ok calls) [] (cells num_switches);
  Ok (mk (m_nodes top) (m_number_of_switches top) (latencies tb) (inter_switches tb)
         (m_link_map top), calls).

End Topology.

Import Topology.

(** ** Square matrices *)

Definition entry (m : Matrix) (i j : Z) : Z :=
  default 0 (m !! Z.to_nat i ≫= λ row, row !! Z.to_nat j).

Definition wf (n : Z) (m : Matrix) : Prop :=
  Z.of_nat (length m) = n ∧ Forall (λ row, Z.of_nat (length row) = n) m.

Lemma mget_entry n m i j : wf n m → 0 ≤ i < n → 0 ≤ j < n → mget m i j = Ok (entry m i j).
Proof.
  intros [Hlen Hrows] Hi Hj. unfold mget, entry.
  destruct (lookup_lt_is_Some_2 m (Z.to_nat i)) as [row Hrow]; [lia|].
  rewrite (proj2 (vget_Ok m i row)), Hrow by (split; [lia|done]). cbn [mbind outcome_bind option_bind].
  rewrite Forall_lookup in Hrows. specialize (Hrows _ _ Hrow).
  destruct (lookup_lt_is_Some_2 row (Z.to_nat j)) as [x Hx]; [lia|].
  by rewrite (proj2 (vget_Ok row j x)), Hx by (split; [lia|done]).
Qed.

Lemma mset_entry n m i j x : wf n m → 0 ≤ i < n → 0 ≤ j < n →
  ∃ m', mset m i j x = Ok m' ∧ wf n m' ∧
    ∀ a b, 0 ≤ a < n → 0 ≤ b < n →
      entry m' a b = if decide (a = i ∧ b = j) then x else entry m a b.
Proof.
  intros [Hlen Hrows] Hi Hj. unfold mset.
  destruct (lookup_lt_is_Some_2 m (Z.to_nat i)) as [row Hrow]; [lia|].
  pose proof Hrows as Hrows'. rewrite Forall_lookup in Hrows. pose proof (Hrows _ _ Hrow) as Hr.
  rewrite (proj2 (vget_Ok m i row)) by (split; [lia|done]). simpl.
  unfold vset. rewrite decide_True by lia. simpl. rewrite decide_True by lia.
  eexists. split; [done|]. split.
  - split; [by rewrite length_insert|]. apply Forall_insert; [done|]. by rewrite length_insert.
  - intros a b Ha Hb. unfold entry.
    destruct (decide (a = i)) as [->|]; [destruct (decide (b = j)) as [->|]|].
    + rewrite decide_True by done.
      rewrite list_lookup_insert_eq by lia. simpl. by rewrite list_lookup_insert_eq by lia.
    + rewrite decide_False by tauto. rewrite list_lookup_insert_eq by lia. simpl.
      rewrite list_lookup_insert_ne by lia. by rewrite Hrow.
    + rewrite decide_False by tauto. by rewrite list_lookup_insert_ne by lia.
Qed.

Lemma elem_of_cells n i j : (i, j) ∈ cells n ↔ 0 ≤ i < n ∧ 0 ≤ j < n.
Proof.
  unfold cells. rewrite list_elem_of_bind. split.
  - intros (a & Hb & Ha). apply list_elem_of_bind in Hb as (b & Hc & Hb).
    apply list_elem_of_singleton in Hc as [= -> ->].
    rewrite elem_of_seqZ in Ha, Hb. lia.
  - intros [Hi Hj]. exists i. rewrite list_elem_of_bind, elem_of_seqZ. split; [|lia].
    exists j. rewrite elem_of_seqZ. split; [set_solver|lia].
Qed.

Lemma square_entry n f i j : 0 ≤ i < n → 0 ≤ j < n → entry (square n f) i j = f i j.
Proof.
  intros Hi Hj. unfold entry, square. rewrite !list_lookup_fmap.
  rewrite (lookup_seqZ_lt 0 n (Z.to_nat i)) by lia. simpl.
  rewrite list_lookup_fmap, (lookup_seqZ_lt 0 n (Z.to_nat j)) by lia. simpl.
  by rewrite !Z2Nat.id, !Z.add_0_l by lia.
Qed.

Lemma square_wf n f : 0 ≤ n → wf n (square n f).
Proof.
  intros Hn. unfold square, wf. rewrite length_map, length_seqZ. split; [lia|].
  apply Forall_forall. intros row (i & -> & _)%list_elem_of_fmap.
  rewrite length_map, length_seqZ. lia.
Qed.

(** ** Walks *)

Section walks.
Context (n : Z) (w : Matrix).

(** [walk i j len]: a walk from [i] to [j] whose weights sum to [len]. *)
Inductive walk : Z → Z → Z → Prop :=
  | walk_nil i : 0 ≤ i < n → walk i i 0
  | walk_cons i k j len : 0 ≤ i < n → walk k j len → walk i j (entry w i k + len).

Lemma walk_range i j len : walk i j len → 0 ≤ i < n ∧ 0 ≤ j < n.
Proof. induction 1; naive_solver. Qed.

Lemma walk_app i k j a b : walk i k a → walk k j b → walk i j (a + b).
Proof.
  induction 1 as [|i m k a Hi Hw IH]; intros Hb; [by rewrite Z.add_0_l|].
  rewrite <- Z.add_assoc. constructor; [done|]. auto.
Qed.

Lemma walk_edge i j : 0 ≤ i < n → 0 ≤ j < n → walk i j (entry w i j).
Proof.
  intros. replace (entry w i j) with (entry w i j + 0) by lia.
  constructor; [done|]. by constructor.
Qed.

(** A table of distances: no shorter than a walk, no longer than a link. *)
Definition dist_ok (d : Matrix) : Prop :=
  wf n d ∧ ∀ i j, 0 ≤ i < n → 0 ≤ j < n →
    0 ≤ entry d i j ≤ entry w i j ∧ walk i j (entry d i j).

Definition triangle (d : Matrix) : Prop := ∀ i j k, 0 ≤ i < n → 0 ≤ j < n → 0 ≤ k < n →
  entry d i j ≤ entry d i k + entry d k j.

(** The distances of a closed table are the least lengths of walks. *)
Lemma triangle_shortest d i j len : dist_ok d → triangle d →
  (∀ i, 0 ≤ i < n → entry w i i = 0) → walk i j len → entry d i j ≤ len.
Proof.
  intros [_ Hd] Ht Hdiag. induction 1 as [i Hi|i k j len Hi Hw IH].
  - destruct (Hd i i Hi Hi) as [H _]. rewrite (Hdiag i Hi) in H. lia.
  - destruct (walk_range _ _ _ Hw) as [Hk Hj].
    pose proof (Ht i j k Hi Hj Hk). destruct (Hd i k Hi Hk) as [H1 _]. lia.
Qed.

(** The first link that leaves the source on a shortest walk. *)
Lemma first_hop d i j len : dist_ok d → triangle d →
  (∀ i, 0 ≤ i < n → entry w i i = 0) → walk i j len → len = entry d i j → i ≠ j →
  ∃ k, 0 ≤ k < n ∧ k ≠ i ∧ entry w i k + entry d k j = entry d i j.
Proof.
  intros Hd Ht Hdiag. induction 1 as [i Hi|i k j len Hi Hw IH]; intros Hlen Hne; [done|].
  destruct (walk_range _ _ _ Hw) as [Hk Hj].
  pose proof (triangle_shortest d k j len Hd Ht Hdiag Hw) as Hle.
  destruct Hd as [Hwf Hd]. pose proof (Ht i j k Hi Hj Hk). destruct (Hd i k Hi Hk) as [H1 _].
  destruct (decide (k = i)) as [->|]; [|exists k; split_and!; [lia..|lia]].
  rewrite (Hdiag i Hi) in *. apply IH; [lia|done].
Qed.

End walks.

(** ** The relaxation *)

Lemma sum_insert (l : list Z) i x y : l !! i = Some y →
  foldr Z.add 0 (<[i := x]> l) = foldr Z.add 0 l - y + x.
Proof.
  revert i. induction l as [|z l IH]; intros [|i] Hi; simplify_eq/=; [lia|].
  rewrite IH by done. lia.
Qed.

Lemma total_insert (m : Matrix) i row row' : m !! i = Some row →
  total (<[i := row']> m) = total m - foldr Z.add 0 row + foldr Z.add 0 row'.
Proof.
  revert i. induction m as [|r m IH]; intros [|i] Hi; simplify_eq/=; [lia|].
  fold (total m). change (foldr _ 0 (<[i := row']> m)) with (total (<[i := row']> m)).
  rewrite (IH i) by done. change (foldr _ 0 m) with (total m). lia.
Qed.

Lemma mset_total n m i j x m' : wf n m → 0 ≤ i < n → 0 ≤ j < n →
  mset m i j x = Ok m' → total m' = total m - entry m i j + x.
Proof.
  intros [Hlen Hrows] Hi Hj Hm. unfold mset in Hm.
  apply bind_Ok in Hm as (row & [_ Hrow]%vget_Ok & Hm).
  apply bind_Ok in Hm as (row' & [Hr ->]%vset_Ok & [_ ->]%vset_Ok).
  rewrite (total_insert _ _ row) by done.
  destruct (lookup_lt_is_Some_2 row (Z.to_nat j)) as [y Hy]; [lia|].
  rewrite (sum_insert _ _ _ y) by done. unfold entry. rewrite Hrow. simpl. rewrite Hy. simpl. lia.
Qed.

Section relaxation.
Context (n : Z) (w : Matrix).

Definition tables_ok (tb : tables) : Prop :=
  dist_ok n w (current_dist tb) ∧ wf n (latencies tb) ∧ wf n (inter_switches tb).

(** The minimum so far: the cell itself, or a detour that is shorter. *)
Definition via_ok (dist : Matrix) (i j : Z) (st : Z * Z * Matrix) : Prop :=
  wf n st.2 ∧
  (st.1.1 = entry dist i j ∨
   (st.1.1 < entry dist i j ∧ 0 ≤ st.1.2 < n ∧
    st.1.1 = entry dist i st.1.2 + entry dist st.1.2 j)).

(** Entries whose sums fit an [int]. *)
Definition short (m : Matrix) : Prop :=
  ∀ i j, 0 ≤ i < n → 0 ≤ j < n → 0 ≤ entry m i j < 2 ^ 30.

Lemma short_sum a b i j k l : short a → short b → 0 ≤ i < n → 0 ≤ j < n → 0 ≤ k < n → 0 ≤ l < n →
  s32 (entry a i j + entry b k l) = entry a i j + entry b k l.
Proof.
  intros Ha Hb Hi Hj Hk Hl. pose proof (Ha i j Hi Hj). pose proof (Hb k l Hk Hl).
  apply s32_id. lia.
Qed.

Lemma dist_ok_short d : short w → dist_ok n w d → short d.
Proof.
  intros Hw [_ Hd] i j Hi Hj. destruct (Hd i j Hi Hj) as [? _]. pose proof (Hw i j Hi Hj). lia.
Qed.

Lemma relax_via_step dist i j k st :
  short dist → wf n dist → 0 ≤ i < n → 0 ≤ j < n → 0 ≤ k < n → via_ok dist i j st →
  ∃ st', relax_via dist i j st k = Ok st' ∧ via_ok dist i j st' ∧
    st'.1.1 = Z.min st.1.1 (entry dist i k + entry dist k j).
Proof.
  intros Hsm Hd Hi Hj Hk [Hin Hst]. destruct st as [[m mid] inter]. simpl in *. unfold relax_via.
  rewrite (mget_entry n dist i k), (mget_entry n dist k j) by done. cbn [mbind outcome_bind].
  rewrite (short_sum dist dist i k k j) by done.
  case_decide as E.
  - eexists. split; [done|]. simpl. split; [|done]. by rewrite <- E.
  - rewrite (mget_entry n inter i k), (mget_entry n inter k j) by done. cbn [mbind outcome_bind].
    destruct (mset_entry n inter i j (s32 (entry inter i k + entry inter k j + 1)))
      as (inter' & -> & Hwf' & _); [done..|]. cbn [mbind outcome_bind].
    eexists. split; [done|]. simpl. split; [|done]. split; [done|]. right. simpl.
    destruct Hst as [|(? & ? & ?)]; (split; [lia|split; [done|lia]]).
Qed.

Lemma relax_via_spec dist i j ks st :
  short dist → wf n dist → 0 ≤ i < n → 0 ≤ j < n → (∀ k, k ∈ ks → 0 ≤ k < n) → via_ok dist i j st →
  ∃ st', mfold (relax_via dist i j) st ks = Ok st' ∧ via_ok dist i j st' ∧ st'.1.1 ≤ st.1.1 ∧
    ∀ k, k ∈ ks → st'.1.1 ≤ entry dist i k + entry dist k j.
Proof.
  intros Hsm Hd Hi Hj. revert st. induction ks as [|k ks IH]; intros st Hks Hst.
  { exists st. split_and!; [done|done..|lia|set_solver]. }
  destruct (relax_via_step dist i j k st) as (st1 & Hstep & Hst1 & Hm); [done|set_solver..|].
  destruct (IH st1) as (st2 & Hf & Hst2 & Hle & Hall); [set_solver..|].
  exists st2. cbn [mfold]. rewrite Hstep. split_and!; [done|apply Hst2..|lia|].
  intros k' [->|]%elem_of_cons; [lia|auto].
Qed.

Lemma relax_cell_spec ch tb i j : short w → tables_ok tb → 0 ≤ i < n → 0 ≤ j < n →
  ∃ ch' tb', relax_cell n (ch, tb) (i, j) = Ok (ch', tb') ∧ tables_ok tb' ∧
    ((ch' = ch ∧ current_dist tb' = current_dist tb ∧
      ∀ k, 0 ≤ k < n →
        entry (current_dist tb) i j ≤ entry (current_dist tb) i k + entry (current_dist tb) k j) ∨
     (ch' = true ∧ total (current_dist tb') < total (current_dist tb))).
Proof.
  intros Hsw (Hdok & Hlat & Hint) Hi Hj. destruct tb as [dist lat inter]. simpl in *.
  pose proof (dist_ok_short dist Hsw Hdok) as Hsd. destruct Hdok as [Hwf Hd].
  unfold relax_cell. simpl. rewrite (mget_entry n dist i j) by done. cbn [mbind outcome_bind].
  destruct (relax_via_spec dist i j (seqZ 0 n) (entry dist i j, -1, inter))
    as ([[m1 mid] inter1] & -> & [Hint1 Hres] & Hle & Hall); [done..| |split; [done|by left]|].
  { intros k. rewrite elem_of_seqZ. lia. }
  cbn [mbind outcome_bind]. simpl in Hint1, Hres, Hle, Hall. case_decide as E.
  - eexists _, _. split_and!; [done|split_and!; done|]. left. split_and!; [done|done|].
    intros k Hk. rewrite E. apply Hall, elem_of_seqZ. lia.
  - destruct Hres as [|(Hlt & Hmid & Hm)]; [lia|].
    destruct (mset_entry n dist i j m1) as (dist' & Hset & Hwf' & He); [done..|].
    pose proof (mset_total n dist i j m1 dist' Hwf Hi Hj Hset) as Htot.
    rewrite Hset. cbn [mbind outcome_bind].
    rewrite (bool_decide_eq_true_2 (0 ≤ mid)) by lia. cbn [assert_that mbind outcome_bind].
    pose proof Hlat as [Hllen Hlrows].
    destruct (lookup_lt_is_Some_2 lat (Z.to_nat i)) as [row Hrow]; [lia|].
    rewrite (proj2 (vget_Ok lat i row)) by (split; [lia|done]). cbn [mbind outcome_bind].
    assert (Z.of_nat (length row) = n) as Hr by (rewrite Forall_lookup in Hlrows; eauto).
    rewrite (bool_decide_eq_true_2 (mid < _)) by lia. cbn [assert_that mbind outcome_bind].
    rewrite (mget_entry n lat i mid), (mget_entry n lat mid j) by done. cbn [mbind outcome_bind].
    destruct (mset_entry n lat i j (s32 (entry lat i mid + entry lat mid j))) as (lat' & -> & Hwfl & _);
      [done..|]. cbn [mbind outcome_bind].
    eexists _, _. split; [done|]. split; [|right; simpl; split; [done|lia]].
    split_and!; simpl; [|done|done]. split; [done|]. intros a b Ha Hb. rewrite He by done.
    case_decide as Eab; [|by apply Hd]. destruct Eab as [-> ->].
    destruct (Hd i j Hi Hj) as [Hdij _]. destruct (Hd i mid Hi Hmid) as [Hdim Hw1].
    destruct (Hd mid j Hmid Hj) as [Hdmj Hw2]. split; [lia|]. rewrite Hm.
    by apply (walk_app n w i mid j).
Qed.

Definition closed_at (d : Matrix) (ij : Z * Z) : Prop := ∀ k, 0 ≤ k < n →
  entry d ij.1 ij.2 ≤ entry d ij.1 k + entry d k ij.2.

Lemma relax_cells_spec l ch tb : short w → tables_ok tb → (∀ ij, ij ∈ l → 0 ≤ ij.1 < n ∧ 0 ≤ ij.2 < n) →
  ∃ ch' tb', mfold (relax_cell n) (ch, tb) l = Ok (ch', tb') ∧ tables_ok tb' ∧
    ((ch' = ch ∧ current_dist tb' = current_dist tb ∧ ∀ ij, ij ∈ l → closed_at (current_dist tb) ij) ∨
     (ch' = true ∧ total (current_dist tb') < total (current_dist tb))).
Proof.
  intros Hsw. revert ch tb. induction l as [|[i j] l IH]; intros ch tb Htb Hl.
  { exists ch, tb. split_and!; [done|apply Htb..|]. left. split_and!; [done|done|set_solver]. }
  destruct (Hl (i, j) ltac:(set_solver)) as [Hi Hj]. simpl in Hi, Hj.
  destruct (relax_cell_spec ch tb i j Hsw Htb Hi Hj) as (ch1 & tb1 & Hc & Htb1 & Hres1).
  destruct (IH ch1 tb1) as (ch2 & tb2 & Hf & Htb2 & Hres2); [done|set_solver|].
  exists ch2, tb2. cbn [mfold]. rewrite Hc. split; [done|]. split; [done|].
  destruct Hres1 as [(-> & Hd1 & Hcl)|[-> Hlt]], Hres2 as [(-> & Hd2 & Hall)|[-> Hlt2]].
  - left. split_and!; [done|congruence|]. intros ij [->|Hij]%elem_of_cons; [exact Hcl|].
    rewrite <- Hd1. auto.
  - right. split; [done|]. rewrite <- Hd1. lia.
  - right. split; [done|]. rewrite Hd2. lia.
  - right. split; [done|lia].
Qed.

Lemma total_nonneg tb : tables_ok tb → 0 ≤ total (current_dist tb).
Proof.
  intros ([[Hlen Hrows] Hd] & _). set (d := current_dist tb) in *.
  assert (∀ row, row ∈ d → 0 ≤ foldr Z.add 0 row) as Hpos.
  { intros row [i Hi]%list_elem_of_lookup. rewrite Forall_lookup in Hrows.
    pose proof (Hrows _ _ Hi) as Hr. apply lookup_lt_Some in Hi as Hlt.
    assert (∀ x, x ∈ row → 0 ≤ x) as Hx.
    { intros x [j Hj]%list_elem_of_lookup. apply lookup_lt_Some in Hj as Hltj.
      destruct (Hd (Z.of_nat i) (Z.of_nat j) ltac:(lia) ltac:(lia)) as [H _]. unfold entry in H.
      rewrite !Nat2Z.id, Hi in H. simpl in H. rewrite Hj in H. simpl in H. lia. }
    clear - Hx. induction row as [|x row IH]; simpl; [lia|].
    pose proof (Hx x ltac:(set_solver)). specialize (IH ltac:(set_solver)). lia. }
  clear - Hpos. induction d as [|row d IH]; unfold total; simpl; [lia|]. fold (total d).
  pose proof (Hpos row ltac:(set_solver)). specialize (IH ltac:(set_solver)). lia.
Qed.

Lemma extend_loop_spec fuel tb : short w → tables_ok tb → total (current_dist tb) < Z.of_nat fuel →
  ∃ tb', extend_loop fuel tb = Ok tb' ∧ tables_ok tb' ∧ triangle n (current_dist tb').
Proof.
  intros Hsw. revert tb. induction fuel as [|fuel IH]; intros tb Htb Hfuel.
  { pose proof (total_nonneg tb Htb). lia. }
  cbn [extend_loop]. unfold relax_pass.
  assert (Z.of_nat (length (current_dist tb)) = n) as -> by apply Htb.
  destruct (relax_cells_spec (cells n) false tb) as (ch & tb1 & -> & Htb1 & Hres); [done|done| |].
  { intros [i j]. apply elem_of_cells. }
  cbn [mbind outcome_bind fst snd]. destruct Hres as [(-> & Hd & Hcl)|[-> Hlt]].
  - exists tb1. split; [done|]. split; [done|]. rewrite Hd. intros i j k Hi Hj Hk.
    by apply (Hcl (i, j)); [apply elem_of_cells|].
  - apply IH; [done|lia].
Qed.

Definition weights_ok : Prop :=
  wf n w ∧ short w ∧ (∀ i, 0 ≤ i < n → entry w i i = 0).

Lemma shortest_path_spec lat inter : weights_ok → wf n lat → wf n inter →
  ∃ tb, shortest_path w lat inter = Ok tb ∧ dist_ok n w (current_dist tb) ∧
    triangle n (current_dist tb).
Proof.
  intros (Hw & Hsw & _) Hl Hin.
  assert (tables_ok (mkTables w lat inter)) as Htb.
  { split_and!; [|done|done]. split; [done|]. intros i j Hi Hj. simpl.
    specialize (Hsw i j Hi Hj). split; [lia|by apply walk_edge]. }
  destruct (extend_loop_spec (S (Z.to_nat (total w))) _ Hsw Htb) as (tb & Hr & (Hd & _) & Ht).
  { simpl. pose proof (total_nonneg _ Htb). simpl in *. lia. }
  by exists tb.
Qed.

End relaxation.

(** ** Routing table entries *)

Section entries.
Context (counts : list Z) (junk : Z) (lead : Z → outcome bool) (yes : Z → bool).

(** The number of a machine among all of them. *)
Definition machine_index (m : MachineID) : Z :=
  foldr Z.add 0 (take (Z.to_nat (mach_type m)) counts) + mach_num m.

Lemma sum_take_S k n : counts !! k = Some n →
  foldr Z.add 0 (take (S k) counts) = foldr Z.add 0 (take k counts) + n.
Proof.
  intros Hk. rewrite (take_S_r _ _ _ Hk), foldr_app. simpl.
  induction (take k counts); simpl; lia.
Qed.

Lemma type_machines_spec D d k n :
  dest_repr counts D d → counts !! k = Some n →
  let base := foldr Z.add 0 (take k counts) in
  (∀ i, 0 ≤ i < n → lead (base + i) = Ok (yes (base + i))) → 0 ≤ n →
  ∃ F r, type_machines counts lead (d, base) (Z.of_nat k) = Ok (r, base + n) ∧
    dest_repr counts F r ∧
    ∀ m, m ∈ F ↔ m ∈ D ∨
      (machine_ok counts m ∧ mach_type m = Z.of_nat k ∧ yes (machine_index m) = true).
Proof.
  intros HD Hk base Hlead Hn. unfold type_machines, MachineType.base_count.
  rewrite decide_True, Nat2Z.id, Hk by lia. cbn [from_option_or mbind outcome_bind].
  set (step := λ '(result, d) i, _).
  assert (∀ len : nat, Z.of_nat len ≤ n → ∃ F r,
    mfold step (d, base) (seqZ 0 (Z.of_nat len)) = Ok (r, base + Z.of_nat len) ∧
    dest_repr counts F r ∧ ∀ m, m ∈ F ↔ m ∈ D ∨ (mach_type m = Z.of_nat k ∧
      0 ≤ mach_num m < Z.of_nat len ∧ yes (base + mach_num m) = true)) as Hloop.
  { induction len as [|len IH]; intros Hlen.
    { exists D, d. simpl. rewrite Z.add_0_r. split_and!; [done|apply HD..|]. intros m. split; [auto|]. intros [?|(? & ? & ?)]; [done|lia]. }
    destruct IH as (F & r & Hf & HF & HmF); [lia|].
    assert (∀ x, 0 ≤ x < Z.of_nat (S len) ↔ 0 ≤ x < Z.of_nat len ∨ x = Z.of_nat len) as Hlt by lia.
    rewrite seqZ_S, Z.add_0_l, mfold_app, Hf. cbn [mbind outcome_bind mfold].
    unfold step at 1. rewrite Hlead by lia. cbn [mbind outcome_bind].
    destruct (yes (base + Z.of_nat len)) eqn:Ey.
    - destruct (dest_add counts F r (mkMachineID (Z.of_nat k) (Z.of_nat len)) HF)
        as (r' & -> & HF').
      { split; simpl; [lia|]. exists n. rewrite Nat2Z.id. split; [done|lia]. }
      eexists _, r'. split; [simpl; do 2 f_equal; lia|]. split; [exact HF'|].
      intros [ty nm]. rewrite elem_of_union, elem_of_singleton, HmF, Hlt. simpl. clear - Ey.
      split; [intros [[= -> ->]|[?|(? & ? & ?)]]|intros [?|(-> & [?| ->] & ?)]]; auto 6.
    - eexists F, r. split; [simpl; do 2 f_equal; lia|]. split; [exact HF|].
      intros [ty nm]. rewrite HmF, Hlt. simpl. clear - Ey.
      split; [intros [?|(? & ? & ?)]|intros [?|(? & [?| ->] & ?)]]; auto 6. congruence. }
  destruct (Hloop (Z.to_nat n)) as (F & r & Hf & HF & HmF); [lia|]. rewrite Z2Nat.id in * by lia.
  exists F, r. split_and!; [done|apply HF..|]. intros m. rewrite HmF. unfold machine_index.
  assert (mach_type m = Z.of_nat k → (machine_ok counts m ↔ 0 ≤ mach_num m < n)) as Hok.
  { intros E. unfold machine_ok. rewrite E, Nat2Z.id, Hk.
    split; [by intros (_ & ? & [= <-] & ?)|intros; split; [lia|by exists n]]. }
  split; (intros [?|(E1 & E2 & E3)]; [by left|right]).
  - rewrite E1, Nat2Z.id. split_and!; [by apply Hok|done|done].
  - rewrite E2, Nat2Z.id in E3. split_and!; [done|by apply Hok..|done].
Qed.

Lemma all_machines_spec k D d :
  dest_repr counts D d → (k ≤ length counts)%nat → Forall (λ n, 0 ≤ n) counts →
  (∀ i, 0 ≤ i < foldr Z.add 0 counts → lead i = Ok (yes i)) →
  ∃ F r, mfold (type_machines counts lead) (d, 0) (seqZ 0 (Z.of_nat k)) =
      Ok (r, foldr Z.add 0 (take k counts)) ∧
    dest_repr counts F r ∧
    ∀ m, m ∈ F ↔ m ∈ D ∨
      (machine_ok counts m ∧ mach_type m < Z.of_nat k ∧ yes (machine_index m) = true).
Proof.
  intros HD Hk Hc Hlead. induction k as [|k IH].
  { exists D, d. split_and!; [done|apply HD..|]. intros m. split; [auto|].
    intros [?|([? _] & ? & _)]; [done|lia]. }
  destruct IH as (F & r & Hf & HF & HmF); [lia|].
  destruct (lookup_lt_is_Some_2 counts k) as [n Hn]; [lia|].
  pose proof (proj1 (Forall_lookup _ _) Hc k n Hn) as Hn0. simpl in Hn0.
  destruct (type_machines_spec F r k n HF Hn) as (F' & r' & Hf' & HF' & HmF'); [|done|].
  { intros i Hi. apply Hlead.
    assert (∀ l : list Z, Forall (λ n, 0 ≤ n) l → 0 ≤ foldr Z.add 0 l) as Hpos.
    { induction 1; simpl; lia. }
    pose proof (Hpos _ (Forall_take _ k _ Hc)). pose proof (Hpos _ (Forall_drop _ (S k) _ Hc)).
    assert (foldr Z.add 0 counts = foldr Z.add 0 (take (S k) counts) + foldr Z.add 0 (drop (S k) counts)) as E.
    { rewrite <- (take_drop (S k) counts) at 1. rewrite foldr_app.
      induction (take (S k) counts); simpl; lia. }
    rewrite (sum_take_S k n Hn) in E. lia. }
  exists F', r'. rewrite seqZ_S, Z.add_0_l, mfold_app, Hf. cbn [mbind outcome_bind mfold].
  rewrite Hf', (sum_take_S k n Hn). split_and!; [done|apply HF'..|]. intros m. rewrite HmF', HmF.
  clear. split.
  - intros [[?|(? & ? & ?)]|(? & ? & ?)]; [by left|right; split_and!; [done|lia|done]..].
  - intros [?|(? & ? & ?)]; [by auto|]. destruct (decide (mach_type m = Z.of_nat k)); [by auto|].
    left. right. split_and!; [done|lia|done].
Qed.

End entries.

(** The test of a hop, where the sums fit. *)
Lemma link_test n w d s t final : weights_ok n w → dist_ok n w d →
  0 ≤ s < n → 0 ≤ t < n → 0 ≤ final < n →
  link_is_shortest_path_to_node w d s t final
  = Ok (bool_decide (entry w s t + entry d t final = entry d s final)).
Proof.
  intros (Hw & Hsw & _) Hd Hs Ht Hf. unfold link_is_shortest_path_to_node.
  rewrite (mget_entry n w), (mget_entry n _ t), (mget_entry n _ s) by (done || apply Hd).
  cbn [mbind outcome_bind]. rewrite (short_sum n w d); [done|done|by eapply dist_ok_short|done..].
Qed.

(** Steps that lower a distance arrive, and what holds of each step below a
    bound holds on the whole way. *)
Lemma pick_arrives n final (dist : Z → Z) (pick : Z → Z) (bound : Z) (link : Z → Z → Prop) src :
  (∀ s, 0 ≤ s < n → 0 ≤ dist s) →
  (∀ s, 0 ≤ s < n → s ≠ final → 0 ≤ pick s < n ∧ dist (pick s) < dist s) →
  (∀ s, 0 ≤ s < n → s ≠ final → dist s < bound → link s (pick s)) → 0 ≤ src < n →
  ∃ k, Nat.iter k pick src = final ∧
    (dist src < bound → ∀ j, (j < k)%nat → link (Nat.iter j pick src) (Nat.iter (S j) pick src)).
Proof.
  intros Hpos Hstep Hlink Hsrc. remember (Z.to_nat (dist src)) as m eqn:Hm.
  revert src Hsrc Hm. induction (lt_wf m) as [m _ IH]. intros src Hsrc ->.
  destruct (decide (src = final)) as [->|Hne]; [exists 0%nat; split; [done|lia]|].
  destruct (Hstep src Hsrc Hne) as [Hr Hlt]. pose proof (Hpos _ Hr).
  destruct (IH (Z.to_nat (dist (pick src))) ltac:(lia) (pick src) Hr eq_refl) as (k & Hk & Hl).
  exists (S k). split; [by rewrite Nat.iter_succ_r|]. intros Hb [|j] Hj; [by apply Hlink|].
  rewrite (Nat.iter_succ_r (S j)), (Nat.iter_succ_r j). apply Hl; lia.
Qed.

(** ** Theorems *)

(** C26: [shortest_path] terminates on every table of weights from [0] to
    [2^30 - 1] with a zero diagonal, no sum of distances overflows, it never fails an assertion or leaves a matrix, and the
    distances it returns are exactly the least total weights of walks. *)
Theorem shortest_path_exact n weights lat inter :
  weights_ok n weights → wf n lat → wf n inter →
  ∃ tb, shortest_path weights lat inter = Ok tb ∧
    ∀ i j, 0 ≤ i < n → 0 ≤ j < n →
      walk n weights i j (entry (current_dist tb) i j) ∧
      ∀ len, walk n weights i j len → entry (current_dist tb) i j ≤ len.
Proof.
  intros Hw Hl Hi. destruct (shortest_path_spec n weights lat inter Hw Hl Hi) as (tb & -> & Hd & Ht).
  exists tb. split; [done|]. intros i j Hi' Hj. split; [by apply Hd|].
  intros len. by apply triangle_shortest; [..|apply Hw].
Qed.

(** C27: Hop-by-hop routing arrives.  With the distances of [shortest_path] and
    positive weights between different switches, every switch other than the
    destination has a hop that passes [link_is_shortest_path_to_node], each such
    hop is strictly closer, and whichever of them each switch picks, the
    destination is reached after finitely many hops.  If the distance is below
    [INFINITE_LATENCY], every hop on the way is over a link that was configured,
    never over one of the placeholders of that weight. *)
Theorem routes_make_progress n weights lat inter tb final :
  weights_ok n weights → wf n lat → wf n inter →
  (∀ i j, 0 ≤ i < n → 0 ≤ j < n → i ≠ j → 0 < entry weights i j) →
  shortest_path weights lat inter = Ok tb → 0 ≤ final < n →
  let dist s := entry (current_dist tb) s final in
  let hop s t := 0 ≤ t < n ∧ t ≠ s ∧
    link_is_shortest_path_to_node weights (current_dist tb) s t final = Ok true in
  (∀ s, 0 ≤ s < n → s ≠ final → ∃ t, hop s t) ∧
  (∀ s t, 0 ≤ s < n → hop s t → dist t < dist s) ∧
  ∀ pick src, (∀ s, 0 ≤ s < n → s ≠ final → hop s (pick s)) → 0 ≤ src < n →
    ∃ k, Nat.iter k pick src = final ∧
      (dist src < INFINITE_LATENCY → ∀ j, (j < k)%nat →
        0 < entry weights (Nat.iter j pick src) (Nat.iter (S j) pick src) < INFINITE_LATENCY).
Proof.
  intros Hw Hl Hi Hpos Hsp Hf dist hop.
  destruct (shortest_path_spec n weights lat inter Hw Hl Hi) as (tb' & Hsp' & Hd & Ht).
  rewrite Hsp in Hsp'. injection Hsp' as <-.
  assert (∀ s t, 0 ≤ s < n → hop s t ↔ (0 ≤ t < n ∧ t ≠ s ∧ entry weights s t + dist t = dist s)) as Hhop.
  { intros s t Hs. unfold hop. split; intros (Hr & Hne & E); (split; [done|split; [done|]]);
      rewrite (link_test n weights) in * by done; [by injection E as E%bool_decide_eq_true_1|].
    by rewrite bool_decide_eq_true_2. }
  assert (∀ s t, 0 ≤ s < n → hop s t → dist t < dist s) as Hlt.
  { intros s t Hs (Ht' & Hne & E)%Hhop; [|done]. pose proof (Hpos s t Hs Ht' ltac:(done)). lia. }
  split_and!; [|done|].
  - intros s Hs Hne. setoid_rewrite Hhop; [|done].
    destruct (first_hop n weights (current_dist tb) s final (dist s)) as (t & ? & ? & ?);
      [done|done|apply Hw|by apply Hd|done|done|by exists t].
  - intros pick src Hpick. apply (pick_arrives n final dist pick INFINITE_LATENCY
      (λ s t, 0 < entry weights s t < INFINITE_LATENCY)).
    + intros s Hs. destruct Hd as [_ Hd]. by apply Hd.
    + intros s Hs Hne. destruct (Hpick s Hs Hne) as [? ?]. split; [done|]. by apply Hlt, Hpick.
    + intros s Hs Hne Hinf. pose proof (proj1 (Hhop s _ Hs) (Hpick s Hs Hne)) as (Hr & Hns & E).
      pose proof (Hpos s _ Hs Hr ltac:(done)). destruct Hd as [_ Hd].
      assert (0 ≤ dist (pick s)) by (by apply Hd). lia.
Qed.

(** C28: The routing table entry of a link holds exactly the machines the link
    leads to: every machine for a link into the central switch, and otherwise
    those whose output endpoint has a shortest path from [src] through the
    link, the weight of the link and the distance behind it adding up (as an
    [int]) to the distance. *)
Theorem routing_entry_exact counts junk n weights dist nodes src next :
  Forall (λ c, 0 ≤ c ≤ 31) counts → wf n weights → wf n dist →
  0 ≤ src < n → 0 ≤ next < n → 2 * foldr Z.add 0 counts ≤ n →
  ∃ r D, shortest_path_to_node counts junk weights dist nodes src next = Ok r ∧
    dest_repr counts D r ∧
    ∀ m, m ∈ D ↔ machine_ok counts m ∧
      (u32 (next - 2 * nodes) = nodes ∨
       let final := machine_index counts m + foldr Z.add 0 counts in
       s32 (entry weights src next + entry dist next final) = entry dist src final).
Proof.
  intros Hc Hw Hd Hs Hn Hfit. unfold shortest_path_to_node.
  destruct (dest_create counts junk Hc) as (d0 & -> & Hd0 & _). cbn [mbind outcome_bind].
  unfold MachineType.base_number, MachineType.NUM. rewrite decide_True, Nat2Z.id, firstn_all by lia.
  cbn [mbind outcome_bind]. set (M := foldr Z.add 0 counts) in *.
  destruct (all_machines_spec counts (λ d, leads_to weights dist nodes src next (d + M))
    (λ d, bool_decide (u32 (next - 2 * nodes) = nodes ∨
       s32 (entry weights src next + entry dist next (d + M)) = entry dist src (d + M)))
    (length counts) ∅ d0 Hd0) as (F & r & -> & HF & HmF); [lia| | |].
  - eapply Forall_impl; [exact Hc|]. simpl. lia.
  - intros i Hi. unfold leads_to, link_is_shortest_path_to_node. case_decide as E.
    { by rewrite bool_decide_eq_true_2 by auto. }
    rewrite (mget_entry n weights), (mget_entry n dist next), (mget_entry n dist src)
      by (done || lia). simpl. f_equal. apply bool_decide_ext. tauto.
  - exists r, F. split; [done|]. split; [done|]. intros m. rewrite HmF, bool_decide_eq_true.
    split; [set_solver|]. intros [Hm ?]. right. split_and!; [done| |done].
    destruct Hm as (? & ? & ?%lookup_lt_Some & _). lia.
Qed.

(** ** A star: two machines, each at its router, around a central switch *)

Lemma link_weights_ok m n : 0 ≤ n →
  map_Forall (λ sd e, (0 ≤ m_weight (link e) < 2 ^ 30) ∧ sd.1 ≠ sd.2) m → weights_ok n (link_weights m n).
Proof.
  intros Hn Hm. split_and!; [by apply square_wf| |].
  - intros i j Hi Hj. unfold link_weights. rewrite square_entry by done.
    destruct (m !! (i, j)) as [e|] eqn:E; [by apply (Hm _ _ E)|]. case_decide; unfold INFINITE_LATENCY; lia.
  - intros i Hi. unfold link_weights. rewrite square_entry by done.
    destruct (m !! (i, i)) as [e|] eqn:E; [by destruct (Hm _ _ E)|]. by rewrite decide_True.
Qed.

Definition demo_counts : list Z := [1; 1].

Definition demo_topology : t :=
  let l := mkLink 1 16 1 in
  match create demo_counts 3 [mkExtLink l 0 0 0; mkExtLink l 1 0 1] [mkIntLink l 0 2; mkIntLink l 1 2] with
  | Ok top => top
  | Err _ => mk 0 0 [] [] ∅
  end.

Definition demo_weights : Matrix := link_weights (m_link_map demo_topology) 7.
Definition demo_latencies : Matrix := link_latencies (m_link_map demo_topology) 7.
Definition demo_hops : Matrix := square 7 (λ _ _, 0).

Lemma demo_weights_ok : weights_ok 7 demo_weights.
Proof.
  apply link_weights_ok; [lia|]. refine (bool_decide_unpack _ _). by vm_compute.
Qed.

Definition demo_dist : Matrix :=
  match shortest_path demo_weights demo_latencies demo_hops with
  | Ok tb => current_dist tb
  | Err _ => []
  end.

Lemma shortest_path_exact_witness :
  ∃ tb, shortest_path demo_weights demo_latencies demo_hops = Ok tb ∧
    (∀ len, walk 7 demo_weights 0 3 len → 4 ≤ len).
Proof.
  destruct (shortest_path_exact 7 demo_weights demo_latencies demo_hops demo_weights_ok)
    as (tb & Htb & H); [by apply square_wf..|].
  exists tb. split; [exact Htb|]. intros len Hw. destruct (H 0 3) as [_ Hmin]; [lia..|].
  assert (E : demo_dist = current_dist tb) by (unfold demo_dist; by rewrite Htb).
  specialize (Hmin len Hw). rewrite <- E in Hmin. by vm_compute in Hmin |- *.
Defined.

Lemma demo_positive i j : 0 ≤ i < 7 → 0 ≤ j < 7 → i ≠ j → 0 < entry demo_weights i j.
Proof.
  intros Hi Hj Hne. assert (Forall (λ ij, ij.1 ≠ ij.2 → 0 < entry demo_weights ij.1 ij.2) (cells 7)) as H.
  { refine (bool_decide_unpack _ _). by vm_compute. }
  rewrite Forall_forall in H. by apply (H (i, j)); [apply elem_of_cells|].
Qed.

(** The hops towards the second machine. *)
Definition demo_pick (s : Z) : Z := default 3 ([4; 5; 3; 3; 6; 3; 5] !! Z.to_nat s).

Lemma demo_pick_ok s : 0 ≤ s < 7 → s ≠ 3 → 0 ≤ demo_pick s < 7 ∧ demo_pick s ≠ s ∧
  link_is_shortest_path_to_node demo_weights demo_dist s (demo_pick s) 3 = Ok true.
Proof.
  intros Hs. assert (Forall (λ s, s ≠ 3 → 0 ≤ demo_pick s < 7 ∧ demo_pick s ≠ s ∧
    (if link_is_shortest_path_to_node demo_weights demo_dist s (demo_pick s) 3 is Ok b then b else false)
    = true) (seqZ 0 7)) as H.
  { refine (bool_decide_unpack _ _). by vm_compute. }
  rewrite Forall_forall in H. specialize (H s ltac:(apply elem_of_seqZ; lia)). intros Hne.
  destruct (H Hne) as (? & ? & Hl). split_and!; [lia..|done|]. by case_match; [subst|].
Qed.

(** From the first machine to the second over the central switch. *)
Lemma routes_make_progress_witness : ∃ k, Nat.iter k demo_pick 0 = 3 ∧
  ∀ j, (j < k)%nat →
    0 < entry demo_weights (Nat.iter j demo_pick 0) (Nat.iter (S j) demo_pick 0) < INFINITE_LATENCY.
Proof.
  destruct (shortest_path_spec 7 demo_weights demo_latencies demo_hops demo_weights_ok)
    as (tb & Htb & _); [by apply square_wf..|].
  destruct (routes_make_progress 7 demo_weights demo_latencies demo_hops tb 3 demo_weights_ok)
    as (_ & _ & Hall); [by apply square_wf..|exact demo_positive|exact Htb|lia|].
  assert (E : demo_dist = current_dist tb) by (unfold demo_dist; by rewrite Htb). rewrite <- E in Hall.
  destruct (Hall demo_pick 0) as (k & Hk & Hlinks); [exact demo_pick_ok|lia|].
  exists k. split; [exact Hk|]. apply Hlinks. by vm_compute.
Defined.

Lemma routing_entry_exact_witness :
  ∃ r D, shortest_path_to_node demo_counts 0 demo_weights demo_dist 2 6 5 = Ok r ∧
    dest_repr demo_counts D r ∧ mkMachineID 1 0 ∈ D ∧ mkMachineID 0 0 ∉ D.
Proof.
  destruct (routing_entry_exact demo_counts 0 7 demo_weights demo_dist 2 6 5)
    as (r & D & Hr & HD & Hm); [repeat constructor; lia|by apply square_wf|by vm_compute; repeat constructor|lia|lia|by vm_compute|].
  exists r, D. split; [exact Hr|]. split; [exact HD|]. rewrite !Hm. split.
  - split; [split; [done|exists 1; split; [done|simpl; lia]]|]. right. by vm_compute.
  - intros [_ [H|H]]; by vm_compute in H.
Defined.
