(* ===== verification/Switches.v ===== *)
(** * The switches of the simple network (network/simple/PerfectSwitch.hh,
      PerfectSwitch.cc)

    A [PerfectSwitch] takes the ready messages of its input ports, port after
    port from a rotating start, and copies each to every output link whose
    routing table entry meets the destinations of the message, provided all
    those links have room.  The random draws are functions of the event that
    asks for them. *)

From S2P Require Import Prelude Addresses NodeSets Destinations Clocks StdHeap Buffers Arbiter.
Local Open Scope Z_scope.

Module PerfectSwitch.

Definition PRIORITY_SWITCH_LIMIT : Z := 128.

Record LinkOrder := mkOrder { m_link : Z; m_value : Z }.

(** [operator<] *)
Definition less (l1 l2 : LinkOrder) : bool := bool_decide (m_value l1 < m_value l2).

Record t := mk {
  m_switch_id : Z;
  m_in : list (list (option buffer));
  m_out : list (list (option buffer));
  m_routing_table : list NetDest.t;
  m_link_order : list LinkOrder;
  m_virtual_networks : Z;
  m_round_robin_start : Z;
  m_wakeups_wo_switch : Z;
  m_pending_message_count : list Z }.

Definition with_in (sw : t) (l : list (list (option buffer))) : t :=
  mk (m_switch_id sw) l (m_out sw) (m_routing_table sw) (m_link_order sw)
     (m_virtual_networks sw) (m_round_robin_start sw) (m_wakeups_wo_switch sw)
     (m_pending_message_count sw).
Definition with_out (sw : t) (l : list (list (option buffer))) : t :=
  mk (m_switch_id sw) (m_in sw) l (m_routing_table sw) (m_link_order sw)
     (m_virtual_networks sw) (m_round_robin_start sw) (m_wakeups_wo_switch sw)
     (m_pending_message_count sw).
Definition with_order (sw : t) (l : list LinkOrder) : t :=
  mk (m_switch_id sw) (m_in sw) (m_out sw) (m_routing_table sw) l
     (m_virtual_networks sw) (m_round_robin_start sw) (m_wakeups_wo_switch sw)
     (m_pending_message_count sw).
Definition with_turns (sw : t) (start wakeups : Z) : t :=
  mk (m_switch_id sw) (m_in sw) (m_out sw) (m_routing_table sw) (m_link_order sw)
     (m_virtual_networks sw) start wakeups (m_pending_message_count sw).
Definition with_pending (sw : t) (l : list Z) : t :=
  mk (m_switch_id sw) (m_in sw) (m_out sw) (m_routing_table sw) (m_link_order sw)
     (m_virtual_networks sw) (m_round_robin_start sw) (m_wakeups_wo_switch sw) l.

(** The constructor and [init]. *)
Definition create (sid virt_nets : Z) : t := mk sid [] [] [] [] virt_nets 0 0 [].

Definition init (sw : t) : t :=
  with_pending sw (m_pending_message_count sw
                   ++ replicate (Z.to_nat (m_virtual_networks sw)) 0).

Definition addInPort (sw : t) (ins : list (option buffer)) : outcome t :=
  let port := Z.of_nat (length (m_in sw)) in
  ins ← mapi (λ i o,
          match o with
          | Some b =>
              b ← MessageBuffer.setConsumer b (ToPerfectSwitch (m_switch_id sw));
              Ok (Some (MessageBuffer.setVnet (MessageBuffer.setIncomingLink b port) i))
          | None => Ok None
          end) 0 ins;
  Ok (with_in sw (m_in sw ++ [ins])).

Definition addOutPort (sw : t) (out : list (option buffer)) (routing_table_entry : NetDest.t) : t :=
  let l := mkOrder (Z.of_nat (length (m_out sw))) 0 in
  mk (m_switch_id sw) (m_in sw) (m_out sw ++ [out]) (m_routing_table sw ++ [routing_table_entry])
     (m_link_order sw ++ [l]) (m_virtual_networks sw) (m_round_robin_start sw)
     (m_wakeups_wo_switch sw) (m_pending_message_count sw).

Definition getInLinks (sw : t) : Z := Z.of_nat (length (m_in sw)).
Definition getOutLinks (sw : t) : Z := Z.of_nat (length (m_out sw)).

(** [m_in[port][vnet]->op()] and its update. *)
Definition buffer_at (l : list (list (option buffer))) (port vnet : Z) : outcome buffer :=
  row ← vget l port; o ← vget row vnet; from_option_or NullDeref o.

Definition store_at (l : list (list (option buffer))) (port vnet : Z) (b : buffer)
    : outcome (list (list (option buffer))) :=
  row ← vget l port; row ← vset row vnet (Some b); vset l port row.

(** What a wake-up asks of others: the calls an enqueue makes on the consumer
    of an output, and [scheduleEvent(Cycles(1))]. *)
Inductive call : Type :=
  | OutSignals (outgoing vnet : Z) (s : list signal)
  | ScheduleEvent (cycles : Z).

(** [std::sort], in the form it has for at most sixteen links: insertion. *)
Fixpoint insert_order (l : LinkOrder) (os : list LinkOrder) : list LinkOrder :=
  match os with
  | [] => [l]
  | o :: os' => if less l o then l :: os else o :: insert_order l os'
  end.
Definition sort_order (os : list LinkOrder) : list LinkOrder := foldl (λ acc l, insert_order l acc) [] os.

Section operation.
Context (sys : RubySystem.t) (counts : list Z) (junk : Z).
(** [getAdaptiveRouting()] and [isVNetOrdered(vnet)] of the network. *)
Context (adaptive : bool) (ordered : Z → bool).
Context (now : Z).
(** [random_mt.random(0, 0xff)] for an output link, while the queue of an input
    port has a length; [random_time()] for an output, by its message number. *)
Context (rnd : Z → Z → Z → Z) (rt : Z → Z → Z → Z).

(** [net_msg_ptr->getInternalDestination()] through a reference that can be
    assigned: the destination is copied into the message first. *)
Definition touch (m : net_msg) : net_msg :=
  Message.set_payload m
    (NetworkMessage.setInternalDestination (Message.payload m)
       (NetworkMessage.getInternalDestination (Message.payload m))).

Definition touch_front (b : buffer) : buffer :=
  MessageBuffer.with_heap b
    (match MessageBuffer.m_prio_heap b with
     | [] => []
     | n :: q => MessageBufferNode.mk (MessageBufferNode.m_time n)
                   (MessageBufferNode.m_msg_counter n) (touch (MessageBufferNode.m_msgptr n)) :: q
     end).

(** [for (v...) out_queue_length += m_out[out][v]->getSize()] *)
Definition out_length (sw : t) (out : Z) : outcome (Z * t) :=
  mfold (λ acc v,
    b ← buffer_at (m_out acc.2) out v;
    r ← MessageBuffer.getSize now b;
    outs ← store_at (m_out acc.2) out v r.2;
    Ok (acc.1 + r.1, with_out acc.2 outs)) (0, sw) (seqZ 0 (m_virtual_networks sw)).

(** The order in which the links are looked at. *)
Definition order_links (sw : t) (incoming vnet qsize : Z) : outcome t :=
  if adaptive then
    if ordered vnet then
      order ← mfold (λ order out, vset order out (mkOrder out 0))
                (m_link_order sw) (seqZ 0 (getOutLinks sw));
      Ok (with_order sw order)
    else
      sw ← mfold (λ sw out,
             r ← out_length sw out;
             let value := Z.lor (Z.shiftl r.1 8) (rnd incoming qsize out) in
             order ← vset (m_link_order r.2) out (mkOrder out value);
             Ok (with_order r.2 order)) sw (seqZ 0 (getOutLinks sw));
      Ok (with_order sw (sort_order (m_link_order sw)))
  else Ok sw.

(** The output links of a message with the destinations each is responsible
    for.  The destinations that a link takes are not removed before the next
    link is looked at. *)
Definition route (sw : t) (msg_dsts : NetDest.t) : outcome (list (Z * NetDest.t)) :=
  mfold (λ outs i,
    l ← vget (m_link_order sw) i;
    dst ← vget (m_routing_table sw) (m_link l);
    hit ← NetDest.intersectionIsNotEmpty msg_dsts dst;
    if hit : bool then d ← NetDest.AND counts junk msg_dsts dst; Ok (outs ++ [(m_link l, d)])
    else Ok outs) [] (seqZ 0 (Z.of_nat (length (m_routing_table sw)))).

(** [enough] *)
Definition check_room (sw : t) (vnet : Z) (links : list Z) : outcome (bool * t) :=
  mfold (λ acc outgoing,
    b ← buffer_at (m_out acc.2) outgoing vnet;
    r ← MessageBuffer.areNSlotsAvailable now b 1;
    outs ← store_at (m_out acc.2) outgoing vnet r.2;
    Ok (acc.1 && r.1, with_out acc.2 outs)) (true, sw) links.

(** A message does not go back to the router it comes from, except through the
    central switch. *)
Definition skips (sw : t) (incoming outgoing : Z) : bool :=
  bool_decide (m_switch_id sw < 5) && bool_decide (incoming = outgoing).

(** One copy: [first] is the dequeued message, [unmodified] the one cloned
    before that. *)
Definition send_copy (incoming vnet : Z) (first unmodified : net_msg)
    (acc : t * list call) (i : Z) (out : Z * NetDest.t) : outcome (t * list call) :=
  let '(sw, calls) := acc in
  let msg := if decide (0 < i) then unmodified else first in
  let msg := Message.set_payload msg
               (NetworkMessage.setInternalDestination (Message.payload msg) out.2) in
  if skips sw incoming out.1 then Ok (sw, calls)
  else
    b ← buffer_at (m_out sw) out.1 vnet;
    e ← MessageBuffer.enqueue sys now (rt out.1 vnet (MessageBuffer.m_msg_counter b)) b msg 1 false;
    outs ← store_at (m_out sw) out.1 vnet e.1;
    Ok (with_out sw outs, calls ++ [OutSignals out.1 vnet e.2]).

Definition send_copies (sw : t) (incoming vnet : Z) (first unmodified : net_msg)
    (outs : list (Z * NetDest.t)) : outcome (t * list call) :=
  r ← mfold (λ acc out, a ← send_copy incoming vnet first unmodified acc.1 acc.2 out;
                        Ok (a, acc.2 + 1)) (sw, [], 0) outs;
  Ok r.1.

(** The body of [while (buffer->isReady())] for the message at the head; the
    flag is false when the loop is left. *)
Definition forward (sw : t) (incoming vnet : Z) : outcome (bool * t * list call) :=
  b ← buffer_at (m_in sw) incoming vnet;
  _ ← MessageBuffer.peekMsgPtr now b;
  let b := touch_front b in
  ins ← store_at (m_in sw) incoming vnet b;
  let sw := with_in sw ins in
  msg ← MessageBuffer.peek b;
  let msg_dsts := NetworkMessage.getInternalDestination (Message.payload msg) in
  assert_that (bool_decide (length (m_link_order sw) = length (m_routing_table sw)));;
  assert_that (bool_decide (length (m_link_order sw) = length (m_out sw)));;
  sw ← order_links sw incoming vnet (MessageBuffer.getQSize b);
  outs ← route sw msg_dsts;
  r ← check_room sw vnet outs.*1;
  let '(enough, sw) := r in
  if enough : bool then
    d ← MessageBuffer.dequeue now b;
    let '(first, _, b) := d in
    ins ← store_at (m_in sw) incoming vnet b;
    n ← vget (m_pending_message_count sw) vnet;
    pending ← vset (m_pending_message_count sw) vnet (n - 1);
    let sw := with_pending (with_in sw ins) pending in
    r ← send_copies sw incoming vnet first msg outs;
    Ok (true, r.1, r.2)
  else Ok (false, sw, [ScheduleEvent 1]).

(** [while (buffer->isReady())]; every round but the last removes a message,
    so one more round than there are messages is enough. *)
Fixpoint drain (fuel : nat) (sw : t) (incoming vnet : Z) : outcome (t * list call) :=
  match fuel with
  | O => Err OutOfFuel
  | S fuel =>
      b ← buffer_at (m_in sw) incoming vnet;
      ready ← MessageBuffer.isReady now b;
      if ready : bool then
        f ← forward sw incoming vnet;
        let '(go, sw, calls) := f in
        if go : bool then r ← drain fuel sw incoming vnet; Ok (r.1, calls ++ r.2)
        else Ok (sw, calls)
      else Ok (sw, [])
  end.

(** One input port. *)
Definition serve_port (sw : t) (incoming vnet : Z) : outcome (t * list call) :=
  row ← vget (m_in sw) incoming;
  match row !! Z.to_nat vnet with
  | None | Some None => Ok (sw, [])
  | Some (Some b) => drain (S (length (MessageBuffer.m_prio_heap b))) sw incoming vnet
  end.

(** [incoming++; if (incoming >= m_in.size()) incoming = 0;] *)
Definition next_port (sw : t) (i : Z) : Z := if decide (getInLinks sw ≤ i + 1) then 0 else i + 1.

Definition operateVnet (sw : t) (vnet : Z) : outcome (t * list call) :=
  let incoming := m_round_robin_start sw in
  let sw := with_turns sw (next_port sw incoming) (m_wakeups_wo_switch sw) in
  n ← vget (m_pending_message_count sw) vnet;
  if decide (0 < n) then
    r ← mfold (λ acc (_ : Z),
          let '(sw, calls, incoming) := acc in
          let incoming := next_port sw incoming in
          s ← serve_port sw incoming vnet;
          Ok (s.1, calls ++ s.2, incoming)) (sw, [], incoming) (seqZ 0 (getInLinks sw));
    Ok r.1
  else Ok (sw, []).

(** The virtual networks in the order a wake-up serves them. *)
Definition vnet_order (sw : t) : list Z :=
  let vnets := seqZ 0 (m_virtual_networks sw) in
  if decide (PRIORITY_SWITCH_LIMIT < m_wakeups_wo_switch sw + 1) then vnets else reverse vnets.

Definition wakeup (sw : t) : outcome (t * list call) :=
  let order := vnet_order sw in
  let wakeups := m_wakeups_wo_switch sw + 1 in
  let sw := with_turns sw (m_round_robin_start sw)
              (if decide (PRIORITY_SWITCH_LIMIT < wakeups) then 0 else wakeups) in
  mfold (λ acc vnet, r ← operateVnet acc.1 vnet; Ok (r.1, acc.2 ++ r.2)) (sw, []) order.

End operation.

Definition storeEventInfo (sw : t) (info : Z) : outcome t :=
  n ← vget (m_pending_message_count sw) info;
  l ← vset (m_pending_message_count sw) info (n + 1);
  Ok (with_pending sw l).

End PerfectSwitch.

Import PerfectSwitch.

(** ** Ports *)

Definition cell (l : list (list (option buffer))) (p v : Z) : option buffer :=
  l !! Z.to_nat p ≫= λ row, row !! Z.to_nat v ≫= id.

Definition qlen (b : buffer) : Z := Z.of_nat (length (MessageBuffer.m_prio_heap b)).

(** The messages of a virtual network over all ports. *)
Definition row_queued (v : Z) (row : list (option buffer)) : Z :=
  from_option qlen 0 (row !! Z.to_nat v ≫= id).
Definition queued (v : Z) (l : list (list (option buffer))) : Z :=
  foldr (λ row acc, row_queued v row + acc) 0 l.

Lemma buffer_at_Ok l p v b : buffer_at l p v = Ok b ↔ 0 ≤ p ∧ 0 ≤ v ∧ cell l p v = Some b.
Proof.
  unfold buffer_at, cell. split.
  - intros H. apply bind_Ok in H as (row & [Hp Hrow]%vget_Ok & H).
    apply bind_Ok in H as (o & [Hv Ho]%vget_Ok & H%from_option_or_Ok).
    rewrite Hrow. simpl. rewrite Ho. simpl. by subst o.
  - intros (Hp & Hv & H). apply bind_Some in H as (row & Hrow & H).
    apply bind_Some in H as (o & Ho & H). simpl in H. subst o.
    rewrite (proj2 (vget_Ok l p row)) by done. cbn [mbind outcome_bind].
    by rewrite (proj2 (vget_Ok row v (Some b))).
Qed.

Lemma store_at_Ok l p v b l' : store_at l p v b = Ok l' →
  0 ≤ p ∧ 0 ≤ v ∧ length l' = length l ∧
  ∀ p' v', 0 ≤ p' → 0 ≤ v' →
    cell l' p' v' = if decide (p' = p ∧ v' = v) then Some b else cell l p' v'.
Proof.
  unfold store_at. intros H. apply bind_Ok in H as (row & [Hp Hrow]%vget_Ok & H).
  apply bind_Ok in H as (row' & [Hv ->]%vset_Ok & [Hl ->]%vset_Ok).
  split_and!; [lia|lia|by rewrite length_insert|]. intros p' v' Hp' Hv'. unfold cell.
  destruct (decide (p' = p)) as [->|].
  - rewrite list_lookup_insert_eq by lia. simpl. destruct (decide (v' = v)) as [->|].
    + rewrite list_lookup_insert_eq, decide_True by (done || lia). done.
    + rewrite list_lookup_insert_ne, decide_False by (tauto || lia). by rewrite Hrow.
  - by rewrite list_lookup_insert_ne, decide_False by (tauto || lia).
Qed.

Lemma store_at_is_Ok l p v b b0 : 0 ≤ p → 0 ≤ v → cell l p v = Some b0 →
  ∃ l', store_at l p v b = Ok l'.
Proof.
  intros Hp Hv H. apply bind_Some in H as (row & Hrow & H).
  apply bind_Some in H as (o & Ho & _). unfold store_at.
  rewrite (proj2 (vget_Ok l p row)) by done. cbn [mbind outcome_bind].
  apply lookup_lt_Some in Ho, Hrow. unfold vset. rewrite !decide_True by lia.
  cbn [mbind outcome_bind]. rewrite decide_True by lia. eauto.
Qed.

Lemma queued_insert v l p row row' : l !! p = Some row →
  queued v (<[p := row']> l) = queued v l - row_queued v row + row_queued v row'.
Proof.
  revert p. induction l as [|r l IH]; intros [|p] Hp; simplify_eq/=; [lia|].
  unfold queued in *. rewrite (IH p Hp). lia.
Qed.

Lemma queued_store l p v b l' : store_at l p v b = Ok l' → ∀ w, 0 ≤ w →
  queued w l' = if decide (w = v) then queued w l - from_option qlen 0 (cell l p v) + qlen b
                else queued w l.
Proof.
  unfold store_at. intros H. apply bind_Ok in H as (row & [Hp Hrow]%vget_Ok & H).
  apply bind_Ok in H as (row' & [Hv ->]%vset_Ok & [Hl ->]%vset_Ok). intros w Hw.
  rewrite (queued_insert w l _ row) by done. unfold cell. rewrite Hrow. simpl. unfold row_queued.
  case_decide as E; [subst w|].
  - rewrite list_lookup_insert_eq by lia. simpl. lia.
  - rewrite list_lookup_insert_ne by lia. lia.
Qed.

Lemma row_queued_nonneg v row : 0 ≤ row_queued v row.
Proof. unfold row_queued, qlen. destruct (_ ≫= id); simpl; lia. Qed.

(** No message waits when the count is zero. *)
Lemma queued_zero v l p b : queued v l = 0 → 0 ≤ p → cell l p v = Some b →
  MessageBuffer.m_prio_heap b = [].
Proof.
  intros Hq Hp H. apply bind_Some in H as (row & Hrow & Hb).
  assert (∀ l, 0 ≤ queued v l) as Hnn.
  { clear. induction l as [|r l IH]; simpl; [done|]. pose proof (row_queued_nonneg v r). lia. }
  assert (∀ l k, l !! k = Some row → row_queued v row ≤ queued v l) as Hle.
  { clear - Hnn. induction l as [|r l IH]; intros [|k] Hk; simplify_eq/=.
    - specialize (Hnn l). lia.
    - specialize (IH k Hk). pose proof (row_queued_nonneg v r). lia. }
  specialize (Hle l _ Hrow). unfold row_queued in Hle. rewrite Hb in Hle. simpl in Hle.
  unfold qlen in Hle. destruct (MessageBuffer.m_prio_heap b); simpl in *; [done|lia].
Qed.

(** ** The heads of the queues *)

Lemma touch_front_ok b : buffer_ok b → buffer_ok (touch_front b).
Proof.
  intros (Hh & Hnd & H0 & Hmax). unfold touch_front, buffer_ok.
  cbn [MessageBuffer.with_heap MessageBuffer.m_prio_heap MessageBuffer.m_msg_counter].
  destruct (MessageBuffer.m_prio_heap b) as [|n q] eqn:E; [done|]. split_and!; [|done..|].
  - eapply heap_same_rank; [exact Hh|].
    constructor; [split; right; simpl; lia|]. apply Forall_Forall2_diag, Forall_forall. intros x _. split; reflexivity.
  - by apply Forall_cons in Hmax as [? ?]; constructor.
Qed.

(** What a dequeue leaves: the other messages. *)
Lemma dequeue_rest now (b : buffer) m c b' : buffer_ok b → MessageBuffer.dequeue now b = Ok (m, c, b') →
  ∃ n q, MessageBuffer.m_prio_heap b = n :: q ∧ MessageBuffer.m_prio_heap b' ≡ₚ q ∧ buffer_ok b' ∧
    Message.payload m = Message.payload (MessageBufferNode.m_msgptr n) ∧
    MessageBuffer.conf b' = MessageBuffer.conf b.
Proof.
  intros Hok Hd. destruct (dequeue_Ok _ _ _ _ _ Hd) as (n & q & r & s & E & Hr & Hs & Hle).
  destruct (dequeue_total now b n q r s Hok E Hr Hs Hle) as (m' & c' & b1 & Hd' & Hp & Hq & Hok' & Hconf & _).
  rewrite Hd in Hd'. injection Hd' as <- <- <-. exists n, q. done.
Qed.

(** What an enqueue adds. *)
Lemma enqueue_adds sys now rt (b : buffer) m delta b' sg : buffer_ok b →
  MessageBuffer.m_msg_counter b + 1 < 2 ^ 64 →
  MessageBuffer.enqueue sys now rt b m delta false = Ok (b', sg) →
  ∃ n, MessageBuffer.m_prio_heap b' ≡ₚ MessageBuffer.m_prio_heap b ++ [n] ∧
    Message.payload (MessageBufferNode.m_msgptr n) = Message.payload m ∧ buffer_ok b' ∧
    MessageBuffer.conf b' = MessageBuffer.conf b ∧
    MessageBuffer.m_msg_counter b' = MessageBuffer.m_msg_counter b + 1 ∧
    ∃ time, sg = [ScheduleEventAbsolute time;
                  StoreEventInfo (MessageBuffer.m_vnet_id (MessageBuffer.conf b))].
Proof.
  intros Hok Hc He. destruct (enqueue_Ok _ _ _ _ _ _ _ _ He) as (edge & time & last & Hpre).
  destruct (enqueue_total sys now rt b m delta edge time last Hok Hc Hpre)
    as (b1 & He' & Hperm & Hok' & Hconf & _ & Hcnt & _).
  rewrite He in He'. injection He' as <- ->. eexists. split_and!; [exact Hperm|done|apply Hok'..|done| |by eexists].
  rewrite Hcnt. unfold u64. apply uwrap_id. destruct Hok as (_ & _ & ? & _). unfold fits. lia.
Qed.

(** ** What the parts of a round leave alone *)

Definition same_inputs (sw sw' : t) : Prop :=
  m_in sw' = m_in sw ∧ m_pending_message_count sw' = m_pending_message_count sw ∧
  m_switch_id sw' = m_switch_id sw ∧ m_routing_table sw' = m_routing_table sw ∧
  m_virtual_networks sw' = m_virtual_networks sw ∧ length (m_out sw') = length (m_out sw).

#[global] Instance same_inputs_preorder : PreOrder same_inputs.
Proof.
  split; [by repeat split|]. intros a b c (?&?&?&?&?&?) (?&?&?&?&?&?). repeat split; congruence.
Qed.

Lemma store_out_same sw p v b outs : store_at (m_out sw) p v b = Ok outs →
  same_inputs sw (with_out sw outs).
Proof. intros (_ & _ & Hl & _)%store_at_Ok. repeat split. done. Qed.

Section rounds.
Context (sys : RubySystem.t) (counts : list Z) (junk : Z) (adaptive : bool) (ordered : Z → bool).
Context (now : Z) (rnd rt : Z → Z → Z → Z).

Notation order_links := (order_links adaptive ordered now rnd).
Notation forward := (forward sys counts junk adaptive ordered now rnd rt).
Notation drain := (drain sys counts junk adaptive ordered now rnd rt).
Notation serve_port := (serve_port sys counts junk adaptive ordered now rnd rt).
Notation operateVnet := (operateVnet sys counts junk adaptive ordered now rnd rt).
Notation wakeup := (wakeup sys counts junk adaptive ordered now rnd rt).
Notation route := (route counts junk).
Notation send_copies := (send_copies sys now rt).
Notation check_room := (check_room now).

Lemma out_length_same sw out n sw' : out_length now sw out = Ok (n, sw') → same_inputs sw sw'.
Proof.
  intros H. refine (mfold_inv (λ acc : Z * t, same_inputs sw acc.2) _ _ _ _ _ _ H); [|done].
  intros [x s] v [y s'] _ Hs Hv. simpl in *. apply bind_Ok in Hv as (b & _ & Hv).
  apply bind_Ok in Hv as (r & _ & Hv). apply bind_Ok in Hv as (outs & Hst & [= <- <-]).
  etrans; [exact Hs|]. by eapply store_out_same.
Qed.

Lemma order_links_same sw i v q sw' : order_links sw i v q = Ok sw' → same_inputs sw sw'.
Proof.
  unfold PerfectSwitch.order_links. intros H. destruct adaptive; [|by injection H as <-].
  destruct (ordered v).
  - apply bind_Ok in H as (o & _ & [= <-]). by repeat split.
  - apply bind_Ok in H as (s & H & [= <-]).
    assert (same_inputs sw s) as Hs; [|destruct Hs as (?&?&?&?&?&?); by repeat split].
    refine (mfold_inv (same_inputs sw) _ _ _ _ _ _ H); [|done].
    clear. intros s out s' _ Hs Hv. apply bind_Ok in Hv as ([n s1] & Hl%out_length_same & Hv).
    apply bind_Ok in Hv as (o & _ & [= <-]). etrans; [exact Hs|]. etrans; [exact Hl|]. by repeat split.
Qed.

Lemma check_room_same sw v links e sw' : check_room sw v links = Ok (e, sw') → same_inputs sw sw'.
Proof.
  intros H. refine (mfold_inv (λ acc : bool * t, same_inputs sw acc.2) _ _ _ _ _ _ H); [|done].
  intros [x s] o [y s'] _ Hs Hv. simpl in *. apply bind_Ok in Hv as (b & _ & Hv).
  apply bind_Ok in Hv as (r & _ & Hv). apply bind_Ok in Hv as (outs & Hst & [= <- <-]).
  etrans; [exact Hs|]. by eapply store_out_same.
Qed.

Lemma send_copies_same sw i v m1 m2 outs sw' calls :
  send_copies sw i v m1 m2 outs = Ok (sw', calls) → same_inputs sw sw'.
Proof.
  unfold PerfectSwitch.send_copies. intros H. apply bind_Ok in H as ([a k] & H & [= ->]).
  refine (mfold_inv (λ acc : t * list call * Z, same_inputs sw acc.1.1) _ _ _ _ _ _ H); [|done].
  intros [[s c] x] o [[s' c'] x'] _ Hs Hv. simpl in *.
  apply bind_Ok in Hv as ([s1 c1] & Hv & [= <- <- <-]).
  unfold send_copy in Hv. destruct (skips s i o.1); [by injection Hv as <- <-|].
  apply bind_Ok in Hv as (b & _ & Hv). apply bind_Ok in Hv as (e & _ & Hv).
  apply bind_Ok in Hv as (os & Hst & [= <- <-]). etrans; [exact Hs|]. by eapply store_out_same.
Qed.

(** ** The count of waiting messages *)

(** The input queues are heaps and know their virtual network. *)
Definition in_ok (sw : t) : Prop := ∀ p v b, 0 ≤ p → 0 ≤ v → cell (m_in sw) p v = Some b →
  buffer_ok b ∧ MessageBuffer.m_vnet_id (MessageBuffer.conf b) = v.

Definition counted (sw : t) : Prop := ∀ v n, 0 ≤ v →
  m_pending_message_count sw !! Z.to_nat v = Some n → n = queued v (m_in sw).

Lemma in_ok_store sw p v b ins : in_ok sw → buffer_ok b →
  MessageBuffer.m_vnet_id (MessageBuffer.conf b) = v → store_at (m_in sw) p v b = Ok ins →
  in_ok (with_in sw ins).
Proof.
  intros Hin Hb Hid (Hp & Hv & _ & Hc)%store_at_Ok p' v' b' Hp' Hv' H. simpl in H.
  rewrite Hc in H by done. case_decide as E; [injection H as <-; by destruct E as [_ ->]|exact (Hin p' v' b' Hp' Hv' H)].
Qed.

Lemma qlen_touch b : qlen (touch_front b) = qlen b.
Proof. unfold qlen, touch_front. by destruct (MessageBuffer.m_prio_heap b) eqn:E; simpl; rewrite ?E. Qed.

(** A round either keeps the queues or takes one message from its own. *)
Lemma forward_inputs sw i v go sw' calls : in_ok sw → counted sw →
  forward sw i v = Ok (go, sw', calls) →
  in_ok sw' ∧ counted sw' ∧ length (m_in sw') = length (m_in sw) ∧
  ∃ b b', cell (m_in sw) i v = Some b ∧ cell (m_in sw') i v = Some b' ∧
    qlen b' = qlen b - (if go : bool then 1 else 0).
Proof.
  intros Hin Hcnt H. unfold PerfectSwitch.forward in H.
  apply bind_Ok in H as (b & (Hi & Hv & Hb)%buffer_at_Ok & H). apply bind_Ok in H as (m0 & _ & H).
  apply bind_Ok in H as (ins & Hins & H). apply bind_Ok in H as (msg & _ & H).
  apply bind_Ok in H as ([] & _ & H). apply bind_Ok in H as ([] & _ & H).
  apply bind_Ok in H as (sw1 & Hord%order_links_same & H). apply bind_Ok in H as (outs & _ & H).
  apply bind_Ok in H as ([e sw2] & Hroom%check_room_same & H).
  assert (same_inputs (with_in sw ins) sw2) as Hs by (by etrans). clear Hord Hroom sw1.
  pose proof (Hin i v b Hi Hv Hb) as [Hbok Hid].
  assert (in_ok (with_in sw ins)) as Hin1 by (eapply in_ok_store; [done|by apply touch_front_ok|done|done]).
  pose proof (store_at_Ok _ _ _ _ _ Hins) as (_ & _ & Hlen & Hcell).
  assert (counted (with_in sw ins)) as Hcnt1.
  { intros w n Hw Hn. simpl in *. rewrite (queued_store _ _ _ _ _ Hins w Hw), (Hcnt w n Hw Hn).
    case_decide; [|done]. subst. rewrite Hb, qlen_touch. simpl. lia. }
  destruct Hs as (Hs1 & Hs2 & _). simpl in Hs1, Hs2. destruct e.
  2: { injection H as <- <- <-. unfold in_ok, counted. rewrite Hs1, Hs2. split_and!; try done.
       exists b, (touch_front b). rewrite Hcell, decide_True by done. split_and!; [done|done|].
       rewrite qlen_touch. lia. }
  apply bind_Ok in H as ([[first c] b2] & Hdeq & H). apply bind_Ok in H as (ins2 & Hins2 & H).
  apply bind_Ok in H as (n & [_ Hn]%vget_Ok & H). apply bind_Ok in H as (pending & [Hv2 ->]%vset_Ok & H).
  apply bind_Ok in H as ([sw3 c3] & Hsend%send_copies_same & [= <- <- <-]).
  destruct Hsend as (Ht1 & Ht2 & _). simpl in Ht1, Ht2. unfold in_ok, counted. rewrite Ht1, Ht2.
  destruct (dequeue_rest _ _ _ _ _ (touch_front_ok b Hbok) Hdeq) as (n0 & q & Hq & Hq' & Hok2 & _ & Hconf).
  assert (qlen b2 = qlen b - 1) as Hql.
  { rewrite <- (qlen_touch b). unfold qlen. rewrite Hq, Hq'. simpl. lia. }
  rewrite Hs1 in Hins2. pose proof (store_at_Ok _ _ _ _ _ Hins2) as (_ & _ & Hlen2 & Hcell2).
  split_and!.
  - refine (in_ok_store (with_in sw ins) _ _ _ _ Hin1 Hok2 _ Hins2). by rewrite Hconf.
  - intros w k Hw Hk. rewrite (queued_store _ _ _ _ _ Hins2 w Hw). rewrite Hs2 in Hn, Hk, Hv2.
    specialize (Hcnt1 w). simpl in Hcnt1. case_decide as E.
    + subst w. rewrite list_lookup_insert_eq in Hk by lia. injection Hk as <-.
      rewrite (Hcnt1 n Hw Hn), Hcell, decide_True by done. simpl. rewrite qlen_touch. lia.
    + rewrite list_lookup_insert_ne in Hk by lia. by apply Hcnt1.
  - by rewrite Hlen2, Hlen.
  - exists b, b2. rewrite Hcell2, decide_True by done. split_and!; [done|done|lia].
Qed.

Lemma drain_inputs fuel sw i v sw' calls : in_ok sw → counted sw →
  drain fuel sw i v = Ok (sw', calls) →
  in_ok sw' ∧ counted sw' ∧ length (m_in sw') = length (m_in sw).
Proof.
  revert sw calls. induction fuel as [|fuel IH]; intros sw calls Hin Hc H; [done|].
  cbn [PerfectSwitch.drain] in H. apply bind_Ok in H as (b & _ & H). apply bind_Ok in H as (r & _ & H).
  destruct r; [|by injection H as <- <-].
  apply bind_Ok in H as ([[go sw1] c1] & Hf & H).
  destruct (forward_inputs _ _ _ _ _ _ Hin Hc Hf) as (Hin1 & Hc1 & Hlen & _).
  destruct go; [|by injection H as <- <-]. apply bind_Ok in H as ([sw2 c2] & Hd & [= <- <-]).
  destruct (IH _ _ Hin1 Hc1 Hd) as (? & ? & ?). split_and!; [done..|congruence].
Qed.

(** What the loop does, without a bound on the rounds. *)
Inductive drains (i v : Z) : t → outcome (t * list call) → Prop :=
  | drains_idle sw b : buffer_at (m_in sw) i v = Ok b → MessageBuffer.isReady now b = Ok false →
      drains i v sw (Ok (sw, []))
  | drains_blocked sw b sw' calls : buffer_at (m_in sw) i v = Ok b →
      MessageBuffer.isReady now b = Ok true → forward sw i v = Ok (false, sw', calls) →
      drains i v sw (Ok (sw', calls))
  | drains_next sw b sw' calls r : buffer_at (m_in sw) i v = Ok b →
      MessageBuffer.isReady now b = Ok true → forward sw i v = Ok (true, sw', calls) →
      drains i v sw' r → drains i v sw (r ≫= λ r, Ok (r.1, calls ++ r.2))
  | drains_fault sw b e : buffer_at (m_in sw) i v = Ok b →
      MessageBuffer.isReady now b = Err e ∨
      (MessageBuffer.isReady now b = Ok true ∧ forward sw i v = Err e) →
      drains i v sw (Err e).

(** The rounds end before the fuel does. *)
Lemma drain_drains fuel sw i v b : in_ok sw → counted sw → 0 ≤ i → 0 ≤ v →
  cell (m_in sw) i v = Some b → qlen b < Z.of_nat fuel → drains i v sw (drain fuel sw i v).
Proof.
  revert sw b. induction fuel as [|fuel IH]; intros sw b Hin Hc Hi Hv Hb Hf; unfold qlen in *; [lia|].
  cbn [PerfectSwitch.drain]. assert (buffer_at (m_in sw) i v = Ok b) as Hat by (by apply buffer_at_Ok).
  rewrite Hat. cbn [mbind outcome_bind].
  destruct (MessageBuffer.isReady now b) as [[]|e] eqn:Hr; cbn [mbind outcome_bind];
    [|by eapply drains_idle|eapply drains_fault; eauto].
  destruct (forward sw i v) as [[[go sw1] c1]|e] eqn:Hfw; cbn [mbind outcome_bind];
    [|eapply drains_fault; eauto].
  destruct (forward_inputs _ _ _ _ _ _ Hin Hc Hfw) as (Hin1 & Hc1 & _ & b0 & b1 & Hb0 & Hb1 & Hq).
  destruct go; [|by eapply drains_blocked]. rewrite Hb in Hb0. injection Hb0 as <-. unfold qlen in Hq.
  eapply drains_next; [done..|]. apply (IH sw1 b1); [done..|lia].
Qed.

Lemma serve_port_inputs sw i v sw' calls : in_ok sw → counted sw →
  serve_port sw i v = Ok (sw', calls) →
  in_ok sw' ∧ counted sw' ∧ length (m_in sw') = length (m_in sw).
Proof.
  intros Hin Hc H. unfold PerfectSwitch.serve_port in H. apply bind_Ok in H as (row & _ & H).
  destruct (row !! Z.to_nat v) as [[b|]|]; [by eapply drain_inputs|by injection H as <- <-..].
Qed.

Lemma operateVnet_inputs sw v sw' calls : in_ok sw → counted sw →
  operateVnet sw v = Ok (sw', calls) → in_ok sw' ∧ counted sw'.
Proof.
  intros Hin Hc H. unfold PerfectSwitch.operateVnet in H. apply bind_Ok in H as (n & _ & H).
  case_decide; [|by injection H as <- <-].
  apply bind_Ok in H as ([r inc] & H & Hr). injection Hr as ->.
  refine (mfold_inv (λ acc : t * list call * Z, in_ok acc.1.1 ∧ counted acc.1.1) _ _ _ _ _ _ H);
    [|done].
  intros [[s c] j] x [[s' c'] j'] _ [Hs1 Hs2] Hv. simpl in *.
  apply bind_Ok in Hv as ([s1 c1] & Hv & [= <- <- <-]).
  by destruct (serve_port_inputs _ _ _ _ _ Hs1 Hs2 Hv) as (? & ? & _).
Qed.

Lemma wakeup_inputs sw sw' calls : in_ok sw → counted sw →
  wakeup sw = Ok (sw', calls) → in_ok sw' ∧ counted sw'.
Proof.
  intros Hin Hc H.
  refine (mfold_inv (λ acc : t * list call, in_ok acc.1 ∧ counted acc.1) _ _ _ _ _ _ H); [|done].
  intros [s c] v [s' c'] _ [Hs1 Hs2] Hv. simpl in *.
  apply bind_Ok in Hv as ([s1 c1] & Hv & [= <- <-]). by eapply operateVnet_inputs.
Qed.

End rounds.

(** ** Routing *)

Section routing.
Context (counts : list Z) (junk : Z).
Hypothesis counts_ok : Forall (λ n, 0 ≤ n ≤ 31) counts.

Implicit Types (D : gset MachineID) (Es : list (gset MachineID)).

Definition link_set Es (l : Z) : gset MachineID := default ∅ (Es !! Z.to_nat l).

(** The links are looked at in some order, each once. *)
Definition order_ok (sw : t) : Prop :=
  m_link <$> m_link_order sw ≡ₚ seqZ 0 (Z.of_nat (length (m_routing_table sw))).

Lemma order_ok_link sw l : order_ok sw → l ∈ m_link_order sw →
  0 ≤ m_link l < Z.of_nat (length (m_routing_table sw)).
Proof.
  intros Ho Hl. assert (m_link l ∈ m_link <$> m_link_order sw) as H by (by apply list_elem_of_fmap_2).
  unfold order_ok in Ho. rewrite Ho, elem_of_seqZ in H. lia.
Qed.

Lemma order_ok_length sw : order_ok sw → length (m_link_order sw) = length (m_routing_table sw).
Proof. intros Ho%Permutation_length. rewrite length_fmap, length_seqZ in Ho. lia. Qed.

Lemma route_spec sw Es D d : order_ok sw → Forall2 (dest_repr counts) Es (m_routing_table sw) →
  dest_repr counts D d →
  ∃ outs, route counts junk sw d = Ok outs ∧
    Forall2 (λ l out, out.1 = l ∧ dest_repr counts (D ∩ link_set Es l) out.2)
      (filter (λ l, D ∩ link_set Es l ≠ ∅) (m_link <$> m_link_order sw)) outs.
Proof.
  intros Ho HE HD. unfold route. rewrite <- (order_ok_length sw Ho), mfold_vget.
  set (R := λ l (out : Z * NetDest.t), _).
  assert (∀ os acc links, (∀ o, o ∈ os → o ∈ m_link_order sw) → Forall2 R links acc →
    ∃ outs, mfold (λ outs l,
        dst ← vget (m_routing_table sw) (m_link l);
        hit ← NetDest.intersectionIsNotEmpty d dst;
        if hit : bool then r ← NetDest.AND counts junk d dst; Ok (outs ++ [(m_link l, r)])
        else Ok outs) acc os = Ok outs ∧
      Forall2 R (links ++ filter (λ l, D ∩ link_set Es l ≠ ∅) (m_link <$> os)) outs) as Hgen.
  2: { by apply (Hgen (m_link_order sw) [] []). }
  induction os as [|o os IH]; intros acc links Hos Hacc.
  { exists acc. split; [done|]. by rewrite app_nil_r. }
  pose proof (order_ok_link sw o Ho ltac:(set_solver)) as Hl.
  destruct (lookup_lt_is_Some_2 (m_routing_table sw) (Z.to_nat (m_link o))) as [dst Hdst]; [lia|].
  destruct (Forall2_lookup_r _ _ _ _ _ HE Hdst) as (E & HEl & HEr).
  assert (link_set Es (m_link o) = E) as HEE by (unfold link_set; by rewrite HEl).
  cbn [mfold]. rewrite (proj2 (vget_Ok (m_routing_table sw) (m_link o) dst)) by (split; [lia|done]).
  cbn [mbind outcome_bind]. rewrite (dest_intersectionIsNotEmpty counts D E) by done.
  cbn [mbind outcome_bind]. rewrite fmap_cons, filter_cons.
  destruct (decide (D ∩ link_set Es (m_link o) ≠ ∅)) as [Hne|Hne]; rewrite HEE in Hne;
    [rewrite bool_decide_eq_true_2 by done|rewrite bool_decide_eq_false_2 by done].
  - destruct (dest_AND counts junk D E d dst counts_ok HD HEr) as (r & -> & Hr & _).
    cbn [mbind outcome_bind].
    destruct (IH (acc ++ [(m_link o, r)]) (links ++ [m_link o])) as (outs & -> & Hall); [set_solver| |].
    + apply Forall2_app; [done|]. constructor; [|constructor]. split; [done|]. simpl. by rewrite HEE.
    + exists outs. split; [done|]. by rewrite <- app_assoc in Hall.
  - apply IH; [set_solver|done].
Qed.

End routing.

(** ** The outputs *)

(** What a buffer remembers of the sizes in the current cycle. *)
Definition cycle_window (b : buffer) : Z * Z * Z * Z :=
  (MessageBuffer.m_time_last_time_enqueue b, MessageBuffer.m_time_last_time_pop b,
   MessageBuffer.m_size_at_cycle_start b, MessageBuffer.m_msgs_this_cycle b).

(** Bookkeeping on a queue does not move its messages, nor change the room
    there is. *)
Definition same_queue (b b' : buffer) : Prop :=
  MessageBuffer.m_prio_heap b' = MessageBuffer.m_prio_heap b ∧
  MessageBuffer.conf b' = MessageBuffer.conf b ∧
  MessageBuffer.m_msg_counter b' = MessageBuffer.m_msg_counter b ∧
  cycle_window b' = cycle_window b.

#[global] Instance same_queue_equiv : Equivalence same_queue.
Proof.
  split; [done|intros a b (?&?&?&?); by split_and!|].
  intros a b c (?&?&?&?) (?&?&?&?). split_and!; congruence.
Qed.

Definition same_outs (sw sw' : t) : Prop := ∀ l v, 0 ≤ l → 0 ≤ v →
  option_Forall2 same_queue (cell (m_out sw) l v) (cell (m_out sw') l v).

#[global] Instance same_outs_equiv : Equivalence same_outs.
Proof.
  split; [intros sw l v _ _; reflexivity|intros a b H l v Hl Hv; symmetry; by apply H|]. intros a b c H1 H2 l v Hl Hv.
  etrans; [by apply H1|by apply H2].
Qed.

Lemma same_outs_eq sw sw' : m_out sw' = m_out sw → same_outs sw sw'.
Proof. intros E l v _ _. rewrite E. reflexivity. Qed.

Lemma getSize_same now (b : buffer) r : MessageBuffer.getSize now b = Ok r → same_queue b r.2.
Proof.
  unfold MessageBuffer.getSize. intros H. apply bind_Ok in H as (c & _ & [= <-]). simpl.
  by case_decide.
Qed.

Lemma areNSlotsAvailable_same now (b : buffer) n r :
  MessageBuffer.areNSlotsAvailable now b n = Ok r → same_queue b r.2.
Proof.
  unfold MessageBuffer.areNSlotsAvailable. intros H. case_decide; [by injection H as <-|].
  apply bind_Ok in H as (c & _ & H). by case_decide; injection H as <-.
Qed.

Lemma store_same_outs sw p v b b' outs : buffer_at (m_out sw) p v = Ok b → same_queue b b' →
  store_at (m_out sw) p v b' = Ok outs → same_outs sw (with_out sw outs).
Proof.
  intros (_ & _ & Hb)%buffer_at_Ok Hs (_ & _ & _ & Hc)%store_at_Ok l w Hl Hw. simpl.
  rewrite Hc by done. case_decide as E; [|reflexivity]. destruct E as [-> ->]. rewrite Hb.
  by constructor.
Qed.

Lemma insert_order_perm l os : insert_order l os ≡ₚ l :: os.
Proof.
  induction os as [|o os IH]; simpl; [done|]. destruct (less l o); [done|].
  rewrite IH. apply Permutation_swap.
Qed.

Lemma sort_order_perm os : sort_order os ≡ₚ os.
Proof.
  unfold sort_order. assert (∀ acc, foldl (λ acc l, insert_order l acc) acc os ≡ₚ acc ++ os) as H.
  { induction os as [|o os IH]; intros acc; simpl; [by rewrite app_nil_r|].
    rewrite IH, insert_order_perm. apply Permutation_middle. }
  by rewrite H.
Qed.

(** Writing [m_link = out] for every [out] gives the identity order. *)
Definition identity_upto (k : nat) (order : list LinkOrder) : Prop :=
  ∀ j o, (j < k)%nat → order !! j = Some o → m_link o = Z.of_nat j.

Lemma identity_upto_step k order order' value :
  identity_upto k order → vset order (Z.of_nat k) (mkOrder (Z.of_nat k) value) = Ok order' →
  identity_upto (S k) order' ∧ length order' = length order.
Proof.
  intros Hid [_ ->]%vset_Ok. rewrite Nat2Z.id. split; [|by rewrite length_insert].
  intros j o Hj Ho. apply list_lookup_insert_Some in Ho as [(<- & <- & _)|[? Ho]]; [done|].
  apply Hid; [lia|done].
Qed.

Lemma identity_order order n : identity_upto n order → length order = n →
  m_link <$> order = seqZ 0 (Z.of_nat n).
Proof.
  intros Hid Hlen. apply list_eq. intros j. rewrite list_lookup_fmap.
  destruct (decide (j < n)%nat) as [Hj|Hj].
  - destruct (lookup_lt_is_Some_2 order j) as [o Ho]; [lia|]. rewrite Ho, lookup_seqZ_lt by lia.
    simpl. f_equal. rewrite (Hid j o Hj Ho). lia.
  - rewrite lookup_ge_None_2, lookup_seqZ_ge by lia. done.
Qed.

Section deliveries.
Context (adaptive : bool) (ordered : Z → bool) (now : Z) (rnd : Z → Z → Z → Z).

Lemma out_length_outs sw out n sw' : out_length now sw out = Ok (n, sw') →
  same_outs sw sw' ∧ m_link_order sw' = m_link_order sw.
Proof.
  intros H. refine (mfold_inv (λ acc : Z * t, same_outs sw acc.2 ∧ m_link_order acc.2 = m_link_order sw)
    _ _ _ _ _ _ H); [|split; [|done]; by apply same_outs_eq].
  intros [x s] v [y s'] _ [Hs Ho] Hv. simpl in *. apply bind_Ok in Hv as (b & Hb & Hv).
  apply bind_Ok in Hv as (r & Hr%getSize_same & Hv). apply bind_Ok in Hv as (outs & Hst & [= <- <-]).
  split; [|done]. etrans; [exact Hs|]. by eapply store_same_outs.
Qed.

Lemma order_links_outs sw i v q sw' : order_ok sw → length (m_link_order sw) = length (m_out sw) →
  order_links adaptive ordered now rnd sw i v q = Ok sw' →
  same_outs sw sw' ∧ order_ok sw'.
Proof.
  intros Ho Hlen H. pose proof (order_links_same _ _ _ _ _ _ _ _ _ H) as (_ & _ & _ & Ht & _).
  pose proof (order_ok_length _ Ho) as Hlt. unfold order_links, getOutLinks in H.
  destruct adaptive; [|injection H as <-; split; [by apply same_outs_eq|done]].
  unfold order_ok. rewrite Ht, <- Hlt. destruct (ordered v).
  - apply bind_Ok in H as (o & H & [= <-]). split; [by apply same_outs_eq|]. simpl.
    apply (mfold_seqZ (λ k o, identity_upto k o ∧ length o = length (m_link_order sw))) in H as [Hid Hl].
    + by rewrite (identity_order o (length (m_out sw)) Hid), <- Hlen by congruence.
    + intros k t t' _ [Hid Hl] Hs. destruct (identity_upto_step _ _ _ _ Hid Hs). by split; [|congruence].
    + split; [|done]. intros j o' Hj. lia.
  - apply bind_Ok in H as (s & H & [= <-]).
    apply (mfold_seqZ (λ k s, same_outs sw s ∧ identity_upto k (m_link_order s) ∧
      length (m_link_order s) = length (m_link_order sw))) in H as (Hs & Hid & Hl).
    + split; [exact Hs|]. simpl. rewrite (fmap_Permutation _ _ _ (sort_order_perm _)).
      by rewrite (identity_order _ (length (m_out sw)) Hid), <- Hlen by congruence.
    + intros k t t' _ (Hs & Hid & Hl) Hv. apply bind_Ok in Hv as ([n s1] & [Hs1 Ho1]%out_length_outs & Hv).
      apply bind_Ok in Hv as (o & Hset & [= <-]). simpl in *. rewrite Ho1 in Hset.
      destruct (identity_upto_step _ _ _ _ Hid Hset) as [Hid' Hl'].
      split; [etrans; [exact Hs|exact Hs1]|split; [done|congruence]].
    + split_and!; [by apply same_outs_eq| |done]. intros j o' Hj. lia.
Qed.

Lemma check_room_outs sw v links e sw' : check_room now sw v links = Ok (e, sw') →
  same_outs sw sw' ∧ m_link_order sw' = m_link_order sw.
Proof.
  intros H. refine (mfold_inv (λ acc : bool * t, same_outs sw acc.2 ∧ m_link_order acc.2 = m_link_order sw)
    _ _ _ _ _ _ H); [|split; [|done]; by apply same_outs_eq].
  intros [x s] l [y s'] _ [Hs Ho] Hv. simpl in *. apply bind_Ok in Hv as (b & Hb & Hv).
  apply bind_Ok in Hv as (r & Hr%areNSlotsAvailable_same & Hv).
  apply bind_Ok in Hv as (outs & Hst & [= <- <-]). split; [|done].
  etrans; [exact Hs|]. by eapply store_same_outs.
Qed.

End deliveries.

Section room.
Context (now : Z).

(** The buffer of an output has room for one more message. *)
Definition has_room (sw : t) (l v : Z) : Prop := ∃ b b',
  cell (m_out sw) l v = Some b ∧ MessageBuffer.areNSlotsAvailable now b 1 = Ok (true, b').

Lemma same_queue_room (b1 b2 c1 : buffer) r : same_queue b1 b2 →
  MessageBuffer.areNSlotsAvailable now b1 1 = Ok (r, c1) →
  ∃ c2, MessageBuffer.areNSlotsAvailable now b2 1 = Ok (r, c2).
Proof.
  intros (Hh & Hc & _ & Hw). unfold cycle_window in Hw. injection Hw as E1 E2 E3 E4.
  unfold MessageBuffer.areNSlotsAvailable, MessageBuffer.sender, MessageBuffer.heap_size.
  rewrite Hh, Hc, E1, E2, E3, E4. case_decide; [intros [= <- _]; by eexists|].
  intros (s & Hs & Hgo)%bind_Ok. rewrite Hs. cbn [mbind outcome_bind].
  destruct (decide (u32 _ ≤ _)) in Hgo |- *; injection Hgo as <- _; by eexists.
Qed.

Lemma same_outs_room sw sw' l v : same_outs sw sw' → 0 ≤ l → 0 ≤ v →
  has_room sw' l v → has_room sw l v.
Proof.
  intros Hs Hl Hv (b' & c' & Hb' & Hr). specialize (Hs l v Hl Hv). rewrite Hb' in Hs.
  inversion Hs as [b x Hq Hb|]; subst. unfold has_room. rewrite <- Hb.
  destruct (same_queue_room b' b c' true) as [c Hc]; [by symmetry|done|by eauto].
Qed.

(** The links are all asked, and the answer is yes when all have room. *)
Lemma check_room_spec sw sw1 v links e sw' : same_outs sw sw1 →
  check_room now sw1 v links = Ok (e, sw') → e = true ↔ Forall (λ l, has_room sw l v) links.
Proof.
  unfold check_room. set (step := λ acc outgoing, _).
  assert (∀ acc, mfold step acc links = Ok (e, sw') → same_outs sw acc.2 →
    e = true ↔ acc.1 = true ∧ Forall (λ l, has_room sw l v) links) as Hgen.
  2: { intros Hs1 H. rewrite (Hgen _ H Hs1). simpl. tauto. }
  induction links as [|l links IH]; intros [x s] H H1; cbn [mfold] in H.
  { injection H as <- <-. simpl. split; [intros ->; by split; [|constructor]|tauto]. }
  apply bind_Ok in H as ([y s'] & Hstep & H). unfold step in Hstep. simpl in *.
  apply bind_Ok in Hstep as (b & Hb & Hstep). apply bind_Ok in Hstep as ([r c] & Hr & Hstep).
  apply bind_Ok in Hstep as (outs & Hst & [= <- <-]). simpl in *.
  pose proof (areNSlotsAvailable_same _ _ _ _ Hr) as Hq. simpl in Hq.
  pose proof (store_same_outs _ _ _ _ _ _ Hb Hq Hst) as Hs.
  assert (has_room sw l v ↔ r = true) as Hl.
  { apply buffer_at_Ok in Hb as (Hl0 & Hv0 & Hb). split.
    - intros Hroom. apply (same_outs_room s sw) in Hroom as (b0 & c0 & Hb0 & Hr0); [|by symmetry|done..].
      rewrite Hb in Hb0. injection Hb0 as <-. congruence.
    - intros ->. apply (same_outs_room sw s); [done..|]. by exists b, c. }
  rewrite (IH _ H), Forall_cons, Hl.
  - simpl. rewrite andb_true_iff. tauto.
  - by etrans.
Qed.

End room.

Section copying.
Context (sys : RubySystem.t) (now : Z) (rt : Z → Z → Z → Z).

(** The payloads queued at an output. *)
Definition out_payloads (sw : t) (l v : Z) : list NetworkMessage.t :=
  from_option (λ b, payloads (MessageBuffer.m_prio_heap b)) [] (cell (m_out sw) l v).

(** The outputs are heaps that can number [k] more messages. *)
Definition out_ok (k : nat) (sw : t) : Prop := ∀ l v b, 0 ≤ l → 0 ≤ v →
  cell (m_out sw) l v = Some b →
  buffer_ok b ∧ MessageBuffer.m_msg_counter b + Z.of_nat k < 2 ^ 64.

Lemma same_outs_payloads sw sw' l v : same_outs sw sw' → 0 ≤ l → 0 ≤ v →
  out_payloads sw' l v = out_payloads sw l v.
Proof.
  intros Hs Hl Hv. unfold out_payloads. destruct (Hs l v Hl Hv) as [b b' (E & _)|]; simpl; by rewrite ?E.
Qed.

Lemma same_outs_ok k sw sw' : same_outs sw sw' → out_ok k sw → out_ok k sw'.
Proof.
  intros Hs Hok l v b' Hl Hv Hb'. specialize (Hs l v Hl Hv). rewrite Hb' in Hs.
  inversion Hs as [b x (Hh & _ & Hc & _) Hb|]; subst. destruct (Hok l v b Hl Hv) as [Hb1 Hb2]; [done|].
  unfold buffer_ok in *. by rewrite Hh, Hc.
Qed.

(** The copies of a message for a link. *)
Definition copies (sw : t) (incoming : Z) (p : NetworkMessage.t) (outs : list (Z * NetDest.t)) (l : Z)
    : list NetworkMessage.t :=
  (λ out, NetworkMessage.setInternalDestination p out.2) <$>
    filter (λ out, out.1 = l ∧ skips sw incoming l = false) outs.

Lemma send_copy_outs sw i v first unmodified calls k out sw' calls' n :
  Message.payload first = Message.payload unmodified → out_ok (S n) sw →
  send_copy sys now rt i v first unmodified (sw, calls) k out = Ok (sw', calls') →
  out_ok n sw' ∧ m_switch_id sw' = m_switch_id sw ∧
  ∀ l w, 0 ≤ l → 0 ≤ w → out_payloads sw' l w ≡ₚ out_payloads sw l w ++
    (if decide (w = v) then copies sw i (Message.payload first) [out] l else []).
Proof.
  intros Hp Hok H. unfold send_copy in H. destruct (skips sw i out.1) eqn:Hskip.
  { injection H as <- <-. split_and!; [|done|].
    - intros l w b Hl Hw Hb. destruct (Hok l w b Hl Hw Hb). split; [done|lia].
    - intros l w _ _. case_decide; [|by rewrite app_nil_r]. unfold copies. rewrite filter_cons.
      rewrite decide_False by (intros [<- ?]; congruence). by rewrite app_nil_r. }
  apply bind_Ok in H as (b & (Ho & Hv & Hb)%buffer_at_Ok & H).
  apply bind_Ok in H as ([b' sg] & He & H). apply bind_Ok in H as (outs & Hst & [= <- <-]).
  destruct (Hok _ _ _ Ho Hv Hb) as [Hbok Hcnt].
  destruct (enqueue_adds _ _ _ _ _ _ _ _ Hbok ltac:(lia) He)
    as (node & Hperm & Hpay & Hok' & _ & Hc' & _).
  destruct (store_at_Ok _ _ _ _ _ Hst) as (_ & _ & _ & Hcell). split_and!; [|done|].
  - intros l w x Hl Hw Hx. simpl in Hx. rewrite Hcell in Hx by done. case_decide.
    + injection Hx as <-. split; [done|]. rewrite Hc'. lia.
    + destruct (Hok l w x Hl Hw Hx). split; [done|lia].
  - intros l w Hl Hw. unfold out_payloads. simpl. rewrite Hcell by done.
    destruct (decide (l = out.1 ∧ w = v)) as [[-> ->]|E].
    + rewrite Hb, decide_True by done.
      assert (copies sw i (Message.payload first) [out] out.1
        = [NetworkMessage.setInternalDestination (Message.payload first) out.2]) as ->.
      { unfold copies. by rewrite filter_cons, decide_True. }
      simpl. unfold payloads. rewrite Hperm, fmap_app. simpl. rewrite Hpay. simpl.
      by case_decide; rewrite ?Hp.
    + destruct (decide (w = v)); [|by rewrite app_nil_r]. unfold copies.
      rewrite filter_cons, decide_False by (intros [<- ?]; tauto). by rewrite app_nil_r.
Qed.

Lemma send_copies_outs sw i v first unmodified outs sw' calls :
  Message.payload first = Message.payload unmodified → out_ok (length outs) sw →
  send_copies sys now rt sw i v first unmodified outs = Ok (sw', calls) →
  ∀ l w, 0 ≤ l → 0 ≤ w → out_payloads sw' l w ≡ₚ out_payloads sw l w ++
    (if decide (w = v) then copies sw i (Message.payload first) outs l else []).
Proof.
  intros Hp Hok H. unfold send_copies in H. apply bind_Ok in H as ([r k] & H & Hr).
  injection Hr as ->. set (step := λ acc out, _) in H. intros l w Hl Hw.
  revert H Hok. generalize (@nil call) as c0. generalize 0 at 1 as k0. revert sw.
  induction outs as [|out outs IH]; intros sw k0 c0 H Hok; cbn [mfold] in H.
  { injection H as <- <- <-. unfold copies. case_decide; by rewrite app_nil_r. }
  apply bind_Ok in H as ([[sw1 c1] k1] & H1 & H). apply bind_Ok in H1 as ([s2 c2] & H1 & [= <- <- <-]).
  destruct (send_copy_outs _ _ _ _ _ _ _ _ _ _ _ Hp Hok H1) as (Hok1 & Hid & Hpay1).
  rewrite (IH s2 (k0 + 1) c2 H Hok1), (Hpay1 l w Hl Hw), <- app_assoc. f_equiv.
  case_decide; [|done]. unfold copies, skips. rewrite Hid, <- fmap_app, <- filter_app. done.
Qed.

End copying.

Lemma Forall2_links (R : Z → NetDest.t → Prop) ls (outs : list (Z * NetDest.t)) :
  Forall2 (λ l out, out.1 = l ∧ R l out.2) ls outs → outs.*1 = ls.
Proof. induction 1 as [|l [o d] ls outs [? _] _ IH]; csimpl in *; congruence. Qed.

Lemma copies_spec (R : Z → NetDest.t → Prop) sw i p ls outs l : NoDup ls →
  Forall2 (λ l out, out.1 = l ∧ R l out.2) ls outs →
  if decide (l ∈ ls ∧ skips sw i l = false)
  then ∃ d, copies sw i p outs l = [NetworkMessage.setInternalDestination p d] ∧ R l d
  else copies sw i p outs l = [].
Proof.
  intros Hnd HF. induction HF as [|a [o d] ls outs [Ho HR] HF IH].
  { by rewrite decide_False by set_solver. }
  apply NoDup_cons in Hnd as [Ha Hnd]. specialize (IH Hnd). simpl in Ho, HR. subst o. unfold copies in *.
  rewrite filter_cons. destruct (decide (a = l)) as [->|Hne].
  - rewrite (decide_False (P := l ∈ ls ∧ _)) in IH by tauto.
    destruct (skips sw i l) eqn:E.
    + rewrite !decide_False by (intros [? ?]; done). done.
    + rewrite !decide_True by (split; [set_solver|done]). exists d. split; [|done]. by rewrite fmap_cons, IH.
  - rewrite (decide_False (P := (a, d).1 = l ∧ _)) by (intros [? _]; done).
    destruct (decide (l ∈ ls ∧ skips sw i l = false)) as [E|E].
    + by rewrite decide_True by set_solver.
    + by rewrite decide_False by set_solver.
Qed.

(** The parts of a round. *)
Lemma forward_parts sys counts junk adaptive ordered now rnd rt sw i v b n q go sw' calls :
  order_ok sw → in_ok sw → 0 ≤ i → 0 ≤ v →
  cell (m_in sw) i v = Some b → MessageBuffer.m_prio_heap b = n :: q →
  forward sys counts junk adaptive ordered now rnd rt sw i v = Ok (go, sw', calls) →
  let p := Message.payload (MessageBufferNode.m_msgptr n) in
  ∃ sw1 sw2 outs, order_ok sw1 ∧ m_routing_table sw1 = m_routing_table sw ∧
    route counts junk sw1 (NetworkMessage.getInternalDestination p) = Ok outs ∧ same_outs sw sw2 ∧
    (go = true ↔ Forall (λ l, has_room now sw l v) outs.*1) ∧
    m_switch_id sw2 = m_switch_id sw ∧
    if go : bool then
      ∃ first unmodified b', send_copies sys now rt sw2 i v first unmodified outs = Ok (sw', calls) ∧
        Message.payload first = Message.payload unmodified ∧
        Message.payload first = Message.payload (touch (MessageBufferNode.m_msgptr n)) ∧
        cell (m_in sw') i v = Some b' ∧ MessageBuffer.m_prio_heap b' ≡ₚ q
    else sw' = sw2 ∧ calls = [ScheduleEvent 1] ∧ cell (m_in sw') i v = Some (touch_front b).
Proof.
  intros Ho Hin Hi Hv Hb Hq H p. unfold forward in H.
  rewrite (proj2 (buffer_at_Ok (m_in sw) i v b)) in H by done. cbn [mbind outcome_bind] in H.
  apply bind_Ok in H as (m0 & _ & H). apply bind_Ok in H as (ins & Hins & H).
  apply bind_Ok in H as (msg & Hmsg & H). apply bind_Ok in H as ([] & _ & H).
  apply bind_Ok in H as ([] & Hlen%assert_that_Ok%bool_decide_eq_true & H). simpl in Hlen.
  apply bind_Ok in H as (sw1 & Hord & H). apply bind_Ok in H as (outs & Hroute & H).
  apply bind_Ok in H as ([e sw2] & Hroom & H).
  assert (msg = touch (MessageBufferNode.m_msgptr n)) as ->.
  { unfold MessageBuffer.peek, MessageBuffer.front, touch_front in Hmsg. simpl in Hmsg.
    rewrite Hq in Hmsg. simpl in Hmsg. by injection Hmsg as <-. }
  pose proof (order_links_same _ _ _ _ _ _ _ _ _ Hord) as (Hs1 & _ & Hs3 & Hs4 & _).
  destruct (order_links_outs adaptive ordered now rnd (with_in sw ins) i v _ _ Ho Hlen Hord) as [Ho1 Hok1].
  pose proof (check_room_same _ _ _ _ _ _ Hroom) as (Hr1 & _ & Hr3 & _).
  destruct (check_room_outs _ _ _ _ _ _ Hroom) as [Hr4 _].
  exists sw1. simpl in Hs1, Hs3, Hs4. destruct (store_at_Ok _ _ _ _ _ Hins) as (_ & _ & _ & Hcell).
  assert (same_outs sw sw2) as Hsame.
  { etrans; [|exact Hr4]. etrans; [|exact Ho1]. by apply same_outs_eq. }
  assert (e = true ↔ Forall (λ l, has_room now sw l v) outs.*1) as Hyes.
  { refine (check_room_spec _ _ _ _ _ _ _ _ Hroom). etrans; [|exact Ho1]. by apply same_outs_eq. }
  destruct e.
  2: { injection H as <- <- <-. exists sw2, outs.
       split_and!; [done|done|done|done|exact Hyes|congruence|done|done|].
       by rewrite Hr1, Hs1, Hcell, decide_True. }
  apply bind_Ok in H as ([[first c] b2] & Hdeq & H). apply bind_Ok in H as (ins2 & Hins2 & H).
  apply bind_Ok in H as (k & _ & H). apply bind_Ok in H as (pending & _ & H).
  apply bind_Ok in H as ([sw3 c3] & Hsend & [= <- <- <-]).
  destruct (Hin i v b Hi Hv Hb) as [Hbok _].
  destruct (dequeue_rest _ _ _ _ _ (touch_front_ok b Hbok) Hdeq) as (n0 & q0 & Hq0 & Hq' & _ & Hpay & _).
  unfold touch_front in Hq0. simpl in Hq0. rewrite Hq in Hq0. injection Hq0 as <- <-. simpl in Hpay.
  destruct (send_copies_same _ _ _ _ _ _ _ _ _ _ _ Hsend) as (Hin3 & _). simpl in Hin3.
  destruct (store_at_Ok _ _ _ _ _ Hins2) as (_ & _ & _ & Hc2).
  exists (with_pending (with_in sw2 ins2) pending), outs.
  split_and!; [done|done|done| |exact Hyes|..|exists first, (touch (MessageBufferNode.m_msgptr n)), b2];
    [|simpl; congruence|].
  - etrans; [exact Hsame|]. by apply same_outs_eq.
  - split_and!; [exact Hsend|done|done| |done]. by rewrite Hin3, Hc2, decide_True.
Qed.

(** ** Theorems *)


(** ** The life of a switch *)

(** A message arrives in an input queue, and the queue calls its consumer, the
    switch. *)
Definition notify (sw : t) (s : signal) : outcome t :=
  match s with
  | StoreEventInfo info => storeEventInfo sw info
  | ScheduleEventAbsolute _ => Ok sw
  end.

Definition arrive (sys : RubySystem.t) (now rt : Z) (sw : t) (p v : Z) (m : net_msg) (delta : Z)
    : outcome t :=
  b ← buffer_at (m_in sw) p v;
  e ← MessageBuffer.enqueue sys now rt b m delta false;
  ins ← store_at (m_in sw) p v e.1;
  mfold notify (with_in sw ins) e.2.

Definition fresh (o : option buffer) : Prop :=
  match o with Some b => buffer_ok b ∧ MessageBuffer.m_prio_heap b = [] | None => True end.

Inductive switch_step (sys : RubySystem.t) (counts : list Z) (junk : Z) (adaptive : bool)
    (ordered : Z → bool) : t → t → Prop :=
  | step_in_port sw ins sw' : Forall fresh ins → addInPort sw ins = Ok sw' →
      switch_step sys counts junk adaptive ordered sw sw'
  | step_out_port sw out e :
      switch_step sys counts junk adaptive ordered sw (addOutPort sw out e)
  | step_arrive now rt sw p v m delta sw' :
      (∀ b, cell (m_in sw) p v = Some b → MessageBuffer.m_msg_counter b + 1 < 2 ^ 64) →
      arrive sys now rt sw p v m delta = Ok sw' →
      switch_step sys counts junk adaptive ordered sw sw'
  | step_wakeup now rnd rt sw sw' calls :
      wakeup sys counts junk adaptive ordered now rnd rt sw = Ok (sw', calls) →
      switch_step sys counts junk adaptive ordered sw sw'.

Lemma queued_app v l row : queued v (l ++ [row]) = queued v l + row_queued v row.
Proof. induction l as [|r l IH]; simpl in *; [lia|]. unfold queued in *. simpl in *. lia. Qed.

Lemma addInPort_inputs sw ins sw' : Forall fresh ins → in_ok sw → counted sw →
  addInPort sw ins = Ok sw' → in_ok sw' ∧ counted sw'.
Proof.
  intros Hf Hin Hc H. unfold addInPort in H. apply bind_Ok in H as (row & Hrow & [= <-]).
  assert (∀ v b, row !! v = Some (Some b) → buffer_ok b ∧
    MessageBuffer.m_vnet_id (MessageBuffer.conf b) = Z.of_nat v ∧ MessageBuffer.m_prio_heap b = []) as Hb.
  { intros v b Hv. destruct (mapi_Ok _ _ _ _ _ _ Hrow Hv) as ([b0|] & Hb0 & Hset); [|done].
    apply bind_Ok in Hset as (b1 & Hb1 & [= <-]).
    destruct (proj1 (Forall_lookup _ _) Hf _ _ Hb0) as [Hok Hq].
    unfold MessageBuffer.setConsumer in Hb1.
    destruct (MessageBuffer.m_consumer _); [done|]. injection Hb1 as <-. by split_and!. }
  split.
  - intros p v b Hp Hv H. unfold cell in H. simpl in H. apply bind_Some in H as (r & Hr & Hb').
    apply lookup_app_Some in Hr as [Hr|[Hlen Hr]].
    + apply (Hin p v b Hp Hv). unfold cell. by rewrite Hr.
    + apply list_lookup_singleton_Some in Hr as [_ <-]. apply bind_Some in Hb' as (o & Ho & Hid). simpl in Hid. subst o.
      destruct (Hb _ _ Ho) as (? & ? & _). split; [done|lia].
  - intros v n Hv Hn. simpl in *. rewrite queued_app, (Hc v n Hv Hn).
    unfold row_queued. destruct (row !! Z.to_nat v) as [[b|]|] eqn:E; simpl; [|lia..].
    destruct (Hb _ _ E) as (_ & _ & Hq). unfold qlen. rewrite Hq. simpl. lia.
Qed.

Lemma arrive_inputs sys now rt sw p v m delta sw' : in_ok sw → counted sw →
  (∀ b, cell (m_in sw) p v = Some b → MessageBuffer.m_msg_counter b + 1 < 2 ^ 64) →
  arrive sys now rt sw p v m delta = Ok sw' → in_ok sw' ∧ counted sw'.
Proof.
  intros Hin Hc Hcnt H. unfold arrive in H.
  apply bind_Ok in H as (b & (Hp & Hv & Hb)%buffer_at_Ok & H).
  apply bind_Ok in H as ([b' sg] & He & H). apply bind_Ok in H as (ins & Hins & H).
  destruct (Hin p v b Hp Hv Hb) as [Hbok Hid].
  destruct (enqueue_adds _ _ _ _ _ _ _ _ Hbok (Hcnt b Hb) He)
    as (n & Hperm & _ & Hok' & Hconf & _ & time & ->).
  cbn [fst snd mfold notify mbind outcome_bind] in H. apply bind_Ok in H as (sw1 & H & [= <-]).
  unfold storeEventInfo in H. apply bind_Ok in H as (k & [_ Hk]%vget_Ok & H).
  apply bind_Ok in H as (l & [Hlt ->]%vset_Ok & [= <-]). rewrite Hid in *. simpl in Hins, Hk, Hlt. split.
  - apply (in_ok_store sw p v b' ins Hin Hok'); [by rewrite Hconf|done].
  - intros w x Hw Hx. simpl in *. rewrite (queued_store _ _ _ _ _ Hins w Hw). case_decide as E.
    + subst w. rewrite list_lookup_insert_eq in Hx by lia. injection Hx as <-.
      rewrite (Hc v k Hv Hk), Hb. simpl. unfold qlen. rewrite Hperm, length_app. simpl. lia.
    + rewrite list_lookup_insert_ne in Hx by lia. by apply Hc.
Qed.

(** C25: the count of pending messages is exact in every state a switch can
    reach through added ports, arriving messages and wake-ups: it is the number
    of messages in the input queues of the virtual network.  So a wake-up that
    skips a virtual network because its count is zero leaves no message
    behind. *)
Theorem switch_pending_exact sys counts junk adaptive ordered sw sw' :
  in_ok sw → counted sw → rtc (switch_step sys counts junk adaptive ordered) sw sw' →
  in_ok sw' ∧ counted sw' ∧
  ∀ p v b, 0 ≤ p → 0 ≤ v → m_pending_message_count sw' !! Z.to_nat v = Some 0 →
    cell (m_in sw') p v = Some b → MessageBuffer.m_prio_heap b = [].
Proof.
  intros Hin Hc Hsteps. assert (in_ok sw' ∧ counted sw') as [Hin' Hc'].
  { induction Hsteps as [|sw sw1 sw' Hstep _ IH]; [done|].
    assert (in_ok sw1 ∧ counted sw1) as [? ?]; [|by apply IH].
    destruct Hstep; [by eapply addInPort_inputs|done|by eapply arrive_inputs|by eapply wakeup_inputs]. }
  split_and!; [done|done|]. intros p v b Hp Hv H0 Hb.
  apply (queued_zero v (m_in sw') p); [by rewrite <- (Hc' v 0)|done|done].
Qed.

(** The loop over an input port ends, and the model follows it to its end:
    a round that goes on has removed a message, so one round more than there
    are messages is enough, and the result is that of the loop without any
    bound on its rounds, faults included. *)
Theorem switch_drain_ends sys counts junk adaptive ordered now rnd rt sw i v b :
  in_ok sw → counted sw → 0 ≤ i → 0 ≤ v → cell (m_in sw) i v = Some b →
  drains sys counts junk adaptive ordered now rnd rt i v sw
    (drain sys counts junk adaptive ordered now rnd rt
      (S (length (MessageBuffer.m_prio_heap b))) sw i v).
Proof.
  intros Hin Hc Hi Hv Hb. eapply drain_drains; [done|done|done|done|exact Hb|unfold qlen; lia].
Qed.

(** ** A central switch with one input and two outputs *)

Definition demo_machines : list Z := [2; 1].
Definition demo_dest (ms : list MachineID) : NetDest.t :=
  match (d ← NetDest.create demo_machines 0; mfold (NetDest.add demo_machines) d ms) with
  | Ok d => d
  | Err _ => NetDest.mk [] false false false
  end.

Lemma demo_machines_ok : Forall (λ c, 0 ≤ c ≤ 31) demo_machines.
Proof. repeat constructor; lia. Qed.

Lemma demo_dest_repr ms : Forall (machine_ok demo_machines) ms →
  dest_repr demo_machines (list_to_set ms) (demo_dest ms).
Proof.
  intros Hms. unfold demo_dest.
  destruct (dest_create demo_machines 0 demo_machines_ok) as (d & -> & Hd & _). cbn [mbind outcome_bind].
  destruct (dest_add_list demo_machines ∅ d ms Hd Hms) as (r & -> & Hr).
  by rewrite right_id_L in Hr by apply _.
Qed.

Definition demo_core (i : Z) : MachineID := mkMachineID 0 i.

Lemma demo_core_ok i : 0 ≤ i < 2 → machine_ok demo_machines (demo_core i).
Proof. intros Hi. split; [done|]. by exists 2. Qed.

Lemma demo_core_repr i : 0 ≤ i < 2 →
  dest_repr demo_machines {[demo_core i]} (demo_dest [demo_core i]).
Proof.
  intros Hi. replace ({[demo_core i]} : gset MachineID) with (list_to_set (C := gset MachineID) [demo_core i])
    by (simpl; set_solver).
  apply demo_dest_repr. constructor; [by apply demo_core_ok|done].
Qed.

(** Core 0 behind output 0, core 1 behind output 1. *)
Definition demo_ports : outcome t :=
  sw ← addInPort (init (create 5 1)) [Some (demo_buffer None)];
  let out := [Some (demo_buffer (Some (ToThrottle 5)))] in
  Ok (addOutPort (addOutPort sw out (demo_dest [demo_core 0])) out (demo_dest [demo_core 1])).

(** A message for both waits. *)
Definition demo_message : net_msg :=
  let d := demo_dest [demo_core 0; demo_core 1] in
  Message.create 0 (NetworkMessage.mk d Request_Control d false 0 0).

Definition demo_switch : outcome t := sw ← demo_ports; arrive demo_sys 0 1 sw 0 0 demo_message 1.

Lemma demo_switch_eq : demo_switch = (sw ← demo_ports; arrive demo_sys 0 1 sw 0 0 demo_message 1).
Proof. reflexivity. Qed.

Lemma demo_ports_Ok : ∃ sw, demo_ports = Ok sw.
Proof. eexists. vm_compute. reflexivity. Qed.

Lemma demo_switch_Ok : ∃ sw, demo_switch = Ok sw.
Proof. eexists. vm_compute. reflexivity. Qed.

Lemma demo_ports_ok sw : demo_ports = Ok sw → in_ok sw ∧ counted sw.
Proof.
  intros H. apply bind_Ok in H as (sw1 & H & [= <-]).
  refine (addInPort_inputs (init (create 5 1)) _ sw1 _ _ _ H).
  - constructor; [|done]. split; [|done]. split_and!; [apply heap_nil|constructor|done|constructor].
  - intros p v b _ _ Hb. unfold cell in Hb. by destruct (Z.to_nat p).
  - intros v n Hv Hn. simpl in *. destruct (Z.to_nat v); simplify_eq/=; done.
Qed.

Lemma demo_counter sw b : demo_ports = Ok sw → cell (m_in sw) 0 0 = Some b →
  MessageBuffer.m_msg_counter b + 1 < 2 ^ 64.
Proof.
  intros H Hb. assert ((sw ← demo_ports; b ← buffer_at (m_in sw) 0 0;
    Ok (MessageBuffer.m_msg_counter b)) = Ok 0) as H0 by (vm_compute; reflexivity).
  rewrite H in H0. cbn [mbind outcome_bind] in H0.
  rewrite (proj2 (buffer_at_Ok (m_in sw) 0 0 b)) in H0 by done. cbn [mbind outcome_bind] in H0.
  injection H0 as ->. done.
Qed.

Lemma switch_pending_exact_witness : ∃ sw, demo_switch = Ok sw ∧
  counted sw ∧ m_pending_message_count sw = [1].
Proof.
  destruct demo_ports_Ok as [sw0 H0]. destruct demo_switch_Ok as [sw H].
  exists sw. split; [exact H|].
  assert (m_pending_message_count <$> demo_switch = Ok [1]) as Hp by (vm_compute; reflexivity).
  rewrite H in Hp. injection Hp as Hp. split; [|exact Hp].
  destruct (demo_ports_ok sw0 H0) as [Hin Hc].
  refine (proj1 (proj2 (switch_pending_exact demo_sys demo_machines 0 false (λ _, true) sw0 sw Hin Hc _))).
  apply rtc_once. pose proof H as Ha. rewrite demo_switch_eq in Ha.
  apply (bind_eq_Ok _ _ sw0) in Ha; [|exact H0].
  refine (step_arrive _ _ _ _ _ 0 1 sw0 0 0 demo_message 1 sw _ Ha).
  intros b. by apply demo_counter.
Defined.

(** The state of the switch when the message waits. *)
Lemma demo_switch_state : ∃ sw b n, demo_switch = Ok sw ∧ in_ok sw ∧ counted sw ∧ order_ok sw ∧
  out_ok (length (m_routing_table sw)) sw ∧
  Forall2 (dest_repr demo_machines) [{[demo_core 0]}; {[demo_core 1]}] (m_routing_table sw) ∧
  cell (m_in sw) 0 0 = Some b ∧ MessageBuffer.m_prio_heap b = [n] ∧
  Message.payload (MessageBufferNode.m_msgptr n) = Message.payload demo_message ∧
  skips sw 0 1 = false ∧ out_payloads sw 1 0 = [].
Proof.
  destruct demo_ports_Ok as [sw0 H0]. destruct demo_switch_Ok as [sw H].
  destruct (demo_ports_ok sw0 H0) as [Hin0 Hc0].
  assert (in_ok sw ∧ counted sw) as [Hin Hc].
  { pose proof H as Ha. rewrite demo_switch_eq in Ha.
  apply (bind_eq_Ok _ _ sw0) in Ha; [|exact H0].
    refine (arrive_inputs demo_sys 0 1 sw0 0 0 demo_message 1 sw Hin0 Hc0 _ Ha).
    intros b. by apply demo_counter. }
  assert (H' := H). vm_compute in H'. injection H' as H'. 
  exists sw. rewrite <- H'. eexists _, _. 
  split_and!; [rewrite H'; exact H|rewrite H'; exact Hin|rewrite H'; exact Hc|..].
  - unfold order_ok. reflexivity.
  - intros l v b _ _ Hb. unfold cell in Hb. simpl in Hb.
    destruct (Z.to_nat l) as [|[|?]], (Z.to_nat v) as [|?]; simplify_eq/=;
      (split; [split_and!; [apply heap_nil|constructor|done|constructor]|done]).
  - apply Forall2_cons; split; [|apply Forall2_cons; split; [|constructor]];
      match goal with
      | |- dest_repr _ {[demo_core ?i]} ?x =>
          assert (demo_dest [demo_core i] = x) as <- by (vm_compute; reflexivity)
      end; apply demo_core_repr; lia.
  - reflexivity.
  - reflexivity.
  - vm_compute. reflexivity.
  - reflexivity.
  - reflexivity.
Qed.

Lemma switch_drain_ends_witness : ∃ sw b, demo_switch = Ok sw ∧ cell (m_in sw) 0 0 = Some b ∧
  drains demo_sys demo_machines 0 false (λ _, true) 5 (λ _ _ _, 0) (λ _ _ _, 1) 0 0 sw
    (drain demo_sys demo_machines 0 false (λ _, true) 5 (λ _ _ _, 0) (λ _ _ _, 1)
      (S (length (MessageBuffer.m_prio_heap b))) sw 0 0).
Proof.
  destruct demo_switch_state as (sw & b & n & H & Hin & Hc & _ & _ & _ & Hb & _).
  exists sw, b. split; [exact H|]. split; [exact Hb|].
  exact (switch_drain_ends demo_sys demo_machines 0 false (λ _, true) 5 (λ _ _ _, 0) (λ _ _ _, 1)
    sw 0 0 b Hin Hc (Z.le_refl 0) (Z.le_refl 0) Hb).
Defined.

