(* ===== verification/Blocks.v ===== *)
(** * Data blocks (mem/ruby/common/DataBlock.hh, DataBlock.cc, SubBlock.hh,
    SubBlock.cc, and the functional accesses of slicc_interface/RubySlicc_Util.hh)

    The bytes of a line, parts of a line, and the reads and writes of packets in
    them.  A byte is a number below [2^8].  Copies through pointers are explicit:
    a copy that leaves the array it starts in is [OutOfBounds]. *)

From S2P Require Import Prelude IntMath Addresses.
Local Open Scope Z_scope.

(** [memcpy(to + offset, from, len)] with both arrays known. *)
Definition copy_in (to : list Z) (offset : Z) (from : list Z) (len : Z) : outcome (list Z) :=
  if decide (0 ≤ offset ∧ 0 ≤ len ∧ offset + len ≤ Z.of_nat (length to) ∧
             len ≤ Z.of_nat (length from))
  then Ok (take (Z.to_nat offset) to ++ take (Z.to_nat len) from
           ++ drop (Z.to_nat offset + Z.to_nat len) to)
  else Err OutOfBounds.

(** [&from[offset]]: what can be read from there on. *)
Definition from_here (from : list Z) (offset : Z) : outcome (list Z) :=
  if decide (0 ≤ offset ≤ Z.of_nat (length from)) then Ok (drop (Z.to_nat offset) from)
  else Err OutOfBounds.

Module DataBlock.

(** [m_alloc]: the block owns its bytes. *)
Record t := mk { m_data : list Z; m_alloc : bool }.

Definition with_data (b : t) (l : list Z) : t := mk l (m_alloc b).

(** The block size as a number of elements. *)
Definition size (sys : RubySystem.t) : nat := Z.to_nat (RubySystem.getBlockSizeBytes sys).

(** [memset(m_data, 0, getBlockSizeBytes())] *)
Definition clear (sys : RubySystem.t) (b : t) : outcome t :=
  l ← copy_in (m_data b) 0 (replicate (size sys) 0) (RubySystem.getBlockSizeBytes sys);
  Ok (with_data b l).

(** [alloc], which the constructor calls: new bytes, cleared. *)
Definition create (sys : RubySystem.t) : t := mk (replicate (size sys) 0) true.

(** The copy constructor. *)
Definition copy (sys : RubySystem.t) (cp : t) : outcome t :=
  l ← copy_in (replicate (size sys) 0) 0 (m_data cp) (RubySystem.getBlockSizeBytes sys);
  Ok (mk l true).

(** [operator=] keeps the array and replaces what it holds. *)
Definition assign_from (sys : RubySystem.t) (b obj : t) : outcome t :=
  l ← copy_in (m_data b) 0 (m_data obj) (RubySystem.getBlockSizeBytes sys);
  Ok (with_data b l).

(** [assign]: the block uses bytes that belong to someone else. *)
Definition assign (b : t) (data : option (list Z)) : outcome t :=
  match data with
  | None => Err AssertFail
  | Some l => Ok (mk l false)
  end.

Definition getByte (b : t) (whichByte : Z) : outcome Z := vget (m_data b) whichByte.

Definition setByte (b : t) (whichByte data : Z) : outcome t :=
  l ← vset (m_data b) whichByte data; Ok (with_data b l).

(** The sum of two [int]s is compared with the [uint32_t] block size. *)
Definition in_block (sys : RubySystem.t) (offset len : Z) : bool :=
  bool_decide (u32 (offset + len) ≤ RubySystem.getBlockSizeBytes sys).

Definition getData (sys : RubySystem.t) (b : t) (offset len : Z) : outcome (list Z) :=
  assert_that (in_block sys offset len);; from_here (m_data b) offset.

Definition setData (sys : RubySystem.t) (b : t) (data : list Z) (offset len : Z) : outcome t :=
  assert_that (in_block sys offset len);;
  l ← copy_in (m_data b) offset data len; Ok (with_data b l).

Definition copyPartial (sys : RubySystem.t) (b dblk : t) (offset len : Z) : outcome t :=
  data ← from_here (m_data dblk) offset; setData sys b data offset len.

(** [!memcmp(...)] *)
Definition equal (sys : RubySystem.t) (b obj : t) : outcome bool :=
  if decide (size sys ≤ length (m_data b) ∧ size sys ≤ length (m_data obj))%nat
  then Ok (bool_decide (take (size sys) (m_data b) = take (size sys) (m_data obj)))
  else Err OutOfBounds.

(** The value of bytes in memory order, as the (little-endian) host reads them. *)
Fixpoint value_of (l : list Z) : Z :=
  match l with
  | [] => 0
  | x :: l => x + 2 ^ 8 * value_of l
  end.

(** Up to eight bytes copied over a [uint64_t] that is zero. *)
Definition lookup (b : t) (offset size : Z) : outcome Z :=
  data ← from_here (m_data b) offset;
  l ← copy_in (replicate 8 0) 0 data size;
  Ok (value_of l).

End DataBlock.

Module SubBlock.

Record t := mk { m_address : Z; m_data : list Z }.

Definition create (addr size : Z) : t := mk addr (replicate (Z.to_nat size) 0).

Definition getAddress (s : t) : Z := m_address s.
Definition setAddress (s : t) (addr : Z) : t := mk addr (m_data s).
Definition getSize (s : t) : Z := Z.of_nat (length (m_data s)).

(** [vector::resize] drops bytes at the end or adds zeros. *)
Definition resize (s : t) (size : Z) : t :=
  mk (m_address s) (take (Z.to_nat size) (m_data s) ++
                    replicate (Z.to_nat size - length (m_data s)) 0).

Definition getByte (s : t) (offset : Z) : outcome Z := vget (m_data s) offset.
Definition setByte (s : t) (offset data : Z) : outcome t :=
  l ← vset (m_data s) offset data; Ok (mk (m_address s) l).

Definition readByte (s : t) : outcome Z := getByte s 0.
Definition writeByte (s : t) (data : Z) : outcome t := setByte s 0 data.

(** [for (int i = 0; i < size; i++)] *)
Definition indices (size : Z) : list Z := seqZ 0 size.

Definition internalMergeFrom (sys : RubySystem.t) (s : t) (data : DataBlock.t) : outcome t :=
  let size := getSize s in
  assert_that (bool_decide (0 < size));;
  offset ← Address.getOffset sys (m_address s);
  mfold (λ s i, v ← DataBlock.getByte data (offset + i); setByte s i v) s (indices size).

Definition internalMergeTo (sys : RubySystem.t) (s : t) (data : DataBlock.t)
    : outcome DataBlock.t :=
  let size := getSize s in
  assert_that (bool_decide (0 < size));;
  offset ← Address.getOffset sys (m_address s);
  mfold (λ d i, v ← getByte s i; DataBlock.setByte d (offset + i) v) data (indices size).

Definition mergeTo := internalMergeTo.
Definition mergeFrom := internalMergeFrom.

End SubBlock.

(** What the functional accesses use of a [Packet]: its address, its size and its
    bytes. *)
Record packet := mkPacket { pkt_addr : Z; pkt_size : Z; pkt_data : list Z }.

Definition with_bytes (p : packet) (l : list Z) : packet := mkPacket (pkt_addr p) (pkt_size p) l.

(** The position of the packet in the line is an [unsigned]. *)
Definition start_byte (sys : RubySystem.t) (addr : Z) (p : packet) : Z :=
  u32 (pkt_addr p - Address.makeLineAddress sys addr).

(** [None]: the packet is for another line. *)
Definition testAndRead (sys : RubySystem.t) (addr : Z) (blk : DataBlock.t) (p : packet)
    : outcome (option packet) :=
  if decide (Address.makeLineAddress sys (pkt_addr p) = Address.makeLineAddress sys addr) then
    l ← mfold (λ l i, v ← DataBlock.getByte blk (u32 (i + start_byte sys addr p)); vset l i v)
          (pkt_data p) (SubBlock.indices (pkt_size p));
    Ok (Some (with_bytes p l))
  else Ok None.

Definition testAndWrite (sys : RubySystem.t) (addr : Z) (blk : DataBlock.t) (p : packet)
    : outcome (option DataBlock.t) :=
  if decide (Address.makeLineAddress sys (pkt_addr p) = Address.makeLineAddress sys addr) then
    b ← mfold (λ b i, v ← vget (pkt_data p) i;
                 DataBlock.setByte b (u32 (i + start_byte sys addr p)) v)
          blk (SubBlock.indices (pkt_size p));
    Ok (Some b)
  else Ok None.

(** ** Copies *)

Lemma copy_in_Ok to offset from len : 0 ≤ offset → 0 ≤ len →
  offset + len ≤ Z.of_nat (length to) → len ≤ Z.of_nat (length from) →
  copy_in to offset from len =
    Ok (take (Z.to_nat offset) to ++ take (Z.to_nat len) from
        ++ drop (Z.to_nat offset + Z.to_nat len) to).
Proof. intros. unfold copy_in. by rewrite decide_True. Qed.

(** A copy changes the bytes of its range and no other. *)
Lemma copy_in_lookup to offset from len l : copy_in to offset from len = Ok l →
  length l = length to ∧
  ∀ k : nat, l !! k =
    if decide (offset ≤ Z.of_nat k < offset + len) then from !! (k - Z.to_nat offset)%nat
    else to !! k.
Proof.
  unfold copy_in. destruct (decide _) as [(Ho & Hl & Ht & Hf)|]; [|done]. intros [= <-].
  split; [rewrite !length_app, !length_take, length_drop; lia|]. intros k.
  destruct (decide (offset ≤ Z.of_nat k < offset + len)) as [[H1 H2]|H].
  - rewrite lookup_app_r by (rewrite length_take; lia).
    rewrite length_take, Nat.min_l by lia.
    rewrite lookup_app_l by (rewrite length_take; lia). by rewrite lookup_take_lt by lia.
  - destruct (decide (Z.of_nat k < offset)).
    + rewrite lookup_app_l by (rewrite length_take; lia). by rewrite lookup_take_lt by lia.
    + rewrite !lookup_app_r by (rewrite !length_take; lia).
      rewrite !length_take, !Nat.min_l by lia. rewrite lookup_drop. f_equal. lia.
Qed.

Lemma copy_total to offset from len : 0 ≤ offset → 0 ≤ len → offset + len ≤ Z.of_nat (length to) →
  len ≤ Z.of_nat (length from) → ∃ l, copy_in to offset from len = Ok l ∧ length l = length to ∧
  ∀ k : nat, l !! k =
    if decide (offset ≤ Z.of_nat k < offset + len) then from !! (k - Z.to_nat offset)%nat else to !! k.
Proof.
  intros. eexists. split; [by apply copy_in_Ok|]. eapply copy_in_lookup. by apply copy_in_Ok.
Qed.

Lemma from_here_Ok l o : 0 ≤ o ≤ Z.of_nat (length l) → from_here l o = Ok (drop (Z.to_nat o) l).
Proof. intros H. unfold from_here. by rewrite decide_True. Qed.

Lemma copy_in_crossing to offset from len : Z.of_nat (length to) < offset + len →
  copy_in to offset from len = Err OutOfBounds.
Proof. intros. unfold copy_in. rewrite decide_False; [done|lia]. Qed.

(** A loop that copies byte by byte is a copy, faults included. *)
Lemma copy_loop from to offset (n : nat) : 0 ≤ offset ≤ Z.of_nat (length to) →
  (n ≤ length from)%nat →
  mfold (λ l i, v ← vget from i; vset l (offset + i) v) to (seqZ 0 (Z.of_nat n)) =
    copy_in to offset from (Z.of_nat n).
Proof.
  intros Ho. induction n as [|n IH]; intros Hn.
  { rewrite copy_in_Ok by lia. change (Z.to_nat (Z.of_nat 0)) with 0%nat. rewrite Nat.add_0_r, take_0. cbn [app]. by rewrite take_drop. }
  rewrite seqZ_S, mfold_app, IH, Z.add_0_l by lia. clear IH.
  destruct (decide (offset + Z.of_nat n < Z.of_nat (length to))) as [Hin|Hout].
  - destruct (copy_in to offset from (Z.of_nat n)) as [l|] eqn:El;
      [|by rewrite copy_in_Ok in El by lia].
    destruct (copy_in to offset from (Z.of_nat (S n))) as [l'|] eqn:El';
      [|by rewrite copy_in_Ok in El' by lia].
    apply copy_in_lookup in El as [Hlen Hl]. apply copy_in_lookup in El' as [Hlen' Hl'].
    destruct (lookup_lt_is_Some_2 from n) as [x Hx]; [lia|].
    cbn [mbind outcome_bind mfold]. rewrite (vget_nat _ _ _ Hx). cbn [mbind outcome_bind].
    unfold vset. rewrite decide_True by lia. cbn [mbind outcome_bind]. f_equal.
    apply list_eq. intros k. rewrite Hl'.
    destruct (decide (k = Z.to_nat (offset + Z.of_nat n))) as [->|Hne].
    + rewrite list_lookup_insert_eq by lia. rewrite decide_True by lia. rewrite <- Hx. f_equal. lia.
    + rewrite list_lookup_insert_ne by done. rewrite Hl.
      destruct (decide _), (decide _); try done; lia.
  - rewrite (copy_in_crossing _ _ _ (Z.of_nat (S n))) by lia.
    destruct (copy_in to offset from (Z.of_nat n)) as [l|] eqn:El.
    + apply copy_in_lookup in El as [Hlen _].
      destruct (lookup_lt_is_Some_2 from n) as [x Hx]; [lia|].
      cbn [mbind outcome_bind mfold]. rewrite (vget_nat _ _ _ Hx). cbn [mbind outcome_bind].
      unfold vset. by rewrite decide_False by lia.
    + unfold copy_in in El. destruct (decide _); [done|]. by injection El as <-.
Qed.

Lemma vget_drop (l : list Z) offset i : 0 ≤ offset → 0 ≤ i →
  vget (drop (Z.to_nat offset) l) i = vget l (offset + i).
Proof.
  intros. rewrite !vget_lookup by lia. rewrite lookup_drop. do 2 f_equal. lia.
Qed.

(** A loop on a record whose body works on one of its fields. *)
Lemma mfold_field {A S T} (h : S → T) (f : T → A → outcome T) (g : S → A → outcome S) l s :
  (∀ s x, x ∈ l → f (h s) x = h <$> g s x) → mfold f (h s) l = h <$> mfold g s l.
Proof.
  revert s. induction l as [|x l IH]; intros s Hf; [done|]. cbn [mfold].
  rewrite Hf by apply list_elem_of_here. destruct (g s x) as [s'|]; [|done].
  apply IH. intros. apply Hf. by apply list_elem_of_further.
Qed.

(** ** Parts of a line *)

Section subblock.
Context (sys : RubySystem.t).
Hypothesis Hg : Address.geometry sys.

Let B := RubySystem.m_block_size_bytes sys.

Lemma mergeTo_copy s d : fits 64 (SubBlock.m_address s) → 0 < SubBlock.getSize s →
  SubBlock.m_address s `mod` B ≤ Z.of_nat (length (DataBlock.m_data d)) →
  SubBlock.mergeTo sys s d = DataBlock.with_data d <$>
    copy_in (DataBlock.m_data d) (SubBlock.m_address s `mod` B) (SubBlock.m_data s)
      (SubBlock.getSize s).
Proof.
  intros Ha Hs Hd. unfold SubBlock.mergeTo, SubBlock.internalMergeTo.
  rewrite bool_decide_eq_true_2 by done. rewrite getOffset_eq by done. fold B.
  pose proof (block_pos sys Hg) as HB. fold B in HB.
  assert (0 ≤ SubBlock.m_address s `mod` B) by (apply Z.mod_pos_bound; lia).
  cbn [mbind outcome_bind assert_that]. unfold SubBlock.getSize. rewrite <- copy_loop by lia.
  replace d with (DataBlock.with_data d (DataBlock.m_data d)) at 1 by by destruct d.
  apply mfold_field. intros l i _. unfold SubBlock.getByte.
  destruct (vget (SubBlock.m_data s) i) as [v|]; [|done].
  cbn [mbind outcome_bind]. unfold DataBlock.setByte. cbn [DataBlock.m_data DataBlock.with_data].
  by destruct (vset l _ v).
Qed.

Lemma mergeFrom_copy s d : fits 64 (SubBlock.m_address s) → 0 < SubBlock.getSize s →
  SubBlock.m_address s `mod` B + SubBlock.getSize s ≤ Z.of_nat (length (DataBlock.m_data d)) →
  SubBlock.mergeFrom sys s d = SubBlock.mk (SubBlock.m_address s) <$>
    copy_in (SubBlock.m_data s) 0
      (drop (Z.to_nat (SubBlock.m_address s `mod` B)) (DataBlock.m_data d)) (SubBlock.getSize s).
Proof.
  intros Ha Hs Hd. unfold SubBlock.mergeFrom, SubBlock.internalMergeFrom.
  rewrite bool_decide_eq_true_2 by done. rewrite getOffset_eq by done. fold B.
  pose proof (block_pos sys Hg) as HB. fold B in HB.
  assert (0 ≤ SubBlock.m_address s `mod` B) by (apply Z.mod_pos_bound; lia).
  cbn [mbind outcome_bind assert_that]. unfold SubBlock.getSize in *.
  rewrite <- copy_loop by (rewrite ?length_drop; lia).
  destruct s as [a l]. cbn [SubBlock.m_address SubBlock.m_data] in *.
  change (SubBlock.mk a l) with ((SubBlock.mk a) l). apply mfold_field.
  intros l' i Hi%elem_of_seqZ. rewrite vget_drop by lia. unfold DataBlock.getByte.
  destruct (vget (DataBlock.m_data d) _) as [v|]; [|done].
  cbn [mbind outcome_bind]. unfold SubBlock.setByte. cbn [SubBlock.m_data].
  rewrite Z.add_0_l. by destruct (vset l' i v).
Qed.

End subblock.

(** ** Properties *)

Section theorems.
Context (sys : RubySystem.t).
Hypothesis Hg : Address.geometry sys.

Let B := RubySystem.m_block_size_bytes sys.

(** Merging a part of a line into the line changes exactly the bytes of the
    part, and reading the part back from the result gives the part again. *)
Theorem merge_roundtrip s d : fits 64 (SubBlock.m_address s) → 0 < SubBlock.getSize s →
  length (DataBlock.m_data d) = DataBlock.size sys →
  SubBlock.m_address s `mod` B + SubBlock.getSize s ≤ B →
  ∃ d', SubBlock.mergeTo sys s d = Ok d' ∧ length (DataBlock.m_data d') = DataBlock.size sys ∧
    (∀ k : nat, DataBlock.m_data d' !! k =
       if decide (SubBlock.m_address s `mod` B ≤ Z.of_nat k <
                  SubBlock.m_address s `mod` B + SubBlock.getSize s)
       then SubBlock.m_data s !! (k - Z.to_nat (SubBlock.m_address s `mod` B))%nat
       else DataBlock.m_data d !! k) ∧
    SubBlock.mergeFrom sys s d' = Ok s.
Proof using Hg.
  intros Ha Hs Hlen Hin. pose proof (block_pos sys Hg) as HB. fold B in HB.
  assert (Z.of_nat (length (DataBlock.m_data d)) = B) as HdB
    by (rewrite Hlen; unfold DataBlock.size, RubySystem.getBlockSizeBytes; fold B; lia).
  assert (0 ≤ SubBlock.m_address s `mod` B) by (apply Z.mod_pos_bound; lia).
  pose proof (mergeTo_copy sys Hg s d Ha Hs) as Hto. fold B in Hto.
  destruct (copy_in (DataBlock.m_data d) (SubBlock.m_address s `mod` B) (SubBlock.m_data s)
    (SubBlock.getSize s)) as [l|] eqn:El;
    [|unfold SubBlock.getSize in *; rewrite copy_in_Ok in El by lia; done].
  apply copy_in_lookup in El as [Hl Hlook]. exists (DataBlock.with_data d l).
  split; [rewrite Hto by lia; done|]. split; [by rewrite <- Hlen|]. split; [done|].
  pose proof (mergeFrom_copy sys Hg s (DataBlock.with_data d l) Ha Hs) as Hfrom. fold B in Hfrom.
  rewrite Hfrom by (cbn [DataBlock.with_data DataBlock.m_data]; lia).
  clear Hto Hfrom. destruct s as [a bs].
  unfold SubBlock.getSize in *. cbn [SubBlock.m_data SubBlock.m_address DataBlock.with_data
    DataBlock.m_data] in *. rewrite copy_in_Ok by (rewrite ?length_drop; lia).
  cbn [fmap outcome_fmap]. do 2 f_equal. change (Z.to_nat 0) with 0%nat.
  rewrite Nat2Z.id, Nat.add_0_l, drop_all, take_0, app_nil_r. cbn [app].
  apply list_eq. intros k.
  destruct (decide (k < length bs)%nat).
  - rewrite lookup_take_lt by lia. rewrite lookup_drop, Hlook, decide_True by lia. f_equal. lia.
  - rewrite !lookup_ge_None_2; [done|lia|rewrite length_take; lia].
Qed.

(** A part that crosses the end of the line is written past the end of the
    bytes of the line; no assert stops it. *)
Theorem merge_crossing_writes_outside s d : fits 64 (SubBlock.m_address s) →
  length (DataBlock.m_data d) = DataBlock.size sys →
  B < SubBlock.m_address s `mod` B + SubBlock.getSize s →
  SubBlock.mergeTo sys s d = Err OutOfBounds.
Proof using Hg.
  intros Ha Hlen Hin. pose proof (block_pos sys Hg) as HB. fold B in HB.
  assert (Z.of_nat (length (DataBlock.m_data d)) = B) as HdB
    by (rewrite Hlen; unfold DataBlock.size, RubySystem.getBlockSizeBytes; fold B; lia).
  assert (0 ≤ SubBlock.m_address s `mod` B < B) by (apply Z.mod_pos_bound; lia).
  rewrite (mergeTo_copy sys Hg) by (fold B; lia || done). fold B.
  by rewrite copy_in_crossing by lia.
Qed.

Lemma start_byte_eq addr p : fits 64 (pkt_addr p) →
  Address.makeLineAddress sys (pkt_addr p) = Address.makeLineAddress sys addr →
  start_byte sys addr p = pkt_addr p `mod` B.
Proof using Hg.
  intros Hp Heq. unfold start_byte. rewrite <- Heq.
  change (Address.makeLineAddress sys (pkt_addr p)) with (Address.line_address sys (pkt_addr p)).
  rewrite line_address_eq by done. fold B. pose proof (block_pos sys Hg) as HB. fold B in HB.
  pose proof (Z.mod_pos_bound (pkt_addr p) B) as Hm. pose proof (Z.div_mod (pkt_addr p) B) as Hdm.
  unfold u32. rewrite uwrap_id; [lia|]. assert (B ≤ 2 ^ 31).
  { unfold B. destruct Hg as [Hb ->]. apply Z.pow_le_mono_r; lia. }
  split; [lia|]. change (2 ^ 32) with (2 * 2 ^ 31). lia.
Qed.

(** The loops of the functional accesses copy as [memcpy] does. *)
Lemma functional_loops (l from : list Z) start n : 0 ≤ start → start + Z.of_nat n ≤ B →
  (n ≤ length l)%nat → (n ≤ length from)%nat → start + Z.of_nat n ≤ Z.of_nat (length from) →
  mfold (λ l i, v ← vget from (u32 (i + start)); vset l i v) l (seqZ 0 (Z.of_nat n)) =
    copy_in l 0 (drop (Z.to_nat start) from) (Z.of_nat n).
Proof using Hg.
  intros Hs HnB Hl Hf Hsf. assert (B < 2 ^ 32).
  { unfold B. destruct Hg as [Hb ->]. apply Z.pow_lt_mono_r; lia. }
  rewrite <- copy_loop by (rewrite ?length_drop; lia). apply mfold_ext.
  intros l' i Hi%elem_of_seqZ. rewrite vget_drop by lia.
  unfold u32. rewrite uwrap_id by (unfold fits; lia). by rewrite (Z.add_comm i), Z.add_0_l.
Qed.

(** Whatever the block was, what a functional write put into it is what a read returns. *)
Lemma written_read_back addr b b' p bytes : fits 64 (pkt_addr p) →
  pkt_size p = Z.of_nat (length (pkt_data p)) → length bytes = length (pkt_data p) →
  pkt_addr p `mod` B + pkt_size p ≤ B → testAndWrite sys addr b p = Ok (Some b') →
  testAndRead sys addr b' (with_bytes p bytes) = Ok (Some p).
Proof using Hg.
  intros Hpa Hsz Hbytes Hin. unfold testAndWrite, testAndRead. cbn [with_bytes pkt_addr pkt_data pkt_size].
  destruct (decide _) as [Heq|]; [|done].
  replace (start_byte sys addr (with_bytes p bytes)) with (start_byte sys addr p) by done.
  rewrite start_byte_eq by done. pose proof (block_pos sys Hg) as HB. fold B in HB.
  pose proof (Z.mod_pos_bound (pkt_addr p) B ltac:(lia)) as Hm. set (start := pkt_addr p `mod` B) in *.
  assert (B < 2 ^ 32) by (unfold B; destruct Hg as [Hgb ->]; apply Z.pow_lt_mono_r; lia).
  destruct p as [pa ps data]. cbn [pkt_addr pkt_size pkt_data with_bytes] in *. subst ps.
  intros (b1 & Hw & [= <-])%bind_Ok. unfold SubBlock.indices in *.
  assert (∀ i : nat, (i < length data)%nat →
    DataBlock.m_data b1 !! (Z.to_nat start + i)%nat = data !! i) as Hlook.
  { revert Hw. apply (mfold_seqZ (λ n t, ∀ i : nat, (i < n)%nat →
      DataBlock.m_data t !! (Z.to_nat start + i)%nat = data !! i)); [|intros i; lia].
    intros n t t' Hn IH (v & Hv & (l & (Hr & ->)%vset_Ok & [= <-])%bind_Ok)%bind_Ok i Hi.
    unfold u32 in *. rewrite uwrap_id in Hr |- * by (unfold fits; lia). cbn [DataBlock.m_data DataBlock.with_data].
    replace (Z.to_nat (Z.of_nat n + start)) with (Z.to_nat start + n)%nat by lia.
    destruct (decide (i = n)) as [->|]; [|rewrite list_lookup_insert_ne by lia; apply IH; lia].
    apply vget_Ok in Hv as [_ Hv]. rewrite Nat2Z.id in Hv. rewrite Hv. apply list_lookup_insert_eq. lia. }
  destruct (decide (length data = 0%nat)) as [E|Hpos].
  { apply nil_length_inv in E as ->. by apply nil_length_inv in Hbytes as ->. }
  assert (Z.to_nat start + (length data - 1) < length (DataBlock.m_data b1))%nat.
  { apply lookup_lt_is_Some. rewrite Hlook by lia. apply lookup_lt_is_Some. lia. }
  unfold DataBlock.getByte. rewrite functional_loops by lia.
  rewrite copy_in_Ok by (rewrite ?length_drop; lia). cbn [mbind outcome_bind]. do 3 f_equal.
  change (Z.to_nat 0) with 0%nat. rewrite Nat2Z.id, Nat.add_0_l, <- Hbytes, drop_all, take_0, app_nil_r. cbn [app].
  apply list_eq. intros k. destruct (decide (k < length data)%nat).
  - rewrite lookup_take_lt by lia. rewrite lookup_drop. by apply Hlook.
  - rewrite !lookup_ge_None_2; [done|lia|rewrite length_take; lia].
Qed.

(** A functional write to a line changes exactly the bytes of the packet, and a
    functional read of the same bytes returns what was written; a packet for another
    line leaves the line alone. *)
Theorem functional_access_roundtrip addr b p bytes : fits 64 (pkt_addr p) →
  length (DataBlock.m_data b) = DataBlock.size sys →
  pkt_size p = Z.of_nat (length (pkt_data p)) → length bytes = length (pkt_data p) →
  pkt_addr p `mod` B + pkt_size p ≤ B →
  if decide (Address.makeLineAddress sys (pkt_addr p) = Address.makeLineAddress sys addr)
  then ∃ b', testAndWrite sys addr b p = Ok (Some b') ∧
    (∀ k : nat, DataBlock.m_data b' !! k =
       if decide (pkt_addr p `mod` B ≤ Z.of_nat k < pkt_addr p `mod` B + pkt_size p)
       then pkt_data p !! (k - Z.to_nat (pkt_addr p `mod` B))%nat
       else DataBlock.m_data b !! k) ∧
    testAndRead sys addr b' (with_bytes p bytes) = Ok (Some p)
  else testAndWrite sys addr b p = Ok None ∧
    testAndRead sys addr b (with_bytes p bytes) = Ok None.
Proof using Hg.
  intros Hpa Hb Hsz Hbytes Hin.
  destruct (decide (Address.makeLineAddress sys (pkt_addr p) = _)) as [Heq|Hne];
    [|unfold testAndWrite, testAndRead; by rewrite !decide_False by done].
  pose proof (block_pos sys Hg) as HB. fold B in HB.
  assert (Z.of_nat (length (DataBlock.m_data b)) = B) as HbB
    by (rewrite Hb; unfold DataBlock.size, RubySystem.getBlockSizeBytes; fold B; lia).
  pose proof (Z.mod_pos_bound (pkt_addr p) B) as Hm.
  assert (B < 2 ^ 32) by (unfold B; destruct Hg as [Hgb ->]; apply Z.pow_lt_mono_r; lia).
  destruct (copy_in (DataBlock.m_data b) (pkt_addr p `mod` B) (pkt_data p) (pkt_size p)) as [l|] eqn:El;
    [|rewrite copy_in_Ok in El by lia; done].
  assert (testAndWrite sys addr b p = Ok (Some (DataBlock.with_data b l))) as Hw.
  { unfold testAndWrite. rewrite decide_True, start_byte_eq by done. rewrite Hsz in El |- *.
    replace b with (DataBlock.with_data b (DataBlock.m_data b)) at 1 by by destruct b.
    rewrite (mfold_field (DataBlock.with_data b) _
      (λ l i, v ← vget (pkt_data p) i; vset l (pkt_addr p `mod` B + i) v)).
    - unfold SubBlock.indices. by rewrite copy_loop, El by lia.
    - intros l' i Hi%elem_of_seqZ. unfold u32. rewrite uwrap_id by (unfold fits; lia).
      rewrite (Z.add_comm i). destruct (vget (pkt_data p) i) as [v|]; [|done].
      cbn [mbind outcome_bind]. unfold DataBlock.setByte.
      cbn [DataBlock.m_data DataBlock.with_data]. by destruct (vset l' _ v). }
  exists (DataBlock.with_data b l). split; [done|]. split.
  - intros k. apply (copy_in_lookup _ _ _ _ _ El).
  - by apply (written_read_back addr b).
Qed.

End theorems.

(** A lookup reads up to eight bytes of the line as a number. *)
Lemma value_of_zeros l n : DataBlock.value_of (l ++ replicate n 0) = DataBlock.value_of l.
Proof.
  induction l as [|x l IH]; cbn.
  - induction n as [|n IH]; [done|]. cbn [replicate DataBlock.value_of]. by rewrite IH.
  - by rewrite IH.
Qed.

Lemma lookup_value b offset size : 0 ≤ offset → 0 ≤ size ≤ 8 →
  offset + size ≤ Z.of_nat (length (DataBlock.m_data b)) →
  DataBlock.lookup b offset size =
    Ok (DataBlock.value_of (take (Z.to_nat size) (drop (Z.to_nat offset) (DataBlock.m_data b)))).
Proof.
  intros Ho Hs Hl. unfold DataBlock.lookup, from_here. rewrite decide_True by lia.
  cbn [mbind outcome_bind]. rewrite copy_in_Ok by (rewrite ?length_drop, ?length_replicate; lia).
  cbn [mbind outcome_bind]. f_equal. change (Z.to_nat 0) with 0%nat.
  rewrite take_0, Nat.add_0_l, drop_replicate. apply value_of_zeros.
Qed.

(** ** Witnesses *)

Lemma merge_roundtrip_witness :
  ∃ d, SubBlock.mergeTo sys64 (SubBlock.mk 0x1004 [1; 2; 3]) (DataBlock.create sys64) = Ok d ∧
    SubBlock.mergeFrom sys64 (SubBlock.mk 0x1004 [1; 2; 3]) d =
      Ok (SubBlock.mk 0x1004 [1; 2; 3]).
Proof.
  destruct (merge_roundtrip sys64 ltac:(split; vm_compute; intuition congruence)
    (SubBlock.mk 0x1004 [1; 2; 3]) (DataBlock.create sys64)) as (d & H1 & _ & _ & H2);
    [vm_compute; intuition congruence|done|done|vm_compute; intuition congruence|].
  exists d. by split.
Defined.

Lemma merge_crossing_writes_outside_witness :
  SubBlock.mergeTo sys64 (SubBlock.mk 0x103E [1; 2; 3]) (DataBlock.create sys64) =
    Err OutOfBounds.
Proof.
  apply (merge_crossing_writes_outside sys64); [split; vm_compute; intuition congruence
    |vm_compute; intuition congruence|done|vm_compute; intuition congruence].
Defined.

Lemma functional_access_roundtrip_witness :
  ∃ b, testAndWrite sys64 0x1000 (DataBlock.create sys64) (mkPacket 0x1008 2 [7; 9]) = Ok (Some b) ∧
    testAndRead sys64 0x1000 b (mkPacket 0x1008 2 [0; 0]) = Ok (Some (mkPacket 0x1008 2 [7; 9])).
Proof.
  pose proof (functional_access_roundtrip sys64 ltac:(split; vm_compute; intuition congruence)
    0x1000 (DataBlock.create sys64) (mkPacket 0x1008 2 [7; 9]) [0; 0]) as H.
  rewrite decide_True in H by done.
  destruct H as (b & H1 & _ & H2); [vm_compute; intuition congruence..|].
  exists b. by split.
Defined.
