(* ===== verification/Policies.v ===== *)
(** * Replacement policies (structures/AbstractReplacementPolicy.hh,
      LRUPolicy.hh, PseudoLRUPolicy.hh)

    A policy remembers the accesses to the ways of each set of a cache and
    names a victim.  The two policies implement one interface, the class
    [ReplacementPolicy], whose laws are what the caches rely on. *)

From S2P Require Import Prelude.
Local Open Scope Z_scope.

Module AbstractReplacementPolicy.

Record t := mk { m_num_sets : Z; m_assoc : Z; m_last_ref_ptr : list (list Z) }.

(** The constructor; [unsigned] members keep the low 32 bits. *)
Definition create (num_sets assoc : Z) : t :=
  mk (u32 num_sets) (u32 assoc)
     (replicate (Z.to_nat (u32 num_sets)) (replicate (Z.to_nat (u32 assoc)) 0)).

Definition getLastAccess (p : t) (set way : Z) : outcome Z :=
  row ← vget (m_last_ref_ptr p) set; vget row way.

(** [m_last_ref_ptr[set][index] = time] *)
Definition record (p : t) (set index time : Z) : outcome t :=
  row ← vget (m_last_ref_ptr p) set;
  row ← vset row index time;
  l ← vset (m_last_ref_ptr p) set row;
  Ok (mk (m_num_sets p) (m_assoc p) l).

(** The asserts of [touch]. *)
Definition check (p : t) (set index : Z) : outcome unit :=
  assert_that (bool_decide (0 ≤ index < m_assoc p));;
  assert_that (bool_decide (0 ≤ set < m_num_sets p)).

End AbstractReplacementPolicy.

Module LRUPolicy.
Import AbstractReplacementPolicy.

Definition create (num_sets assoc : Z) : outcome t := Ok (create num_sets assoc).

Definition touch (p : t) (set index time : Z) : outcome t :=
  check p set index;; record p set index time.

(** The state of the loop is [smallest_index] and [smallest_time]. *)
Definition getVictim (p : t) (set : Z) : outcome Z :=
  row ← vget (m_last_ref_ptr p) set;
  first ← vget row 0;
  r ← mfold (λ (st : Z * Z) i,
        time ← vget row i;
        Ok (if decide (time < st.2) then (i, time) else st)) (0, first) (seqZ 0 (m_assoc p));
  Ok r.1.

End LRUPolicy.

Module PseudoLRUPolicy.
Import AbstractReplacementPolicy.

Record t := mkPseudo {
  base : AbstractReplacementPolicy.t;
  m_effective_assoc : Z;
  m_num_levels : Z;
  m_trees : list Z }.

(** [while (m_effective_assoc < assoc) m_effective_assoc <<= 1;] *)
Fixpoint round_up (fuel : nat) (effective assoc : Z) : outcome Z :=
  match fuel with
  | O => Err OutOfFuel
  | S fuel => if decide (effective < assoc) then round_up fuel (u32 (2 * effective)) assoc
              else Ok effective
  end.

(** [while (true) { assoc /= 2; if (!assoc) break; m_num_levels++; }] *)
Fixpoint count_levels (fuel : nat) (assoc levels : Z) : outcome Z :=
  match fuel with
  | O => Err OutOfFuel
  | S fuel => if decide (assoc `div` 2 = 0) then Ok levels
              else count_levels fuel (assoc `div` 2) (levels + 1)
  end.

(** The associativity is at most 32, so the loops run at most five times. *)
Definition create (num_sets assoc : Z) : outcome t :=
  assert_that (bool_decide (0 < num_sets ∧ 1 < assoc ∧ assoc ≤ 8 * 4));;
  effective ← round_up 6 1 assoc;
  levels ← count_levels 6 effective 0;
  assert_that (bool_decide (levels < 4 * 4));;
  Ok (mkPseudo (AbstractReplacementPolicy.create num_sets assoc) effective levels
        (replicate (Z.to_nat (u32 num_sets)) 0)).

(** [1 << tree_index], an [int]. *)
Definition int_bit (tree_index : Z) : outcome Z :=
  if decide (0 ≤ tree_index < 31) then Ok (2 ^ tree_index) else Err BadShift.

(** One level of [touch]; the state is the tree of the set and [tree_index]. *)
Definition touch_level (index : Z) (st : Z * Z) (i : Z) : outcome (Z * Z) :=
  let '(tree, tree_index) := st in
  bit ← int_bit tree_index;
  if Z.testbit index i then Ok (Z.lor tree bit, tree_index * 2 + 2)
  else Ok (Z.land tree (not64 bit), tree_index * 2 + 1).

Definition touch (p : t) (set index time : Z) : outcome t :=
  check (base p) set index;;
  tree ← vget (m_trees p) set;
  r ← mfold (touch_level index) (tree, 0) (reverse (seqZ 0 (m_num_levels p)));
  trees ← vset (m_trees p) set r.1;
  b ← record (base p) set index time;
  Ok (mkPseudo b (m_effective_assoc p) (m_num_levels p) trees).

(** One level of [getVictim]; the state is [index] and [tree_index]. *)
Definition victim_level (effective tree : Z) (st : Z * Z) (i : Z) : Z * Z :=
  let '(index, tree_index) := st in
  if Z.testbit tree tree_index then (index, tree_index * 2 + 1)
  else (index + Z.shiftr effective (i + 1), tree_index * 2 + 2).

Definition getVictim (p : t) (set : Z) : outcome Z :=
  tree ← vget (m_trees p) set;
  let '(index, _) := foldl (victim_level (m_effective_assoc p) tree) (0, 0)
                       (seqZ 0 (m_num_levels p)) in
  assert_that (bool_decide (0 ≤ index < m_effective_assoc p));;
  Ok (if decide (m_assoc (base p) - 1 < index) then m_assoc (base p) - 1 else index).

Definition getLastAccess (p : t) (set way : Z) : outcome Z :=
  AbstractReplacementPolicy.getLastAccess (base p) set way.

End PseudoLRUPolicy.

(** ** The interface *)

(** The virtual functions. *)
Class ReplacementPolicy (T : Type) := {
  policy_touch : T → Z → Z → Z → outcome T;
  policy_getVictim : T → Z → outcome Z;
  policy_getLastAccess : T → Z → Z → outcome Z }.

#[global] Instance lru_policy : ReplacementPolicy AbstractReplacementPolicy.t := {
  policy_touch := LRUPolicy.touch;
  policy_getVictim := LRUPolicy.getVictim;
  policy_getLastAccess := AbstractReplacementPolicy.getLastAccess }.

#[global] Instance pseudo_lru_policy : ReplacementPolicy PseudoLRUPolicy.t := {
  policy_touch := PseudoLRUPolicy.touch;
  policy_getVictim := PseudoLRUPolicy.getVictim;
  policy_getLastAccess := PseudoLRUPolicy.getLastAccess }.

(** What a cache of [sets] sets and [assoc] ways relies on. *)
Class PolicyLaws (T : Type) `{ReplacementPolicy T} := {
  policy_ok : Z → Z → T → Prop;
  policy_touch_ok sets assoc p set way time :
    policy_ok sets assoc p → 0 ≤ set < sets → 0 ≤ way < assoc →
    ∃ p', policy_touch p set way time = Ok p' ∧ policy_ok sets assoc p' ∧
      ∀ s w, 0 ≤ s < sets → 0 ≤ w < assoc →
        policy_getLastAccess p' s w =
        if decide (s = set ∧ w = way) then Ok time else policy_getLastAccess p s w;
  policy_victim_range sets assoc p set :
    policy_ok sets assoc p → 0 ≤ set < sets →
    ∃ v, policy_getVictim p set = Ok v ∧ 0 ≤ v < assoc;
  (** the way just used is not the next victim, if another was used earlier *)
  policy_spares_touched sets assoc p set way time p' other last :
    policy_ok sets assoc p → 0 ≤ set < sets → 0 ≤ way < assoc →
    policy_touch p set way time = Ok p' →
    0 ≤ other < assoc → other ≠ way → policy_getLastAccess p set other = Ok last → last < time →
    policy_getVictim p' set ≠ Ok way }.

(** ** Access times *)

Import AbstractReplacementPolicy.

Section times.
Context (sets assoc : Z).

Definition base_ok (p : AbstractReplacementPolicy.t) : Prop :=
  m_num_sets p = sets ∧ m_assoc p = assoc ∧ Z.of_nat (length (m_last_ref_ptr p)) = sets ∧
  Forall (λ row, Z.of_nat (length row) = assoc) (m_last_ref_ptr p).

Lemma create_base_ok : 0 ≤ sets < 2 ^ 32 → 0 ≤ assoc < 2 ^ 32 → base_ok (create sets assoc).
Proof.
  intros Hs Ha. unfold base_ok, create. simpl. unfold u32. rewrite !uwrap_id by (unfold fits; lia).
  rewrite length_replicate. split_and!; [done|done|lia|].
  apply Forall_replicate. rewrite length_replicate. lia.
Qed.

Lemma base_row p set : base_ok p → 0 ≤ set < sets →
  ∃ row, vget (m_last_ref_ptr p) set = Ok row ∧ Z.of_nat (length row) = assoc.
Proof.
  intros (_ & _ & Hl & Hr) Hs. destruct (lookup_lt_is_Some_2 (m_last_ref_ptr p) (Z.to_nat set)) as [row Hrow]; [lia|].
  exists row. split; [apply vget_Ok; by split; [lia|]|]. by apply (proj1 (Forall_lookup _ _) Hr (Z.to_nat set)).
Qed.

Lemma check_Ok p set index : base_ok p → 0 ≤ set < sets → 0 ≤ index < assoc →
  check p set index = Ok tt.
Proof.
  intros (Hs & Ha & _) Hset Hi. unfold check. rewrite Hs, Ha, !bool_decide_eq_true_2 by done. done.
Qed.

Lemma record_spec p set index time : base_ok p → 0 ≤ set < sets → 0 ≤ index < assoc →
  ∃ p', record p set index time = Ok p' ∧ base_ok p' ∧
    ∀ s w, 0 ≤ s < sets → 0 ≤ w < assoc →
      getLastAccess p' s w = if decide (s = set ∧ w = index) then Ok time else getLastAccess p s w.
Proof.
  intros Hok Hset Hi. destruct (base_row p set Hok Hset) as (row & Hrow & Hlen).
  destruct Hok as (Hs & Ha & Hl & Hr). unfold record. rewrite Hrow. cbn [mbind outcome_bind].
  unfold vset. rewrite !decide_True by lia. cbn [mbind outcome_bind]. rewrite decide_True by lia.
  eexists. split; [done|]. split.
  - split_and!; simpl; [done|done|by rewrite length_insert|].
    apply Forall_insert; [done|]. by rewrite length_insert.
  - intros s w Hs' Hw. apply vget_Ok in Hrow as [_ Hrow]. unfold getLastAccess. simpl.
    rewrite !(vget_lookup _ s) by lia. destruct (decide (s = set)) as [->|].
    + rewrite list_lookup_insert_eq by lia. rewrite Hrow. cbn [from_option_or mbind outcome_bind].
      rewrite !vget_lookup by lia. destruct (decide (w = index)) as [->|].
      * by rewrite list_lookup_insert_eq, decide_True by (done || lia).
      * by rewrite list_lookup_insert_ne, decide_False by (tauto || lia).
    + by rewrite list_lookup_insert_ne, decide_False by (tauto || lia).
Qed.

(** ** Least recently used *)

Lemma lru_victim_least p set : base_ok p → 0 ≤ set < sets → 0 < assoc →
  ∃ v t, LRUPolicy.getVictim p set = Ok v ∧ 0 ≤ v < assoc ∧ getLastAccess p set v = Ok t ∧
    ∀ w u, 0 ≤ w < assoc → getLastAccess p set w = Ok u → t ≤ u ∧ (w < v → t < u).
Proof.
  intros Hok Hset Ha. destruct (base_row p set Hok Hset) as (row & Hrow & Hlen).
  unfold LRUPolicy.getVictim, getLastAccess. rewrite Hrow. cbn [mbind outcome_bind].
  destruct (vget_range row 0) as [x0 H0]; [lia|]. rewrite H0. cbn [mbind outcome_bind].
  set (step := λ st i, _). destruct Hok as (_ & -> & _).
  destruct (mfold_total (λ _ : Z * Z, True) step (seqZ 0 assoc) (0, x0)) as ([v t] & Hf & _); [|done|].
  { intros st i Hi%elem_of_seqZ _. destruct (vget_range row i) as [x Hx]; [lia|].
    unfold step. rewrite Hx. cbn [mbind outcome_bind]. eauto. }
  rewrite Hf. exists v, t. split; [done|].
  replace assoc with (Z.of_nat (Z.to_nat assoc)) in Hf by lia.
  apply (mfold_seqZ (λ k st, 0 ≤ st.1 ≤ Z.of_nat k ∧ st.1 < assoc ∧ vget row st.1 = Ok st.2 ∧
    ∀ w u, 0 ≤ w < Z.of_nat k → vget row w = Ok u → st.2 ≤ u ∧ (w < st.1 → st.2 < u))) in Hf
    as (Hv & Hva & Ht & Hall); simpl in *.
  - split_and!; [lia..|done|]. intros w u Hw. apply Hall. lia.
  - intros k [i s] st' Hk (Hi & Hia & Hs & Hinv) Hst. unfold step in Hst. simpl in *.
    apply bind_Ok in Hst as (y & Hy & [= <-]). case_decide; simpl.
    + split_and!; [lia..|done|]. intros w u Hw Hu.
      destruct (decide (w = Z.of_nat k)) as [->|]; [rewrite Hy in Hu; injection Hu as <-; lia|].
      destruct (Hinv w u); [lia|done|]. lia.
    + split_and!; [lia..|done|]. intros w u Hw Hu.
      destruct (decide (w = Z.of_nat k)) as [->|]; [|apply Hinv; [lia|done]].
      rewrite Hy in Hu. injection Hu as <-.
      lia.
  - split_and!; [lia..|done|]. intros w u Hw. lia.
Qed.

(** ** Pseudo least recently used *)

Lemma lru_victim_loop effective tree L : effective = 2 ^ L → ∀ (n : nat) index ti, Z.of_nat n ≤ L →
  ∃ index' ti', foldl (PseudoLRUPolicy.victim_level effective tree) (index, ti)
      (seqZ (L - Z.of_nat n) (Z.of_nat n)) = (index', ti') ∧ index ≤ index' < index + 2 ^ Z.of_nat n.
Proof.
  intros ->. induction n as [|n IH]; intros index ti Hn.
  { exists index, ti. split; [done|]. simpl. lia. }
  rewrite seqZ_cons by lia. cbn [foldl].
  replace (Z.succ (L - Z.of_nat (S n))) with (L - Z.of_nat n) by lia.
  replace (Z.pred (Z.of_nat (S n))) with (Z.of_nat n) by lia.
  assert (2 ^ Z.of_nat (S n) = 2 * 2 ^ Z.of_nat n) as E by (rewrite Nat2Z.inj_succ, Z.pow_succ_r by lia; lia).
  assert (Z.shiftr (2 ^ L) (L - Z.of_nat (S n) + 1) = 2 ^ Z.of_nat n) as Hs.
  { rewrite Z.shiftr_div_pow2 by lia. rewrite <- Z.pow_sub_r by lia. f_equal. lia. }
  unfold PseudoLRUPolicy.victim_level at 2. rewrite Hs. destruct (Z.testbit tree ti).
  - destruct (IH index (ti * 2 + 1)) as (i' & t' & -> & ?); [lia|]. exists i', t'. split; [done|lia].
  - destruct (IH (index + 2 ^ Z.of_nat n) (ti * 2 + 2)) as (i' & t' & -> & ?); [lia|].
    exists i', t'. split; [done|lia].
Qed.

Lemma touch_level_eq index tree ti i : 0 ≤ ti < 31 →
  PseudoLRUPolicy.touch_level index (tree, ti) i =
  Ok (if Z.testbit index i then (Z.lor tree (2 ^ ti), ti * 2 + 2)
      else (Z.land tree (not64 (2 ^ ti)), ti * 2 + 1)).
Proof.
  intros Hti. unfold PseudoLRUPolicy.touch_level, PseudoLRUPolicy.int_bit.
  rewrite decide_True by done. simpl. by destruct (Z.testbit index i).
Qed.

(** Below the root, [touch] leaves the bit of the root. *)
Lemma touch_loop index L : L ≤ 5 → ∀ (n : nat) tree ti, Z.of_nat n ≤ L →
  2 ^ (L - Z.of_nat n) - 1 ≤ ti ≤ 2 ^ (L - Z.of_nat n + 1) - 2 →
  ∃ tree' ti', mfold (PseudoLRUPolicy.touch_level index) (tree, ti) (reverse (seqZ 0 (Z.of_nat n)))
    = Ok (tree', ti') ∧ (1 ≤ ti → Z.testbit tree' 0 = Z.testbit tree 0).
Proof.
  intros HL. induction n as [|n IH]; intros tree ti Hn Hti.
  { by exists tree, ti. }
  rewrite seqZ_S, Z.add_0_l, reverse_snoc. cbn [mfold].
  set (d := L - Z.of_nat (S n)) in *. assert (0 ≤ d ≤ 4) as Hd by lia.
  assert (2 ^ (d + 1) = 2 * 2 ^ d) as E1 by (rewrite Z.pow_add_r by lia; lia).
  assert (2 ^ (d + 2) = 4 * 2 ^ d) as E2 by (rewrite Z.pow_add_r by lia; lia).
  assert (1 ≤ 2 ^ d ≤ 2 ^ 4) as Hp by (split; [apply (Z.pow_le_mono_r 2 0); lia|apply Z.pow_le_mono_r; lia]).
  assert (L - Z.of_nat n = d + 1) as Ed by lia. rewrite Ed in IH.
  replace (d + 1 + 1) with (d + 2) in IH by lia.
  rewrite touch_level_eq by lia. cbn [mbind outcome_bind].
  destruct (Z.testbit index (Z.of_nat n)); cbn [mbind outcome_bind].
  - destruct (IH (Z.lor tree (2 ^ ti)) (ti * 2 + 2)) as (tr & t' & -> & Hb); [lia|lia|].
    exists tr, t'. split; [done|]. intros H1. rewrite Hb by lia.
    rewrite Z.lor_spec, Z.pow2_bits_false, orb_false_r by lia. done.
  - destruct (IH (Z.land tree (not64 (2 ^ ti))) (ti * 2 + 1)) as (tr & t' & -> & Hb); [lia|lia|].
    exists tr, t'. split; [done|]. intros H1. rewrite Hb by lia.
    rewrite Z.land_spec, not64_testbit, Z.pow2_bits_false by lia. simpl. by rewrite andb_true_r.
Qed.

Lemma testbit_top x L : 1 ≤ L → 0 ≤ x < 2 ^ L →
  Z.testbit x (L - 1) = bool_decide (2 ^ (L - 1) ≤ x).
Proof.
  intros HL Hx. assert (2 ^ L = 2 * 2 ^ (L - 1)) as E by (rewrite <- Z.pow_succ_r by lia; f_equal; lia).
  rewrite Z.testbit_eqb by lia. case_bool_decide.
  - replace (x / 2 ^ (L - 1)) with 1 by (apply (Z.div_unique_pos _ _ _ (x - 2 ^ (L - 1))); lia). done.
  - by rewrite Z.div_small by lia.
Qed.

(** The tree has [L] levels, the least number that covers the ways. *)
Definition pseudo_ok (p : PseudoLRUPolicy.t) : Prop :=
  base_ok (PseudoLRUPolicy.base p) ∧
  Z.of_nat (length (PseudoLRUPolicy.m_trees p)) = sets ∧
  ∃ L, PseudoLRUPolicy.m_num_levels p = L ∧ PseudoLRUPolicy.m_effective_assoc p = 2 ^ L ∧
    1 ≤ L ≤ 5 ∧ 2 ^ (L - 1) < assoc ≤ 2 ^ L.

(** [touch] sets the root of the tree to the top bit of the way. *)
Lemma pseudo_touch_spec p set way time : pseudo_ok p → 0 ≤ set < sets → 0 ≤ way < assoc →
  ∃ p' tree, PseudoLRUPolicy.touch p set way time = Ok p' ∧ pseudo_ok p' ∧
    vget (PseudoLRUPolicy.m_trees p') set = Ok tree ∧
    PseudoLRUPolicy.m_num_levels p' = PseudoLRUPolicy.m_num_levels p ∧
    Z.testbit tree 0 = Z.testbit way (PseudoLRUPolicy.m_num_levels p - 1) ∧
    ∀ s w, 0 ≤ s < sets → 0 ≤ w < assoc →
      PseudoLRUPolicy.getLastAccess p' s w =
      if decide (s = set ∧ w = way) then Ok time else PseudoLRUPolicy.getLastAccess p s w.
Proof.
  intros (Hb & Ht & L & HL & HE & HL5 & Ha) Hset Hway. unfold PseudoLRUPolicy.touch.
  rewrite check_Ok by done. cbn [mbind outcome_bind].
  destruct (vget_range (PseudoLRUPolicy.m_trees p) set) as [tree Htree]; [lia|].
  rewrite Htree, HL. cbn [mbind outcome_bind].
  assert (seqZ 0 L = seqZ 0 (L - 1) ++ [L - 1]) as ->.
  { replace L with (Z.of_nat (S (Z.to_nat (L - 1)))) at 1 by lia.
    by rewrite seqZ_S, Z.add_0_l, Z2Nat.id by lia. }
  rewrite reverse_snoc. cbn [mfold].
  rewrite touch_level_eq by lia. cbn [mbind outcome_bind].
  set (st := if Z.testbit way (L - 1) then _ else _).
  assert (∃ t0 k, st = (t0, k) ∧ 1 ≤ k ≤ 2 ∧ Z.testbit t0 0 = Z.testbit way (L - 1)) as (t0 & k & -> & Hk & Hbit).
  { unfold st. destruct (Z.testbit way (L - 1)); eexists _, _; (split; [done|]); (split; [lia|]).
    - rewrite Z.lor_spec. apply orb_true_r.
    - by rewrite Z.land_spec, not64_testbit, andb_false_r. }
  cbn [mbind outcome_bind].
  destruct (touch_loop way L ltac:(lia) (Z.to_nat (L - 1)) t0 k) as (t1 & k1 & Hf & Hroot); [lia| |].
  { replace (L - Z.of_nat (Z.to_nat (L - 1))) with 1 by lia. simpl. lia. }
  replace (Z.of_nat (Z.to_nat (L - 1))) with (L - 1) in Hf by lia.
  rewrite Hf. cbn [mbind outcome_bind fst].
  unfold vset. rewrite decide_True by lia. cbn [mbind outcome_bind].
  destruct (record_spec (PseudoLRUPolicy.base p) set way time Hb Hset Hway) as (b' & -> & Hb' & Hlast).
  cbn [mbind outcome_bind]. eexists _, t1. split; [done|]. split_and!.
  - split; [exact Hb'|]. split; [simpl; by rewrite length_insert|]. by exists L.
  - simpl. rewrite vget_lookup, list_lookup_insert_eq by lia. done.
  - done.
  - rewrite Hroot by lia. done.
  - exact Hlast.
Qed.

(** The victim is on the side of the root its bit does not point to. *)
Lemma pseudo_victim_side p set tree : pseudo_ok p → 0 ≤ set < sets →
  vget (PseudoLRUPolicy.m_trees p) set = Ok tree →
  ∃ v, PseudoLRUPolicy.getVictim p set = Ok v ∧ 0 ≤ v < assoc ∧
    if Z.testbit tree 0 then v < 2 ^ (PseudoLRUPolicy.m_num_levels p - 1)
    else 2 ^ (PseudoLRUPolicy.m_num_levels p - 1) ≤ v.
Proof.
  intros (Hb & Ht & L & HL & HE & HL5 & Ha) Hset Htree. unfold PseudoLRUPolicy.getVictim.
  rewrite Htree, HL, HE. cbn [mbind outcome_bind]. rewrite seqZ_cons by lia. cbn [foldl].
  assert (2 ^ L = 2 * 2 ^ (L - 1)) as E by (rewrite <- Z.pow_succ_r by lia; f_equal; lia).
  assert (Z.shiftr (2 ^ L) (0 + 1) = 2 ^ (L - 1)) as Hs.
  { rewrite Z.shiftr_div_pow2 by lia. rewrite <- Z.pow_sub_r by lia. f_equal. }
  unfold PseudoLRUPolicy.victim_level at 2. rewrite Hs.
  assert (∃ i0 k, (if Z.testbit tree 0 then (0, 0 * 2 + 1) else (0 + 2 ^ (L - 1), 0 * 2 + 2)) = (i0, k) ∧
    i0 = if Z.testbit tree 0 then 0 else 2 ^ (L - 1)) as (i0 & k & -> & Hi0).
  { destruct (Z.testbit tree 0); eexists _, _; split; done || lia. }
  destruct (lru_victim_loop (2 ^ L) tree L eq_refl (Z.to_nat (L - 1)) i0 k) as (i1 & k1 & Hf & Hi1); [lia|].
  rewrite Z2Nat.id in Hf, Hi1 by lia. replace (L - (L - 1)) with (Z.succ 0) in Hf by lia.
  replace (L - 1) with (Z.pred L) in Hf by lia. rewrite Hf.
  assert (0 ≤ i1 < 2 ^ L) as Hr by (destruct (Z.testbit tree 0); lia).
  rewrite bool_decide_eq_true_2 by lia. cbn [assert_that mbind outcome_bind].
  destruct Hb as (_ & -> & _). eexists. split; [done|].
  case_decide; destruct (Z.testbit tree 0); lia.
Qed.

End times.

(** The way accessed last is not the victim. *)
Lemma pseudo_spares sets assoc p set way time : pseudo_ok sets assoc p →
  0 ≤ set < sets → 0 ≤ way < assoc →
  ∃ p' v, PseudoLRUPolicy.touch p set way time = Ok p' ∧ PseudoLRUPolicy.getVictim p' set = Ok v ∧
    0 ≤ v < assoc ∧ v ≠ way.
Proof.
  intros Hok Hs Hw.
  destruct (pseudo_touch_spec sets assoc p set way time Hok Hs Hw) as (p' & tree & Ht & Hok1 & Htree & Hlev & Hroot & _).
  destruct (pseudo_victim_side sets assoc p' set tree Hok1 Hs Htree) as (v & Hv & Hr & Hside).
  exists p', v. split_and!; [done|done|lia|lia|]. intros ->.
  destruct Hok as (_ & _ & L & HL & _ & HL5 & Ha).
  rewrite HL in Hroot. rewrite Hlev, HL, Hroot in Hside.
  rewrite (testbit_top way L) in Hside by lia. case_bool_decide; lia.
Qed.

#[global] Instance lru_laws : PolicyLaws AbstractReplacementPolicy.t.
Proof.
  refine {| policy_ok := λ sets assoc p, base_ok sets assoc p ∧ 0 < assoc |}.
  - intros sets assoc p set way time [Hok Ha] Hs Hw. simpl. unfold LRUPolicy.touch.
    rewrite (check_Ok sets assoc) by done. cbn [mbind outcome_bind].
    destruct (record_spec sets assoc p set way time Hok Hs Hw) as (p' & -> & ? & ?). eauto.
  - intros sets assoc p set [Hok Ha] Hs. simpl.
    destruct (lru_victim_least sets assoc p set Hok Hs Ha) as (v & t & -> & ? & _). eauto.
  - intros sets assoc p set way time p' other last [Hok Ha] Hs Hw Ht Ho Hne Hlast Hlt Hv. simpl in *.
    unfold LRUPolicy.touch in Ht. rewrite (check_Ok sets assoc) in Ht by done. cbn [mbind outcome_bind] in Ht.
    destruct (record_spec sets assoc p set way time Hok Hs Hw) as (p1 & Hr & Hok1 & Hacc).
    rewrite Hr in Ht. injection Ht as ->.
    destruct (lru_victim_least sets assoc p' set Hok1 Hs Ha) as (v & t & Hv' & _ & Hvt & Hmin).
    rewrite Hv in Hv'. injection Hv' as <-. rewrite Hacc, decide_True in Hvt by done. injection Hvt as <-.
    destruct (Hmin other last Ho) as [? _]; [|lia]. rewrite Hacc, decide_False by (tauto || done). done.
Defined.

#[global] Instance pseudo_lru_laws : PolicyLaws PseudoLRUPolicy.t.
Proof.
  refine {| policy_ok := pseudo_ok |}.
  - intros sets assoc p set way time Hok Hs Hw. simpl.
    destruct (pseudo_touch_spec sets assoc p set way time Hok Hs Hw) as (p' & tree & -> & ? & _ & _ & _ & ?). eauto.
  - intros sets assoc p set Hok Hs. simpl.
    destruct (vget_range (PseudoLRUPolicy.m_trees p) set) as [tree Htree]; [destruct Hok as (_ & -> & _); lia|].
    destruct (pseudo_victim_side sets assoc p set tree Hok Hs Htree) as (v & -> & ? & _). eauto.
  - intros sets assoc p set way time p' other last Hok Hs Hw Ht _ _ _ _ Hv. simpl in *.
    destruct (pseudo_spares sets assoc p set way time Hok Hs Hw) as (p1 & v & Ht' & Hv' & _ & Hne).
    rewrite Ht in Ht'. injection Ht' as <-. rewrite Hv in Hv'. by injection Hv' as <-.
Defined.

(** ** Properties *)

Lemma round_up_step fuel e assoc : 0 < e ≤ 16 → e < assoc →
  PseudoLRUPolicy.round_up (S fuel) e assoc = PseudoLRUPolicy.round_up fuel (2 * e) assoc.
Proof.
  intros He Ha. cbn [PseudoLRUPolicy.round_up]. rewrite decide_True by done. f_equal.
  unfold u32. apply uwrap_id. unfold fits. lia.
Qed.

Lemma round_up_done fuel e assoc : assoc ≤ e → PseudoLRUPolicy.round_up (S fuel) e assoc = Ok e.
Proof. intros Ha. cbn [PseudoLRUPolicy.round_up]. by rewrite decide_False by lia. Qed.

Lemma pseudo_create_ok sets assoc : 0 < sets < 2 ^ 32 → 1 < assoc ≤ 32 →
  ∃ p, PseudoLRUPolicy.create sets assoc = Ok p ∧ pseudo_ok sets assoc p.
Proof.
  intros Hs Ha. unfold PseudoLRUPolicy.create. rewrite bool_decide_eq_true_2 by lia.
  cbn [assert_that mbind outcome_bind].
  assert (∃ L, PseudoLRUPolicy.round_up 6 1 assoc = Ok (2 ^ L) ∧
    PseudoLRUPolicy.count_levels 6 (2 ^ L) 0 = Ok L ∧ 1 ≤ L ≤ 5 ∧ 2 ^ (L - 1) < assoc ≤ 2 ^ L)
    as (L & -> & Hc & HL & HaL).
  { destruct (decide (assoc ≤ 2)); [exists 1|destruct (decide (assoc ≤ 4)); [exists 2|
      destruct (decide (assoc ≤ 8)); [exists 3|destruct (decide (assoc ≤ 16)); [exists 4|exists 5]]]];
      (split_and!; [|reflexivity|lia..]);
      do 6 first [rewrite round_up_step by lia|rewrite round_up_done by lia|idtac]; reflexivity. }
  cbn [mbind outcome_bind]. rewrite Hc. cbn [mbind outcome_bind].
  rewrite bool_decide_eq_true_2 by lia. cbn [assert_that mbind outcome_bind].
  eexists. split; [done|]. split; [apply create_base_ok; lia|]. split; [|by exists L].
  simpl. unfold u32. rewrite uwrap_id, length_replicate by (unfold fits; lia). lia.
Qed.

(** A sequence of accesses: set, way and time. *)
Definition touches {T} `{ReplacementPolicy T} (p : T) (l : list (Z * Z * Z)) : outcome T :=
  mfold (λ p a, policy_touch p a.1.1 a.1.2 a.2) p l.

Lemma touches_ok {T} `{PolicyLaws T} sets assoc (p : T) l : policy_ok sets assoc p →
  Forall (λ a : Z * Z * Z, 0 ≤ a.1.1 < sets ∧ 0 ≤ a.1.2 < assoc) l →
  ∃ p', touches p l = Ok p' ∧ policy_ok sets assoc p'.
Proof.
  intros Hp Hl. apply (mfold_total (policy_ok sets assoc)); [|done].
  intros q a Ha Hq. rewrite Forall_forall in Hl. destruct (Hl a Ha) as [? ?].
  destruct (policy_touch_ok sets assoc q a.1.1 a.1.2 a.2) as (q' & ? & ? & _); eauto.
Qed.

(** The least-recently-used victim of a set, after any accesses, is the way
    with the oldest access time, the first such way. *)
Theorem lru_victim_oldest sets assoc accesses set :
  0 < sets < 2 ^ 32 → 0 < assoc < 2 ^ 32 → 0 ≤ set < sets →
  Forall (λ a : Z * Z * Z, 0 ≤ a.1.1 < sets ∧ 0 ≤ a.1.2 < assoc) accesses →
  ∃ p0 p v t, LRUPolicy.create sets assoc = Ok p0 ∧ touches p0 accesses = Ok p ∧
    LRUPolicy.getVictim p set = Ok v ∧ 0 ≤ v < assoc ∧ getLastAccess p set v = Ok t ∧
    ∀ w u, 0 ≤ w < assoc → getLastAccess p set w = Ok u → t ≤ u ∧ (w < v → t < u).
Proof.
  intros Hs Ha Hset Hacc.
  destruct (touches_ok sets assoc (create sets assoc) accesses) as (p & Hp & Hok & _);
    [split; [apply create_base_ok|]; lia|done|].
  destruct (lru_victim_least sets assoc p set) as (v & t & ? & ? & ? & ?); [done|lia|lia|].
  by exists (create sets assoc), p, v, t.
Qed.

Lemma lru_victim_oldest_witness : ∃ p0 p v t, LRUPolicy.create 4 2 = Ok p0 ∧
  touches p0 [(1, 0, 5); (1, 1, 7); (1, 0, 9)] = Ok p ∧
  LRUPolicy.getVictim p 1 = Ok v ∧ 0 ≤ v < 2 ∧ getLastAccess p 1 v = Ok t ∧
  ∀ w u, 0 ≤ w < 2 → getLastAccess p 1 w = Ok u → t ≤ u ∧ (w < v → t < u).
Proof.
  apply (lru_victim_oldest 4 2 [(1, 0, 5); (1, 1, 7); (1, 0, 9)] 1); [lia|lia|lia|].
  repeat constructor; simpl; lia.
Defined.

(** The pseudo-least-recently-used policy accepts two to 32 ways, power of
    two or not; after any accesses its asserts hold and the victim of a set is
    one of its ways, never the one accessed last in that set. *)
Theorem pseudo_lru_victim sets assoc accesses set way time :
  0 < sets < 2 ^ 32 → 1 < assoc ≤ 32 → 0 ≤ set < sets → 0 ≤ way < assoc →
  Forall (λ a : Z * Z * Z, 0 ≤ a.1.1 < sets ∧ 0 ≤ a.1.2 < assoc) accesses →
  ∃ p0 p p' v, PseudoLRUPolicy.create sets assoc = Ok p0 ∧ touches p0 accesses = Ok p ∧
    PseudoLRUPolicy.touch p set way time = Ok p' ∧
    PseudoLRUPolicy.getVictim p' set = Ok v ∧ 0 ≤ v < assoc ∧ v ≠ way.
Proof.
  intros Hs Ha Hset Hway Hacc. destruct (pseudo_create_ok sets assoc Hs Ha) as (p0 & Hp0 & Hok0).
  destruct (touches_ok sets assoc p0 accesses) as (p & Hp & Hok); [exact Hok0|exact Hacc|]. exists p0, p.
  destruct (pseudo_spares sets assoc p set way time Hok Hset Hway) as (p' & v & ? & ? & ? & ?).
  by exists p', v.
Qed.

(** Three ways are not a power of two. *)
Lemma pseudo_lru_victim_witness : ∃ p0 p p' v, PseudoLRUPolicy.create 4 3 = Ok p0 ∧
  touches p0 [(1, 0, 5); (1, 1, 7)] = Ok p ∧ PseudoLRUPolicy.touch p 1 2 9 = Ok p' ∧
  PseudoLRUPolicy.getVictim p' 1 = Ok v ∧ 0 ≤ v < 3 ∧ v ≠ 2.
Proof.
  apply (pseudo_lru_victim 4 3 [(1, 0, 5); (1, 1, 7)] 1 2 9); [lia|lia|lia|lia|].
  repeat constructor; simpl; lia.
Defined.
