(* ===== verification/Caches.v ===== *)
(** * Cache arrays (structures/CacheMemory.hh, .cc, BankedArray.hh, .cc;
      slicc_interface/AbstractEntry.hh, .cc, AbstractCacheEntry.hh, .cc)

    A [CacheMemory] is an array of sets of ways with an index from line
    addresses to ways, and a replacement policy.  What a protocol keeps in an
    entry is a parameter.  The code hands out pointers to its entries; what a
    protocol does through such a pointer is [update_entry]. *)

From stdpp Require Import strings.
From S2P Require Import Prelude IntMath Addresses Policies.
Local Open Scope Z_scope.

Inductive AccessPermission : Set :=
  | Read_Only | Read_Write | Maybe_Stale | Backing_Store | Invalid | NotPresent | Busy.

#[global] Instance AccessPermission_eq_dec : EqDecision AccessPermission.
Proof. solve_decision. Defined.

Inductive RubyRequestType : Set :=
  | LD | ST | ATOMIC | IFETCH | IO | REPLACEMENT | Load_Linked | Store_Conditional
  | RMW_Read | RMW_Write | Locked_RMW_Read | Locked_RMW_Write | LD_APPROX | ST_APPROX
  | LD_SHARED | ST_SHARED | COMMIT | NULL | FLUSH.

#[global] Instance RubyRequestType_eq_dec : EqDecision RubyRequestType.
Proof. solve_decision. Defined.

Inductive CacheRequestType : Set := DataArrayRead | DataArrayWrite | TagArrayRead | TagArrayWrite.
Inductive CacheResourceType : Set := DataArray | TagArray.

Module BankedArray.

Record AccessRecord := mkRecord { idx : Z; startAccess : Z; endAccess : Z }.

(** [bankBits] and [startIndexBit] are never read. *)
Record t := mk { banks : Z; accessLatency : Z; busyBanks : list AccessRecord }.

Definition create (banks accessLatency : Z) : t :=
  mk banks accessLatency (replicate (Z.to_nat banks) (mkRecord 0 0 0)).

(** An [int64] index that is not negative. *)
Definition mapIndexToBank (a : t) (i : Z) : Z :=
  if decide (banks a = 1) then 0 else u32 (i `mod` banks a).

(** [now] is [curTick()], [period] the clock period of the system. *)
Definition tryAccess (now period : Z) (a : t) (i : Z) : outcome (bool * t) :=
  if decide (accessLatency a = 0) then Ok (true, a)
  else
    let bank := mapIndexToBank a i in
    assert_that (bool_decide (bank < banks a));;
    r ← vget (busyBanks a) bank;
    if decide (now ≤ endAccess r) then
      Ok (bool_decide (startAccess r = now ∧ idx r = i), a)
    else
      l ← vset (busyBanks a) bank
            (mkRecord i now (u64 (now + u64 (u64 (accessLatency a - 1) * period))));
      Ok (true, mk (banks a) (accessLatency a) l).

End BankedArray.

Module AbstractCacheEntry.

(** The fields of the two base classes, and what the protocol adds. *)
Record t (Data : Type) := mk {
  m_Permission : AccessPermission;
  m_Address : Z;
  m_locked : Z;
  data : Data }.
Arguments mk {Data}.
Arguments m_Permission {Data}.
Arguments m_Address {Data}.
Arguments m_locked {Data}.
Arguments data {Data}.

Definition create {Data} (d : Data) : t Data := mk NotPresent 0 (-1) d.

Definition getPermission {Data} (e : t Data) : AccessPermission := m_Permission e.

Definition changePermission {Data} (e : t Data) (new_perm : AccessPermission) : t Data :=
  mk new_perm (m_Address e)
     (if decide (new_perm = Invalid ∨ new_perm = NotPresent) then -1 else m_locked e) (data e).

Definition set_locked {Data} (e : t Data) (context : Z) : t Data :=
  mk (m_Permission e) (m_Address e) context (data e).

(** A write to the fields of the protocol. *)
Definition set_data {Data} (e : t Data) (d : Data) : t Data :=
  mk (m_Permission e) (m_Address e) (m_locked e) d.

End AbstractCacheEntry.

(** ** The dynamic choice of the policy *)

Inductive policy_ptr : Type :=
  | Lru (p : AbstractReplacementPolicy.t)
  | PseudoLru (p : PseudoLRUPolicy.t).

#[global] Instance policy_ptr_policy : ReplacementPolicy policy_ptr := {
  policy_touch p set way time :=
    match p with
    | Lru p => p ← policy_touch p set way time; Ok (Lru p)
    | PseudoLru p => p ← policy_touch p set way time; Ok (PseudoLru p)
    end;
  policy_getVictim p set :=
    match p with Lru p => policy_getVictim p set | PseudoLru p => policy_getVictim p set end;
  policy_getLastAccess p set way :=
    match p with
    | Lru p => policy_getLastAccess p set way
    | PseudoLru p => policy_getLastAccess p set way
    end }.

Module CacheMemory.

Record params := mkParams {
  size : Z; latency : Z; assoc : Z; replacement_policy : string; start_index_bit : Z;
  is_icache : bool; resourceStalls : bool;
  dataArrayBanks : Z; dataAccessLatency : Z; tagArrayBanks : Z; tagAccessLatency : Z }.

(** The counters that [recordRequestType] and [checkResourceAvailable] keep. *)
Record stats := mkStats {
  numDataArrayReads : Z; numDataArrayWrites : Z; numTagArrayReads : Z; numTagArrayWrites : Z;
  numTagArrayStalls : Z; numDataArrayStalls : Z }.

Record t (T Data : Type) := mk {
  m_cache_size : Z;
  m_latency : Z;
  m_cache_assoc : Z;
  m_start_index_bit : Z;
  m_is_instruction_only_cache : bool;
  m_resource_stalls : bool;
  m_cache_num_sets : Z;
  m_cache_num_set_bits : Z;
  m_replacementPolicy_ptr : T;
  m_tag_index : gmap Z Z;
  m_cache : list (list (option (AbstractCacheEntry.t Data)));
  dataArray : BankedArray.t;
  tagArray : BankedArray.t;
  counters : stats }.
Arguments mk {T Data}.
Arguments m_cache_size {T Data}.
Arguments m_latency {T Data}.
Arguments m_cache_assoc {T Data}.
Arguments m_start_index_bit {T Data}.
Arguments m_is_instruction_only_cache {T Data}.
Arguments m_resource_stalls {T Data}.
Arguments m_cache_num_sets {T Data}.
Arguments m_cache_num_set_bits {T Data}.
Arguments m_replacementPolicy_ptr {T Data}.
Arguments m_tag_index {T Data}.
Arguments m_cache {T Data}.
Arguments dataArray {T Data}.
Arguments tagArray {T Data}.
Arguments counters {T Data}.

(** The constructor and [init]. *)
Definition create_policy (policy : string) (num_sets assoc : Z) : outcome policy_ptr :=
  if decide (policy = "PSEUDO_LRU"%string) then
    p ← PseudoLRUPolicy.create num_sets assoc; Ok (PseudoLru p)
  else if decide (policy = "LRU"%string) then p ← LRUPolicy.create num_sets assoc; Ok (Lru p)
  else Err AssertFail.

Definition create {Data} (sys : RubySystem.t) (p : params) : outcome (t policy_ptr Data) :=
  let num_sets := (size p `div` assoc p) `div` RubySystem.getBlockSizeBytes sys in
  assert_that (bool_decide (1 < num_sets));;
  set_bits ← IntMath.floorLog2_int num_sets;
  assert_that (bool_decide (0 < set_bits));;
  policy ← create_policy (replacement_policy p) num_sets (assoc p);
  Ok (mk (size p) (latency p) (assoc p) (start_index_bit p) (is_icache p) (resourceStalls p)
        num_sets set_bits policy ∅
        (replicate (Z.to_nat num_sets) (replicate (Z.to_nat (assoc p)) None))
        (BankedArray.create (dataArrayBanks p) (dataAccessLatency p))
        (BankedArray.create (tagArrayBanks p) (tagAccessLatency p)) (mkStats 0 0 0 0 0 0)).

Section operations.
Context {T Data : Type} `{ReplacementPolicy T} (sys : RubySystem.t).
Implicit Types (c : t T Data) (e : AbstractCacheEntry.t Data).

(** *** Updates of the fields *)

Definition with_policy c (p : T) : t T Data :=
  mk (m_cache_size c) (m_latency c) (m_cache_assoc c) (m_start_index_bit c)
     (m_is_instruction_only_cache c) (m_resource_stalls c) (m_cache_num_sets c)
     (m_cache_num_set_bits c) p (m_tag_index c) (m_cache c) (dataArray c) (tagArray c) (counters c).
Definition with_tags c (tags : gmap Z Z) : t T Data :=
  mk (m_cache_size c) (m_latency c) (m_cache_assoc c) (m_start_index_bit c)
     (m_is_instruction_only_cache c) (m_resource_stalls c) (m_cache_num_sets c)
     (m_cache_num_set_bits c) (m_replacementPolicy_ptr c) tags (m_cache c)
     (dataArray c) (tagArray c) (counters c).
Definition with_cache c (l : list (list (option (AbstractCacheEntry.t Data)))) : t T Data :=
  mk (m_cache_size c) (m_latency c) (m_cache_assoc c) (m_start_index_bit c)
     (m_is_instruction_only_cache c) (m_resource_stalls c) (m_cache_num_sets c)
     (m_cache_num_set_bits c) (m_replacementPolicy_ptr c) (m_tag_index c) l
     (dataArray c) (tagArray c) (counters c).
Definition with_arrays c (da ta : BankedArray.t) (s : stats) : t T Data :=
  mk (m_cache_size c) (m_latency c) (m_cache_assoc c) (m_start_index_bit c)
     (m_is_instruction_only_cache c) (m_resource_stalls c) (m_cache_num_sets c)
     (m_cache_num_set_bits c) (m_replacementPolicy_ptr c) (m_tag_index c) (m_cache c) da ta s.

(** [m_cache[set][way]] and its update. *)
Definition slot c (set way : Z) : outcome (option (AbstractCacheEntry.t Data)) :=
  row ← vget (m_cache c) set; vget row way.
Definition set_slot c (set way : Z) (o : option (AbstractCacheEntry.t Data)) : outcome (t T Data) :=
  row ← vget (m_cache c) set; row ← vset row way o; l ← vset (m_cache c) set row;
  Ok (with_cache c l).

(** [m_cache[set][way]->...] *)
Definition entry_at c (set way : Z) : outcome (AbstractCacheEntry.t Data) :=
  o ← slot c set way; from_option_or NullDeref o.

(** [assert(address == line_address(address))] *)
Definition assert_line (address : Z) : outcome unit :=
  assert_that (bool_decide (address = Address.line_address sys address)).

(** *** Finding lines *)

Definition addressToCacheSet c (address : Z) : outcome Z :=
  assert_line address;;
  Address.bitSelect address (m_start_index_bit c) (m_start_index_bit c + m_cache_num_set_bits c - 1).

Definition findTagInSet c (cacheSet tag : Z) : outcome Z :=
  assert_line tag;;
  match m_tag_index c !! tag with
  | Some i =>
      e ← entry_at c cacheSet i;
      Ok (if decide (AbstractCacheEntry.m_Permission e = NotPresent) then -1 else i)
  | None => Ok (-1)
  end.

Definition findTagInSetIgnorePermissions c (cacheSet tag : Z) : outcome Z :=
  assert_line tag;; Ok (default (-1) (m_tag_index c !! tag)).

(** The set and the way of an address; [None] when it is not found. *)
Definition locate c (address : Z) : outcome (option (Z * Z)) :=
  cacheSet ← addressToCacheSet c address;
  loc ← findTagInSet c cacheSet address;
  Ok (if decide (loc = -1) then None else Some (cacheSet, loc)).

Definition isTagPresent c (address : Z) : outcome bool :=
  assert_line address;; o ← locate c address; Ok (bool_decide (is_Some o)).

Definition lookup c (address : Z) : outcome (option (AbstractCacheEntry.t Data)) :=
  assert_line address;;
  o ← locate c address;
  match o with
  | Some (cacheSet, loc) => slot c cacheSet loc
  | None => Ok None
  end.

(** The loop of [cacheAvail] over the ways of a set. *)
Definition way_avail (address : Z) (o : option (AbstractCacheEntry.t Data)) : bool :=
  match o with
  | Some e => bool_decide (AbstractCacheEntry.m_Address e = address ∨
                           AbstractCacheEntry.m_Permission e = NotPresent)
  | None => true
  end.

Fixpoint any_way c (cacheSet : Z) (p : option (AbstractCacheEntry.t Data) → bool) (ways : list Z)
    : outcome (option Z) :=
  match ways with
  | [] => Ok None
  | i :: ways => o ← slot c cacheSet i; if p o then Ok (Some i) else any_way c cacheSet p ways
  end.

Definition cacheAvail c (address : Z) : outcome bool :=
  assert_line address;;
  cacheSet ← addressToCacheSet c address;
  o ← any_way c cacheSet (way_avail address) (seqZ 0 (m_cache_assoc c));
  Ok (bool_decide (is_Some o)).

(** *** Changing lines; [now] is [curTick()] *)

Definition touch (now : Z) c (cacheSet loc : Z) : outcome (t T Data) :=
  p ← policy_touch (m_replacementPolicy_ptr c) cacheSet loc now; Ok (with_policy c p).

Definition way_open (o : option (AbstractCacheEntry.t Data)) : bool :=
  match o with
  | Some e => bool_decide (AbstractCacheEntry.m_Permission e = NotPresent)
  | None => true
  end.

(** The entry as [allocate] leaves it. *)
Definition allocated (address : Z) e : AbstractCacheEntry.t Data :=
  AbstractCacheEntry.mk Invalid address (-1) (AbstractCacheEntry.data e).

Definition allocate (now : Z) c (address : Z) e : outcome (t T Data) :=
  assert_line address;;
  present ← isTagPresent c address;
  assert_that (negb present);;
  avail ← cacheAvail c address;
  assert_that avail;;
  cacheSet ← addressToCacheSet c address;
  o ← any_way c cacheSet way_open (seqZ 0 (m_cache_assoc c));
  match o with
  | Some i =>
      c ← set_slot c cacheSet i (Some (allocated address e));
      touch now (with_tags c (<[address := i]> (m_tag_index c))) cacheSet i
  | None => Err PanicFault
  end.

Definition deallocate c (address : Z) : outcome (t T Data) :=
  assert_line address;;
  present ← isTagPresent c address;
  assert_that present;;
  o ← locate c address;
  match o with
  | Some (cacheSet, loc) =>
      c ← set_slot c cacheSet loc None;
      Ok (with_tags c (delete address (m_tag_index c)))
  | None => Ok c
  end.

(** The loop of debug messages reads the address of every way. *)
Definition cacheProbe c (address : Z) : outcome Z :=
  assert_line address;;
  avail ← cacheAvail c address;
  assert_that (negb avail);;
  cacheSet ← addressToCacheSet c address;
  mfold (λ _ i, e ← entry_at c cacheSet i; Ok tt) tt (seqZ 0 (m_cache_assoc c));;
  victim ← policy_getVictim (m_replacementPolicy_ptr c) cacheSet;
  e ← entry_at c cacheSet victim;
  Ok (AbstractCacheEntry.m_Address e).

Definition tryCacheAccess (now : Z) c (address : Z) (type : RubyRequestType)
    : outcome (option Data * t T Data) :=
  assert_line address;;
  o ← locate c address;
  match o with
  | Some (cacheSet, loc) =>
      e ← entry_at c cacheSet loc;
      c ← touch now c cacheSet loc;
      if decide (AbstractCacheEntry.m_Permission e = Read_Write ∨
                 (AbstractCacheEntry.m_Permission e = Read_Only ∧ (type = LD ∨ type = IFETCH)))
      then Ok (Some (AbstractCacheEntry.data e), c)
      else Ok (None, c)
  | None => Ok (None, c)
  end.

Definition testCacheAccess (now : Z) c (address : Z) : outcome (bool * option Data * t T Data) :=
  assert_line address;;
  o ← locate c address;
  match o with
  | Some (cacheSet, loc) =>
      e ← entry_at c cacheSet loc;
      c ← touch now c cacheSet loc;
      e' ← entry_at c cacheSet loc;
      Ok (bool_decide (AbstractCacheEntry.m_Permission e' ≠ NotPresent),
          Some (AbstractCacheEntry.data e), c)
  | None => Ok (false, None, c)
  end.

Definition setMRU (now : Z) c (address : Z) : outcome (t T Data) :=
  o ← locate c address;
  match o with Some (cacheSet, loc) => touch now c cacheSet loc | None => Ok c end.

(** A change of the entry [lookup] points to. *)
Definition update_entry c (address : Z)
    (f : AbstractCacheEntry.t Data → AbstractCacheEntry.t Data) : outcome (t T Data) :=
  assert_line address;;
  o ← locate c address;
  match o with
  | Some (cacheSet, loc) => e ← entry_at c cacheSet loc; set_slot c cacheSet loc (Some (f e))
  | None => Err NullDeref
  end.

(** [assert(loc != -1)] *)
Definition locate_present c (address : Z) : outcome (Z * Z) :=
  assert_line address;; o ← locate c address; from_option_or AssertFail o.

Definition setLocked c (address context : Z) : outcome (t T Data) :=
  p ← locate_present c address;
  e ← entry_at c p.1 p.2;
  set_slot c p.1 p.2 (Some (AbstractCacheEntry.set_locked e context)).

Definition clearLocked c (address : Z) : outcome (t T Data) :=
  p ← locate_present c address;
  e ← entry_at c p.1 p.2;
  set_slot c p.1 p.2 (Some (AbstractCacheEntry.set_locked e (-1))).

Definition isLocked c (address context : Z) : outcome bool :=
  p ← locate_present c address;
  e ← entry_at c p.1 p.2;
  Ok (bool_decide (AbstractCacheEntry.m_locked e = context)).

(** The records of [recordCacheContents], in order: address, request type, time
    of the last access and data. *)
Definition record_type c (perm : AccessPermission) : RubyRequestType :=
  match perm with
  | Read_Only => if m_is_instruction_only_cache c then IFETCH else LD
  | Read_Write => ST
  | _ => NULL
  end.

Definition recordCacheContents c : outcome (list (Z * RubyRequestType * Z * Data)) :=
  mfold (λ acc i,
    mfold (λ acc j,
      o ← slot c i j;
      match o with
      | Some e =>
          let type := record_type c (AbstractCacheEntry.m_Permission e) in
          if decide (type = NULL) then Ok acc
          else
            time ← policy_getLastAccess (m_replacementPolicy_ptr c) i j;
            Ok (acc ++ [(AbstractCacheEntry.m_Address e, type, time, AbstractCacheEntry.data e)])
      | None => Ok acc
      end) acc (seqZ 0 (m_cache_assoc c))) [] (seqZ 0 (m_cache_num_sets c)).

Definition recordRequestType c (requestType : CacheRequestType) : t T Data :=
  let s := counters c in
  with_arrays c (dataArray c) (tagArray c)
    match requestType with
    | DataArrayRead => mkStats (numDataArrayReads s + 1) (numDataArrayWrites s) (numTagArrayReads s)
                         (numTagArrayWrites s) (numTagArrayStalls s) (numDataArrayStalls s)
    | DataArrayWrite => mkStats (numDataArrayReads s) (numDataArrayWrites s + 1) (numTagArrayReads s)
                         (numTagArrayWrites s) (numTagArrayStalls s) (numDataArrayStalls s)
    | TagArrayRead => mkStats (numDataArrayReads s) (numDataArrayWrites s) (numTagArrayReads s + 1)
                         (numTagArrayWrites s) (numTagArrayStalls s) (numDataArrayStalls s)
    | TagArrayWrite => mkStats (numDataArrayReads s) (numDataArrayWrites s) (numTagArrayReads s)
                         (numTagArrayWrites s + 1) (numTagArrayStalls s) (numDataArrayStalls s)
    end.

Definition checkResourceAvailable (now period : Z) c (res : CacheResourceType) (addr : Z)
    : outcome (bool * t T Data) :=
  if negb (m_resource_stalls c) then Ok (true, c)
  else
    set ← addressToCacheSet c addr;
    let s := counters c in
    match res with
    | TagArray =>
        r ← BankedArray.tryAccess now period (tagArray c) set;
        Ok (r.1, with_arrays c (dataArray c) r.2
          (mkStats (numDataArrayReads s) (numDataArrayWrites s) (numTagArrayReads s)
             (numTagArrayWrites s) (numTagArrayStalls s + (if r.1 : bool then 0 else 1))
             (numDataArrayStalls s)))
    | DataArray =>
        r ← BankedArray.tryAccess now period (dataArray c) set;
        Ok (r.1, with_arrays c r.2 (tagArray c)
          (mkStats (numDataArrayReads s) (numDataArrayWrites s) (numTagArrayReads s)
             (numTagArrayWrites s) (numTagArrayStalls s)
             (numDataArrayStalls s + (if r.1 : bool then 0 else 1))))
    end.

End operations.

End CacheMemory.

Import CacheMemory.

(** ** The dynamic policy meets the laws *)

#[global] Instance policy_ptr_laws : PolicyLaws policy_ptr.
Proof.
  refine {| policy_ok := λ sets assoc p,
    match p with Lru p => policy_ok sets assoc p | PseudoLru p => policy_ok sets assoc p end |}.
  - intros sets assoc [p|p] set way time Hok Hs Hw; cbn -[policy_touch policy_getLastAccess];
      destruct (policy_touch_ok sets assoc p set way time Hok Hs Hw) as (p' & Ht & ? & ?);
      cbn [policy_touch policy_ptr_policy]; rewrite Ht; eexists; (split; [done|]); done.
  - intros sets assoc [p|p] set Hok Hs; exact (policy_victim_range sets assoc p set Hok Hs).
  - intros sets assoc [p|p] set way time p' other last Hok Hs Hw Ht Ho Hne Hl Hlt;
      cbn [policy_touch policy_ptr_policy] in Ht; apply bind_Ok in Ht as (q & Hq & [= <-]);
      exact (policy_spares_touched sets assoc p set way time q other last Hok Hs Hw Hq Ho Hne Hl Hlt).
Defined.

(** ** The shape of a cache *)

Section cache.
Context {T Data : Type} `{PolicyLaws T} (sys : RubySystem.t).
Implicit Types (c : t T Data) (e : AbstractCacheEntry.t Data) (a b s w : Z).

Definition line a : Prop := fits 64 a ∧ a = Address.line_address sys a.

Definition shape_ok c : Prop :=
  Z.of_nat (length (m_cache c)) = m_cache_num_sets c ∧
  Forall (λ row, Z.of_nat (length row) = m_cache_assoc c) (m_cache c) ∧
  0 < m_cache_num_set_bits c ∧ 2 ^ m_cache_num_set_bits c ≤ m_cache_num_sets c ∧
  0 ≤ m_start_index_bit c < 64 ∧ 0 < m_cache_assoc c ∧
  policy_ok (m_cache_num_sets c) (m_cache_assoc c) (m_replacementPolicy_ptr c).

(** What is at a way, and the set of an address. *)
Definition at_way c s w : option (AbstractCacheEntry.t Data) :=
  m_cache c !! Z.to_nat s ≫= λ row, row !! Z.to_nat w ≫= id.
Definition set_of c a : Z :=
  (a `div` 2 ^ m_start_index_bit c) `mod` 2 ^ m_cache_num_set_bits c.

Lemma assert_line_Ok a : line a → assert_line sys a = Ok tt.
Proof. intros [_ Ha]. unfold assert_line. by rewrite bool_decide_eq_true_2. Qed.

Lemma addressToCacheSet_eq c a : shape_ok c → line a → addressToCacheSet sys c a = Ok (set_of c a).
Proof.
  intros (_ & _ & Hb & _ & Hst & _) Ha. unfold addressToCacheSet. rewrite assert_line_Ok by done.
  cbn [mbind outcome_bind]. rewrite bitSelect_spec by (apply Ha || lia).
  unfold set_of. repeat f_equal. lia.
Qed.

Lemma set_of_range c a : shape_ok c → 0 ≤ set_of c a < m_cache_num_sets c.
Proof.
  intros (_ & _ & Hb & Hs & _). unfold set_of.
  pose proof (Z.mod_pos_bound (a `div` 2 ^ m_start_index_bit c) (2 ^ m_cache_num_set_bits c)
    ltac:(apply Z.pow_pos_nonneg; lia)). lia.
Qed.

Lemma cache_row c s : shape_ok c → 0 ≤ s < m_cache_num_sets c →
  ∃ row, m_cache c !! Z.to_nat s = Some row ∧ Z.of_nat (length row) = m_cache_assoc c.
Proof.
  intros (Hl & Hr & _) Hs. destruct (lookup_lt_is_Some_2 (m_cache c) (Z.to_nat s)) as [row Hrow]; [lia|].
  exists row. split; [done|]. by apply (proj1 (Forall_lookup _ _) Hr (Z.to_nat s)).
Qed.

Lemma slot_eq c s w : shape_ok c → 0 ≤ s < m_cache_num_sets c → 0 ≤ w < m_cache_assoc c →
  slot c s w = Ok (at_way c s w).
Proof.
  intros Hc Hs Hw. destruct (cache_row c s Hc Hs) as (row & Hrow & Hlen). unfold slot, at_way.
  rewrite vget_lookup, Hrow by lia. cbn [from_option_or mbind outcome_bind option_bind].
  rewrite vget_lookup by lia. by destruct (lookup_lt_is_Some_2 row (Z.to_nat w)) as [o ->]; [lia|].
Qed.

Lemma set_slot_spec c s w o : shape_ok c → 0 ≤ s < m_cache_num_sets c → 0 ≤ w < m_cache_assoc c →
  ∃ l, set_slot c s w o = Ok (with_cache c l) ∧ shape_ok (with_cache c l) ∧
    ∀ s' w', 0 ≤ s' → 0 ≤ w' →
      at_way (with_cache c l) s' w' = if decide (s' = s ∧ w' = w) then o else at_way c s' w'.
Proof.
  intros Hc Hs Hw. destruct (cache_row c s Hc Hs) as (row & Hrow & Hlen). unfold set_slot.
  rewrite vget_lookup, Hrow by lia. cbn [from_option_or mbind outcome_bind].
  pose proof Hc as (Hl & Hr & Hrest). unfold vset.
  rewrite decide_True by lia. cbn [mbind outcome_bind]. rewrite decide_True by lia.
  cbn [mbind outcome_bind]. eexists. split; [done|]. split.
  - split_and!; simpl; [by rewrite length_insert| |apply Hrest..].
    apply Forall_insert; [done|]. by rewrite length_insert.
  - intros s' w' Hs' Hw'. unfold at_way. simpl. destruct (decide (s' = s)) as [->|].
    + rewrite list_lookup_insert_eq by lia. simpl. destruct (decide (w' = w)) as [->|].
      * rewrite list_lookup_insert_eq, decide_True by (done || lia). done.
      * rewrite list_lookup_insert_ne, decide_False by (tauto || lia). by rewrite Hrow.
    + by rewrite list_lookup_insert_ne, decide_False by (tauto || lia).
Qed.

Lemma touch_spec now c s w : shape_ok c → 0 ≤ s < m_cache_num_sets c → 0 ≤ w < m_cache_assoc c →
  ∃ p, touch now c s w = Ok (with_policy c p) ∧ shape_ok (with_policy c p).
Proof.
  intros (? & ? & ? & ? & ? & ? & Hp) Hs Hw. unfold touch.
  destruct (policy_touch_ok _ _ _ s w now Hp Hs Hw) as (p & -> & Hp' & _). cbn [mbind outcome_bind].
  exists p. split; [done|]. unfold shape_ok. simpl. tauto.
Qed.

(** ** The index and the ways agree *)

(** Every indexed address is at its way, and every entry is indexed and
    present. *)
Definition cache_ok c : Prop :=
  shape_ok c ∧
  (∀ a i, m_tag_index c !! a = Some i → line a ∧ 0 ≤ i < m_cache_assoc c ∧
     ∃ e, at_way c (set_of c a) i = Some e ∧ AbstractCacheEntry.m_Address e = a) ∧
  (∀ s w e, 0 ≤ s → 0 ≤ w → at_way c s w = Some e →
     AbstractCacheEntry.m_Permission e ≠ NotPresent ∧
     m_tag_index c !! AbstractCacheEntry.m_Address e = Some w ∧
     set_of c (AbstractCacheEntry.m_Address e) = s).

(** The cache as a partial map. *)
Definition contents_at c a : option (AbstractCacheEntry.t Data) :=
  m_tag_index c !! a ≫= λ i, at_way c (set_of c a) i.

Lemma contents_iff c a e : cache_ok c → contents_at c a = Some e ↔
  ∃ i, m_tag_index c !! a = Some i ∧ at_way c (set_of c a) i = Some e ∧
    AbstractCacheEntry.m_Address e = a ∧ AbstractCacheEntry.m_Permission e ≠ NotPresent.
Proof.
  intros (Hs & Ht & Hw). unfold contents_at. rewrite bind_Some. split.
  - intros (i & Hi & He). exists i. destruct (Ht a i Hi) as (_ & Hr & e' & He' & Ha).
    rewrite He in He'. injection He' as <-.
    destruct (Hw (set_of c a) i e) as [Hp _]; [apply set_of_range, Hs|lia|done|]. done.
  - intros (i & Hi & He & _). by exists i.
Qed.

Lemma contents_None c a : cache_ok c → contents_at c a = None ↔ m_tag_index c !! a = None.
Proof.
  intros (Hs & Ht & Hw). unfold contents_at. rewrite bind_None. split; [|by left].
  intros [?|(i & Hi & He)]; [done|]. destruct (Ht a i Hi) as (_ & _ & e & He' & _). congruence.
Qed.

Lemma locate_eq c a : cache_ok c → line a →
  locate sys c a = Ok ((λ i, (set_of c a, i)) <$> m_tag_index c !! a).
Proof.
  intros Hc Ha. pose proof Hc as (Hs & Ht & Hw). unfold locate.
  rewrite addressToCacheSet_eq by done. cbn [mbind outcome_bind]. unfold findTagInSet.
  rewrite assert_line_Ok by done. cbn [mbind outcome_bind].
  destruct (m_tag_index c !! a) as [i|] eqn:Hi; [|done].
  destruct (Ht a i Hi) as (_ & Hr & e & He & _).
  destruct (Hw (set_of c a) i e) as [Hp _]; [apply set_of_range, Hs|lia|done|].
  unfold entry_at. rewrite slot_eq, He by (done || by apply set_of_range).
  cbn [mbind outcome_bind from_option_or]. rewrite (decide_False (P := _ = NotPresent)) by done.
  cbn [mbind outcome_bind]. by rewrite decide_False by lia.
Qed.

Lemma isTagPresent_eq c a : cache_ok c → line a →
  isTagPresent sys c a = Ok (bool_decide (is_Some (contents_at c a))).
Proof.
  intros Hc Ha. unfold isTagPresent. rewrite assert_line_Ok, locate_eq by done.
  cbn [mbind outcome_bind]. f_equal. apply bool_decide_ext.
  rewrite <- !not_eq_None_Some, contents_None by done. destruct (m_tag_index c !! a); simpl; naive_solver.
Qed.

Lemma lookup_eq c a : cache_ok c → line a → lookup sys c a = Ok (contents_at c a).
Proof.
  intros Hc Ha. unfold lookup, contents_at. rewrite assert_line_Ok, locate_eq by done.
  cbn [mbind outcome_bind]. destruct (m_tag_index c !! a) as [i|] eqn:Hi; [|done].
  cbn [fmap option_fmap option_map mbind option_bind]. destruct Hc as (Hs & Ht & _).
  destruct (Ht a i Hi) as (_ & Hr & _). rewrite slot_eq by (done || by apply set_of_range). done.
Qed.

(** The first way of a set that passes a test. *)
Lemma any_way_spec c s (p : option (AbstractCacheEntry.t Data) → bool) ways :
  shape_ok c → 0 ≤ s < m_cache_num_sets c → (∀ w, w ∈ ways → 0 ≤ w < m_cache_assoc c) →
  ∃ o, any_way c s p ways = Ok o ∧
    match o with
    | Some w => w ∈ ways ∧ p (at_way c s w) = true
    | None => ∀ w, w ∈ ways → p (at_way c s w) = false
    end.
Proof.
  intros Hc Hs. induction ways as [|w ways IH]; intros Hw; simpl; [exists None; set_solver|].
  rewrite slot_eq by (done || apply Hw; set_solver). cbn [mbind outcome_bind].
  destruct (p (at_way c s w)) eqn:E; [exists (Some w); set_solver|].
  destruct IH as (o & -> & Ho); [set_solver|]. exists o. split; [done|].
  destruct o; [set_solver|]. intros w' [->|]%elem_of_cons; auto.
Qed.

Lemma cacheAvail_eq c a : cache_ok c → line a →
  ∃ r, cacheAvail sys c a = Ok r ∧
    (r = true ↔ is_Some (contents_at c a) ∨ ∃ w, 0 ≤ w < m_cache_assoc c ∧ at_way c (set_of c a) w = None).
Proof.
  intros Hc Ha. pose proof Hc as (Hs & Ht & Hw). unfold cacheAvail.
  rewrite assert_line_Ok, addressToCacheSet_eq by done. cbn [mbind outcome_bind].
  pose proof (set_of_range c a Hs) as Hset.
  destruct (any_way_spec c (set_of c a) (way_avail a) (seqZ 0 (m_cache_assoc c))) as (o & -> & Ho);
    [done|done|intros w; rewrite elem_of_seqZ; lia|].
  cbn [mbind outcome_bind]. eexists. split; [done|]. rewrite bool_decide_eq_true. split.
  - intros [w ->]. destruct Ho as [Hin%elem_of_seqZ Hp]. unfold way_avail in Hp.
    destruct (at_way c (set_of c a) w) as [e|] eqn:He; [left|right; exists w; split; [lia|done]].
    destruct (Hw _ w e (proj1 Hset) ltac:(lia) He) as (Hperm & Htag & _).
    apply bool_decide_eq_true in Hp as [<-|]; [|done]. exists e. apply contents_iff; [done|]. by exists w.
  - intros Hor. destruct o as [w|]; [done|]. exfalso. destruct Hor as [[e He]|(w & Hr & He)].
    + apply contents_iff in He as (i & Hi & He & Hadr & _); [|done]. destruct (Ht a i Hi) as (_ & Hr & _).
      specialize (Ho i). rewrite elem_of_seqZ, He in Ho. unfold way_avail in Ho.
      rewrite bool_decide_eq_true_2 in Ho by auto. specialize (Ho ltac:(lia)). done.
    + specialize (Ho w). rewrite elem_of_seqZ, He in Ho. specialize (Ho ltac:(lia)). done.
Qed.

(** Way [i] of the set of [a], free so far, gets an entry for [a]. *)
Lemma place_ok c a i e l p : cache_ok c → line a → contents_at c a = None →
  0 ≤ i < m_cache_assoc c → at_way c (set_of c a) i = None →
  AbstractCacheEntry.m_Permission e ≠ NotPresent → AbstractCacheEntry.m_Address e = a →
  (∀ s w, 0 ≤ s → 0 ≤ w → at_way (with_cache c l) s w =
     if decide (s = set_of c a ∧ w = i) then Some e else at_way c s w) →
  let c' := with_policy (with_tags (with_cache c l) (<[a := i]> (m_tag_index c))) p in
  shape_ok c' → cache_ok c' ∧
  ∀ b, contents_at c' b = if decide (b = a) then Some e else contents_at c b.
Proof.
  intros Hc Ha Hnone Hi Hfree Hp He Hat c' Hs'. pose proof Hc as (Hs & Ht & Hw).
  pose proof (set_of_range c a Hs) as Hset. apply contents_None in Hnone; [|done].
  assert (∀ b, set_of c' b = set_of c b) as Hso by done.
  assert (∀ s w, 0 ≤ s → 0 ≤ w → at_way c' s w =
    if decide (s = set_of c a ∧ w = i) then Some e else at_way c s w) as Hat' by exact Hat.
  split; [split; [exact Hs'|split]|].
  - intros b j Hj. simpl in Hj. rewrite Hso. apply lookup_insert_Some in Hj as [[<- <-]|[Hne Hj]].
    + split; [done|]. split; [done|]. exists e. rewrite Hat', decide_True by (done || lia). done.
    + destruct (Ht b j Hj) as (? & Hr & e' & He' & ?). split; [done|]. split; [done|]. exists e'.
      rewrite Hat' by (apply set_of_range, Hs || lia). case_decide as E; [|done].
      destruct E as [E1 E2]. rewrite E1, E2 in He'. congruence.
  - intros s w e' Hs0 Hw0 He'. rewrite Hat' in He' by done. simpl. rewrite Hso. case_decide as E.
    + destruct E as [-> ->]. injection He' as <-. rewrite He. by rewrite lookup_insert_eq.
    + destruct (Hw s w e' Hs0 Hw0 He') as (? & Htag & ?). split; [done|]. split; [|done].
      rewrite lookup_insert_ne; [done|]. intros Heq. rewrite <- Heq in Htag. congruence.
  - intros b. unfold contents_at. rewrite Hso. simpl. destruct (decide (b = a)) as [->|Hne].
    + rewrite lookup_insert_eq. simpl. rewrite Hat', decide_True by (done || lia). done.
    + rewrite lookup_insert_ne by done. destruct (m_tag_index c !! b) as [j|] eqn:Hj; [|done]. simpl.
      destruct (Ht b j Hj) as (_ & Hr & e' & He' & _).
      rewrite Hat' by (apply set_of_range, Hs || lia). case_decide as E; [|done].
      destruct E as [E1 E2]. rewrite E1, E2 in He'. congruence.
Qed.

Lemma allocate_spec now c a e : cache_ok c → line a → contents_at c a = None →
  (∃ w, 0 ≤ w < m_cache_assoc c ∧ at_way c (set_of c a) w = None) →
  ∃ c', allocate sys now c a e = Ok c' ∧ cache_ok c' ∧
    ∀ b, contents_at c' b = if decide (b = a) then Some (allocated a e) else contents_at c b.
Proof.
  intros Hc Ha Hnone Hroom. pose proof Hc as (Hs & Ht & Hw). unfold allocate.
  rewrite assert_line_Ok, isTagPresent_eq, Hnone by done. cbn [mbind outcome_bind].
  rewrite bool_decide_eq_false_2 by (by intros [? ?]). cbn [negb assert_that mbind outcome_bind].
  destruct (cacheAvail_eq c a Hc Ha) as (r & -> & Hr). rewrite (proj2 Hr) by auto.
  cbn [assert_that mbind outcome_bind]. rewrite addressToCacheSet_eq by done. cbn [mbind outcome_bind].
  pose proof (set_of_range c a Hs) as Hset.
  destruct (any_way_spec c (set_of c a) way_open (seqZ 0 (m_cache_assoc c))) as (o & -> & Ho);
    [done|done|intros w; rewrite elem_of_seqZ; lia|]. cbn [mbind outcome_bind].
  destruct o as [i|].
  2: { destruct Hroom as (w & Hwr & Hw0). specialize (Ho w). rewrite elem_of_seqZ, Hw0 in Ho.
       specialize (Ho ltac:(lia)). done. }
  destruct Ho as [Hi%elem_of_seqZ Hopen].
  assert (at_way c (set_of c a) i = None) as Hfree.
  { destruct (at_way c (set_of c a) i) as [e'|] eqn:He'; [|done]. simpl in Hopen.
    apply bool_decide_eq_true in Hopen. by destruct (Hw _ i e' (proj1 Hset) ltac:(lia) He') as [? _]. }
  destruct (set_slot_spec c (set_of c a) i (Some (allocated a e))) as (l & -> & Hs1 & Hat); [done|done|lia|].
  cbn [mbind outcome_bind]. change (m_tag_index (with_cache c l)) with (m_tag_index c).
  destruct (touch_spec now (with_tags (with_cache c l) (<[a := i]> (m_tag_index c))) (set_of c a) i)
    as (p & -> & Hs2); [exact Hs1|exact Hset|simpl; lia|].
  eexists. split; [done|]. apply (place_ok c a i (allocated a e) l p); try done.
Qed.

Lemma allocate_avail now c a e : cache_ok c → line a → contents_at c a = None →
  cacheAvail sys c a = Ok true →
  ∃ c', allocate sys now c a e = Ok c' ∧ cache_ok c' ∧
    ∀ b, contents_at c' b = if decide (b = a) then Some (allocated a e) else contents_at c b.
Proof.
  intros Hc Ha Hnone Hav. apply allocate_spec; [done|done|done|].
  destruct (cacheAvail_eq c a Hc Ha) as (r & Hr & Hiff). rewrite Hr in Hav. injection Hav as ->.
  destruct (proj1 Hiff eq_refl) as [[? ?]|]; [congruence|done].
Qed.

(** The entry of an address is removed. *)
Lemma deallocate_spec c a : cache_ok c → line a → is_Some (contents_at c a) →
  ∃ c', deallocate sys c a = Ok c' ∧ cache_ok c' ∧ at_way c' (set_of c a) (default 0 (m_tag_index c !! a)) = None ∧
    (∀ b, set_of c' b = set_of c b) ∧ m_cache_assoc c' = m_cache_assoc c ∧
    ∀ b, contents_at c' b = if decide (b = a) then None else contents_at c b.
Proof.
  intros Hc Ha Hsome. pose proof Hc as (Hs & Ht & Hw). unfold deallocate.
  rewrite assert_line_Ok, isTagPresent_eq by done. cbn [mbind outcome_bind].
  rewrite bool_decide_eq_true_2 by done. cbn [assert_that mbind outcome_bind]. rewrite locate_eq by done.
  destruct Hsome as [e (i & Hi & He & Hadr & _)%contents_iff]; [|done]. rewrite Hi. cbn [fmap option_fmap option_map mbind outcome_bind default].
  destruct (Ht a i Hi) as (_ & Hr & _). pose proof (set_of_range c a Hs) as Hset.
  destruct (set_slot_spec c (set_of c a) i None) as (l & -> & Hs1 & Hat); [done|done|done|].
  cbn [mbind outcome_bind]. set (c' := with_tags _ _).
  assert (∀ s w, 0 ≤ s → 0 ≤ w → at_way c' s w =
    if decide (s = set_of c a ∧ w = i) then None else at_way c s w) as Hat' by exact Hat.
  assert (∀ b j e', b ≠ a → at_way c (set_of c b) j = Some e' → AbstractCacheEntry.m_Address e' = b →
    ¬ (set_of c b = set_of c a ∧ j = i)) as Hother.
  { intros b j e' Hne He' Hb [E1 E2]. rewrite E1, E2 in He'. rewrite He in He'. congruence. }
  exists c'. split; [done|]. split; [split; [exact Hs1|split]|split; [|split; [done|split; [done|]]]].
  - intros b j Hj. simpl in Hj. apply lookup_delete_Some in Hj as [Hne Hj].
    destruct (Ht b j Hj) as (? & Hrj & e' & He' & Hb). split; [done|]. split; [done|]. exists e'.
    change (set_of c' b) with (set_of c b). rewrite Hat' by (apply set_of_range, Hs || lia).
    rewrite decide_False by (by eapply Hother). done.
  - intros s w e' Hs0 Hw0 He'. rewrite Hat' in He' by done. case_decide as E; [done|].
    destruct (Hw s w e' Hs0 Hw0 He') as (? & Htag & Hse). split; [done|]. split; [|done]. simpl.
    rewrite lookup_delete_ne; [done|]. intros Heq. apply E. rewrite <- Heq in *. split; [done|congruence].
  - simpl. rewrite Hat', decide_True by (done || lia). done.
  - intros b. unfold contents_at. change (set_of c' b) with (set_of c b). simpl. case_decide as E.
    + subst b. by rewrite lookup_delete_eq.
    + rewrite lookup_delete_ne by done. destruct (m_tag_index c !! b) as [j|] eqn:Hj; [|done]. simpl.
      destruct (Ht b j Hj) as (_ & Hrj & e' & He' & Hb). rewrite Hat' by (apply set_of_range, Hs || lia).
      rewrite decide_False by (by eapply Hother). done.
Qed.

Lemma update_entry_spec c a f e : cache_ok c → line a → contents_at c a = Some e →
  AbstractCacheEntry.m_Address (f e) = a → AbstractCacheEntry.m_Permission (f e) ≠ NotPresent →
  ∃ c', update_entry sys c a f = Ok c' ∧ cache_ok c' ∧
    ∀ b, contents_at c' b = if decide (b = a) then Some (f e) else contents_at c b.
Proof.
  intros Hc Ha Hce Hadr Hp. pose proof Hc as (Hs & Ht & Hw). unfold update_entry.
  rewrite assert_line_Ok, locate_eq by done. cbn [mbind outcome_bind].
  apply contents_iff in Hce as (i & Hi & He & Hea & _); [|done].
  rewrite Hi. cbn [fmap option_fmap option_map]. destruct (Ht a i Hi) as (_ & Hr & _).
  pose proof (set_of_range c a Hs) as Hset. unfold entry_at. rewrite slot_eq, He by done.
  cbn [mbind outcome_bind from_option_or].
  destruct (set_slot_spec c (set_of c a) i (Some (f e))) as (l & -> & Hs1 & Hat); [done|done|done|].
  set (c' := with_cache c l) in *.
  assert (∀ b, set_of c' b = set_of c b) as Hso by done.
  exists c'. split; [done|]. split; [split; [exact Hs1|split]|].
  - intros b j Hj. destruct (Ht b j Hj) as (? & Hrj & e' & He' & Hb). split; [done|]. split; [done|].
    rewrite Hso, Hat by (apply set_of_range, Hs || lia). case_decide as E; [|by exists e'].
    destruct E as [E1 E2]. rewrite E1, E2, He in He'. injection He' as <-. exists (f e). split; congruence.
  - intros s w e' Hs0 Hw0 He'. rewrite Hat in He' by done. case_decide as E; [|by apply (Hw s w)].
    destruct E as [-> ->]. injection He' as <-. rewrite Hadr. done.
  - intros b. unfold contents_at. rewrite Hso. change (m_tag_index c') with (m_tag_index c).
    destruct (m_tag_index c !! b) as [j|] eqn:Hj; simpl; [|case_decide; congruence].
    destruct (Ht b j Hj) as (_ & Hrj & e' & He' & Hb). rewrite Hat by (apply set_of_range, Hs || lia).
    destruct (decide (b = a)) as [->|Hne].
    + rewrite decide_True; [done|]. split; [done|congruence].
    + rewrite decide_False; [done|]. intros [E1 E2]. rewrite E1, E2, He in He'. congruence.
Qed.

(** A set without room: other addresses in every way. *)
Lemma cacheAvail_full c a : cache_ok c → line a → cacheAvail sys c a = Ok false →
  contents_at c a = None ∧
  ∀ w, 0 ≤ w < m_cache_assoc c → ∃ e, at_way c (set_of c a) w = Some e ∧
    AbstractCacheEntry.m_Address e ≠ a ∧ AbstractCacheEntry.m_Permission e ≠ NotPresent.
Proof.
  intros Hc Ha Hav. pose proof Hc as (Hs & Ht & Hw).
  destruct (cacheAvail_eq c a Hc Ha) as (r & Hr & Hiff). rewrite Hav in Hr. injection Hr as <-. split.
  - apply eq_None_not_Some. intros Hsome. assert (false = true); [apply Hiff; by left|done].
  - intros w Hwr. destruct (at_way c (set_of c a) w) as [e|] eqn:He.
    + exists e. destruct (Hw _ w e (proj1 (set_of_range c _ Hs)) ltac:(lia) He) as (Hp & Htag & _).
      split; [done|]. split; [|done]. intros <-.
      assert (false = true); [apply Hiff; left|done]. exists e. apply contents_iff; [done|]. by exists w.
    + assert (false = true); [apply Hiff; right; by exists w|done].
Qed.

(** The victim of a full set. *)
Lemma cacheProbe_spec c a : cache_ok c → line a → cacheAvail sys c a = Ok false →
  ∃ b, cacheProbe sys c a = Ok b ∧ line b ∧ set_of c b = set_of c a ∧ b ≠ a ∧ is_Some (contents_at c b).
Proof.
  intros Hc Ha Hav. pose proof Hc as (Hs & Ht & Hw).
  destruct (cacheAvail_full c a Hc Ha Hav) as [_ Hfull].
  unfold cacheProbe. rewrite assert_line_Ok, Hav by done. cbn [negb assert_that mbind outcome_bind].
  rewrite addressToCacheSet_eq by done. cbn [mbind outcome_bind].
  pose proof (set_of_range c a Hs) as Hset.
  destruct (mfold_total (λ _ : unit, True) (λ _ i, e ← entry_at c (set_of c a) i; Ok tt)
    (seqZ 0 (m_cache_assoc c)) tt) as ([] & -> & _); [|done|].
  { intros [] w Hwr%elem_of_seqZ _. destruct (Hfull w) as (e & He & _); [lia|].
    unfold entry_at. rewrite slot_eq, He by (done || lia). exists tt. done. }
  cbn [mbind outcome_bind].
  destruct (policy_victim_range _ _ _ (set_of c a) (proj2 (proj2 (proj2 (proj2 (proj2 (proj2 Hs)))))) Hset)
    as (v & -> & Hv). cbn [mbind outcome_bind].
  destruct (Hfull v Hv) as (e & He & Hne & _). unfold entry_at. rewrite slot_eq, He by done.
  cbn [mbind outcome_bind from_option_or]. eexists. split; [done|].
  destruct (Hw _ v e (proj1 Hset) (proj1 Hv) He) as (Hp & Htag & Hse).
  destruct (Ht _ v Htag) as (Hl & _). split; [done|]. split; [done|]. split; [done|].
  exists e. apply contents_iff; [done|]. exists v. rewrite Hse. done.
Qed.

(** *** Entries marked not present *)

(** [c1] is [c] with the entry of [b], at way [i], marked not present. *)
Definition retired c c1 b (i : Z) : Prop :=
  shape_ok c1 ∧ m_tag_index c1 = m_tag_index c ∧ 0 ≤ i < m_cache_assoc c1 ∧
  m_cache_assoc c1 = m_cache_assoc c ∧ 0 ≤ set_of c b < m_cache_num_sets c1 ∧
  (∀ x, set_of c1 x = set_of c x) ∧
  ∃ eb, AbstractCacheEntry.m_Permission eb = NotPresent ∧
    ∀ s w, 0 ≤ s → 0 ≤ w →
      at_way c1 s w = if decide (s = set_of c b ∧ w = i) then Some eb else at_way c s w.

Lemma retire_spec c b : cache_ok c → line b → is_Some (contents_at c b) →
  ∃ c1 i, update_entry sys c b (λ e, AbstractCacheEntry.changePermission e NotPresent) = Ok c1 ∧
    m_tag_index c !! b = Some i ∧ retired c c1 b i.
Proof.
  intros Hc Hb [eb (i & Hi & He & _ & _)%contents_iff]; [|done]. pose proof Hc as (Hs & Ht & _).
  destruct (Ht b i Hi) as (_ & Hr & _). pose proof (set_of_range c b Hs) as Hsr.
  destruct (set_slot_spec c (set_of c b) i (Some (AbstractCacheEntry.changePermission eb NotPresent)) Hs Hsr Hr)
    as (l & Hset & Hs1 & Hat).
  exists (with_cache c l), i. split; [|split; [done|]].
  - unfold update_entry. rewrite assert_line_Ok, locate_eq, Hi by done.
    cbn [fmap option_fmap option_map mbind outcome_bind]. unfold entry_at.
    rewrite slot_eq, He by done. cbn [mbind outcome_bind from_option_or]. exact Hset.
  - split; [exact Hs1|]. do 5 (split; [done|]). eexists. by split; [|exact Hat].
Qed.

Lemma locate_retired c c1 b i : line b → m_tag_index c !! b = Some i → retired c c1 b i →
  locate sys c1 b = Ok None.
Proof.
  intros Hb Hi (Hs & Ht & Hr & _ & Hsr & Hso & eb & Hp & Hat). unfold locate, findTagInSet, entry_at.
  rewrite addressToCacheSet_eq, Hso by done. cbn [mbind outcome_bind].
  rewrite assert_line_Ok, Ht, Hi, slot_eq, Hat, decide_True by (done || lia).
  cbn [mbind outcome_bind from_option_or]. by rewrite (decide_True (P := _ = NotPresent)) by done.
Qed.

(** In a full set its way is the only open one. *)
Lemma any_way_retired c c1 a b i p : cache_ok c → line a → set_of c a = set_of c b →
  cacheAvail sys c a = Ok false → retired c c1 b i →
  (∀ e, AbstractCacheEntry.m_Permission e = NotPresent → p (Some e) = true) →
  (∀ e, AbstractCacheEntry.m_Address e ≠ a → AbstractCacheEntry.m_Permission e ≠ NotPresent →
     p (Some e) = false) →
  any_way c1 (set_of c a) p (seqZ 0 (m_cache_assoc c1)) = Ok (Some i).
Proof.
  intros Hc Ha Hset Hav (Hs & _ & Hr & Has & Hsr & _ & eb & Hp & Hat) Hyes Hno.
  destruct (cacheAvail_full c a Hc Ha Hav) as [_ Hfull]. rewrite Hset in *.
  destruct (any_way_spec c1 (set_of c b) p (seqZ 0 (m_cache_assoc c1))) as (o & -> & Ho);
    [done|done|intros w; rewrite elem_of_seqZ; lia|].
  destruct o as [w|].
  - destruct Ho as [Hw%elem_of_seqZ Hpw]. do 2 f_equal. destruct (decide (w = i)) as [|Hne]; [done|].
    destruct (Hfull w ltac:(lia)) as (e & He & Hea & Hep).
    rewrite Hat, decide_False, He, Hno in Hpw by (done || lia || tauto). done.
  - specialize (Ho i). rewrite elem_of_seqZ, Hat, decide_True, Hyes in Ho by (done || lia).
    specialize (Ho ltac:(lia)). done.
Qed.

Lemma allocate_retired c c1 a b i now e : cache_ok c → line a → line b → set_of c a = set_of c b →
  cacheAvail sys c a = Ok false → m_tag_index c !! b = Some i → retired c c1 b i →
  ∃ c2, allocate sys now c1 a e = Ok c2 ∧ shape_ok c2 ∧
    m_tag_index c2 = <[a := i]> (m_tag_index c) ∧ (∀ x, set_of c2 x = set_of c x) ∧
    slot c2 (set_of c b) i = Ok (Some (allocated a e)).
Proof.
  intros Hc Ha Hb Hset Hav Hi Hret. pose proof Hret as (Hs & Ht & Hr & Has & Hsr & Hso & _).
  destruct (cacheAvail_full c a Hc Ha Hav) as [Hna _]. apply contents_None in Hna; [|done].
  assert (locate sys c1 a = Ok None) as Hla.
  { unfold locate, findTagInSet. rewrite addressToCacheSet_eq by done. cbn [mbind outcome_bind].
    by rewrite assert_line_Ok, Ht, Hna by done. }
  destruct (set_slot_spec c1 (set_of c b) i (Some (allocated a e)) Hs Hsr Hr) as (l & Hst & Hs2 & Hat2).
  destruct (touch_spec now (with_tags (with_cache c1 l) (<[a := i]> (m_tag_index c))) (set_of c b) i)
    as (p & Htouch & Hs3); [exact Hs2|exact Hsr|exact Hr|].
  exists (with_policy (with_tags (with_cache c1 l) (<[a := i]> (m_tag_index c))) p).
  split; [|split; [exact Hs3|split; [done|split; [exact Hso|]]]].
  - unfold allocate, isTagPresent, cacheAvail. rewrite assert_line_Ok, Hla by done.
    cbn [mbind outcome_bind]. rewrite bool_decide_eq_false_2 by (by intros [? ?]).
    cbn [negb assert_that mbind outcome_bind]. rewrite addressToCacheSet_eq, Hso by done. cbn [mbind outcome_bind].
    rewrite (any_way_retired c c1 a b i (way_avail a)); [|done..| |].
    + cbn [mbind outcome_bind]. rewrite bool_decide_eq_true_2 by done. cbn [assert_that mbind outcome_bind].
      rewrite (any_way_retired c c1 a b i way_open); [|done..| |].
      * cbn [mbind outcome_bind]. rewrite Hset, Hst. cbn [mbind outcome_bind].
        change (m_tag_index (with_cache c1 l)) with (m_tag_index c1). rewrite Ht. exact Htouch.
      * intros x Hx. simpl. by apply bool_decide_eq_true_2.
      * intros x _ Hx. simpl. by apply bool_decide_eq_false_2.
    + intros x Hx. simpl. apply bool_decide_eq_true_2. auto.
    + intros x Hx1 Hx2. simpl. apply bool_decide_eq_false_2. tauto.
  - rewrite slot_eq by (exact Hs3 || exact Hsr || exact Hr).
    change (Ok (at_way (with_cache c1 l) (set_of c b) i) = Ok (Some (allocated a e))).
    rewrite Hat2, decide_True by (done || lia). done.
Qed.

End cache.

(** ** Properties *)

Lemma create_policy_ok policy sets assoc : 0 < sets < 2 ^ 31 → 1 < assoc ≤ 32 →
  policy = "LRU"%string ∨ policy = "PSEUDO_LRU"%string →
  ∃ p, create_policy policy sets assoc = Ok p ∧ policy_ok sets assoc p.
Proof.
  intros Hs Ha Hp. unfold create_policy. case_decide.
  - destruct (pseudo_create_ok sets assoc) as (p & -> & Hok); [lia|lia|]. by exists (PseudoLru p).
  - rewrite decide_True by tauto. eexists. split; [reflexivity|].
    split; [apply create_base_ok; lia|lia].
Qed.

(** A new cache is empty and well formed. *)
Lemma new_cache_ok {Data} sys p : 1 < assoc p ≤ 32 → 0 ≤ start_index_bit p < 64 →
  1 < (size p `div` assoc p) `div` RubySystem.getBlockSizeBytes sys < 2 ^ 31 →
  replacement_policy p = "LRU"%string ∨ replacement_policy p = "PSEUDO_LRU"%string →
  ∃ c : t policy_ptr Data, create sys p = Ok c ∧ cache_ok sys c ∧
    m_cache_assoc c = assoc p ∧ m_start_index_bit c = start_index_bit p ∧
    m_cache_num_set_bits c = Z.log2 (m_cache_num_sets c) ∧
    ∀ a, contents_at c a = None.
Proof.
  intros Ha Hst Hn Hpol. unfold create. set (n := (size p `div` assoc p) `div` _) in *.
  rewrite bool_decide_eq_true_2 by lia. cbn [assert_that mbind outcome_bind].
  rewrite floorLog2_int_log2 by lia. cbn [mbind outcome_bind].
  assert (0 < Z.log2 n) as Hlog by (apply Z.log2_pos; lia).
  rewrite bool_decide_eq_true_2 by done. cbn [assert_that mbind outcome_bind].
  destruct (create_policy_ok (replacement_policy p) n (assoc p)) as (q & -> & Hq); [lia|lia|done|].
  cbn [mbind outcome_bind]. eexists. split; [done|]. split; [|by split_and!]. split; [|split].
  - split_and!; simpl; [rewrite length_replicate; lia| |lia|apply Z.log2_spec; lia|lia|lia|lia|exact Hq].
    apply Forall_replicate. rewrite length_replicate. lia.
  - intros a i Hi. simpl in Hi. by rewrite lookup_empty in Hi.
  - intros s w e _ _ He. unfold at_way in He. simpl in He.
    apply bind_Some in He as (row & [-> _]%lookup_replicate_1 & He).
    by apply bind_Some in He as (o & [-> _]%lookup_replicate_1 & He).
Qed.

(** C29: a cache is a partial map from line addresses to entries.  [lookup] and
    [isTagPresent] read it; [allocate] binds a new address to the entry it is
    given, invalid and unlocked, when the set has room, and fails its asserts
    when the address is there or the set is full; [deallocate] unbinds; a
    change through the pointer of [lookup] changes that binding only. *)
Theorem cache_refines_map {Data} sys (c : t policy_ptr Data) a :
  cache_ok sys c → line sys a →
  lookup sys c a = Ok (contents_at c a) ∧
  isTagPresent sys c a = Ok (bool_decide (is_Some (contents_at c a))) ∧
  (∀ now e, contents_at c a = None → cacheAvail sys c a = Ok true →
     ∃ c', allocate sys now c a e = Ok c' ∧ cache_ok sys c' ∧
       ∀ b, contents_at c' b = if decide (b = a) then Some (allocated a e) else contents_at c b) ∧
  (∀ now e, is_Some (contents_at c a) ∨ cacheAvail sys c a = Ok false →
     allocate sys now c a e = Err AssertFail) ∧
  (is_Some (contents_at c a) → ∃ c', deallocate sys c a = Ok c' ∧ cache_ok sys c' ∧
     ∀ b, contents_at c' b = if decide (b = a) then None else contents_at c b) ∧
  (contents_at c a = None → deallocate sys c a = Err AssertFail) ∧
  (∀ f e, contents_at c a = Some e → AbstractCacheEntry.m_Address (f e) = a →
     AbstractCacheEntry.m_Permission (f e) ≠ NotPresent →
     ∃ c', update_entry sys c a f = Ok c' ∧ cache_ok sys c' ∧
       ∀ b, contents_at c' b = if decide (b = a) then Some (f e) else contents_at c b).
Proof.
  intros Hc Ha. split; [by apply lookup_eq|]. split; [by apply isTagPresent_eq|]. split_and!.
  - intros now e. by apply allocate_avail.
  - intros now e Hbad. unfold allocate. rewrite assert_line_Ok, isTagPresent_eq by done.
    cbn [mbind outcome_bind]. case_bool_decide as Hs; [done|]. cbn [negb assert_that mbind outcome_bind].
    destruct Hbad as [| ->]; done.
  - intros Hs. destruct (deallocate_spec sys c a Hc Ha Hs) as (c' & ? & ? & _ & _ & _ & ?). eauto.
  - intros Hn. unfold deallocate. rewrite assert_line_Ok, isTagPresent_eq, Hn by done.
    cbn [mbind outcome_bind]. by rewrite bool_decide_eq_false_2 by (by intros [? ?]).
  - intros f e. by apply update_entry_spec.
Qed.

(** Eviction makes room.  When the set of an address is full, [cacheProbe]
    returns another address of the same set that is in the cache; once it is
    deallocated the address can be allocated, and the rest of the cache is as
    it was. *)
Theorem eviction_makes_room {Data} sys (c : t policy_ptr Data) a now e :
  cache_ok sys c → line sys a → cacheAvail sys c a = Ok false →
  ∃ b c1 c2, cacheProbe sys c a = Ok b ∧ set_of c b = set_of c a ∧ b ≠ a ∧
    is_Some (contents_at c b) ∧ deallocate sys c b = Ok c1 ∧ cacheAvail sys c1 a = Ok true ∧
    allocate sys now c1 a e = Ok c2 ∧ cache_ok sys c2 ∧
    ∀ x, contents_at c2 x = if decide (x = a) then Some (allocated a e)
                            else if decide (x = b) then None else contents_at c x.
Proof.
  intros Hc Ha Hav. destruct (cacheProbe_spec sys c a Hc Ha Hav) as (b & Hb & Hlb & Hsb & Hne & Hsome).
  destruct (deallocate_spec sys c b Hc Hlb Hsome) as (c1 & Hd & Hc1 & Hfree & Hso & Hassoc & Hcon).
  destruct (cacheAvail_full sys c a Hc Ha Hav) as [Hna _].
  assert (∃ w, 0 ≤ w < m_cache_assoc c1 ∧ at_way c1 (set_of c1 a) w = None) as Hroom.
  { destruct Hsome as [eb Heb]. apply (contents_iff sys) in Heb as (i & Hi & _); [|done]. exists i.
    rewrite Hso, Hassoc, <- Hsb. rewrite Hi in Hfree. split; [|done].
    destruct Hc as (_ & Ht & _). by destruct (Ht b i Hi) as (_ & ? & _). }
  assert (contents_at c1 a = None) as Hn1 by (rewrite Hcon, decide_False by done; done).
  destruct (allocate_spec sys now c1 a e Hc1 Ha Hn1 Hroom) as (c2 & Hal & Hc2 & Hcon2).
  exists b, c1, c2. split_and!; try done.
  - destruct (cacheAvail_eq sys c1 a Hc1 Ha) as (r & Hr & Hiff). rewrite Hr. f_equal. apply Hiff. by right.
  - intros x. rewrite Hcon2, Hcon. done.
Qed.

(** An entry whose permission is set to [NotPresent] but which is not
    deallocated leaves its tag behind: the address no longer counts as present,
    its way is given to the next address of the full set, and after that
    [lookup] of the old address returns the entry of the new one. *)
Theorem stale_tag_aliases {Data} sys (c : t policy_ptr Data) a b now e :
  cache_ok sys c → line sys a → line sys b → set_of c a = set_of c b →
  cacheAvail sys c a = Ok false → is_Some (contents_at c b) →
  ∃ c1 c2, update_entry sys c b (λ e, AbstractCacheEntry.changePermission e NotPresent) = Ok c1 ∧
    isTagPresent sys c1 b = Ok false ∧ allocate sys now c1 a e = Ok c2 ∧
    lookup sys c2 b = Ok (Some (allocated a e)).
Proof.
  intros Hc Ha Hb Hset Hav Hsome.
  destruct (retire_spec sys c b Hc Hb Hsome) as (c1 & i & Hup & Hi & Hret).
  destruct (allocate_retired sys c c1 a b i now e Hc Ha Hb Hset Hav Hi Hret)
    as (c2 & Hal & Hs2 & Htags & Hso & Hslot). exists c1, c2. split_and!; [done| |done|].
  - unfold isTagPresent. rewrite assert_line_Ok, (locate_retired sys c c1 b i) by done. done.
  - assert (b ≠ a) as Hne.
    { intros ->. destruct (cacheAvail_full sys c a Hc Ha Hav) as [Hn _].
      apply (contents_None sys) in Hn; [|done]. congruence. }
    unfold lookup, locate, findTagInSet, entry_at.
    rewrite assert_line_Ok, addressToCacheSet_eq, Hso, Htags, lookup_insert_ne, Hi by done.
    cbn [mbind outcome_bind]. destruct Hret as (_ & _ & Hr & _).
    rewrite Hslot. cbn [mbind outcome_bind from_option_or].
    rewrite (decide_False (P := _ = NotPresent)) by done. cbn [mbind outcome_bind].
    rewrite decide_False by lia. cbn [mbind outcome_bind]. exact Hslot.
Qed.

(** ** A cache of two sets and two ways *)

Definition demo_params : params := mkParams 256 3 2 "PSEUDO_LRU" 6 false false 1 1 1 1.
Definition demo_new : outcome (t policy_ptr Z) := create sys64 demo_params.
Definition demo_entry (d : Z) : AbstractCacheEntry.t Z := AbstractCacheEntry.create d.
Definition demo_one : outcome (t policy_ptr Z) := c ← demo_new; allocate sys64 1 c 0 (demo_entry 7).

(** Both ways of the set are taken. *)
Definition demo_full : outcome (t policy_ptr Z) := c ← demo_one; allocate sys64 2 c 128 (demo_entry 8).

Lemma demo_line a : a `mod` 64 = 0 → 0 ≤ a < 2 ^ 64 → line sys64 a.
Proof.
  intros Ha Hr. split; [done|]. symmetry. apply line_address_fix; [|done|done].
  split; [simpl; lia|reflexivity].
Qed.

Lemma demo_line_0 : line sys64 0.
Proof. apply demo_line; [reflexivity|lia]. Qed.

Lemma demo_line_256 : line sys64 256.
Proof. apply demo_line; [reflexivity|lia]. Qed.

Lemma demo_new_ok : ∃ c, demo_new = Ok c ∧ cache_ok sys64 c ∧ ∀ a, contents_at c a = None.
Proof.
  destruct (new_cache_ok (Data := Z) sys64 demo_params) as (c & Hc & Hok & _ & _ & _ & Hn);
    [simpl; lia|simpl; lia|vm_compute; done|by right|]. by exists c.
Qed.

Lemma demo_one_ok : ∃ c, demo_one = Ok c ∧ cache_ok sys64 c ∧
  ∀ a, contents_at c a = if decide (a = 0) then Some (allocated 0 (demo_entry 7)) else None.
Proof.
  destruct demo_new_ok as (c0 & H0 & Hok0 & Hn0).
  assert ((c ← demo_new; cacheAvail sys64 c 0) = Ok true) as Hav by (vm_compute; reflexivity).
  apply (bind_eq_Ok _ _ c0 _ H0) in Hav.
  destruct (allocate_avail sys64 1 c0 0 (demo_entry 7)) as (c & Hal & Hok & Hc);
    [exact Hok0|by apply demo_line|apply Hn0|exact Hav|].
  exists c. split; [unfold demo_one; rewrite H0; exact Hal|]. split; [exact Hok|].
  intros a. by rewrite Hc, Hn0.
Qed.

Lemma demo_full_ok : ∃ c, demo_full = Ok c ∧ cache_ok sys64 c ∧
  cacheAvail sys64 c 256 = Ok false ∧ contents_at c 0 = Some (allocated 0 (demo_entry 7)) ∧
  set_of c 256 = set_of c 0.
Proof.
  destruct demo_one_ok as (c0 & H0 & Hok0 & Hn0).
  assert ((c ← demo_one; cacheAvail sys64 c 128) = Ok true) as Hav by (vm_compute; reflexivity).
  apply (bind_eq_Ok _ _ c0 _ H0) in Hav.
  destruct (allocate_avail sys64 2 c0 128 (demo_entry 8)) as (c & Hal & Hok & Hc);
    [exact Hok0|by apply demo_line|by rewrite Hn0|exact Hav|].
  assert (demo_full = Ok c) as Hf by (unfold demo_full; rewrite H0; exact Hal).
  exists c. split; [exact Hf|]. split; [exact Hok|]. split; [|split; [by rewrite Hc, Hn0|]].
  - assert ((c ← demo_full; cacheAvail sys64 c 256) = Ok false) as H by (vm_compute; reflexivity).
    exact (bind_eq_Ok _ _ c _ Hf H).
  - assert ((c ← demo_full; Ok (bool_decide (set_of c 256 = set_of c 0))) = Ok true) as H by (vm_compute; reflexivity).
    apply (bind_eq_Ok _ _ c _ Hf) in H. injection H as H. by apply bool_decide_eq_true in H.
Qed.

Lemma cache_refines_map_witness : ∃ c c', demo_one = Ok c ∧ deallocate sys64 c 0 = Ok c' ∧
  contents_at c' 0 = None ∧ lookup sys64 c 0 = Ok (Some (allocated 0 (demo_entry 7))).
Proof.
  destruct demo_one_ok as (c & H & Hok & Hc).
  destruct (cache_refines_map sys64 c 0 Hok demo_line_0)
    as (Hl & _ & _ & _ & Hd & _).
  destruct Hd as (c' & Hd & _ & Hc'); [rewrite Hc; done|]. exists c, c'. split_and!; [exact H|exact Hd| |].
  - by rewrite Hc'.
  - rewrite Hl, Hc. done.
Defined.

Lemma eviction_makes_room_witness : ∃ c b c1 c2, demo_full = Ok c ∧
  cacheProbe sys64 c 256 = Ok b ∧ deallocate sys64 c b = Ok c1 ∧
  allocate sys64 3 c1 256 (demo_entry 9) = Ok c2 ∧
  contents_at c2 256 = Some (allocated 256 (demo_entry 9)).
Proof.
  destruct demo_full_ok as (c & H & Hok & Hav & _).
  destruct (eviction_makes_room sys64 c 256 3 (demo_entry 9) Hok demo_line_256 Hav)
    as (b & c1 & c2 & Hp & _ & _ & _ & Hd & _ & Hal & _ & Hc).
  exists c, b, c1, c2. split_and!; [exact H|exact Hp|exact Hd|exact Hal|]. by rewrite Hc.
Defined.

Lemma stale_tag_aliases_witness : ∃ c c1 c2, demo_full = Ok c ∧
  update_entry sys64 c 0 (λ e, AbstractCacheEntry.changePermission e NotPresent) = Ok c1 ∧
  allocate sys64 3 c1 256 (demo_entry 9) = Ok c2 ∧
  lookup sys64 c2 0 = Ok (Some (allocated 256 (demo_entry 9))).
Proof.
  destruct demo_full_ok as (c & H & Hok & Hav & Hc0 & Hset).
  destruct (stale_tag_aliases sys64 c 256 0 3 (demo_entry 9) Hok
    demo_line_256 demo_line_0 Hset Hav)
    as (c1 & c2 & Hu & _ & Hal & Hl); [by rewrite Hc0|].
  exists c, c1, c2. split_and!; [exact H|exact Hu|exact Hal|exact Hl].
Defined.
