(* ===== verification/Tables.v ===== *)
(** * Tables of the controllers (mem/ruby/structures/TBETable.hh, TimerTable.hh,
    TimerTable.cc, PersistentTable.hh, PersistentTable.cc, PerfectCacheMemory.hh)

    Maps from line addresses: outstanding transactions, of which there is a bounded
    number; timers, with a cached earliest one; persistent requests, with the
    machines that starve for a line; and a cache without bounds.  The hash maps of the
    source are finite maps, its ordered map is a list sorted by address. *)

From Stdlib Require Import Sorted.
From S2P Require Import Prelude IntMath Addresses NodeSets Destinations Clocks Caches.
Local Open Scope Z_scope.

(** [assert(address == line_address(address))] *)
Definition is_line (sys : RubySystem.t) (address : Z) : bool :=
  bool_decide (address = Address.line_address sys address).

Module TBETable.

Record t (E : Type) := mk { m_map : gmap Z E; m_number_of_TBEs : Z }.
Arguments mk {E}.
Arguments m_map {E}.
Arguments m_number_of_TBEs {E}.

Section operations.
Context {E : Type} (sys : RubySystem.t).
Implicit Types (tb : t E) (address : Z).

Definition create (number_of_TBEs : Z) : t E := mk ∅ number_of_TBEs.

(** The number of entries, a [size_t]; an [int] compared with it is converted. *)
Definition msize tb : Z := Z.of_nat (size (m_map tb)).

Definition isPresent tb address : outcome bool :=
  assert_that (is_line sys address);;
  assert_that (bool_decide (msize tb ≤ u64 (m_number_of_TBEs tb)));;
  Ok (bool_decide (is_Some (m_map tb !! address))).

(** [dflt] is the entry its constructor makes. *)
Definition allocate (dflt : E) tb address : outcome (t E) :=
  present ← isPresent tb address;
  assert_that (negb present);;
  assert_that (bool_decide (msize tb < u64 (m_number_of_TBEs tb)));;
  Ok (mk (<[address := dflt]> (m_map tb)) (m_number_of_TBEs tb)).

Definition deallocate tb address : outcome (t E) :=
  present ← isPresent tb address;
  assert_that present;;
  assert_that (bool_decide (0 < msize tb));;
  Ok (mk (delete address (m_map tb)) (m_number_of_TBEs tb)).

(** The difference is a [size_t], and so is [n] when they are compared. *)
Definition areNSlotsAvailable tb (n : Z) : bool :=
  bool_decide (u64 n ≤ u64 (m_number_of_TBEs tb - msize tb)).

(** The pointer to the entry; the controllers change the entry through it. *)
Definition lookup tb address : option E := m_map tb !! address.

Definition update_entry tb address (f : E → E) : t E :=
  mk (alter f address (m_map tb)) (m_number_of_TBEs tb).

End operations.
End TBETable.

Lemma lookup_update_tbe {E} (tb : TBETable.t E) a g b :
  TBETable.lookup (TBETable.update_entry tb a g) b =
  if decide (b = a) then g <$> TBETable.lookup tb b else TBETable.lookup tb b.
Proof.
  unfold TBETable.lookup, TBETable.update_entry. cbn. case_decide as Heq.
  - by rewrite Heq, lookup_alter_eq.
  - by rewrite lookup_alter_ne.
Qed.

Module TimerTable.

(** [m_map] in the order of its keys. *)
Record t := mk {
  m_map : list (Z * Z);
  m_next_valid : bool;
  m_next_time : Z;
  m_next_address : Z;
  m_clockobj_ptr : option ClockedObject.t;
  m_consumer_ptr : option Consumer.t }.

Definition create : t := mk [] false 0 0 None None.

Definition with_next (tt : t) (valid : bool) (time address : Z) : t :=
  mk (m_map tt) valid time address (m_clockobj_ptr tt) (m_consumer_ptr tt).
Definition with_map (tt : t) (m : list (Z * Z)) : t :=
  mk m (m_next_valid tt) (m_next_time tt) (m_next_address tt) (m_clockobj_ptr tt)
    (m_consumer_ptr tt).
Definition with_consumer (tt : t) (c : option Consumer.t) : t :=
  mk (m_map tt) (m_next_valid tt) (m_next_time tt) (m_next_address tt) (m_clockobj_ptr tt) c.

Definition setConsumer (tt : t) (c : Consumer.t) : outcome t :=
  match m_consumer_ptr tt with None => Ok (with_consumer tt (Some c)) | Some _ => Err AssertFail end.

Definition setClockObj (tt : t) (o : ClockedObject.t) : outcome t :=
  match m_clockobj_ptr tt with
  | None => Ok (mk (m_map tt) (m_next_valid tt) (m_next_time tt) (m_next_address tt) (Some o)
                  (m_consumer_ptr tt))
  | Some _ => Err AssertFail
  end.

(** [map::operator[]] of a key that is not in the map. *)
Fixpoint insert_sorted (address time : Z) (m : list (Z * Z)) : list (Z * Z) :=
  match m with
  | [] => [(address, time)]
  | p :: m' => if decide (address < p.1) then (address, time) :: m
               else p :: insert_sorted address time m'
  end.

Definition isSet (tt : t) (address : Z) : bool := bool_decide (address ∈ (m_map tt).*1).

(** The entry the loop of [updateNext] ends with, from [p] on. *)
Definition earliest (p : Z * Z) (m : list (Z * Z)) : Z * Z :=
  foldl (λ p q, if decide (q.2 < p.2) then q else p) p m.

Definition updateNext (tt : t) : outcome t :=
  match m_map tt with
  | [] => assert_that (negb (m_next_valid tt));; Ok tt
  | p :: m => let q := earliest p m in Ok (with_next tt true q.2 q.1)
  end.

(** [isReady] is [const], but renews the cached next timer. *)
Definition isReady (now : Z) (tt : t) : outcome (bool * t) :=
  match m_map tt with
  | [] => Ok (false, tt)
  | _ =>
      tt ← (if m_next_valid tt then Ok tt else updateNext tt);
      assert_that (m_next_valid tt);;
      clk ← from_option_or NullDeref (m_clockobj_ptr tt);
      Ok (bool_decide (m_next_time tt ≤ ClockedObject.curCycle now clk), tt)
  end.

Definition readyAddress (now : Z) (tt : t) : outcome (Z * t) :=
  r ← isReady now tt;
  assert_that r.1;;
  tt ← (if m_next_valid r.2 then Ok r.2 else updateNext r.2);
  assert_that (m_next_valid tt);;
  Ok (m_next_address tt, tt).

(** The second result is what the consumer posts to the event queue. *)
Definition set (sys : RubySystem.t) (now : Z) (tt : t) (address relative_latency : Z)
    : outcome (t * list Z) :=
  assert_that (is_line sys address);;
  assert_that (bool_decide (0 < relative_latency));;
  assert_that (negb (isSet tt address));;
  clk ← from_option_or NullDeref (m_clockobj_ptr tt);
  let ready_time := u64 (ClockedObject.curCycle now clk + relative_latency) in
  let tt := with_map tt (insert_sorted address ready_time (m_map tt)) in
  match m_consumer_ptr tt with
  | None => Err AssertFail
  | Some c =>
      let r := Consumer.scheduleEventAbsolute now c
                 (u64 (ClockedObject.clockPeriod clk * ready_time)) in
      let tt := with_consumer tt (Some r.1) in
      let tt := with_next tt false (m_next_time tt) (m_next_address tt) in
      let tt := if decide (ready_time ≤ m_next_time tt)
                then with_next tt false (m_next_time tt) (m_next_address tt) else tt in
      Ok (tt, r.2)
  end.

Definition unset (sys : RubySystem.t) (tt : t) (address : Z) : outcome t :=
  assert_that (is_line sys address);;
  assert_that (isSet tt address);;
  let tt := with_map tt (filter (λ p, p.1 ≠ address) (m_map tt)) in
  Ok (if decide (address = m_next_address tt)
      then with_next tt false (m_next_time tt) (m_next_address tt) else tt).

End TimerTable.

Inductive AccessType : Set := AccessType_Read | AccessType_Write.

#[global] Instance AccessType_eq_dec : EqDecision AccessType.
Proof. solve_decision. Defined.

Module PersistentTable.

Record entry := mkEntry {
  m_starving : NetDest.t;
  m_marked : NetDest.t;
  m_request_to_write : NetDest.t }.

Record t := mk { m_map : gmap Z entry }.

Definition create : t := mk ∅.

Section operations.
(** [counts] are the numbers of machines of each type, [junk] what new words hold. *)
Context (sys : RubySystem.t) (counts : list Z) (junk : Z).
Implicit Types (pt : t) (address : Z).

(** The default constructor of an entry. *)
Definition new_entry : outcome entry :=
  s ← NetDest.create counts junk;
  m ← NetDest.create counts junk;
  w ← NetDest.create counts junk;
  Ok (mkEntry s m w).

Definition persistentRequestLock pt address (locker : MachineID) (type : AccessType)
    : outcome t :=
  assert_that (is_line sys address);;
  dflt ← new_entry;
  let '(present, e) :=
    match m_map pt !! address with Some e => (true, e) | None => (false, dflt) end in
  (if present : bool
   then b ← NetDest.isElement counts (m_starving e) locker; assert_that (negb b)
   else Ok tt);;
  starving ← NetDest.add counts (m_starving e) locker;
  writers ← match type with
            | AccessType_Write => NetDest.add counts (m_request_to_write e) locker
            | AccessType_Read => Ok (m_request_to_write e)
            end;
  (if present : bool then b ← NetDest.isSubset (m_marked e) starving; assert_that b else Ok tt);;
  Ok (mk (<[address := mkEntry starving (m_marked e) writers]> (m_map pt))).

Definition persistentRequestUnlock pt address (unlocker : MachineID) : outcome t :=
  assert_that (is_line sys address);;
  match m_map pt !! address with
  | None => Err AssertFail
  | Some e =>
      b ← NetDest.isElement counts (m_starving e) unlocker; assert_that b;;
      b ← NetDest.isSubset (m_marked e) (m_starving e); assert_that b;;
      starving ← NetDest.remove counts (m_starving e) unlocker;
      marked ← NetDest.remove counts (m_marked e) unlocker;
      writers ← NetDest.remove counts (m_request_to_write e) unlocker;
      b ← NetDest.isSubset marked starving; assert_that b;;
      empty ← NetDest.isEmpty starving;
      if empty : bool then
        b ← NetDest.isEmpty marked; assert_that b;;
        Ok (mk (delete address (m_map pt)))
      else Ok (mk (<[address := mkEntry starving marked writers]> (m_map pt)))
  end.

Definition okToIssueStarving pt address (machId : MachineID) : outcome bool :=
  assert_that (is_line sys address);;
  match m_map pt !! address with
  | None => Ok true
  | Some e =>
      b ← NetDest.isElement counts (m_starving e) machId;
      if b : bool then Ok false else NetDest.isEmpty (m_marked e)
  end.

Definition findSmallest pt address : outcome MachineID :=
  assert_that (is_line sys address);;
  match m_map pt !! address with
  | None => Err AssertFail
  | Some e => NetDest.smallestElement counts (m_starving e)
  end.

Definition typeOfSmallest pt address : outcome AccessType :=
  assert_that (is_line sys address);;
  match m_map pt !! address with
  | None => Err AssertFail
  | Some e =>
      m ← NetDest.smallestElement counts (m_starving e);
      b ← NetDest.isElement counts (m_request_to_write e) m;
      Ok (if b : bool then AccessType_Write else AccessType_Read)
  end.

Definition markEntries pt address : outcome t :=
  assert_that (is_line sys address);;
  match m_map pt !! address with
  | None => Ok pt
  | Some e =>
      b ← NetDest.isEmpty (m_marked e); assert_that b;;
      Ok (mk (<[address := mkEntry (m_starving e) (m_starving e) (m_request_to_write e)]>
                (m_map pt)))
  end.

Definition isLocked pt address : outcome bool :=
  assert_that (is_line sys address);;
  Ok (bool_decide (is_Some (m_map pt !! address))).

Definition countStarvingForAddress pt address : outcome Z :=
  assert_that (is_line sys address);;
  match m_map pt !! address with
  | None => Ok 0
  | Some e => NetDest.count (m_starving e)
  end.

Definition countReadStarvingForAddress pt address : outcome Z :=
  assert_that (is_line sys address);;
  match m_map pt !! address with
  | None => Ok 0
  | Some e =>
      n ← NetDest.count (m_starving e);
      k ← NetDest.count (m_request_to_write e);
      Ok (n - k)
  end.

End operations.
End PersistentTable.

Module PerfectCacheMemory.

(** [None] is [AccessPermission_NUM], which a new line state has. *)
Record line_state (E : Type) := mkLine { m_permission : option AccessPermission; m_entry : E }.
Arguments mkLine {E}.
Arguments m_permission {E}.
Arguments m_entry {E}.

Record t (E : Type) := mk { m_map : gmap Z (line_state E) }.
Arguments mk {E}.
Arguments m_map {E}.

Section operations.
(** [dflt] is the entry its constructor makes. *)
Context {E : Type} (sys : RubySystem.t) (dflt : E).
Implicit Types (c : t E) (address : Z).

Definition create : t E := mk ∅.

Definition isTagPresent c address : bool :=
  bool_decide (is_Some (m_map c !! Address.line_address sys address)).

Definition cacheAvail c address : bool := true.

Definition allocate c address : t E :=
  mk (<[Address.line_address sys address := mkLine (Some Invalid) dflt]> (m_map c)).

Definition deallocate c address : t E :=
  mk (delete (Address.line_address sys address) (m_map c)).

Definition cacheProbe c (newAddress : Z) : outcome Z := Err PanicFault.

(** [m_map[line_address(address)]] makes a line state where there is none. *)
Definition get_line c address : line_state E * t E :=
  let a := Address.line_address sys address in
  match m_map c !! a with
  | Some l => (l, c)
  | None => (mkLine None dflt, mk (<[a := mkLine None dflt]> (m_map c)))
  end.

Definition lookup c address : E * t E :=
  let '(l, c) := get_line c address in (m_entry l, c).

Definition getPermission c address : option AccessPermission * t E :=
  let '(l, c) := get_line c address in (m_permission l, c).

Definition changePermission c address (new_perm : AccessPermission) : t E :=
  let '(l, c) := get_line c address in
  mk (<[Address.makeLineAddress sys address := mkLine (Some new_perm) (m_entry l)]> (m_map c)).

End operations.
End PerfectCacheMemory.

(** ** Transactions *)

Section transactions.
Context {E : Type} (sys : RubySystem.t) (dflt : E).
Implicit Types (tb : TBETable.t E) (a n : Z).
Import TBETable.

(** The table is a map on line addresses within its bound, which is an [int]. *)
Definition tbe_ok tb : Prop :=
  0 ≤ m_number_of_TBEs tb < 2 ^ 31 ∧ msize tb ≤ m_number_of_TBEs tb ∧
  map_Forall (λ a _, is_line sys a = true) (m_map tb).

Lemma tbe_bound tb : tbe_ok tb → u64 (m_number_of_TBEs tb) = m_number_of_TBEs tb.
Proof.
  intros (Hn & _). unfold u64. apply uwrap_id. unfold fits.
  assert (2 ^ 31 < 2 ^ 64) by by apply Z.pow_lt_mono_r. lia.
Qed.

Lemma isPresent_eq tb a : tbe_ok tb → is_line sys a = true →
  isPresent sys tb a = Ok (bool_decide (is_Some (lookup tb a))).
Proof.
  intros Hok Ha. unfold isPresent. rewrite Ha, (tbe_bound _ Hok).
  destruct Hok as (_ & Hs & _). by rewrite (bool_decide_eq_true_2 _ Hs).
Qed.

Lemma tbe_slots tb n : tbe_ok tb → 0 ≤ n < 2 ^ 31 →
  areNSlotsAvailable tb n = bool_decide (msize tb + n ≤ m_number_of_TBEs tb).
Proof.
  intros (Hb & Hs & _) Hn. unfold areNSlotsAvailable, u64.
  assert (2 ^ 31 < 2 ^ 64) by by apply Z.pow_lt_mono_r.
  assert (0 ≤ msize tb) by (unfold msize; lia).
  rewrite !uwrap_id by (unfold fits; lia). apply bool_decide_ext. lia.
Qed.

Lemma allocate_free tb a : tbe_ok tb → is_line sys a = true → lookup tb a = None →
  msize tb < m_number_of_TBEs tb →
  ∃ tb', allocate sys dflt tb a = Ok tb' ∧ tbe_ok tb' ∧ msize tb' = msize tb + 1 ∧
    m_number_of_TBEs tb' = m_number_of_TBEs tb ∧
    ∀ b, lookup tb' b = if decide (b = a) then Some dflt else lookup tb b.
Proof.
  intros Hok Ha Hnone Hroom. unfold allocate. rewrite isPresent_eq by done.
  assert (¬ is_Some (lookup tb a)) as Hno by (rewrite Hnone; apply is_Some_None).
  rewrite (bool_decide_eq_false_2 _ Hno), (tbe_bound _ Hok), (bool_decide_eq_true_2 _ Hroom).
  eexists. split; [reflexivity|].
  assert (size (<[a := dflt]> (m_map tb)) = S (size (m_map tb))) as Hsz
    by by apply map_size_insert_None.
  unfold tbe_ok, msize in *. cbn [m_map m_number_of_TBEs]. destruct Hok as (? & ? & Hf).
  split_and!; try done; try lia.
  - by apply map_Forall_insert_2.
  - intros b. unfold lookup. cbn [m_map]. destruct (decide (b = a)) as [->|];
      [by rewrite lookup_insert_eq|by rewrite lookup_insert_ne].
Qed.

Lemma deallocate_used tb a e : tbe_ok tb → is_line sys a = true → lookup tb a = Some e →
  ∃ tb', deallocate sys tb a = Ok tb' ∧ tbe_ok tb' ∧ msize tb' = msize tb - 1 ∧
    m_number_of_TBEs tb' = m_number_of_TBEs tb ∧
    ∀ b, lookup tb' b = if decide (b = a) then None else lookup tb b.
Proof.
  intros Hok Ha Hsome. unfold deallocate. rewrite isPresent_eq by done.
  assert (is_Some (lookup tb a)) as Hyes by by exists e. rewrite (bool_decide_eq_true_2 _ Hyes).
  assert (size (m_map tb) ≠ 0%nat) as Hnz.
  { intros Hz%map_size_empty_inv. unfold lookup in Hsome. by rewrite Hz, lookup_empty in Hsome. }
  assert (0 < msize tb) as Hpos by (unfold msize; lia). rewrite (bool_decide_eq_true_2 _ Hpos).
  eexists. split; [reflexivity|].
  assert (size (delete a (m_map tb)) = pred (size (m_map tb))) as Hsz
    by (apply map_size_delete_Some; by exists e).
  unfold tbe_ok, msize in *. cbn [m_map m_number_of_TBEs]. destruct Hok as (? & ? & Hf).
  split_and!; try done; try lia.
  - by apply map_Forall_delete.
  - intros b. unfold lookup. cbn [m_map]. destruct (decide (b = a)) as [->|];
      [by rewrite lookup_delete_eq|by rewrite lookup_delete_ne].
Qed.

(** The transaction table is a partial map on line addresses with a bound.  The
    test for free slots is exact; an allocation succeeds exactly when the address has
    no transaction and there is a slot, and adds the default entry; a deallocation
    succeeds exactly when it has one, and frees its slot; the other entries stay. *)
Theorem tbe_refines_bounded_map tb a n : tbe_ok tb → is_line sys a = true → 0 ≤ n < 2 ^ 31 →
  areNSlotsAvailable tb n = bool_decide (msize tb + n ≤ m_number_of_TBEs tb) ∧
  isPresent sys tb a = Ok (bool_decide (is_Some (lookup tb a))) ∧
  (if decide (lookup tb a = None ∧ areNSlotsAvailable tb 1 = true)
   then ∃ tb', allocate sys dflt tb a = Ok tb' ∧ tbe_ok tb' ∧ msize tb' = msize tb + 1 ∧
     ∀ b, lookup tb' b = if decide (b = a) then Some dflt else lookup tb b
   else allocate sys dflt tb a = Err AssertFail) ∧
  (if decide (is_Some (lookup tb a))
   then ∃ tb', deallocate sys tb a = Ok tb' ∧ tbe_ok tb' ∧ msize tb' = msize tb - 1 ∧
     ∀ b, lookup tb' b = if decide (b = a) then None else lookup tb b
   else deallocate sys tb a = Err AssertFail).
Proof.
  intros Hok Ha Hn. split; [by apply tbe_slots|]. split; [by apply isPresent_eq|].
  rewrite (tbe_slots tb 1) by done. split.
  - destruct (decide _) as [[H1 H2%bool_decide_eq_true]|Hno].
    + destruct (allocate_free tb a) as (tb' & ? & ? & ? & _ & ?); [done..|lia|]. eauto.
    + unfold allocate. rewrite isPresent_eq, (tbe_bound _ Hok) by done.
      destruct (lookup tb a) as [e|] eqn:Hl; [done|].
      assert (¬ msize tb < m_number_of_TBEs tb) as Hfull; [|by rewrite (bool_decide_eq_false_2 _ Hfull)].
      intros H. apply Hno. split; [done|]. apply bool_decide_eq_true. lia.
  - destruct (decide _) as [[e He]|Hno].
    + destruct (deallocate_used tb a e) as (tb' & ? & ? & ? & _ & ?); [done..|]. eauto.
    + unfold deallocate. rewrite isPresent_eq by done. by rewrite (bool_decide_eq_false_2 _ Hno).
Qed.

End transactions.

(** ** Timers *)

Section timers.
Context (sys : RubySystem.t).
Implicit Types (tt : TimerTable.t) (m : list (Z * Z)) (p q : Z * Z) (now a : Z).
Import TimerTable.

(** The timer that expires first; of several, the one with the lowest address. *)
Definition is_earliest q m : Prop :=
  q ∈ m ∧ ∀ r, r ∈ m → q.2 < r.2 ∨ (q.2 = r.2 ∧ q.1 ≤ r.1).

Definition timer_ok tt : Prop :=
  StronglySorted (λ p q, p.1 < q.1) (m_map tt) ∧
  (m_next_valid tt = true → is_earliest (m_next_address tt, m_next_time tt) (m_map tt)).

Lemma earliest_spec p m : StronglySorted (λ p q, p.1 < q.1) (p :: m) →
  is_earliest (earliest p m) (p :: m).
Proof.
  unfold earliest. revert p. induction m as [|q m IH]; intros p Hs; cbn [foldl].
  { split; [by left|]. intros r ->%list_elem_of_singleton. lia. }
  apply StronglySorted_inv in Hs as [Hs Hp]. pose proof Hs as Hs'.
  apply StronglySorted_inv in Hs' as [Hs' Hq].
  rewrite !Forall_forall in Hp, Hq.
  destruct (decide (q.2 < p.2)) as [Hlt|Hge].
  - destruct (IH q Hs) as [Hin Hmin]. split; [by right|].
    intros r [->|Hr]%elem_of_cons; [|by apply Hmin].
    destruct (Hmin q) as [?|[? ?]]; [apply list_elem_of_here|lia|lia].
  - destruct (IH p) as [Hin Hmin].
    { constructor; [done|]. apply Forall_forall. intros r Hr. apply Hp. by right. }
    split; [apply elem_of_cons in Hin as [->|?]; [by left|by right; right]|].
    intros r [->|[->|Hr]%elem_of_cons]%elem_of_cons; [by apply Hmin; left| |by apply Hmin; right].
    pose proof (Hp q ltac:(by left)).
    destruct (Hmin p) as [?|[? ?]]; [by left|lia|]. lia.
Qed.

Lemma updateNext_ok tt : timer_ok tt → m_map tt ≠ [] →
  ∃ tt', updateNext tt = Ok tt' ∧ timer_ok tt' ∧ m_next_valid tt' = true ∧
    m_map tt' = m_map tt ∧ m_clockobj_ptr tt' = m_clockobj_ptr tt.
Proof.
  intros [Hs Hn] Hne. unfold updateNext. destruct (m_map tt) as [|p m] eqn:Hm; [done|].
  eexists. split; [reflexivity|]. cbn. split_and!; try done. split; cbn; rewrite Hm; [done|].
  intros _. rewrite <- surjective_pairing. by apply earliest_spec.
Qed.

Lemma insert_sorted_elem a time m q :
  q ∈ insert_sorted a time m ↔ q = (a, time) ∨ q ∈ m.
Proof.
  induction m as [|p m IH]; cbn; [set_solver|].
  destruct (decide _); rewrite !elem_of_cons; [done|]. rewrite IH. tauto.
Qed.

Lemma insert_sorted_sorted a time m : StronglySorted (λ p q, p.1 < q.1) m → a ∉ m.*1 →
  StronglySorted (λ p q, p.1 < q.1) (insert_sorted a time m).
Proof.
  induction m as [|p m IH]; cbn; intros Hs Ha; [by repeat constructor|].
  apply not_elem_of_cons in Ha as [Hne Ha]. pose proof Hs as Hs'.
  apply StronglySorted_inv in Hs' as [Hs' Hp]. rewrite Forall_forall in Hp.
  destruct (decide (a < p.1)).
  - constructor; [done|]. apply Forall_forall.
    intros q [->|Hq]%elem_of_cons; cbn; [done|]. specialize (Hp q Hq). lia.
  - constructor; [by apply IH|]. apply Forall_forall.
    intros q [->|Hq]%insert_sorted_elem; cbn; [lia|]. by apply Hp.
Qed.

Lemma set_ok now tt a latency tt' posted : timer_ok tt →
  set sys now tt a latency = Ok (tt', posted) →
  timer_ok tt' ∧ m_clockobj_ptr tt' = m_clockobj_ptr tt ∧
  ∃ clk, m_clockobj_ptr tt = Some clk ∧
    ∀ q, q ∈ m_map tt' ↔
      q = (a, u64 (ClockedObject.curCycle now clk + latency)) ∨ q ∈ m_map tt.
Proof.
  intros [Hs Hn] H. unfold set in H. apply bind_Ok in H as (_ & _ & H).
  apply bind_Ok in H as (_ & _ & H). apply bind_Ok in H as ([] & Hset%assert_that_Ok & H).
  apply bind_Ok in H as (clk & Hclk%from_option_or_Ok & H).
  apply negb_true_iff, bool_decide_eq_false in Hset.
  destruct (m_consumer_ptr _); [|done]. injection H as <- _.
  destruct (decide _); cbn; (split; [split; cbn; [by apply insert_sorted_sorted|done]|]);
    (split; [done|]); exists clk; (split; [done|]); intros q; apply insert_sorted_elem.
Qed.

Lemma filter_sorted m a : StronglySorted (λ p q, p.1 < q.1) m →
  StronglySorted (λ p q, p.1 < q.1) (filter (λ p, p.1 ≠ a) m).
Proof.
  induction 1 as [|p m Hm IH Hp]; [constructor|]. rewrite filter_cons.
  destruct (decide _); [|done]. constructor; [done|]. rewrite Forall_forall in Hp |- *.
  intros q [_ Hq]%list_elem_of_filter. by apply Hp.
Qed.

Lemma unset_ok tt a tt' : timer_ok tt → unset sys tt a = Ok tt' →
  timer_ok tt' ∧ m_clockobj_ptr tt' = m_clockobj_ptr tt ∧
  ∀ q, q ∈ m_map tt' ↔ q ∈ m_map tt ∧ q.1 ≠ a.
Proof.
  intros [Hs Hn] H. unfold unset in H. apply bind_Ok in H as (_ & _ & H).
  apply bind_Ok in H as (_ & _ & H). injection H as <-.
  destruct (decide _) as [->|Hne]; cbn in *;
    (split; [split; cbn; [by apply filter_sorted|]|]); try done.
  - split; [done|]. intros q. rewrite list_elem_of_filter. tauto.
  - intros Hv. destruct (Hn Hv) as [Hin Hmin]. split.
    + apply list_elem_of_filter. by split.
    + intros r [_ Hr]%list_elem_of_filter. by apply Hmin.
  - split; [done|]. intros q. rewrite list_elem_of_filter. tauto.
Qed.

(** Calls of the table, each at a time, after its clock and consumer were set. *)
Inductive timer_call : Type :=
  | Set_timer (now address latency : Z)
  | Unset_timer (address : Z)
  | Query (now : Z).

Definition call tt (c : timer_call) : outcome TimerTable.t :=
  match c with
  | Set_timer now a latency => fst <$> set sys now tt a latency
  | Unset_timer a => unset sys tt a
  | Query now => snd <$> isReady now tt
  end.

Lemma isReady_ok now tt clk : timer_ok tt → m_clockobj_ptr tt = Some clk →
  ∃ b tt', isReady now tt = Ok (b, tt') ∧ timer_ok tt' ∧ m_map tt' = m_map tt ∧
    m_clockobj_ptr tt' = Some clk ∧ (m_map tt ≠ [] → m_next_valid tt' = true) ∧
    (b = true ↔ ∃ q, q ∈ m_map tt ∧ q.2 ≤ ClockedObject.curCycle now clk).
Proof.
  intros Hok Hclk. unfold isReady. destruct (decide (m_map tt = [])) as [E|Hne].
  { rewrite E. exists false, tt. split_and!; try done. split; [done|].
    intros (q & Hq & _). by apply elem_of_nil in Hq. }
  assert (∃ tt', (if m_next_valid tt then Ok tt else updateNext tt) = Ok tt' ∧ timer_ok tt' ∧
    m_next_valid tt' = true ∧ m_map tt' = m_map tt ∧ m_clockobj_ptr tt' = m_clockobj_ptr tt)
    as (tt' & Htt & Hok' & Hv & Hm & Hc).
  { destruct (m_next_valid tt) eqn:Hv; [by exists tt|by apply updateNext_ok]. }
  destruct (m_map tt) as [|p m] eqn:E; [done|]. rewrite Htt. cbn [mbind outcome_bind].
  rewrite Hv, Hc, Hclk. cbn. eexists _, tt'. split; [reflexivity|]. split_and!; try done;
    [by rewrite Hc|]. rewrite bool_decide_eq_true. destruct (proj2 Hok' Hv) as [Hin Hmin].
  rewrite Hm in Hin, Hmin. split; [by eauto|]. intros (q & Hq & Hle).
  specialize (Hmin q Hq). cbn in Hmin. lia.
Qed.

Lemma calls_ok tt cs tt' clk : timer_ok tt → m_clockobj_ptr tt = Some clk →
  mfold call tt cs = Ok tt' → timer_ok tt' ∧ m_clockobj_ptr tt' = Some clk.
Proof.
  intros Hok Hclk. apply (mfold_inv (λ tt, timer_ok tt ∧ m_clockobj_ptr tt = Some clk)); [|done].
  intros t1 [now a latency|a|now] t2 _ [Hok1 Hclk1]; cbn [call].
  - destruct (set sys now t1 a latency) as [[t3 posted]|] eqn:E; [|done]. intros [= <-].
    apply set_ok in E as (? & ? & _); [|done]. split; congruence.
  - intros E. apply unset_ok in E as (? & ? & _); [|done]. split; congruence.
  - destruct (isReady_ok now t1 clk Hok1 Hclk1) as (b & t3 & -> & ? & _ & ? & _).
    cbn. by intros [= <-].
Qed.

(** After any calls of a timer table, it is ready exactly when some timer has
    expired, and then its ready address is that of the timer that expired first, the
    lowest one of several; asking does not change the timers. *)
Theorem timer_ready_first consumer clk cs now : ∀ t0 t1 tt,
  setConsumer create consumer = Ok t0 → setClockObj t0 clk = Ok t1 →
  mfold call t1 cs = Ok tt →
  ∃ b tt', isReady now tt = Ok (b, tt') ∧ m_map tt' = m_map tt ∧
    (b = true ↔ ∃ q, q ∈ m_map tt ∧ q.2 ≤ ClockedObject.curCycle now clk) ∧
    (b = true → ∃ a time, readyAddress now tt = Ok (a, tt') ∧
       is_earliest (a, time) (m_map tt)) ∧
    (b = false → readyAddress now tt = Err AssertFail).
Proof.
  intros t0 t1 tt [= <-] [= <-] Hcs.
  apply (calls_ok _ _ _ clk) in Hcs as [Hok Hclk]; [|by split; [constructor|]|done].
  destruct (isReady_ok now tt clk Hok Hclk) as (b & tt' & Hr & Hok' & Hm & _ & Hv & Hb).
  exists b, tt'. split; [done|]. split; [done|]. split; [done|]. unfold readyAddress. rewrite Hr.
  split; [|by intros ->]. intros ->. cbn [mbind outcome_bind assert_that fst snd].
  assert (m_next_valid tt' = true) as Hv'.
  { apply Hv. destruct (proj1 Hb eq_refl) as (q & Hq & _). intros E. rewrite E in Hq.
    by apply elem_of_nil in Hq. }
  rewrite Hv'. cbn. rewrite Hv'. cbn. eexists _, (m_next_time tt'). split; [done|].
  rewrite <- Hm. by apply (proj2 Hok').
Qed.

End timers.

(** ** Persistent requests *)

Section persistent.
Context (sys : RubySystem.t) (counts : list Z) (junk : Z).
Hypothesis Hcounts : Forall (λ n, 0 ≤ n ≤ 31) counts.
Implicit Types (pt : PersistentTable.t) (a : Z) (m : MachineID) (S M W D : gset MachineID).
Import PersistentTable.

(** The machines that starve for a line, those of the current wave, and those that
    want to write. *)
Record wave := mkWave { starving : gset MachineID; marked : gset MachineID; writers : gset MachineID }.

Definition no_wave : wave := mkWave ∅ ∅ ∅.

Definition entry_repr (x : wave) (e : entry) : Prop :=
  dest_repr counts (starving x) (m_starving e) ∧ dest_repr counts (marked x) (m_marked e) ∧
  dest_repr counts (writers x) (m_request_to_write e) ∧
  marked x ⊆ starving x ∧ writers x ⊆ starving x ∧ starving x ≠ ∅.

Definition table_repr (A : gmap Z wave) pt : Prop :=
  ∀ a, option_Forall2 entry_repr (A !! a) (m_map pt !! a).

Definition wave_at (A : gmap Z wave) a : wave := default no_wave (A !! a).

Definition locked (A : gmap Z wave) a m (type : AccessType) : gmap Z wave :=
  let x := wave_at A a in
  <[a := mkWave ({[m]} ∪ starving x) (marked x)
           (match type with AccessType_Write => {[m]} ∪ writers x | _ => writers x end)]> A.

Definition unlocked (A : gmap Z wave) a m : gmap Z wave :=
  let x := wave_at A a in
  if decide (starving x ∖ {[m]} = ∅) then delete a A
  else <[a := mkWave (starving x ∖ {[m]}) (marked x ∖ {[m]}) (writers x ∖ {[m]})]> A.

Lemma table_repr_insert A pt a x e : table_repr A pt → entry_repr x e →
  table_repr (<[a := x]> A) (mk (<[a := e]> (m_map pt))).
Proof.
  intros HA He b. cbn. destruct (decide (a = b)) as [->|Hne].
  - rewrite !lookup_insert_eq. by constructor.
  - rewrite !lookup_insert_ne by done. apply HA.
Qed.

Lemma table_repr_at A pt a : table_repr A pt →
  (m_map pt !! a = None ∧ wave_at A a = no_wave ∧ A !! a = None) ∨
  (∃ e, m_map pt !! a = Some e ∧ A !! a = Some (wave_at A a) ∧ entry_repr (wave_at A a) e).
Proof.
  intros HA. unfold wave_at. specialize (HA a). inversion HA as [x e Hx E1 E2|E1 E2]; cbn.
  - right. by exists e.
  - by left.
Qed.

Lemma lock_refines A pt a m type : table_repr A pt → is_line sys a = true →
  machine_ok counts m →
  if decide (m ∈ starving (wave_at A a))
  then persistentRequestLock sys counts junk pt a m type = Err AssertFail
  else ∃ pt', persistentRequestLock sys counts junk pt a m type = Ok pt' ∧
    table_repr (locked A a m type) pt'.
Proof.
  intros HA Ha Hm. unfold persistentRequestLock. rewrite Ha. cbn [mbind outcome_bind assert_that].
  destruct (dest_create counts junk Hcounts) as (d & Hd & Hd0 & _).
  unfold new_entry. rewrite Hd. cbn [mbind outcome_bind].
  assert (∃ (present : bool) e, match m_map pt !! a with
      | Some e => (true, e) | None => (false, mkEntry d d d) end = (present, e) ∧
    dest_repr counts (starving (wave_at A a)) (m_starving e) ∧
    dest_repr counts (marked (wave_at A a)) (m_marked e) ∧
    dest_repr counts (writers (wave_at A a)) (m_request_to_write e) ∧
    marked (wave_at A a) ⊆ starving (wave_at A a) ∧ writers (wave_at A a) ⊆ starving (wave_at A a) ∧
    (present = false → wave_at A a = no_wave)) as (present & e & -> & Hs & Hk & Hw & Hks & Hws & Hnp).
  { destruct (table_repr_at A pt a HA) as [(-> & -> & _)|(e & -> & _ & (? & ? & ? & ? & ? & _))].
    - exists false, (mkEntry d d d). by split_and!.
    - exists true, e. by split_and!. }
  destruct (dest_add counts _ _ m Hs Hm) as (s' & Hs' & Hrs).
  destruct (dest_add counts _ _ m Hw Hm) as (w' & Hw' & Hrw).
  rewrite (dest_isElement counts _ _ m Hs Hm).
  pose proof (dest_isSuperset counts _ _ _ _ Hrs Hk) as Hsub. unfold NetDest.isSubset.
  rewrite (bool_decide_eq_true_2 (marked (wave_at A a) ⊆ _)) in Hsub by set_solver.
  destruct (decide (m ∈ starving (wave_at A a))) as [Hin|Hout].
  { destruct present; [by rewrite bool_decide_eq_true_2|].
    rewrite Hnp in Hin by done. by apply not_elem_of_empty in Hin. }
  exists (mk (<[a := mkEntry s' (m_marked e) (match type with AccessType_Write => w'
    | AccessType_Read => m_request_to_write e end)]> (m_map pt))). split.
  - rewrite (bool_decide_eq_false_2 _ Hout).
    by destruct present, type; cbn [mbind outcome_bind negb assert_that]; rewrite Hs';
      cbn [mbind outcome_bind]; rewrite ?Hw'; cbn [mbind outcome_bind]; rewrite ?Hsub.
  - apply table_repr_insert; [done|]. split_and!; cbn; try done; [|set_solver|..].
    + by destruct type.
    + destruct type; set_solver.
    + set_solver.
Qed.

Lemma unlock_refines A pt a m : table_repr A pt → is_line sys a = true → machine_ok counts m →
  if decide (m ∈ starving (wave_at A a))
  then ∃ pt', persistentRequestUnlock sys counts pt a m = Ok pt' ∧
    table_repr (unlocked A a m) pt'
  else persistentRequestUnlock sys counts pt a m = Err AssertFail.
Proof.
  intros HA Ha Hm. unfold persistentRequestUnlock. rewrite Ha. cbn [mbind outcome_bind assert_that].
  destruct (table_repr_at A pt a HA) as [(-> & -> & _)|(e & -> & HAa & (Hs & Hk & Hw & Hks & Hws & Hne))].
  { destruct (decide _) as [Hin|]; [by apply not_elem_of_empty in Hin|done]. }
  rewrite (dest_isElement counts _ _ m Hs Hm).
  destruct (decide (m ∈ _)) as [Hin|Hout]; [|by rewrite bool_decide_eq_false_2].
  rewrite (bool_decide_eq_true_2 _ Hin). cbn [mbind outcome_bind assert_that].
  unfold NetDest.isSubset. rewrite (dest_isSuperset counts _ _ _ _ Hs Hk).
  rewrite (bool_decide_eq_true_2 _ Hks). cbn [mbind outcome_bind assert_that].
  destruct (dest_remove counts _ _ m Hs Hm) as (s' & -> & Hrs).
  destruct (dest_remove counts _ _ m Hk Hm) as (k' & -> & Hrk).
  destruct (dest_remove counts _ _ m Hw Hm) as (w' & -> & Hrw). cbn [mbind outcome_bind].
  rewrite (dest_isSuperset counts _ _ _ _ Hrs Hrk).
  rewrite (bool_decide_eq_true_2 (marked (wave_at A a) ∖ _ ⊆ _)) by set_solver.
  cbn [mbind outcome_bind assert_that]. rewrite (dest_isEmpty counts _ _ Hrs).
  rewrite (dest_isEmpty counts _ _ Hrk). cbn [mbind outcome_bind]. unfold unlocked.
  destruct (decide (starving (wave_at A a) ∖ {[m]} = ∅)) as [He|He].
  - rewrite (bool_decide_eq_true_2 _ He).
    rewrite (bool_decide_eq_true_2 (marked (wave_at A a) ∖ _ = ∅)) by set_solver.
    eexists. split; [done|]. intros b. cbn. destruct (decide (a = b)) as [->|Hab].
    + rewrite !lookup_delete_eq. constructor.
    + rewrite !lookup_delete_ne by done. apply HA.
  - rewrite (bool_decide_eq_false_2 _ He). eexists. split; [done|].
    apply table_repr_insert; [done|]. split_and!; cbn; try done; set_solver.
Qed.

Lemma mark_refines A pt a : table_repr A pt → is_line sys a = true →
  if decide (marked (wave_at A a) = ∅)
  then ∃ pt', markEntries sys pt a = Ok pt' ∧
    table_repr (match A !! a with
                | Some x => <[a := mkWave (starving x) (starving x) (writers x)]> A
                | None => A end) pt'
  else markEntries sys pt a = Err AssertFail.
Proof.
  intros HA Ha. unfold markEntries. rewrite Ha. cbn [mbind outcome_bind assert_that].
  destruct (table_repr_at A pt a HA) as [(-> & -> & ->)|(e & -> & HAa & (Hs & Hk & Hw & Hks & Hws & Hne))].
  { rewrite decide_True by done. by exists pt. }
  rewrite (dest_isEmpty counts _ _ Hk), HAa.
  destruct (decide _) as [He|He]; [|by rewrite (bool_decide_eq_false_2 _ He)].
  rewrite (bool_decide_eq_true_2 _ He). eexists. split; [reflexivity|].
  apply table_repr_insert; [done|]. by split_and!.
Qed.

Lemma okToIssue_refines A pt a m : table_repr A pt → is_line sys a = true →
  machine_ok counts m →
  okToIssueStarving sys counts pt a m =
    Ok (bool_decide (m ∉ starving (wave_at A a) ∧ marked (wave_at A a) = ∅)).
Proof.
  intros HA Ha Hm. unfold okToIssueStarving. rewrite Ha. cbn [mbind outcome_bind assert_that].
  destruct (table_repr_at A pt a HA) as [(-> & -> & _)|(e & -> & _ & (Hs & Hk & _))].
  { by rewrite bool_decide_eq_true_2. }
  rewrite (dest_isElement counts _ _ m Hs Hm). cbn [mbind outcome_bind].
  destruct (decide (m ∈ starving (wave_at A a))) as [Hin|Hout].
  - rewrite (bool_decide_eq_true_2 _ Hin), bool_decide_eq_false_2; [done|]. tauto.
  - rewrite (bool_decide_eq_false_2 _ Hout), (dest_isEmpty counts _ _ Hk). f_equal.
    apply bool_decide_ext. tauto.
Qed.

(** The table of persistent requests refines a map from lines to the machines
    that starve for them, those of the current wave and those that want to write: a
    lock is accepted from a machine that does not starve, an unlock from one that
    does, a new wave is marked when the last one is over, and the counts and the order
    of service are those of the sets. *)
Theorem persistent_refines A pt a m type : table_repr A pt → is_line sys a = true →
  machine_ok counts m →
  let x := wave_at A a in
  (if decide (m ∈ starving x)
   then persistentRequestLock sys counts junk pt a m type = Err AssertFail
   else ∃ pt', persistentRequestLock sys counts junk pt a m type = Ok pt' ∧
     table_repr (locked A a m type) pt') ∧
  (if decide (m ∈ starving x)
   then ∃ pt', persistentRequestUnlock sys counts pt a m = Ok pt' ∧ table_repr (unlocked A a m) pt'
   else persistentRequestUnlock sys counts pt a m = Err AssertFail) ∧
  (if decide (marked x = ∅)
   then ∃ pt', markEntries sys pt a = Ok pt' ∧
     table_repr (match A !! a with
                 | Some x => <[a := mkWave (starving x) (starving x) (writers x)]> A
                 | None => A end) pt'
   else markEntries sys pt a = Err AssertFail) ∧
  isLocked sys pt a = Ok (bool_decide (starving x ≠ ∅)) ∧
  countStarvingForAddress sys pt a = Ok (Z.of_nat (size (starving x))) ∧
  countReadStarvingForAddress sys pt a = Ok (Z.of_nat (size (starving x ∖ writers x))) ∧
  (starving x ≠ ∅ → ∃ m', findSmallest sys counts pt a = Ok m' ∧ m' ∈ starving x ∧
     (∀ k, k ∈ starving x → machine_le m' k) ∧
     typeOfSmallest sys counts pt a =
       Ok (if decide (m' ∈ writers x) then AccessType_Write else AccessType_Read)).
Proof.
  intros HA Ha Hm x. split; [by apply lock_refines|]. split; [by apply unlock_refines|].
  split; [by apply mark_refines|].
  unfold isLocked, countStarvingForAddress, countReadStarvingForAddress, findSmallest, typeOfSmallest.
  rewrite Ha. cbn [mbind outcome_bind assert_that]. subst x.
  destruct (table_repr_at A pt a HA) as [(-> & -> & _)|(e & -> & _ & (Hs & Hk & Hw & Hks & Hws & Hne))].
  { by split_and!. }
  rewrite (dest_count counts _ _ Hs), (dest_count counts _ _ Hw). cbn [mbind outcome_bind].
  split_and!; [|done| |].
  - f_equal. apply bool_decide_ext. by split; [|eauto].
  - f_equal. rewrite size_difference by done. pose proof (subseteq_size _ _ Hws). lia.
  - intros _. destruct (dest_smallest counts _ _ Hs Hne) as (m' & -> & Hin & Hle).
    exists m'. split_and!; try done. cbn [mbind outcome_bind].
    rewrite (dest_isElement counts _ _ m' Hw) by (by apply Hs).
    cbn [mbind outcome_bind]. by destruct (decide (m' ∈ _)) as [H|H];
      [rewrite (bool_decide_eq_true_2 _ H)|rewrite (bool_decide_eq_false_2 _ H)].
Qed.

(** Requests for one line: [inl] locks and [inr] unlocks. *)
Definition request a pt (r : MachineID * AccessType + MachineID) : outcome PersistentTable.t :=
  match r with
  | inl (m, type) => persistentRequestLock sys counts junk pt a m type
  | inr m => persistentRequestUnlock sys counts pt a m
  end.

Definition requestor (r : MachineID * AccessType + MachineID) : MachineID :=
  match r with inl (m, _) => m | inr m => m end.

(** A marked machine stays marked until it unlocks. *)
Lemma wave_step A pt a r pt' : table_repr A pt → is_line sys a = true →
  machine_ok counts (requestor r) → request a pt r = Ok pt' →
  ∃ A', table_repr A' pt' ∧
    ∀ k, k ∈ marked (wave_at A a) → r ≠ inr k → k ∈ marked (wave_at A' a).
Proof.
  intros HA Ha Hr Hrq. destruct r as [[m type]|m]; cbn [request requestor] in *.
  - pose proof (lock_refines A pt a m type HA Ha Hr) as HL.
    destruct (decide _); [congruence|]. destruct HL as (p2 & Hp2 & HA1).
    assert (p2 = pt') as -> by congruence. exists (locked A a m type). split; [done|]. intros k Hk _.
    unfold locked. unfold wave_at at 1. by rewrite lookup_insert_eq.
  - pose proof (unlock_refines A pt a m HA Ha Hr) as HL.
    destruct (decide _); [|congruence]. destruct HL as (p2 & Hp2 & HA1).
    assert (p2 = pt') as -> by congruence. exists (unlocked A a m). split; [done|]. intros k Hk Hne.
    assert (k ≠ m) by congruence. unfold unlocked.
    destruct (table_repr_at A pt a HA) as [(_ & E & _)|(e0 & _ & _ & (_ & _ & _ & Hks & _))];
      [rewrite E in Hk; by apply not_elem_of_empty in Hk|].
    destruct (decide _); [set_solver|].
    unfold wave_at at 1. rewrite lookup_insert_eq. cbn. set_solver.
Qed.

Lemma wave_run A pt a rs pt' : table_repr A pt → is_line sys a = true →
  Forall (λ r, machine_ok counts (requestor r)) rs → mfold (request a) pt rs = Ok pt' →
  ∃ A', table_repr A' pt' ∧
    ∀ k, k ∈ marked (wave_at A a) → inr k ∉ rs → k ∈ marked (wave_at A' a).
Proof.
  intros HA Ha. revert A pt HA. induction rs as [|r rs IH]; intros A pt HA Hms Hrs.
  { injection Hrs as <-. by exists A. }
  apply Forall_cons in Hms as [Hr Hms]. cbn [mfold] in Hrs. apply bind_Ok in Hrs as (p1 & Hp1 & Hrs).
  destruct (wave_step A pt a r p1 HA Ha Hr Hp1) as (A1 & HA1 & H1).
  destruct (IH A1 p1 HA1 Hms Hrs) as (A' & HA' & H'). exists A'. split; [done|].
  intros k Hk [? ?]%not_elem_of_cons. by auto.
Qed.

(** Waves are fair.  Once the machines that starve for a line are marked, no
    machine may issue another persistent request for it before every marked machine
    has been served and unlocked, whatever else happens. *)
Theorem persistent_wave A pt a pt0 rs pt' m : table_repr A pt → is_line sys a = true →
  markEntries sys pt a = Ok pt0 → mfold (request a) pt0 rs = Ok pt' →
  Forall (λ r, machine_ok counts (requestor r)) rs → machine_ok counts m →
  okToIssueStarving sys counts pt' a m = Ok true →
  ∀ k, k ∈ starving (wave_at A a) → inr k ∈ rs.
Proof.
  intros HA Ha Hmark Hrs Hms Hm Hok k Hk.
  pose proof (mark_refines A pt a HA Ha) as H. destruct (decide _) as [He|He]; [|congruence].
  destruct H as (p1 & Hp1 & HA0). rewrite Hmark in Hp1. injection Hp1 as <-.
  unfold wave_at in Hk. destruct (A !! a) as [x|] eqn:HAa; [|set_solver].
  destruct (wave_run _ _ a rs pt' HA0 Ha Hms Hrs) as (A' & HA' & H').
  rewrite (okToIssue_refines A' pt' a m HA' Ha Hm) in Hok. injection Hok as Hok.
  apply bool_decide_eq_true in Hok as [_ Hnone].
  destruct (decide (inr k ∈ rs)) as [|Hout]; [done|]. exfalso.
  specialize (H' k). rewrite Hnone in H'. unfold wave_at in H'. rewrite lookup_insert_eq in H'.
  by apply (not_elem_of_empty (C := gset MachineID) k), H'.
Qed.

End persistent.

(** ** Witnesses *)

Lemma tbe_refines_bounded_map_witness :
  ∃ tb, TBETable.allocate sys64 7 (TBETable.create 2) 64 = Ok tb ∧ TBETable.msize tb = 1 ∧
    TBETable.deallocate sys64 (TBETable.create (E := Z) 2) 64 = Err AssertFail.
Proof.
  destruct (tbe_refines_bounded_map sys64 7 (TBETable.create 2) 64 1) as (_ & _ & H1 & H2);
    [split_and!; done|done|done|].
  rewrite decide_True in H1 by done. rewrite decide_False in H2 by (intros [? ?]; done).
  destruct H1 as (tb & ? & _ & Hs & _). exists tb. by split_and!.
Defined.

(** Two timers, set at tick 5 with a period of one. *)
Lemma timer_ready_first_witness : ∃ tt, mfold (call sys64)
    (TimerTable.mk [] false 0 0 (Some (ClockedObject.create 1))
       (Some (Consumer.mk ∅ (ClockedObject.create 1))))
    [Set_timer 5 128 3; Set_timer 5 64 9] = Ok tt ∧
  ∃ tt', TimerTable.readyAddress 10 tt = Ok (128, tt').
Proof.
  eexists. split; [vm_compute; reflexivity|].
  edestruct (timer_ready_first sys64 (Consumer.mk ∅ (ClockedObject.create 1))
    (ClockedObject.create 1) [Set_timer 5 128 3; Set_timer 5 64 9] 10)
    as (b & tt' & _ & _ & Hb & Hr & _); [reflexivity|reflexivity|vm_compute; reflexivity|].
  destruct Hr as (a & time & Ha & _); [apply Hb; eexists (128, 8); split;
    [apply list_elem_of_further, list_elem_of_here|by vm_compute]|].
  exists tt'. rewrite Ha. f_equal. f_equal. vm_compute in Ha. by injection Ha as <-.
Defined.

Lemma empty_table_repr counts : table_repr counts ∅ PersistentTable.create.
Proof. intros a. cbn. rewrite !lookup_empty. constructor. Qed.

Lemma persistent_refines_witness : ∃ pt,
  PersistentTable.persistentRequestLock sys64 [4] 0 PersistentTable.create 64
    (mkMachineID 0 2) AccessType_Write = Ok pt ∧
  table_repr [4] (locked ∅ 64 (mkMachineID 0 2) AccessType_Write) pt.
Proof.
  destruct (persistent_refines sys64 [4] 0 ltac:(repeat constructor; lia) ∅ PersistentTable.create
    64 (mkMachineID 0 2) AccessType_Write (empty_table_repr [4])) as (H & _);
    [done|by split; [|exists 4]|].
  by rewrite decide_False in H.
Defined.

(** One machine starves, is marked, served and unlocked; another may then ask. *)
Lemma persistent_wave_witness : ∃ pt pt0 pt',
  PersistentTable.persistentRequestLock sys64 [4] 0 PersistentTable.create 64
    (mkMachineID 0 2) AccessType_Write = Ok pt ∧
  PersistentTable.markEntries sys64 pt 64 = Ok pt0 ∧
  mfold (request sys64 [4] 0 64) pt0 [inr (mkMachineID 0 2)] = Ok pt' ∧
  PersistentTable.okToIssueStarving sys64 [4] pt' 64 (mkMachineID 0 1) = Ok true ∧
  inr (mkMachineID 0 2) ∈ [inr (mkMachineID 0 2) : MachineID * AccessType + MachineID].
Proof.
  destruct (lock_refines sys64 [4] 0 ltac:(repeat constructor; lia) ∅ PersistentTable.create
    64 (mkMachineID 0 2) AccessType_Write (empty_table_repr [4])) as (pt & Hpt & Hrepr);
    [done|by split; [|exists 4]|].
  assert (∃ pt0, PersistentTable.markEntries sys64 pt 64 = Ok pt0 ∧
    ∃ pt', mfold (request sys64 [4] 0 64) pt0 [inr (mkMachineID 0 2)] = Ok pt' ∧
    PersistentTable.okToIssueStarving sys64 [4] pt' 64 (mkMachineID 0 1) = Ok true)
    as (pt0 & Hm & pt' & Hrs & Hok).
  { vm_compute in Hpt. injection Hpt as <-. eexists. split; [vm_compute; reflexivity|].
    eexists. split; vm_compute; reflexivity. }
  exists pt, pt0, pt'. split; [exact Hpt|]. split; [exact Hm|]. split; [exact Hrs|].
  split; [exact Hok|].
  apply (persistent_wave sys64 [4] 0 ltac:(repeat constructor; lia) _ pt 64 pt0 _ pt'
    (mkMachineID 0 1) Hrepr eq_refl Hm Hrs); [apply Forall_singleton; by split; [|exists 4]|by split; [|exists 4]
    |exact Hok|]. apply elem_of_union_l, elem_of_singleton_2. reflexivity.
Defined.
