(* ===== verification/MsiTables.v ===== *)
(** * The tables of the protocol (protocol/MSI_Snooping_One_Level_RT-msg.sm,
      -cache.sm, -dir.sm and -dma.sm)

    The message types and, for each of the three controllers, its states, events
    and actions and its transitions in the order of the source.  A transition
    names states, events and actions; what the actions do is in the files of the
    controllers.  The theorems are about the tables themselves. *)

From S2P Require Import Prelude Caches.
Local Open Scope Z_scope.

Inductive CoherenceRequestType : Set :=
  | Request_GETM | Request_GETMA | Request_GETX | Request_GETS | Request_GETI | Request_INV
  | Request_UPG | Request_PUTM | Request_GETMATOMICEN | Request_GETMATOMICST | Request_WB_ACK
  | Request_DMA_READ | Request_DMA_WRITE.

#[global] Instance CoherenceRequestType_eq_dec : EqDecision CoherenceRequestType.
Proof. solve_decision. Defined.

Inductive CoherenceResponseType : Set :=
  | Response_INV | Response_ACK | Response_DATA | Response_DATA_EXCLUSIVE_CLEAN
  | Response_DATA_EXCLUSIVE_DIRTY | Response_UNBLOCK | Response_UNBLOCK_EXCLUSIVE
  | Response_WB_ACK | Response_WRITEBACK_CLEAN | Response_WRITEBACK_DIRTY | Response_WRITEBACK
  | Response_DATA_FROM_DIR | Response_DATA_FROM_OWNER | Response_DATA_TO_WB
  | Response_DATA_TO_DIR | Response_DATA_TO_CACHE | Response_MEMORY_DATA | Response_MEMORY_ACK.

#[global] Instance CoherenceResponseType_eq_dec : EqDecision CoherenceResponseType.
Proof. solve_decision. Defined.

Module L1Cache.

(** The states of a line in an L1 cache. *)
Inductive State : Set :=
  | State_NP | State_I | State_S | State_M | State_IS_AD | State_IS_D | State_IS_DI | State_IS_A
  | State_IM_AD | State_IM_D | State_IM_A | State_IM_DS | State_IM_DI | State_IM_DSI | State_SM
  | State_IS_I | State_IM_S | State_IM_SI | State_SM_I | State_SM_S | State_SM_SI | State_SM_AD
  | State_SM_A | State_SM_D | State_SM_DS | State_SM_DSI | State_SM_DI | State_M_I | State_MI_A
  | State_MS_A | State_II_A | State_I_I | State_SM_W | State_IM_W | State_MS_WB | State_MI_WB
  | State_M_L | State_SM_WL | State_IM_WL | State_IM_ADL | State_IM_DL | State_IM_AL.

#[global] Instance State_eq_dec : EqDecision State.
Proof. solve_decision. Defined.

Inductive Event : Set :=
  | Event_Load | Event_Store | Event_Ifetch | Event_RMW_Read | Event_RMW_Write
  | Event_Replacement | Event_Load_Approx | Event_Store_Approx | Event_Other_GETS
  | Event_Other_GETM | Event_Other_GETM_Approx | Event_Other_GETI | Event_Other_PUTM
  | Event_OWN_GETS | Event_OWN_GETM | Event_OWN_GETI | Event_OWN_PUTM | Event_OWN_UPG
  | Event_Other_UPG | Event_INV | Event_ATOMICST | Event_ATOMICEN | Event_Data | Event_Ack.

#[global] Instance Event_eq_dec : EqDecision Event.
Proof. solve_decision. Defined.

(** [L1Cache_State_to_permission] *)
Definition State_to_permission (s : State) : AccessPermission :=
  match s with
  | State_NP | State_I => Invalid
  | State_S | State_SM | State_SM_I | State_SM_S | State_SM_SI | State_SM_AD | State_SM_A |
    State_SM_D | State_SM_DS | State_SM_DSI | State_SM_DI | State_M_I | State_MI_A |
    State_MS_A | State_II_A => Read_Only
  | State_M => Read_Write
  | _ => Busy
  end.

(** The actions, named as in the source. *)
Inductive action : Set :=
  | as_issueGETSMem | ai_issueGETINSTR | bm_issueGETMR | bm_issueUpg | bm_issueGETMA
  | bam_issueGETM | bm_issueGETM | bam_issueGETMATOMICST | bam_issueGETMATOMICEN | bpm_issuePUTM
  | bpm_issuePUTMR | bpm_issuePUTMD | cc_sendDataCacheToDir | cc_sendDataCacheToCache
  | ct_sendDataTBEToDir | forward_eviction_to_cpu | r_load_hit | rx_load_hit | s_store_hit
  | sx_store_hit | sx_atomic_store_hit_set | sx_atomic_store_hit_unset | i_allocateAtomicTBE
  | i_allocateTBE | k_popMandatoryQueue | calcLatencyProfile | setStartTime | setStartTimeCE
  | copyStartTimeCETBE | setFirstScheduledTime | setFirstScheduledTimeCE | l_popRequestQueue
  | l_popRequestWBQueue | l_popAtomicRequestQueue | o_popIncomingResponseQueue | s_deallocateTBE
  | u_writeDataToL1Cache | q_updateAckCount | unset_cache_entry | ff_deallocateL1CacheBlock
  | oo_allocateAtomicL1DCacheBlock | oo_allocateL1DCacheBlock | pp_allocateL1ICacheBlock
  | z_stallAndWaitMandatoryQueue | z_stallAndWaitRequestQueue | z_stallAndWaitRequestWBQueue
  | kd_wakeUpDependents | ka_wakeUpAllDependents | uu_profileInstMiss | uu_profileInstHit
  | uu_profileDataMiss | uu_profileApproxLoadDataMiss | uu_profileApproxStoreDataMiss
  | uu_profileDataHit | uu_profileApproxLoadDataHit | uu_profileApproxStoreDataHit
  | uu_profileIstate_othergetM | uu_profilecoherence_inv | uu_profilecoherence_approx_inv
  | setBlocked | setUnblocked.

#[global] Instance action_eq_dec : EqDecision action.
Proof. solve_decision. Defined.

(** A [transition(states, events, next) { actions }] declaration; without a next
    state the state is kept. *)
Record transition := on {
  from : list State;
  events : list Event;
  next : option State;
  actions : list action }.

(** Invalidations from memory and the states that wait for a write-back. *)
Definition invalidation_transitions : list transition := [
  on [State_I] [Event_INV] None
     [l_popRequestQueue];
  on [State_IS_AD; State_IS_D; State_IS_A; State_IS_DI; State_IM_AD; State_IM_D; State_IM_A;
      State_IM_DI; State_IM_DS; State_IM_DSI; State_SM_AD; State_SM_D; State_SM_A; State_SM_DI;
      State_SM_DS; State_SM_DSI; State_MI_A; State_II_A]
     [Event_INV] None
     [z_stallAndWaitRequestQueue];
  on [State_MS_WB] [Event_Ack] (Some State_S)
     [o_popIncomingResponseQueue; ka_wakeUpAllDependents];
  on [State_MS_WB; State_MI_WB] [Event_Store; Event_Load; Event_Replacement] None
     [z_stallAndWaitMandatoryQueue];
  on [State_MS_WB; State_MI_WB] [Event_Other_GETS; Event_Other_GETM] None
     [z_stallAndWaitRequestQueue];
  on [State_MS_WB; State_MI_WB] [Event_Other_PUTM] None
     [z_stallAndWaitRequestWBQueue]].

(** Misses and their completion. *)
Definition miss_transitions : list transition := [
  on [State_I] [Event_Load] (Some State_IS_AD)
     [oo_allocateL1DCacheBlock; i_allocateTBE; uu_profileDataMiss; as_issueGETSMem; setStartTime];
  on [State_I] [Event_Ifetch] (Some State_IS_AD)
     [pp_allocateL1ICacheBlock; i_allocateTBE; uu_profileInstMiss; ai_issueGETINSTR; setStartTime];
  on [State_I] [Event_Store] (Some State_IM_AD)
     [oo_allocateL1DCacheBlock; i_allocateTBE; uu_profileDataMiss; bm_issueGETM; setStartTime];
  on [State_IS_AD] [Event_OWN_GETS; Event_OWN_GETI] (Some State_IS_D)
     [l_popRequestQueue];
  on [State_IM_AD] [Event_OWN_GETM] (Some State_IM_D)
     [l_popRequestQueue];
  on [State_IS_D] [Event_Data] (Some State_S)
     [u_writeDataToL1Cache; r_load_hit; s_deallocateTBE; o_popIncomingResponseQueue;
      kd_wakeUpDependents; ka_wakeUpAllDependents];
  on [State_IM_D; State_IM_DI] [Event_OWN_GETM] None
     [l_popRequestQueue];
  on [State_IM_D] [Event_Data] (Some State_M)
     [u_writeDataToL1Cache; s_store_hit; s_deallocateTBE; o_popIncomingResponseQueue;
      kd_wakeUpDependents; ka_wakeUpAllDependents];
  on [State_IS_D] [Event_Other_GETM] (Some State_IS_DI)
     [uu_profilecoherence_inv; l_popRequestQueue];
  on [State_IS_D] [Event_Other_UPG] (Some State_IS_DI)
     [l_popRequestQueue];
  on [State_IS_DI] [Event_Data] (Some State_I)
     [u_writeDataToL1Cache; r_load_hit; s_deallocateTBE; o_popIncomingResponseQueue;
      ff_deallocateL1CacheBlock; kd_wakeUpDependents; ka_wakeUpAllDependents];
  on [State_IS_AD] [Event_Data] (Some State_IS_A)
     [u_writeDataToL1Cache; s_deallocateTBE; o_popIncomingResponseQueue];
  on [State_IS_A] [Event_OWN_GETS; Event_OWN_GETI] (Some State_S)
     [r_load_hit; l_popRequestQueue; kd_wakeUpDependents; ka_wakeUpAllDependents];
  on [State_IM_AD] [Event_Data] (Some State_IM_A)
     [u_writeDataToL1Cache; s_deallocateTBE; o_popIncomingResponseQueue];
  on [State_IM_A] [Event_OWN_GETM] (Some State_M)
     [s_store_hit; l_popRequestQueue; kd_wakeUpDependents; ka_wakeUpAllDependents];
  on [State_IM_D] [Event_Other_GETS; Event_Other_GETI] (Some State_IM_DS)
     [l_popRequestQueue];
  on [State_IM_DS] [Event_Data] (Some State_MS_A)
     [u_writeDataToL1Cache; s_deallocateTBE; s_store_hit; bpm_issuePUTMD;
      o_popIncomingResponseQueue];
  on [State_IM_D] [Event_Other_GETM] (Some State_IM_DI)
     [uu_profilecoherence_inv; l_popRequestQueue];
  on [State_IM_D] [Event_Other_UPG] None
     [l_popRequestQueue];
  on [State_IM_DI] [Event_Data] (Some State_MI_A)
     [u_writeDataToL1Cache; s_deallocateTBE; s_store_hit; bpm_issuePUTMD;
      o_popIncomingResponseQueue];
  on [State_IM_DS] [Event_Other_GETM; Event_Other_UPG] (Some State_IM_DI)
     [uu_profilecoherence_inv; l_popRequestQueue]].

(** Stores to shared lines: upgrades, and the states of a store that kept its copy. *)
Definition upgrade_transitions : list transition := [
  on [State_IM_DS; State_SM_DS] [Event_Other_GETS] None
     [l_popRequestQueue];
  on [State_IM_DSI] [Event_Data] (Some State_I)
     [u_writeDataToL1Cache; s_deallocateTBE; s_store_hit; cc_sendDataCacheToDir;
      ff_deallocateL1CacheBlock; o_popIncomingResponseQueue; kd_wakeUpDependents;
      ka_wakeUpAllDependents];
  on [State_S] [Event_Other_GETM] (Some State_I)
     [uu_profilecoherence_inv; ff_deallocateL1CacheBlock; l_popRequestQueue];
  on [State_S] [Event_Store] (Some State_SM_W)
     [bm_issueUpg; setStartTimeCE];
  on [State_SM_W] [Event_OWN_UPG] (Some State_M)
     [sx_store_hit; l_popRequestQueue; kd_wakeUpDependents; ka_wakeUpAllDependents];
  on [State_SM_W] [Event_Store; Event_Load; Event_Replacement] None
     [z_stallAndWaitMandatoryQueue];
  on [State_SM_W] [Event_Other_GETS] None
     [l_popRequestQueue];
  on [State_SM_W; State_IM_W] [Event_Other_PUTM] None
     [l_popRequestWBQueue];
  on [State_SM_W] [Event_Other_UPG; Event_Other_GETM] (Some State_IM_W)
     [l_popRequestQueue];
  on [State_IM_W] [Event_OWN_UPG] (Some State_IM_D)
     [bm_issueGETMR; i_allocateTBE; copyStartTimeCETBE; l_popRequestQueue];
  on [State_S] [Event_Other_UPG] (Some State_I)
     [ff_deallocateL1CacheBlock; l_popRequestQueue];
  on [State_I] [Event_Other_UPG] None
     [l_popRequestQueue];
  on [State_SM_AD] [Event_OWN_GETM] (Some State_SM_D)
     [l_popRequestQueue];
  on [State_SM_D] [Event_Data] (Some State_M)
     [u_writeDataToL1Cache; sx_store_hit; s_deallocateTBE; o_popIncomingResponseQueue;
      kd_wakeUpDependents; ka_wakeUpAllDependents];
  on [State_SM_AD] [Event_Other_GETM; Event_Other_UPG] (Some State_IM_AD)
     [uu_profilecoherence_inv; l_popRequestQueue];
  on [State_SM_AD] [Event_Data] (Some State_SM_A)
     [u_writeDataToL1Cache; s_deallocateTBE; o_popIncomingResponseQueue];
  on [State_SM_A] [Event_OWN_GETM] (Some State_M)
     [sx_store_hit; l_popRequestQueue; kd_wakeUpDependents; ka_wakeUpAllDependents];
  on [State_SM_A] [Event_Other_GETM] (Some State_IM_A)
     [uu_profilecoherence_inv; l_popRequestQueue];
  on [State_SM_D] [Event_Other_GETS; Event_Other_GETI] (Some State_SM_DS)
     [l_popRequestQueue];
  on [State_SM_D] [Event_Other_GETM; Event_Other_UPG] (Some State_SM_DI)
     [uu_profilecoherence_inv; l_popRequestQueue];
  on [State_SM_DS] [Event_Data] (Some State_S)
     [u_writeDataToL1Cache; sx_store_hit; s_deallocateTBE; o_popIncomingResponseQueue;
      cc_sendDataCacheToDir; kd_wakeUpDependents; ka_wakeUpAllDependents];
  on [State_SM_DSI] [Event_Data] (Some State_I)
     [u_writeDataToL1Cache; sx_store_hit; s_deallocateTBE; o_popIncomingResponseQueue;
      cc_sendDataCacheToDir; ff_deallocateL1CacheBlock; kd_wakeUpDependents;
      ka_wakeUpAllDependents];
  on [State_SM_DI] [Event_Data] (Some State_I)
     [u_writeDataToL1Cache; sx_store_hit; s_deallocateTBE; o_popIncomingResponseQueue;
      cc_sendDataCacheToDir; ff_deallocateL1CacheBlock; kd_wakeUpDependents;
      ka_wakeUpAllDependents];
  on [State_SM_DS] [Event_Other_GETM] (Some State_SM_DSI)
     [uu_profilecoherence_inv; l_popRequestQueue];
  on [State_M] [Event_Other_GETM; Event_Other_UPG] (Some State_MI_A)
     [bpm_issuePUTMR; l_popRequestQueue]].

(** Losing a modified line: requests of others, replacement, write-back. *)
Definition ownership_transitions : list transition := [
  on [State_M] [Event_Other_GETI; Event_Other_GETS] (Some State_MS_A)
     [bpm_issuePUTMR; l_popRequestQueue];
  on [State_M] [Event_Replacement] (Some State_MI_A)
     [bpm_issuePUTM; z_stallAndWaitMandatoryQueue];
  on [State_MI_A; State_MS_A] [Event_Replacement] None
     [z_stallAndWaitMandatoryQueue];
  on [State_MS_A] [Event_Ifetch; Event_Load; Event_Store; Event_RMW_Read] None
     [z_stallAndWaitMandatoryQueue];
  on [State_S] [Event_INV; Event_Replacement] (Some State_I)
     [ff_deallocateL1CacheBlock];
  on [State_MI_A] [Event_OWN_PUTM] (Some State_I)
     [i_allocateTBE; ct_sendDataTBEToDir; ff_deallocateL1CacheBlock; l_popRequestWBQueue;
      ka_wakeUpAllDependents; kd_wakeUpDependents; s_deallocateTBE];
  on [State_MS_A] [Event_OWN_PUTM] (Some State_S)
     [i_allocateTBE; ct_sendDataTBEToDir; l_popRequestWBQueue; ka_wakeUpAllDependents;
      kd_wakeUpDependents; s_deallocateTBE];
  on [State_M] [Event_INV] (Some State_I)
     [i_allocateTBE; ct_sendDataTBEToDir; ff_deallocateL1CacheBlock; l_popRequestQueue;
      ka_wakeUpAllDependents; kd_wakeUpDependents; s_deallocateTBE];
  on [State_MI_A] [Event_Other_GETS; Event_Other_GETI; Event_Other_GETM; Event_Other_UPG] None
     [l_popRequestQueue];
  on [State_MS_A] [Event_Other_GETM] (Some State_MI_A)
     [l_popRequestQueue];
  on [State_MS_A] [Event_Other_UPG] None
     [l_popRequestQueue];
  on [State_MS_A] [Event_Other_GETS; Event_Other_GETI] None
     [l_popRequestQueue];
  on [State_I] [Event_Other_GETM] None
     [uu_profileIstate_othergetM; l_popRequestQueue];
  on [State_I] [Event_Other_GETS; Event_Other_GETI] None
     [l_popRequestQueue];
  on [State_S; State_IS_D] [Event_Other_GETI; Event_Other_GETS] None
     [l_popRequestQueue];
  on [State_II_A] [Event_OWN_PUTM] (Some State_I)
     [ff_deallocateL1CacheBlock; l_popRequestWBQueue; ka_wakeUpAllDependents; kd_wakeUpDependents];
  on [State_IS_AD; State_IS_D; State_IS_A; State_IS_DI; State_IM_AD; State_IM_D; State_IM_A;
      State_IM_DI; State_IM_DS; State_IM_DSI; State_II_A]
     [Event_Load; Event_Ifetch; Event_Store; Event_Replacement; Event_RMW_Read; Event_RMW_Write] None
     [z_stallAndWaitMandatoryQueue];
  on [State_IS_AD; State_IM_AD; State_IM_A; State_IM_AL; State_II_A]
     [Event_Other_GETS; Event_Other_GETI; Event_Other_UPG] None
     [l_popRequestQueue];
  on [State_IS_AD; State_IM_AD; State_IM_A; State_IM_AL; State_II_A] [Event_Other_PUTM] None
     [l_popRequestWBQueue];
  on [State_IS_AD; State_IM_AD; State_IM_A; State_II_A; State_IM_AL] [Event_Other_GETM] None
     [uu_profileIstate_othergetM; l_popRequestQueue]].

(** Requests that wait, requests of others that need no answer, and hits. *)
Definition stall_transitions : list transition := [
  on [State_IM_DI; State_IS_A; State_IM_DSI; State_SM_DI; State_SM_DSI; State_IS_DI; State_IM_W;
      State_IM_WL]
     [Event_Other_GETS; Event_Other_GETI] None
     [l_popRequestQueue];
  on [State_IM_DI; State_IS_A; State_IM_DSI; State_SM_DI; State_SM_DSI; State_IS_DI; State_IM_W]
     [Event_Other_GETM; Event_Other_UPG] None
     [uu_profileIstate_othergetM; l_popRequestQueue];
  on [State_S; State_SM_DS; State_SM_AD; State_SM_D; State_SM_A; State_SM_DI; State_SM_DSI;
      State_M; State_MI_A]
     [Event_Load] None
     [rx_load_hit; uu_profileDataHit; k_popMandatoryQueue];
  on [State_S; State_SM_DS; State_SM_AD; State_SM_D; State_SM_A; State_SM_DI; State_SM_DSI;
      State_M; State_MI_A]
     [Event_Ifetch] None
     [rx_load_hit; uu_profileInstHit; k_popMandatoryQueue];
  on [State_SM_AD; State_SM_D; State_SM_A; State_SM_DI; State_SM_DSI; State_SM_DS]
     [Event_Replacement; Event_Store] None
     [z_stallAndWaitMandatoryQueue];
  on [State_M; State_MI_A] [Event_Store] None
     [sx_store_hit; uu_profileDataHit; k_popMandatoryQueue];
  on [State_MI_A] [Event_RMW_Read] None
     [z_stallAndWaitMandatoryQueue];
  on [State_I; State_S] [Event_Other_PUTM] None
     [l_popRequestWBQueue];
  on [State_I; State_II_A; State_S] [Event_Data] None
     [o_popIncomingResponseQueue];
  on [State_SM_AD; State_SM_A] [Event_Other_GETS] None
     [l_popRequestQueue];
  on [State_M] [Event_Data] None
     [o_popIncomingResponseQueue];
  on [State_M] [Event_RMW_Read] (Some State_M_L)
     [bam_issueGETMATOMICST; sx_atomic_store_hit_set; uu_profileDataHit; k_popMandatoryQueue]].

(** Locked read-modify-write. *)
Definition atomic_transitions : list transition := [
  on [State_I] [Event_RMW_Read] (Some State_IM_DL)
     [oo_allocateAtomicL1DCacheBlock; i_allocateAtomicTBE; uu_profileDataMiss; bam_issueGETM;
      bam_issueGETMATOMICST; k_popMandatoryQueue];
  on [State_IM_ADL] [Event_Data] (Some State_IM_AL)
     [u_writeDataToL1Cache; s_deallocateTBE; o_popIncomingResponseQueue];
  on [State_IM_AL] [Event_OWN_GETM] (Some State_M_L)
     [sx_atomic_store_hit_set; l_popRequestQueue];
  on [State_S] [Event_RMW_Read] (Some State_SM_WL)
     [uu_profileDataMiss; bm_issueUpg; bam_issueGETMATOMICST; k_popMandatoryQueue];
  on [State_SM_WL] [Event_OWN_UPG] (Some State_M_L)
     [sx_atomic_store_hit_set; l_popRequestQueue];
  on [State_SM_WL; State_IM_WL] [Event_Other_UPG; Event_Other_GETM] (Some State_IM_WL)
     [l_popRequestQueue];
  on [State_SM_WL; State_IM_WL] [Event_Other_PUTM] (Some State_IM_WL)
     [l_popRequestWBQueue];
  on [State_SM_WL] [Event_Other_GETS] None
     [l_popRequestQueue];
  on [State_IM_WL] [Event_OWN_UPG] (Some State_IM_DL)
     [bm_issueGETMR; i_allocateTBE; l_popRequestQueue];
  on [State_IM_DL] [Event_OWN_GETM] None
     [l_popRequestQueue];
  on [State_IM_ADL] [Event_Other_GETS; Event_Other_GETM; Event_Other_UPG] None
     [l_popRequestQueue];
  on [State_IM_ADL; State_IM_DL; State_M_L] [Event_Other_PUTM] None
     [l_popRequestWBQueue];
  on [State_IM_DL; State_M_L] [Event_Other_GETS; Event_Other_GETM; Event_Other_UPG] None
     [z_stallAndWaitRequestQueue];
  on [State_IM_ADL; State_IM_DL; State_SM_WL; State_M_L]
     [Event_Load; Event_Store; Event_Replacement; Event_RMW_Read] None
     [z_stallAndWaitMandatoryQueue];
  on [State_IM_DL] [Event_Data] (Some State_M_L)
     [u_writeDataToL1Cache; sx_atomic_store_hit_set; s_deallocateTBE; o_popIncomingResponseQueue];
  on [State_M_L] [Event_RMW_Write] (Some State_M)
     [bam_issueGETMATOMICEN; sx_atomic_store_hit_unset; uu_profileDataHit; k_popMandatoryQueue;
      ka_wakeUpAllDependents; kd_wakeUpDependents];
  on [State_I; State_M; State_S; State_IS_AD; State_IS_D; State_IS_DI; State_IS_A; State_IM_AD;
      State_IM_D; State_IM_A; State_IM_DS; State_IM_DI; State_IM_DSI; State_SM; State_IS_I;
      State_IM_S; State_IM_SI; State_SM_I; State_SM_S; State_SM_SI; State_SM_AD; State_SM_A;
      State_SM_D; State_SM_DS; State_SM_DSI; State_SM_DI; State_M_I; State_MI_A; State_MS_A;
      State_II_A; State_I_I; State_SM_W; State_IM_W; State_MS_WB; State_SM_WL; State_M_L;
      State_IM_ADL; State_IM_WL; State_IM_DL; State_IM_AL]
     [Event_ATOMICST] None
     [setBlocked; l_popAtomicRequestQueue];
  on [State_I; State_M; State_S; State_IS_AD; State_IS_D; State_IS_DI; State_IS_A; State_IM_AD;
      State_IM_D; State_IM_A; State_IM_DS; State_IM_DI; State_IM_DSI; State_SM; State_IS_I;
      State_IM_S; State_IM_SI; State_SM_I; State_SM_S; State_SM_SI; State_SM_AD; State_SM_A;
      State_SM_D; State_SM_DS; State_SM_DSI; State_SM_DI; State_M_I; State_MI_A; State_MS_A;
      State_II_A; State_I_I; State_SM_W; State_IM_W; State_MS_WB; State_SM_WL; State_IM_DL;
      State_IM_ADL; State_IM_WL; State_M_L; State_IM_AL]
     [Event_ATOMICEN] None
     [setUnblocked; l_popAtomicRequestQueue];
  on [State_IM_D; State_IM_DI; State_M; State_IS_D; State_IS_DI; State_MI_A; State_MS_A;
      State_IM_DS; State_IM_DSI]
     [Event_Other_PUTM] None
     [l_popRequestWBQueue]].

(** The whole table, in the order of the source. *)
Definition transitions : list transition :=
  invalidation_transitions ++ miss_transitions ++ upgrade_transitions ++ ownership_transitions ++ stall_transitions ++ atomic_transitions.

(** The case of [doTransitionWorker] for a state and an event: the next state and
    the actions.  A pair without a case is a [fatal]. *)
Definition find_transition (s : State) (e : Event) : option (State * list action) :=
  t ← find (λ t, bool_decide (s ∈ from t) && bool_decide (e ∈ events t)) transitions;
  Some (default s (next t), actions t).

End L1Cache.

Module Directory.

(** The states of a line in the directory. *)
Inductive State : Set :=
  | State_I | State_ID | State_ID_W | State_M | State_IM | State_MI | State_M_DRD | State_M_DRDI
  | State_M_DWR | State_M_DWRI | State_IS | State_IS_A | State_M_DM | State_M_DS | State_M_D
  | State_M_DU | State_M_DUD.

#[global] Instance State_eq_dec : EqDecision State.
Proof. solve_decision. Defined.

Inductive Event : Set :=
  | Event_Fetch | Event_Data | Event_Memory_Data | Event_Memory_Ack | Event_DMA_READ
  | Event_DMA_WRITE | Event_GETS | Event_PUTM | Event_GETM | Event_GETMO | Event_UPG
  | Event_GETSD | Event_PUTMD | Event_GETMD | Event_GETMOD | Event_UPGD.

#[global] Instance Event_eq_dec : EqDecision Event.
Proof. solve_decision. Defined.

(** [Directory_State_to_permission] *)
Definition State_to_permission (s : State) : AccessPermission :=
  match s with
  | State_I => Read_Write
  | State_M => Maybe_Stale
  | _ => Busy
  end.

(** The actions, named as in the source. *)
Inductive action : Set :=
  | c_clearOwner | e_ownerIsRequestor | e_ownerIsRequestorxx | e_ownerIsRequest | a_sendAck
  | d_sendDataToCores | d_sendDataToCoresRN | d_sendDataToSharersRN | d_sendDataToRequestorRN
  | d_sendDataToSharers | d_sendDataToRequestor | d_sendData | aa_sendAck | i_allocateTBE
  | w_deallocateTBE | j_popIncomingRequestQueue | j_popIncomingRequestWBQueue
  | k_popIncomingResponseQueue | l_popMemQueue | kd_wakeUpDependents
  | qf_queueMemoryFetchRequest | qf_queueDirectMemoryFetchRequest | qf_queueMemoryFetchRequestWB
  | qw_queueMemoryWBRequest | qf_queueMemoryFetchRequestDMA | qf_queueMemoryFetchRequestWBDMA
  | p_popIncomingDMARequestQueue | dr_sendDMAData | qw_queueMemoryWBRequest_partial
  | qw_queueMemoryWBRequest_partialWB | da_sendDMAAck | z_stall | z_stallAndWaitRequest
  | z_stallAndWaitRequestWB | zz_recycleDMAQueue | zz_recycleDMAWBQueue | ss_recordGetSL1ID
  | drp_sendDMAData | v_allocateTBE | v_allocateTBEWB | qw_queueMemoryWBRequest_partialTBE.

#[global] Instance action_eq_dec : EqDecision action.
Proof. solve_decision. Defined.

(** A [transition(states, events, next) { actions }] declaration; without a next
    state the state is kept. *)
Record transition := on {
  from : list State;
  events : list Event;
  next : option State;
  actions : list action }.

(** The transitions of the directory. *)
Definition directory_transitions : list transition := [
  on [State_I] [Event_GETS] (Some State_IS)
     [i_allocateTBE; ss_recordGetSL1ID; qf_queueMemoryFetchRequest; j_popIncomingRequestQueue];
  on [State_I] [Event_GETM] (Some State_IM)
     [e_ownerIsRequestor; i_allocateTBE; qf_queueMemoryFetchRequest; j_popIncomingRequestQueue];
  on [State_IS] [Event_GETS; Event_GETM; Event_UPG] None
     [z_stallAndWaitRequest];
  on [State_IS] [Event_Memory_Data] (Some State_I)
     [d_sendData; w_deallocateTBE; kd_wakeUpDependents];
  on [State_IM] [Event_Memory_Data] (Some State_M)
     [d_sendData; kd_wakeUpDependents; w_deallocateTBE];
  on [State_IM] [Event_GETS; Event_GETM; Event_UPG] None
     [z_stallAndWaitRequest];
  on [State_M] [Event_GETS; Event_GETM] (Some State_M_D)
     [i_allocateTBE];
  on [State_M] [Event_GETMO] (Some State_IM)
     [i_allocateTBE; qf_queueMemoryFetchRequest; j_popIncomingRequestQueue];
  on [State_M_D] [Event_GETMO] (Some State_IM)
     [qf_queueMemoryFetchRequest; j_popIncomingRequestQueue];
  on [State_M; State_M_D] [Event_UPG] None
     [j_popIncomingRequestQueue];
  on [State_M_D] [Event_GETM; Event_GETS] None
     [z_stallAndWaitRequest];
  on [State_M_D] [Event_PUTM] None
     [j_popIncomingRequestWBQueue];
  on [State_M_D] [Event_Data] (Some State_I)
     [c_clearOwner; qw_queueMemoryWBRequest; k_popIncomingResponseQueue; w_deallocateTBE;
      kd_wakeUpDependents];
  on [State_M] [Event_PUTM] (Some State_MI)
     [j_popIncomingRequestWBQueue];
  on [State_MI; State_M] [Event_Data] (Some State_I)
     [c_clearOwner; qw_queueMemoryWBRequest; k_popIncomingResponseQueue; kd_wakeUpDependents];
  on [State_MI; State_IS_A] [Event_GETS; Event_GETM; Event_PUTM; Event_UPG] None
     [z_stallAndWaitRequest];
  on [State_I; State_M; State_MI; State_IS; State_IM; State_IS_A; State_M_D; State_M_DS;
      State_M_DM]
     [Event_Memory_Ack] None
     [l_popMemQueue];
  on [State_I] [Event_UPG] (Some State_M)
     [e_ownerIsRequestor; j_popIncomingRequestQueue]].

(** The whole table, in the order of the source. *)
Definition transitions : list transition :=
  directory_transitions.

(** The case of [doTransitionWorker] for a state and an event: the next state and
    the actions.  A pair without a case is a [fatal]. *)
Definition find_transition (s : State) (e : Event) : option (State * list action) :=
  t ← find (λ t, bool_decide (s ∈ from t) && bool_decide (e ∈ events t)) transitions;
  Some (default s (next t), actions t).

End Directory.

Module DMA.

(** The states of the DMA controller. *)
Inductive State : Set :=
  | State_READY | State_BUSY_RD | State_BUSY_WR.

#[global] Instance State_eq_dec : EqDecision State.
Proof. solve_decision. Defined.

Inductive Event : Set :=
  | Event_ReadRequest | Event_WriteRequest | Event_Data | Event_Ack.

#[global] Instance Event_eq_dec : EqDecision Event.
Proof. solve_decision. Defined.

(** [DMA_State_to_permission] *)
Definition State_to_permission (s : State) : AccessPermission :=
  match s with
  | State_READY => Invalid
  | _ => Busy
  end.

(** The actions, named as in the source. *)
Inductive action : Set :=
  | s_sendReadRequest | s_sendWriteRequest | a_ackCallback | d_dataCallback | p_popRequestQueue
  | p_popResponseQueue.

#[global] Instance action_eq_dec : EqDecision action.
Proof. solve_decision. Defined.

(** A [transition(states, events, next) { actions }] declaration; without a next
    state the state is kept. *)
Record transition := on {
  from : list State;
  events : list Event;
  next : option State;
  actions : list action }.

(** The transitions of the DMA controller. *)
Definition dma_transitions : list transition := [
  on [State_READY] [Event_ReadRequest] (Some State_BUSY_RD)
     [s_sendReadRequest; p_popRequestQueue];
  on [State_READY] [Event_WriteRequest] (Some State_BUSY_WR)
     [s_sendWriteRequest; p_popRequestQueue];
  on [State_BUSY_RD] [Event_Data] (Some State_READY)
     [d_dataCallback; p_popResponseQueue];
  on [State_BUSY_WR] [Event_Ack] (Some State_READY)
     [a_ackCallback; p_popResponseQueue]].

(** The whole table, in the order of the source. *)
Definition transitions : list transition :=
  dma_transitions.

(** The case of [doTransitionWorker] for a state and an event: the next state and
    the actions.  A pair without a case is a [fatal]. *)
Definition find_transition (s : State) (e : Event) : option (State * list action) :=
  t ← find (λ t, bool_decide (s ∈ from t) && bool_decide (e ∈ events t)) transitions;
  Some (default s (next t), actions t).

End DMA.
