(* ===== verification/Controllers.v ===== *)
(** * The base of the generated controllers (mem/ruby/slicc_interface/AbstractController.hh,
    AbstractController.cc)

    A controller keeps, for each line, the message buffers that hold messages stalled
    for it, one per rank of input ports, and the lines whose processor requests are
    held back during a locked read-modify-write.  The message buffers are shared with
    the network and the processor side: a store maps their names to their contents. *)

From S2P Require Import Prelude IntMath Addresses Clocks StdHeap Buffers.
Local Open Scope Z_scope.

(** The calls a controller makes on consumers: that of a buffer, or itself, to be
    woken after some cycles. *)
Inductive call : Type :=
  | OnConsumer (buf : Z) (s : signal)
  | ScheduleSelf (cycles : Z).

#[global] Instance call_eq_dec : EqDecision call.
Proof. solve_decision. Defined.

Module AbstractController.

(** [buffers] are the message buffers the controller can reach, [calls] the calls
    made so far, oldest first. *)
Record t (P : Type) := mk {
  m_version : Z;
  m_in_ports : Z;
  m_cur_in_port : Z;
  m_waiting_buffers : list (Z * list (option Z));
  m_is_blocking : bool;
  m_block_map : gmap Z Z;
  buffers : gmap Z (MessageBuffer.t P);
  calls : list call }.
Arguments mk {P}.
Arguments m_version {P}.
Arguments m_in_ports {P}.
Arguments m_cur_in_port {P}.
Arguments m_waiting_buffers {P}.
Arguments m_is_blocking {P}.
Arguments m_block_map {P}.
Arguments buffers {P}.
Arguments calls {P}.

(** The constructor; [in_ports] is set by the generated one. *)
Definition create {P} (version in_ports : Z) (bufs : gmap Z (MessageBuffer.t P)) : t P :=
  mk version in_ports 0 [] false ∅ bufs [].

Section operations.
Context {P : Type} (sys : RubySystem.t) (now : Z).
Implicit Types (c : t P) (addr buf : Z).

Definition with_cur_in_port c (rank : Z) : t P :=
  mk (m_version c) (m_in_ports c) rank (m_waiting_buffers c) (m_is_blocking c) (m_block_map c)
    (buffers c) (calls c).
Definition with_waiting c (w : list (Z * list (option Z))) : t P :=
  mk (m_version c) (m_in_ports c) (m_cur_in_port c) w (m_is_blocking c) (m_block_map c)
    (buffers c) (calls c).
Definition with_blocks c (blocking : bool) (m : gmap Z Z) : t P :=
  mk (m_version c) (m_in_ports c) (m_cur_in_port c) (m_waiting_buffers c) blocking m
    (buffers c) (calls c).
Definition with_buffer c buf (b : MessageBuffer.t P) (cs : list call) : t P :=
  mk (m_version c) (m_in_ports c) (m_cur_in_port c) (m_waiting_buffers c) (m_is_blocking c)
    (m_block_map c) (<[buf := b]> (buffers c)) (calls c ++ cs).

(** The buffer a pointer leads to. *)
Definition buffer buf : prog (t P) (MessageBuffer.t P) := λ c,
  b ← from_option_or NullDeref (buffers c !! buf); Ok (b, c).

(** A call on a buffer that calls its consumer. *)
Definition on_buffer buf (f : MessageBuffer.t P → outcome (MessageBuffer.t P * list signal))
    : prog (t P) unit := λ c,
  b ← from_option_or NullDeref (buffers c !! buf);
  r ← f b;
  Ok (tt, with_buffer c buf r.1 (OnConsumer buf <$> r.2)).

(** [scheduleEvent(Cycles(n))] of the controller itself. *)
Definition scheduleEvent (n : Z) : prog (t P) unit := modS (λ c,
  mk (m_version c) (m_in_ports c) (m_cur_in_port c) (m_waiting_buffers c) (m_is_blocking c)
    (m_block_map c) (buffers c) (calls c ++ [ScheduleSelf n])).

(** *** Stalled messages *)

Definition stallBuffer buf addr : prog (t P) unit := λ c,
  let vec := default (replicate (Z.to_nat (m_in_ports c)) None)
               (assoc_find addr (m_waiting_buffers c)) in
  vec ← vset vec (m_cur_in_port c) (Some buf);
  Ok (tt, with_waiting c (assoc_set addr vec (m_waiting_buffers c))).

(** The ranks below [n], highest first; [m_cur_in_port - 1] becomes an [int], so
    rank zero has none below. *)
Definition ranks_below (n : Z) : list Z := rev (seqZ 0 n).

(** [if (vec[rank] != NULL) vec[rank]->reanalyzeMessages(addr)] *)
Definition reanalyze_rank (vec : list (option Z)) addr (rank : Z) : prog (t P) unit :=
  o ← lift (vget vec rank);
  match o with
  | Some buf => on_buffer buf (λ b, MessageBuffer.reanalyzeMessages now b addr)
  | None => mret tt
  end.

(** Both functions that wake the waiters of one line, from the given ranks. *)
Definition wake_line addr (ranks : list Z) : prog (t P) unit := λ c,
  match assoc_find addr (m_waiting_buffers c) with
  | None => Ok (tt, c)
  | Some vec =>
      r ← each (reanalyze_rank vec addr) ranks c;
      Ok (tt, with_waiting r.2 (assoc_erase addr (m_waiting_buffers r.2)))
  end.

Definition wakeUpBuffers addr : prog (t P) unit := λ c,
  wake_line addr (ranks_below (m_cur_in_port c)) c.

(** [wakeUpAllBuffers(addr)] *)
Definition wakeUpAllBuffers_of addr : prog (t P) unit := λ c,
  wake_line addr (ranks_below (m_in_ports c)) c.

(** [wakeUpAllBuffers()] *)
Definition wakeUpAllBuffers : prog (t P) unit := λ c,
  r ← each (λ o, match o with
                 | Some buf => on_buffer buf (MessageBuffer.reanalyzeAllMessages now)
                 | None => mret tt
                 end) (concat (m_waiting_buffers c).*2) c;
  Ok (tt, with_waiting r.2 []).

(** *** Blocked lines *)

Definition blockOnQueue addr (port : Z) : prog (t P) unit := modS (λ c,
  with_blocks c true (<[addr := port]> (m_block_map c))).

Definition isBlocked c addr : bool :=
  m_is_blocking c && bool_decide (is_Some (m_block_map c !! addr)).

Definition unblock addr : prog (t P) unit := modS (λ c,
  let m := delete addr (m_block_map c) in
  with_blocks c (if decide (m = ∅) then false else m_is_blocking c) m).

(** *** What the generated code does with the ports *)

(** [stall_and_wait(port, addr)] *)
Definition stall_and_wait buf addr : prog (t P) unit :=
  _ ← stallBuffer buf addr;
  on_buffer buf (λ b, b ← MessageBuffer.stallMessage sys now b addr; Ok (b, [])).

Definition isReady buf : prog (t P) bool :=
  b ← buffer buf; lift (MessageBuffer.isReady now b).

(** [peek()] of a buffer whose head is a message of the protocol. *)
Definition peek buf : prog (t P) P :=
  b ← buffer buf; m ← lift (MessageBuffer.peek b); mret (Message.payload m).

(** [dequeue()], which returns the number of the current cycle. *)
Definition dequeue buf : prog (t P) Z := λ c,
  b ← from_option_or NullDeref (buffers c !! buf);
  r ← MessageBuffer.dequeue now b;
  Ok (r.1.2, with_buffer c buf r.2 []).

(** [enqueue(msg, latency)] of a message made at the current clock edge; [rt] is what
    [random_time()] draws. *)
Definition enqueue (rt edge : Z) buf (m : P) (latency : Z) (isRMWWrite : bool) : prog (t P) unit :=
  on_buffer buf (λ b,
    MessageBuffer.enqueue sys now rt b (Message.create edge m) latency isRMWWrite).

Definition delayHead (rt : Z) buf : prog (t P) unit :=
  on_buffer buf (MessageBuffer.delayHead sys now rt).

Definition areNSlotsAvailable buf (n : Z) : prog (t P) bool := λ c,
  b ← from_option_or NullDeref (buffers c !! buf);
  r ← MessageBuffer.areNSlotsAvailable now b n;
  Ok (r.1, with_buffer c buf r.2 []).

(** The test that [peek(..., block_on=...)] makes first. *)
Definition held_back c addr buf : bool :=
  m_is_blocking c && bool_decide (m_block_map c !! addr = Some buf).

(** A functional write to the messages in the given buffers; [write_msg] is the method of
    the messages. *)
Definition functionalWriteBuffers {Packet} (write_msg : P → Packet → outcome (bool * P)) (bufs : list Z)
    (pkt : Packet) : prog (t P) Z := λ c,
  mfold (λ acc buf,
    b ← from_option_or NullDeref (buffers acc.2 !! buf);
    r ← MessageBuffer.functionalWrite write_msg b pkt;
    Ok (s32 (acc.1 + r.1), with_buffer acc.2 buf r.2 [])) (0, c) bufs.

End operations.
End AbstractController.

Import AbstractController.

(** ** Waking the waiters *)

Section waking.
Context {P : Type}.
Implicit Types (c : t P) (b : MessageBuffer.t P) (addr buf : Z).

(** A buffer that some line has on record. *)
Definition registered c buf : Prop :=
  ∃ a vec, assoc_find a (m_waiting_buffers c) = Some vec ∧ Some buf ∈ vec.

(** Every stalled message is on record: the line it waits for knows its buffer. *)
Definition all_registered c : Prop :=
  ∀ buf b a, buffers c !! buf = Some b → is_Some (MessageBuffer.stall_find a (MessageBuffer.m_stall_msg_map b)) →
    ∃ vec, assoc_find a (m_waiting_buffers c) = Some vec ∧ Some buf ∈ vec.

Lemma on_buffer_Ok buf f c u c' : on_buffer buf f c = Ok (u, c') →
  ∃ b r, buffers c !! buf = Some b ∧ f b = Ok r ∧ c' = with_buffer c buf r.1 (OnConsumer buf <$> r.2).
Proof. unfold on_buffer. intros H. outcome_inv. by eexists _, _. Qed.

Lemma on_buffer_other buf f c u c' buf' : on_buffer buf f c = Ok (u, c') → buf' ≠ buf →
  buffers c' !! buf' = buffers c !! buf'.
Proof.
  intros (b & r & _ & _ & ->)%on_buffer_Ok Hne. cbn. by rewrite lookup_insert_ne.
Qed.

Lemma on_buffer_waiting buf f c u c' : on_buffer buf f c = Ok (u, c') →
  m_waiting_buffers c' = m_waiting_buffers c.
Proof. by intros (b & r & _ & _ & ->)%on_buffer_Ok. Qed.

(** A loop of calls on the buffers of [l] leaves the other buffers alone. *)
Lemma each_on_buffer_frame (f : MessageBuffer.t P → outcome (MessageBuffer.t P * list signal))
    (l : list (option Z)) c u c' :
  each (λ o, match o with Some buf => on_buffer buf f | None => mret tt end) l c = Ok (u, c') →
  m_waiting_buffers c' = m_waiting_buffers c ∧
  ∀ buf, Some buf ∉ l → buffers c' !! buf = buffers c !! buf.
Proof.
  apply (each_inv (λ s, m_waiting_buffers s = m_waiting_buffers c ∧
    ∀ buf, Some buf ∉ l → buffers s !! buf = buffers c !! buf)); [|done].
  intros [buf|] s u' s' Hx [Hw Hs]; [|by intros [= _ <-]]. intros H. split.
  - by rewrite (on_buffer_waiting _ _ _ _ _ H).
  - intros buf' Hb. rewrite (on_buffer_other _ _ _ _ _ _ H); [by apply Hs|].
    intros ->. done.
Qed.

Lemma elem_of_concat_snd {A} (l : list (Z * list A)) x :
  x ∈ concat l.*2 → ∃ a v, (a, v) ∈ l ∧ x ∈ v.
Proof.
  induction l as [|[a v] l IH]; cbn; [by intros ?%not_elem_of_nil|].
  intros [Hx|(a' & v' & ? & ?)%IH]%elem_of_app; [exists a, v|exists a', v']; set_solver.
Qed.

Lemma wakeUpAllBuffers_frame now c u c' buf : wakeUpAllBuffers now c = Ok (u, c') →
  Some buf ∉ concat (m_waiting_buffers c).*2 → buffers c' !! buf = buffers c !! buf.
Proof.
  unfold wakeUpAllBuffers. intros (r & H & [= _ <-])%bind_Ok Hb. destruct r as [u' s].
  apply each_on_buffer_frame in H as [_ H]. cbn. by apply H.
Qed.

(** A buffer that can take all its stalled messages back. *)
Definition can_wake b : Prop :=
  buffer_ok b ∧ is_Ok (MessageBuffer.receiver b) = true ∧
  MessageBuffer.m_msg_counter b + Z.of_nat (length (MessageBuffer.stalled b)) < 2 ^ 64.

(** How a buffer is left: nothing is lost, and what was touched has nothing stalled. *)
Definition woken (l : list (option Z)) (m0 m : gmap Z (MessageBuffer.t P)) : Prop :=
  ∀ buf b0, m0 !! buf = Some b0 → ∃ b, m !! buf = Some b ∧ can_wake b ∧
    contents b ≡ₚ contents b0 ∧
    (b = b0 ∨ MessageBuffer.m_stall_msg_map b = []) ∧
    (Some buf ∈ l → MessageBuffer.m_stall_msg_map b = []).

Lemma reanalyzeAll_can_wake now b : can_wake b → ∃ b' sg,
  MessageBuffer.reanalyzeAllMessages now b = Ok (b', sg) ∧ can_wake b' ∧
  contents b' ≡ₚ contents b ∧ MessageBuffer.m_stall_msg_map b' = [].
Proof.
  intros (Hok & Hr & Hc). destruct (MessageBuffer.receiver b) as [r|] eqn:Er; [|done].
  destruct (reanalyzeAllMessages_total now b r Hok Er Hc)
    as (b' & sg & H & Hok' & Hcont & Hst & Hconf & Hcnt).
  exists b', sg. split; [done|]. split; [|done].
  split; [done|]. split.
  - unfold MessageBuffer.receiver in *. by rewrite Hconf, Er.
  - unfold MessageBuffer.stalled at 1. rewrite Hst, Hcnt. cbn. lia.
Qed.

Lemma each_wakes now (l : list (option Z)) : ∀ c,
  (∀ buf b, buffers c !! buf = Some b → can_wake b) →
  (∀ buf, Some buf ∈ l → is_Some (buffers c !! buf)) →
  ∃ c', each (λ o, match o with
                   | Some buf => on_buffer buf (MessageBuffer.reanalyzeAllMessages now)
                   | None => mret tt
                   end) l c = Ok (tt, c') ∧
    dom (buffers c') = dom (buffers c) ∧ woken l (buffers c) (buffers c').
Proof.
  induction l as [|[buf|] l IH]; intros c Hc Hl; cbn [each].
  - exists c. split; [done|]. split; [done|]. intros buf b0 Hb. exists b0.
    split_and!; [done|by eapply Hc|done|by left|by intros ?%not_elem_of_nil].
  - destruct (Hl buf) as [b Hb]; [set_solver|].
    destruct (reanalyzeAll_can_wake now b (Hc buf b Hb)) as (b' & sg & H1 & Hw & Hcont & Hst).
    set (c1 := with_buffer c buf b' (OnConsumer buf <$> sg)).
    assert (on_buffer buf (MessageBuffer.reanalyzeAllMessages now) c = Ok (tt, c1)) as Hon
      by (unfold on_buffer; rewrite Hb; cbn [from_option_or mbind outcome_bind]; by rewrite H1).
    rewrite (prog_bind_step _ _ _ _ _ Hon).
    destruct (IH c1) as (c' & H2 & Hdom & Hwk).
    + intros x y. unfold c1. cbn. intros [[<- <-]|[Hne Hy]]%lookup_insert_Some; [done|by eapply Hc].
    + intros x Hx. unfold c1. cbn. apply lookup_insert_is_Some'. right. apply Hl. set_solver.
    + exists c'. split; [done|]. unfold c1 in Hdom, Hwk. cbn in Hdom, Hwk. split.
      { rewrite Hdom, dom_insert_lookup_L; [done|]. by exists b. }
      intros x b0 Hx. destruct (decide (x = buf)) as [->|Hne].
      * assert (b0 = b) as -> by congruence.
        destruct (Hwk buf b') as (b2 & ? & ? & Hc2 & Hor & _); [by rewrite lookup_insert_eq|].
        assert (MessageBuffer.m_stall_msg_map b2 = []) by (by destruct Hor as [->|]).
        exists b2. split_and!; [done|done|by rewrite Hc2|by right|done].
      * destruct (Hwk x b0) as (b2 & ? & ? & ? & ? & Hin); [by rewrite lookup_insert_ne|].
        exists b2. split_and!; [done..|]. intros [[= ->]|?]%elem_of_cons; [done|]. by apply Hin.
  - destruct (IH c Hc) as (c' & H2 & Hdom & Hwk); [set_solver|]. exists c'.
    split; [exact H2|]. split; [done|]. intros x b0 Hx.
    destruct (Hwk x b0 Hx) as (b2 & ? & ? & ? & ? & Hin). exists b2.
    split_and!; [done..|]. intros [?|?]%elem_of_cons; [done|]. by apply Hin.
Qed.

End waking.

(** ** Blocked lines *)

Section blocking.
Context {P : Type}.
Implicit Types (c : t P).

(** Some line is blocked exactly when the flag says so. *)
Definition blocks_ok c : Prop := m_is_blocking c = true ↔ m_block_map c ≠ ∅.

Lemma blockOnQueue_eq a q c :
  blockOnQueue a q c = Ok (tt, with_blocks c true (<[a := q]> (m_block_map c))).
Proof. done. Qed.

Lemma isBlocked_spec c a : blocks_ok c → isBlocked c a = bool_decide (is_Some (m_block_map c !! a)).
Proof.
  unfold isBlocked, blocks_ok. intros H. destruct (m_is_blocking c); [done|]. cbn. symmetry.
  apply bool_decide_eq_false. intros [q Hq]. assert (m_block_map c = ∅) as E.
  { destruct (decide (m_block_map c = ∅)) as [|Hne]; [done|]. by apply H in Hne. }
  by rewrite E, lookup_empty in Hq.
Qed.

End blocking.

(** ** Properties *)

Section properties.
Context {P : Type}.
Implicit Types (c : t P) (addr buf : Z).

Lemma stall_find_nil {A} (s : list (Z * list (Message.t A))) :
  (∀ a, MessageBuffer.stall_find a s = None) → s = [].
Proof.
  destruct s as [|[a ms] s]; [done|]. intros H. specialize (H a). cbn in H.
  by rewrite decide_True in H.
Qed.

(** C31: when every stalled message is on record, [wakeUpAllBuffers] does not fault,
    gives every stalled message back to the queue of its buffer and loses none. *)
Theorem wake_all_returns_everything now c :
  (∀ buf b, buffers c !! buf = Some b → can_wake b) →
  (∀ buf, Some buf ∈ concat (m_waiting_buffers c).*2 → is_Some (buffers c !! buf)) →
  all_registered c →
  ∃ c', wakeUpAllBuffers now c = Ok (tt, c') ∧ m_waiting_buffers c' = [] ∧
    ∀ buf b0, buffers c !! buf = Some b0 → ∃ b, buffers c' !! buf = Some b ∧
      contents b ≡ₚ contents b0 ∧ MessageBuffer.m_stall_msg_map b = [].
Proof.
  intros Hw Hp Hreg. destruct (each_wakes now _ c Hw Hp) as (c' & H & _ & Hwk).
  unfold wakeUpAllBuffers. rewrite H. eexists. split; [done|]. split; [done|].
  intros buf b0 Hb0. destruct (Hwk buf b0 Hb0) as (b & Hb & _ & Hc & Hor & Hin).
  exists b. split_and!; [done|done|]. destruct Hor as [->|]; [|done].
  apply stall_find_nil. intros a. destruct (MessageBuffer.stall_find _ _) eqn:E; [|done].
  destruct (Hreg buf b0 a Hb0) as (vec & Hv%assoc_find_elem & Hin'); [by rewrite E|].
  rewrite Hin in E; [done|]. clear -Hv Hin'.
  induction (m_waiting_buffers c) as [|[a' v'] l IH]; [by apply not_elem_of_nil in Hv|].
  cbn. apply elem_of_app. apply elem_of_cons in Hv as [[= <- <-]|Hv]; [by left|right; by apply IH].
Qed.

Lemma stallBuffer_Ok buf addr c u c' : stallBuffer buf addr c = Ok (u, c') →
  ∃ vec vec', vec = default (replicate (Z.to_nat (m_in_ports c)) None)
                (assoc_find addr (m_waiting_buffers c)) ∧
    0 ≤ m_cur_in_port c < Z.of_nat (length vec) ∧
    vec' = <[Z.to_nat (m_cur_in_port c) := Some buf]> vec ∧
    c' = with_waiting c (assoc_set addr vec' (m_waiting_buffers c)).
Proof.
  unfold stallBuffer. intros (vec' & H & [= _ <-])%bind_Ok.
  apply vset_Ok in H as [Hr ->]. by eexists _, _.
Qed.

Lemma stall_find_push {A} a x (m : Message.t A) s :
  is_Some (MessageBuffer.stall_find a (MessageBuffer.stall_push x m s)) →
  a = x ∨ is_Some (MessageBuffer.stall_find a s).
Proof.
  induction s as [|[k ms] s IH]; cbn; [destruct (decide (a = x)); [by left|by intros [? ?]]|].
  destruct (decide (x = k)) as [->|]; cbn; [destruct (decide (a = k)); [by left|by right]|].
  destruct (decide (x < k)%Z); cbn.
  - destruct (decide (a = x)); [by left|by right].
  - destruct (decide (a = k)); [by right|done].
Qed.

Lemma stallMessage_stall sys now (b : MessageBuffer.t P) addr b' a :
  MessageBuffer.stallMessage sys now b addr = Ok b' →
  is_Some (MessageBuffer.stall_find a (MessageBuffer.m_stall_msg_map b')) →
  a = addr ∨ is_Some (MessageBuffer.stall_find a (MessageBuffer.m_stall_msg_map b)).
Proof.
  unfold MessageBuffer.stallMessage. intros H. apply bind_Ok in H as (? & _ & H).
  apply bind_Ok in H as (? & _ & H). apply bind_Ok in H as (? & _ & H).
  apply bind_Ok in H as ([[m z] b1] & Hd & [= <-]). cbn. intros Hs%stall_find_push.
  destruct Hs as [->|Hs]; [by left|]. right. by destruct (dequeue_frame _ _ _ _ _ Hd) as (<- & _).
Qed.

(** A message that is stalled while the slot of the current port is free, or
    already names the same buffer, is put on record, and no other record is lost. *)
Theorem stall_keeps_record sys now buf addr c u c' : all_registered c →
  (∀ vec o, assoc_find addr (m_waiting_buffers c) = Some vec →
     vec !! Z.to_nat (m_cur_in_port c) = Some (Some o) → o = buf) →
  stall_and_wait sys now buf addr c = Ok (u, c') → all_registered c'.
Proof.
  intros Hreg Hslot (v & c1 & H1 & H2)%prog_bind_Ok.
  apply stallBuffer_Ok in H1 as (vec & vec' & Hvec & Hr & -> & ->).
  apply on_buffer_Ok in H2 as (b0 & [b' sg] & Hb0 & Hs & ->). cbn in Hb0.
  apply bind_Ok in Hs as (b1 & Hs & [= <- <-]). unfold all_registered. cbn. intros x bx a Hx Ha.
  assert (a = addr ∧ x = buf ∨ ∃ b, buffers c !! x = Some b ∧
    is_Some (MessageBuffer.stall_find a (MessageBuffer.m_stall_msg_map b))) as [[-> ->]|(b & Hb & Hf)].
  { apply lookup_insert_Some in Hx as [[<- <-]|[Hne Hx]]; [|right; by exists bx].
    destruct (stallMessage_stall _ _ _ _ _ _ Hs Ha) as [->|]; [by left|right; by exists b0]. }
  { rewrite assoc_find_set_same. eexists. split; [done|].
    apply list_elem_of_lookup. exists (Z.to_nat (m_cur_in_port c)).
    rewrite list_lookup_insert_eq; [done|lia]. }
  destruct (Hreg x b a Hb Hf) as (w & Hw & Hin). destruct (decide (a = addr)) as [->|Hne].
  - rewrite assoc_find_set_same. eexists. split; [done|]. rewrite Hw in Hvec. cbn in Hvec. subst vec.
    apply list_elem_of_lookup in Hin as [i Hi]. apply list_elem_of_lookup. exists i.
    destruct (decide (i = Z.to_nat (m_cur_in_port c))) as [->|Hi'].
    + rewrite list_lookup_insert_eq by lia. by rewrite (Hslot w x Hw Hi).
    + by rewrite list_lookup_insert_ne.
  - exists w. by rewrite assoc_find_set_other.
Qed.

(** A port of rank zero that wakes the waiters of a line, and then all waiters,
    leaves the messages stalled for that line where they are, and off the record. *)
Theorem rank_zero_wake_up_lost now addr buf c u c' : m_cur_in_port c = 0 →
  (∀ a vec, (a, vec) ∈ m_waiting_buffers c → Some buf ∈ vec → a = addr) →
  is_Some (assoc_find addr (m_waiting_buffers c)) →
  (_ ← wakeUpBuffers now addr; wakeUpAllBuffers now) c = Ok (u, c') →
  buffers c' !! buf = buffers c !! buf ∧ m_waiting_buffers c' = [].
Proof.
  intros Hrank Honly [vec Hvec] (v & c1 & H1 & H2)%prog_bind_Ok.
  unfold wakeUpBuffers, wake_line in H1. rewrite Hvec, Hrank in H1. cbn in H1.
  injection H1 as _ <-. split.
  - apply (wakeUpAllBuffers_frame _ _ _ _ buf) in H2; [done|]. cbn.
    intros (a & w & Hin & Hw)%elem_of_concat_snd.
    apply list_elem_of_filter in Hin as [Hne Hin]. by apply Hne, (Honly a w).
  - unfold wakeUpAllBuffers in H2. apply bind_Ok in H2 as (r & _ & [= _ <-]). done.
Qed.

(** Two ports of one rank share the slot of a line: when both stall a message for
    it, the buffer of the first is forgotten, and waking everything leaves its message
    stalled. *)
Theorem shared_rank_wake_up_lost sys now b1 b2 addr c c1 u c' : b1 ≠ b2 →
  (∀ a vec, (a, vec) ∈ m_waiting_buffers c → Some b1 ∉ vec) →
  stall_and_wait sys now b1 addr c = Ok (tt, c1) →
  (_ ← stall_and_wait sys now b2 addr; wakeUpAllBuffers now) c1 = Ok (u, c') →
  buffers c' !! b1 = buffers c1 !! b1.
Proof.
  intros Hne Hnone (v & s1 & H1 & H2)%prog_bind_Ok (v' & c2 & H3 & H4)%prog_bind_Ok.
  apply stallBuffer_Ok in H1 as (vec & vec' & Hvec & Hr & -> & ->).
  apply on_buffer_Ok in H2 as (b0 & [b' sg] & _ & _ & ->).
  apply prog_bind_Ok in H3 as (v2 & s2 & H5 & H6).
  apply stallBuffer_Ok in H5 as (w & w' & Hw & _ & -> & ->).
  pose proof (on_buffer_waiting _ _ _ _ _ H6) as Hwait. cbn in Hw, Hwait, H6.
  rewrite assoc_find_set_same in Hw. cbn in Hw. subst w. rewrite list_insert_insert_eq, assoc_set_set in Hwait.
  apply (wakeUpAllBuffers_frame _ _ _ _ b1) in H4.
  - rewrite H4, (on_buffer_other _ _ _ _ _ _ H6); done.
  - rewrite Hwait. intros (a & w & Hin & Hw)%elem_of_concat_snd.
    assert (Some b1 ∉ vec) as Hno.
    { subst vec. destruct (assoc_find _ _) as [w0|] eqn:E; cbn.
      - by eapply Hnone, assoc_find_elem.
      - by intros [? _]%elem_of_replicate. }
    apply assoc_set_elem in Hin as [[= -> ->]|Hin].
    + apply list_elem_of_lookup in Hw as [i Hi]. apply list_lookup_insert_Some in Hi.
      destruct Hi as [(_ & [= ->] & _)|(_ & Hi)]; [done|]. by apply Hno, list_elem_of_lookup; exists i.
    + by eapply Hnone.
Qed.

End properties.

(** A record of which lines are blocked, as a set. *)
Inductive block_op : Type :=
  | Block (addr queue : Z)
  | Unblock (addr : Z).

Definition run_block {P} (o : block_op) : prog (t P) unit :=
  match o with Block a q => blockOnQueue a q | Unblock a => unblock a end.

Definition spec_block (s : gset Z) (o : block_op) : gset Z :=
  match o with Block a _ => {[a]} ∪ s | Unblock a => s ∖ {[a]} end.

Lemma run_block_spec {P} (o : block_op) (c : t P) : blocks_ok c →
  ∃ c', run_block o c = Ok (tt, c') ∧ blocks_ok c' ∧
    dom (m_block_map c') = spec_block (dom (m_block_map c)) o.
Proof.
  intros H. destruct o as [a q|a]; cbn [run_block spec_block].
  - eexists. split; [apply blockOnQueue_eq|]. split; cbn; [|by rewrite dom_insert_L].
    split; [intros _; apply insert_non_empty|done].
  - eexists. split; [reflexivity|]. unfold blocks_ok, with_blocks. cbn. split; [|by rewrite dom_delete_L].
    destruct (decide (delete a (m_block_map c) = ∅)) as [E|E]; [by split|]. split; [done|].
    intros _. apply H. intros E'. apply E. by rewrite E', delete_empty.
Qed.

(** After any sequence of [blockOnQueue] and [unblock], a line is blocked exactly
    when its last call blocked it. *)
Theorem blocked_lines_set {P} (ops : list block_op) version ports (bufs : gmap Z (MessageBuffer.t P)) :
  ∃ c, each run_block ops (create version ports bufs) = Ok (tt, c) ∧
    ∀ a, isBlocked c a = bool_decide (a ∈ foldl spec_block ∅ ops).
Proof.
  assert (∀ ops (c : t P), blocks_ok c → ∃ c', each run_block ops c = Ok (tt, c') ∧ blocks_ok c' ∧
    dom (m_block_map c') = foldl spec_block (dom (m_block_map c)) ops) as Hrun.
  { clear. induction ops as [|o ops IH]; intros c Hc; [by exists c|]. cbn [each foldl].
    destruct (run_block_spec o c Hc) as (c1 & H1 & Hok & Hdom).
    rewrite (prog_bind_step _ _ _ _ _ H1). destruct (IH c1 Hok) as (c' & -> & Hok' & Hdom').
    exists c'. split; [done|]. split; [done|]. by rewrite Hdom', Hdom. }
  destruct (Hrun ops (create version ports bufs)) as (c & H & Hok & Hdom); [by split|].
  exists c. split; [done|]. intros a. rewrite isBlocked_spec by done.
  apply bool_decide_ext. rewrite <- elem_of_dom, Hdom. cbn. by rewrite dom_empty_L.
Qed.

(** ** Witnesses *)

(** A buffer with one ready message, a buffer with one message stalled for line 64,
    and controllers over them. *)
Definition full : MessageBuffer.t Z :=
  match MessageBuffer.enqueue demo_sys 0 0 (demo true) (demo_msg 7) 1 false with
  | Ok r => r.1 | Err _ => demo true
  end.
Definition stalled7 : MessageBuffer.t Z := MessageBuffer.with_stall (demo true) [(64, [demo_msg 7])].
Definition demo_ctl : t Z := create 0 2 {[1 := full; 2 := full]}.
Definition waiting_ctl : t Z := with_waiting (create 0 2 {[1 := stalled7]}) [(64, [Some 1; None])].

Lemma wake_all_returns_everything_witness :
  ∃ c' b, wakeUpAllBuffers 3 waiting_ctl = Ok (tt, c') ∧ buffers c' !! 1 = Some b ∧
    contents b ≡ₚ [7] ∧ MessageBuffer.m_stall_msg_map b = [].
Proof.
  destruct (wake_all_returns_everything 3 waiting_ctl) as (c' & H & _ & Hb).
  - intros buf b Hb. change (buffers waiting_ctl) with ({[1 := stalled7]} : gmap Z (MessageBuffer.t Z)) in Hb.
    apply lookup_singleton_Some in Hb as [<- <-]. split_and!; [|done|done].
    split_and!; [apply heap_nil|constructor|done|constructor].
  - cbn. intros buf Hbuf. assert (buf = 1) as -> by set_solver. by eexists.
  - intros buf b a Hb. change (buffers waiting_ctl) with ({[1 := stalled7]} : gmap Z (MessageBuffer.t Z)) in Hb.
    apply lookup_singleton_Some in Hb as [<- <-]. cbn. destruct (decide (a = 64)) as [->|].
    + intros _. eexists. split; [reflexivity|]. set_solver.
    + by intros [? ?].
  - destruct (Hb 1 stalled7) as (b & ? & ? & ?); [reflexivity|]. by exists c', b.
Defined.

Lemma stall_keeps_record_witness : ∃ c', stall_and_wait demo_sys 1 1 64 demo_ctl = Ok (tt, c') ∧
  all_registered c'.
Proof.
  eexists. split; [vm_compute; reflexivity|].
  apply (stall_keeps_record demo_sys 1 1 64 demo_ctl tt); [|by intros ? ? [=]|vm_compute; reflexivity].
  intros buf b a Hb [ms Hms]. exfalso.
  assert (MessageBuffer.m_stall_msg_map b = []) as E.
  { change (buffers demo_ctl) with ({[1 := full; 2 := full]} : gmap Z (MessageBuffer.t Z)) in Hb.
    apply lookup_insert_Some in Hb as [[_ <-]|[_ [_ <-]%lookup_singleton_Some]]; reflexivity. }
  by rewrite E in Hms.
Defined.

Lemma rank_zero_wake_up_lost_witness : ∃ c',
  (_ ← wakeUpBuffers 3 64; wakeUpAllBuffers 3) waiting_ctl = Ok (tt, c') ∧
  buffers c' !! 1 = Some stalled7 ∧ m_waiting_buffers c' = [].
Proof.
  eexists. split; [vm_compute; reflexivity|].
  apply (rank_zero_wake_up_lost 3 64 1 waiting_ctl tt); [reflexivity| |by eexists|vm_compute; reflexivity].
  intros a vec. cbn. intros [= -> _]%list_elem_of_singleton. done.
Defined.

Lemma shared_rank_wake_up_lost_witness : ∃ c1 c' b,
  stall_and_wait demo_sys 1 1 64 demo_ctl = Ok (tt, c1) ∧
  (_ ← stall_and_wait demo_sys 1 2 64; wakeUpAllBuffers 1) c1 = Ok (tt, c') ∧
  buffers c' !! 1 = Some b ∧ MessageBuffer.m_prio_heap b = [] ∧
  Message.payload <$> MessageBuffer.stalled b = [7].
Proof.
  eexists _, _, _. split; [vm_compute; reflexivity|]. split; [vm_compute; reflexivity|].
  split.
  - etransitivity; [eapply (shared_rank_wake_up_lost demo_sys 1 1 2 64 demo_ctl _ tt)|];
      [done|by intros ? ? ?%not_elem_of_nil|vm_compute; reflexivity|vm_compute; reflexivity|].
    vm_compute; reflexivity.
  - split; vm_compute; reflexivity.
Defined.
