(* ===== verification/DirectoryMemory.v ===== *)
(** * The memory of the directories (mem/ruby/structures/DirectoryMemory.hh,
    DirectoryMemory.cc; slicc_interface/RubySlicc_ComponentMapping.hh)

    The directories share the lines of memory: some bits of an address choose the
    directory, the others the entry in its array.  The theorems show that two lines of
    one directory never share an entry, so a directory is a map from lines. *)

From S2P Require Import Prelude IntMath Addresses NodeSets Destinations Arbiter Caches.
Local Open Scope Z_scope.

Module DirectoryMemory.

(** The static members, which all directories share. *)
Record statics := mkStatics {
  m_num_directories : Z;
  m_num_directories_bits : Z;
  m_total_size_bytes : Z;
  m_numa_high_bit : Z }.

Record t (E : Type) := mk {
  m_version : Z;
  m_size_bytes : Z;
  m_size_bits : Z;
  m_num_entries : Z;
  m_entries : list (option E) }.
Arguments mk {E}.
Arguments m_version {E}.
Arguments m_size_bytes {E}.
Arguments m_size_bits {E}.
Arguments m_num_entries {E}.
Arguments m_entries {E}.

(** The constructor; every directory sets the shared bit anew. *)
Definition create {E} (s : statics) (version size numa_high_bit : Z) : outcome (statics * t E) :=
  bits ← IntMath.floorLog2_ull size;
  Ok (mkStatics (m_num_directories s) (m_num_directories_bits s) (m_total_size_bytes s) numa_high_bit,
      mk version size bits 0 []).

Definition init {E} (sys : RubySystem.t) (s : statics) (d : t E) : outcome (statics * t E) :=
  let entries := m_size_bytes d `div` RubySystem.getBlockSizeBytes sys in
  let num := m_num_directories s + 1 in
  bits ← IntMath.ceilLog2 num;
  let high := if decide (m_numa_high_bit s = 0) then RubySystem.getMemorySizeBits sys - 1
              else m_numa_high_bit s in
  assert_that (bool_decide (high ≠ 0));;
  Ok (mkStatics num bits (u64 (m_total_size_bytes s + m_size_bytes d)) high,
      mk (m_version d) (m_size_bytes d) (m_size_bits d) entries (replicate (Z.to_nat entries) None)).

Definition mapAddressToDirectoryVersion (s : statics) (address : Z) : outcome Z :=
  if decide (m_num_directories_bits s = 0) then Ok 0
  else Address.bitSelect address (m_numa_high_bit s - m_num_directories_bits s + 1) (m_numa_high_bit s).

Definition mapAddressToLocalIdx (sys : RubySystem.t) (s : statics) (address : Z) : outcome Z :=
  ret ← (if decide (0 < m_num_directories_bits s)
         then Address.bitRemove address (m_numa_high_bit s - m_num_directories_bits s + 1)
                (m_numa_high_bit s)
         else Ok address);
  shr64 ret (RubySystem.getBlockSizeBits sys).

Section entries.
(** [changePermission] is the method of the entries. *)
Context {E : Type} (changePermission : E → AccessPermission → E).
Context (sys : RubySystem.t) (s : statics).
Implicit Types (d : t E) (address : Z).

Definition isPresent d address : outcome bool :=
  v ← mapAddressToDirectoryVersion s address; Ok (bool_decide (v = u64 (m_version d))).

(** The index of an address, once both asserts have passed. *)
Definition entry_index d address : outcome Z :=
  p ← isPresent d address;
  assert_that p;;
  idx ← mapAddressToLocalIdx sys s address;
  assert_that (bool_decide (idx < m_num_entries d));;
  Ok idx.

Definition lookup d address : outcome (option E) :=
  idx ← entry_index d address; vget (m_entries d) idx.

Definition allocate d address (entry : E) : outcome (t E) :=
  idx ← entry_index d address;
  l ← vset (m_entries d) idx (Some (changePermission entry Read_Only));
  Ok (mk (m_version d) (m_size_bytes d) (m_size_bits d) (m_num_entries d) l).

(** A change of the entry [lookup] points to. *)
Definition update_entry d address (f : E → E) : outcome (t E) :=
  idx ← entry_index d address;
  o ← vget (m_entries d) idx;
  e ← from_option_or NullDeref o;
  l ← vset (m_entries d) idx (Some (f e));
  Ok (mk (m_version d) (m_size_bytes d) (m_size_bits d) (m_num_entries d) l).

End entries.
End DirectoryMemory.

Import DirectoryMemory.

(** [map_Address_to_DirectoryNode] and [map_Address_to_Directory] *)
Definition map_Address_to_DirectoryNode (s : statics) (addr : Z) : outcome Z :=
  v ← mapAddressToDirectoryVersion s addr; Ok (u32 v).

Definition map_Address_to_Directory (s : statics) (addr : Z) : outcome MachineID :=
  v ← map_Address_to_DirectoryNode s addr; Ok (mkMachineID MachineType_Directory v).

(** [broadcast(type)] *)
Definition broadcast (counts : list Z) (junk type : Z) : outcome NetDest.t :=
  dest ← NetDest.create counts junk;
  n ← MachineType.base_count counts type;
  mfold (λ d i, NetDest.add counts d (mkMachineID type i)) dest (seqZ 0 n).

(** The sum of a [uint64] and an [int], cut to a [NodeID]. *)
Definition mapAddressToRange (addr type low_bit num_bits cluster_id : Z) : outcome MachineID :=
  if decide (num_bits = 0) then Ok (mkMachineID type (u32 cluster_id))
  else
    v ← Address.bitSelect addr low_bit (low_bit + num_bits - 1);
    Ok (mkMachineID type (u32 (v + 2 ^ num_bits * cluster_id))).

Definition machineIDToNodeID (m : MachineID) : Z := mach_num m.
Definition machineIDToMachineType (m : MachineID) : Z := mach_type m.
Definition machineCount (counts : list Z) (type : Z) : outcome Z := MachineType.base_count counts type.
Definition createMachineID (type id : Z) : MachineID := mkMachineID type id.

(** ** Entries and lines *)

(** The bits that choose the directory lie above the offset in a line and below the
    sign bit of an address. *)
Definition statics_ok (sys : RubySystem.t) (s : statics) : Prop :=
  0 ≤ m_num_directories_bits s ∧ m_numa_high_bit s < 63 ∧
  RubySystem.m_block_size_bits sys ≤ m_numa_high_bit s - m_num_directories_bits s + 1.

Lemma localIdx_eq sys s a : Address.geometry sys → statics_ok sys s → fits 64 a →
  let small := m_numa_high_bit s - m_num_directories_bits s + 1 in
  let B := RubySystem.m_block_size_bits sys in
  mapAddressToLocalIdx sys s a =
    Ok (if decide (0 < m_num_directories_bits s)
        then 2 ^ (small - B) * (a `div` 2 ^ (m_numa_high_bit s + 1)) + (a `div` 2 ^ B) `mod` 2 ^ (small - B)
        else a `div` 2 ^ B).
Proof.
  intros [HB _] (Hk & Hh & Hs) Ha small B. unfold mapAddressToLocalIdx, RubySystem.getBlockSizeBits.
  fold small in Hs |- *. fold B in Hs, HB |- *. destruct (decide _) as [Hp|]; cbn [mbind outcome_bind].
  - rewrite bitRemove_middle by (done || lia). cbn [mbind outcome_bind].
    rewrite shr64_Ok by lia. f_equal.
    replace (2 ^ small) with (2 ^ (small - B) * 2 ^ B) at 1 by (rewrite <- Z.pow_add_r by lia; f_equal; lia).
    rewrite <- Z.mul_assoc, (Z.mul_comm (2 ^ B)), Z.mul_assoc, Z.add_comm, Z.div_add, Z.add_comm by lia.
    f_equal. by rewrite mod_div_slice by lia.
  - by rewrite shr64_Ok by lia.
Qed.

Lemma directoryVersion_eq sys s a : Address.geometry sys → statics_ok sys s → fits 64 a →
  0 < m_num_directories_bits s →
  mapAddressToDirectoryVersion s a =
    Ok ((a `div` 2 ^ (m_numa_high_bit s - m_num_directories_bits s + 1)) `mod` 2 ^ m_num_directories_bits s).
Proof.
  intros [HB _] (Hk & Hh & Hs) Ha Hp. unfold mapAddressToDirectoryVersion.
  rewrite decide_False by lia. rewrite bitSelect_spec by (done || lia). do 3 f_equal. lia.
Qed.

(** A number is known from its high, middle and low parts. *)
Lemma three_parts x y small k : 0 ≤ small → 0 ≤ k →
  x `div` 2 ^ (small + k) = y `div` 2 ^ (small + k) →
  (x `div` 2 ^ small) `mod` 2 ^ k = (y `div` 2 ^ small) `mod` 2 ^ k →
  x `mod` 2 ^ small = y `mod` 2 ^ small → x = y.
Proof.
  intros Hs Hk Hhi Hmid Hlo.
  assert (∀ z, z = 2 ^ small * (2 ^ k * (z `div` 2 ^ (small + k)) + (z `div` 2 ^ small) `mod` 2 ^ k)
    + z `mod` 2 ^ small) as E.
  { intros z. rewrite Z.pow_add_r, <- Z.div_div by lia. rewrite <- Z.div_mod by lia.
    apply Z.div_mod. lia. }
  rewrite (E x), (E y). by rewrite Hhi, Hmid, Hlo.
Qed.

Lemma same_entry_same_line sys s a a' : Address.geometry sys → statics_ok sys s →
  fits 64 a → fits 64 a' →
  mapAddressToDirectoryVersion s a = mapAddressToDirectoryVersion s a' →
  mapAddressToLocalIdx sys s a = mapAddressToLocalIdx sys s a' →
  Address.line_address sys a = Address.line_address sys a'.
Proof.
  intros Hg Hst Ha Ha' Hv Hi. rewrite !line_address_eq by done. f_equal.
  rewrite !localIdx_eq in Hi by done. cbv zeta in Hi. pose proof Hg as [HB Hbytes].
  pose proof Hst as (Hk & Hh & Hs). rewrite !Hbytes.
  destruct (decide _) as [Hp|]; [|congruence].
  rewrite !(directoryVersion_eq sys) in Hv by done. injection Hv as Hv. injection Hi as Hi.
  set (small := m_numa_high_bit s - m_num_directories_bits s + 1) in *.
  set (B := RubySystem.m_block_size_bits sys) in *. set (k := m_num_directories_bits s) in *.
  pose proof (Z.mod_pos_bound (a `div` 2 ^ B) (2 ^ (small - B)) ltac:(lia)).
  pose proof (Z.mod_pos_bound (a' `div` 2 ^ B) (2 ^ (small - B)) ltac:(lia)).
  apply Z.div_mod_unique in Hi as [Hhi Hlo]; [|left; done|left; done].
  apply (three_parts _ _ (small - B) k); [lia|lia| | |done].
  - rewrite !Z.div_div, <- !Z.pow_add_r by lia.
    replace (B + (small - B + k)) with (m_numa_high_bit s + 1) by (unfold small; lia). done.
  - rewrite !Z.div_div, <- !Z.pow_add_r by lia. by replace (B + (small - B)) with small by lia.
Qed.

Lemma same_line_same_index sys s a a' : Address.geometry sys → statics_ok sys s →
  fits 64 a → fits 64 a' →
  Address.line_address sys a = Address.line_address sys a' →
  mapAddressToLocalIdx sys s a = mapAddressToLocalIdx sys s a'.
Proof.
  intros Hg Hst Ha Ha' Hl. rewrite !line_address_eq in Hl by done.
  pose proof (block_pos sys Hg). apply Z.mul_reg_l in Hl; [|lia].
  rewrite !localIdx_eq by done. cbv zeta. pose proof Hg as [HB Hbytes]. pose proof Hst as (Hk & Hh & Hs).
  rewrite Hbytes in Hl. rewrite Hl. destruct (decide _); [|done]. do 3 f_equal.
  replace (m_numa_high_bit s + 1) with
    (RubySystem.m_block_size_bits sys + (m_numa_high_bit s + 1 - RubySystem.m_block_size_bits sys)) by lia.
  rewrite !Z.pow_add_r, <- !Z.div_div by lia. by rewrite Hl.
Qed.

Lemma entry_index_Ok {E} sys s (d : t E) a i : entry_index sys s d a = Ok i →
  mapAddressToDirectoryVersion s a = Ok (u64 (m_version d)) ∧
  mapAddressToLocalIdx sys s a = Ok i ∧ i < m_num_entries d.
Proof.
  unfold entry_index, isPresent. intros H. apply bind_Ok in H as (p & Hp & H).
  apply bind_Ok in Hp as (v & Hv & [= <-]). apply bind_Ok in H as (u & Hu%assert_that_Ok & H).
  apply bool_decide_eq_true in Hu as ->. apply bind_Ok in H as (i' & Hi & H).
  apply bind_Ok in H as (u' & Hlt%assert_that_Ok & [= <-]). apply bool_decide_eq_true in Hlt. done.
Qed.

(** A directory is a map from lines: what is allocated for a line is found for every
    address of that line, and the entries of the other lines of the directory do not
    change. *)
Theorem directory_memory_refines_map {E} (chg : E → AccessPermission → E) sys s (d d' : t E) a a' e i :
  Address.geometry sys → statics_ok sys s → fits 64 a → fits 64 a' →
  Z.of_nat (length (m_entries d)) = m_num_entries d →
  allocate chg sys s d a e = Ok d' → entry_index sys s d a' = Ok i →
  lookup sys s d' a' =
    if decide (Address.line_address sys a = Address.line_address sys a')
    then Ok (Some (chg e Read_Only)) else lookup sys s d a'.
Proof.
  intros Hg Hst Ha Ha' Hlen Hal Hi. unfold allocate in Hal. apply bind_Ok in Hal as (j & Hj & Hal).
  apply bind_Ok in Hal as (l & Hl & [= <-]). unfold lookup.
  assert (entry_index sys s (mk (m_version d) (m_size_bytes d) (m_size_bits d) (m_num_entries d) l) a'
    = Ok i) as -> by exact Hi. rewrite Hi. cbn [mbind outcome_bind m_entries].
  apply vset_Ok in Hl as [Hr ->].
  apply entry_index_Ok in Hj as (Hv & Hj & Hjn). apply entry_index_Ok in Hi as (Hv' & Hi & Hin).
  destruct (decide _) as [Hsame|Hdiff].
  - assert (i = j) as -> by (rewrite (same_line_same_index sys s a a') in Hj by done; congruence).
    apply vget_Ok. split; [lia|]. by rewrite list_lookup_insert_eq by lia.
  - assert (i ≠ j) as Hne by (intros ->; apply Hdiff; apply (same_entry_same_line sys s); congruence).
    unfold vget. destruct (decide (0 ≤ i)); [|done]. by rewrite list_lookup_insert_ne by lia.
Qed.

(** ** Witness *)

(** Four directories of 64 lines of 64 bytes each. *)
Definition four : statics := mkStatics 4 2 16384 11.
Definition third : t Z := mk 2 4096 12 64 (replicate 64 None).

Lemma directory_memory_refines_map_witness : ∃ d',
  allocate (λ e _, e) sys64 four third 0x1840 7 = Ok d' ∧
  lookup sys64 four d' 0x1850 = Ok (Some 7) ∧ lookup sys64 four d' 0x0840 = Ok None.
Proof.
  eexists. split; [vm_compute; reflexivity|]. split.
  - refine (eq_trans (directory_memory_refines_map (λ e _, e) sys64 four third _ 0x1840 0x1850 7 _ _ _ _ _ _ _ _) _);
      [split; cbn; lia|split_and!; cbn; lia|unfold fits; lia|unfold fits; lia|reflexivity|
       vm_compute; reflexivity|vm_compute; reflexivity|vm_compute; reflexivity].
  - refine (eq_trans (directory_memory_refines_map (λ e _, e) sys64 four third _ 0x1840 0x0840 7 _ _ _ _ _ _ _ _) _);
      [split; cbn; lia|split_and!; cbn; lia|unfold fits; lia|unfold fits; lia|reflexivity|
       vm_compute; reflexivity|vm_compute; reflexivity|vm_compute; reflexivity].
Defined.
