(* ===== verification/Messages.v ===== *)
(** * Messages of the controllers (mem/protocol/MSI_Snooping_One_Level_RT-msg.sm,
    RubySlicc_MemControl.sm, RubySlicc_Exports.sm; mem/ruby/slicc_interface/RubyRequest.hh,
    RubyRequest.cc)

    What the message buffers between the controllers carry, the constructor of a
    processor request, and the functional accesses to messages.  A field that the
    generated constructors leave uninitialised is an argument of the definition that
    makes the message. *)

From Stdlib Require Import SpecFloat.
From S2P Require Import Prelude IntMath Addresses NodeSets Destinations Blocks Caches MsiTables.
Local Open Scope Z_scope.

Inductive MessageSizeType : Set :=
  | Size_Control | Size_Data | Size_Request_Control | Size_Reissue_Control
  | Size_Response_Data | Size_ResponseL2hit_Data | Size_ResponseLocal_Data
  | Size_Response_Control | Size_Writeback_Data | Size_Writeback_Control
  | Size_Broadcast_Control | Size_Multicast_Control | Size_Forwarded_Control
  | Size_Invalidate_Control | Size_Unblock_Control | Size_Persistent_Control
  | Size_Completion_Control.

Inductive MemoryRequestType : Set := MEMORY_READ | MEMORY_WB | MEMORY_DATA | MEMORY_ACK.
Inductive PrefetchBit : Set := Prefetch_No | Prefetch_Yes | Prefetch_L1_HW | Prefetch_L2_HW.
Inductive RubyAccessMode : Set := Mode_Supervisor | Mode_User | Mode_Device.
Inductive SequencerRequestType : Set := Sequencer_Default | Sequencer_LD | Sequencer_ST | Sequencer_NULL.
Inductive DMARequestType : Set := DMARequest_READ | DMARequest_WRITE | DMARequest_NULL.
Inductive DMAResponseType : Set := DMAResponse_DATA | DMAResponse_ACK | DMAResponse_NULL.

(** ** Coherence messages *)

Module RequestMsg.

Record t := mk {
  m_Addr : Z;
  m_Type : CoherenceRequestType;
  m_Requestor : MachineID;
  m_Destination : NetDest.t;
  m_DataBlk : DataBlock.t;
  m_MessageSize : MessageSizeType;
  m_Len : Z;
  m_Data : Z;
  m_DataOffset : Z;
  m_DataSize : Z }.

Definition with_data (m : t) (b : DataBlock.t) : t :=
  mk (m_Addr m) (m_Type m) (m_Requestor m) (m_Destination m) b (m_MessageSize m) (m_Len m)
    (m_Data m) (m_DataOffset m) (m_DataSize m).

(** Only a write-back carries the data of the line. *)
Definition functionalRead (sys : RubySystem.t) (m : t) (p : packet) : outcome (option packet) :=
  match m_Type m with
  | Request_PUTM => testAndRead sys (m_Addr m) (m_DataBlk m) p
  | _ => Ok None
  end.

Definition functionalWrite (sys : RubySystem.t) (m : t) (p : packet) : outcome (option t) :=
  b ← testAndWrite sys (m_Addr m) (m_DataBlk m) p; Ok (option_map (with_data m) b).

End RequestMsg.

Module ResponseMsg.

Record t := mk {
  m_Addr : Z;
  m_Type : CoherenceResponseType;
  m_Sender : MachineID;
  m_Destination : NetDest.t;
  m_DataBlk : DataBlock.t;
  m_Dirty : bool;
  m_MessageSize : MessageSizeType;
  m_AckCount : Z;
  m_SendTime : Z }.

Definition with_data (m : t) (b : DataBlock.t) : t :=
  mk (m_Addr m) (m_Type m) (m_Sender m) (m_Destination m) b (m_Dirty m) (m_MessageSize m)
    (m_AckCount m) (m_SendTime m).

Definition functionalRead (sys : RubySystem.t) (m : t) (p : packet) : outcome (option packet) :=
  testAndRead sys (m_Addr m) (m_DataBlk m) p.

Definition functionalWrite (sys : RubySystem.t) (m : t) (p : packet) : outcome (option t) :=
  b ← testAndWrite sys (m_Addr m) (m_DataBlk m) p; Ok (option_map (with_data m) b).

End ResponseMsg.

Module MemoryMsg.

Record t := mk {
  m_Addr : Z;
  m_Type : MemoryRequestType;
  m_Sender : MachineID;
  m_OriginalRequestorMachId : MachineID;
  m_DataBlk : DataBlock.t;
  m_MessageSize : MessageSizeType;
  m_Prefetch : PrefetchBit;
  m_ReadX : bool;
  m_Acks : Z }.

Definition with_data (m : t) (b : DataBlock.t) : t :=
  mk (m_Addr m) (m_Type m) (m_Sender m) (m_OriginalRequestorMachId m) b (m_MessageSize m)
    (m_Prefetch m) (m_ReadX m) (m_Acks m).

Definition functionalRead (sys : RubySystem.t) (m : t) (p : packet) : outcome (option packet) :=
  testAndRead sys (m_Addr m) (m_DataBlk m) p.

Definition functionalWrite (sys : RubySystem.t) (m : t) (p : packet) : outcome (option t) :=
  b ← testAndWrite sys (m_Addr m) (m_DataBlk m) p; Ok (option_map (with_data m) b).

End MemoryMsg.

(** ** Processor requests *)

Module RubyRequest.

(** [m_Data] points to the bytes of the packet, [None] is null. *)
Record t := mk {
  m_PhysicalAddress : Z;
  m_LineAddress : Z;
  m_Type : RubyRequestType;
  m_PType : RubyRequestType;
  m_ProgramCounter : Z;
  m_AccessMode : RubyAccessMode;
  m_Size : Z;
  m_Prefetch : PrefetchBit;
  m_Data : option (list Z);
  m_Data64Bit : Z;
  m_contextId : Z;
  m_Offset : Z }.

(** [*(uint64_t * )data]: eight bytes, whatever the size of the access. *)
Definition read64 (data : list Z) : outcome Z :=
  if decide (8 ≤ length data)%nat then Ok (DataBlock.value_of (take 8 data)) else Err OutOfBounds.

(** [pow(2, bits) - 1] as a [double], converted to [uint64_t]; the powers of two
    that occur are exact. *)
Definition double_of (z : Z) : spec_float := binary_normalize 53 1024 z 0 false.
Definition to_uint64 (f : spec_float) : Z :=
  match f with S754_finite false m e => Z.shiftl (Zpos m) e | _ => 0 end.
Definition size_mask (size : Z) : Z :=
  to_uint64 (SFsub 53 1024 (double_of (2 ^ (size * 8))) (double_of 1)).

(** What the constructor leaves in [m_Data64Bit]; [junk] is what was there. *)
Definition data64 (data : option (list Z)) (size junk : Z) : outcome Z :=
  match data with
  | None => Ok junk
  | Some bytes =>
      v ← read64 bytes;
      Ok (if decide (size < 8) then Z.land v (size_mask size) else v)
  end.

Definition create (sys : RubySystem.t) (junk : Z) (paddr : Z) (data : option (list Z)) (len pc : Z)
    (ptype type : RubyRequestType) (mode : RubyAccessMode) (pb : PrefetchBit) (proc_id : Z)
    : outcome t :=
  v ← data64 data len junk;
  offset ← Address.getOffset sys paddr;
  Ok (mk paddr (Address.makeLineAddress sys paddr) type ptype pc mode len pb data v proc_id offset).

Definition bypassBlocked (r : t) : bool :=
  match m_Type r with Locked_RMW_Write => true | _ => false end.

Definition with_data (r : t) (l : list Z) (v : Z) : t :=
  mk (m_PhysicalAddress r) (m_LineAddress r) (m_Type r) (m_PType r) (m_ProgramCounter r)
    (m_AccessMode r) (m_Size r) (m_Prefetch r) (Some l) v (m_contextId r) (m_Offset r).

Definition functionalRead (r : t) (p : packet) : option packet := None.

(** The bytes that both accesses have, in address order; addresses are 64-bit. *)
Definition functionalWrite (r : t) (p : packet) : outcome (bool * t) :=
  let wBase := pkt_addr p in
  let wTail := u64 (wBase + pkt_size p) in
  let mBase := m_PhysicalAddress r in
  let mTail := u64 (mBase + m_Size r) in
  let cBase := Z.max wBase mBase in
  let cTail := Z.min wTail mTail in
  l ← mfold (λ l i, match l with
                    | None => Err NullDeref
                    | Some l => v ← vget (pkt_data p) (i - wBase); l ← vset l (i - mBase) v; Ok (Some l)
                    end) (m_Data r) (seqZ cBase (cTail - cBase));
  l ← from_option_or NullDeref l;
  v ← read64 l;
  Ok (bool_decide (cBase < cTail), with_data r l v).

End RubyRequest.

(** ** Messages of the DMA controller *)

Module SequencerMsg.

Record t := mk {
  m_LineAddress : Z;
  m_PhysicalAddress : Z;
  m_Type : SequencerRequestType;
  m_DataBlk : DataBlock.t;
  m_Len : Z }.

Definition with_data (m : t) (b : DataBlock.t) : t :=
  mk (m_LineAddress m) (m_PhysicalAddress m) (m_Type m) b (m_Len m).

Definition functionalRead (sys : RubySystem.t) (m : t) (p : packet) : outcome (option packet) :=
  testAndRead sys (m_PhysicalAddress m) (m_DataBlk m) p.

Definition functionalWrite (sys : RubySystem.t) (m : t) (p : packet) : outcome (option t) :=
  b ← testAndWrite sys (m_PhysicalAddress m) (m_DataBlk m) p; Ok (option_map (with_data m) b).

End SequencerMsg.

Module DMARequestMsg.

Record t := mk {
  m_Type : DMARequestType;
  m_PhysicalAddress : Z;
  m_LineAddress : Z;
  m_Requestor : MachineID;
  m_Destination : NetDest.t;
  m_DataBlk : DataBlock.t;
  m_Len : Z;
  m_MessageSize : MessageSizeType }.

Definition with_data (m : t) (b : DataBlock.t) : t :=
  mk (m_Type m) (m_PhysicalAddress m) (m_LineAddress m) (m_Requestor m) (m_Destination m) b (m_Len m) (m_MessageSize m).

Definition functionalRead (sys : RubySystem.t) (m : t) (p : packet) : outcome (option packet) :=
  testAndRead sys (m_LineAddress m) (m_DataBlk m) p.

Definition functionalWrite (sys : RubySystem.t) (m : t) (p : packet) : outcome (option t) :=
  b ← testAndWrite sys (m_LineAddress m) (m_DataBlk m) p; Ok (option_map (with_data m) b).

End DMARequestMsg.

Module DMAResponseMsg.

Record t := mk {
  m_Type : DMAResponseType;
  m_PhysicalAddress : Z;
  m_LineAddress : Z;
  m_Destination : NetDest.t;
  m_DataBlk : DataBlock.t;
  m_MessageSize : MessageSizeType }.

Definition with_data (m : t) (b : DataBlock.t) : t :=
  mk (m_Type m) (m_PhysicalAddress m) (m_LineAddress m) (m_Destination m) b (m_MessageSize m).

Definition functionalRead (sys : RubySystem.t) (m : t) (p : packet) : outcome (option packet) :=
  testAndRead sys (m_LineAddress m) (m_DataBlk m) p.

Definition functionalWrite (sys : RubySystem.t) (m : t) (p : packet) : outcome (option t) :=
  b ← testAndWrite sys (m_LineAddress m) (m_DataBlk m) p; Ok (option_map (with_data m) b).

End DMAResponseMsg.

(** What a message buffer can hold; a [peek] casts it to the type of its port. *)
Inductive payload : Type :=
  | PRequest (m : RequestMsg.t)
  | PResponse (m : ResponseMsg.t)
  | PMemory (m : MemoryMsg.t)
  | PRuby (r : RubyRequest.t)
  | PSequencer (m : SequencerMsg.t)
  | PDMARequest (m : DMARequestMsg.t)
  | PDMAResponse (m : DMAResponseMsg.t).

(** [dynamic_cast] and the assert that follows it in the code of a [peek]. *)
Definition as_request (p : payload) : outcome RequestMsg.t :=
  match p with PRequest m => Ok m | _ => Err AssertFail end.
Definition as_response (p : payload) : outcome ResponseMsg.t :=
  match p with PResponse m => Ok m | _ => Err AssertFail end.
Definition as_memory (p : payload) : outcome MemoryMsg.t :=
  match p with PMemory m => Ok m | _ => Err AssertFail end.
Definition as_ruby (p : payload) : outcome RubyRequest.t :=
  match p with PRuby r => Ok r | _ => Err AssertFail end.
Definition as_sequencer (p : payload) : outcome SequencerMsg.t :=
  match p with PSequencer m => Ok m | _ => Err AssertFail end.
Definition as_dma_request (p : payload) : outcome DMARequestMsg.t :=
  match p with PDMARequest m => Ok m | _ => Err AssertFail end.
Definition as_dma_response (p : payload) : outcome DMAResponseMsg.t :=
  match p with PDMAResponse m => Ok m | _ => Err AssertFail end.

(** The virtual methods [functionalRead] and [functionalWrite]. *)
Definition payload_functionalRead (sys : RubySystem.t) (m : payload) (p : packet) : outcome (option packet) :=
  match m with
  | PRequest m => RequestMsg.functionalRead sys m p
  | PResponse m => ResponseMsg.functionalRead sys m p
  | PMemory m => MemoryMsg.functionalRead sys m p
  | PRuby r => Ok (RubyRequest.functionalRead r p)
  | PSequencer m => SequencerMsg.functionalRead sys m p
  | PDMARequest m => DMARequestMsg.functionalRead sys m p
  | PDMAResponse m => DMAResponseMsg.functionalRead sys m p
  end.

(** Whether the message was written, and the message. *)
Definition written {A} (m : payload) (wrap : A → payload) (o : option A) : bool * payload :=
  match o with Some m' => (true, wrap m') | None => (false, m) end.

Definition payload_functionalWrite (sys : RubySystem.t) (m : payload) (p : packet) : outcome (bool * payload) :=
  match m with
  | PRequest x => written m PRequest <$> RequestMsg.functionalWrite sys x p
  | PResponse x => written m PResponse <$> ResponseMsg.functionalWrite sys x p
  | PMemory x => written m PMemory <$> MemoryMsg.functionalWrite sys x p
  | PRuby r => r ← RubyRequest.functionalWrite r p; Ok (r.1, PRuby r.2)
  | PSequencer x => written m PSequencer <$> SequencerMsg.functionalWrite sys x p
  | PDMARequest x => written m PDMARequest <$> DMARequestMsg.functionalWrite sys x p
  | PDMAResponse x => written m PDMAResponse <$> DMAResponseMsg.functionalWrite sys x p
  end.

(** ** Data of processor requests *)

Lemma value_of_bound l : Forall (fits 8) l → fits (8 * Z.of_nat (length l)) (DataBlock.value_of l).
Proof.
  unfold fits. induction 1 as [|x l Hx _ IH]; cbn [DataBlock.value_of length]; [done|].
  replace (8 * Z.of_nat (S (length l))) with (8 + 8 * Z.of_nat (length l)) by lia.
  rewrite Z.pow_add_r by lia. nia.
Qed.

Lemma value_of_app l k :
  DataBlock.value_of (l ++ k) = DataBlock.value_of l + 2 ^ (8 * Z.of_nat (length l)) * DataBlock.value_of k.
Proof.
  induction l as [|x l IH]; cbn [DataBlock.value_of length app]; [lia|].
  rewrite IH. replace (8 * Z.of_nat (S (length l))) with (8 + 8 * Z.of_nat (length l)) by lia.
  rewrite Z.pow_add_r by lia. lia.
Qed.

Lemma size_mask_small size : 0 < size ≤ 6 → RubyRequest.size_mask size = Z.ones (size * 8).
Proof.
  intros H. assert (size = 1 ∨ size = 2 ∨ size = 3 ∨ size = 4 ∨ size = 5 ∨ size = 6)
    as [-> | [-> | [-> | [-> | [-> | ->]]]]] by lia; by vm_compute.
Qed.

(** For accesses of one to six bytes, and of eight, the constructor of a request
    keeps exactly the bytes of the access as a number, provided eight bytes can be read;
    an access of fewer bytes whose buffer is no longer than it reads past the buffer. *)
Theorem request_data64 bytes size junk : Forall (fits 8) bytes →
  0 < size ≤ 8 → size ≠ 7 → size ≤ Z.of_nat (length bytes) →
  RubyRequest.data64 (Some bytes) size junk =
    if decide (8 ≤ length bytes)%nat
    then Ok (DataBlock.value_of (take (Z.to_nat size) bytes)) else Err OutOfBounds.
Proof.
  intros Hb Hs H7 Hl. unfold RubyRequest.data64, RubyRequest.read64.
  destruct (decide (8 ≤ length bytes)%nat) as [H8|]; [|done]. cbn [mbind outcome_bind]. f_equal.
  destruct (decide (size < 8)) as [Hlt|]; [|f_equal; f_equal; lia].
  rewrite size_mask_small, Z.land_ones by lia.
  replace (take 8 bytes) with (take (Z.to_nat size) bytes ++ drop (Z.to_nat size) (take 8 bytes)).
  - rewrite value_of_app, length_take, Nat.min_l by lia.
    replace (8 * Z.of_nat (Z.to_nat size)) with (size * 8) by lia.
    rewrite (Z.mul_comm (2 ^ _)), Z_mod_plus_full. apply Z.mod_small.
    pose proof (value_of_bound (take (Z.to_nat size) bytes) (Forall_take _ _ _ Hb)) as Hv.
    rewrite length_take, Nat.min_l in Hv by lia.
    replace (8 * Z.of_nat (Z.to_nat size)) with (size * 8) in Hv by lia. exact Hv.
  - replace (take (Z.to_nat size) bytes) with (take (Z.to_nat size) (take 8 bytes))
      by (rewrite take_take; f_equal; lia).
    apply take_drop.
Qed.

Lemma land_single_bit v n : 0 ≤ n → Z.land v (2 ^ n) = if Z.testbit v n then 2 ^ n else 0.
Proof.
  intros Hn. apply Z.bits_inj'. intros i Hi. rewrite Z.land_spec, Z.pow2_bits_eqb by lia.
  destruct (Z.eqb_spec n i) as [<-|Hne].
  - destruct (Z.testbit v n) eqn:E; [by rewrite Z.pow2_bits_true|by rewrite Z.bits_0].
  - rewrite andb_false_r. destruct (Z.testbit v n); [by rewrite Z.pow2_bits_false by done|by rewrite Z.bits_0].
Qed.

(** For an access of seven bytes the mask is computed in floating point as
    [2^56] instead of [2^56 - 1], so all seven bytes are lost and the parity of the byte
    after the access decides what is left. *)
Theorem request_data64_seven (seven : list Z) (b : Z) rest junk :
  length seven = 7%nat → Forall (fits 8) seven →
  RubyRequest.data64 (Some (seven ++ b :: rest)) 7 junk = Ok (if Z.odd b then 2 ^ 56 else 0).
Proof.
  intros Hl Hs. unfold RubyRequest.data64, RubyRequest.read64.
  rewrite decide_True by (rewrite length_app; cbn; lia).
  cbn [mbind outcome_bind]. rewrite decide_True by done. f_equal.
  change (RubyRequest.size_mask 7) with (2 ^ 56). rewrite land_single_bit by done.
  rewrite take_app, (take_ge seven), Hl by lia. cbn [Nat.sub take].
  rewrite value_of_app, Hl. cbn [DataBlock.value_of].
  pose proof (value_of_bound seven Hs) as Hv. rewrite Hl in Hv. unfold fits in Hv.
  change (8 * Z.of_nat 7) with 56 in *.
  rewrite <- (Z.bit0_odd b), <- (Z.div_pow2_bits _ 56 0), Z.mul_comm, Z.div_add by lia.
  rewrite Z.div_small by lia. by rewrite Z.mul_0_r, Z.add_0_r.
Qed.

(** A functional write that meets a queued request without data dereferences a
    null pointer, also when it is for other bytes. *)
Theorem functional_write_null r p : RubyRequest.m_Data r = None →
  RubyRequest.functionalWrite r p = Err NullDeref.
Proof.
  intros Hr. unfold RubyRequest.functionalWrite. rewrite Hr.
  destruct (seqZ _ _) as [|i l]; [done|]. cbn [mfold]. done.
Qed.

(** ** Witnesses *)

Lemma request_data64_witness :
  RubyRequest.data64 (Some [1; 2; 3; 4; 5; 6; 7; 8]) 2 0 = Ok (DataBlock.value_of [1; 2]) ∧
  RubyRequest.data64 (Some [1; 2]) 2 0 = Err OutOfBounds.
Proof.
  split; [apply (request_data64 [1; 2; 3; 4; 5; 6; 7; 8] 2 0)|apply (request_data64 [1; 2] 2 0)];
    try lia; try (cbn; lia); repeat (apply Forall_cons_2; [unfold fits; lia|]); apply Forall_nil_2.
Defined.

Lemma request_data64_seven_witness :
  RubyRequest.data64 (Some [1; 2; 3; 4; 5; 6; 7; 0]) 7 0 = Ok 0.
Proof.
  apply (request_data64_seven [1; 2; 3; 4; 5; 6; 7] 0 []); [done|].
  repeat (apply Forall_cons_2; [unfold fits; lia|]); apply Forall_nil_2.
Defined.

Definition prefetch : RubyRequest.t :=
  RubyRequest.mk 64 64 LD LD 0 Mode_User 8 Prefetch_Yes None 0 0 0.

Lemma functional_write_null_witness :
  RubyRequest.functionalWrite prefetch (mkPacket 4096 1 [7]) = Err NullDeref.
Proof. by apply (functional_write_null prefetch). Defined.
