(* ===== verification/Sequencer.v ===== *)
(** * The processor side of a cache (mem/ruby/system/Sequencer.hh, Sequencer.cc)

    The sequencer turns packets of a processor into requests to its cache controller,
    keeps one table of outstanding reads and one of outstanding writes, and completes
    a request when the controller calls back with the data of the line.  It shares the
    caches and the mandatory queue with the controller: a [node] is what the two can
    reach.  Latency histograms are kept as the list of their samples. *)

From S2P Require Import Prelude IntMath Addresses Clocks StdHeap Buffers Blocks Policies Caches.
From S2P Require Import Controllers Messages.
Local Open Scope Z_scope.

Inductive RequestStatus : Set :=
  | RequestStatus_Ready | RequestStatus_Issued | RequestStatus_BufferFull | RequestStatus_Aliased.

#[global] Instance RequestStatus_eq_dec : EqDecision RequestStatus.
Proof. solve_decision. Defined.

(** What the sequencer reads of a packet and of its request; [storeCheck] is the flag
    that x86 requests carry, [tester] the block of the Ruby tester's sender state. *)
Record cpu_packet := mkPkt {
  getAddr : Z;
  pktSize : Z;
  bytes : list Z;
  isRead : bool;
  isWrite : bool;
  isFlush : bool;
  isLLSC : bool;
  isLockedRMW : bool;
  isInstFetch : bool;
  storeCheck : bool;
  contextId : option Z;
  getPC : option Z;
  extraData : option Z;
  tester : option SubBlock.t }.

Definition set_bytes (p : cpu_packet) (l : list Z) : cpu_packet :=
  mkPkt (getAddr p) (pktSize p) l (isRead p) (isWrite p) (isFlush p) (isLLSC p) (isLockedRMW p)
    (isInstFetch p) (storeCheck p) (contextId p) (getPC p) (extraData p) (tester p).
Definition setExtraData (p : cpu_packet) (x : Z) : cpu_packet :=
  mkPkt (getAddr p) (pktSize p) (bytes p) (isRead p) (isWrite p) (isFlush p) (isLLSC p)
    (isLockedRMW p) (isInstFetch p) (storeCheck p) (contextId p) (getPC p) (Some x) (tester p).
Definition set_tester (p : cpu_packet) (s : SubBlock.t) : cpu_packet :=
  mkPkt (getAddr p) (pktSize p) (bytes p) (isRead p) (isWrite p) (isFlush p) (isLLSC p)
    (isLockedRMW p) (isInstFetch p) (storeCheck p) (contextId p) (getPC p) (extraData p) (Some s).

Record SequencerRequest := mkSeqReq { pkt : cpu_packet; m_type : RubyRequestType; issue_time : Z }.

(** How a request ends: the packet goes back to the processor, or the cache recorder
    is asked for its next request. *)
Inductive completion : Type :=
  | HitCallback (p : cpu_packet)
  | NextFetchRequest
  | NextFlushRequest.

(** A sample of the latency histograms: the cycles, the type, and whether it is
    counted as a miss. *)
Record sample := mkSample { cycles : Z; sample_type : RubyRequestType; as_miss : bool }.

Module Sequencer.

Record t := mk {
  m_version : Z;
  m_deadlock_threshold : Z;
  m_usingNetworkTester : bool;
  m_usingRubyTester : bool;
  draining : bool;
  m_mandatory_q_ptr : Z;
  clk : ClockedObject.t;
  m_writeRequestTable : gmap Z SequencerRequest;
  m_readRequestTable : gmap Z SequencerRequest;
  m_outstanding_count : Z;
  deadlock_check : option Z;
  max_latency : Z;
  samples : list sample;
  completions : list completion;
  evictions : list Z }.

Definition with_tables (q : t) (w r : gmap Z SequencerRequest) (n : Z) : t :=
  mk (m_version q) (m_deadlock_threshold q) (m_usingNetworkTester q) (m_usingRubyTester q)
    (draining q) (m_mandatory_q_ptr q) (clk q) w r n (deadlock_check q) (max_latency q)
    (samples q) (completions q) (evictions q).
Definition with_check (q : t) (o : option Z) : t :=
  mk (m_version q) (m_deadlock_threshold q) (m_usingNetworkTester q) (m_usingRubyTester q)
    (draining q) (m_mandatory_q_ptr q) (clk q) (m_writeRequestTable q) (m_readRequestTable q)
    (m_outstanding_count q) o (max_latency q) (samples q) (completions q) (evictions q).
Definition with_samples (q : t) (l : list sample) (m : Z) : t :=
  mk (m_version q) (m_deadlock_threshold q) (m_usingNetworkTester q) (m_usingRubyTester q)
    (draining q) (m_mandatory_q_ptr q) (clk q) (m_writeRequestTable q) (m_readRequestTable q)
    (m_outstanding_count q) (deadlock_check q) m l (completions q) (evictions q).
Definition with_completions (q : t) (l : list completion) (ev : list Z) : t :=
  mk (m_version q) (m_deadlock_threshold q) (m_usingNetworkTester q) (m_usingRubyTester q)
    (draining q) (m_mandatory_q_ptr q) (clk q) (m_writeRequestTable q) (m_readRequestTable q)
    (m_outstanding_count q) (deadlock_check q) (max_latency q) (samples q) l ev.

(** The constructor. *)
Definition create (version deadlock_threshold max_outstanding mandatory : Z)
    (network_tester ruby_tester : bool) (clock : ClockedObject.t) : outcome t :=
  assert_that (bool_decide (0 < max_outstanding));;
  assert_that (bool_decide (0 < deadlock_threshold));;
  Ok (mk version deadlock_threshold network_tester ruby_tester false mandatory clock ∅ ∅ 0 None 0
        [] [] []).

(** [m_writeRequestTable.size() + m_readRequestTable.size()] *)
Definition table_size (q : t) : Z :=
  Z.of_nat (size (m_writeRequestTable q)) + Z.of_nat (size (m_readRequestTable q)).

(** [assert(m_outstanding_count == ...)], an [int] against a [size_t]. *)
Definition assert_count (q : t) : outcome unit :=
  assert_that (bool_decide (u64 (m_outstanding_count q) = table_size q)).

(** The request types that [insertRequest] puts in the table of writes. *)
Definition is_write_type (ty : RubyRequestType) : bool :=
  match ty with
  | ST | RMW_Read | RMW_Write | Load_Linked | Store_Conditional
  | Locked_RMW_Read | Locked_RMW_Write | FLUSH => true
  | _ => false
  end.

(** [markRemoved] *)
Definition markRemoved (q : t) : outcome t :=
  let q := with_tables q (m_writeRequestTable q) (m_readRequestTable q) (m_outstanding_count q - 1) in
  assert_count q;; Ok q.

Definition empty (q : t) : bool :=
  bool_decide (m_writeRequestTable q = ∅) && bool_decide (m_readRequestTable q = ∅).

(** The types for which [removeRequest] goes to the table of writes. *)
Definition removes_write (ty : RubyRequestType) : bool :=
  match ty with
  | ST | RMW_Read | RMW_Write | Load_Linked | Store_Conditional
  | Locked_RMW_Read | Locked_RMW_Write => true
  | _ => false
  end.

Definition removeRequest (sys : RubySystem.t) (q : t) (srequest : SequencerRequest) : outcome t :=
  assert_count q;;
  let line_addr := Address.makeLineAddress sys (getAddr (pkt srequest)) in
  markRemoved
    (if removes_write (m_type srequest)
     then with_tables q (delete line_addr (m_writeRequestTable q)) (m_readRequestTable q)
            (m_outstanding_count q)
     else with_tables q (m_writeRequestTable q) (delete line_addr (m_readRequestTable q))
            (m_outstanding_count q)).

(** [wakeup], the deadlock check.  It does not schedule the next one. *)
Definition wakeup (now : Z) (q : t) : outcome t :=
  assert_that (negb (draining q));;
  let current_time := ClockedObject.curCycle now (clk q) in
  let stuck (r : SequencerRequest) :=
    bool_decide (m_deadlock_threshold q ≤ u64 (current_time - issue_time r)) in
  if existsb stuck (map_to_list (m_readRequestTable q)).*2
     || existsb stuck (map_to_list (m_writeRequestTable q)).*2
  then Err PanicFault
  else assert_count q;; Ok (with_check q None).

(** The types of a packet: the first is kept in the table, the second goes to the
    controller. *)
Definition request_types (p : cpu_packet) : outcome (RubyRequestType * RubyRequestType) :=
  if isLLSC p then
    if isWrite p then Ok (Store_Conditional, ATOMIC)
    else assert_that (isRead p);; Ok (Load_Linked, ATOMIC)
  else if isLockedRMW p then
    if isWrite p then Ok (Locked_RMW_Write, Locked_RMW_Write)
    else assert_that (isRead p);; Ok (Locked_RMW_Read, Locked_RMW_Read)
  else if isRead p then
    if isInstFetch p then Ok (IFETCH, IFETCH)
    else if storeCheck p then Ok (RMW_Read, ST)
    else Ok (LD, LD)
  else if isWrite p then Ok (ST, ST)
  else if isFlush p then Ok (FLUSH, FLUSH)
  else Err PanicFault.

End Sequencer.

(** What the sequencer and its controller share; the stale victim cache may be
    absent. *)
Record node (T D : Type) := mkNode {
  sequencer : Sequencer.t;
  dataCache : CacheMemory.t T D;
  instCache : CacheMemory.t T D;
  staleCache : option (CacheMemory.t T D);
  ctl : AbstractController.t payload }.
Arguments mkNode {T D}.
Arguments sequencer {T D}.
Arguments dataCache {T D}.
Arguments instCache {T D}.
Arguments staleCache {T D}.
Arguments ctl {T D}.

Section callbacks.
Context {T D : Type} `{ReplacementPolicy T}.
(** [now] is the current tick, [cooldown] whether the system writes its caches back
    before a checkpoint, [rt] what [random_time()] draws, [junk] what a new request
    holds where nothing is written. *)
Context (sys : RubySystem.t) (now : Z) (cooldown : bool) (rt junk : Z).
Implicit Types (n : node T D) (address : Z).

Definition with_seq n (q : Sequencer.t) : node T D :=
  mkNode q (dataCache n) (instCache n) (staleCache n) (ctl n).
Definition with_data_cache n (c : CacheMemory.t T D) : node T D :=
  mkNode (sequencer n) c (instCache n) (staleCache n) (ctl n).
Definition with_inst_cache n (c : CacheMemory.t T D) : node T D :=
  mkNode (sequencer n) (dataCache n) c (staleCache n) (ctl n).
Definition with_stale_cache n (c : CacheMemory.t T D) : node T D :=
  mkNode (sequencer n) (dataCache n) (instCache n) (Some c) (ctl n).
Definition with_ctl n (c : AbstractController.t payload) : node T D :=
  mkNode (sequencer n) (dataCache n) (instCache n) (staleCache n) c.

(** Code on one of the shared objects. *)
Definition on_seq {A} (p : prog Sequencer.t A) : prog (node T D) A := zoom sequencer with_seq p.
Definition on_ctl {A} (p : prog (AbstractController.t payload) A) : prog (node T D) A :=
  zoom ctl with_ctl p.
Definition update_dcache (f : CacheMemory.t T D → outcome (CacheMemory.t T D))
    : prog (node T D) unit := λ n,
  c ← f (dataCache n); Ok (tt, with_data_cache n c).
Definition update_seq (f : Sequencer.t → outcome Sequencer.t) : prog (node T D) unit := λ n,
  q ← f (sequencer n); Ok (tt, with_seq n q).

(** *** Requests of the processor *)

(** The table of [request_type], and the other one. *)
Definition own_table (q : Sequencer.t) (ty : RubyRequestType) : gmap Z SequencerRequest :=
  if Sequencer.is_write_type ty then Sequencer.m_writeRequestTable q
  else Sequencer.m_readRequestTable q.
Definition other_table (q : Sequencer.t) (ty : RubyRequestType) : gmap Z SequencerRequest :=
  if Sequencer.is_write_type ty then Sequencer.m_readRequestTable q
  else Sequencer.m_writeRequestTable q.

(** The request enters its table. *)
Definition insert_entry (q : Sequencer.t) (line_addr : Z) (r : SequencerRequest) : Sequencer.t :=
  let n := Sequencer.m_outstanding_count q + 1 in
  if Sequencer.is_write_type (m_type r)
  then Sequencer.with_tables q (<[line_addr := r]> (Sequencer.m_writeRequestTable q))
         (Sequencer.m_readRequestTable q) n
  else Sequencer.with_tables q (Sequencer.m_writeRequestTable q)
         (<[line_addr := r]> (Sequencer.m_readRequestTable q)) n.

(** [if (!deadlockCheckEvent.scheduled() && getDrainState() != Draining) schedule(...)] *)
Definition schedule_check (q : Sequencer.t) : Sequencer.t :=
  match Sequencer.deadlock_check q with
  | None => if Sequencer.draining q then q
            else Sequencer.with_check q
                   (Some (ClockedObject.clockEdge now (Sequencer.clk q)
                            (Sequencer.m_deadlock_threshold q)))
  | Some _ => q
  end.

Definition insertRequest (p : cpu_packet) (request_type : RubyRequestType)
    : prog (node T D) RequestStatus := λ n,
  Sequencer.assert_count (sequencer n);;
  let q := schedule_check (sequencer n) in
  let n := with_seq n q in
  let line_addr := Address.makeLineAddress sys (getAddr p) in
  if AbstractController.isBlocked (ctl n) line_addr
     && bool_decide (request_type ≠ Locked_RMW_Write)
  then Ok (RequestStatus_Aliased, n)
  else if bool_decide (is_Some (other_table q request_type !! line_addr))
  then Ok (RequestStatus_Aliased, n)
  else if bool_decide (is_Some (own_table q request_type !! line_addr))
  then Ok (RequestStatus_Aliased, n)
  else
    let r := mkSeqReq p request_type (ClockedObject.curCycle now (Sequencer.clk q)) in
    let q := insert_entry q line_addr r in
    Sequencer.assert_count q;;
    Ok (RequestStatus_Ready, with_seq n q).

Definition issueRequest (p : cpu_packet) (primary_type secondary_type : RubyRequestType)
    : prog (node T D) unit := λ n,
  let q := sequencer n in
  let proc_id := u32 (default (-1) (contextId p)) in
  let pc := default 0 (getPC p) in
  msg ← RubyRequest.create sys junk (getAddr p) (if isFlush p then None else Some (bytes p))
          (pktSize p) pc primary_type secondary_type Mode_Supervisor Prefetch_No proc_id;
  let latency := CacheMemory.m_latency
    (if decide (secondary_type = IFETCH) then instCache n else dataCache n) in
  assert_that (bool_decide (0 < latency));;
  on_ctl (AbstractController.enqueue sys now rt (ClockedObject.clockEdge now (Sequencer.clk q) 0)
    (Sequencer.m_mandatory_q_ptr q) (PRuby msg) latency
    (bool_decide (primary_type = Locked_RMW_Write))) n.

(** One request at a time: the parameter [max_outstanding_requests] is not read. *)
Definition makeRequest (p : cpu_packet) : prog (node T D) RequestStatus := λ n,
  if decide (1 ≤ Sequencer.m_outstanding_count (sequencer n)) then Ok (RequestStatus_BufferFull, n)
  else
    types ← Sequencer.request_types p;
    r ← insertRequest p types.1 n;
    match r.1 with
    | RequestStatus_Ready =>
        r ← issueRequest p types.1 types.2 r.2; Ok (RequestStatus_Issued, r.2)
    | status => Ok (status, r.2)
    end.

(** *** Answers of the controller *)

(** The request as it is left, and whether it succeeded; the lock of the line is
    that of this processor. *)
Definition handleLlsc address (r : SequencerRequest) : prog (node T D) (bool * SequencerRequest) := λ n,
  let v := Sequencer.m_version (sequencer n) in
  match m_type r with
  | Store_Conditional =>
      success ← CacheMemory.isLocked sys (dataCache n) address v;
      c ← CacheMemory.clearLocked sys (dataCache n) address;
      let p := setExtraData (pkt r) (if success : bool then 1 else 0) in
      Ok ((success, mkSeqReq p (m_type r) (issue_time r)), with_data_cache n c)
  | Load_Linked =>
      c ← CacheMemory.setLocked sys (dataCache n) address v;
      Ok ((true, r), with_data_cache n c)
  | _ =>
      present ← CacheMemory.isTagPresent sys (dataCache n) address;
      locked ← (if present : bool then CacheMemory.isLocked sys (dataCache n) address v else Ok false);
      if locked : bool
      then c ← CacheMemory.clearLocked sys (dataCache n) address; Ok ((true, r), with_data_cache n c)
      else Ok ((true, r), n)
  end.

Definition invalidateSC address : prog (node T D) unit := λ n,
  match Sequencer.m_writeRequestTable (sequencer n) !! address with
  | Some r =>
      if decide (m_type r = Store_Conditional)
      then c ← CacheMemory.clearLocked sys (dataCache n) address; Ok (tt, with_data_cache n c)
      else Ok (tt, n)
  | None => Ok (tt, n)
  end.

(** The samples taken when no machine is given as the one that responded. *)
Definition recordMissLatency (q : Sequencer.t) (total : Z) (ty : RubyRequestType)
    (isExternalHit : bool) : Sequencer.t :=
  Sequencer.with_samples q (Sequencer.samples q ++ [mkSample total ty isExternalHit])
    (Z.max (Sequencer.max_latency q) total).

(** The line becomes the most recently used of its cache. *)
Definition set_mru (ty : RubyRequestType) (svcHit : bool) (line : Z) : prog (node T D) unit := λ n,
  if svcHit then
    c ← from_option_or NullDeref (staleCache n);
    c ← CacheMemory.setMRU sys now c line; Ok (tt, with_stale_cache n c)
  else if decide (ty = IFETCH) then
    c ← CacheMemory.setMRU sys now (instCache n) line; Ok (tt, with_inst_cache n c)
  else c ← CacheMemory.setMRU sys now (dataCache n) line; Ok (tt, with_data_cache n c).

(** The types whose packet receives data. *)
Definition is_read_type (ty : RubyRequestType) : bool :=
  match ty with LD | IFETCH | RMW_Read | Locked_RMW_Read | Load_Linked => true | _ => false end.

(** What moves between the packet and the block. *)
Definition move_data (ty : RubyRequestType) (p : cpu_packet) (data : DataBlock.t)
    : outcome (cpu_packet * DataBlock.t) :=
  offset ← Address.getOffset sys (getAddr p);
  if RubySystem.getWarmupEnabled sys then
    data ← DataBlock.setData sys data (bytes p) offset (pktSize p); Ok (p, data)
  else if isFlush p then Ok (p, data)
  else if is_read_type ty then
    src ← DataBlock.getData sys data offset (pktSize p);
    l ← copy_in (bytes p) 0 src (pktSize p); Ok (set_bytes p l, data)
  else data ← DataBlock.setData sys data (bytes p) offset (pktSize p); Ok (p, data).

(** The result is the block as it is left. *)
Definition hitCallback (r : SequencerRequest) (data : DataBlock.t) (externalHit svcHit : bool)
    : prog (node T D) DataBlock.t := λ n,
  m ← set_mru (m_type r) svcHit (Address.makeLineAddress sys (getAddr (pkt r))) n;
  let n := m.2 in
  let q := sequencer n in
  let cur := ClockedObject.curCycle now (Sequencer.clk q) in
  assert_that (bool_decide (issue_time r ≤ cur));;
  let q := recordMissLatency q (cur - issue_time r) (m_type r) externalHit in
  d ← move_data (m_type r) (pkt r) data;
  let '(p, data) := d in
  p ← (if Sequencer.m_usingRubyTester q then
         s ← from_option_or AssertFail (tester p);
         s ← SubBlock.mergeFrom sys s data; Ok (set_tester p s)
       else Ok p);
  let c := if RubySystem.getWarmupEnabled sys then NextFetchRequest
           else if cooldown then NextFlushRequest else HitCallback p in
  Ok (data, with_seq n (Sequencer.with_completions q (Sequencer.completions q ++ [c])
                          (Sequencer.evictions q))).

(** The types [writeCallback] accepts. *)
Definition is_write_callback_type (ty : RubyRequestType) : bool :=
  match ty with
  | ST | ATOMIC | RMW_Read | RMW_Write | Load_Linked | Store_Conditional
  | Locked_RMW_Read | Locked_RMW_Write | FLUSH => true
  | _ => false
  end.

Definition writeCallback address (data : DataBlock.t) (externalHit : bool)
    : prog (node T D) DataBlock.t := λ n,
  CacheMemory.assert_line sys address;;
  let q := sequencer n in
  r ← from_option_or AssertFail (Sequencer.m_writeRequestTable q !! address);
  q ← Sequencer.markRemoved
        (Sequencer.with_tables q (delete address (Sequencer.m_writeRequestTable q))
           (Sequencer.m_readRequestTable q) (Sequencer.m_outstanding_count q));
  assert_that (is_write_callback_type (m_type r));;
  let n := with_seq n q in
  l ← (if Sequencer.m_usingNetworkTester q then Ok ((true, r), n) else handleLlsc address r n);
  let '((success, r), n) := l in
  b ← on_ctl (match m_type r with
              | Locked_RMW_Read =>
                  AbstractController.blockOnQueue address (Sequencer.m_mandatory_q_ptr q)
              | Locked_RMW_Write => AbstractController.unblock address
              | _ => mret tt
              end) n;
  hitCallback r data externalHit false b.2.

(** A callback for a line without an outstanding read does nothing. *)
Definition readCallback address (data : DataBlock.t) (externalHit svcHit : bool)
    : prog (node T D) DataBlock.t := λ n,
  CacheMemory.assert_line sys address;;
  let q := sequencer n in
  match Sequencer.m_readRequestTable q !! address with
  | Some r =>
      q ← Sequencer.markRemoved
            (Sequencer.with_tables q (Sequencer.m_writeRequestTable q)
               (delete address (Sequencer.m_readRequestTable q)) (Sequencer.m_outstanding_count q));
      assert_that (match m_type r with LD | IFETCH => true | _ => false end);;
      hitCallback r data externalHit svcHit (with_seq n q)
  | None => Ok (data, n)
  end.

Definition evictionCallback address : prog (node T D) unit := λ n,
  let q := sequencer n in
  Ok (tt, with_seq n (Sequencer.with_completions q (Sequencer.completions q)
                        (Sequencer.evictions q ++ [address]))).

End callbacks.

(** ** Tables of outstanding requests *)

Section tables.
Context {T D : Type} `{ReplacementPolicy T}.
Context (sys : RubySystem.t) (now : Z) (cooldown : bool) (rt junk : Z).
Implicit Types (n : node T D) (q : Sequencer.t) (address : Z).

(** Requests are in the table of their type under the address of their line, the
    count is right, and there is at most one. *)
Record seq_ok q : Prop := mkSeqOk {
  count_ok : Sequencer.m_outstanding_count q = Sequencer.table_size q;
  one_at_most : Sequencer.m_outstanding_count q ≤ 1;
  writes_ok : map_Forall (λ a r, Sequencer.is_write_type (m_type r) = true ∧
    a = Address.makeLineAddress sys (getAddr (pkt r))) (Sequencer.m_writeRequestTable q);
  reads_ok : map_Forall (λ a r, Sequencer.is_write_type (m_type r) = false ∧
    a = Address.makeLineAddress sys (getAddr (pkt r))) (Sequencer.m_readRequestTable q) }.

(** The part of the sequencer the invariant is about. *)
Definition tables q := (Sequencer.m_writeRequestTable q, Sequencer.m_readRequestTable q,
  Sequencer.m_outstanding_count q).

Lemma seq_ok_tables q q' : tables q' = tables q → seq_ok q → seq_ok q'.
Proof.
  destruct q, q'. unfold tables. cbn. intros [= -> -> ->] []. constructor; assumption.
Qed.

Lemma schedule_check_tables q : tables (schedule_check now q) = tables q.
Proof. unfold schedule_check. destruct (Sequencer.deadlock_check q), (Sequencer.draining q); done. Qed.

Lemma on_ctl_Ok {A} (p : prog (AbstractController.t payload) A) n a n' :
  on_ctl p n = Ok (a, n') → ∃ c, p (ctl n) = Ok (a, c) ∧ n' = with_ctl n c.
Proof.
  unfold on_ctl, zoom. destruct (p (ctl n)) as [[a' c]|]; [|done]. intros [= <- <-]. by exists c.
Qed.

Lemma table_size_insert (w r : gmap Z SequencerRequest) q k x m : w !! k = None →
  Sequencer.table_size (Sequencer.with_tables q (<[k := x]> w) r m)
  = Sequencer.table_size (Sequencer.with_tables q w r m) + 1 ∧
  Sequencer.table_size (Sequencer.with_tables q r (<[k := x]> w) m)
  = Sequencer.table_size (Sequencer.with_tables q r w m) + 1.
Proof.
  intros E. unfold Sequencer.table_size. cbn. rewrite map_size_insert, E. lia.
Qed.

Lemma table_size_delete (w r : gmap Z SequencerRequest) q k m : is_Some (w !! k) →
  Sequencer.table_size (Sequencer.with_tables q (delete k w) r m)
  = Sequencer.table_size (Sequencer.with_tables q w r m) - 1 ∧
  Sequencer.table_size (Sequencer.with_tables q r (delete k w) m)
  = Sequencer.table_size (Sequencer.with_tables q r w m) - 1.
Proof.
  intros [x E]. unfold Sequencer.table_size. cbn. rewrite map_size_delete, E.
  assert (size w ≠ 0)%nat; [|lia]. intros ->%map_size_empty_iff. by rewrite lookup_empty in E.
Qed.

Lemma insert_entry_ok q r : seq_ok q → Sequencer.m_outstanding_count q < 1 →
  own_table q (m_type r) !! Address.makeLineAddress sys (getAddr (pkt r)) = None →
  seq_ok (insert_entry q (Address.makeLineAddress sys (getAddr (pkt r))) r).
Proof.
  intros [Hc H1 Hw Hr] Hlt Hnone. unfold insert_entry, own_table in *.
  destruct (Sequencer.is_write_type (m_type r)) eqn:E.
  - edestruct (table_size_insert (Sequencer.m_writeRequestTable q) (Sequencer.m_readRequestTable q) q
      (Address.makeLineAddress sys (getAddr (pkt r))) r) as [Hs _]; [done|].
    constructor; [rewrite Hs; cbn; rewrite Hc; reflexivity|cbn; lia| |done].
    cbn. by apply map_Forall_insert_2.
  - edestruct (table_size_insert (Sequencer.m_readRequestTable q) (Sequencer.m_writeRequestTable q) q
      (Address.makeLineAddress sys (getAddr (pkt r))) r) as [_ Hs]; [done|].
    constructor; [rewrite Hs; cbn; rewrite Hc; reflexivity|cbn; lia|done|].
    cbn. by apply map_Forall_insert_2.
Qed.

Lemma insertRequest_ok p ty n st n' : seq_ok (sequencer n) →
  Sequencer.m_outstanding_count (sequencer n) < 1 →
  insertRequest sys now p ty n = Ok (st, n') → seq_ok (sequencer n').
Proof.
  intros Hok Hlt H1. unfold insertRequest in H1. apply bind_Ok in H1 as ([] & _ & H1).
  set (q := schedule_check now (sequencer n)) in *.
  assert (tables q = tables (sequencer n)) as Ht by apply schedule_check_tables.
  assert (seq_ok q) as Hq by (by apply (seq_ok_tables (sequencer n))).
  assert (Sequencer.m_outstanding_count q = Sequencer.m_outstanding_count (sequencer n)) as Hcq
    by (unfold tables in Ht; congruence).
  destruct (_ && _); [by injection H1 as <- <-|].
  destruct (bool_decide (is_Some (other_table _ _ !! _))); [by injection H1 as <- <-|].
  destruct (bool_decide (is_Some (own_table _ _ !! _))) eqn:E; [by injection H1 as <- <-|].
  apply bind_Ok in H1 as (u & _ & H1). injection H1 as <- <-. cbn [sequencer with_seq].
  apply bool_decide_eq_false, eq_None_not_Some in E.
  by apply (insert_entry_ok q (mkSeqReq p ty _)); [|rewrite Hcq|].
Qed.

Lemma makeRequest_ok p n st n' : seq_ok (sequencer n) →
  makeRequest sys now rt junk p n = Ok (st, n') → seq_ok (sequencer n').
Proof.
  intros Hok. unfold makeRequest.
  destruct (decide _) as [Hge|Hlt]; [by intros [= <- <-]|].
  intros ([t1 t2] & _ & H1)%bind_Ok. apply bind_Ok in H1 as ([st1 n1] & Hins & H1).
  apply insertRequest_ok in Hins; [|done|lia]. cbn [fst snd] in H1.
  destruct st1; try (injection H1 as <- <-; done).
  apply bind_Ok in H1 as ([u n2] & Hiss & [= <- <-]). cbn [snd].
  unfold issueRequest in Hiss. apply bind_Ok in Hiss as (m & _ & Hiss).
  apply bind_Ok in Hiss as (u' & _ & Hiss). by apply on_ctl_Ok in Hiss as (c & _ & ->).
Qed.

Lemma set_mru_seq ty svc line n u n' : set_mru sys now ty svc line n = Ok (u, n') →
  sequencer n' = sequencer n ∧ ctl n' = ctl n.
Proof.
  unfold set_mru. intros H1. destruct svc; [|destruct (decide _)]; outcome_inv; done.
Qed.

Lemma hitCallback_Ok r data ext svc n d n' :
  hitCallback sys now cooldown r data ext svc n = Ok (d, n') →
  ∃ p p', ctl n' = ctl n ∧
    move_data sys (m_type r) (pkt r) data = Ok (p, d) ∧
    (Sequencer.m_usingRubyTester (sequencer n) = false → p' = p) ∧
    bytes p' = bytes p ∧ extraData p' = extraData p ∧
    tables (sequencer n') = tables (sequencer n) ∧
    Sequencer.completions (sequencer n') = Sequencer.completions (sequencer n) ++
      [if RubySystem.getWarmupEnabled sys then NextFetchRequest
       else if cooldown then NextFlushRequest else HitCallback p'].
Proof.
  unfold hitCallback. intros ([u n1] & Hm & H1)%bind_Ok.
  apply set_mru_seq in Hm as [Hq Hc]. cbn [snd] in H1.
  apply bind_Ok in H1 as (u1 & _ & H1). apply bind_Ok in H1 as ([p d'] & Hmv & H1).
  apply bind_Ok in H1 as (p' & Hp & H1). injection H1 as <- <-.
  exists p, p'. cbn in Hp. rewrite Hq in Hp. split_and!; try done.
  - intros E. rewrite E in Hp. by injection Hp.
  - destruct (Sequencer.m_usingRubyTester _); [|by injection Hp as ->]. outcome_inv. done.
  - destruct (Sequencer.m_usingRubyTester _); [|by injection Hp as ->]. outcome_inv. done.
  - unfold tables. cbn. by rewrite Hq.
  - cbn. by rewrite Hq.
Qed.

Lemma handleLlsc_Ok address r n s r' n' : handleLlsc sys address r n = Ok ((s, r'), n') →
  sequencer n' = sequencer n ∧ ctl n' = ctl n ∧ m_type r' = m_type r ∧
  if decide (m_type r = Store_Conditional)
  then pkt r' = setExtraData (pkt r) (if s then 1 else 0) ∧
    CacheMemory.isLocked sys (dataCache n) address (Sequencer.m_version (sequencer n)) = Ok s
  else s = true ∧ r' = r.
Proof.
  unfold handleLlsc. destruct (m_type r) eqn:E; intros H1;
    [..|]; try (rewrite decide_False by done; apply bind_Ok in H1 as (b & _ & H1);
      apply bind_Ok in H1 as (l & _ & H1); destruct l; [apply bind_Ok in H1 as (c & _ & H1)|];
      injection H1 as <- <- <-; done).
  - rewrite decide_False by done. apply bind_Ok in H1 as (c & _ & H1). by injection H1 as <- <- <-.
  - rewrite decide_True by done. apply bind_Ok in H1 as (b & Hb & H1).
    apply bind_Ok in H1 as (c & _ & H1). by injection H1 as <- <- <-.
Qed.

(** What a call [writeCallback] does to the lines that are blocked. *)
Definition block_effect (ty : RubyRequestType) address queue (c : AbstractController.t payload)
    : AbstractController.t payload :=
  match ty with
  | Locked_RMW_Read => AbstractController.with_blocks c true
      (<[address := queue]> (AbstractController.m_block_map c))
  | Locked_RMW_Write =>
      let m := delete address (AbstractController.m_block_map c) in
      AbstractController.with_blocks c
        (if decide (m = ∅) then false else AbstractController.m_is_blocking c) m
  | _ => c
  end.

Lemma writeCallback_Ok address data ext n d n' :
  writeCallback sys now cooldown address data ext n = Ok (d, n') →
  ∃ r r' p p', Sequencer.m_writeRequestTable (sequencer n) !! address = Some r ∧
    (if decide (m_type r = Store_Conditional ∧ Sequencer.m_usingNetworkTester (sequencer n) = false)
     then ∃ s : bool, pkt r' = setExtraData (pkt r) (if s then 1 else 0) ∧
       CacheMemory.isLocked sys (dataCache n) address (Sequencer.m_version (sequencer n)) = Ok s
     else r' = r) ∧
    move_data sys (m_type r) (pkt r') data = Ok (p, d) ∧
    bytes p' = bytes p ∧ extraData p' = extraData p ∧
    tables (sequencer n') = (delete address (Sequencer.m_writeRequestTable (sequencer n)),
      Sequencer.m_readRequestTable (sequencer n), Sequencer.m_outstanding_count (sequencer n) - 1) ∧
    ctl n' = block_effect (m_type r) address (Sequencer.m_mandatory_q_ptr (sequencer n)) (ctl n) ∧
    Sequencer.completions (sequencer n') = Sequencer.completions (sequencer n) ++
      [if RubySystem.getWarmupEnabled sys then NextFetchRequest
       else if cooldown then NextFlushRequest else HitCallback p'].
Proof.
  unfold writeCallback. intros (u & _ & H1)%bind_Ok. apply bind_Ok in H1 as (r & Hr & H1).
  apply from_option_or_Ok in Hr. apply bind_Ok in H1 as (q1 & Hq1 & H1).
  unfold Sequencer.markRemoved in Hq1. apply bind_Ok in Hq1 as (u1 & _ & Hq1).
  apply bind_Ok in H1 as (u2 & _ & H1). apply bind_Ok in H1 as ([[s r'] n1] & Hl & H1).
  apply bind_Ok in H1 as ([u3 n2] & Hb & H1). cbn [snd] in H1.
  assert (q1 = Sequencer.with_tables (sequencer n) (delete address (Sequencer.m_writeRequestTable (sequencer n)))
    (Sequencer.m_readRequestTable (sequencer n)) (Sequencer.m_outstanding_count (sequencer n) - 1)) as Eq1
    by (by injection Hq1 as <-). clear Hq1.
  assert (sequencer n1 = q1 ∧ ctl n1 = ctl n ∧ m_type r' = m_type r ∧
    if decide (m_type r = Store_Conditional ∧ Sequencer.m_usingNetworkTester (sequencer n) = false)
    then ∃ s : bool, pkt r' = setExtraData (pkt r) (if s then 1 else 0) ∧
       CacheMemory.isLocked sys (dataCache n) address (Sequencer.m_version (sequencer n)) = Ok s
    else r' = r) as (Hs1 & Hc1 & Hty & Hsc).
  { rewrite Eq1 in Hl. cbn in Hl. destruct (Sequencer.m_usingNetworkTester (sequencer n)).
    - injection Hl as <- <- <-. rewrite decide_False by (by intros [_ ?]). by rewrite Eq1.
    - apply handleLlsc_Ok in Hl as (-> & -> & -> & Hl). rewrite Eq1. split_and!; [done..|].
      destruct (decide (m_type r = Store_Conditional)).
      + rewrite decide_True by done. destruct Hl as [? ?]. by exists s.
      + rewrite decide_False by (by intros [? _]). by destruct Hl. }
  assert (sequencer n2 = q1 ∧ ctl n2 = block_effect (m_type r) address
    (Sequencer.m_mandatory_q_ptr (sequencer n)) (ctl n)) as [Hs2 Hc2].
  { apply on_ctl_Ok in Hb as (c & Hb & ->). cbn. split; [done|]. rewrite Hc1, Hty in Hb.
    rewrite Eq1 in Hb. cbn in Hb. destruct (m_type r); cbn in Hb; by injection Hb as _ <-. }
  apply hitCallback_Ok in H1 as (p & p' & Hctl & Hmv & _ & Hby & Hex & Htab & Hcomp).
  exists r, r', p, p'. rewrite Hty in Hmv. rewrite Hs2 in Htab, Hcomp. rewrite Eq1 in Htab, Hcomp.
  split_and!; try done. congruence.
Qed.

Lemma readCallback_Ok address data ext svc n d n' :
  readCallback sys now cooldown address data ext svc n = Ok (d, n') →
  match Sequencer.m_readRequestTable (sequencer n) !! address with
  | None => d = data ∧ n' = n
  | Some r => ∃ p p', move_data sys (m_type r) (pkt r) data = Ok (p, d) ∧
      bytes p' = bytes p ∧ ctl n' = ctl n ∧ (m_type r = LD ∨ m_type r = IFETCH) ∧
      tables (sequencer n') = (Sequencer.m_writeRequestTable (sequencer n),
        delete address (Sequencer.m_readRequestTable (sequencer n)),
        Sequencer.m_outstanding_count (sequencer n) - 1) ∧
      Sequencer.completions (sequencer n') = Sequencer.completions (sequencer n) ++
        [if RubySystem.getWarmupEnabled sys then NextFetchRequest
         else if cooldown then NextFlushRequest else HitCallback p']
  end.
Proof.
  unfold readCallback. intros (u & _ & H1)%bind_Ok.
  destruct (Sequencer.m_readRequestTable (sequencer n) !! address) as [r|]; [|by injection H1 as <- <-].
  apply bind_Ok in H1 as (q1 & Hq1 & H1). unfold Sequencer.markRemoved in Hq1.
  apply bind_Ok in Hq1 as (u1 & _ & Hq1). apply bind_Ok in H1 as (u2 & Hty%assert_that_Ok & H1).
  apply hitCallback_Ok in H1 as (p & p' & Hctl & Hmv & _ & Hby & _ & Htab & Hcomp).
  exists p, p'. cbn in Htab, Hcomp, Hctl. injection Hq1 as <-. split_and!; try done.
  destruct (m_type r); try done; [by left|by right].
Qed.

(** A request leaves its table. *)
Lemma seq_ok_delete q q' a : seq_ok q →
  (tables q' = (delete a (Sequencer.m_writeRequestTable q), Sequencer.m_readRequestTable q,
     Sequencer.m_outstanding_count q - 1) ∧ is_Some (Sequencer.m_writeRequestTable q !! a)) ∨
  (tables q' = (Sequencer.m_writeRequestTable q, delete a (Sequencer.m_readRequestTable q),
     Sequencer.m_outstanding_count q - 1) ∧ is_Some (Sequencer.m_readRequestTable q !! a)) →
  seq_ok q'.
Proof.
  intros [Hc H1 Hw Hr] [[Ht Hin]|[Ht Hin]]; unfold tables in Ht; injection Ht as Ew Er En.
  - destruct (table_size_delete _ (Sequencer.m_readRequestTable q) q a 0 Hin) as [Hs _].
    constructor; rewrite ?Ew, ?Er, ?En; [|lia|by apply map_Forall_delete|done].
    unfold Sequencer.table_size in *. cbn in *. rewrite Ew, Er, Hs. lia.
  - destruct (table_size_delete _ (Sequencer.m_writeRequestTable q) q a 0 Hin) as [_ Hs].
    constructor; rewrite ?Ew, ?Er, ?En; [|lia|done|by apply map_Forall_delete].
    unfold Sequencer.table_size in *. cbn in *. rewrite Ew, Er, Hs. lia.
Qed.

Lemma wakeup_Ok q q' : Sequencer.wakeup now q = Ok q' → q' = Sequencer.with_check q None.
Proof.
  unfold Sequencer.wakeup. intros (u & _ & H1)%bind_Ok. destruct (_ || _); [done|].
  apply bind_Ok in H1 as (u' & _ & H1). by injection H1.
Qed.

End tables.

(** ** Runs *)

Section runs.
Context {T D : Type} `{ReplacementPolicy T} (sys : RubySystem.t).
Implicit Types (n : node T D) (q : Sequencer.t) (a : Z).

(** The lines that are blocked. *)
Definition blocks n := (AbstractController.m_is_blocking (ctl n), AbstractController.m_block_map (ctl n)).

(** What can happen to a sequencer, each at its own time: requests of its processor,
    callbacks, the deadlock check, and steps of the controller, which leave it alone.
    A step names the type and the line of the write it completes. *)
Inductive seq_step : option (RubyRequestType * Z) → node T D → node T D → Prop :=
  | step_request now rt junk p st n n' :
      makeRequest sys now rt junk p n = Ok (st, n') → seq_step None n n'
  | step_read now cooldown a data ext svc d n n' :
      readCallback sys now cooldown a data ext svc n = Ok (d, n') → seq_step None n n'
  | step_write now cooldown a data ext d r n n' :
      Sequencer.m_writeRequestTable (sequencer n) !! a = Some r →
      writeCallback sys now cooldown a data ext n = Ok (d, n') → seq_step (Some (m_type r, a)) n n'
  | step_check now q' n : Sequencer.wakeup now (sequencer n) = Ok q' → seq_step None n (with_seq n q')
  | step_controller n n' : sequencer n' = sequencer n → blocks n' = blocks n → seq_step None n n'.

Lemma seq_step_ok l n n' : seq_step l n n' → seq_ok sys (sequencer n) → seq_ok sys (sequencer n').
Proof.
  intros Hstep Hok. destruct Hstep as [now rt junk p st n n' H1|now cd a data ext svc d n n' H1
    |now cd a data ext d r n n' Hr H1|now q' n H1|n n' H1 _].
  - by apply (makeRequest_ok sys now rt junk p n st n').
  - apply readCallback_Ok in H1. destruct (Sequencer.m_readRequestTable _ !! a) as [r|] eqn:E.
    + destruct H1 as (p & p' & _ & _ & _ & _ & Ht & _). apply (seq_ok_delete sys _ _ a Hok). right.
      split; [done|by exists r].
    + by destruct H1 as [_ ->].
  - apply writeCallback_Ok in H1 as (r' & r1 & p & p' & Hr' & _ & _ & _ & _ & Ht & _ & _).
    apply (seq_ok_delete sys _ _ a Hok). left. split; [done|by exists r].
  - apply wakeup_Ok in H1 as ->. by apply (seq_ok_tables sys (sequencer n)).
  - by rewrite H1.
Qed.

Lemma isBlocked_blocks n n' a : blocks n' = blocks n →
  AbstractController.isBlocked (ctl n') a = AbstractController.isBlocked (ctl n) a.
Proof. unfold blocks, AbstractController.isBlocked. by intros [= -> ->]. Qed.

Lemma makeRequest_blocks now rt junk p n st n' :
  makeRequest sys now rt junk p n = Ok (st, n') → blocks n' = blocks n.
Proof.
  unfold makeRequest. destruct (decide _); [by intros [= <- <-]|].
  intros ([t1 t2] & _ & H1)%bind_Ok. apply bind_Ok in H1 as ([st1 n1] & Hins & H1).
  assert (blocks n1 = blocks n) as Hb.
  { unfold insertRequest in Hins. apply bind_Ok in Hins as (u & _ & Hins).
    destruct (_ && _); [by injection Hins as <- <-|].
    destruct (bool_decide _); [by injection Hins as <- <-|].
    destruct (bool_decide _); [by injection Hins as <- <-|].
    apply bind_Ok in Hins as (u' & _ & Hins). by injection Hins as <- <-. }
  cbn [fst snd] in H1. destruct st1; try (injection H1 as <- <-; done).
  apply bind_Ok in H1 as ([u n2] & Hiss & [= <- <-]). cbn [snd].
  unfold issueRequest in Hiss. apply bind_Ok in Hiss as (m & _ & Hiss).
  apply bind_Ok in Hiss as (u' & _ & Hiss). apply on_ctl_Ok in Hiss as (c & Hc & ->).
  rewrite <- Hb. unfold blocks. cbn. unfold AbstractController.enqueue in Hc.
  apply on_buffer_Ok in Hc as (b & r & _ & _ & ->). done.
Qed.

(** Only the end of a locked read-modify-write of the line unblocks it. *)
Lemma seq_step_locked l n n' a : seq_step l n n' → l ≠ Some (Locked_RMW_Write, a) →
  AbstractController.isBlocked (ctl n) a = true → AbstractController.isBlocked (ctl n') a = true.
Proof.
  intros Hstep Hl Hb. destruct Hstep as [now rt junk p st n n' H1|now cd x data ext svc d n n' H1
    |now cd x data ext d r n n' Hr H1|now q' n H1|n n' _ H1]; [| | |done|by rewrite (isBlocked_blocks n)].
  - by rewrite (isBlocked_blocks n) by (by eapply makeRequest_blocks).
  - apply readCallback_Ok in H1. destruct (Sequencer.m_readRequestTable _ !! x) as [r|] eqn:E.
    + by destruct H1 as (p & p' & _ & _ & -> & _).
    + by destruct H1 as [_ ->].
  - apply writeCallback_Ok in H1 as (r' & r1 & p & p' & Hr' & _ & _ & _ & _ & _ & -> & _).
    assert (r' = r) as -> by congruence. unfold AbstractController.isBlocked in *.
    apply andb_true_iff in Hb as [Hb1 [y Hy]%bool_decide_eq_true].
    destruct (m_type r) eqn:E; cbn; rewrite ?Hb1; cbn;
      try (apply bool_decide_eq_true_2; by exists y).
    + apply bool_decide_eq_true_2. destruct (decide (a = x)) as [->|].
      * rewrite lookup_insert_eq. by eexists.
      * rewrite lookup_insert_ne by done. by exists y.
    + assert (a ≠ x) as Hne by congruence.
      assert (delete x (AbstractController.m_block_map (ctl n)) !! a = Some y) as Hd
        by (by rewrite lookup_delete_ne).
      rewrite decide_False by (intros E'; by rewrite E', lookup_empty in Hd). cbn.
      apply bool_decide_eq_true_2. by exists y.
Qed.

End runs.

(** ** Properties *)

Section properties.
Context {T D : Type} `{ReplacementPolicy T} (sys : RubySystem.t).
Implicit Types (n : node T D) (q : Sequencer.t) (a : Z).

(** Any number of steps. *)
Definition seq_steps : node T D → node T D → Prop := rtc (λ n n', ∃ l, seq_step sys l n n').

(** Steps none of which completes the write of a locked read-modify-write of [a]. *)
Definition rmw_steps a : node T D → node T D → Prop :=
  rtc (λ n n', ∃ l, seq_step sys l n n' ∧ l ≠ Some (Locked_RMW_Write, a)).

(** C21: whatever the processor and the controller do, the sequencer has at most one
    outstanding request, its count is the size of the two tables, and every request is
    in the table of its type under its line. *)
Theorem outstanding_requests_ok version threshold outstanding mandatory nt rtst clock q n n' :
  Sequencer.create version threshold outstanding mandatory nt rtst clock = Ok q →
  sequencer n = q → seq_steps n n' → seq_ok sys (sequencer n').
Proof.
  intros Hq Hn Hsteps. assert (seq_ok sys (sequencer n)) as Hok.
  { subst q. unfold Sequencer.create in Hq. apply bind_Ok in Hq as (u & _ & Hq).
    apply bind_Ok in Hq as (u' & _ & Hq). injection Hq as <-.
    constructor; [done|done|apply map_Forall_empty|apply map_Forall_empty]. }
  clear Hq Hn. induction Hsteps as [|n n1 n' (l & Hs) _ IH]; [done|].
  apply IH. by apply (seq_step_ok sys l n).
Qed.

(** C23: from the completion of the read of a locked read-modify-write to that of its
    write, the sequencer accepts no other request for the line. *)
Theorem rmw_exclusive now cooldown a data ext d r n n1 n2 now' rt junk p st n3 ty ty2 :
  Sequencer.m_writeRequestTable (sequencer n) !! a = Some r → m_type r = Locked_RMW_Read →
  writeCallback sys now cooldown a data ext n = Ok (d, n1) →
  rmw_steps a n1 n2 →
  Address.makeLineAddress sys (getAddr p) = a → Sequencer.request_types p = Ok (ty, ty2) →
  ty ≠ Locked_RMW_Write →
  makeRequest sys now' rt junk p n2 = Ok (st, n3) →
  (st = RequestStatus_BufferFull ∨ st = RequestStatus_Aliased) ∧ ctl n3 = ctl n2.
Proof.
  intros Hr Hty Hcb Hsteps Hline Htypes Hne Hreq.
  assert (AbstractController.isBlocked (ctl n1) a = true) as Hb1.
  { apply writeCallback_Ok in Hcb as (r' & r1 & p1 & p' & Hr' & _ & _ & _ & _ & _ & -> & _).
    assert (r' = r) as -> by congruence. rewrite Hty. cbn. unfold AbstractController.isBlocked. cbn.
    rewrite lookup_insert_eq. done. }
  assert (AbstractController.isBlocked (ctl n2) a = true) as Hb.
  { clear Hcb Hreq. induction Hsteps as [|n1 n' n2 (l & Hs & Hl) _ IH]; [done|].
    apply IH. by apply (seq_step_locked sys l n1). }
  unfold makeRequest in Hreq. destruct (decide _); [injection Hreq as <- <-; by split; [left|]|].
  rewrite Htypes in Hreq. cbn [mbind outcome_bind fst snd] in Hreq.
  apply bind_Ok in Hreq as ([st1 n4] & Hins & Hreq). unfold insertRequest in Hins.
  apply bind_Ok in Hins as (u & _ & Hins). cbn [ctl with_seq] in Hins.
  rewrite Hline, Hb, (bool_decide_eq_true_2 _ Hne) in Hins. cbn in Hins.
  injection Hins as <- <-. cbn in Hreq. injection Hreq as <- <-. by split; [right|].
Qed.

(** C33: a store conditional that finds the line no longer locked reports failure to the
    processor, and its data is written to the line all the same. *)
Theorem failed_sc_stores now a data ext r n d n' offset :
  RubySystem.getWarmupEnabled sys = false →
  Sequencer.m_writeRequestTable (sequencer n) !! a = Some r → m_type r = Store_Conditional →
  Sequencer.m_usingNetworkTester (sequencer n) = false → isFlush (pkt r) = false →
  CacheMemory.isLocked sys (dataCache n) a (Sequencer.m_version (sequencer n)) = Ok false →
  Address.getOffset sys (getAddr (pkt r)) = Ok offset →
  writeCallback sys now false a data ext n = Ok (d, n') →
  DataBlock.setData sys data (bytes (pkt r)) offset (pktSize (pkt r)) = Ok d ∧
  ∃ p', Sequencer.completions (sequencer n') =
    Sequencer.completions (sequencer n) ++ [HitCallback p'] ∧ extraData p' = Some 0.
Proof.
  intros Hw Hr Hty Hnt Hfl Hlk Hoff Hcb.
  apply writeCallback_Ok in Hcb as (r' & r1 & p1 & p' & Hr' & Hsc & Hmv & Hby & Hex & _ & _ & Hcomp).
  assert (r' = r) as -> by congruence. rewrite Hty in *. rewrite Hw in Hcomp.
  rewrite decide_True in Hsc by done. destruct Hsc as (s & Hp & Hs).
  assert (s = false) as -> by congruence.
  unfold move_data in Hmv. rewrite Hp in Hmv. cbn in Hmv. rewrite Hoff in Hmv. cbn in Hmv.
  rewrite Hw, Hfl in Hmv. apply bind_Ok in Hmv as (d' & Hd & [= <- <-]). split; [done|].
  exists p'. split; [done|]. by rewrite Hex.
Qed.

Lemma copy_in_length to off from len l : copy_in to off from len = Ok l → length l = length to.
Proof.
  unfold copy_in. destruct (decide _); [|done]. intros [= <-].
  rewrite !length_app, !length_take, length_drop. lia.
Qed.

Lemma set_get_data b data off len b' src dst l :
  DataBlock.setData sys b data off len = Ok b' → DataBlock.getData sys b' off len = Ok src →
  copy_in dst 0 src len = Ok l → Z.of_nat (length data) = len → Z.of_nat (length dst) = len →
  l = data.
Proof.
  unfold DataBlock.setData, DataBlock.getData. intros H1 H2 H3 Hd Hl.
  apply bind_Ok in H1 as (u & _ & H1). apply bind_Ok in H1 as (l1 & H1 & [= <-]).
  apply bind_Ok in H2 as (u' & _ & H2). cbn in H2. unfold copy_in in H1, H3.
  destruct (decide _) as [Hc|]; [|done]. injection H1 as <-.
  unfold from_here in H2. destruct (decide _); [|done]. injection H2 as <-.
  destruct (decide _) as [Hc'|]; [|done]. injection H3 as <-. cbn [Z.to_nat take app].
  rewrite (take_ge data) by lia.
  rewrite drop_app_length' by (rewrite length_take; lia).
  rewrite take_app_length' by lia. rewrite drop_ge by lia. by rewrite app_nil_r.
Qed.

(** C22: a load that completes with the block a completed store left, and asks for the
    bytes the store wrote, brings exactly these bytes to the processor. *)
Theorem store_load_roundtrip now now' a a' data ext ext' r r' n1 n2 n3 n4 d d' :
  RubySystem.getWarmupEnabled sys = false →
  Sequencer.m_writeRequestTable (sequencer n1) !! a = Some r → m_type r = ST →
  Sequencer.m_readRequestTable (sequencer n3) !! a' = Some r' →
  isFlush (pkt r) = false → isFlush (pkt r') = false →
  getAddr (pkt r') = getAddr (pkt r) → pktSize (pkt r') = pktSize (pkt r) →
  Z.of_nat (length (bytes (pkt r))) = pktSize (pkt r) →
  Z.of_nat (length (bytes (pkt r'))) = pktSize (pkt r') →
  writeCallback sys now false a data ext n1 = Ok (d, n2) →
  readCallback sys now' false a' d ext' false n3 = Ok (d', n4) →
  d' = d ∧ ∃ p', Sequencer.completions (sequencer n4) =
    Sequencer.completions (sequencer n3) ++ [HitCallback p'] ∧ bytes p' = bytes (pkt r).
Proof.
  intros Hw Hr Hty Hr' Hf Hf' Ha Hs Hl Hl' Hcb Hcb'.
  apply writeCallback_Ok in Hcb as (r0 & r1 & p1 & p' & Hr0 & Hsc & Hmv & _).
  assert (r0 = r) as -> by congruence. rewrite decide_False in Hsc by (rewrite Hty; by intros [? _]).
  subst r1. apply readCallback_Ok in Hcb'. rewrite Hr' in Hcb'.
  destruct Hcb' as (p2 & p3 & Hmv' & Hby & _ & Hty' & _ & Hcomp). rewrite Hw in Hcomp.
  unfold move_data in Hmv, Hmv'. rewrite Hty, Hw, Hf in Hmv. rewrite Ha, Hw, Hf' in Hmv'.
  apply bind_Ok in Hmv as (off & Hoff & Hmv). rewrite Hoff in Hmv'. cbn [mbind outcome_bind] in Hmv'.
  assert (is_read_type (m_type r') = true) as Hread by (by destruct Hty' as [-> | ->]).
  rewrite Hread in Hmv'. cbn [is_read_type] in Hmv.
  apply bind_Ok in Hmv as (b & Hset & [= <- <-]).
  apply bind_Ok in Hmv' as (src & Hget & Hmv'). apply bind_Ok in Hmv' as (l & Hcopy & Hmv').
  injection Hmv' as <- <-. split; [done|]. exists p3. split; [done|].
  rewrite Hby. cbn. rewrite Hs in *. by eapply (set_get_data data (bytes (pkt r)) off _ b src (bytes (pkt r'))).
Qed.

(** A request that has waited for the threshold. *)
Definition overdue now q (r : SequencerRequest) : Prop :=
  Sequencer.m_deadlock_threshold q ≤
    u64 (ClockedObject.curCycle now (Sequencer.clk q) - issue_time r).

Lemma existsb_map {A} (f : A → bool) (m : gmap Z A) :
  existsb f (map_to_list m).*2 = true ↔ ∃ a r, m !! a = Some r ∧ f r = true.
Proof.
  rewrite existsb_exists. split.
  - intros (r & Hr & Hf). apply list_elem_of_In, list_elem_of_fmap in Hr as ([a r'] & -> & Hr).
    apply elem_of_map_to_list in Hr. by exists a, r'.
  - intros (a & r & Hr & Hf). exists r. split; [|done].
    apply list_elem_of_In, list_elem_of_fmap. exists (a, r). split; [done|].
    by apply elem_of_map_to_list.
Qed.

(** The deadlock check stops the simulation exactly when an outstanding request has
    waited for the threshold. *)
Theorem deadlock_check_exact now q : seq_ok sys q → Sequencer.draining q = false →
  let late := ∃ a r, (Sequencer.m_readRequestTable q !! a = Some r ∨
                      Sequencer.m_writeRequestTable q !! a = Some r) ∧ overdue now q r in
  (late → Sequencer.wakeup now q = Err PanicFault) ∧
  (¬ late → Sequencer.wakeup now q = Ok (Sequencer.with_check q None)).
Proof.
  intros [Hc H1 Hw Hr] Hd late. unfold Sequencer.wakeup. rewrite Hd. cbn [negb assert_that mbind outcome_bind].
  set (f := λ r, bool_decide _).
  assert (existsb f (map_to_list (Sequencer.m_readRequestTable q)).*2
    || existsb f (map_to_list (Sequencer.m_writeRequestTable q)).*2 = true ↔ late) as Hiff.
  { rewrite orb_true_iff, !existsb_map. unfold f, late, overdue. setoid_rewrite bool_decide_eq_true.
    split; [intros [(a & r & ? & ?)|(a & r & ? & ?)]|intros (a & r & [?|?] & ?)]; naive_solver. }
  destruct (_ || _); [split; [done|tauto]|]. split; [intros ?%Hiff; done|]. intros _.
  unfold Sequencer.assert_count. rewrite bool_decide_eq_true_2; [done|]. rewrite <- Hc.
  apply uwrap_id. unfold fits. unfold Sequencer.table_size in Hc. lia.
Qed.

(** A check that finds a request not yet overdue schedules no other check, and as
    long as that request is outstanding none is scheduled: a request that never
    completes goes unnoticed. *)
Theorem deadlock_check_lapses now n q' : seq_ok sys (sequencer n) →
  Sequencer.wakeup now (sequencer n) = Ok q' → Sequencer.empty (sequencer n) = false →
  Sequencer.deadlock_check q' = None ∧
  ∀ now' rt junk p, makeRequest sys now' rt junk p (with_seq n q') =
    Ok (RequestStatus_BufferFull, with_seq n q').
Proof.
  intros [Hc _ _ _] Hq He. apply wakeup_Ok in Hq as ->. split; [done|]. intros now' rt junk p.
  unfold makeRequest. rewrite decide_True; [done|]. cbn. rewrite Hc. unfold Sequencer.table_size.
  unfold Sequencer.empty in He. apply andb_false_iff in He.
  destruct He as [He|He]; apply bool_decide_eq_false in He; rewrite <- map_size_empty_iff in He; lia.
Qed.

End properties.

(** ** Witnesses *)

(** A sequencer on a cache that holds line 0, and packets for the first eight bytes. *)
Definition line0 : CacheMemory.t policy_ptr Z := get_Ok demo_one eq_refl.
Definition mandatory : MessageBuffer.t payload :=
  MessageBuffer.with_conf (MessageBuffer.create 1)
    (MessageBuffer.mkConfig 1 (Some demo_clock) (Some demo_clock) (Some ToController)
       0 0 false true false 0 0).
Definition seq0 : Sequencer.t :=
  get_Ok (Sequencer.create 0 500 16 0 false false (ClockedObject.create 1)) eq_refl.
Definition node0 : node policy_ptr Z :=
  mkNode seq0 line0 line0 None (AbstractController.create 0 2 {[0 := mandatory]}).
Definition packet_of (r w llsc rmw : bool) (l : list Z) : cpu_packet :=
  mkPkt 0 8 l r w false llsc rmw false false None None None None.
Definition stored : list Z := [1; 2; 3; 4; 5; 6; 7; 8].
Definition blank : DataBlock.t := DataBlock.create sys64.

Definition issued (p : cpu_packet) : outcome (node policy_ptr Z) :=
  r ← makeRequest sys64 1 0 0 p node0; Ok r.2.
Definition storing : node policy_ptr Z := get_Ok (issued (packet_of false true false false stored)) eq_refl.
Definition loading : node policy_ptr Z :=
  get_Ok (issued (packet_of true false false false (replicate 8 0))) eq_refl.
Definition conditional : node policy_ptr Z :=
  get_Ok (issued (packet_of false true true false stored)) eq_refl.
Definition locking : node policy_ptr Z :=
  get_Ok (issued (packet_of true false false true (replicate 8 0))) eq_refl.

Lemma outstanding_requests_ok_witness : seq_ok sys64 (sequencer storing).
Proof.
  apply (outstanding_requests_ok sys64 0 500 16 0 false false (ClockedObject.create 1) seq0 node0);
    [reflexivity|reflexivity|].
  eapply rtc_once. exists None. eapply (step_request sys64 1 0 0 (packet_of false true false false stored)).
  vm_compute. reflexivity.
Defined.

Lemma storing_ok : seq_ok sys64 (sequencer storing).
Proof.
  apply (makeRequest_ok sys64 1 0 0 (packet_of false true false false stored) node0 RequestStatus_Issued);
    [|vm_compute; reflexivity].
  constructor; [done|done|apply map_Forall_empty|apply map_Forall_empty].
Qed.

Lemma rmw_exclusive_witness : ∃ d n1 n3,
  writeCallback sys64 9 false 0 blank false locking = Ok (d, n1) ∧
  makeRequest sys64 10 0 0 (packet_of false true false false stored) n1 = Ok (RequestStatus_Aliased, n3) ∧
  ctl n3 = ctl n1.
Proof.
  eexists _, _, _. split; [vm_compute; reflexivity|]. split; [vm_compute; reflexivity|].
  eapply (rmw_exclusive sys64 9 false 0 blank false _ _ locking _ _ 10 0 0
    (packet_of false true false false stored) RequestStatus_Aliased _ ST ST);
    [vm_compute; reflexivity|reflexivity|vm_compute; reflexivity|apply rtc_refl|reflexivity|
     reflexivity|done|vm_compute; reflexivity].
Defined.

Lemma failed_sc_stores_witness :
  ∃ r, writeCallback sys64 9 false 0 blank false conditional = Ok r ∧
    take 8 (DataBlock.m_data r.1) = stored ∧
    ∃ p', Sequencer.completions (sequencer r.2) = [HitCallback p'] ∧ extraData p' = Some 0.
Proof.
  eexists. split; [vm_compute; reflexivity|]. split; [vm_compute; reflexivity|].
  eapply (failed_sc_stores (T := policy_ptr) (D := Z) sys64 9 0 blank false _ conditional _ _ 0);
    vm_compute; reflexivity.
Defined.

Lemma store_load_roundtrip_witness :
  ∃ r, writeCallback sys64 9 false 0 blank false storing = Ok r ∧
  ∃ r', readCallback sys64 9 false 0 r.1 false false loading = Ok r' ∧
  ∃ p', Sequencer.completions (sequencer r'.2) = [HitCallback p'] ∧ bytes p' = stored.
Proof.
  eexists. split; [vm_compute; reflexivity|]. eexists. split; [vm_compute; reflexivity|].
  eapply (store_load_roundtrip (T := policy_ptr) (D := Z) sys64 9 9 0 0 blank false false
    (mkSeqReq (packet_of false true false false stored) ST 1)
    (mkSeqReq (packet_of true false false false (replicate 8 0)) LD 1) storing _ loading _ _ _);
    vm_compute; reflexivity.
Defined.

Lemma deadlock_check_exact_witness :
  Sequencer.wakeup 600 (sequencer storing) = Err PanicFault.
Proof.
  apply (deadlock_check_exact sys64 600 (sequencer storing) storing_ok); [reflexivity|].
  eexists 0, _. split; [right; vm_compute; reflexivity|]. vm_compute. discriminate.
Defined.

Lemma deadlock_check_lapses_witness : ∃ q', Sequencer.wakeup 400 (sequencer storing) = Ok q' ∧
  Sequencer.deadlock_check q' = None ∧
  makeRequest sys64 900 0 0 (packet_of true false false false (replicate 8 0)) (with_seq storing q') =
    Ok (RequestStatus_BufferFull, with_seq storing q').
Proof.
  eexists. split; [vm_compute; reflexivity|].
  edestruct (deadlock_check_lapses sys64 400 storing) as [H1 H2];
    [exact storing_ok|vm_compute; reflexivity|vm_compute; reflexivity|]. split; [exact H1|apply H2].
Defined.
