(* ===== verification/Memories.v ===== *)
(** * Memory behind the directory (mem/packet.hh, packet.cc: commands; mem/abstract_mem.hh, abstract_mem.cc)

    The commands of packets with their attributes, and the memory that serves packets: reads,
    writes, swaps, and the reservations of load-locked and store-conditional accesses.  Bytes are
    numbers below 256. *)

From S2P Require Import Prelude.
Local Open Scope Z_scope.

Module MemCmd.

Inductive Command : Set :=
  | InvalidCmd | ReadReq | ReadResp | ReadRespWithInvalidate | WriteReq | WriteResp | Writeback
  | SoftPFReq | HardPFReq | SoftPFResp | HardPFResp | WriteInvalidateReq | WriteInvalidateResp
  | UpgradeReq | SCUpgradeReq | UpgradeResp | SCUpgradeFailReq | UpgradeFailResp | ReadExReq | ReadExResp
  | LoadLockedReq | StoreCondReq | StoreCondFailReq | StoreCondResp | SwapReq | SwapResp
  | MessageReq | MessageResp | InvalidDestError | BadAddressError | FunctionalReadError | FunctionalWriteError
  | PrintReq | FlushReq | InvalidationReq.

Inductive Attribute : Set :=
  | IsRead | IsWrite | IsUpgrade | IsInvalidate | NeedsExclusive | IsRequest | IsResponse | NeedsResponse
  | IsSWPrefetch | IsHWPrefetch | IsLlsc | HasData | IsError | IsPrint | IsFlush.

#[export] Instance command_eq_dec : EqDecision Command.
Proof. solve_decision. Defined.
#[export] Instance attribute_eq_dec : EqDecision Attribute.
Proof. solve_decision. Defined.

(** The attributes of a command and the command of its response. *)
Definition commandInfo (c : Command) : list Attribute * Command :=
  match c with
  | InvalidCmd => ([], InvalidCmd)
  | ReadReq => ([IsRead; IsRequest; NeedsResponse], ReadResp)
  | ReadResp => ([IsRead; IsResponse; HasData], InvalidCmd)
  | ReadRespWithInvalidate => ([IsRead; IsResponse; HasData; IsInvalidate], InvalidCmd)
  | WriteReq => ([IsWrite; NeedsExclusive; IsRequest; NeedsResponse; HasData], WriteResp)
  | WriteResp => ([IsWrite; NeedsExclusive; IsResponse], InvalidCmd)
  | Writeback => ([IsWrite; NeedsExclusive; IsRequest; HasData], InvalidCmd)
  | SoftPFReq => ([IsRead; IsRequest; IsSWPrefetch; NeedsResponse], SoftPFResp)
  | HardPFReq => ([IsRead; IsRequest; IsHWPrefetch; NeedsResponse], HardPFResp)
  | SoftPFResp => ([IsRead; IsResponse; IsSWPrefetch; HasData], InvalidCmd)
  | HardPFResp => ([IsRead; IsResponse; IsHWPrefetch; HasData], InvalidCmd)
  | WriteInvalidateReq => ([IsWrite; NeedsExclusive; IsInvalidate; IsRequest; HasData; NeedsResponse], WriteInvalidateResp)
  | WriteInvalidateResp => ([IsWrite; NeedsExclusive; IsResponse], InvalidCmd)
  | UpgradeReq => ([IsInvalidate; NeedsExclusive; IsUpgrade; IsRequest; NeedsResponse], UpgradeResp)
  | SCUpgradeReq => ([IsInvalidate; NeedsExclusive; IsUpgrade; IsLlsc; IsRequest; NeedsResponse], UpgradeResp)
  | UpgradeResp => ([NeedsExclusive; IsUpgrade; IsResponse], InvalidCmd)
  | SCUpgradeFailReq => ([IsRead; NeedsExclusive; IsInvalidate; IsLlsc; IsRequest; NeedsResponse], UpgradeFailResp)
  | UpgradeFailResp => ([IsRead; NeedsExclusive; IsResponse; HasData], InvalidCmd)
  | ReadExReq => ([IsRead; NeedsExclusive; IsInvalidate; IsRequest; NeedsResponse], ReadExResp)
  | ReadExResp => ([IsRead; NeedsExclusive; IsResponse; HasData], InvalidCmd)
  | LoadLockedReq => ([IsRead; IsLlsc; IsRequest; NeedsResponse], ReadResp)
  | StoreCondReq => ([IsWrite; NeedsExclusive; IsLlsc; IsRequest; NeedsResponse; HasData], StoreCondResp)
  | StoreCondFailReq => ([IsWrite; NeedsExclusive; IsLlsc; IsRequest; NeedsResponse; HasData], StoreCondResp)
  | StoreCondResp => ([IsWrite; NeedsExclusive; IsLlsc; IsResponse], InvalidCmd)
  | SwapReq => ([IsRead; IsWrite; NeedsExclusive; IsRequest; HasData; NeedsResponse], SwapResp)
  | SwapResp => ([IsRead; IsWrite; NeedsExclusive; IsResponse; HasData], InvalidCmd)
  | MessageReq => ([IsWrite; IsRequest; NeedsResponse; HasData], MessageResp)
  | MessageResp => ([IsWrite; IsResponse], InvalidCmd)
  | InvalidDestError => ([IsResponse; IsError], InvalidCmd)
  | BadAddressError => ([IsResponse; IsError], InvalidCmd)
  | FunctionalReadError => ([IsRead; IsResponse; IsError], InvalidCmd)
  | FunctionalWriteError => ([IsWrite; IsResponse; IsError], InvalidCmd)
  | PrintReq => ([IsRequest; IsPrint], InvalidCmd)
  | FlushReq => ([IsRequest; IsFlush; NeedsExclusive], InvalidCmd)
  | InvalidationReq => ([NeedsExclusive; IsInvalidate; IsRequest], InvalidCmd)
  end.

Definition testCmdAttrib (c : Command) (a : Attribute) : bool := bool_decide (a ∈ (commandInfo c).1).
Definition responseCommand (c : Command) : Command := (commandInfo c).2.

End MemCmd.

Import MemCmd.

Module Pkt.

(** A packet with what its request adds to it: the physical address and the context, whether it
    is a conditional swap, an instruction fetch, and the extra data. *)
Record t := mk {
  cmd : Command;
  addr : Z;
  size : Z;
  data : list Z;
  paddr : Z;
  contextId : Z;
  isCondSwap : bool;
  isInstFetch : bool;
  extraData : option Z;
  memInhibit : bool }.

Definition with_cmd (p : t) (c : Command) : t :=
  mk c (addr p) (size p) (data p) (paddr p) (contextId p) (isCondSwap p) (isInstFetch p) (extraData p) (memInhibit p).
Definition with_data (p : t) (l : list Z) : t :=
  mk (cmd p) (addr p) (size p) l (paddr p) (contextId p) (isCondSwap p) (isInstFetch p) (extraData p) (memInhibit p).
Definition setExtraData (p : t) (v : Z) : t :=
  mk (cmd p) (addr p) (size p) (data p) (paddr p) (contextId p) (isCondSwap p) (isInstFetch p) (Some v) (memInhibit p).

Definition has (a : Attribute) (p : t) : bool := testCmdAttrib (cmd p) a.

Definition makeResponse (p : t) : outcome t :=
  assert_that (has NeedsResponse p);;
  assert_that (has IsRequest p);;
  Ok (with_cmd p (responseCommand (cmd p))).

End Pkt.

Module AbstractMemory.
Import Pkt.

(** [LockedAddr]: the address of a reservation and its context. *)
Definition LockedAddr : Type := Z * Z.
Definition mask (paddr : Z) : Z := Z.ldiff paddr 0xf.

(** The memory: its range, its bytes ([None] for a memory without a backing store), the
    reservations, and the contexts whose processors were woken. *)
Record t := mk {
  start : Z;
  end_ : Z;
  pmem : option (list Z);
  lockedAddrList : list LockedAddr;
  wakeups : list Z }.

Definition with_pmem (m : t) (l : option (list Z)) : t := mk (start m) (end_ m) l (lockedAddrList m) (wakeups m).
Definition with_locks (m : t) (l : list LockedAddr) (w : list Z) : t := mk (start m) (end_ m) (pmem m) l w.

(** The first record of the context gets the address. *)
Fixpoint set_lock (a c : Z) (l : list LockedAddr) : option (list LockedAddr) :=
  match l with
  | [] => None
  | (a', c') :: l => if decide (c' = c) then Some ((a, c') :: l) else cons (a', c') <$> set_lock a c l
  end.

Definition trackLoadLocked (m : t) (p : Pkt.t) : t :=
  let a := mask (paddr p) in
  match set_lock a (contextId p) (lockedAddrList m) with
  | Some l => with_locks m l (wakeups m)
  | None => with_locks m ((a, contextId p) :: lockedAddrList m) (wakeups m)
  end.

Definition checkLockedAddrList (m : t) (p : Pkt.t) : bool * t * Pkt.t :=
  let a := mask (paddr p) in
  let isLLSC := has IsLlsc p in
  let found := existsb (λ r, bool_decide (r.1 = a) && bool_decide (r.2 = contextId p)) (lockedAddrList m) in
  let allowStore := negb isLLSC || found in
  let p := if isLLSC then setExtraData p (Z.b2z allowStore) else p in
  let m := if allowStore then
             with_locks m (filter (λ r, r.1 ≠ a) (lockedAddrList m))
               (wakeups m ++ map snd (filter (λ r, r.1 = a) (lockedAddrList m)))
           else m in
  (allowStore, m, p).

Definition writeOK (m : t) (p : Pkt.t) : bool * t * Pkt.t :=
  match lockedAddrList m with
  | [] => (negb (has IsLlsc p), m, if has IsLlsc p then setExtraData p 0 else p)
  | _ => checkLockedAddrList m p
  end.

(** [memcpy] from and to the host memory. *)
Definition bytes_at (l : list Z) (off n : Z) : list Z := take (Z.to_nat n) (drop (Z.to_nat off) l).
Definition copy_to (l : list Z) (off : Z) (v : list Z) (n : Z) : list Z :=
  list_inserts (Z.to_nat off) (take (Z.to_nat n) v) l.

(** [AddrRange(addr, addr + size - 1).isSubset(range)], for a range that is not interleaved. *)
Definition in_range (m : t) (p : Pkt.t) : bool :=
  bool_decide (start m ≤ addr p) && bool_decide (u64 (addr p + size p - 1) ≤ end_ m).

(** The bytes of a 64-bit word, low byte first. *)
Definition word_bytes (n : nat) (v : Z) : list Z := map (λ i, Z.shiftr v (8 * i) `mod` 256) (seqZ 0 (Z.of_nat n)).

(** The exchange of a swap: what is in the memory goes to the packet, and the data of the packet to
    the memory, if the condition holds. *)
Definition swap (m : t) (p : Pkt.t) : outcome (t * Pkt.t) :=
  match pmem m with
  | None => Err PanicFault
  | Some l =>
      let off := addr p - start m in
      let old := bytes_at l off (size p) in
      overwrite ← (if isCondSwap p then
                     if decide (size p = 8) then v ← from_option_or AssertFail (extraData p); Ok (bool_decide (word_bytes 8 v = old))
                     else if decide (size p = 4) then v ← from_option_or AssertFail (extraData p); Ok (bool_decide (word_bytes 4 v = old))
                     else Err PanicFault
                   else Ok true);
      assert_that (negb (isInstFetch p));;
      Ok (if overwrite : bool then with_pmem m (Some (copy_to l off (data p) (size p))) else m, with_data p old)
  end.

Definition access (m : t) (p : Pkt.t) : outcome (t * Pkt.t) :=
  assert_that (in_range m p);;
  if memInhibit p then Ok (m, p)
  else
    let off := addr p - start m in
    r ← (if decide (cmd p = SwapReq) then swap m p
         else if has IsRead p then
           assert_that (negb (has IsWrite p));;
           let m := if has IsLlsc p then trackLoadLocked m p else m in
           Ok (m, match pmem m with Some l => with_data p (bytes_at l off (size p)) | None => p end)
         else if has IsInvalidate p then Ok (m, p)
         else if has IsWrite p then
           let '(ok, m, p) := writeOK m p in
           if ok : bool then
             assert_that (negb (isInstFetch p));;
             Ok (with_pmem m ((λ l, copy_to l off (data p) (size p)) <$> pmem m), p)
           else Ok (m, p)
         else Err PanicFault);
    let '(m, p) := r in
    if has NeedsResponse p then p ← makeResponse p; Ok (m, p) else Ok (m, p).

(** Without the branch that prints. *)
Definition functionalAccess (m : t) (p : Pkt.t) : outcome (t * Pkt.t) :=
  assert_that (in_range m p);;
  let off := addr p - start m in
  if has IsRead p then
    p ← makeResponse (match pmem m with Some l => with_data p (bytes_at l off (size p)) | None => p end); Ok (m, p)
  else if has IsWrite p then
    p' ← makeResponse p; Ok (with_pmem m ((λ l, copy_to l off (data p) (size p)) <$> pmem m), p')
  else Err PanicFault.

End AbstractMemory.

(** ** Commands *)

(** A command needs a response exactly if the table has one for it; a response is not a request,
    needs no response, and reads or writes as the request did, but for upgrades. *)
Lemma responses_ok c : testCmdAttrib c NeedsResponse = bool_decide (responseCommand c ≠ InvalidCmd) ∧
  (testCmdAttrib c NeedsResponse = true → testCmdAttrib c IsRequest = true ∧
     testCmdAttrib (responseCommand c) IsResponse = true ∧ testCmdAttrib (responseCommand c) IsRequest = false ∧
     testCmdAttrib (responseCommand c) NeedsResponse = false ∧
     testCmdAttrib (responseCommand c) IsRead = testCmdAttrib c IsRead ∧
     testCmdAttrib (responseCommand c) IsWrite = testCmdAttrib c IsWrite).
Proof. by destruct c; vm_compute. Qed.

(** ** Reservations *)

Import Pkt AbstractMemory.

Section reservations.
Implicit Types (m : t) (p : Pkt.t) (l : list LockedAddr) (ρ : gmap Z Z) (a c : Z).

(** What the memory promises: the bytes, and for each context the block of 16 bytes it has
    reserved, if any. *)
Record spec := mkSpec { bytes : list Z; reserved : gmap Z Z }.

(** A store to a block ends the reservations of the block. *)
Definition release a ρ : gmap Z Z := filter (λ x, x.2 ≠ a) ρ.

(** The answer to a packet whose command is [c], for a memory that starts at [from]. *)
Definition spec_access (from : Z) (s : spec) p : spec * Pkt.t :=
  let off := addr p - from in
  let a := mask (paddr p) in
  let reply := with_cmd p (if has NeedsResponse p then responseCommand (cmd p) else cmd p) in
  let stored := mkSpec (copy_to (bytes s) off (data p) (size p)) (release a (reserved s)) in
  match cmd p with
  | LoadLockedReq =>
      (mkSpec (bytes s) (<[contextId p := a]> (reserved s)), with_data reply (bytes_at (bytes s) off (size p)))
  | StoreCondReq =>
      if decide (reserved s !! contextId p = Some a) then (stored, setExtraData reply 1) else (s, setExtraData reply 0)
  | WriteReq | Writeback => (stored, reply)
  | _ => (s, with_data reply (bytes_at (bytes s) off (size p)))
  end.

(** The list of reservations has at most one for each context. *)
Definition locks_of l : gmap Z Z := list_to_map (prod_swap <$> l).
Definition repr m (s : spec) : Prop :=
  pmem m = Some (bytes s) ∧ NoDup (lockedAddrList m).*2 ∧ reserved s = locks_of (lockedAddrList m).

Lemma set_lock_repr a c l : match set_lock a c l with
  | Some l' => l'.*2 = l.*2 ∧ locks_of l' = <[c := a]> (locks_of l)
  | None => c ∉ l.*2 end.
Proof.
  induction l as [|[a' c'] l IH]; [apply not_elem_of_nil|]. cbn [set_lock]. case_decide as E.
  - subst c'. split; [done|]. unfold locks_of. cbn. by rewrite insert_insert_eq.
  - destruct (set_lock a c l) as [l'|] eqn:Hl; cbn.
    + destruct IH as [E1 E2]. split; [by f_equal|]. unfold locks_of in *. cbn. rewrite E2. by apply insert_insert_ne.
    + by apply not_elem_of_cons.
Qed.

Lemma locks_lookup l a c : NoDup l.*2 → locks_of l !! c = Some a ↔ (a, c) ∈ l.
Proof.
  intros Hnd. unfold locks_of. rewrite <- elem_of_list_to_map.
  - rewrite list_elem_of_fmap. split; [by intros ([] & [= -> ->] & ?)|]. intros H. by exists (a, c).
  - replace ((prod_swap <$> l).*1) with (l.*2); [done|]. rewrite <- list_fmap_compose. by apply list_fmap_ext; intros ? [] ?.
Qed.

Lemma found_lock l a c : NoDup l.*2 →
  existsb (λ r, bool_decide (r.1 = a) && bool_decide (r.2 = c)) l = bool_decide (locks_of l !! c = Some a).
Proof.
  intros Hnd. apply eq_bool_prop_intro. rewrite bool_decide_spec, (locks_lookup l a c Hnd), Is_true_true, existsb_exists. split.
  - intros ([a' c'] & Hx & [E1%bool_decide_eq_true E2%bool_decide_eq_true]%andb_true_iff). cbn in E1, E2. subst. by apply list_elem_of_In.
  - intros H. exists (a, c). split; [by apply list_elem_of_In|]. by rewrite !bool_decide_eq_true_2.
Qed.

Lemma filter_sublist_snd l a : (filter (λ r : LockedAddr, r.1 ≠ a) l).*2 `sublist_of` l.*2.
Proof. apply fmap_sublist, sublist_filter. Qed.

Lemma release_repr l a : NoDup l.*2 →
  NoDup (filter (λ r : LockedAddr, r.1 ≠ a) l).*2 ∧ release a (locks_of l) = locks_of (filter (λ r, r.1 ≠ a) l).
Proof.
  intros Hnd. assert (NoDup (filter (λ r : LockedAddr, r.1 ≠ a) l).*2) as Hf.
  { eapply sublist_NoDup; [exact Hnd|apply filter_sublist_snd]. }
  split; [done|]. apply map_eq. intros c. apply option_eq. intros a'.
  rewrite (locks_lookup _ a' c Hf). unfold release. rewrite map_lookup_filter_Some, (locks_lookup l a' c Hnd), list_elem_of_filter.
  cbn. tauto.
Qed.

(** The commands that reach a memory behind caches. *)
Definition served (c : Command) : bool :=
  match c with ReadReq | LoadLockedReq | WriteReq | Writeback | StoreCondReq => true | _ => false end.
Definition serves m p : Prop :=
  served (cmd p) = true ∧ in_range m p = true ∧ memInhibit p = false ∧ isInstFetch p = false.

(** Whether a store takes place. *)
Definition stores (s : spec) p : bool :=
  negb (has IsLlsc p) || bool_decide (reserved s !! contextId p = Some (mask (paddr p))).

Lemma writeOK_repr m s p : repr m s → ∃ m', writeOK m p =
    (stores s p, m', if has IsLlsc p then setExtraData p (Z.b2z (stores s p)) else p) ∧
  start m' = start m ∧ end_ m' = end_ m ∧
  repr m' (if stores s p then mkSpec (bytes s) (release (mask (paddr p)) (reserved s)) else s).
Proof.
  intros (Hb & Hnd & Hr). unfold writeOK, checkLockedAddrList, stores. rewrite (found_lock _ _ _ Hnd), Hr.
  destruct (lockedAddrList m) as [|x l] eqn:Hl.
  - exists m. cbn. destruct (has IsLlsc p); cbn; split_and!; try done.
    all: unfold repr; rewrite ?Hl; split_and!; try done; cbn; by rewrite Hr.
  - eexists. split; [reflexivity|]. rewrite <- Hl in *.
    destruct (release_repr (lockedAddrList m) (mask (paddr p)) Hnd) as [Hf He].
    destruct (negb _ || _); split_and!; try done; unfold repr; cbn; split_and!; try done; by rewrite Hr.
Qed.

Lemma trackLoadLocked_repr m s p : repr m s → start (trackLoadLocked m p) = start m ∧ end_ (trackLoadLocked m p) = end_ m ∧
  repr (trackLoadLocked m p) (mkSpec (bytes s) (<[contextId p := mask (paddr p)]> (reserved s))).
Proof.
  intros (Hb & Hnd & Hr). unfold trackLoadLocked. pose proof (set_lock_repr (mask (paddr p)) (contextId p) (lockedAddrList m)) as H.
  destruct (set_lock _ _ _) as [l'|]; unfold repr; cbn; split_and!; try done.
  - by destruct H as [-> _].
  - destruct H as [_ H]. by rewrite Hr.
  - by constructor.
  - rewrite Hr. done.
Qed.

(** Evaluates the attributes of given commands. *)
Ltac attributes := unfold has; cbn [cmd with_cmd with_data setExtraData];
  repeat match goal with |- context [testCmdAttrib ?c ?a] =>
    let b := eval vm_compute in (testCmdAttrib c a) in change (testCmdAttrib c a) with b end;
  repeat (rewrite decide_False by done).

(** Every access does what is promised. *)
Lemma access_refines m s p : repr m s → serves m p →
  ∃ m', access m p = Ok (m', (spec_access (start m) s p).2) ∧ repr m' (spec_access (start m) s p).1 ∧
    start m' = start m ∧ end_ m' = end_ m.
Proof.
  intros Hr (Hs & Hi & Hm & Hf). unfold access, spec_access. rewrite Hi, Hm. cbn [assert_that mbind outcome_bind].
  destruct (writeOK_repr m s p Hr) as (m1 & Hw & Hs1 & He1 & Hr1). destruct (trackLoadLocked_repr m s p Hr) as (Hs2 & He2 & Hr2).
  pose proof (proj1 Hr) as Hb. pose proof (proj1 Hr2) as Hb2.
  rewrite Hw. unfold stores in *. clear Hw. unfold makeResponse.
  destruct p as [c a n d pa cx cs fi ed mi]. cbn in Hs, Hf. subst fi. revert Hr1.
  destruct c; try discriminate Hs; attributes; cbn; rewrite ?Hb; intros Hr1.
  - by exists m.
  - eexists. split; [reflexivity|]. by destruct Hr1 as (-> & ? & ?).
  - eexists. split; [reflexivity|]. by destruct Hr1 as (-> & ? & ?).
  - cbn in Hb2. rewrite Hb2. by eexists.
  - case_decide as E.
    + rewrite (bool_decide_eq_true_2 _ E) in *. eexists. split; [reflexivity|]. by destruct Hr1 as (-> & ? & ?).
    + rewrite (bool_decide_eq_false_2 _ E) in *. by eexists.
Qed.

(** Packets served one after the other, and their answers. *)
Fixpoint accesses m (ps : list Pkt.t) : outcome (t * list Pkt.t) :=
  match ps with
  | [] => Ok (m, [])
  | p :: ps => r ← access m p; r' ← accesses r.1 ps; Ok (r'.1, r.2 :: r'.2)
  end.
Fixpoint spec_accesses (from : Z) (s : spec) (ps : list Pkt.t) : spec * list Pkt.t :=
  match ps with
  | [] => (s, [])
  | p :: ps => let r := spec_access from s p in let r' := spec_accesses from r.1 ps in (r'.1, r.2 :: r'.2)
  end.

Lemma accesses_refine ps : ∀ m s, repr m s → Forall (serves m) ps →
  ∃ m', accesses m ps = Ok (m', (spec_accesses (start m) s ps).2) ∧ repr m' (spec_accesses (start m) s ps).1 ∧
    start m' = start m ∧ end_ m' = end_ m.
Proof.
  induction ps as [|p ps IH]; intros m s Hr Hs; [by exists m|].
  apply Forall_cons in Hs as [Hp Hs]. destruct (access_refines m s p Hr Hp) as (m1 & Ha & Hr1 & Hs1 & He1).
  destruct (IH m1 _ Hr1) as (m2 & Ha2 & Hr2 & Hs2 & He2).
  { eapply Forall_impl; [exact Hs|]. intros q (? & Hi & ? & ?). split_and!; try done. unfold in_range in *. by rewrite Hs1, He1. }
  exists m2. cbn [accesses spec_accesses]. rewrite Ha. cbn. rewrite Ha2. cbn. rewrite Hs1 in *. rewrite He1 in *. done.
Qed.

(** The events of a run that end the reservation of block [a] by context [c]: the context
    reserves another block, or a store to the block takes place. *)
Definition ends_reservation a c (x : Pkt.t * Pkt.t) : Prop :=
  match cmd x.1 with
  | LoadLockedReq => contextId x.1 = c
  | WriteReq | Writeback => mask (paddr x.1) = a
  | StoreCondReq => extraData x.2 = Some 1 ∧ mask (paddr x.1) = a
  | _ => False
  end.
(** The context has reserved the block, and nothing has ended it since. *)
Definition holds_reservation a c (run : list (Pkt.t * Pkt.t)) : Prop :=
  ∃ before x after, run = before ++ x :: after ∧ cmd x.1 = LoadLockedReq ∧ contextId x.1 = c ∧ mask (paddr x.1) = a ∧
    Forall (λ y, ¬ ends_reservation a c y) after.

Lemma holds_snoc a c run x : holds_reservation a c (run ++ [x]) ↔
  cmd x.1 = LoadLockedReq ∧ contextId x.1 = c ∧ mask (paddr x.1) = a ∨
  ¬ ends_reservation a c x ∧ holds_reservation a c run.
Proof.
  split.
  - intros (b & y & l & E & Hc & Hx & Ha & Hf). destruct l as [|z l _] using rev_ind.
    + apply app_inj_tail in E as [_ ->]. by left.
    + rewrite app_comm_cons, app_assoc in E. apply app_inj_tail in E as [-> ->]. apply Forall_app in Hf as [Hf [Hz _]%Forall_cons].
      right. split; [done|]. by exists b, y, l.
  - intros [(Hc & Hx & Ha)|[He (b & y & l & -> & Hc & Hx & Ha & Hf)]].
    + exists run, x, []. split_and!; try done; by constructor.
    + exists b, y, (l ++ [x]). rewrite <- app_assoc. split_and!; try done. apply Forall_app. by split; [|constructor].
Qed.

(** A reservation of the specification changes as an event says. *)
Lemma reserved_step from s p a c : served (cmd p) = true →
  reserved (spec_access from s p).1 !! c = Some a ↔
  cmd p = LoadLockedReq ∧ contextId p = c ∧ mask (paddr p) = a ∨
  ¬ ends_reservation a c (p, (spec_access from s p).2) ∧ reserved s !! c = Some a.
Proof.
  intros Hs. destruct p as [k ? ? ? pa cx ? ? ? ?]. unfold ends_reservation, spec_access, release.
  destruct k; try discriminate Hs; cbn; rewrite ?map_lookup_filter_Some; cbn.
  - naive_solver.
  - naive_solver.
  - naive_solver.
  - rewrite lookup_insert_Some. naive_solver.
  - case_decide; cbn; rewrite ?map_lookup_filter_Some; naive_solver.
Qed.

Lemma spec_accesses_app from s ps qs : spec_accesses from s (ps ++ qs) =
  let r := spec_accesses from s ps in let r' := spec_accesses from r.1 qs in (r'.1, r.2 ++ r'.2).
Proof. revert s. induction ps as [|p ps IH]; intros s; cbn; [by destruct (spec_accesses from s qs)|]. by rewrite IH. Qed.
Lemma spec_accesses_length from s ps : length (spec_accesses from s ps).2 = length ps.
Proof. revert s. induction ps as [|p ps IH]; intros s; cbn; [done|]. by rewrite IH. Qed.

Lemma reserved_run from s ps a c : Forall (λ p, served (cmd p) = true) ps → reserved s = ∅ →
  reserved (spec_accesses from s ps).1 !! c = Some a ↔ holds_reservation a c (zip ps (spec_accesses from s ps).2).
Proof.
  intros Hs H0. induction ps as [|p ps IH] using rev_ind.
  - cbn. rewrite H0, lookup_empty. split; [done|]. by intros ([] & ? & ? & ? & _).
  - apply Forall_app in Hs as [Hs [Hp _]%Forall_cons]. rewrite spec_accesses_app. cbn.
    rewrite zip_with_app by (by rewrite spec_accesses_length). cbn. rewrite holds_snoc, (reserved_step _ _ _ _ _ Hp), IH by done. done.
Qed.


End reservations.

(** Two processors: both reserve the block at 16, the first stores to it, and the second fails;
    the byte is the one stored. *)
Definition demo_memory : t := mk 0 63 (Some (replicate 64 0)) [] [].
Definition demo_packet (c : Command) (a n v who : Z) : Pkt.t :=
  Pkt.mk c a n (replicate (Z.to_nat n) v) a who false false None false.
Definition demo_run : list Pkt.t :=
  [demo_packet LoadLockedReq 20 1 0 0; demo_packet LoadLockedReq 24 1 0 1; demo_packet StoreCondReq 20 1 7 0].


(** A store of 32 bytes that begins in the block at 0 leaves the reservation of the block at 16,
    which it overwrites. *)
Example wide_store_keeps_reservation : ∃ m1 rs m2 r,
  accesses demo_memory [demo_packet LoadLockedReq 20 1 0 1; demo_packet WriteReq 0 32 5 0] = Ok (m1, rs) ∧
  access m1 (demo_packet StoreCondReq 20 1 9 1) = Ok (m2, r) ∧ extraData r = Some 1.
Proof. do 4 eexists. split; [vm_compute; reflexivity|]. split; vm_compute; reflexivity. Qed.
