(* ===== verification/Packets.v ===== *)
(** * Functional accesses to packets (mem/packet.hh, packet.cc)

    A functional access to memory looks through the packets on their way: a write changes
    the data of a packet that overlaps it, a read takes data from it, until all of its bytes
    are known.  Addresses are 64-bit, sizes and offsets 32-bit. *)

From S2P Require Import Prelude Blocks.
Local Open Scope Z_scope.

Module Packet.

(** What [checkFunctional] uses of the packet of the access. *)
Record t := mk {
  addr : Z;
  size : Z;
  isRead : bool;
  isWrite : bool;
  isPrint : bool;
  isSecure : bool;
  data : option (list Z);
  bytesValid : list bool }.

Definition with_bytes (p : t) (l : list Z) (valid : list bool) : t :=
  mk (addr p) (size p) (isRead p) (isWrite p) (isPrint p) (isSecure p) (Some l) valid.

(** Where the bytes that a read and a value share begin in the value and in the read, and
    how many are copied. *)
Definition partial_overlap (func_start func_end val_start val_end size : Z) : outcome (Z * Z * Z) :=
  if decide (val_start < func_start ∧ val_end ≤ func_end) then
    Ok (s32 (func_start - val_start), 0, s32 (val_end - func_start))
  else if decide (func_start ≤ val_start ∧ func_end < val_end) then
    Ok (0, s32 (val_start - func_start), s32 (func_end - val_start))
  else if decide (func_start ≤ val_start ∧ val_end ≤ func_end) then
    Ok (0, s32 (val_start - func_start), size)
  else if decide (val_start < func_start ∧ func_end < val_end) then
    Ok (s32 (func_start - val_start), 0, s32 (func_end - func_start))
  else Err PanicFault.

(** [&&] over the elements, and the assignments of the middle loop. *)
Definition all_valid (l : list bool) : bool := forallb id l.
Definition mark_valid (l : list bool) (from n : Z) : outcome (list bool) :=
  mfold (λ l i, vset l i true) l (seqZ from n).

(** The result, the packet and the value after the call; [value] is the array behind
    [_data], [None] the null pointer. *)
Definition checkFunctional (p : t) (base : Z) (is_secure : bool) (vsize : Z) (value : option (list Z))
    : outcome (bool * t * option (list Z)) :=
  let func_start := addr p in
  let func_end := u64 (addr p + size p - 1) in
  let val_start := base in
  let val_end := u64 (base + vsize - 1) in
  if bool_decide (is_secure ≠ isSecure p) || bool_decide (val_end < func_start) ||
     bool_decide (func_end < val_start)
  then Ok (false, p, value)
  else if isPrint p then
    match value with None => Ok (false, p, None) | Some _ => Err AssertFail end
  else
    match value with
    | None => Ok (false, p, None)
    | Some bytes =>
        let offset := s32 (func_start - val_start) in
        if isRead p then
          dst ← from_option_or AssertFail (data p);
          if decide (val_start ≤ func_start ∧ func_end ≤ val_end) then
            src ← from_here bytes offset;
            l ← copy_in dst 0 src (size p);
            let valid := match bytesValid p with [] => replicate (Z.to_nat (size p)) true | v => v end in
            Ok (true, with_bytes p l valid, Some bytes)
          else
            o ← partial_overlap func_start func_end val_start val_end vsize;
            let '(val_offset, func_offset, overlap_size) := o in
            src ← from_here bytes val_offset;
            l ← copy_in dst func_offset src overlap_size;
            let valid := match bytesValid p with [] => replicate (Z.to_nat (size p)) false | v => v end in
            let before := all_valid (take (Z.to_nat func_offset) valid) in
            valid ← mark_valid valid func_offset overlap_size;
            let after := all_valid (drop (Z.to_nat (func_offset + overlap_size)) valid) in
            Ok (before && after, with_bytes p l valid, Some bytes)
        else if isWrite p then
          src ← from_option_or AssertFail (data p);
          bytes ← (if decide (0 ≤ offset)
                   then copy_in bytes offset src (u64 (Z.min func_end val_end - func_start + 1))
                   else src ← from_here src (- offset);
                        copy_in bytes 0 src (u64 (Z.min func_end val_end - val_start + 1)));
          Ok (false, p, Some bytes)
        else Err PanicFault
    end.

End Packet.

Import Packet.

(** ** What an access does to the bytes of a value *)

Section accesses.
Implicit Types (p : t) (base vsize : Z) (bytes : list Z).

(** The byte of an array that starts at [from] for address [a]. *)
Definition byte_at (from : Z) (l : list Z) (a : Z) : option Z :=
  if decide (from ≤ a) then l !! Z.to_nat (a - from) else None.

(** The access and the value lie in memory, within reach of an [int]. *)
Definition in_reach p base vsize bytes : Prop :=
  0 ≤ addr p ∧ 0 < size p ∧ addr p + size p ≤ 2 ^ 64 ∧ size p < 2 ^ 31 ∧
  0 ≤ base ∧ 0 < vsize ∧ base + vsize ≤ 2 ^ 64 ∧ vsize < 2 ^ 31 ∧ Z.of_nat (length bytes) = vsize.

(** The ends of the access and of the value. *)
Lemma ends p base vsize bytes : in_reach p base vsize bytes →
  u64 (addr p + size p - 1) = addr p + size p - 1 ∧ u64 (base + vsize - 1) = base + vsize - 1.
Proof. intros (?&?&?&?&?&?&?&?&?). unfold u64. split; apply uwrap_id; unfold fits; lia. Qed.

(** A functional write to a packet on its way replaces exactly the bytes that the two
    have in common, whichever way they overlap, and lets the access go on. *)
Theorem functional_write_overlap p base vsize bytes src : in_reach p base vsize bytes →
  isRead p = false → isWrite p = true → isPrint p = false →
  data p = Some src → Z.of_nat (length src) = size p →
  ∃ bytes', checkFunctional p base (isSecure p) vsize (Some bytes) = Ok (false, p, Some bytes') ∧
    length bytes' = length bytes ∧
    ∀ a, byte_at base bytes' a =
      if decide (addr p ≤ a < addr p + size p ∧ base ≤ a < base + vsize)
      then byte_at (addr p) src a else byte_at base bytes a.
Proof.
  intros Hin Hr Hw Hp Hd Hsrc. destruct (ends p base vsize bytes Hin) as [E1 E2].
  pose proof Hin as (?&?&?&?&?&?&?&?&?). unfold checkFunctional.
  rewrite E1, E2, Hr, Hw, Hp, Hd, (bool_decide_eq_false_2 (isSecure p ≠ isSecure p)) by (by intros []). cbn [orb].
  destruct (bool_decide (base + vsize - 1 < addr p) || bool_decide (addr p + size p - 1 < base)) eqn:Eov.
  { exists bytes. split; [done|]. split; [done|]. intros a. rewrite decide_False; [done|].
    apply orb_true_iff in Eov as [?%bool_decide_eq_true|?%bool_decide_eq_true]; lia. }
  apply orb_false_iff in Eov as [Hov1%bool_decide_eq_false Hov2%bool_decide_eq_false].
  rewrite s32_id by lia. cbn [from_option_or mbind outcome_bind]. case_decide as Hoff.
  - unfold u64. rewrite uwrap_id by (unfold fits; lia).
    destruct (copy_total bytes (addr p - base) src (Z.min (addr p + size p - 1) (base + vsize - 1) - addr p + 1))
      as (l & -> & Hlen & Hl); [lia..|]. exists l. split; [done|]. split; [done|]. intros a. unfold byte_at.
    case_decide as Hb; [|case_decide; [lia|done]]. rewrite Hl. case_decide; case_decide; try lia; [|done].
    rewrite decide_True by lia. f_equal. lia.
  - rewrite from_here_Ok by lia. cbn [mbind outcome_bind]. unfold u64. rewrite uwrap_id by (unfold fits; lia).
    destruct (copy_total bytes 0 (drop (Z.to_nat (- (addr p - base))) src)
      (Z.min (addr p + size p - 1) (base + vsize - 1) - base + 1)) as (l & -> & Hlen & Hl);
      [lia|lia|lia|rewrite length_drop; lia|]. exists l. split; [done|]. split; [done|]. intros a. unfold byte_at.
    case_decide as Hb; [|case_decide; [lia|done]]. rewrite Hl. case_decide; case_decide; try lia; [|done].
    rewrite decide_True by lia. rewrite lookup_drop. f_equal. lia.
Qed.

(** A functional read that lies within the data of a packet on its way takes its bytes
    from there and is done. *)
Theorem functional_read_covered p base vsize bytes dst : in_reach p base vsize bytes →
  isRead p = true → isPrint p = false → data p = Some dst → Z.of_nat (length dst) = size p →
  base ≤ addr p → addr p + size p ≤ base + vsize →
  ∃ p' l, checkFunctional p base (isSecure p) vsize (Some bytes) = Ok (true, p', Some bytes) ∧
    data p' = Some l ∧ ∀ a, addr p ≤ a < addr p + size p → byte_at (addr p) l a = byte_at base bytes a.
Proof.
  intros Hin Hr Hp Hd Hdst Hlo Hhi. destruct (ends p base vsize bytes Hin) as [E1 E2].
  pose proof Hin as (?&?&?&?&?&?&?&?&?). unfold checkFunctional.
  rewrite E1, E2, Hr, Hp, Hd, !bool_decide_eq_false_2 by (try (by intros []); lia). cbn [orb from_option_or mbind outcome_bind].
  rewrite s32_id, decide_True, from_here_Ok by lia. cbn [mbind outcome_bind].
  destruct (copy_total dst 0 (drop (Z.to_nat (addr p - base)) bytes) (size p)) as (l & -> & Hlen & Hl);
    [lia|lia|lia|rewrite length_drop; lia|]. cbn [mbind outcome_bind].
  eexists _, l. split; [done|]. split; [done|]. intros a Ha. unfold byte_at.
  rewrite !decide_True by lia. rewrite Hl, decide_True by lia. rewrite lookup_drop. f_equal. lia.
Qed.

Lemma mark_valid_Ok (n : nat) l from : 0 ≤ from → from + Z.of_nat n ≤ Z.of_nat (length l) →
  ∃ l', mark_valid l from (Z.of_nat n) = Ok l' ∧ length l' = length l ∧
  ∀ k : nat, l' !! k = if decide (from ≤ Z.of_nat k < from + Z.of_nat n) then Some true else l !! k.
Proof.
  unfold mark_valid. revert l from. induction n as [|n IH]; intros l from Hf Hn.
  { exists l. split; [done|]. split; [done|]. intros k. rewrite decide_False by lia. done. }
  rewrite seqZ_cons by lia. cbn [mfold]. rewrite (proj2 (vset_Ok l _ from true)) by (split; [lia|done]). cbn [mbind outcome_bind].
  replace (Z.pred (Z.of_nat (S n))) with (Z.of_nat n) by lia.
  destruct (IH (<[Z.to_nat from := true]> l) (Z.succ from)) as (l' & -> & Hlen & Hl); [lia|rewrite length_insert; lia|].
  rewrite length_insert in Hlen. exists l'. split; [done|]. split; [done|]. intros k. rewrite Hl.
  destruct (decide (Z.of_nat k = from)) as [<-|Hk].
  - rewrite (decide_False (P := Z.succ _ ≤ _ < _)), decide_True, Nat2Z.id, list_lookup_insert_eq by lia. done.
  - rewrite list_lookup_insert_ne by lia. case_decide; case_decide; try lia; done.
Qed.

(** A functional read that begins within the data of a packet and ends after it does
    not take the last byte of that data, although it is one of those it asks for: the byte
    keeps what the reader had in its place and counts as unknown. *)
Theorem partial_read_misses_byte p base vsize bytes dst : in_reach p base vsize bytes →
  isRead p = true → isPrint p = false → data p = Some dst → Z.of_nat (length dst) = size p → bytesValid p = [] →
  base < addr p → addr p ≤ base + vsize - 1 < addr p + size p - 1 →
  ∃ p' l valid, checkFunctional p base (isSecure p) vsize (Some bytes) = Ok (false, p', Some bytes) ∧
    data p' = Some l ∧ bytesValid p' = valid ∧
    (∀ a, addr p ≤ a < base + vsize - 1 → byte_at (addr p) l a = byte_at base bytes a) ∧
    byte_at (addr p) l (base + vsize - 1) = byte_at (addr p) dst (base + vsize - 1) ∧
    valid !! Z.to_nat (base + vsize - 1 - addr p) = Some false.
Proof.
  intros Hin Hr Hp Hd Hdst Hnone Hlo Hhi. destruct (ends p base vsize bytes Hin) as [E1 E2].
  pose proof Hin as (?&?&?&?&?&?&?&?&?). unfold checkFunctional.
  rewrite E1, E2, Hr, Hp, Hd, Hnone, !bool_decide_eq_false_2 by (try (by intros []); lia).
  cbn [orb from_option_or mbind outcome_bind]. rewrite decide_False by lia.
  unfold partial_overlap. rewrite decide_True, !s32_id by lia. cbn [mbind outcome_bind].
  rewrite from_here_Ok by lia. cbn [mbind outcome_bind].
  destruct (copy_total dst 0 (drop (Z.to_nat (addr p - base)) bytes) (base + vsize - 1 - addr p))
    as (l & -> & Hlen & Hl); [lia|lia|lia|rewrite length_drop; lia|]. cbn [mbind outcome_bind].
  destruct (mark_valid_Ok (Z.to_nat (base + vsize - 1 - addr p)) (replicate (Z.to_nat (size p)) false) 0)
    as (v & Hv & Hvlen & Hvl); [lia|rewrite length_replicate; lia|].
  rewrite Z2Nat.id in Hv, Hvl by lia. rewrite Hv. cbn [mbind outcome_bind].
  assert (v !! Z.to_nat (base + vsize - 1 - addr p) = Some false) as Hmiss.
  { rewrite Hvl, decide_False by lia. apply lookup_replicate. split; [done|lia]. }
  eexists _, l, v. split; [by rewrite Z.add_0_l, (drop_S _ _ _ Hmiss)|]. split_and!; [done|done| | |done].
  - intros a Ha. unfold byte_at. rewrite !decide_True by lia. rewrite Hl, decide_True, lookup_drop by lia. f_equal. lia.
  - unfold byte_at. rewrite !decide_True by lia. rewrite Hl, decide_False by lia. done.
Qed.

End accesses.

(** ** An access of four bytes that a packet of four bytes precedes by two *)

Definition access (read : bool) : t :=
  Packet.mk 18 4 read (negb read) false false (Some [11; 12; 13; 14]) [].

Definition access_in_reach read : in_reach (access read) 16 4 [1; 2; 3; 4].
Proof. repeat split; cbn; lia. Defined.

Lemma functional_write_overlap_witness :
  checkFunctional (access false) 16 false 4 (Some [1; 2; 3; 4]) = Ok (false, access false, Some [1; 2; 11; 12]) ∧
  ∃ bytes', checkFunctional (access false) 16 (isSecure (access false)) 4 (Some [1; 2; 3; 4]) =
    Ok (false, access false, Some bytes') ∧ length bytes' = 4%nat.
Proof.
  split; [by vm_compute|].
  destruct (functional_write_overlap (access false) 16 4 [1; 2; 3; 4] [11; 12; 13; 14] (access_in_reach false)
    eq_refl eq_refl eq_refl eq_refl eq_refl) as (l & H & Hl & _). exists l. exact (conj H Hl).
Defined.

Lemma partial_read_misses_byte_witness :
  checkFunctional (access true) 16 false 4 (Some [1; 2; 3; 4]) =
    Ok (false, Packet.with_bytes (access true) [3; 12; 13; 14] [true; false; false; false], Some [1; 2; 3; 4]) ∧
  ∃ p' l, checkFunctional (access true) 16 (isSecure (access true)) 4 (Some [1; 2; 3; 4]) =
    Ok (false, p', Some [1; 2; 3; 4]) ∧ data p' = Some l ∧ byte_at 18 l 19 = Some 12.
Proof.
  split; [by vm_compute|].
  destruct (partial_read_misses_byte (access true) 16 4 [1; 2; 3; 4] [11; 12; 13; 14] (access_in_reach true)
    eq_refl eq_refl eq_refl eq_refl eq_refl ltac:(cbn; lia) ltac:(cbn; lia)) as (p' & l & v & H & Hd & _ & _ & Hb & _).
  exists p', l. exact (conj H (conj Hd Hb)).
Defined.
