(* ===== verification/PacketQueues.v ===== *)
(** * Queued ports (mem/packet_queue.hh, packet_queue.cc)

    The memory port of a controller holds packets until their time has come and their
    receiver takes them.  The list is kept in the order of the times; one event of the
    simulator is scheduled for its head, unless a packet was refused, in which case the
    receiver calls [retry].  Ticks are 64-bit. *)

From stdpp Require Import sorting.
From S2P Require Import Prelude.
Local Open Scope Z_scope.

Definition MaxTick : Z := 2 ^ 64 - 1.

Module PacketQueue.

(** [sendEvent] is the tick the event is scheduled for; [drainManager] is set while the
    simulator waits for the queue to drain, and [drain_signals] counts the calls that end
    such a wait. *)
Record t (P : Type) := mk {
  transmitList : list (Z * P);
  waitingOnRetry : bool;
  sendEvent : option Z;
  drainManager : bool;
  drain_signals : Z }.
Arguments mk {P}.
Arguments transmitList {P}.
Arguments waitingOnRetry {P}.
Arguments sendEvent {P}.
Arguments drainManager {P}.
Arguments drain_signals {P}.

Definition create {P} : t P := mk [] false None false 0.

Section operations.
Context {P : Type} (isExpressSnoop : P → bool) (getAddr : P → Z).
Implicit Types (q : t P) (now when : Z).

Definition with_list q (l : list (Z * P)) : t P :=
  mk l (waitingOnRetry q) (sendEvent q) (drainManager q) (drain_signals q).
Definition with_waiting q (b : bool) : t P :=
  mk (transmitList q) b (sendEvent q) (drainManager q) (drain_signals q).
Definition with_event q (e : option Z) : t P :=
  mk (transmitList q) (waitingOnRetry q) e (drainManager q) (drain_signals q).

Definition size q : Z := Z.of_nat (length (transmitList q)).

Definition hasAddr q (addr : Z) : bool := existsb (λ p, bool_decide (getAddr p.2 = addr)) (transmitList q).

Definition deferredPacketReady now q : bool :=
  match transmitList q with [] => false | p :: _ => bool_decide (p.1 ≤ now) end.

Definition deferredPacketReadyTime q : Z :=
  match transmitList q with [] => MaxTick | p :: _ => p.1 end.

Definition schedSendEvent now q when : outcome (t P) :=
  if waitingOnRetry q then assert_that (bool_decide (sendEvent q = None));; Ok q
  else if decide (when ≠ MaxTick) then
    let when := Z.max when (u64 (now + 1)) in
    match sendEvent q with
    | None => Ok (with_event q (Some when))
    | Some w => Ok (if decide (when < w) then with_event q (Some when) else q)
    end
  else if drainManager q && bool_decide (length (transmitList q) = 0%nat) &&
          bool_decide (sendEvent q = None)
  then Ok (mk (transmitList q) (waitingOnRetry q) (sendEvent q) false (drain_signals q + 1))
  else Ok q.

(** [while (i != transmitList.end() && when >= i->tick) ++i; transmitList.emplace(i, ...)] *)
Fixpoint insert_before_later when (pkt : P) (l : list (Z * P)) : list (Z * P) :=
  match l with
  | [] => [(when, pkt)]
  | p :: l' => if decide (p.1 ≤ when) then p :: insert_before_later when pkt l' else (when, pkt) :: l
  end.

Definition schedSendTiming now q (pkt : P) when (force_order : bool) : outcome (t P) :=
  assert_that (bool_decide (now ≤ when));;
  assert_that (negb (isExpressSnoop pkt));;
  (if decide (100 < size q) then Err PanicFault else Ok tt);;
  let when := match last (transmitList q) with
              | Some back => if force_order && bool_decide (when < back.1) then back.1 else when
              | None => when
              end in
  match transmitList q, last (transmitList q) with
  | front :: rest, Some back =>
      if decide (when < front.1) then
        assert_that (negb force_order);;
        schedSendEvent now (with_list q ((when, pkt) :: transmitList q)) when
      else if decide (back.1 ≤ when) then Ok (with_list q (transmitList q ++ [(when, pkt)]))
      else
        assert_that (negb force_order);;
        Ok (with_list q (front :: insert_before_later when pkt rest))
  | _, _ => schedSendEvent now (with_list q [(when, pkt)]) when
  end.

(** [accepted] is what [sendTiming] answers; [nested] are the packets that the receiver
    makes the owner of the queue schedule before it answers. *)
Definition sendDeferredPacket now q (accepted : bool) (nested : list (P * Z * bool)) : outcome (t P) :=
  assert_that (negb (waitingOnRetry q));;
  assert_that (deferredPacketReady now q);;
  match transmitList q with
  | [] => Err OutOfBounds
  | dp :: l =>
      q ← mfold (λ q x, schedSendTiming now q x.1.1 x.1.2 x.2) (with_list q l) nested;
      let q := with_waiting q (negb accepted) in
      if accepted then schedSendEvent now q (deferredPacketReadyTime q)
      else Ok (with_list q (dp :: transmitList q))
  end.

Definition retry now q (accepted : bool) (nested : list (P * Z * bool)) : outcome (t P) :=
  assert_that (waitingOnRetry q);;
  sendDeferredPacket now (with_waiting q false) accepted nested.

(** The event, which is no longer scheduled when it runs. *)
Definition processSendEvent now q (accepted : bool) (nested : list (P * Z * bool)) : outcome (t P) :=
  let q := with_event q None in
  assert_that (negb (waitingOnRetry q));; sendDeferredPacket now q accepted nested.

Definition drain q : Z * t P :=
  match transmitList q with
  | [] => (0, q)
  | l => (1, mk l (waitingOnRetry q) (sendEvent q) true (drain_signals q))
  end.

End operations.

(** *** Functional accesses *)

Section functional.
Context {P F : Type} (check : F → P → outcome (bool * F * P)).

(** The packets up to the first that answers the access. *)
Fixpoint check_each (f : F) (l : list (Z * P)) : outcome (bool * F * list (Z * P)) :=
  match l with
  | [] => Ok (false, f, [])
  | x :: l =>
      r ← check f x.2;
      let '(found, f, k) := r in
      if found : bool then Ok (true, f, (x.1, k) :: l)
      else r ← check_each f l; Ok (r.1, (x.1, k) :: r.2)
  end.

Definition checkFunctional (q : t P) (f : F) : outcome (bool * F * t P) :=
  r ← check_each f (transmitList q); Ok (r.1, with_list q r.2).

End functional.
End PacketQueue.

Import PacketQueue.

(** ** The order of the list *)

Section order.
Context {P : Type} (isExpressSnoop : P → bool).
Implicit Types (q : t P) (l : list (Z * P)) (now when : Z).

Definition in_order l : Prop := StronglySorted (λ p p' : Z * P, p.1 ≤ p'.1) l.

Lemma in_order_front p l x : in_order (p :: l) → x ∈ l → p.1 ≤ x.1.
Proof. intros [_ H]%StronglySorted_inv Hx. rewrite Forall_forall in H. by apply H. Qed.

Lemma filter_full (Q : Z * P → Prop) `{∀ x, Decision (Q x)} l : (∀ x, x ∈ l → Q x) → filter Q l = l.
Proof.
  induction l as [|x l IH]; intros Hl; [done|]. rewrite filter_cons, decide_True by (apply Hl; set_solver).
  f_equal. apply IH. set_solver.
Qed.
Lemma filter_empty (Q : Z * P → Prop) `{∀ x, Decision (Q x)} l : (∀ x, x ∈ l → ¬ Q x) → filter Q l = [].
Proof.
  induction l as [|x l IH]; intros Hl; [done|]. rewrite filter_cons, decide_False by (apply Hl; set_solver).
  apply IH. set_solver.
Qed.

(** The specification of a place in the list: after all packets that are not later. *)
Definition stable_insert when (pkt : P) l : list (Z * P) :=
  filter (λ p, p.1 ≤ when) l ++ (when, pkt) :: filter (λ p, when < p.1) l.

Lemma insert_stable when pkt l : in_order l → insert_before_later when pkt l = stable_insert when pkt l.
Proof.
  unfold stable_insert. induction l as [|p l IH]; intros Hs; [done|]. cbn [insert_before_later].
  rewrite !filter_cons. case_decide as Hp.
  - rewrite (decide_False (P := when < p.1)) by lia. rewrite IH; [done|]. by apply StronglySorted_inv in Hs as [? _].
  - rewrite (decide_True (P := when < p.1)) by lia.
    assert (∀ x, x ∈ l → when < x.1) as Hl by (intros x Hx; pose proof (in_order_front p l x Hs Hx); lia).
    rewrite (filter_full (λ p, when < p.1)), filter_empty by (done || intros x Hx; specialize (Hl x Hx); lia). done.
Qed.

Lemma in_order_last l back : in_order l → last l = Some back → ∀ x, x ∈ l → x.1 ≤ back.1.
Proof.
  intros Hs (l' & ->)%last_Some x [Hx|Hx]%elem_of_app; [|by apply list_elem_of_singleton in Hx as ->].
  induction l' as [|p l' IH]; [by apply elem_of_nil in Hx|]. cbn in Hs.
  pose proof Hs as Hs'. apply StronglySorted_inv in Hs as [Hs _]. apply elem_of_cons in Hx as [->|Hx]; [|by apply IH].
  apply (in_order_front p (l' ++ [back])); [done|]. apply elem_of_app. right. by apply list_elem_of_singleton.
Qed.

Lemma stable_insert_order when pkt l : in_order l → in_order (stable_insert when pkt l).
Proof.
  intros Hs. rewrite <- insert_stable by done. induction l as [|p l IH]; cbn [insert_before_later].
  - by repeat constructor.
  - pose proof Hs as Hs'. apply StronglySorted_inv in Hs' as [Hs' Hp]. rewrite Forall_forall in Hp.
    case_decide as Hd.
    + constructor; [by apply IH|]. rewrite insert_stable by done. apply Forall_forall. unfold stable_insert.
      intros x [Hx|[->|Hx]%elem_of_cons]%elem_of_app; [|done|];
        apply list_elem_of_filter in Hx as [_ Hx]; by apply Hp.
    + constructor; [done|]. apply Forall_forall. intros x [->|Hx]%elem_of_cons; cbn; [lia|]. specialize (Hp x Hx). lia.
Qed.

(** Wherever it goes, the packet is added to the list. *)
Lemma insert_before_later_perm when (pkt : P) l : insert_before_later when pkt l ≡ₚ (when, pkt) :: l.
Proof.
  induction l as [|p l IH]; cbn; [done|]. case_decide; [|done]. rewrite IH. apply Permutation_swap.
Qed.

Lemma schedSendEvent_list now q when q' : schedSendEvent now q when = Ok q' → transmitList q' = transmitList q.
Proof.
  unfold schedSendEvent. destruct (waitingOnRetry q); [by intros (? & _ & [= <-])%bind_Ok|].
  case_decide; [destruct (sendEvent q); [case_decide|]; by intros [= <-]|]. destruct (_ && _); by intros [= <-].
Qed.

Lemma schedSendTiming_list now q pkt when force q' :
  schedSendTiming isExpressSnoop now q pkt when force = Ok q' →
  ∃ time, transmitList q' ≡ₚ (time, pkt) :: transmitList q.
Proof.
  unfold schedSendTiming. intros H1. do 3 apply bind_Ok in H1 as (? & _ & H1).
  set (time := match last (transmitList q) with Some _ => _ | None => _ end) in H1. exists time.
  destruct (transmitList q) as [|front rest] eqn:E; [by apply schedSendEvent_list in H1 as ->|].
  destruct (last (front :: rest)) as [back|] eqn:El; [|by apply last_None in El].
  case_decide; [apply bind_Ok in H1 as (? & _ & H1); by apply schedSendEvent_list in H1 as ->|].
  case_decide; [injection H1 as <-; cbn; symmetry; apply (Permutation_cons_append (front :: rest))|].
  apply bind_Ok in H1 as (? & _ & [= <-]). cbn. rewrite insert_before_later_perm. apply Permutation_swap.
Qed.

(** The time a packet is given: with [force_order], not before the packets in the list. *)
Definition slot_time (force_order : bool) l when : Z :=
  match last l with
  | Some back => if force_order then Z.max when back.1 else when
  | None => when
  end.

(** The list is in order, a refused packet is due and no event is scheduled, and otherwise
    the event is scheduled for a time at which the head is due, if there is a head, and
    not later than it has to be. *)
Definition queue_ok now q : Prop :=
  in_order (transmitList q) ∧ Forall (λ p, p.1 < MaxTick) (transmitList q) ∧
  if waitingOnRetry q then sendEvent q = None ∧ deferredPacketReady now q = true
  else match transmitList q with
       | [] => sendEvent q = None
       | p :: _ => ∃ w, sendEvent q = Some w ∧ p.1 ≤ w ∧ now ≤ w ≤ Z.max p.1 (now + 1)
       end.

Lemma schedSendEvent_Ok now q when : 0 ≤ now < MaxTick → when < MaxTick →
  (waitingOnRetry q = true → sendEvent q = None) →
  ∃ q', schedSendEvent now q when = Ok q' ∧ transmitList q' = transmitList q ∧
    waitingOnRetry q' = waitingOnRetry q ∧
    sendEvent q' = if waitingOnRetry q then None
                   else Some (match sendEvent q with
                              | Some w => Z.min w (Z.max when (now + 1))
                              | None => Z.max when (now + 1)
                              end).
Proof.
  intros Hn Hw He. unfold schedSendEvent. assert (u64 (now + 1) = now + 1) as ->.
  { apply uwrap_id. unfold fits, MaxTick in *. lia. }
  destruct (waitingOnRetry q) eqn:E.
  - rewrite He by done. exists q. split_and!; [done..|by rewrite He].
  - rewrite decide_True by lia. destruct (sendEvent q) as [w|] eqn:Ew.
    + eexists. split; [done|]. case_decide; cbn; [rewrite Z.min_r by lia|rewrite Z.min_l, Ew by lia]; by split_and!.
    + eexists. split; [done|]. by split_and!.
Qed.

Lemma stable_front when pkt front l : in_order (front :: l) → when < front.1 →
  stable_insert when pkt (front :: l) = (when, pkt) :: front :: l.
Proof. intros Hs Hw. rewrite <- insert_stable by done. cbn [insert_before_later]. by rewrite decide_False by lia. Qed.

Lemma stable_back when pkt l : (∀ x, x ∈ l → x.1 ≤ when) → stable_insert when pkt l = l ++ [(when, pkt)].
Proof.
  intros Hl. unfold stable_insert. rewrite filter_full by done. rewrite filter_empty; [done|].
  intros x Hx. specialize (Hl x Hx). lia.
Qed.

(** A packet goes to the head of the list. *)
Definition goes_first l when : bool := match l with [] => true | p :: _ => bool_decide (when < p.1) end.

Lemma sched_eq now q pkt when force_order : now ≤ when → in_order (transmitList q) →
  isExpressSnoop pkt = false → size q ≤ 100 →
  schedSendTiming isExpressSnoop now q pkt when force_order =
    let w := slot_time force_order (transmitList q) when in
    let q' := with_list q (stable_insert w pkt (transmitList q)) in
    if goes_first (transmitList q) w then schedSendEvent now q' w else Ok q'.
Proof.
  intros Hle Hs Hx Hsz. unfold schedSendTiming. rewrite bool_decide_eq_true_2, Hx by done.
  cbn [negb assert_that mbind outcome_bind]. rewrite decide_False by lia. cbn [mbind outcome_bind].
  assert (match last (transmitList q) with
    | Some back => if force_order && bool_decide (when < back.1) then back.1 else when
    | None => when end = slot_time force_order (transmitList q) when) as ->.
  { unfold slot_time. destruct (last _) as [b|]; [|done]. destruct force_order; [|done]. cbn.
    case_bool_decide; lia. }
  cbv zeta. set (w := slot_time _ _ _) in *. unfold goes_first.
  destruct (transmitList q) as [|front rest] eqn:El; [done|].
  destruct (last (front :: rest)) as [back|] eqn:Eb; [|by apply last_None in Eb].
  pose proof (in_order_last _ _ Hs Eb) as Hback. pose proof (Hback front ltac:(set_solver)) as Hfb.
  assert (force_order = true → back.1 ≤ w) as Hforce.
  { intros ->. unfold w, slot_time. rewrite Eb. lia. }
  destruct (decide (w < front.1)) as [Hf|Hf].
  - destruct force_order; [specialize (Hforce eq_refl); lia|]. cbn [negb assert_that mbind outcome_bind].
    by rewrite bool_decide_eq_true_2, stable_front.
  - rewrite bool_decide_eq_false_2 by done. case_decide as Hb.
    + rewrite stable_back; [done|]. intros x Hin. specialize (Hback x Hin). lia.
    + destruct force_order; [specialize (Hforce eq_refl); lia|]. cbn [negb assert_that mbind outcome_bind].
      rewrite <- insert_stable by done. cbn [insert_before_later]. by rewrite decide_True by lia.
Qed.

(** *** Runs *)

(** What the receiver does while it is sent a packet: it may make the owner schedule more
    packets if it accepts this one. *)
Definition answer (accepted : bool) (nested : list (P * Z * bool)) : Prop :=
  (accepted = false → nested = []) ∧ Forall (λ x, x.1.2 < MaxTick) nested.

(** Time passes, but not past the event; the owner schedules a packet; the event runs; the
    receiver asks for a retry; the simulator asks for the queue to drain. *)
Inductive queue_step : Z * t P → Z * t P → Prop :=
  | step_time now now' q : now ≤ now' < MaxTick → (∀ w, sendEvent q = Some w → now' ≤ w) →
      queue_step (now, q) (now', q)
  | step_sched now q pkt when force_order q' : slot_time force_order (transmitList q) when < MaxTick →
      schedSendTiming isExpressSnoop now q pkt when force_order = Ok q' → queue_step (now, q) (now, q')
  | step_event now q accepted nested q' : sendEvent q = Some now → answer accepted nested →
      processSendEvent isExpressSnoop now q accepted nested = Ok q' → queue_step (now, q) (now, q')
  | step_retry now q accepted nested q' : waitingOnRetry q = true → answer accepted nested →
      retry isExpressSnoop now q accepted nested = Ok q' → queue_step (now, q) (now, q')
  | step_drain now q : queue_step (now, q) (now, (drain q).2).

Definition run_ok (s : Z * t P) : Prop := 0 ≤ s.1 < MaxTick ∧ queue_ok s.1 s.2.

Lemma sched_Ok_inv now q pkt when force_order q' :
  schedSendTiming isExpressSnoop now q pkt when force_order = Ok q' →
  now ≤ when ∧ isExpressSnoop pkt = false ∧ size q ≤ 100.
Proof.
  unfold schedSendTiming. intros (u & H1%assert_that_Ok & H)%bind_Ok.
  apply bind_Ok in H as (u2 & H2%assert_that_Ok & H). apply bind_Ok in H as (u3 & H3 & _).
  apply bool_decide_eq_true in H1. apply negb_true_iff in H2. destruct (decide _); [done|]. split_and!; [done..|lia].
Qed.

Lemma stable_insert_head when pkt l : in_order l →
  head (stable_insert when pkt l) = if goes_first l when then Some (when, pkt) else head l.
Proof.
  intros Hs. rewrite <- insert_stable by done. destruct l as [|p l]; [done|]. cbn [insert_before_later goes_first].
  case_bool_decide; [by rewrite decide_False by lia|by rewrite decide_True by lia].
Qed.

(** While a packet is being sent: the event may have been scheduled for a new head. *)
Definition sending_ok now q : Prop :=
  in_order (transmitList q) ∧ Forall (λ p, p.1 < MaxTick) (transmitList q) ∧ waitingOnRetry q = false ∧
  ∀ w, sendEvent q = Some w → now ≤ w ∧ ∃ p l, transmitList q = p :: l ∧ p.1 ≤ w.

Lemma slot_time_bound force l when : Forall (λ p, p.1 < MaxTick) l → when < MaxTick →
  when ≤ slot_time force l when < MaxTick.
Proof.
  intros Hl Hw. unfold slot_time. destruct (last l) as [b|] eqn:E; [|lia].
  assert (b.1 < MaxTick); [|destruct force; lia]. rewrite Forall_forall in Hl. apply Hl.
  apply last_Some in E as (l' & ->). set_solver.
Qed.

Lemma stable_insert_bound w pkt l : w < MaxTick → Forall (λ p, p.1 < MaxTick) l →
  Forall (λ p, p.1 < MaxTick) (stable_insert w pkt l).
Proof.
  intros Hw. rewrite !Forall_forall. intros Hl x [Hx|[->|Hx]%elem_of_cons]%elem_of_app; [|done|];
    apply list_elem_of_filter in Hx as [_ Hx]; by apply Hl.
Qed.

Lemma stable_insert_cons w pkt l : ∃ p l', stable_insert w pkt l = p :: l'.
Proof. unfold stable_insert. destruct (filter _ l) as [|x l']; by eexists _, _. Qed.

Lemma sched_sending now q pkt when force : 0 ≤ now < MaxTick → sending_ok now q →
  now ≤ when < MaxTick → isExpressSnoop pkt = false → size q ≤ 100 →
  ∃ q', schedSendTiming isExpressSnoop now q pkt when force = Ok q' ∧ sending_ok now q' ∧
    transmitList q' = stable_insert (slot_time force (transmitList q) when) pkt (transmitList q).
Proof.
  intros Hn (Hs & Hm & Hw & He) Hwh Hx Hsz. rewrite sched_eq by (done || lia). cbv zeta.
  pose proof (slot_time_bound force (transmitList q) when Hm ltac:(lia)) as Hb.
  set (w := slot_time _ _ _) in *. set (l' := stable_insert w pkt (transmitList q)).
  pose proof (stable_insert_order w pkt _ Hs) as Hs'. fold l' in Hs'.
  pose proof (stable_insert_bound w pkt _ ltac:(lia) Hm) as Hm'. fold l' in Hm'.
  pose proof (stable_insert_head w pkt (transmitList q) Hs) as Hh. fold l' in Hh.
  destruct (stable_insert_cons w pkt (transmitList q)) as (p & l2 & El'). fold l' in El'.
  rewrite El' in Hh. cbn in Hh. destruct (goes_first _ _) eqn:Eg.
  - destruct (schedSendEvent_Ok now (with_list q l') w) as (q' & -> & Ht & Hwt & Hev); [lia|lia|cbn; congruence|].
    cbn in *. rewrite Hw in *. exists q'. split; [done|]. rewrite Ht. split; [|done].
    split_and!; [by rewrite Ht..|done|]. intros v Hv. rewrite Hev in Hv. injection Hv as <-.
    rewrite Ht. injection Hh as ->. destruct (sendEvent q) as [w0|] eqn:E0.
    + destruct (He w0 eq_refl) as (? & x & l & El & ?). split; [lia|].
      rewrite El' . exists (w, pkt), l2. split; [done|]. cbn. rewrite El in Eg. cbn in Eg.
      apply bool_decide_eq_true in Eg. lia.
    + split; [lia|]. rewrite El'. exists (w, pkt), l2. split; [done|]. cbn. lia.
  - eexists. split; [done|]. split; [|done]. split_and!; [done..|]. cbn. intros v Hv.
    destruct (He v Hv) as (? & x & l & El & ?). split; [done|]. rewrite El' .
    rewrite El in Hh. cbn in Hh. injection Hh as ->. by exists x, l2.
Qed.

(** What the owner is made to schedule. *)
Definition insert_all l (nested : list (P * Z * bool)) : list (Z * P) :=
  foldl (λ l x, stable_insert (slot_time x.2 l x.1.2) x.1.1 l) l nested.

Definition request_ok now (x : P * Z * bool) : Prop := now ≤ x.1.2 < MaxTick ∧ isExpressSnoop x.1.1 = false.

Lemma stable_insert_length w (pkt : P) l : in_order l → length (stable_insert w pkt l) = S (length l).
Proof. intros Hs. by rewrite <- insert_stable, (Permutation_length (insert_before_later_perm w pkt l)). Qed.

Lemma nested_sending now q nested : 0 ≤ now < MaxTick → sending_ok now q →
  Forall (request_ok now) nested → (nested = [] ∨ Z.of_nat (length (transmitList q) + length nested) ≤ 101) →
  ∃ q', mfold (λ q x, schedSendTiming isExpressSnoop now q x.1.1 x.1.2 x.2) q nested = Ok q' ∧
    sending_ok now q' ∧ transmitList q' = insert_all (transmitList q) nested.
Proof.
  intros Hn. revert q. induction nested as [|x nested IH]; intros q Hq Hr Hsz; [by exists q|].
  apply Forall_cons in Hr as [[Hx1 Hx2] Hr]. destruct Hsz as [|Hsz]; [done|]. cbn in Hsz.
  destruct (sched_sending now q x.1.1 x.1.2 x.2 Hn Hq Hx1 Hx2) as (q1 & H1 & Hq1 & Ht1).
  { unfold size. lia. }
  destruct (IH q1 Hq1 Hr) as (q2 & H2 & Hq2 & Ht2).
  { right. rewrite Ht1, stable_insert_length by apply Hq. lia. }
  exists q2. cbn [mfold]. rewrite H1. cbn [mbind outcome_bind]. rewrite Ht2, Ht1. by split_and!.
Qed.

(** The same from a run that went through. *)
Lemma nested_inv now q nested q' : 0 ≤ now < MaxTick → sending_ok now q →
  Forall (λ x, x.1.2 < MaxTick) nested →
  mfold (λ q x, schedSendTiming isExpressSnoop now q x.1.1 x.1.2 x.2) q nested = Ok q' →
  sending_ok now q' ∧ transmitList q' = insert_all (transmitList q) nested.
Proof.
  intros Hn. revert q. induction nested as [|x nested IH]; intros q Hq Hr H; [by injection H as <-|].
  apply Forall_cons in Hr as [Hx Hr]. cbn [mfold] in H. apply bind_Ok in H as (q1 & H1 & H).
  pose proof (sched_Ok_inv _ _ _ _ _ _ H1) as (Hle & Hxs & Hsz).
  destruct (sched_sending now q x.1.1 x.1.2 x.2 Hn Hq) as (q2 & H2 & Hq2 & Ht2); [lia|done|done|].
  rewrite H1 in H2. injection H2 as <-. destruct (IH q1 Hq2 Hr H) as [? ->]. by rewrite Ht2.
Qed.

Lemma next_event now q : 0 ≤ now < MaxTick → sending_ok now q →
  ∃ q', schedSendEvent now q (deferredPacketReadyTime q) = Ok q' ∧ queue_ok now q' ∧
    transmitList q' = transmitList q.
Proof.
  intros Hn (Hs & Hm & Hw & He). unfold deferredPacketReadyTime.
  destruct (transmitList q) as [|p l] eqn:El.
  - assert (sendEvent q = None) as E.
    { destruct (sendEvent q) as [w|]; [|done]. by destruct (He w eq_refl) as (_ & ? & ? & ? & _). }
    unfold schedSendEvent. rewrite Hw, decide_False by (intros H; by apply H). unfold queue_ok.
    destruct (_ && _); eexists; (split; [done|]); cbn; rewrite ?El, ?Hw, ?E; by repeat split.
  - pose proof Hm as [Hp _]%Forall_cons.
    destruct (schedSendEvent_Ok now q p.1 Hn Hp) as (q' & -> & Ht & Hwt & Hev); [congruence|].
    rewrite Hw in Hwt, Hev. exists q'. split; [done|]. split; [|congruence].
    unfold queue_ok. rewrite Ht, Hwt, Hev, El. split_and!; [done..|]. eexists. split; [done|].
    destruct (sendEvent q) as [w|]; [|lia]. destruct (He w eq_refl) as (? & x & l2 & [= <- <-] & ?). lia.
Qed.

(** What is sent is the head, which is due: a packet that is accepted leaves the list, and
    what was scheduled meanwhile joins it; a packet that is refused goes back. *)
Definition sends now (accepted : bool) (nested : list (P * Z * bool)) q q' : Prop :=
  ∃ dp l, transmitList q = dp :: l ∧ dp.1 ≤ now ∧
    transmitList q' = if accepted then insert_all l nested else transmitList q.

Lemma send_Ok now q accepted nested : 0 ≤ now < MaxTick → in_order (transmitList q) →
  waitingOnRetry q = false → sendEvent q = None → deferredPacketReady now q = true →
  Forall (λ p, p.1 < MaxTick) (transmitList q) → answer accepted nested →
  (∀ q', sendDeferredPacket isExpressSnoop now q accepted nested = Ok q' →
     queue_ok now q' ∧ sends now accepted nested q q') ∧
  (Forall (request_ok now) nested → nested = [] ∨ Z.of_nat (length (transmitList q) + length nested) ≤ 102 →
     ∃ q', sendDeferredPacket isExpressSnoop now q accepted nested = Ok q').
Proof.
  intros Hn Hs Hw He Hr Hm [Hrefuse Hnest]. unfold sendDeferredPacket, sends. rewrite Hw, Hr.
  cbn [negb assert_that mbind outcome_bind].
  unfold deferredPacketReady in Hr. destruct (transmitList q) as [|dp l] eqn:El; [done|].
  apply bool_decide_eq_true in Hr.
  pose proof Hs as Hs'. apply StronglySorted_inv in Hs' as [Hl _]. pose proof Hm as [_ Hml]%Forall_cons.
  assert (sending_ok now (with_list q l)) as Hq0 by (split_and!; [done..|]; cbn; congruence).
  destruct accepted; cbn [negb].
  - split.
    + intros q' (q1 & H1 & H)%bind_Ok. destruct (nested_inv now _ _ _ Hn Hq0 Hnest H1) as [Hq1 Ht1].
      assert (with_waiting q1 false = q1) as Eq by (destruct q1, Hq1 as (_ & _ & Hf & _); cbn in *; by subst).
      rewrite Eq in H. destruct (next_event now q1 Hn Hq1) as (q2 & H2 & Hok & Ht2). rewrite H in H2.
      injection H2 as <-. split; [done|]. exists dp, l. split_and!; [done|done|]. by rewrite Ht2, Ht1.
    + intros Hreq Hsz. destruct (nested_sending now _ nested Hn Hq0 Hreq) as (q1 & -> & Hq1 & _).
      { destruct Hsz as [?|Hsz]; [by left|right]. cbn in *. lia. }
      cbn [mbind outcome_bind].
      assert (with_waiting q1 false = q1) as -> by (destruct q1, Hq1 as (_ & _ & Hf & _); cbn in *; by subst).
      destruct (next_event now q1 Hn Hq1) as (q2 & H2 & _). by exists q2.
  - rewrite Hrefuse by done. cbn [mfold mbind outcome_bind]. split; [|by eexists].
    intros q' [= <-]. split.
    + split; [done|]. split; [done|]. cbn. split; [done|]. unfold deferredPacketReady. cbn.
      by apply bool_decide_eq_true.
    + exists dp, l. by split_and!.
Qed.

Lemma sched_ok now q pkt when force_order q' : 0 ≤ now < MaxTick → queue_ok now q →
  slot_time force_order (transmitList q) when < MaxTick →
  schedSendTiming isExpressSnoop now q pkt when force_order = Ok q' → queue_ok now q'.
Proof.
  intros Hn (Hs & Hm & Hq) Hw H. pose proof (sched_Ok_inv _ _ _ _ _ _ H) as (Hle & Hx & Hsz).
  rewrite sched_eq in H by done. cbv zeta in H. set (w := slot_time _ _ _) in *.
  set (l' := stable_insert w pkt (transmitList q)) in *.
  assert (in_order l' ∧ Forall (λ p, p.1 < MaxTick) l') as [Hs' Hm'].
  { split; [by apply stable_insert_order|]. rewrite Forall_forall in Hm |- *. unfold l', stable_insert.
    intros x [Hx'|[->|Hx']%elem_of_cons]%elem_of_app; [|done|];
      apply list_elem_of_filter in Hx' as [_ Hx']; by apply Hm. }
  assert (now ≤ w) as Hnw by (unfold w, slot_time; destruct (last _); [destruct force_order; lia|done]).
  assert (waitingOnRetry q = true → sendEvent q = None) as He by (intros E; by rewrite E in Hq; apply Hq).
  pose proof (stable_insert_head w pkt (transmitList q) Hs) as Hh. fold l' in Hh.
  assert (∃ p l2, l' = p :: l2) as (p & l2 & El').
  { destruct l' as [|p l2] eqn:E; [|by exists p, l2]. unfold l', stable_insert in E. by apply app_eq_nil in E as [_ ?]. }
  rewrite El' in Hh. cbn in Hh. destruct (goes_first _ _) eqn:Eg.
  - destruct (schedSendEvent_Ok now (with_list q l') w) as (q1 & H2 & Ht & Hwt & Hev); [done..|].
    rewrite H in H2. injection H2 as <-. cbn in *. unfold queue_ok, deferredPacketReady. rewrite Ht, Hwt, Hev, El'.
    rewrite El' in Hs', Hm'. injection Hh as ->. split; [done|]. split; [done|]. cbn.
    unfold deferredPacketReady in Hq. destruct (transmitList q) as [|x l], (waitingOnRetry q); [by destruct Hq| | |].
    + rewrite Hq. eexists. split; [done|]. lia.
    + destruct Hq as [_ Hr]. apply bool_decide_eq_true in Hr, Eg. lia.
    + destruct Hq as (w' & -> & Hp & Hnw'). eexists. split; [done|]. apply bool_decide_eq_true in Eg. lia.
  - injection H as <-. unfold queue_ok, deferredPacketReady in *. cbn. rewrite El' in *. split; [done|]. split; [done|].
    destruct (transmitList q) as [|x l]; [done|]. cbn in Hh. by injection Hh as ->.
Qed.

Lemma sched_total now q pkt when force : 0 ≤ now < MaxTick → queue_ok now q →
  now ≤ when < MaxTick → isExpressSnoop pkt = false → size q ≤ 100 →
  ∃ q', schedSendTiming isExpressSnoop now q pkt when force = Ok q' ∧
    transmitList q' = stable_insert (slot_time force (transmitList q) when) pkt (transmitList q).
Proof.
  intros Hn (Hs & Hm & Hq) Hw Hx Hsz. rewrite sched_eq by (done || lia). cbv zeta.
  pose proof (slot_time_bound force (transmitList q) when Hm ltac:(lia)) as Hb.
  destruct (goes_first _ _); [|by eexists]. set (l := stable_insert _ _ _).
  destruct (schedSendEvent_Ok now (with_list q l) (slot_time force (transmitList q) when))
    as (q' & -> & Ht & _); [lia|lia| |by exists q'].
  cbn. intros E. rewrite E in Hq. by destruct Hq.
Qed.

Lemma event_Ok now q accepted nested : 0 ≤ now < MaxTick → queue_ok now q → sendEvent q = Some now →
  answer accepted nested →
  (∀ q', processSendEvent isExpressSnoop now q accepted nested = Ok q' →
     queue_ok now q' ∧ sends now accepted nested q q') ∧
  (Forall (request_ok now) nested → nested = [] ∨ Z.of_nat (length (transmitList q) + length nested) ≤ 102 →
     ∃ q', processSendEvent isExpressSnoop now q accepted nested = Ok q').
Proof.
  intros Hn (Hs & Hm & Hq) He Ha. unfold processSendEvent.
  destruct (waitingOnRetry q) eqn:Ew; [destruct Hq; congruence|]. cbn [waitingOnRetry with_event]. rewrite Ew.
  cbn [negb assert_that mbind outcome_bind]. apply (send_Ok now (with_event q None)); [done..| |done|done].
  unfold deferredPacketReady. cbn. destruct (transmitList q) as [|p l]; [congruence|].
  destruct Hq as (w & Hw & Hp & _). rewrite He in Hw. injection Hw as <-. by apply bool_decide_eq_true.
Qed.

Lemma retry_Ok now q accepted nested : 0 ≤ now < MaxTick → queue_ok now q → waitingOnRetry q = true →
  answer accepted nested →
  (∀ q', retry isExpressSnoop now q accepted nested = Ok q' →
     queue_ok now q' ∧ sends now accepted nested q q') ∧
  (Forall (request_ok now) nested → nested = [] ∨ Z.of_nat (length (transmitList q) + length nested) ≤ 102 →
     ∃ q', retry isExpressSnoop now q accepted nested = Ok q').
Proof.
  intros Hn (Hs & Hm & Hq) Ew Ha. unfold retry. rewrite Ew in *. cbn [assert_that mbind outcome_bind].
  destruct Hq as [He Hr]. by apply (send_Ok now (with_waiting q false)).
Qed.

Lemma queue_step_ok s s' : run_ok s → queue_step s s' → run_ok s'.
Proof.
  intros [Hn Hq] Hstep. destruct Hstep as [now now' q Hle Hev|now q pkt when f q' Hw H|now q acc nested q' He Ha H
    |now q acc nested q' Hr Ha H|now q]; cbn in *.
  - split; [cbn; lia|]. destruct Hq as (Hs & Hm & Hq). split; [done|]. split; [done|]. cbn in *.
    unfold deferredPacketReady in *. destruct (waitingOnRetry q), (transmitList q) as [|p l].
    + by destruct Hq.
    + destruct Hq as [-> Hp]. split; [done|]. apply bool_decide_eq_true in Hp. apply bool_decide_eq_true. lia.
    + done.
    + destruct Hq as (w & Hw & Hp & _ & Hlate). exists w. specialize (Hev w Hw). split; [done|]. lia.
  - split; [done|]. by eapply sched_ok.
  - split; [done|]. by apply (event_Ok now q acc nested Hn Hq He Ha).
  - split; [done|]. by apply (retry_Ok now q acc nested Hn Hq Hr Ha).
  - split; [done|]. unfold drain, queue_ok, deferredPacketReady in *.
    destruct (transmitList q) eqn:E; cbn; by rewrite ?E.
Qed.

Lemma queue_run_ok now0 s : 0 ≤ now0 < MaxTick → rtc queue_step (now0, create) s → run_ok s.
Proof.
  intros Hn Hr. assert (run_ok (now0, create)) as H0
    by (split; [done|]; split; [constructor|by split; [constructor|]]).
  revert H0. induction Hr as [|s1 s2 s3 H12 _ IH]; [done|]. intros H1. apply IH. by eapply queue_step_ok.
Qed.

(** C34: scheduling a packet is insertion into a list sorted by time, after all packets
    that are not later; with [force_order] the time is put off to that of the last packet,
    so packets stay in the order they are scheduled.  The three places the code looks for
    are this one place. *)
Theorem sched_is_stable_insertion now q pkt when force_order q' :
  in_order (transmitList q) → schedSendTiming isExpressSnoop now q pkt when force_order = Ok q' →
  let w := slot_time force_order (transmitList q) when in
  transmitList q' = stable_insert w pkt (transmitList q) ∧ in_order (transmitList q') ∧
  (force_order = true → transmitList q' = transmitList q ++ [(w, pkt)]).
Proof.
  intros Hs H. pose proof (sched_Ok_inv _ _ _ _ _ _ H) as (Hle & Hx & Hsz). rewrite sched_eq in H by done.
  cbv zeta in *. set (w := slot_time _ _ _) in *.
  assert (transmitList q' = stable_insert w pkt (transmitList q)) as E.
  { destruct (goes_first _ _); [|by injection H as <-]. unfold schedSendEvent in H.
    destruct (waitingOnRetry _); [apply bind_Ok in H as (? & _ & [= <-]); done|].
    destruct (decide _); [destruct (sendEvent _); injection H as <-; [by case_decide|done]|].
    destruct (_ && _); by injection H as <-. }
  rewrite E. split; [done|]. split; [by apply stable_insert_order|]. intros ->. apply stable_back.
  intros x Hxl. unfold w, slot_time. destruct (last (transmitList q)) as [b|] eqn:Eb.
  - pose proof (in_order_last _ _ Hs Eb x Hxl). lia.
  - apply last_None in Eb. rewrite Eb in Hxl. by apply elem_of_nil in Hxl.
Qed.

(** C35: a queue fails no assert and forgets no packet, as long as a receiver that refuses
    a packet has not made the owner schedule another one meanwhile.  The list is always in
    the order of the times.  While it has packets, either a retry is owed for a head that
    is due, or the event is scheduled: not before the head is due, and at the latest one
    tick from now if it is due already.  Whenever the event runs or a retry comes, the
    head is due and is the packet sent: accepted, it leaves the list, and the packets that
    the receiver made the owner schedule are in their places in it (those with times from
    now on and that are no express snoops, as long as there is room for them); refused, the
    list stays as it is. *)
Theorem packet_queue_live now0 now q : 0 ≤ now0 < MaxTick →
  rtc queue_step (now0, create) (now, q) →
  in_order (transmitList q) ∧
  (∀ p l, transmitList q = p :: l →
     if waitingOnRetry q then p.1 ≤ now ∧ sendEvent q = None
     else ∃ w, sendEvent q = Some w ∧ p.1 ≤ w ∧ now ≤ w ≤ Z.max p.1 (now + 1)) ∧
  ∀ accepted nested, answer accepted nested → Forall (request_ok now) nested →
    nested = [] ∨ Z.of_nat (length (transmitList q) + length nested) ≤ 102 →
    (sendEvent q = Some now → ∃ q',
       processSendEvent isExpressSnoop now q accepted nested = Ok q' ∧ sends now accepted nested q q') ∧
    (waitingOnRetry q = true → ∃ q',
       retry isExpressSnoop now q accepted nested = Ok q' ∧ sends now accepted nested q q').
Proof.
  intros Hn0 Hr. destruct (queue_run_ok now0 (now, q) Hn0 Hr) as [Hn Hq]. cbn in *. split_and!.
  - apply Hq.
  - intros p l El. destruct Hq as (_ & _ & Hq). unfold deferredPacketReady in Hq. rewrite El in Hq.
    destruct (waitingOnRetry q); [|done]. destruct Hq as [? Hp]. by apply bool_decide_eq_true in Hp.
  - intros accepted nested Ha Hreq Hsz. split; intros He.
    + destruct (event_Ok now q accepted nested Hn Hq He Ha) as [Hs Ht].
      destruct (Ht Hreq Hsz) as [q' H']. exists q'. split; [done|]. by apply Hs.
    + destruct (retry_Ok now q accepted nested Hn Hq He Ha) as [Hs Ht].
      destruct (Ht Hreq Hsz) as [q' H']. exists q'. split; [done|]. by apply Hs.
Qed.

(** When the receiver refuses a packet after it made the owner schedule another one into
    the emptied queue, the event is scheduled while a retry is owed, and the event fails
    its assert. *)
Theorem reentrant_refusal_fails now q dp pkt when q' :
  transmitList q = [dp] → waitingOnRetry q = false → dp.1 ≤ now → 0 ≤ now < MaxTick → when < MaxTick →
  sendDeferredPacket isExpressSnoop now (with_event q None) false [(pkt, when, false)] = Ok q' →
  ∃ w, sendEvent q' = Some w ∧
    ∀ accepted nested, processSendEvent isExpressSnoop w q' accepted nested = Err AssertFail.
Proof.
  intros El Ew Hdp Hn Hm H. unfold sendDeferredPacket in H. apply bind_Ok in H as (? & _ & H).
  apply bind_Ok in H as (? & _ & H). cbn [transmitList with_event] in H. rewrite El in H.
  apply bind_Ok in H as (q1 & H1 & [= <-]). cbn [mfold] in H1.
  apply bind_Ok in H1 as (q2 & H1 & [= <-]). cbn in H1. pose proof (sched_Ok_inv _ _ _ _ _ _ H1) as (Hle & Hx & Hsz).
  rewrite sched_eq in H1 by (done || constructor). cbn in H1.
  destruct (schedSendEvent_Ok now (with_list (with_list (with_event q None) []) [(when, pkt)]) when)
    as (q3 & H2 & _ & _ & Hev); [done..|by intros|]. rewrite H1 in H2. injection H2 as <-. cbn in Hev. rewrite Ew in Hev.
  eexists. split; [exact Hev|]. done.
Qed.

End order.

(** ** Witnesses *)

Definition two_waiting : t Z := mk [(5, 1); (9, 2)] false (Some 5) false 0.

Lemma sched_is_stable_insertion_witness : ∃ q',
  schedSendTiming (λ _, false) 3 two_waiting 7 6 false = Ok q' ∧
  transmitList q' = [(5, 1); (6, 7); (9, 2)].
Proof.
  eexists. split; [reflexivity|].
  refine (proj1 (sched_is_stable_insertion (λ _, false) 3 two_waiting 7 6 false _ _ eq_refl)).
  repeat constructor; cbn; lia.
Defined.

(** A packet for tick 6 is scheduled at tick 3, and the clock advances to 6; the receiver
    makes the owner schedule another one for tick 9. *)
Lemma packet_queue_live_witness : ∃ q q', rtc (queue_step (λ _ : Z, false)) (3, create) (6, q) ∧
  processSendEvent (λ _, false) 6 q true [(8, 9, false)] = Ok q' ∧
  transmitList q = [(6, 7)] ∧ transmitList q' = [(9, 8)].
Proof.
  set (q := mk [(6, 7)] false (Some 6) false 0 : t Z).
  assert (rtc (queue_step (λ _ : Z, false)) (3, create) (6, q)) as Hr.
  { eapply rtc_l; [apply (step_sched _ 3 create 7 6 false q); [reflexivity|reflexivity]|].
    apply rtc_once. apply step_time; [unfold MaxTick; lia|]. intros w [= <-]. lia. }
  destruct (packet_queue_live (λ _, false) 3 6 q ltac:(unfold MaxTick; lia) Hr) as (_ & _ & H).
  destruct (H true [(8, 9, false)]) as [Hev _].
  - split; [done|]. by repeat constructor.
  - repeat constructor; cbn; unfold MaxTick; lia.
  - right. cbn. lia.
  - destruct (Hev eq_refl) as (q' & H1 & dp & l & [= <- <-] & _ & H2).
    exists q, q'. split; [exact Hr|]. split; [exact H1|]. split; [reflexivity|]. exact H2.
Defined.

Lemma reentrant_refusal_fails_witness : ∃ q' w,
  sendDeferredPacket (λ _, false) 5 (mk [(5, 1)] false None false 0) false [(2, 8, false)] = Ok q' ∧
  processSendEvent (λ _, false) w q' true [] = Err AssertFail.
Proof.
  eexists. destruct (reentrant_refusal_fails (λ _ : Z, false) 5 (mk [(5, 1)] false None false 0) (5, 1) 2 8 _
    eq_refl eq_refl ltac:(cbn; lia) ltac:(unfold MaxTick; lia) ltac:(unfold MaxTick; lia) eq_refl) as (w & _ & H).
  exists w. split; [reflexivity|]. apply H.
Defined.
