(* ===== verification/MemoryControl.v ===== *)
(** * Memory controller (structures/RubyMemoryControl.hh, RubyMemoryControl.cc, MemoryNode.hh)

    The controller of a memory of banks and ranks: requests wait in one input queue and then in
    the queues of their banks, and once in a cycle the banks are looked through in turn for a
    request that the busy counters allow.  The memory itself is that of [Memories]; its port is
    a [PacketQueues] queue. *)

From S2P Require Import Prelude Clocks Packets PacketQueues Memories.
Local Open Scope Z_scope.

Module MemoryNode.

Record t := mk {
  m_time : Z;
  m_msg_counter : Z;
  pkt : Pkt.t;
  m_addr : Z;
  m_is_mem_read : bool;
  m_is_dirty_wb : bool }.

Definition with_pkt (n : t) (p : Pkt.t) : t :=
  mk (m_time n) (m_msg_counter n) p (m_addr n) (m_is_mem_read n) (m_is_dirty_wb n).

End MemoryNode.

Module RubyMemoryControl.
Import MemCmd.

(** The parameters. *)
Record params := mkParams {
  m_banks_per_rank : Z;
  m_ranks_per_dimm : Z;
  m_dimms_per_channel : Z;
  m_bank_bit_0 : Z;
  m_rank_bit_0 : Z;
  m_dimm_bit_0 : Z;
  m_bank_queue_size : Z;
  m_bank_busy_time : Z;
  m_rank_rank_delay : Z;
  m_read_write_delay : Z;
  m_basic_bus_busy_time : Z;
  m_mem_ctl_latency : Z;
  m_refresh_period : Z;
  m_tFaw : Z;
  m_mem_random_arbitrate : Z;
  m_mem_fixed_delay : Z }.

(** The counters of the controller. *)
Record timers := mkTimers {
  m_bankBusyCounter : list Z;
  m_oldRequest : list Z;
  m_tfaw_shift : list Z;
  m_tfaw_count : list Z;
  m_busBusyCounter_Write : Z;
  m_busBusyCounter_ReadNewRank : Z;
  m_busBusyCounter_Basic : Z;
  m_busBusy_WhichRank : Z;
  m_roundRobin : Z;
  m_refresh_count : Z;
  m_need_refresh : Z;
  m_refresh_bank : Z;
  m_ageCounter : Z;
  m_idleCount : Z }.

(** [m_event] is the tick the event of the controller is scheduled for. *)
Record t := mk {
  mem : AbstractMemory.t;
  clk : ClockedObject.t;
  m_event : option Z;
  port : PacketQueue.t Pkt.t;
  m_msg_counter : Z;
  m_input_queue : list MemoryNode.t;
  m_response_queue : list MemoryNode.t;
  m_bankQueues : list (list MemoryNode.t);
  time : timers }.

Definition with_mem (s : t) (m : AbstractMemory.t) : t :=
  mk m (clk s) (m_event s) (port s) (m_msg_counter s) (m_input_queue s) (m_response_queue s) (m_bankQueues s) (time s).
Definition with_event (s : t) (e : option Z) : t :=
  mk (mem s) (clk s) e (port s) (m_msg_counter s) (m_input_queue s) (m_response_queue s) (m_bankQueues s) (time s).
Definition with_port (s : t) (q : PacketQueue.t Pkt.t) : t :=
  mk (mem s) (clk s) (m_event s) q (m_msg_counter s) (m_input_queue s) (m_response_queue s) (m_bankQueues s) (time s).
Definition with_input (s : t) (n : Z) (l : list MemoryNode.t) : t :=
  mk (mem s) (clk s) (m_event s) (port s) n l (m_response_queue s) (m_bankQueues s) (time s).
Definition with_queues (s : t) (l r : list MemoryNode.t) (b : list (list MemoryNode.t)) : t :=
  mk (mem s) (clk s) (m_event s) (port s) (m_msg_counter s) l r b (time s).
Definition with_time (s : t) (T : timers) : t :=
  mk (mem s) (clk s) (m_event s) (port s) (m_msg_counter s) (m_input_queue s) (m_response_queue s) (m_bankQueues s) T.

(** The number of activates that tFAW allows. *)
Definition ACTIVATE_PER_TFAW : Z := 4.
Definition IDLECOUNT_MAX_VALUE : Z := 1000.

Section controller.
Context (p : params).
Implicit Types (s : t) (T : timers) (bank rank addr now : Z).

Definition m_total_banks : Z := m_banks_per_rank p * m_ranks_per_dimm p * m_dimms_per_channel p.
Definition m_total_ranks : Z := m_ranks_per_dimm p * m_dimms_per_channel p.
Definition m_refresh_period_system : Z := m_refresh_period p `quot` m_total_banks.

(** The counters after [init] and [reset]. *)
Definition zeros (n : Z) : list Z := replicate (Z.to_nat n) 0.
Definition start_timers : timers :=
  mkTimers (zeros m_total_banks) (zeros m_total_banks) (zeros m_total_ranks) (zeros m_total_ranks) 0 0 0 0 0 1 0 0 0 0.

Definition init (m : AbstractMemory.t) (c : ClockedObject.t) : outcome t :=
  assert_that (bool_decide (m_tFaw p ≤ 62));;
  Ok (mk m c None PacketQueue.create 0 [] [] (replicate (Z.to_nat m_total_banks) []) start_timers).

(** The queues keep what they hold. *)
Definition reset s : outcome t :=
  assert_that (bool_decide (m_tFaw p ≤ 62));;
  Ok (with_time (with_input s 0 (m_input_queue s)) start_timers).

(** [(addr >> bit) & (n - 1)], an [int] *)
Definition field addr (bit n : Z) : outcome Z := x ← shr64 addr bit; Ok (s32 (Z.land x (u64 (n - 1)))).

Definition getBank addr : outcome Z :=
  dimm ← field addr (m_dimm_bit_0 p) (m_dimms_per_channel p);
  rank ← field addr (m_rank_bit_0 p) (m_ranks_per_dimm p);
  bank ← field addr (m_bank_bit_0 p) (m_banks_per_rank p);
  Ok (dimm * m_ranks_per_dimm p * m_banks_per_rank p + rank * m_banks_per_rank p + bank).

Definition getRank bank : outcome Z :=
  let rank := bank `quot` m_banks_per_rank p in
  assert_that (bool_decide (rank < m_ranks_per_dimm p * m_dimms_per_channel p));; Ok rank.

Definition enqueueMemRef now s (memRef : MemoryNode.t) : outcome t :=
  let n := s32 (m_msg_counter s + 1) in
  let memRef := MemoryNode.mk (MemoryNode.m_time memRef) n (MemoryNode.pkt memRef) (MemoryNode.m_addr memRef)
    (MemoryNode.m_is_mem_read memRef) (MemoryNode.m_is_dirty_wb memRef) in
  _ ← getBank (MemoryNode.m_addr memRef);
  let s := with_input s n (m_input_queue s ++ [memRef]) in
  Ok (match m_event s with None => with_event s (Some (ClockedObject.clockEdge now (clk s) 0)) | Some _ => s end).

(** The packet is accepted always. *)
Definition recvTimingReq now s (pkt : Pkt.t) : outcome t :=
  let arrival_time := ClockedObject.curCycle now (clk s) in
  let is_mem_read := Pkt.has IsRead pkt in
  r ← AbstractMemory.access (mem s) pkt;
  enqueueMemRef now (with_mem s r.1) (MemoryNode.mk arrival_time 0 r.2 (Pkt.addr pkt) is_mem_read (negb is_mem_read)).

Definition enqueueToDirectory now s (req : MemoryNode.t) (latency : Z) : outcome t :=
  let arrival_time := ClockedObject.clockEdge now (clk s) latency in
  let pkt := MemoryNode.pkt req in
  assert_that (Pkt.has IsResponse pkt);;
  q ← PacketQueue.schedSendTiming (λ _, false) now (port s) pkt arrival_time false;
  Ok (with_port s q).

(** [rnd] is what [random_mt.random(0, 100)] returns. *)
Definition queueReady s (rnd : Z) bank : outcome bool :=
  let T := time s in
  busy ← vget (m_bankBusyCounter T) bank;
  if bool_decide (0 < busy) && bool_decide (m_mem_fixed_delay p = 0) then Ok false
  else if bool_decide (2 ≤ m_mem_random_arbitrate p) && bool_decide (rnd < m_mem_random_arbitrate p) then Ok false
  else if decide (m_mem_fixed_delay p ≠ 0) then Ok true
  else
    old ← vget (m_oldRequest T) bank;
    if bool_decide (2 * m_bank_busy_time p < m_ageCounter T) && bool_decide (old = 0) then Ok false
    else if decide (m_busBusyCounter_Basic T = m_basic_bus_busy_time p) then Ok false
    else if decide (0 < m_busBusyCounter_Basic T) then Ok false
    else
      rank ← getRank bank;
      count ← vget (m_tfaw_count T) rank;
      if decide (ACTIVATE_PER_TFAW ≤ count) then Ok false
      else
        q ← vget (m_bankQueues s) bank;
        front ← from_option_or OutOfBounds (head q);
        let write := negb (MemoryNode.m_is_mem_read front) in
        if write && bool_decide (0 < m_busBusyCounter_Write T) then Ok false
        else if negb write && bool_decide (rank ≠ m_busBusy_WhichRank T) && bool_decide (0 < m_busBusyCounter_ReadNewRank T)
        then Ok false
        else Ok true.

(** [1 << n], an [int], as a 64-bit word *)
Definition int_bit (n : Z) : outcome Z := if decide (0 ≤ n < 32) then Ok (u64 (s32 (Z.shiftl 1 n))) else Err BadShift.

Definition markTfaw T rank : outcome timers :=
  if decide (m_tFaw p = 0) then Ok T
  else
    b ← int_bit (m_tFaw p - 1);
    shift ← vget (m_tfaw_shift T) rank;
    shifts ← vset (m_tfaw_shift T) rank (Z.lor shift b);
    count ← vget (m_tfaw_count T) rank;
    counts ← vset (m_tfaw_count T) rank (count + 1);
    Ok (mkTimers (m_bankBusyCounter T) (m_oldRequest T) shifts counts (m_busBusyCounter_Write T)
      (m_busBusyCounter_ReadNewRank T) (m_busBusyCounter_Basic T) (m_busBusy_WhichRank T) (m_roundRobin T)
      (m_refresh_count T) (m_need_refresh T) (m_refresh_bank T) (m_ageCounter T) (m_idleCount T)).

(** The refresh is made if it is the turn of the bank and nothing is in the way. *)
Definition issueRefresh T bank : outcome (bool * timers) :=
  if bool_decide (m_need_refresh T = 0) || bool_decide (m_refresh_bank T ≠ bank) then Ok (false, T)
  else
    busy ← vget (m_bankBusyCounter T) bank;
    if decide (0 < busy) then Ok (false, T)
    else if decide (0 < m_busBusyCounter_Basic T) then Ok (false, T)
    else
      rank ← getRank bank;
      count ← vget (m_tfaw_count T) rank;
      if decide (ACTIVATE_PER_TFAW ≤ count) then Ok (false, T)
      else
        let next := m_refresh_bank T + 1 in
        banks ← vset (m_bankBusyCounter T) bank (m_bank_busy_time p);
        T ← markTfaw (mkTimers banks (m_oldRequest T) (m_tfaw_shift T) (m_tfaw_count T) (m_basic_bus_busy_time p)
              (m_basic_bus_busy_time p) (m_basic_bus_busy_time p) (m_busBusy_WhichRank T) (m_roundRobin T)
              (m_refresh_count T) (m_need_refresh T - 1) (if decide (m_total_banks ≤ next) then 0 else next)
              (m_ageCounter T) (m_idleCount T)) rank;
        Ok (true, T).

(** The counters when a request to a bank is issued. *)
Definition reserve T bank rank (is_read : bool) : outcome timers :=
  old ← vset (m_oldRequest T) bank 0;
  T ← markTfaw (mkTimers (m_bankBusyCounter T) old (m_tfaw_shift T) (m_tfaw_count T) (m_busBusyCounter_Write T)
        (m_busBusyCounter_ReadNewRank T) (m_busBusyCounter_Basic T) (m_busBusy_WhichRank T) (m_roundRobin T)
        (m_refresh_count T) (m_need_refresh T) (m_refresh_bank T) (m_ageCounter T) (m_idleCount T)) rank;
  banks ← vset (m_bankBusyCounter T) bank (m_bank_busy_time p);
  let b := m_basic_bus_busy_time p in
  Ok (mkTimers banks (m_oldRequest T) (m_tfaw_shift T) (m_tfaw_count T)
    (if is_read then b + m_read_write_delay p else b) (if is_read then b + m_rank_rank_delay p else b) b rank
    (m_roundRobin T) (m_refresh_count T) (m_need_refresh T) (m_refresh_bank T) (m_ageCounter T) (m_idleCount T)).

(** The request that is issued, and the controller. *)
Definition issueRequest now s bank : outcome (MemoryNode.t * t) :=
  rank ← getRank bank;
  q ← vget (m_bankQueues s) bank;
  req ← from_option_or OutOfBounds (head q);
  queues ← vset (m_bankQueues s) bank (tail q);
  let s := with_queues s (m_input_queue s) (m_response_queue s) queues in
  s ← enqueueToDirectory now s req (u64 (m_mem_ctl_latency p + m_mem_fixed_delay p));
  T ← reserve (time s) bank rank (MemoryNode.m_is_mem_read req);
  Ok (req, with_time s T).

(** What happens to a bank in a cycle, as the debug output names it. *)
Inductive activate := Refresh (bank : Z) | Request (bank : Z) (req : MemoryNode.t).

(** *** A cycle *)

Definition tick_down (x : Z) : Z := if decide (0 < x) then x - 1 else x.

(** Time passes for the busy counters and the shift registers. *)
Definition count_down T : timers :=
  mkTimers (map tick_down (m_bankBusyCounter T)) (m_oldRequest T)
    (map (λ w, Z.shiftr w 1) (m_tfaw_shift T))
    (zip_with (λ w c, if Z.testbit w 0 then c - 1 else c) (m_tfaw_shift T) (m_tfaw_count T))
    (tick_down (m_busBusyCounter_Write T)) (tick_down (m_busBusyCounter_ReadNewRank T))
    (tick_down (m_busBusyCounter_Basic T)) (m_busBusy_WhichRank T) (m_roundRobin T) (m_refresh_count T)
    (m_need_refresh T) (m_refresh_bank T) (m_ageCounter T) (m_idleCount T).

Definition latch_refresh T : outcome timers :=
  let count := if decide (m_mem_fixed_delay p = 0) then m_refresh_count T - 1 else m_refresh_count T in
  let due := bool_decide (count = 0) in
  (if due then assert_that (bool_decide (m_need_refresh T < 10)) else Ok tt);;
  Ok (mkTimers (m_bankBusyCounter T) (m_oldRequest T) (m_tfaw_shift T) (m_tfaw_count T) (m_busBusyCounter_Write T)
    (m_busBusyCounter_ReadNewRank T) (m_busBusyCounter_Basic T) (m_busBusy_WhichRank T) (m_roundRobin T)
    (if due then m_refresh_period_system else count) (if due then m_need_refresh T + 1 else m_need_refresh T)
    (m_refresh_bank T) (m_ageCounter T) (m_idleCount T)).

(** A new batch of old requests when the last one is done. *)
Definition new_batch T (queues : list (list MemoryNode.t)) : timers :=
  let anyOld := existsb (λ o, bool_decide (o ≠ 0)) (m_oldRequest T) in
  mkTimers (m_bankBusyCounter T)
    (if anyOld then m_oldRequest T
     else zip_with (λ q o, match q with [] => o | _ => 1 end) queues (m_oldRequest T))
    (m_tfaw_shift T) (m_tfaw_count T) (m_busBusyCounter_Write T) (m_busBusyCounter_ReadNewRank T)
    (m_busBusyCounter_Basic T) (m_busBusy_WhichRank T) (m_roundRobin T) (m_refresh_count T) (m_need_refresh T)
    (m_refresh_bank T) (if anyOld then m_ageCounter T + 1 else 0) (m_idleCount T).

Definition with_roundRobin T (r : Z) : timers :=
  mkTimers (m_bankBusyCounter T) (m_oldRequest T) (m_tfaw_shift T) (m_tfaw_count T) (m_busBusyCounter_Write T)
    (m_busBusyCounter_ReadNewRank T) (m_busBusyCounter_Basic T) (m_busBusy_WhichRank T) r (m_refresh_count T)
    (m_need_refresh T) (m_refresh_bank T) (m_ageCounter T) (m_idleCount T).
Definition with_idle T (n : Z) : timers :=
  mkTimers (m_bankBusyCounter T) (m_oldRequest T) (m_tfaw_shift T) (m_tfaw_count T) (m_busBusyCounter_Write T)
    (m_busBusyCounter_ReadNewRank T) (m_busBusyCounter_Basic T) (m_busBusy_WhichRank T) (m_roundRobin T)
    (m_refresh_count T) (m_need_refresh T) (m_refresh_bank T) (m_ageCounter T) n.

(** One bank of the scan: its refresh and the head of its queue. *)
Definition scan_bank now (rnd : Z → Z) (x : list activate * t) (_ : Z) : outcome (list activate * t) :=
  let '(acts, s) := x in
  let next := m_roundRobin (time s) + 1 in
  let bank := if decide (m_total_banks ≤ next) then 0 else next in
  r ← issueRefresh (with_roundRobin (time s) bank) bank;
  let s := with_time s r.2 in
  let acts := if r.1 : bool then acts ++ [Refresh bank] else acts in
  q ← vget (m_bankQueues s) bank;
  match q with
  | [] => Ok (acts, s)
  | _ =>
      let s := with_time s (with_idle (time s) IDLECOUNT_MAX_VALUE) in
      ready ← queueReady s (rnd bank) bank;
      if ready : bool then r ← issueRequest now s bank; Ok (acts ++ [Request bank r.1], r.2) else Ok (acts, s)
  end.

(** At most one request moves from the input queue to the queue of its bank. *)
Definition move_input s : outcome t :=
  match m_input_queue s with
  | [] => Ok s
  | req :: rest =>
      let s := with_time s (with_idle (time s) IDLECOUNT_MAX_VALUE) in
      bank ← getBank (MemoryNode.m_addr req);
      q ← vget (m_bankQueues s) bank;
      if decide (Z.of_nat (length q) < m_bank_queue_size p) then
        queues ← vset (m_bankQueues s) bank (q ++ [req]);
        Ok (with_queues s rest (m_response_queue s) queues)
      else Ok s
  end.

(** [rr] is what [random_mt.random(0, m_total_banks - 1)] returns.  The activates of the cycle are
    in the order in which they were made. *)
Definition executeCycle now (rr : Z) (rnd : Z → Z) s : outcome (list activate * t) :=
  T ← latch_refresh (count_down (time s));
  let T := new_batch T (m_bankQueues s) in
  let T := if decide (m_mem_random_arbitrate p = 0) then T else with_roundRobin T rr in
  r ← mfold (scan_bank now rnd) ([], with_time s T) (seqZ 0 m_total_banks);
  s ← move_input r.2;
  Ok (r.1, s).

(** The event is not scheduled any more when it is processed. *)
Definition wakeup now (rr : Z) (rnd : Z → Z) s : outcome (list activate * t) :=
  r ← executeCycle now rr rnd (with_event s None);
  let '(acts, s) := r in
  let n := m_idleCount (time s) - 1 in
  let s := with_time s (with_idle (time s) n) in
  if decide (0 < n) then
    assert_that (bool_decide (m_event s = None));;
    Ok (acts, with_event s (Some (ClockedObject.clockEdge now (clk s) 1)))
  else Ok (acts, s).

Definition drain s : Z * t := (0, with_event s None).

(** *** Functional accesses *)

(** The packet of a functional access, with the bytes that are known. *)
Definition func : Type := Pkt.t * list bool.

(** [pkt->checkFunctional(other)] *)
Definition check (f : func) (k : Pkt.t) : outcome (bool * func * Pkt.t) :=
  let pk := f.1 in
  r ← Packet.checkFunctional
        (Packet.mk (Pkt.addr pk) (Pkt.size pk) (Pkt.has IsRead pk) (Pkt.has IsWrite pk) (Pkt.has IsPrint pk) false
          (Some (Pkt.data pk)) f.2)
        (Pkt.addr k) false (Pkt.size k) (if Pkt.has HasData k then Some (Pkt.data k) else None);
  let '(found, pk', v) := r in
  Ok (found, (Pkt.with_data pk (default (Pkt.data pk) (Packet.data pk')), Packet.bytesValid pk'),
    from_option (Pkt.with_data k) k v).

(** The nodes of a list up to the first that answers, or all of them with the number of those
    that did. *)
Fixpoint read_nodes (f : func) (l : list MemoryNode.t) : outcome (bool * func) :=
  match l with
  | [] => Ok (false, f)
  | n :: l => r ← check f (MemoryNode.pkt n); if r.1.1 : bool then Ok (true, r.1.2) else read_nodes r.1.2 l
  end.
Fixpoint write_nodes (f : func) (l : list MemoryNode.t) : outcome (Z * func * list MemoryNode.t) :=
  match l with
  | [] => Ok (0, f, [])
  | n :: l =>
      r ← check f (MemoryNode.pkt n);
      r' ← write_nodes r.1.2 l;
      Ok (Z.b2z r.1.1 + r'.1.1, r'.1.2, MemoryNode.with_pkt n r.2 :: r'.2)
  end.

Definition functionalRead s (f : func) : outcome (bool * func * t) :=
  r ← read_nodes f (m_input_queue s ++ m_response_queue s ++ concat (m_bankQueues s));
  if r.1 : bool then Ok (true, r.2, s)
  else a ← AbstractMemory.functionalAccess (mem s) r.2.1; Ok (true, (a.2, r.2.2), with_mem s a.1).

Definition functionalWrite s (f : func) : outcome (Z * func * t) :=
  r1 ← write_nodes f (m_input_queue s);
  r2 ← write_nodes r1.1.2 (m_response_queue s);
  r3 ← mfold (λ (x : Z * func * list (list MemoryNode.t)) q,
         r ← write_nodes x.1.2 q; Ok (x.1.1 + r.1.1, r.1.2, x.2 ++ [r.2])) (0, r2.1.2, []) (m_bankQueues s);
  a ← AbstractMemory.functionalAccess (mem s) r3.1.2.1;
  Ok (u32 (r1.1.1 + r2.1.1 + r3.1.1 + 1), (a.2, r3.1.2.2),
    with_mem (with_queues s r1.2 r2.2 r3.2) a.1).

(** [MemoryPort::recvFunctional] *)
Definition recvFunctional s (f : func) : outcome (func * t) :=
  r ← PacketQueue.checkFunctional check (port s) f;
  let s := with_port s r.2 in
  if r.1.1 : bool then Ok (r.1.2, s)
  else a ← functionalWrite s r.1.2; Ok (a.1.2, a.2).

End controller.
End RubyMemoryControl.
