(* ===== verification/MemoryTiming.v ===== *)
(** * The timing of the memory controller

    Which activates of banks the controller makes in which cycles: the distances between them,
    and the number of them in a window of time. *)

From S2P Require Import Prelude IntMath Clocks PacketQueues Memories MemoryControl.
Import RubyMemoryControl.
Local Open Scope Z_scope.

Section timing.
Context (p : params).
Implicit Types (T : timers) (a b : activate) (h : list (list activate)) (k : nat) (rank bank : Z).

(** The parameters for which the controller keeps time: no fixed delay, the bus busy for at
    least one cycle and for no less than the delays, and a window that fits in an [int]. *)
Definition timing_ok : Prop :=
  m_mem_fixed_delay p = 0 ∧ 1 ≤ m_basic_bus_busy_time p ∧
  0 ≤ m_read_write_delay p ≤ m_basic_bus_busy_time p ∧ 0 ≤ m_rank_rank_delay p ≤ m_basic_bus_busy_time p ∧
  0 ≤ m_tFaw p ≤ 31 ∧ 0 < m_banks_per_rank p ∧ 0 < m_ranks_per_dimm p ∧ 0 < m_dimms_per_channel p.

Definition bank_of a : Z := match a with Refresh b => b | Request b _ => b end.
Definition rank_of a : Z := bank_of a `div` m_banks_per_rank p.
Definition reads_memory a : bool := match a with Refresh _ => false | Request _ n => MemoryNode.m_is_mem_read n end.
Definition writes_memory a : bool := match a with Refresh _ => false | Request _ n => negb (MemoryNode.m_is_mem_read n) end.

(** How many cycles a later activate [b] has to be after [a]: the bus, the bank, the turn from
    reads to writes, and the change of the rank that drives the data bus. *)
Definition apart a b (d : Z) : Prop :=
  m_basic_bus_busy_time p ≤ d ∧
  (bank_of a = bank_of b → m_bank_busy_time p ≤ d) ∧
  (reads_memory a = true → writes_memory b = true → m_basic_bus_busy_time p + m_read_write_delay p ≤ d) ∧
  (reads_memory a = true → reads_memory b = true → rank_of a ≠ rank_of b →
   m_basic_bus_busy_time p + m_rank_rank_delay p ≤ d).

(** A history lists the activates of each cycle, the last cycle first. *)
Definition at_age h k a : Prop := ∃ l, h !! k = Some l ∧ a ∈ l.
Definition window : nat := Z.to_nat (m_tFaw p).
Definition activates rank h : nat := length (filter (λ a, rank_of a = rank) (concat h)).

(** A history that keeps the timing of the memory: at most one activate in a cycle, those of
    different cycles apart, and at most four of a rank in any window. *)
Definition legal h : Prop :=
  Forall (λ l : list activate, (length l ≤ 1)%nat) h ∧
  (∀ i j a b, (i < j)%nat → at_age h i b → at_age h j a → apart a b (Z.of_nat j - Z.of_nat i)) ∧
  (∀ i rank, (activates rank (take window (drop i h)) ≤ 4)%nat).

(** The counters agree with the history. *)
Record timely h T : Prop := {
  banks_len : Z.of_nat (length (m_bankBusyCounter T)) = m_total_banks p;
  ranks_len : Z.of_nat (length (m_tfaw_shift T)) = m_total_ranks p;
  counts_len : length (m_tfaw_count T) = length (m_tfaw_shift T);
  bus_time k a : at_age h k a → m_basic_bus_busy_time p ≤ m_busBusyCounter_Basic T + Z.of_nat k;
  bank_time k a x : at_age h k a → m_bankBusyCounter T !! Z.to_nat (bank_of a) = Some x →
    m_bank_busy_time p ≤ x + Z.of_nat k;
  write_time k a : at_age h k a → reads_memory a = true →
    m_basic_bus_busy_time p + m_read_write_delay p ≤ m_busBusyCounter_Write T + Z.of_nat k;
  read_time k a : at_age h k a → reads_memory a = true →
    m_basic_bus_busy_time p + m_rank_rank_delay p ≤ m_busBusyCounter_ReadNewRank T + Z.of_nat k ∧
    (m_busBusy_WhichRank T = rank_of a ∨
     m_basic_bus_busy_time p + m_rank_rank_delay p ≤ m_busBusyCounter_Basic T + Z.of_nat k);
  tfaw_time rank w c : 0 ≤ rank → m_tfaw_shift T !! Z.to_nat rank = Some w → m_tfaw_count T !! Z.to_nat rank = Some c →
    0 ≤ w < 2 ^ m_tFaw p ∧ c = Z.of_nat (activates rank (take window h)) ∧
    ∀ k, Z.of_nat k < m_tFaw p →
      Z.testbit w (m_tFaw p - 1 - Z.of_nat k) = true ↔ ∃ a, at_age h k a ∧ rank_of a = rank }.

(** *** Histories *)

Lemma at_age_cons h l k a : at_age (l :: h) k a ↔ match k with O => a ∈ l | S k => at_age h k a end.
Proof. unfold at_age. destruct k; cbn; naive_solver. Qed.

Lemma activates_app rank h h' : activates rank (h ++ h') = (activates rank h + activates rank h')%nat.
Proof. unfold activates. by rewrite concat_app, filter_app, length_app. Qed.
Lemma activates_cons rank l h :
  activates rank (l :: h) = (length (filter (λ a, rank_of a = rank) l) + activates rank h)%nat.
Proof. unfold activates. cbn. by rewrite filter_app, length_app. Qed.

Lemma activates_one rank l : (length l ≤ 1)%nat → (activates rank [l] ≤ 1)%nat ∧
  (activates rank [l] = 1%nat ↔ ∃ a, a ∈ l ∧ rank_of a = rank).
Proof.
  rewrite activates_cons. unfold activates. cbn. destruct l as [|a [|? ?]]; cbn; [|intros _|lia].
  - split; [lia|]. split; [lia|]. by intros (a & []%elem_of_nil & _).
  - case_decide as E; cbn; (split; [lia|]); (split; [|]); try lia.
    + intros _. exists a. split; [by apply list_elem_of_singleton|done].
    + intros (x & ->%list_elem_of_singleton & Hx). done.
Qed.

(** A window that ends one cycle earlier, for a window of at least one cycle. *)
Lemma activates_window rank h (n : nat) : activates rank (take (S n) h) =
  (activates rank (take n h) + activates rank (match h !! n with Some l => [l] | None => [] end))%nat.
Proof.
  destruct (h !! n) as [l|] eqn:E.
  - by rewrite (take_S_r _ _ _ E), activates_app.
  - apply lookup_ge_None in E. rewrite !take_ge by lia. unfold activates at 3. cbn. lia.
Qed.

Lemma legal_cons l h : legal (l :: h) ↔ legal h ∧ (length l ≤ 1)%nat ∧
  (∀ k a b, b ∈ l → at_age h k a → apart a b (Z.of_nat k + 1)) ∧
  (∀ rank, (activates rank (take window (l :: h)) ≤ 4)%nat).
Proof.
  unfold legal. rewrite Forall_cons. split.
  - intros ((Hl & Hf) & Ha & Hw). split_and!; [done| |intros i; apply (Hw (S i))|done| |apply (Hw 0%nat)].
    + intros i j a b Hij Hi Hj. replace (Z.of_nat j - Z.of_nat i) with (Z.of_nat (S j) - Z.of_nat (S i)) by lia.
      apply Ha; [lia|by apply at_age_cons..].
    + intros k a b Hb Hk. replace (Z.of_nat k + 1) with (Z.of_nat (S k) - Z.of_nat 0) by lia. apply Ha; [lia|by apply at_age_cons..].
  - intros ((Hf & Ha & Hw) & Hl & Hn & H0). split_and!; [done|done| |].
    + intros [|i] [|j] a b Hij Hi Hj; [lia| |lia|]; rewrite at_age_cons in Hi, Hj.
      * replace (Z.of_nat (S j) - Z.of_nat 0) with (Z.of_nat j + 1) by lia. by apply Hn.
      * replace (Z.of_nat (S j) - Z.of_nat (S i)) with (Z.of_nat j - Z.of_nat i) by lia. apply Ha; [lia|done..].
    + intros [|i] rank; [apply H0|apply Hw].
Qed.

Lemma legal_idle h : legal h → legal ([] :: h).
Proof.
  intros H. apply legal_cons. split_and!; [done|cbn; lia|intros k a b []%elem_of_nil|].
  intros rank. destruct window as [|n] eqn:E; [cbn; lia|]. cbn [take]. rewrite activates_cons. cbn.
  destruct H as (_ & _ & Hw). specialize (Hw 0%nat rank). rewrite drop_0, E, activates_window in Hw. lia.
Qed.

(** *** Time passes *)

Lemma tick_down_age x y (k : nat) : y ≤ x + Z.of_nat k → y ≤ tick_down x + Z.of_nat (S k).
Proof. unfold tick_down. case_decide; lia. Qed.

Lemma shift_down h w rank : 0 ≤ m_tFaw p → 0 ≤ w < 2 ^ m_tFaw p →
  (∀ k, Z.of_nat k < m_tFaw p → Z.testbit w (m_tFaw p - 1 - Z.of_nat k) = true ↔ ∃ a, at_age h k a ∧ rank_of a = rank) →
  0 ≤ Z.shiftr w 1 < 2 ^ m_tFaw p ∧
  ∀ k, Z.of_nat k < m_tFaw p →
    Z.testbit (Z.shiftr w 1) (m_tFaw p - 1 - Z.of_nat k) = true ↔ ∃ a, at_age ([] :: h) k a ∧ rank_of a = rank.
Proof.
  intros Ht Hw Hk. split.
  { rewrite Z.shiftr_div_pow2 by lia. pose proof (Z.div_le_upper_bound w (2 ^ 1) w ltac:(lia) ltac:(lia)).
    pose proof (Z.div_pos w (2 ^ 1) ltac:(lia) ltac:(lia)). lia. }
  intros k Hkt. rewrite Z.shiftr_spec by lia. destruct k as [|k].
  - replace (m_tFaw p - 1 - Z.of_nat 0 + 1) with (m_tFaw p) by lia. setoid_rewrite at_age_cons. split.
    + intros Hb. destruct (decide (w = 0)) as [->|]; [by rewrite Z.bits_0 in Hb|].
      rewrite Z.bits_above_log2 in Hb; [done|lia|]. apply Z.log2_lt_pow2; lia.
    + by intros (a & []%elem_of_nil & _).
  - replace (m_tFaw p - 1 - Z.of_nat (S k) + 1) with (m_tFaw p - 1 - Z.of_nat k) by lia. rewrite Hk by lia.
    by setoid_rewrite at_age_cons.
Qed.

Lemma count_down_window h w rank : 0 ≤ m_tFaw p → Forall (λ l : list activate, (length l ≤ 1)%nat) h →
  0 ≤ w < 2 ^ m_tFaw p →
  (∀ k, Z.of_nat k < m_tFaw p → Z.testbit w (m_tFaw p - 1 - Z.of_nat k) = true ↔ ∃ a, at_age h k a ∧ rank_of a = rank) →
  (if Z.testbit w 0 then Z.of_nat (activates rank (take window h)) - 1 else Z.of_nat (activates rank (take window h))) =
  Z.of_nat (activates rank (take window ([] :: h))).
Proof.
  intros Ht Hl Hw Hk. unfold window. destruct (Z.to_nat (m_tFaw p)) as [|n] eqn:En.
  - assert (m_tFaw p = 0) as E by lia. rewrite E in Hw. assert (w = 0) as -> by lia. by rewrite Z.bits_0.
  - specialize (Hk n ltac:(lia)). replace (m_tFaw p - 1 - Z.of_nat n) with 0 in Hk by lia.
    rewrite activates_window. cbn [take]. rewrite (activates_cons _ []), filter_nil. cbn [length].
    unfold at_age in Hk. destruct (h !! n) as [l|] eqn:El.
    + destruct (activates_one rank l) as [H1 H2]; [by eapply Forall_lookup_1 in Hl|].
      destruct (Z.testbit w 0).
      * destruct Hk as [(a & (l' & [= <-] & Ha) & Hr) _]; [done|]. rewrite (proj2 H2) by (by exists a). lia.
      * assert (activates rank [l] ≠ 1%nat); [|lia]. intros (a & Ha & Hr)%H2. cut (false = true); [done|]. apply Hk. eauto.
    + destruct (Z.testbit w 0); [|unfold activates; cbn; lia]. by destruct Hk as [(a & (l' & [=] & _) & _) _].
Qed.

Lemma timely_down h T : 0 ≤ m_tFaw p → Forall (λ l : list activate, (length l ≤ 1)%nat) h → timely h T →
  timely ([] :: h) (count_down T).
Proof.
  intros Ht Hl []. split; cbn -[take]; try done.
  - by rewrite length_map.
  - by rewrite length_map.
  - rewrite length_zip_with, length_map. lia.
  - intros [|k] a Hk%at_age_cons; [by apply elem_of_nil in Hk|]. apply tick_down_age. eauto.
  - intros [|k] a x Hk%at_age_cons Hx; [by apply elem_of_nil in Hk|].
    apply list_lookup_fmap_Some in Hx as (y & -> & Hy). apply tick_down_age. eauto.
  - intros [|k] a Hk%at_age_cons Hr; [by apply elem_of_nil in Hk|]. apply tick_down_age. eauto.
  - intros [|k] a Hk%at_age_cons Hr; [by apply elem_of_nil in Hk|]. destruct (read_time0 k a Hk Hr) as [H1 H2].
    split; [by apply tick_down_age|]. destruct H2; [by left|right; by apply tick_down_age].
  - intros rank w c Hr Hw Hc. apply list_lookup_fmap_Some in Hw as (w0 & -> & Hw0).
    apply lookup_zip_with_Some in Hc as (w1 & c0 & -> & Hw1 & Hc0). rewrite Hw0 in Hw1. injection Hw1 as <-.
    destruct (tfaw_time0 rank w0 c0 Hr Hw0 Hc0) as (Hb & -> & Hk). destruct (shift_down h w0 rank Ht Hb Hk) as [Hs Hs'].
    split; [done|]. split; [by apply count_down_window|done].
Qed.

(** *** An activate *)

(** What the controller checks before an activate. *)
Record ready T a : Prop := {
  ready_bank : 0 ≤ bank_of a < m_total_banks p;
  ready_busy : ∃ x, m_bankBusyCounter T !! Z.to_nat (bank_of a) = Some x ∧ x ≤ 0;
  ready_bus : m_busBusyCounter_Basic T ≤ 0;
  ready_tfaw : ∃ c, m_tfaw_count T !! Z.to_nat (rank_of a) = Some c ∧ c < 4;
  ready_write : writes_memory a = true → m_busBusyCounter_Write T ≤ 0;
  ready_read : reads_memory a = true → rank_of a = m_busBusy_WhichRank T ∨ m_busBusyCounter_ReadNewRank T ≤ 0 }.

(** The mark of an activate in the registers of its rank. *)
Definition marked T T' rank : Prop :=
  if decide (m_tFaw p = 0) then m_tfaw_shift T' = m_tfaw_shift T ∧ m_tfaw_count T' = m_tfaw_count T
  else ∃ w c, m_tfaw_shift T !! Z.to_nat rank = Some w ∧ m_tfaw_count T !! Z.to_nat rank = Some c ∧
    m_tfaw_shift T' = <[Z.to_nat rank := Z.lor w (2 ^ (m_tFaw p - 1))]> (m_tfaw_shift T) ∧
    m_tfaw_count T' = <[Z.to_nat rank := c + 1]> (m_tfaw_count T).

(** The counters after an activate. *)
Record activated T T' a : Prop := {
  act_bank : m_bankBusyCounter T' = <[Z.to_nat (bank_of a) := m_bank_busy_time p]> (m_bankBusyCounter T);
  act_mark : marked T T' (rank_of a);
  act_bus : m_busBusyCounter_Basic T' = m_basic_bus_busy_time p;
  act_write : m_busBusyCounter_Write T' =
    m_basic_bus_busy_time p + if reads_memory a then m_read_write_delay p else 0;
  act_read : m_busBusyCounter_ReadNewRank T' =
    m_basic_bus_busy_time p + if reads_memory a then m_rank_rank_delay p else 0;
  act_rank : m_busBusy_WhichRank T' = match a with Refresh _ => m_busBusy_WhichRank T | Request _ _ => rank_of a end }.

Lemma first_of_cycle l h T : timing_ok → timely (l :: h) T → m_busBusyCounter_Basic T ≤ 0 → l = [].
Proof.
  intros (_ & Hb & _) Ht H0. destruct l as [|a l]; [done|].
  pose proof (bus_time _ _ Ht 0 a ltac:(apply at_age_cons; by left)). lia.
Qed.

Lemma rank_range a : timing_ok → 0 ≤ bank_of a < m_total_banks p → 0 ≤ rank_of a < m_total_ranks p.
Proof.
  intros (_ & _ & _ & _ & _ & Hb & Hr & Hd) H. unfold rank_of, m_total_ranks, m_total_banks in *.
  split; [apply Z.div_pos; lia|]. apply Z.div_lt_upper_bound; nia.
Qed.

Lemma lor_bit w n j : 0 ≤ n → 0 ≤ j → Z.testbit (Z.lor w (2 ^ n)) j = (Z.testbit w j || bool_decide (n = j)).
Proof.
  intros Hn Hj. rewrite Z.lor_spec, Z.pow2_bits_eqb by done. f_equal. destruct (Z.eqb_spec n j); [by rewrite bool_decide_eq_true_2|by rewrite bool_decide_eq_false_2].
Qed.

Lemma tfaw_activate h T T' a rank w c : timing_ok → timely ([] :: h) T → ready T a → marked T T' (rank_of a) → 0 ≤ rank →
  m_tfaw_shift T' !! Z.to_nat rank = Some w → m_tfaw_count T' !! Z.to_nat rank = Some c →
  0 ≤ w < 2 ^ m_tFaw p ∧ c = Z.of_nat (activates rank (take window ([a] :: h))) ∧
  ∀ k, Z.of_nat k < m_tFaw p →
    Z.testbit w (m_tFaw p - 1 - Z.of_nat k) = true ↔ ∃ b, at_age ([a] :: h) k b ∧ rank_of b = rank.
Proof.
  intros Hp Ht Hr Hm Hrk Hw Hc. pose proof (rank_range a Hp (ready_bank _ _ Hr)) as Ha. destruct Hp as (_ & _ & _ & _ & HF & _).
  unfold marked in Hm. case_decide as E0.
  { destruct Hm as [E1 E2]. rewrite E1 in Hw. rewrite E2 in Hc. destruct (tfaw_time _ _ Ht rank w c Hrk Hw Hc) as (? & ? & _).
    split; [done|]. split; [|lia]. unfold window in *. by rewrite E0 in *. }
  destruct Hm as (w0 & c0 & Hw0 & Hc0 & E1 & E2). rewrite E1 in Hw. rewrite E2 in Hc.
  destruct (tfaw_time _ _ Ht (rank_of a) w0 c0 (proj1 Ha) Hw0 Hc0) as (Hb0 & Hn0 & Hk0).
  assert (∃ n, window = S n) as [n En] by (exists (Z.to_nat (m_tFaw p - 1)); unfold window; lia).
  rewrite En in *. cbn [take] in *. rewrite activates_cons in *. rewrite filter_nil in Hn0. cbn [length] in Hn0.
  destruct (decide (rank = rank_of a)) as [->|Hne].
  - rewrite list_lookup_insert_eq in Hw by (by eapply lookup_lt_Some). rewrite list_lookup_insert_eq in Hc by (by eapply lookup_lt_Some).
    injection Hw as <-. injection Hc as <-. rewrite filter_cons_True, filter_nil by done. cbn [length]. split; [|split].
    + apply fits_lor; [lia|done|]. split; [apply Z.pow_nonneg; lia|apply Z.pow_lt_mono_r; lia].
    + lia.
    + intros k Hk. rewrite lor_bit, orb_true_iff, Hk0, bool_decide_eq_true by lia. setoid_rewrite at_age_cons. destruct k as [|k].
      * split; [|right; lia]. intros _. exists a. split; [by apply list_elem_of_singleton|done].
      * split; [intros [?|?]; [done|lia]|by left].
  - assert (Z.to_nat rank ≠ Z.to_nat (rank_of a)) as Hnat by lia.
    rewrite list_lookup_insert_ne in Hw by done. rewrite list_lookup_insert_ne in Hc by done.
    destruct (tfaw_time _ _ Ht rank w c Hrk Hw Hc) as (Hb & Hn & Hk). rewrite En in Hn. cbn [take] in Hn.
    rewrite activates_cons, filter_nil in Hn. rewrite filter_cons_False, filter_nil by congruence. split_and!; [lia..|done|].
    intros k Hkt. rewrite Hk by done. setoid_rewrite at_age_cons. destruct k; [|done].
    split; [by intros (b & []%elem_of_nil & _)|]. by intros (b & ->%list_elem_of_singleton & ?).
Qed.

(** The activate is apart from those before it. *)
Lemma ready_apart h T a b k : timing_ok → timely ([] :: h) T → ready T b → at_age h k a → apart a b (Z.of_nat k + 1).
Proof.
  intros Hp Ht [Hb (x & Hx & Hx0) Hbus _ Hwr Hrd] Hk. destruct Hp as (_ & Hb1 & _).
  assert (at_age ([] :: h) (S k) a) as Hk' by (by apply at_age_cons).
  pose proof (bus_time _ _ Ht _ _ Hk') as H1. split; [lia|]. split; [|split].
  - intros E. rewrite <- E in Hx. pose proof (bank_time _ _ Ht _ _ _ Hk' Hx). lia.
  - intros Ha Hw. pose proof (write_time _ _ Ht _ _ Hk' Ha). specialize (Hwr Hw). lia.
  - intros Ha Hr Hne. destruct (read_time _ _ Ht _ _ Hk' Ha) as [H2 H3]. destruct (Hrd Hr) as [E|E]; [|lia].
    destruct H3 as [H3|H3]; [congruence|lia].
Qed.

Lemma timely_activate h T T' a : timing_ok → timely ([] :: h) T → ready T a → activated T T' a → timely ([a] :: h) T'.
Proof.
  intros Hp Ht Hr [A1 A2 A3 A4 A5 A6]. pose proof Hp as (_ & Hb & Hrw & Hrr & _).
  assert (∀ k b, at_age h k b → m_basic_bus_busy_time p ≤ Z.of_nat k + 1) as Hbus.
  { intros k b Hk. destruct (ready_apart h T b a k Hp Ht Hr Hk) as (? & _). lia. }
  assert (length (m_tfaw_shift T') = length (m_tfaw_shift T) ∧ length (m_tfaw_count T') = length (m_tfaw_count T)) as [L1 L2].
  { unfold marked in A2. case_decide; [by destruct A2 as [-> ->]|]. destruct A2 as (? & ? & _ & _ & -> & ->). by rewrite !length_insert. }
  split.
  - rewrite A1, length_insert. apply Ht.
  - rewrite L1. apply Ht.
  - rewrite L1, L2. apply Ht.
  - rewrite A3. intros [|k] b Hk%at_age_cons; lia.
  - intros k b x Hk Hx. rewrite A1 in Hx. destruct (decide (Z.to_nat (bank_of b) = Z.to_nat (bank_of a))) as [E|E].
    + rewrite E, list_lookup_insert_eq in Hx; [injection Hx as <-; lia|].
      destruct (ready_busy _ _ Hr) as (y & Hy & _). by eapply lookup_lt_Some.
    + rewrite list_lookup_insert_ne in Hx by done. apply at_age_cons in Hk. destruct k as [|k].
      * apply list_elem_of_singleton in Hk as ->. done.
      * eapply (bank_time _ _ Ht (S k) b x); [by apply at_age_cons|done].
  - rewrite A4. intros [|k] b Hk%at_age_cons Hrd; [|specialize (Hbus k b Hk)].
    + apply list_elem_of_singleton in Hk as ->. rewrite Hrd. lia.
    + destruct (reads_memory a); lia.
  - rewrite A3, A5. intros [|k] b Hk%at_age_cons Hrd; [|specialize (Hbus k b Hk)].
    + apply list_elem_of_singleton in Hk as ->. rewrite Hrd. split; [lia|]. left. rewrite A6. by destruct a.
    + destruct (reads_memory a); split; (try right); lia.
  - intros. by eapply tfaw_activate.
Qed.

Lemma legal_activate h T T' a : timing_ok → legal h → timely ([] :: h) T → ready T a → activated T T' a → legal ([a] :: h).
Proof.
  intros Hp Hl Ht Hr Ha. apply legal_cons. split_and!; [done|done| |].
  - intros k c b ->%list_elem_of_singleton Hk. by eapply ready_apart.
  - intros rank. pose proof (timely_activate h T T' a Hp Ht Hr Ha) as Ht'.
    destruct (decide (rank = rank_of a)) as [->|Hne].
    + destruct (ready_tfaw _ _ Hr) as (c & Hc & Hc4). pose proof (rank_range a Hp (ready_bank _ _ Hr)) as Hrk.
      assert (∃ w, m_tfaw_shift T !! Z.to_nat (rank_of a) = Some w) as [w Hw].
      { apply lookup_lt_is_Some. pose proof (counts_len _ _ Ht). apply lookup_lt_Some in Hc. lia. }
      destruct (tfaw_time _ _ Ht _ w c (proj1 Hrk) Hw Hc) as (_ & Hn & _). destruct window as [|n]; [cbn; lia|].
      cbn [take] in *. rewrite activates_cons in *. rewrite filter_nil in Hn. cbn [length] in Hn.
      rewrite filter_cons_True, filter_nil by done. cbn [length]. lia.
    + pose proof (legal_idle h Hl) as (_ & _ & Hw). specialize (Hw 0%nat rank). rewrite drop_0 in Hw.
      destruct window as [|n]; [cbn; lia|]. cbn [take] in *. rewrite activates_cons in *.
      rewrite filter_cons_False by congruence. done.
Qed.

(** *** The code *)

(** Only the named counters matter. *)
Lemma timely_same h T T' : timely h T → m_bankBusyCounter T' = m_bankBusyCounter T → m_tfaw_shift T' = m_tfaw_shift T →
  m_tfaw_count T' = m_tfaw_count T → m_busBusyCounter_Write T' = m_busBusyCounter_Write T →
  m_busBusyCounter_ReadNewRank T' = m_busBusyCounter_ReadNewRank T → m_busBusyCounter_Basic T' = m_busBusyCounter_Basic T →
  m_busBusy_WhichRank T' = m_busBusy_WhichRank T → timely h T'.
Proof. intros Ht E1 E2 E3 E4 E5 E6 E7. destruct Ht. split; rewrite ?E1, ?E2, ?E3, ?E4, ?E5, ?E6, ?E7; done. Qed.

Lemma int_bit_small n : 0 ≤ n < 31 → int_bit n = Ok (2 ^ n).
Proof.
  intros Hn. unfold int_bit. rewrite decide_True by lia. f_equal. rewrite Z.shiftl_1_l.
  assert (2 ^ n < 2 ^ 31) by (apply Z.pow_lt_mono_r; lia). assert (0 ≤ 2 ^ n) by (apply Z.pow_nonneg; lia).
  rewrite s32_id by lia. apply uwrap_id. unfold fits. lia.
Qed.

Lemma markTfaw_frame T rank T' : markTfaw p T rank = Ok T' → m_roundRobin T' = m_roundRobin T ∧ m_idleCount T' = m_idleCount T.
Proof.
  unfold markTfaw. case_decide; [by intros [= <-]|].
  intros (x & _ & (w & _ & (ws & _ & (c & _ & (cs & _ & [= <-])%bind_Ok)%bind_Ok)%bind_Ok)%bind_Ok)%bind_Ok. done.
Qed.

Lemma markTfaw_Ok T rank T' : timing_ok → markTfaw p T rank = Ok T' → marked T T' rank ∧
  m_bankBusyCounter T' = m_bankBusyCounter T ∧ m_busBusyCounter_Write T' = m_busBusyCounter_Write T ∧
  m_busBusyCounter_ReadNewRank T' = m_busBusyCounter_ReadNewRank T ∧ m_busBusyCounter_Basic T' = m_busBusyCounter_Basic T ∧
  m_busBusy_WhichRank T' = m_busBusy_WhichRank T.
Proof.
  intros (_ & _ & _ & _ & HF & _). unfold markTfaw, marked. case_decide; [by intros [= <-]|]. rewrite int_bit_small by lia.
  intros (x & [= <-] & (w & [_ Hw]%vget_Ok & (ws & [_ Hws]%vset_Ok &
    (c & [_ Hc]%vget_Ok & (cs & [_ Hcs]%vset_Ok & [= <-])%bind_Ok)%bind_Ok)%bind_Ok)%bind_Ok)%bind_Ok.
  cbn. split; [|done]. subst. by exists w, c.
Qed.

Lemma getRank_Ok bank r : timing_ok → 0 ≤ bank → getRank p bank = Ok r → r = bank `div` m_banks_per_rank p.
Proof.
  intros Hp Hb. unfold getRank. intros ([] & _ & [= <-])%bind_Ok. apply Z.quot_div_nonneg; [lia|].
  by destruct Hp as (_ & _ & _ & _ & _ & ? & _).
Qed.

Lemma issueRefresh_frame T bank r T' : issueRefresh p T bank = Ok (r, T') →
  m_roundRobin T' = m_roundRobin T ∧ m_idleCount T' = m_idleCount T.
Proof.
  unfold issueRefresh. destruct (_ || _); [by intros [= _ <-]|]. intros (x & _ & H)%bind_Ok.
  case_decide; [by injection H as _ <-|]. case_decide; [by injection H as _ <-|].
  apply bind_Ok in H as (rank & _ & (c & _ & H)%bind_Ok). case_decide; [by injection H as _ <-|].
  apply bind_Ok in H as (bs & _ & (T1 & H & [= _ <-])%bind_Ok). by apply markTfaw_frame in H.
Qed.

Lemma reserve_frame T bank rank rd T' : reserve p T bank rank rd = Ok T' →
  m_roundRobin T' = m_roundRobin T ∧ m_idleCount T' = m_idleCount T.
Proof.
  unfold reserve. intros (old & _ & (T1 & H & (bs & _ & [= <-])%bind_Ok)%bind_Ok)%bind_Ok. by apply markTfaw_frame in H.
Qed.

Lemma issueRefresh_Ok T bank r T' : timing_ok → 0 ≤ bank < m_total_banks p → issueRefresh p T bank = Ok (r, T') →
  if r : bool then ready T (Refresh bank) ∧ activated T T' (Refresh bank) else T' = T.
Proof.
  intros Hp Hb. unfold issueRefresh. destruct (_ || _); [by intros [= <- <-]|].
  intros (x & [_ Hx]%vget_Ok & H)%bind_Ok. case_decide; [by injection H as <- <-|]. case_decide; [by injection H as <- <-|].
  apply bind_Ok in H as (rank & Hr & H). apply getRank_Ok in Hr; [|done|lia]. apply bind_Ok in H as (c & [_ Hc]%vget_Ok & H).
  case_decide as Hc4; [by injection H as <- <-|].
  apply bind_Ok in H as (bs & [_ ->]%vset_Ok & (T1 & (M & E1 & E2 & E3 & E4 & E5)%markTfaw_Ok & [= <- <-])%bind_Ok); [|done].
  cbn in *. subst rank. split.
  - split; cbn; [done| |lia| |done|done].
    + exists x. split; [done|lia].
    + exists c. split; [done|]. unfold ACTIVATE_PER_TFAW in Hc4. lia.
  - split; cbn; [done|done|done|rewrite E2; cbn; lia|rewrite E3; cbn; lia|done].
Qed.

Lemma reserve_Ok T bank n T' : timing_ok → 0 ≤ bank →
  reserve p T bank (bank `div` m_banks_per_rank p) (MemoryNode.m_is_mem_read n) = Ok T' → activated T T' (Request bank n).
Proof.
  intros Hp Hb. unfold reserve.
  intros (old & _ & (T1 & (M & E1 & E2 & E3 & E4 & E5)%markTfaw_Ok & (bs & [_ ->]%vset_Ok & [= <-])%bind_Ok)%bind_Ok)%bind_Ok; [|done].
  cbn in *. split; cbn; try done; [by rewrite E1|destruct (MemoryNode.m_is_mem_read n); lia..].
Qed.

Lemma queueReady_Ok s rnd bank q : timing_ok → 0 ≤ bank < m_total_banks p → queueReady p s rnd bank = Ok true →
  m_bankQueues s !! Z.to_nat bank = Some q → ∃ n q', q = n :: q' ∧ ready (time s) (Request bank n).
Proof.
  intros Hp Hb H Hq. revert H. pose proof Hp as (Hfix & _). unfold queueReady. rewrite Hfix.
  intros (x & [_ Hx]%vget_Ok & H)%bind_Ok. destruct (bool_decide (0 < x)) eqn:Ex; [done|]. cbn [andb] in H.
  apply bool_decide_eq_false in Ex. destruct (_ && _) in H; [done|]. rewrite decide_False in H by (by intros []).
  apply bind_Ok in H as (old & _ & H). destruct (_ && _) in H; [done|]. case_decide; [done|]. case_decide as Hbus; [done|].
  apply bind_Ok in H as (rank & Hr & H). apply getRank_Ok in Hr; [|done|lia]. apply bind_Ok in H as (c & [_ Hc]%vget_Ok & H).
  case_decide as Hc4; [done|]. apply bind_Ok in H as (q' & [_ Hq']%vget_Ok & H). rewrite Hq in Hq'. injection Hq' as <-.
  apply bind_Ok in H as (n & Hn%from_option_or_Ok & H). destruct q as [|n' q]; [done|]. injection Hn as ->.
  exists n, q. split; [done|]. subst rank. unfold ACTIVATE_PER_TFAW in Hc4.
  split; cbn; [done|exists x; split; [done|lia]|lia|exists c; split; [done|lia]| |].
  - intros Hw. rewrite Hw in H. cbn [andb] in H. case_bool_decide; [done|]. lia.
  - intros Hw. rewrite Hw in H. cbn [negb andb] in H. unfold rank_of. cbn.
    destruct (decide (bank `div` m_banks_per_rank p = m_busBusy_WhichRank (time s))) as [|Hne]; [by left|right].
    rewrite (bool_decide_eq_true_2 _ Hne) in H. cbn [andb] in H. case_bool_decide; [done|]. lia.
Qed.

(** *** The scan of the banks *)

Lemma issueRequest_Ok now s bank n s' : issueRequest p now s bank = Ok (n, s') → ∃ rank q T',
  getRank p bank = Ok rank ∧ 0 ≤ bank ∧ m_bankQueues s !! Z.to_nat bank = Some (n :: q) ∧
  reserve p (time s) bank rank (MemoryNode.m_is_mem_read n) = Ok T' ∧ time s' = T' ∧
  m_bankQueues s' = <[Z.to_nat bank := q]> (m_bankQueues s) ∧ m_input_queue s' = m_input_queue s ∧
  m_event s' = m_event s ∧ clk s' = clk s.
Proof.
  unfold issueRequest. intros (rank & Hr & (q & [Hb Hq]%vget_Ok & (req & Hn%from_option_or_Ok & (qs & [_ ->]%vset_Ok & H)%bind_Ok)%bind_Ok)%bind_Ok)%bind_Ok.
  destruct q as [|n' q]; [done|]. injection Hn as ->.
  apply bind_Ok in H as (s1 & ([] & _ & (pq & _ & [= <-])%bind_Ok)%bind_Ok & (T' & HT & [= -> <-])%bind_Ok).
  by exists rank, q, T'.
Qed.

(** The next bank of the scan. *)
Definition next_bank s : Z := let next := m_roundRobin (time s) + 1 in if decide (m_total_banks p ≤ next) then 0 else next.

(** What the scan does at a bank: a refresh or not, and then a request or not. *)
Lemma scan_bank_Ok now rnd acts s i acts' s' : scan_bank p now rnd (acts, s) i = Ok (acts', s') →
  ∃ r T1 q, issueRefresh p (with_roundRobin (time s) (next_bank s)) (next_bank s) = Ok (r, T1) ∧
    0 ≤ next_bank s ∧ m_bankQueues s !! Z.to_nat (next_bank s) = Some q ∧
    let acts1 := if r : bool then acts ++ [Refresh (next_bank s)] else acts in
    (q = [] ∧ acts' = acts1 ∧ s' = with_time s T1 ∨
     let s1 := with_time s (with_idle T1 IDLECOUNT_MAX_VALUE) in
     q ≠ [] ∧ ∃ go : bool, queueReady p s1 (rnd (next_bank s)) (next_bank s) = Ok go ∧
       if go then ∃ n, issueRequest p now s1 (next_bank s) = Ok (n, s') ∧ acts' = acts1 ++ [Request (next_bank s) n]
       else acts' = acts1 ∧ s' = s1).
Proof.
  unfold scan_bank. fold (next_bank s). intros ([r T1] & Hr & (q & [H0 Hq]%vget_Ok & H)%bind_Ok)%bind_Ok. cbn in *.
  exists r, T1, q. do 3 (split; [done|]). destruct q as [|n q].
  - left. by injection H as <- <-.
  - right. split; [done|]. apply bind_Ok in H as (b & Hb & H). exists b. split; [done|]. destruct b.
    + by apply bind_Ok in H as ([n' s2] & Hn & [= <- <-]); exists n'.
    + by injection H as <- <-.
Qed.

Definition scanning h (x : list activate * t) : Prop :=
  timely (x.1 :: h) (time x.2) ∧ legal (x.1 :: h) ∧ 0 ≤ m_roundRobin (time x.2) < m_total_banks p.

Lemma next_bank_range s : timing_ok → 0 ≤ m_roundRobin (time s) < m_total_banks p → 0 ≤ next_bank s < m_total_banks p.
Proof. intros _ H. unfold next_bank. case_decide; lia. Qed.

(** An activate in a cycle is its first. *)
Lemma scanning_activate h acts T T' a : timing_ok → timely (acts :: h) T → legal (acts :: h) → ready T a →
  activated T T' a → timely ((acts ++ [a]) :: h) T' ∧ legal ((acts ++ [a]) :: h).
Proof.
  intros Hp Ht Hl Hr Ha. pose proof (first_of_cycle _ _ _ Hp Ht (ready_bus _ _ Hr)) as ->.
  split; [by eapply timely_activate|]. eapply legal_activate; try done. by apply legal_cons in Hl as [? _].
Qed.

Lemma scan_bank_inv now rnd h x i x' : timing_ok → scan_bank p now rnd x i = Ok x' → scanning h x → scanning h x'.
Proof.
  destruct x as [acts s], x' as [acts' s']. intros Hp H (Ht & Hl & Hrr). cbn [fst snd] in *.
  apply (scan_bank_Ok now rnd acts s i) in H as (r & T1 & q & Hr & _ & Hq & H). pose proof (next_bank_range s Hp Hrr) as Hb.
  destruct (issueRefresh_frame _ _ _ _ Hr) as [E1 _]. cbn in E1. pose proof (issueRefresh_Ok _ _ _ _ Hp Hb Hr) as H1.
  assert (timely ((if r then acts ++ [Refresh (next_bank s)] else acts) :: h) T1 ∧
          legal ((if r then acts ++ [Refresh (next_bank s)] else acts) :: h)) as [Ht1 Hl1].
  { destruct r; [destruct H1 as [Hy Ha]|subst T1; split; [by eapply timely_same|done]].
    apply (scanning_activate h acts (with_roundRobin (time s) (next_bank s))); [done|by eapply timely_same|done..]. }
  destruct H as [(-> & -> & ->)|(Hne & b & Hrd & H)]; [split_and!; cbn; [done|done|lia..]|].
  assert (timely ((if r then acts ++ [Refresh (next_bank s)] else acts) :: h) (with_idle T1 IDLECOUNT_MAX_VALUE)) as Ht2
    by (by eapply timely_same).
  destruct b; [|destruct H as [-> ->]; split_and!; cbn; [done|done|lia..]].
  destruct H as (n & Hi & ->). apply issueRequest_Ok in Hi as (rank & q' & T' & Hrk & _ & Hq' & Hres & HT & _).
  cbn in Hq', Hres. rewrite Hq in Hq'. injection Hq' as ->.
  destruct (queueReady_Ok _ _ _ (n :: q') Hp Hb Hrd Hq) as (n1 & q1 & [= <- <-] & Hready). cbn in Hready.
  apply getRank_Ok in Hrk as ->; [|done|lia]. destruct (reserve_frame _ _ _ _ _ Hres) as [E2 _].
  apply reserve_Ok in Hres as Hact; [|done|lia]. subst T'.
  destruct (scanning_activate h _ _ (time s') (Request (next_bank s) n) Hp Ht2 Hl1 Hready Hact) as [? ?].
  cbn in E2. split_and!; cbn; [done|done|lia..].
Qed.

(** *** Runs *)

(** A cycle keeps the timing. *)
Lemma executeCycle_timely now rr rnd h s acts s' : timing_ok →
  (m_mem_random_arbitrate p ≠ 0 → 0 ≤ rr < m_total_banks p) →
  timely h (time s) → legal h → 0 ≤ m_roundRobin (time s) < m_total_banks p →
  executeCycle p now rr rnd s = Ok (acts, s') →
  timely (acts :: h) (time s') ∧ legal (acts :: h) ∧ 0 ≤ m_roundRobin (time s') < m_total_banks p.
Proof.
  intros Hp Hrand Ht Hl Hrr. unfold executeCycle. intros (T1 & HT1 & (x & Hx & (s1 & Hs1 & [= <- <-])%bind_Ok)%bind_Ok)%bind_Ok.
  assert (scanning h x) as (Ht2 & Hl2 & Hrr2).
  { eapply (mfold_inv (scanning h)); [| |exact Hx].
    - intros y i y' _ Hy H. by eapply scan_bank_inv.
    - pose proof Hp as (_ & _ & _ & _ & HF & _).
      apply bind_Ok in HT1 as ([] & _ & [= <-]). pose proof (timely_down h (time s) (proj1 HF) (proj1 Hl) Ht) as Hd.
      split_and!; cbn; [|by apply legal_idle|case_decide; cbn; naive_solver..].
      case_decide; by eapply timely_same. }
  enough (timely (x.1 :: h) (time s1) ∧ m_roundRobin (time s1) = m_roundRobin (time x.2)) as [? E] by (rewrite E; done).
  revert Hs1. unfold move_input. destruct (m_input_queue x.2); [by intros [= <-]|].
  intros (bank & _ & (q & _ & H)%bind_Ok)%bind_Ok. case_decide.
  - apply bind_Ok in H as (qs & _ & [= <-]). split; [|done]. by eapply timely_same.
  - injection H as <-. split; [|done]. by eapply timely_same.
Qed.

(** What happens to a controller: a request arrives, its event is processed, or its port sends
    a packet, which the receiver takes or not. *)
Inductive happening :=
  | Arrives (now : Z) (pkt : Pkt.t)
  | Wakes (now rr : Z) (rnd : Z → Z)
  | Sends (now : Z) (accepted : bool).

(** A run: the requests that came in, the activates of each cycle, and the controller. *)
Record run := mkRun { arrived : list MemoryNode.t; history : list (list activate); ctl : t }.

Definition step (x : run) (i : happening) : outcome run :=
  match i with
  | Arrives now pkt =>
      s ← recvTimingReq p now (ctl x) pkt;
      Ok (mkRun (arrived x ++ drop (length (m_input_queue (ctl x))) (m_input_queue s)) (history x) s)
  | Wakes now rr rnd => r ← wakeup p now rr rnd (ctl x); Ok (mkRun (arrived x) (r.1 :: history x) r.2)
  | Sends now accepted =>
      q ← PacketQueue.processSendEvent (λ _, false) now (port (ctl x)) accepted [];
      Ok (mkRun (arrived x) (history x) (with_port (ctl x) q))
  end.

(** The generator of random numbers keeps to its range. *)
Definition in_bounds (i : happening) : Prop :=
  match i with Wakes _ rr _ => 0 ≤ rr < m_total_banks p | _ => True end.

Lemma recvTimingReq_Ok now s pkt s' : recvTimingReq p now s pkt = Ok s' → ∃ n (b : Z),
  m_input_queue s' = m_input_queue s ++ [n] ∧ MemoryNode.m_addr n = Pkt.addr pkt ∧ getBank p (Pkt.addr pkt) = Ok b ∧
  m_bankQueues s' = m_bankQueues s ∧ time s' = time s ∧ m_event s' ≠ None.
Proof.
  unfold recvTimingReq, enqueueMemRef. intros ([m k] & _ & (b & Hb & [= <-])%bind_Ok)%bind_Ok. cbn in *.
  eexists _, b. destruct (m_event s) eqn:E; cbn; (split; [done|]); split; try done; rewrite ?E; done.
Qed.

Lemma memory_wakeup_Ok now rr rnd s acts s' : wakeup p now rr rnd s = Ok (acts, s') → ∃ s1,
  executeCycle p now rr rnd (with_event s None) = Ok (acts, s1) ∧
  time s' = with_idle (time s1) (m_idleCount (time s1) - 1) ∧ m_input_queue s' = m_input_queue s1 ∧
  m_bankQueues s' = m_bankQueues s1 ∧ (1 < m_idleCount (time s1) → m_event s' ≠ None).
Proof.
  unfold wakeup. intros ([acts1 s1] & H1 & H)%bind_Ok. exists s1. case_decide.
  - apply bind_Ok in H as ([] & _ & [= <- <-]). done.
  - injection H as <- <-. split_and!; try done. lia.
Qed.

Lemma start_timely : timing_ok → timely [] (start_timers p).
Proof.
  intros (_ & _ & _ & _ & HF & H1 & H2 & H3). assert (∀ k a, ¬ at_age [] k a) as Hn by (by intros k a (l & [=] & _)).
  split; cbn; try (intros k a; intros; by destruct (Hn k a)).
  - unfold zeros, m_total_banks. rewrite length_replicate. nia.
  - unfold zeros, m_total_ranks. rewrite length_replicate. nia.
  - done.
  - intros rank w c _ [-> _]%lookup_replicate [-> _]%lookup_replicate.
    split; [split; [lia|apply Z.pow_pos_nonneg; lia]|]. unfold activates. rewrite take_nil. split; [done|].
    intros k Hk. rewrite Z.bits_0. split; [done|]. by intros (a & H & _); destruct (Hn k a).
Qed.

Lemma run_timely l s0 x : timing_ok → Forall in_bounds l →
  timely [] (time s0) → m_roundRobin (time s0) = 0 → mfold step (mkRun [] [] s0) l = Ok x →
  timely (history x) (time (ctl x)) ∧ legal (history x) ∧ 0 ≤ m_roundRobin (time (ctl x)) < m_total_banks p.
Proof.
  intros Hp Hl H0 Hrr0 Hrun. revert Hrun. apply (mfold_inv (λ x, timely (history x) (time (ctl x)) ∧ legal (history x) ∧
    0 ≤ m_roundRobin (time (ctl x)) < m_total_banks p)).
  - intros [ar h s] i x' Hi (Ht & Hh & Hrr) H. cbn in *. destruct i as [now pkt|now rr rnd|now acc].
    + apply bind_Ok in H as (s' & (n & b & _ & _ & _ & _ & E & _)%recvTimingReq_Ok & [= <-]). cbn. by rewrite E.
    + apply bind_Ok in H as ([acts s'] & (s1 & He & E & _)%memory_wakeup_Ok & [= <-]). cbn. rewrite E.
      rewrite Forall_forall in Hl. specialize (Hl _ Hi).
      eapply executeCycle_timely in He as (? & ? & ?); [|done|done|done|done|done].
      split_and!; cbn; [by eapply timely_same|done|lia..].
    + by apply bind_Ok in H as (q & _ & [= <-]).
  - cbn. rewrite Hrr0. split; [done|]. split.
    + split; [constructor|]. split; [by intros i j a b _ (l' & [=] & _)|]. intros i rank. rewrite drop_nil, take_nil. cbn. lia.
    + pose proof Hp as (_ & _ & _ & _ & _ & H1 & H2 & H3). unfold m_total_banks. nia.
Qed.

End timing.

(** C36: whatever requests arrive and however the banks are scanned, a memory controller without
    fixed delay, whose tFAW is at most 31 and whose delays are not longer than the basic time of
    the bus, keeps the timing of the memory: in a cycle it activates at most one bank, two activates are apart
    by the time the bus, the bank, the turn from a read to a write and the change of the rank
    between reads take, and in any window of tFAW cycles there are at most four activates of a rank. *)
Theorem memory_timing_kept p m c s0 l x : timing_ok p → init p m c = Ok s0 → Forall (in_bounds p) l →
  mfold (step p) (mkRun [] [] s0) l = Ok x → legal p (history x).
Proof.
  intros Hp ([] & _ & [= <-])%bind_Ok Hl Hrun. by eapply run_timely in Hrun as (_ & ? & _); [|done|done|apply start_timely|].
Qed.

(** *** Examples *)

Section examples.
Import MemCmd.

(** The parameters as they are by default, but for the window. *)
Definition demo_params (tfaw : Z) : params := mkParams 8 2 2 8 11 12 12 11 1 2 2 12 1560 tfaw 0 0.
Definition null_memory : AbstractMemory.t := AbstractMemory.mk 0 65535 None [] [].
Definition demo_request (c : Command) (a : Z) : Pkt.t := Pkt.mk c a 4 [0; 0; 0; 0] a 0 false false None false.
Definition cycles (from n : Z) : list happening := (λ i, Wakes i 0 (λ _, 0)) <$> seqZ from n.
Definition arrive (at_ : Z) (c : Command) (from n : Z) : list happening :=
  (λ i, Arrives at_ (demo_request c (256 * i))) <$> seqZ from n.
Definition demo_start (p : params) : t :=
  mk null_memory (ClockedObject.create 1) None PacketQueue.create 0 [] [] (replicate (Z.to_nat (m_total_banks p)) []) (start_timers p).
Definition demo_timing (p : params) (l : list happening) : run :=
  match mfold (step p) (mkRun [] [] (demo_start p)) l with Ok x => x | Err _ => mkRun [] [] (demo_start p) end.
Definition six_reads : list happening := arrive 0 ReadReq 0 6 ++ cycles 0 40.

(** Six reads of one rank: a refresh and three of them, and then a pause. *)
Lemma memory_timing_kept_witness : legal (demo_params 16) (history (demo_timing (demo_params 16) six_reads)) ∧
  bank_of <$> concat (reverse (history (demo_timing (demo_params 16) six_reads))) = [0; 1; 2; 3; 4; 5; 0].
Proof.
  split; [|vm_compute; reflexivity].
  apply (memory_timing_kept (demo_params 16) null_memory (ClockedObject.create 1) (demo_start (demo_params 16)) six_reads).
  - unfold timing_ok. cbn. lia.
  - reflexivity.
  - apply Forall_app. split; [by repeat constructor|]. apply Forall_fmap, Forall_true. intros i. cbn. unfold m_total_banks. cbn. lia.
  - vm_compute. reflexivity.
Defined.

(** A window of 32 cycles, which the controller accepts: the mark is the sign bit of an [int], the
    count falls below zero, and eight activates of a rank are made in the window. *)
Example tfaw_32_exceeded : activates (demo_params 32) 0 (take 32 (history (demo_timing (demo_params 32)
  (arrive 0 ReadReq 0 1 ++ cycles 0 70 ++ arrive 70 ReadReq 0 8 ++ cycles 70 18)))) = 8%nat.
Proof. vm_compute. reflexivity. Qed.

(** With a turn from reads to writes that is longer than the bus is busy, a refresh between a read
    and a write makes the controller forget the read: the write follows after two cycles and not
    after six. *)
Definition long_turn : params := mkParams 2 1 1 8 11 12 12 1 0 5 1 12 8 0 0 0.
Example refresh_forgets_turn : ∃ n m, take 3 (history (demo_timing long_turn
    (cycles 0 2 ++ arrive 2 ReadReq 0 1 ++ arrive 2 WriteReq 1 1 ++ cycles 2 4))) = [[Request 1 n]; [Refresh 1]; [Request 0 m]] ∧
  MemoryNode.m_is_mem_read m = true ∧ MemoryNode.m_is_mem_read n = false.
Proof. do 2 eexists. split; [vm_compute; reflexivity|]. done. Qed.

End examples.
