(* ===== verification/MemoryRuns.v ===== *)
(** * The requests in the memory controller

    Every request that arrives is issued once, those of a bank in the order of their arrival, and
    as long as there is a request the controller has scheduled its event. *)

From S2P Require Import Prelude IntMath Clocks PacketQueues Memories MemoryControl MemoryTiming.
Import RubyMemoryControl.
Local Open Scope Z_scope.

Section requests.
Context (p : params).
Implicit Types (s : t) (b bank : Z) (n : MemoryNode.t) (l : list MemoryNode.t).

Definition sizes_ok : Prop :=
  0 < m_banks_per_rank p < 2 ^ 31 ∧ 0 < m_ranks_per_dimm p < 2 ^ 31 ∧ 0 < m_dimms_per_channel p < 2 ^ 31 ∧
  0 ≤ m_bank_queue_size p.

(** The requests of a list that are for a bank, those among activates, and those in the queue of
    the bank. *)
Definition is_for b n : bool := match getBank p (MemoryNode.m_addr n) with Ok x => bool_decide (x = b) | Err _ => false end.
Definition for_bank b l : list MemoryNode.t := filter (λ n, is_for b n = true) l.
Definition issued b (acts : list activate) : list MemoryNode.t :=
  omap (λ a, match a with Request b' n => if decide (b' = b) then Some n else None | Refresh _ => None end) acts.
Definition queue s b : list MemoryNode.t := default [] (m_bankQueues s !! Z.to_nat b).

Lemma issued_app b acts acts' : issued b (acts ++ acts') = issued b acts ++ issued b acts'.
Proof. apply omap_app. Qed.
Lemma for_bank_app b l l' : for_bank b (l ++ l') = for_bank b l ++ for_bank b l'.
Proof. apply filter_app. Qed.
Lemma for_bank_cons b bank n l : getBank p (MemoryNode.m_addr n) = Ok bank →
  for_bank b (n :: l) = (if decide (bank = b) then [n] else []) ++ for_bank b l.
Proof.
  intros Hb. unfold for_bank, is_for. rewrite filter_cons, Hb. destruct (decide (bank = b)) as [E|E].
  - by rewrite (bool_decide_eq_true_2 _ E), decide_True.
  - by rewrite (bool_decide_eq_false_2 _ E), decide_False.
Qed.

(** *** The bank of an address *)

Lemma land_le (v w : Z) : 0 ≤ w → Z.land v w ≤ w.
Proof.
  intros Hw. cut (0 ≤ w - Z.land v w); [lia|]. rewrite Z.sub_nocarry_ldiff.
  - apply Z.ldiff_nonneg. by left.
  - apply Z.bits_inj'. intros n Hn. rewrite Z.ldiff_spec, Z.land_spec, Z.bits_0.
    by destruct (Z.testbit v n), (Z.testbit w n).
Qed.

Lemma field_range addr bit (n x : Z) : 0 ≤ addr → 0 < n < 2 ^ 31 → field addr bit n = Ok x → 0 ≤ x < n.
Proof.
  intros Ha Hn. unfold field. intros (y & Hy & [= <-])%bind_Ok. unfold shr64 in Hy. case_decide; [|done]. injection Hy as <-.
  unfold u64. rewrite uwrap_id by (unfold fits; lia). set (v := Z.shiftr addr bit).
  assert (0 ≤ v) by (by apply Z.shiftr_nonneg). assert (0 ≤ Z.land v (n - 1) ≤ n - 1) as Hl.
  { split; [apply Z.land_nonneg; by left|]. apply land_le; lia. }
  rewrite s32_id; lia.
Qed.

Lemma getBank_range addr b : sizes_ok → 0 ≤ addr → getBank p addr = Ok b → 0 ≤ b < m_total_banks p.
Proof.
  intros (H1 & H2 & H3 & _) Ha. unfold getBank.
  intros (d & Hd%field_range & (r & Hr%field_range & (k & Hk%field_range & [= <-])%bind_Ok)%bind_Ok)%bind_Ok; try done.
  unfold m_total_banks. assert (0 ≤ d * m_ranks_per_dimm p + r < m_dimms_per_channel p * m_ranks_per_dimm p) by nia.
  set (x := d * m_ranks_per_dimm p + r) in *. replace (_ + _ + k) with (x * m_banks_per_rank p + k) by (unfold x; lia). nia.
Qed.

(** *** The scan *)

(** A step of the scan moves the head of a queue to the activates, or nothing. *)
Lemma scan_bank_queues now rnd acts s i acts' s' : scan_bank p now rnd (acts, s) i = Ok (acts', s') →
  m_input_queue s' = m_input_queue s ∧ length (m_bankQueues s') = length (m_bankQueues s) ∧ m_event s' = m_event s ∧
  ∃ new, acts' = acts ++ new ∧ ∀ b, 0 ≤ b → queue s b = issued b new ++ queue s' b.
Proof.
  intros (r & T1 & q & _ & Hnb & Hq & H)%(scan_bank_Ok p now rnd acts s i).
  set (new := if r then [Refresh (next_bank p s)] else []).
  assert ((if r then acts ++ [Refresh (next_bank p s)] else acts) = acts ++ new) as Hr
    by (destruct r; [done|by rewrite app_nil_r]).
  assert (∀ b, issued b new = []) as H0 by (by destruct r). rewrite Hr in H.
  destruct H as [(-> & -> & ->)|(_ & go & _ & H)]; [split_and!; try done; exists new; by split; [|intros b _; rewrite H0]|].
  destruct go; [|destruct H as [-> ->]; split_and!; try done; exists new; by split; [|intros b _; rewrite H0]].
  destruct H as (n & (rank & q' & T' & _ & _ & Hq' & _ & _ & E & Ei & Ev & _)%issueRequest_Ok & ->).
  cbn in Hq', E, Ei, Ev. rewrite E, length_insert. split_and!; try done. exists (new ++ [Request (next_bank p s) n]). split; [by rewrite app_assoc|].
  intros b Hb. rewrite issued_app, H0. unfold queue. rewrite E. cbn [issued omap list_omap app]. case_decide as Eb.
  - subst b. rewrite list_lookup_insert_eq by (by eapply lookup_lt_Some). by rewrite Hq'.
  - rewrite list_lookup_insert_ne by lia. done.
Qed.

(** A bank with a request keeps the controller awake. *)
Lemma scan_bank_visits now rnd acts s i acts' s' : scan_bank p now rnd (acts, s) i = Ok (acts', s') →
  m_roundRobin (time s') = next_bank p s ∧
  (m_idleCount (time s') = IDLECOUNT_MAX_VALUE ∨ m_idleCount (time s') = m_idleCount (time s) ∧ queue s (next_bank p s) = []).
Proof.
  intros (r & T1 & q & [E1 E2]%issueRefresh_frame & Hnb & Hq & H)%(scan_bank_Ok p now rnd acts s i). cbn in E1, E2.
  destruct H as [(-> & _ & ->)|(_ & go & _ & H)].
  - split; [done|]. right. split; [done|]. unfold queue. by rewrite Hq.
  - destruct go; [|by destruct H as [_ ->]; split; [|left]].
    destruct H as (n & (rank & q' & T' & _ & _ & _ & [E3 E4]%reserve_frame & -> & _)%issueRequest_Ok & _). cbn in *.
    split; [congruence|by left].
Qed.

Lemma next_bank_mod s (z : Z) : 0 < m_total_banks p → m_roundRobin (time s) = z `mod` m_total_banks p →
  next_bank p s = (z + 1) `mod` m_total_banks p.
Proof.
  intros Ht E. unfold next_bank. rewrite E. pose proof (Z.mod_pos_bound z (m_total_banks p) Ht).
  rewrite <- Zplus_mod_idemp_l. case_decide.
  - replace (z `mod` m_total_banks p + 1) with (m_total_banks p) by lia. by rewrite Z_mod_same_full.
  - by rewrite (Z.mod_small (_ + 1)) by lia.
Qed.

(** The scan looks at every bank. *)
Definition looked (rr0 : Z) (k : nat) (x : list activate * t) : Prop :=
  m_roundRobin (time x.2) = (rr0 + Z.of_nat k) `mod` m_total_banks p ∧
  (m_idleCount (time x.2) = IDLECOUNT_MAX_VALUE ∨
   ∀ j, 1 ≤ j ≤ Z.of_nat k → queue x.2 ((rr0 + j) `mod` m_total_banks p) = []).

Lemma scan_looked now rnd rr0 k x i x' : 0 < m_total_banks p → scan_bank p now rnd x i = Ok x' →
  looked rr0 k x → looked rr0 (S k) x'.
Proof.
  destruct x as [acts s], x' as [acts' s']. intros Ht H [Hrr Hid]. cbn [fst snd] in *.
  destruct (scan_bank_visits _ _ _ _ _ _ _ H) as [E1 E2]. destruct (scan_bank_queues _ _ _ _ _ _ _ H) as (_ & _ & _ & new & _ & Hqs).
  pose proof (next_bank_mod _ _ Ht Hrr) as En. split; cbn [fst snd]; [rewrite E1, En; f_equal; lia|].
  destruct E2 as [E2|[E2 E3]]; [by left|]. destruct Hid as [Hid|Hid]; [left; congruence|right]. intros j Hj.
  assert (queue s ((rr0 + j) `mod` m_total_banks p) = []) as Hq.
  { destruct (decide (j = Z.of_nat k + 1)) as [->|]; [by rewrite Z.add_assoc, <- En|]. apply Hid. lia. }
  rewrite Hqs in Hq by (apply Z.mod_pos_bound; lia). by apply app_eq_nil in Hq as [_ ?].
Qed.

(** After the scan the controller is awake or all queues are empty. *)
Lemma scan_awake now rnd s r : 0 < m_total_banks p → 0 ≤ m_roundRobin (time s) < m_total_banks p →
  mfold (scan_bank p now rnd) ([], s) (seqZ 0 (m_total_banks p)) = Ok r →
  m_idleCount (time r.2) = IDLECOUNT_MAX_VALUE ∨ ∀ b, 0 ≤ b < m_total_banks p → queue r.2 b = [].
Proof.
  intros Ht Hrr H. rewrite <- (Z2Nat.id (m_total_banks p)) in H by lia.
  apply (mfold_seqZ (looked (m_roundRobin (time s)))) in H as [_ [H|H]].
  - by left.
  - right. intros b Hb. rewrite Z2Nat.id in H by lia.
    destruct (decide (m_roundRobin (time s) < b)).
    + specialize (H (b - m_roundRobin (time s)) ltac:(lia)).
      replace (m_roundRobin (time s) + (b - m_roundRobin (time s))) with b in H by lia. by rewrite Z.mod_small in H by lia.
    + specialize (H (b - m_roundRobin (time s) + m_total_banks p) ltac:(lia)).
      replace (m_roundRobin (time s) + (b - m_roundRobin (time s) + m_total_banks p)) with (b + 1 * m_total_banks p) in H by lia.
      by rewrite Z_mod_plus_full, Z.mod_small in H by lia.
  - intros k x x' _ Hk Hx. by eapply scan_looked.
  - split; cbn; [by rewrite Z.add_0_r, Z.mod_small|]. right. lia.
Qed.

(** *** A cycle *)

Lemma move_input_Ok s s' : move_input p s = Ok s' →
  length (m_bankQueues s') = length (m_bankQueues s) ∧ m_roundRobin (time s') = m_roundRobin (time s) ∧
  (m_idleCount (time s') = IDLECOUNT_MAX_VALUE ∨ s' = s ∧ m_input_queue s = []) ∧
  (∀ b, Z.of_nat (length (queue s b)) ≤ m_bank_queue_size p → Z.of_nat (length (queue s' b)) ≤ m_bank_queue_size p) ∧
  ∀ b, 0 ≤ b → queue s b ++ for_bank b (m_input_queue s) = queue s' b ++ for_bank b (m_input_queue s').
Proof.
  unfold move_input. destruct (m_input_queue s) as [|n l] eqn:El.
  { intros [= <-]. rewrite El. split_and!; try done. by right. }
  intros (bank & Hb & (q & [H0 Hq]%vget_Ok & H)%bind_Ok)%bind_Ok. cbn in Hq. case_decide as Hs.
  - apply bind_Ok in H as (qs & [_ ->]%vset_Ok & [= <-]). unfold queue.
    cbn [m_bankQueues with_queues with_time with_idle time m_roundRobin m_idleCount m_input_queue]. rewrite length_insert.
    split_and!; try done; [by left| |].
    + intros b Hle. destruct (decide (Z.to_nat b = Z.to_nat bank)) as [->|Hne].
      * rewrite list_lookup_insert_eq by (by eapply lookup_lt_Some). cbn. rewrite length_app. cbn. lia.
      * by rewrite list_lookup_insert_ne.
    + intros b Hb0. rewrite (for_bank_cons _ _ _ _ Hb).
      destruct (decide (bank = b)) as [->|Hne].
      * rewrite list_lookup_insert_eq by (by eapply lookup_lt_Some). rewrite Hq. cbn [default from_option id]. by rewrite <- app_assoc.
      * by rewrite list_lookup_insert_ne by lia.
  - injection H as <-. cbn. rewrite El. split_and!; try done. by left.
Qed.

Lemma scan_all_queues now rnd s r : mfold (scan_bank p now rnd) ([], s) (seqZ 0 (m_total_banks p)) = Ok r →
  m_input_queue r.2 = m_input_queue s ∧ length (m_bankQueues r.2) = length (m_bankQueues s) ∧
  (0 < m_total_banks p → 0 ≤ m_roundRobin (time s) < m_total_banks p → 0 ≤ m_roundRobin (time r.2) < m_total_banks p) ∧
  ∀ b, 0 ≤ b → queue s b = issued b r.1 ++ queue r.2 b.
Proof.
  apply (mfold_inv (λ r, m_input_queue r.2 = m_input_queue s ∧ length (m_bankQueues r.2) = length (m_bankQueues s) ∧
    (0 < m_total_banks p → 0 ≤ m_roundRobin (time s) < m_total_banks p → 0 ≤ m_roundRobin (time r.2) < m_total_banks p) ∧
    ∀ b, 0 ≤ b → queue s b = issued b r.1 ++ queue r.2 b)); [|done].
  intros [acts s1] i [acts' s2] _ (E1 & E2 & E3 & E4) H. destruct (scan_bank_visits _ _ _ _ _ _ _ H) as [Hv _].
  destruct (scan_bank_queues _ _ _ _ _ _ _ H) as (F1 & F2 & _ & new & -> & Hq). cbn [fst snd] in *. split_and!; [congruence..| |].
  - rewrite Hv. intros Ht Hr. specialize (E3 Ht Hr). unfold next_bank. case_decide; lia.
  - intros b Hb. by rewrite issued_app, E4, <- app_assoc, <- Hq.
Qed.

Lemma issued_suffix b acts l l' : l = issued b acts ++ l' → (length l' ≤ length l)%nat.
Proof. intros ->. rewrite length_app. lia. Qed.

Lemma executeCycle_queues now rr rnd s acts s' : 0 < m_total_banks p →
  (m_mem_random_arbitrate p ≠ 0 → 0 ≤ rr < m_total_banks p) → 0 ≤ m_roundRobin (time s) < m_total_banks p →
  executeCycle p now rr rnd s = Ok (acts, s') →
  length (m_bankQueues s') = length (m_bankQueues s) ∧ 0 ≤ m_roundRobin (time s') < m_total_banks p ∧
  (m_idleCount (time s') = IDLECOUNT_MAX_VALUE ∨
   m_input_queue s' = [] ∧ ∀ b, 0 ≤ b < m_total_banks p → queue s' b = []) ∧
  (∀ b, 0 ≤ b → Z.of_nat (length (queue s b)) ≤ m_bank_queue_size p → Z.of_nat (length (queue s' b)) ≤ m_bank_queue_size p) ∧
  ∀ b, 0 ≤ b → queue s b ++ for_bank b (m_input_queue s) = issued b acts ++ queue s' b ++ for_bank b (m_input_queue s').
Proof.
  intros Ht Hrand Hrr. unfold executeCycle.
  intros (T1 & ([] & _ & [= <-])%bind_Ok & (r & Hr & (s1 & (M1 & M2 & M3 & M4 & M5)%move_input_Ok & [= <- <-])%bind_Ok)%bind_Ok)%bind_Ok.
  match type of Hr with mfold _ ([], ?x) _ = _ => set (s0 := x) in Hr end.
  assert (0 ≤ m_roundRobin (time s0) < m_total_banks p) as Hrr0 by (cbn; case_decide; cbn; naive_solver).
  destruct (scan_all_queues _ _ _ _ Hr) as (E1 & E2 & E3 & E4). pose proof (scan_awake _ _ _ _ Ht Hrr0 Hr) as E5.
  specialize (E3 Ht Hrr0). assert (∀ b, queue s0 b = queue s b) as Eq by done. change (m_input_queue s0) with (m_input_queue s) in E1.
  split_and!; [by rewrite M1, E2|lia|lia| | |].
  - destruct M3 as [M3|[-> M3]]; [by left|]. destruct E5 as [E5|E5]; [by left|by right].
  - intros b Hb Hle. apply M4. specialize (E4 b Hb). rewrite Eq in E4. apply issued_suffix in E4. lia.
  - intros b Hb. rewrite <- M5 by done. rewrite app_assoc, <- E4, E1 by done. done.
Qed.

(** *** Runs *)

(** Addresses are 64-bit words. *)
Definition addressed (i : happening) : Prop := match i with Arrives _ pkt => 0 ≤ Pkt.addr pkt | _ => True end.

(** Every request is in one place, and the controller that has one is scheduled. *)
Record accounted (x : run) : Prop := {
  acc_len : Z.of_nat (length (m_bankQueues (ctl x))) = m_total_banks p;
  acc_rr : 0 ≤ m_roundRobin (time (ctl x)) < m_total_banks p;
  acc_bank n : n ∈ arrived x → ∃ b, getBank p (MemoryNode.m_addr n) = Ok b ∧ 0 ≤ b < m_total_banks p;
  acc_order b : 0 ≤ b → for_bank b (arrived x) =
    issued b (concat (reverse (history x))) ++ queue (ctl x) b ++ for_bank b (m_input_queue (ctl x));
  acc_size b : 0 ≤ b → Z.of_nat (length (queue (ctl x) b)) ≤ m_bank_queue_size p;
  acc_event : m_event (ctl x) = None → m_input_queue (ctl x) = [] ∧ ∀ b, 0 ≤ b < m_total_banks p → queue (ctl x) b = [] }.

Lemma total_pos : sizes_ok → 0 < m_total_banks p.
Proof. intros (? & ? & ? & _). unfold m_total_banks. nia. Qed.

Lemma step_accounted x i x' : sizes_ok → in_bounds p i → addressed i → accounted x → step p x i = Ok x' → accounted x'.
Proof.
  intros Hs Hi Ha Hx. destruct x as [ar h s], Hx as [X1 X2 X3 X4 X5 X6]. cbn [ctl arrived history] in *.
  destruct i as [now pkt|now rr rnd|now acc]; cbn [step ctl].
  - intros (s' & (n & b & E1 & En & Hb & E2 & E3 & E4)%recvTimingReq_Ok & [= <-])%bind_Ok. cbn [ctl arrived history].
    rewrite E1, drop_app_length in *.
    assert (∀ b, queue s' b = queue s b) as Eq by (intros; unfold queue; by rewrite E2).
    split; cbn [ctl arrived history]; rewrite ?E2, ?E3; try done.
    + intros k [Hk|Hk%list_elem_of_singleton]%elem_of_app; [by apply X3|]. subst k. rewrite En. exists b.
      split; [done|]. by eapply getBank_range.
    + intros c Hc. by rewrite E1, Eq, !for_bank_app, X4, <- !app_assoc by done.
    + intros c Hc. rewrite Eq. by apply X5.
  - intros ([acts s'] & (s1 & He & E1 & E2 & E3 & E4)%memory_wakeup_Ok & [= <-])%bind_Ok. cbn [ctl arrived history fst snd].
    apply executeCycle_queues in He as (F1 & F2 & F3 & F4 & F5); [|by apply total_pos|done|done].
    assert (∀ b, queue s' b = queue s1 b) as Eq by (intros; unfold queue; by rewrite E3).
    split; cbn [ctl arrived history fst snd]; rewrite ?E1, ?E2, ?E3; try done.
    + by rewrite F1.
    + intros c Hc. rewrite reverse_cons, concat_app, issued_app, Eq, X4, <- !app_assoc by done. f_equal.
      cbn [concat]. rewrite app_nil_r. by apply F5.
    + intros c Hc. rewrite Eq. apply F4; [done|]. by apply X5.
    + intros Hn. destruct F3 as [F3|[F3 F3']]; [|split; [done|]; intros c Hc; rewrite Eq; by apply F3'].
      rewrite F3 in E4. destruct E4; [unfold IDLECOUNT_MAX_VALUE; lia|done].
  - by intros (q & _ & [= <-])%bind_Ok.
Qed.

End requests.

Lemma queue_start p m c b :
  queue (mk m c None PacketQueue.create 0 [] [] (replicate (Z.to_nat (m_total_banks p)) []) (start_timers p)) b = [].
Proof.
  unfold queue. cbn. destruct (replicate _ _ !! _) as [q|] eqn:E; [|done]. by apply lookup_replicate in E as [-> _].
Qed.


(** Two reads and two writes to two banks. *)
Definition demo_mixed : list happening :=
  arrive 0 MemCmd.ReadReq 0 2 ++ arrive 0 MemCmd.WriteReq 0 2 ++ cycles 0 30.


(** [drain] reports that it is done and drops the event although a request waits: nothing is left
    that will issue it. *)
Example drain_leaves_request : ∃ x, mfold (step (demo_params 16)) (mkRun [] [] (demo_start (demo_params 16)))
    (arrive 0 MemCmd.ReadReq 0 1) = Ok x ∧
  (drain (ctl x)).1 = 0 ∧ m_event (drain (ctl x)).2 = None ∧ m_input_queue (drain (ctl x)).2 ≠ [].
Proof. eexists. split; [vm_compute; reflexivity|]. by vm_compute. Qed.

(** A functional read takes the bytes of an earlier read that is on its way back, although a
    later write is in the memory already. *)
Definition byte_memory : AbstractMemory.t := AbstractMemory.mk 0 63 (Some (replicate 64 0)) [] [].
Definition byte_packet (c : MemCmd.Command) (v : Z) : Pkt.t := Pkt.mk c 0 1 [v] 0 0 false false None false.
Example functional_read_stale : ∃ s0 x f s', init (demo_params 16) byte_memory (ClockedObject.create 1) = Ok s0 ∧
  mfold (step (demo_params 16)) (mkRun [] [] s0)
    ([Arrives 0 (byte_packet MemCmd.ReadReq 9)] ++ cycles 0 12 ++ [Arrives 12 (byte_packet MemCmd.WriteReq 5)]) = Ok x ∧
  recvFunctional (ctl x) (byte_packet MemCmd.ReadReq 9, []) = Ok (f, s') ∧
  Pkt.data f.1 = [0] ∧ head <$> AbstractMemory.pmem (mem s') = Some (Some 5).
Proof. do 4 eexists. do 3 (split; [vm_compute; reflexivity|]). by vm_compute. Qed.
