(* ===== verification/Machines.v ===== *)
(** * The code generated around a transition table (mem/slicc/symbols/StateMachine.py,
    Transition.py; mem/slicc/ast/FuncCallExprAST.py, PeekStatementAST.py)

    For every state machine the compiler writes a switch over state and event, which
    checks the resources of the transition and runs its actions, and a loop that offers
    the input ports their messages in order.  Here these are definitions over a table,
    what the actions do and the code of the ports. *)

From S2P Require Import Prelude Controllers.
Local Open Scope Z_scope.

(** The result of a transition; the action [z_stall], which gives
    [TransitionResult_ProtocolStall], is in none of the modelled machines. *)
Inductive TransitionResult : Set := TransitionResult_Valid | TransitionResult_ResourceStall.

#[global] Instance TransitionResult_eq_dec : EqDecision TransitionResult.
Proof. solve_decision. Defined.

(** What the code of a port does with the loop around it: [counter++; continue],
    [continue], or going on with the next port. *)
Inductive port_result : Set := Fired | Delayed | Idle.

#[global] Instance port_result_eq_dec : EqDecision port_result.
Proof. solve_decision. Defined.

(** [assert] and [error] of the protocol language end in [panic]. *)
Definition slicc_assert (b : bool) : outcome unit := if b then Ok tt else Err PanicFault.

Section transitions.
Context {F State Event Action Resource : Type}.
(** The table, the effect of an action on a line, the resources an action names (one
    slot each) in the order of the checks, and the check for [n] slots. *)
Context (find_transition : State → Event → option (State * list Action)).
Context (perform : Action → Z → prog F unit).
Context (needs : Action → Resource → bool).
Context (resources : list Resource).
Context (available : Resource → Z → prog F bool).

(** [num = 1], and [num += 1] for every later action that needs the resource too: the
    number is 2 however many there are. *)
Definition slots_needed (acts : list Action) (r : Resource) : Z :=
  Z.min 2 (Z.of_nat (length (filter (λ a, needs a r = true) acts))).

(** The checks of the resources the transition needs; the first that fails ends them. *)
Fixpoint check_all (acts : list Action) (rs : list Resource) : prog F bool :=
  match rs with
  | [] => mret true
  | r :: rs =>
      if decide (slots_needed acts r = 0) then check_all acts rs
      else b ← available r (slots_needed acts r);
           if b : bool then check_all acts rs else mret false
  end.

(** [doTransitionWorker]: the result and the next state. *)
Definition doTransitionWorker (event : Event) (state : State) (addr : Z)
    : prog F (TransitionResult * State) :=
  match find_transition state event with
  | None => raise FatalFault
  | Some (next_state, acts) =>
      ok ← check_all acts resources;
      if ok : bool
      then _ ← each (λ a, perform a addr) acts; mret (TransitionResult_Valid, next_state)
      else mret (TransitionResult_ResourceStall, next_state)
  end.

End transitions.

Section wakeup.
Context {C : Type}.
(** The ports with their ranks, the call that notes the rank of the current port, and
    the call that asks for a wakeup in the next cycle. *)
Context (ports : list (Z * prog C port_result)).
Context (set_cur_in_port : Z → prog C unit) (wake_next_cycle : prog C unit).
Context (m_transitions_per_cycle : Z).

Fixpoint scan_ports (ps : list (Z * prog C port_result)) : prog C port_result :=
  match ps with
  | [] => mret Idle
  | (rank, code) :: ps =>
      _ ← set_cur_in_port rank;
      r ← code;
      match r with Idle => scan_ports ps | _ => mret r end
  end.

(** [while (true) { ... }]; only an iteration that fires a transition is counted. *)
Fixpoint wakeup_loop (fuel : nat) (counter : Z) : prog C unit :=
  match fuel with
  | O => raise OutOfFuel
  | S fuel =>
      _ ← lift (assert_that (bool_decide (counter ≤ m_transitions_per_cycle)));
      if decide (counter = m_transitions_per_cycle) then wake_next_cycle
      else
        r ← scan_ports ports;
        match r with
        | Fired => wakeup_loop fuel (counter + 1)
        | Delayed => wakeup_loop fuel counter
        | Idle => mret tt
        end
  end.

End wakeup.

(** The part of [trigger] after the transition: a stall for want of resources asks for
    another wakeup. *)
Definition after_transition {S} (wake_next_cycle : prog S unit) (r : TransitionResult)
    : prog S port_result :=
  match r with
  | TransitionResult_Valid => mret Fired
  | TransitionResult_ResourceStall => _ ← wake_next_cycle; mret Idle
  end.
