(* ===== verification/Dma.v ===== *)
(** * Direct memory access (mem/ruby/system/DMASequencer.hh, DMASequencer.cc and
    mem/protocol/MSI_Snooping_One_Level_RT-dma.sm)

    The sequencer of a device splits a request into one message for each line and gives
    them, one after the other, to the DMA controller, which passes each on to a directory
    and calls the sequencer back with the answer.  The two share the mandatory queue: a
    [node] is what the sequencer can reach. *)

From S2P Require Import Prelude IntMath Addresses NodeSets Destinations Clocks StdHeap Buffers Blocks.
From S2P Require Import Policies Caches MsiTables Controllers DirectoryMemory Messages Sequencer PacketQueues Machines.
Local Open Scope Z_scope.

(** What the sequencer uses of a packet; [d_data] is its data pointer, [None] for null, and
    [d_has_data] the flag that [getPtr] asserts. *)
Record dma_packet := mkDmaPacket {
  d_addr : Z;
  d_size : Z;
  d_write : bool;
  d_has_data : bool;
  d_data : option (list Z);
  d_request : bool;
  d_needsResponse : bool;
  d_llsc : bool;
  d_flush : bool;
  d_inhibited : bool }.

Definition set_data (p : dma_packet) (l : list Z) : dma_packet :=
  mkDmaPacket (d_addr p) (d_size p) (d_write p) (d_has_data p) (Some l) (d_request p) (d_needsResponse p)
    (d_llsc p) (d_flush p) (d_inhibited p).
Definition makeResponse (p : dma_packet) : dma_packet :=
  mkDmaPacket (d_addr p) (d_size p) (d_write p) (d_has_data p) (d_data p) false false
    (d_llsc p) (d_flush p) (d_inhibited p).

(** The names of the message buffers. *)
Definition dma_mandatoryQueue : Z := 0.
Definition dma_requestToDir : Z := 1.
Definition dma_responseFromDir : Z := 2.

(** [data] points to the bytes of [pkt]. *)
Record DMARequest := mkDMARequest {
  start_paddr : Z;
  len : Z;
  write : bool;
  bytes_completed : Z;
  bytes_issued : Z;
  pkt : dma_packet }.

Definition data (r : DMARequest) : option (list Z) := d_data (pkt r).

Module DMASequencer.

(** [drain_signals] and [retries] count the calls of [signalDrainDone] and
    [sendRetryReq]. *)
Record t := mk {
  m_is_busy : bool;
  active_request : DMARequest;
  retry : bool;
  m_usingRubyTester : bool;
  m_data_block_mask : Z;
  clk : ClockedObject.t;
  slave_port : PacketQueue.t dma_packet;
  drainManager : bool;
  drain_signals : Z;
  retries : Z }.

Definition with_busy (q : t) (b : bool) : t :=
  mk b (active_request q) (retry q) (m_usingRubyTester q) (m_data_block_mask q) (clk q) (slave_port q)
    (drainManager q) (drain_signals q) (retries q).
Definition with_request (q : t) (r : DMARequest) : t :=
  mk (m_is_busy q) r (retry q) (m_usingRubyTester q) (m_data_block_mask q) (clk q) (slave_port q)
    (drainManager q) (drain_signals q) (retries q).
Definition with_retry (q : t) (b : bool) (n : Z) : t :=
  mk (m_is_busy q) (active_request q) b (m_usingRubyTester q) (m_data_block_mask q) (clk q) (slave_port q)
    (drainManager q) (drain_signals q) n.
Definition with_port (q : t) (p : PacketQueue.t dma_packet) : t :=
  mk (m_is_busy q) (active_request q) (retry q) (m_usingRubyTester q) (m_data_block_mask q) (clk q) p
    (drainManager q) (drain_signals q) (retries q).
Definition with_drain (q : t) (b : bool) (n : Z) : t :=
  mk (m_is_busy q) (active_request q) (retry q) (m_usingRubyTester q) (m_data_block_mask q) (clk q) (slave_port q)
    b n (retries q).

(** The constructor and [init]; [junk] is the request that was never made.  The mask is
    [~ (~0 << getBlockSizeBits())], an [int]. *)
Definition create (sys : RubySystem.t) (version : Z) (tester : bool) (c : ClockedObject.t) (junk : DMARequest)
    : outcome t :=
  assert_that (bool_decide (version ≠ -1));;
  let bits := RubySystem.getBlockSizeBits sys in
  if decide (0 ≤ bits < 32) then
    Ok (mk false junk false tester (2 ^ bits - 1) c PacketQueue.create false 0 0)
  else Err BadShift.

Definition outstandingCount (q : t) : Z := if m_is_busy q then 1 else 0.

Definition testDrainComplete (q : t) : t :=
  if drainManager q && bool_decide (outstandingCount q = 0) then with_drain q false (drain_signals q + 1) else q.

(** The number of objects that have to drain, the port among them. *)
Definition drain (q : t) : Z * t :=
  let '(count, port) := PacketQueue.drain (slave_port q) in
  let q := with_port q port in
  if decide (0 < outstandingCount q) then (count + 1, with_drain q true (drain_signals q))
  else (count, with_drain q false (drain_signals q)).

End DMASequencer.

(** The sequencer and the buffers of its controller. *)
Record dma_node := mkDmaNode { ctl : AbstractController.t payload; seq : DMASequencer.t }.
Definition with_ctl (n : dma_node) (c : AbstractController.t payload) : dma_node := mkDmaNode c (seq n).
Definition with_seq (n : dma_node) (q : DMASequencer.t) : dma_node := mkDmaNode (ctl n) q.

Module DmaPort.
Section sequencer.
Import DMASequencer.
(** [isMemAddr] and [access] are the memory map and the backing store of the system;
    [clockPeriod] is that of the Ruby system. *)
Context (sys : RubySystem.t) (isMemAddr : Z → bool) (backing_store : option (dma_packet → dma_packet)).
Context (clockPeriod now rt : Z).
Implicit Types (p : dma_packet) (q : t) (r : DMARequest).

Definition block : Z := RubySystem.getBlockSizeBytes sys.

(** [m_mandatory_q_ptr->enqueue(msg)] *)
Definition enqueue_msg (m : SequencerMsg.t) : prog dma_node unit := λ n,
  zoom ctl with_ctl (AbstractController.enqueue sys now rt (ClockedObject.clockEdge now (clk (seq n)) 0)
    dma_mandatoryQueue (PSequencer m) 1 false) n.

Definition issued r (n : Z) : DMARequest :=
  mkDMARequest (start_paddr r) (len r) (write r) (bytes_completed r) (bytes_issued r + n) (pkt r).

(** The request as it is recorded, and its first message. *)
Definition new_request p : outcome DMARequest :=
  assert_that (d_has_data p);; Ok (mkDMARequest (d_addr p) (s32 (d_size p)) (d_write p) 0 0 p).

Definition first_message (mask : Z) r : outcome SequencerMsg.t :=
  let offset := s32 (Z.land (start_paddr r) mask) in
  let n := if decide (u32 (offset + len r) ≤ block) then len r else s32 (block - offset) in
  b ← (if write r then
         match data r with
         | Some l => DataBlock.setData sys (DataBlock.create sys) l offset n
         | None => Ok (DataBlock.create sys)
         end
       else Ok (DataBlock.create sys));
  Ok (SequencerMsg.mk (Address.line_address sys (start_paddr r)) (start_paddr r)
        (if write r then Sequencer_ST else Sequencer_LD) b n).

Definition makeRequest p : prog dma_node RequestStatus := λ n,
  if m_is_busy (seq n) then Ok (RequestStatus_BufferFull, n)
  else
    r ← new_request p;
    msg ← first_message (m_data_block_mask (seq n)) r;
    u ← enqueue_msg msg (with_seq n (with_request (with_busy (seq n) true) r));
    Ok (RequestStatus_Issued,
        with_seq u.2 (with_request (seq u.2) (issued r (SequencerMsg.m_Len msg)))).

Definition isPhysMemAddress (a : Z) : bool := isMemAddr a.

Definition recvTimingReq p : prog dma_node bool := λ n,
  if d_inhibited p then Err PanicFault
  else
    assert_that (isPhysMemAddress (d_addr p));;
    offset ← Address.getOffset sys (d_addr p);
    assert_that (bool_decide (offset + d_size p ≤ block));;
    x ← makeRequest p n;
    match x.1 with
    | RequestStatus_Issued => Ok (true, x.2)
    | _ =>
        let q := seq x.2 in
        Ok (false, if m_usingRubyTester q then x.2 else with_seq x.2 (with_retry q true (retries q)))
    end.

(** [MemSlavePort::hitCallback] *)
Definition hitCallback p q : outcome t :=
  let needsResponse := d_needsResponse p in
  assert_that (negb (d_llsc p));;
  assert_that (negb (d_flush p));;
  let p := match backing_store with
           | Some access => access p
           | None => if needsResponse then makeResponse p else p
           end in
  if needsResponse then
    port ← PacketQueue.schedSendTiming (λ _, false) now (slave_port q) p (u64 (now + clockPeriod)) false;
    Ok (with_port q port)
  else Ok q.

(** [reissue n] are the requests that the device makes when it is told to retry for the
    [n]th time. *)
Definition ruby_hit_callback p (reissue : Z → list dma_packet) : prog dma_node unit := λ n,
  assert_that (isMemAddr (d_addr p));;
  assert_that (d_request p);;
  q ← hitCallback p (seq n);
  let n := with_seq n q in
  x ← (if retry q then each (λ p, _ ← recvTimingReq p; mret tt) (reissue (retries q))
                          (with_seq n (with_retry q false (retries q + 1)))
       else Ok (tt, n));
  Ok (tt, with_seq x.2 (testDrainComplete (seq x.2))).

(** The request with all issued bytes completed, and its next message. *)
Definition completed r : DMARequest :=
  mkDMARequest (start_paddr r) (len r) (write r) (bytes_issued r) (bytes_issued r) (pkt r).

Definition next_message (mask : Z) r : outcome SequencerMsg.t :=
  let a := u64 (start_paddr r + bytes_completed r) in
  assert_that (bool_decide (Z.land a mask = 0));;
  let n := if decide (u32 (len r - bytes_completed r) < block) then len r - bytes_completed r else block in
  b ← (if write r then
         l ← from_option_or NullDeref (data r);
         l ← from_here l (bytes_completed r);
         DataBlock.setData sys (DataBlock.create sys) l 0 n
       else Ok (DataBlock.create sys));
  Ok (SequencerMsg.mk (Address.line_address sys a) a (if write r then Sequencer_ST else Sequencer_LD) b n).

Definition issueNext (reissue : Z → list dma_packet) : prog dma_node unit := λ n,
  assert_that (m_is_busy (seq n));;
  let r := completed (active_request (seq n)) in
  let n := with_seq n (with_request (seq n) r) in
  if decide (len r = bytes_completed r)
  then ruby_hit_callback (pkt r) reissue (with_seq n (with_busy (seq n) false))
  else
    msg ← next_message (m_data_block_mask (seq n)) r;
    u ← enqueue_msg msg n;
    Ok (tt, with_seq u.2 (with_request (seq u.2) (issued r (SequencerMsg.m_Len msg)))).

(** The request with the bytes of a line in its packet. *)
Definition received (mask : Z) (dblk : DataBlock.t) r : outcome DMARequest :=
  let n := bytes_issued r - bytes_completed r in
  let offset := if decide (bytes_completed r = 0) then s32 (Z.land (start_paddr r) mask) else 0 in
  assert_that (negb (write r));;
  match data r with
  | Some l =>
      d ← DataBlock.getData sys dblk offset n;
      l ← copy_in l (bytes_completed r) d n;
      Ok (mkDMARequest (start_paddr r) (len r) (write r) (bytes_completed r) (bytes_issued r) (set_data (pkt r) l))
  | None => Ok r
  end.

Definition dataCallback (dblk : DataBlock.t) (reissue : Z → list dma_packet) : prog dma_node unit := λ n,
  assert_that (m_is_busy (seq n));;
  r ← received (m_data_block_mask (seq n)) dblk (active_request (seq n));
  issueNext reissue (with_seq n (with_request (seq n) r)).

Definition ackCallback (reissue : Z → list dma_packet) : prog dma_node unit := issueNext reissue.

End sequencer.
End DmaPort.

(** ** The controller *)

Module DmaController.

Record t := mk { node : dma_node; cur_state : DMA.State; m_machineID : MachineID; clk : ClockedObject.t }.

Definition with_node (s : t) (n : dma_node) : t := mk n (cur_state s) (m_machineID s) (clk s).
Definition with_state (s : t) (st : DMA.State) : t := mk (node s) st (m_machineID s) (clk s).

(** The parameters of the machine. *)
Record config := mkConfig { request_latency : Z; m_transitions_per_cycle : Z }.

Section controller.
Context (sys : RubySystem.t) (counts : list Z) (junk : Z) (dirs : DirectoryMemory.statics).
Context (isMemAddr : Z → bool) (backing_store : option (dma_packet → dma_packet)) (clockPeriod : Z).
(** What the device does when it is told to retry. *)
Context (reissue : Z → list dma_packet).
Context (cfg : config) (now rt : Z).
Implicit Types (s : t) (addr : Z).

Definition on_node {A} (p : prog dma_node A) : prog t A := zoom node with_node p.
Definition on_abs {A} (p : prog (AbstractController.t payload) A) : prog t A := on_node (zoom ctl with_ctl p).

Definition getState (_ : Z) : prog t DMA.State := gets cur_state.
Definition setState (_ : Z) (st : DMA.State) : prog t unit := modS (λ s, with_state s st).
Definition getAccessPermission (_ : Z) : AccessPermission := NotPresent.
Definition functionalRead (_ : Z) : outcome unit := Err PanicFault.
Definition functionalWrite (_ : Z) : outcome Z := Err PanicFault.

Definition peek_request : prog t SequencerMsg.t :=
  p ← on_abs (AbstractController.peek dma_mandatoryQueue); lift (as_sequencer p).
Definition peek_response : prog t DMAResponseMsg.t :=
  p ← on_abs (AbstractController.peek dma_responseFromDir); lift (as_dma_response p).

(** *** Actions *)

(** [enqueue(requestToDir_out, DMARequestMsg, request_latency) { ... }] *)
Definition enqueue_out (ty : DMARequestType) (in_msg : SequencerMsg.t) (dest : NetDest.t) (b : DataBlock.t)
    : prog t unit := λ s,
  on_abs (AbstractController.enqueue sys now rt (ClockedObject.clockEdge now (clk s) 0) dma_requestToDir
    (PDMARequest (DMARequestMsg.mk ty (SequencerMsg.m_PhysicalAddress in_msg) (SequencerMsg.m_LineAddress in_msg)
      (m_machineID s) dest b (SequencerMsg.m_Len in_msg) Size_Writeback_Control))
    (request_latency cfg) false) s.

Definition send_to_dir (ty : DMARequestType) addr : prog t unit :=
  in_msg ← peek_request;
  b ← lift (DataBlock.assign_from sys (DataBlock.create sys) (SequencerMsg.m_DataBlk in_msg));
  dest ← lift (d ← NetDest.create counts junk; m ← map_Address_to_Directory dirs addr; NetDest.add counts d m);
  enqueue_out ty in_msg dest b.

Definition s_sendReadRequest : Z → prog t unit := send_to_dir DMARequest_READ.
Definition s_sendWriteRequest : Z → prog t unit := send_to_dir DMARequest_WRITE.

Definition a_ackCallback (_ : Z) : prog t unit :=
  _ ← peek_response;
  on_node (DmaPort.ackCallback sys isMemAddr backing_store clockPeriod now rt reissue).
Definition d_dataCallback (_ : Z) : prog t unit :=
  in_msg ← peek_response;
  on_node (DmaPort.dataCallback sys isMemAddr backing_store clockPeriod now rt (DMAResponseMsg.m_DataBlk in_msg) reissue).

Definition pop (buf : Z) : prog t unit := _ ← on_abs (AbstractController.dequeue now buf); mret tt.
Definition p_popRequestQueue (_ : Z) : prog t unit := pop dma_mandatoryQueue.
Definition p_popResponseQueue (_ : Z) : prog t unit := pop dma_responseFromDir.

Definition perform (a : DMA.action) : Z → prog t unit :=
  match a with
  | DMA.s_sendReadRequest => s_sendReadRequest
  | DMA.s_sendWriteRequest => s_sendWriteRequest
  | DMA.a_ackCallback => a_ackCallback
  | DMA.d_dataCallback => d_dataCallback
  | DMA.p_popRequestQueue => p_popRequestQueue
  | DMA.p_popResponseQueue => p_popResponseQueue
  end.

(** *** Transitions and ports *)

(** The only resource is the queue to the directory. *)
Definition needs (a : DMA.action) (_ : unit) : bool :=
  match a with DMA.s_sendReadRequest | DMA.s_sendWriteRequest => true | _ => false end.
Definition available (_ : unit) (n : Z) : prog t bool :=
  on_abs (AbstractController.areNSlotsAvailable now dma_requestToDir n).

Definition doTransition (event : DMA.Event) addr : prog t TransitionResult :=
  state ← getState addr;
  r ← doTransitionWorker DMA.find_transition perform needs [tt] available event state addr;
  match r.1 with
  | TransitionResult_Valid => _ ← setState addr r.2; mret r.1
  | TransitionResult_ResourceStall => mret r.1
  end.

Definition wake_next_cycle : prog t unit := on_abs (AbstractController.scheduleEvent 1).

Definition trigger (event : DMA.Event) addr : prog t port_result :=
  r ← doTransition event addr; after_transition wake_next_cycle r.

Definition if_ready (buf : Z) (p : prog t port_result) : prog t port_result :=
  b ← on_abs (AbstractController.isReady now buf); if b : bool then p else mret Idle.

Definition dmaRequestQueue_in : prog t port_result :=
  if_ready dma_mandatoryQueue (
    in_msg ← peek_request;
    match SequencerMsg.m_Type in_msg with
    | Sequencer_LD => trigger DMA.Event_ReadRequest (SequencerMsg.m_LineAddress in_msg)
    | Sequencer_ST => trigger DMA.Event_WriteRequest (SequencerMsg.m_LineAddress in_msg)
    | _ => raise PanicFault
    end).

Definition dmaResponseQueue_in : prog t port_result :=
  if_ready dma_responseFromDir (
    in_msg ← peek_response;
    match DMAResponseMsg.m_Type in_msg with
    | DMAResponse_ACK => trigger DMA.Event_Ack (DMAResponseMsg.m_LineAddress in_msg)
    | DMAResponse_DATA => trigger DMA.Event_Data (DMAResponseMsg.m_LineAddress in_msg)
    | DMAResponse_NULL => raise PanicFault
    end).

Definition ports : list (Z * prog t port_result) := [(0, dmaRequestQueue_in); (0, dmaResponseQueue_in)].

Definition set_cur_in_port (rank : Z) : prog t unit :=
  on_abs (modS (λ c, AbstractController.with_cur_in_port c rank)).

Definition wakeup (fuel : nat) : prog t unit :=
  wakeup_loop ports set_cur_in_port wake_next_cycle (m_transitions_per_cycle cfg) fuel 0.

End controller.
End DmaController.
