(* ===== verification/DirController.v ===== *)
(** * The directory controller (mem/protocol/MSI_Snooping_One_Level_RT-dir.sm, with the code
    that slicc/symbols/StateMachine.py writes around it, and the memory port of
    mem/ruby/slicc_interface/AbstractController.cc)

    The controller of a directory as it runs: its memory of entries, the table of
    outstanding transactions, the message buffers, the queue of requests to the memory, and
    the functions, ports and actions of the protocol file.  The transitions are those of
    [MsiTables].  What the memory behind the port does is not part of the program: its
    answers are arguments. *)

From S2P Require Import Prelude IntMath Addresses NodeSets Destinations Clocks StdHeap Buffers Arbiter.
From S2P Require Import SlotTimes Blocks Policies Caches Tables MsiTables Controllers DirectoryMemory.
From S2P Require Import Messages Packets PacketQueues Machines.
Import RubySlicc_Util.
Local Open Scope Z_scope.

(** A packet of the memory port, with the machine in its [SenderState]. *)
Record mem_packet := mkMemPacket {
  pkt_addr : Z;
  pkt_size : Z;
  pkt_isRead : bool;
  pkt_isWrite : bool;
  pkt_isResponse : bool;
  pkt_data : list Z;
  senderState : option MachineID }.

(** The commands ReadResp and WriteReq have data, ReadReq and WriteResp have none. *)
Definition hasData (k : mem_packet) : bool :=
  pkt_isRead k && pkt_isResponse k || pkt_isWrite k && negb (pkt_isResponse k).

Definition pkt_with_data (k : mem_packet) (l : list Z) : mem_packet :=
  mkMemPacket (pkt_addr k) (pkt_size k) (pkt_isRead k) (pkt_isWrite k) (pkt_isResponse k) l (senderState k).

(** [pkt->checkFunctional(other)] for a packet of the memory port, which is not secure. *)
Definition check_packet (f : Packet.t) (k : mem_packet) : outcome (bool * Packet.t * mem_packet) :=
  r ← Packet.checkFunctional f (pkt_addr k) false (pkt_size k)
        (if hasData k then Some (pkt_data k) else None);
  Ok (r.1, from_option (pkt_with_data k) k r.2).

(** The packet of a functional write. *)
Definition write_packet (p : packet) : Packet.t :=
  Packet.mk (Blocks.pkt_addr p) (Blocks.pkt_size p) false true false false (Some (Blocks.pkt_data p)) [].

(** What lies behind the memory port, for functional accesses. *)
Class FunctionalMemory (M : Type) := {
  mem_read : M → packet → packet;
  mem_write : M → packet → M }.

(** The names of the message buffers. *)
Definition requestToDir : Z := 0.
Definition requestToDir_WB : Z := 1.
Definition responseToDir : Z := 2.
Definition responseFromDir : Z := 3.
Definition responseFromMemory : Z := 4.

Module DirController.

(** [structure(Entry, ...)] *)
Record Entry := mkEntry {
  DirectoryState : Directory.State;
  Owner : NetDest.t;
  m_Permission : AccessPermission }.

Definition with_state (e : Entry) (st : Directory.State) : Entry := mkEntry st (Owner e) (m_Permission e).
Definition with_owner (e : Entry) (d : NetDest.t) : Entry := mkEntry (DirectoryState e) d (m_Permission e).
Definition changePermission (e : Entry) (p : AccessPermission) : Entry :=
  mkEntry (DirectoryState e) (Owner e) p.

(** [structure(TBE, ...)] *)
Record TBE := mkTBE {
  PhysicalAddress : Z;
  TBEState : Directory.State;
  DataBlk : DataBlock.t;
  Len : Z;
  L1_GetS_IDs : NetDest.t;
  L1_Get_IDs : NetDest.t;
  L1_GetM_ID : MachineID }.

Definition tbe_with_state (x : TBE) (st : Directory.State) : TBE :=
  mkTBE (PhysicalAddress x) st (DataBlk x) (Len x) (L1_GetS_IDs x) (L1_Get_IDs x) (L1_GetM_ID x).
Definition tbe_with_request (x : TBE) (a : Z) (b : DataBlock.t) (n : Z) : TBE :=
  mkTBE a (TBEState x) b n (L1_GetS_IDs x) (L1_Get_IDs x) (L1_GetM_ID x).
Definition tbe_with_ids (x : TBE) (gets all : NetDest.t) : TBE :=
  mkTBE (PhysicalAddress x) (TBEState x) (DataBlk x) (Len x) gets all (L1_GetM_ID x).

Record t := mk {
  base : AbstractController.t payload;
  directory : DirectoryMemory.t Entry;
  TBEs : TBETable.t TBE;
  memoryPort : PacketQueue.t mem_packet;
  m_machineID : MachineID;
  clk : ClockedObject.t }.

Definition with_base (s : t) (b : AbstractController.t payload) : t :=
  mk b (directory s) (TBEs s) (memoryPort s) (m_machineID s) (clk s).
Definition with_directory (s : t) (d : DirectoryMemory.t Entry) : t :=
  mk (base s) d (TBEs s) (memoryPort s) (m_machineID s) (clk s).
Definition with_TBEs (s : t) (b : TBETable.t TBE) : t :=
  mk (base s) (directory s) b (memoryPort s) (m_machineID s) (clk s).
Definition with_port (s : t) (q : PacketQueue.t mem_packet) : t :=
  mk (base s) (directory s) (TBEs s) q (m_machineID s) (clk s).

(** The controller during a transition, with the pointer its actions share. *)
Record frame := mkFrame { self : t; m_tbe_ptr : option Z }.
Definition with_self (f : frame) (s : t) : frame := mkFrame s (m_tbe_ptr f).
Definition with_tbe_ptr (f : frame) (p : option Z) : frame := mkFrame (self f) p.

(** The parameters of the machine. *)
Record config := mkConfig {
  to_mem_ctrl_latency : Z;
  directory_latency : Z;
  m_transitions_per_cycle : Z }.

Section controller.
(** [anyone] is what a [MachineID] without initialiser holds, and [functional] the answer of
    the memory to a functional access. *)
Context (sys : RubySystem.t) (counts : list Z) (junk : Z) (dirs : DirectoryMemory.statics).
Context (anyone : MachineID) (functional : mem_packet → mem_packet).
Context (cfg : config) (now rt : Z).
Implicit Types (s : t) (addr : Z).

(** *** The parts of the state *)

Definition on_abs {A} (p : prog (AbstractController.t payload) A) : prog t A := zoom base with_base p.
Definition on_self {A} (p : prog t A) : prog frame A := zoom self with_self p.

Definition deref_tbe s (p : option Z) : outcome TBE :=
  a ← from_option_or NullDeref p; from_option_or NullDeref (TBETable.lookup (TBEs s) a).

Definition update_tbe (p : option Z) (f : TBE → TBE) : prog t unit := λ s,
  a ← from_option_or NullDeref p;
  _ ← from_option_or NullDeref (TBETable.lookup (TBEs s) a);
  Ok (tt, with_TBEs s (TBETable.update_entry (TBEs s) a f)).

(** [TBEs[addr]] *)
Definition tbe_ptr s addr : option Z :=
  match TBETable.lookup (TBEs s) addr with Some _ => Some addr | None => None end.

(** *** Functions of the protocol file *)

(** [new Entry] *)
Definition new_entry : outcome Entry :=
  d ← NetDest.create counts junk; Ok (mkEntry Directory.State_I d NotPresent).

(** The entry of an address, made when there is none. *)
Definition getDirectoryEntry addr : prog t Entry := λ s,
  o ← DirectoryMemory.lookup sys dirs (directory s) addr;
  match o with
  | Some e => Ok (e, s)
  | None =>
      e ← new_entry;
      d ← DirectoryMemory.allocate changePermission sys dirs (directory s) addr e;
      Ok (changePermission e Read_Only, with_directory s d)
  end.

Definition store_entry addr (e : Entry) : prog t unit := λ s,
  d ← DirectoryMemory.update_entry sys dirs (directory s) addr (λ _, e); Ok (tt, with_directory s d).

(** A write to the entry that [getDirectoryEntry] returns. *)
Definition update_entry addr (f : Entry → outcome Entry) : prog t unit :=
  e ← getDirectoryEntry addr; e ← lift (f e); store_entry addr e.

Definition isPresent addr : prog t bool := reads (λ s, DirectoryMemory.isPresent dirs (directory s) addr).

Definition getState (tbe : option Z) addr : prog t Directory.State :=
  match tbe with
  | Some _ => x ← reads (λ s, deref_tbe s tbe); mret (TBEState x)
  | None =>
      present ← isPresent addr;
      if present : bool then e ← getDirectoryEntry addr; mret (DirectoryState e)
      else mret Directory.State_I
  end.

Definition setState (tbe : option Z) addr (st : Directory.State) : prog t unit :=
  _ ← (match tbe with Some _ => update_tbe tbe (λ x, tbe_with_state x st) | None => mret tt end);
  present ← isPresent addr;
  when present (update_entry addr (λ e, Ok (with_state e st))).

Definition getAccessPermission addr : prog t AccessPermission :=
  tbe ← gets (λ s, tbe_ptr s addr);
  match tbe with
  | Some _ => x ← reads (λ s, deref_tbe s tbe); mret (Directory.State_to_permission (TBEState x))
  | None =>
      present ← isPresent addr;
      if present : bool
      then e ← getDirectoryEntry addr; mret (Directory.State_to_permission (DirectoryState e))
      else mret NotPresent
  end.

Definition setAccessPermission addr (st : Directory.State) : prog t unit :=
  present ← isPresent addr;
  when present (update_entry addr (λ e, Ok (changePermission e (Directory.State_to_permission st)))).

(** *** Functional accesses *)

Section functional.
Context {M : Type} `{FunctionalMemory M}.
Implicit Types (m : M) (p : packet).

Definition functionalMemoryRead m p : packet := mem_read m p.

(** The answers of the memory, the packets on their way to it, and the memory. *)
Definition functionalMemoryWrite s m p : outcome (Z * (t * M)) :=
  b ← from_option_or NullDeref (AbstractController.buffers (base s) !! responseFromMemory);
  r ← MessageBuffer.functionalWrite (payload_functionalWrite sys) b p;
  q ← PacketQueue.checkFunctional check_packet (memoryPort s) (write_packet p);
  let n := s32 (r.1 + Z.b2z q.1.1) in
  let s := with_base s (AbstractController.with_buffer (base s) responseFromMemory r.2 []) in
  Ok (s32 (n + 1), (with_port s q.2, mem_write m p)).

Definition functionalRead s m addr p : outcome packet :=
  match tbe_ptr s addr with
  | Some _ as q => x ← deref_tbe s q; o ← testAndRead sys addr (DataBlk x) p; Ok (default p o)
  | None => Ok (functionalMemoryRead m p)
  end.

Definition functionalWrite s m addr p : outcome (Z * (t * M)) :=
  r ← (match tbe_ptr s addr with
       | Some _ as q =>
           x ← deref_tbe s q;
           o ← testAndWrite sys addr (DataBlk x) p;
           match o with
           | Some b => r ← update_tbe q (λ x, tbe_with_request x (PhysicalAddress x) b (Len x)) s; Ok (1, r.2)
           | None => Ok (0, s)
           end
       | None => Ok (0, s)
       end);
  r' ← functionalMemoryWrite r.2 m p;
  Ok (s32 (r.1 + r'.1), r'.2).

End functional.

(** *** The memory port *)

Definition clockEdge s (cycles : Z) : Z := ClockedObject.clockEdge now (clk s) cycles.

(** The message that an answer of the memory becomes. *)
Definition recvTimingResp (pkt : mem_packet) : prog t unit := λ s,
  assert_that (pkt_isResponse pkt);;
  requestor ← from_option_or NullDeref (senderState pkt);
  msg ← (if pkt_isRead pkt then
           b ← DataBlock.setData sys (DataBlock.create sys) (pkt_data pkt) 0 (RubySystem.getBlockSizeBytes sys);
           Ok (MemoryMsg.mk (pkt_addr pkt) MEMORY_READ (m_machineID s) requestor b Size_Response_Data
                 Prefetch_No false 0)
         else if pkt_isWrite pkt then
           Ok (MemoryMsg.mk (pkt_addr pkt) MEMORY_WB (m_machineID s) requestor (DataBlock.create sys)
                 Size_Writeback_Control Prefetch_No false 0)
         else Err PanicFault);
  on_abs (AbstractController.enqueue sys now rt (clockEdge s 0) responseFromMemory (PMemory msg) 1 false) s.

(** [memoryPort.schedTimingReq(pkt, clockEdge(latency))] *)
Definition schedTimingReq (pkt : mem_packet) (latency : Z) : prog t unit := λ s,
  q ← PacketQueue.schedSendTiming (λ _, false) now (memoryPort s) pkt (clockEdge s latency) false;
  Ok (tt, with_port s q).

(** During warmup the memory answers at once. *)
Definition send_to_memory (pkt : mem_packet) (latency : Z) : prog t unit :=
  if RubySystem.getWarmupEnabled sys then recvTimingResp (functional pkt)
  else schedTimingReq pkt latency.

Definition queueMemoryRead (id : MachineID) addr (latency : Z) : prog t unit :=
  let n := RubySystem.getBlockSizeBytes sys in
  send_to_memory (mkMemPacket addr n true false false (replicate (Z.to_nat n) junk) (Some id)) latency.

Definition queueMemoryWrite (id : MachineID) addr (latency : Z) (block : DataBlock.t) : prog t unit :=
  let n := RubySystem.getBlockSizeBytes sys in
  data ← lift (d ← DataBlock.getData sys block 0 n; copy_in (replicate (Z.to_nat n) junk) 0 d n);
  send_to_memory (mkMemPacket addr n false true false data (Some id)) latency.

(** The buffer has [size] bytes, the request the size of a block. *)
Definition queueMemoryWritePartial (id : MachineID) addr (latency : Z) (block : DataBlock.t) (size : Z)
    : prog t unit :=
  let n := RubySystem.getBlockSizeBytes sys in
  data ← lift (o ← Address.getOffset sys addr;
               d ← DataBlock.getData sys block o size;
               copy_in (replicate (Z.to_nat size) junk) 0 d size);
  schedTimingReq (mkMemPacket addr n false true false data (Some id)) latency.

(** *** Actions *)

(** The heads of the queues, cast to the types of their ports. *)
Definition peek_request (buf : Z) : prog t RequestMsg.t :=
  p ← on_abs (AbstractController.peek buf); lift (as_request p).
Definition peek_response : prog t ResponseMsg.t :=
  p ← on_abs (AbstractController.peek responseToDir); lift (as_response p).
Definition peek_memory : prog t MemoryMsg.t :=
  p ← on_abs (AbstractController.peek responseFromMemory); lift (as_memory p).

Definition c_clearOwner addr : prog frame unit :=
  on_self (update_entry addr (λ e, d ← NetDest.clear (Owner e); Ok (with_owner e d))).

(** [Owner.clear(); Owner.add(m);] *)
Definition set_owner addr (m : MachineID) : prog t unit :=
  _ ← update_entry addr (λ e, d ← NetDest.clear (Owner e); Ok (with_owner e d));
  update_entry addr (λ e, d ← NetDest.add counts (Owner e) m; Ok (with_owner e d)).

Definition e_ownerIsRequestor addr : prog frame unit :=
  on_self (in_msg ← peek_request requestToDir; set_owner addr (RequestMsg.m_Requestor in_msg)).
Definition e_ownerIsRequest addr : prog frame unit :=
  on_self (in_msg ← peek_request requestToDir_WB; set_owner addr (RequestMsg.m_Requestor in_msg)).
Definition e_ownerIsRequestorxx addr : prog frame unit :=
  _ ← on_self (update_entry addr (λ e, d ← NetDest.clear (Owner e); Ok (with_owner e d)));
  x ← reads (λ f, deref_tbe (self f) (m_tbe_ptr f));
  on_self (update_entry addr (λ e, d ← NetDest.add counts (Owner e) (L1_GetM_ID x); Ok (with_owner e d))).

(** [enqueue(responseNetwork_out, ResponseMsg, to_mem_ctrl_latency) { ... }] *)
Definition send addr (ty : CoherenceResponseType) (sender : MachineID) (dest : NetDest.t) (b : DataBlock.t)
    (size : MessageSizeType) (send_time : Z) : prog t unit := λ s,
  on_abs (AbstractController.enqueue sys now rt (clockEdge s 0) responseFromDir
    (PResponse (ResponseMsg.mk addr ty sender dest b false size 0 send_time))
    (to_mem_ctrl_latency cfg) false) s.

(** A destination made by one [add]. *)
Definition dest_of (m : MachineID) : outcome NetDest.t :=
  d ← NetDest.create counts junk; NetDest.add counts d m.

(** [out_msg.DataBlk := b] *)
Definition block_of (b : DataBlock.t) : outcome DataBlock.t :=
  DataBlock.assign_from sys (DataBlock.create sys) b.

Definition map_Address_to_DMA (_ : Z) : MachineID := mkMachineID MachineType_DMA 0.

Definition send_ack addr (to : MemoryMsg.t → MachineID) : prog frame unit :=
  on_self (
    in_msg ← peek_memory;
    me ← gets m_machineID;
    dest ← lift (dest_of (to in_msg));
    send addr Response_MEMORY_ACK me dest (DataBlock.create sys) Size_Response_Control 0).

Definition a_sendAck addr : prog frame unit := send_ack addr MemoryMsg.m_Sender.
Definition aa_sendAck addr : prog frame unit := send_ack addr MemoryMsg.m_OriginalRequestorMachId.

Definition assert_tbe : prog frame unit := λ f,
  slicc_assert (bool_decide (is_Some (m_tbe_ptr f)));; Ok (tt, f).

(** Data of the message at hand to the machines the transaction entry names. *)
Definition send_data_to (ids : TBE → outcome NetDest.t) (block : prog t DataBlock.t) addr : prog frame unit :=
  b ← on_self block;
  x ← reads (λ f, deref_tbe (self f) (m_tbe_ptr f));
  dest ← lift (ids x);
  b ← lift (block_of b);
  on_self (me ← gets m_machineID; send addr Response_DATA me dest b Size_Response_Data 0).

Definition from_memory : prog t DataBlock.t := m ← peek_memory; mret (MemoryMsg.m_DataBlk m).
Definition from_response : prog t DataBlock.t := m ← peek_response; mret (ResponseMsg.m_DataBlk m).

(** [assert(ids.count() > 0)] *)
Definition assert_some (ids : TBE → NetDest.t) : prog frame unit :=
  x ← reads (λ f, deref_tbe (self f) (m_tbe_ptr f));
  n ← lift (NetDest.count (ids x));
  lift (slicc_assert (bool_decide (0 < n))).

Definition d_sendDataToCores addr : prog frame unit :=
  _ ← assert_some L1_Get_IDs; send_data_to (λ x, Ok (L1_Get_IDs x)) from_memory addr.
Definition d_sendDataToCoresRN addr : prog frame unit :=
  _ ← assert_some L1_Get_IDs; send_data_to (λ x, Ok (L1_Get_IDs x)) from_response addr.
Definition d_sendDataToSharersRN addr : prog frame unit :=
  _ ← assert_tbe; _ ← assert_some L1_GetS_IDs; send_data_to (λ x, Ok (L1_GetS_IDs x)) from_response addr.
Definition d_sendDataToRequestorRN addr : prog frame unit :=
  send_data_to (λ x, dest_of (L1_GetM_ID x)) from_response addr.
Definition d_sendDataToSharers addr : prog frame unit :=
  _ ← assert_tbe; _ ← assert_some L1_GetS_IDs; send_data_to (λ x, Ok (L1_GetS_IDs x)) from_memory addr.
Definition d_sendDataToRequestor addr : prog frame unit :=
  send_data_to (λ x, dest_of (L1_GetM_ID x)) from_memory addr.

Definition dequeue_from (buf : Z) : prog t Z := on_abs (AbstractController.dequeue now buf).
Definition pop (buf : Z) : prog frame unit := on_self (_ ← dequeue_from buf; mret tt).

(** The answer of the memory goes to the requestor, stamped for a slot of its core. *)
Definition d_sendData addr : prog frame unit :=
  on_self (
    in_msg ← peek_memory;
    dest ← lift (dest_of (MemoryMsg.m_OriginalRequestorMachId in_msg));
    b ← lift (block_of (MemoryMsg.m_DataBlk in_msg));
    time ← dequeue_from responseFromMemory;
    node ← lift (NetDest.smallestNodeID dest);
    time ← lift (send_time node time);
    me ← gets m_machineID;
    send addr Response_DATA me dest b Size_Response_Data time).

(** [new Directory_TBE] *)
Definition new_tbe : outcome TBE :=
  d ← NetDest.create counts junk;
  Ok (mkTBE 0 Directory.State_I (DataBlock.create sys) 0 d d anyone).

Definition i_allocateTBE addr : prog frame unit :=
  _ ← on_self (λ s, x ← new_tbe; b ← TBETable.allocate sys x (TBEs s) addr; Ok (tt, with_TBEs s b));
  modS (λ f, with_tbe_ptr f (tbe_ptr (self f) addr)).

Definition w_deallocateTBE addr : prog frame unit :=
  _ ← on_self (λ s, b ← TBETable.deallocate sys (TBEs s) addr; Ok (tt, with_TBEs s b));
  modS (λ f, with_tbe_ptr f None).

Definition j_popIncomingRequestQueue (_ : Z) : prog frame unit := pop requestToDir.
Definition j_popIncomingRequestWBQueue (_ : Z) : prog frame unit := pop requestToDir_WB.
Definition k_popIncomingResponseQueue (_ : Z) : prog frame unit := pop responseToDir.
Definition l_popMemQueue (_ : Z) : prog frame unit := pop responseFromMemory.
Definition p_popIncomingDMARequestQueue (_ : Z) : prog frame unit := pop requestToDir.

Definition kd_wakeUpDependents addr : prog frame unit :=
  on_self (on_abs (AbstractController.wakeUpBuffers now addr)).

Definition fetch_for (buf : Z) addr : prog frame unit :=
  on_self (
    in_msg ← peek_request buf;
    queueMemoryRead (RequestMsg.m_Requestor in_msg) addr (to_mem_ctrl_latency cfg)).

Definition qf_queueMemoryFetchRequest addr : prog frame unit := fetch_for requestToDir addr.
Definition qf_queueMemoryFetchRequestWB addr : prog frame unit := fetch_for requestToDir_WB addr.
Definition qf_queueMemoryFetchRequestDMA addr : prog frame unit := fetch_for requestToDir addr.
Definition qf_queueMemoryFetchRequestWBDMA addr : prog frame unit := fetch_for requestToDir_WB addr.

Definition qf_queueDirectMemoryFetchRequest addr : prog frame unit :=
  x ← reads (λ f, deref_tbe (self f) (m_tbe_ptr f));
  on_self (queueMemoryRead (L1_GetM_ID x) addr (to_mem_ctrl_latency cfg)).

Definition qw_queueMemoryWBRequest addr : prog frame unit :=
  on_self (
    in_msg ← peek_response;
    queueMemoryWrite (ResponseMsg.m_Sender in_msg) addr (to_mem_ctrl_latency cfg) (ResponseMsg.m_DataBlk in_msg)).

Definition write_partial (buf : Z) addr : prog frame unit :=
  on_self (
    in_msg ← peek_request buf;
    me ← gets m_machineID;
    queueMemoryWritePartial me addr (to_mem_ctrl_latency cfg) (RequestMsg.m_DataBlk in_msg)
      (RequestMsg.m_Len in_msg)).

Definition qw_queueMemoryWBRequest_partial addr : prog frame unit := write_partial requestToDir addr.
Definition qw_queueMemoryWBRequest_partialWB addr : prog frame unit := write_partial requestToDir_WB addr.

Definition qw_queueMemoryWBRequest_partialTBE (_ : Z) : prog frame unit :=
  in_msg ← on_self peek_response;
  x ← reads (λ f, deref_tbe (self f) (m_tbe_ptr f));
  on_self (queueMemoryWritePartial (ResponseMsg.m_Sender in_msg) (PhysicalAddress x)
    (to_mem_ctrl_latency cfg) (DataBlk x) (Len x)).

(** Data and acknowledgement for the DMA controller; their sender is not set. *)
Definition send_dma (block : prog t DataBlock.t) addr : prog frame unit :=
  on_self (
    b ← block;
    b ← lift (block_of b);
    dest ← lift (dest_of (map_Address_to_DMA addr));
    send addr Response_DATA anyone dest b Size_Response_Data 0).

Definition dr_sendDMAData addr : prog frame unit := send_dma from_memory addr.
Definition drp_sendDMAData addr : prog frame unit := send_dma from_response addr.

Definition da_sendDMAAck addr : prog frame unit :=
  on_self (
    dest ← lift (dest_of (map_Address_to_DMA addr));
    send addr Response_ACK anyone dest (DataBlock.create sys) Size_Writeback_Control 0).

Definition z_stall (_ : Z) : prog frame unit := mret tt.

Definition stall (buf : Z) addr : prog frame unit :=
  on_self (on_abs (AbstractController.stall_and_wait sys now buf addr)).

Definition z_stallAndWaitRequest addr : prog frame unit := stall requestToDir addr.
Definition z_stallAndWaitRequestWB addr : prog frame unit := stall requestToDir_WB addr.

Definition recycle (buf : Z) : prog frame unit :=
  on_self (on_abs (AbstractController.on_buffer buf (MessageBuffer.recycle now))).

Definition zz_recycleDMAQueue (_ : Z) : prog frame unit := recycle requestToDir.
Definition zz_recycleDMAWBQueue (_ : Z) : prog frame unit := recycle requestToDir_WB.

Definition ss_recordGetSL1ID (_ : Z) : prog frame unit :=
  in_msg ← on_self (peek_request requestToDir);
  ptr ← gets m_tbe_ptr;
  x ← reads (λ f, deref_tbe (self f) ptr);
  gets ← lift (NetDest.add counts (L1_GetS_IDs x) (RequestMsg.m_Requestor in_msg));
  all ← lift (NetDest.add counts (L1_Get_IDs x) (RequestMsg.m_Requestor in_msg));
  on_self (update_tbe ptr (λ x, tbe_with_ids x gets all)).

(** A transaction entry with what a DMA request asks for. *)
Definition allocate_for (buf : Z) addr : prog frame unit :=
  in_msg ← on_self (peek_request buf);
  _ ← i_allocateTBE addr;
  ptr ← gets m_tbe_ptr;
  x ← reads (λ f, deref_tbe (self f) ptr);
  b ← lift (DataBlock.assign_from sys (DataBlk x) (RequestMsg.m_DataBlk in_msg));
  on_self (update_tbe ptr (λ x,
    tbe_with_request x (RequestMsg.m_Addr in_msg) b (RequestMsg.m_Len in_msg))).

Definition v_allocateTBE addr : prog frame unit := allocate_for requestToDir addr.
Definition v_allocateTBEWB addr : prog frame unit := allocate_for requestToDir_WB addr.

Definition perform (a : Directory.action) : Z → prog frame unit :=
  match a with
  | Directory.c_clearOwner => c_clearOwner
  | Directory.e_ownerIsRequestor => e_ownerIsRequestor
  | Directory.e_ownerIsRequestorxx => e_ownerIsRequestorxx
  | Directory.e_ownerIsRequest => e_ownerIsRequest
  | Directory.a_sendAck => a_sendAck
  | Directory.d_sendDataToCores => d_sendDataToCores
  | Directory.d_sendDataToCoresRN => d_sendDataToCoresRN
  | Directory.d_sendDataToSharersRN => d_sendDataToSharersRN
  | Directory.d_sendDataToRequestorRN => d_sendDataToRequestorRN
  | Directory.d_sendDataToSharers => d_sendDataToSharers
  | Directory.d_sendDataToRequestor => d_sendDataToRequestor
  | Directory.d_sendData => d_sendData
  | Directory.aa_sendAck => aa_sendAck
  | Directory.i_allocateTBE => i_allocateTBE
  | Directory.w_deallocateTBE => w_deallocateTBE
  | Directory.j_popIncomingRequestQueue => j_popIncomingRequestQueue
  | Directory.j_popIncomingRequestWBQueue => j_popIncomingRequestWBQueue
  | Directory.k_popIncomingResponseQueue => k_popIncomingResponseQueue
  | Directory.l_popMemQueue => l_popMemQueue
  | Directory.kd_wakeUpDependents => kd_wakeUpDependents
  | Directory.qf_queueMemoryFetchRequest => qf_queueMemoryFetchRequest
  | Directory.qf_queueDirectMemoryFetchRequest => qf_queueDirectMemoryFetchRequest
  | Directory.qf_queueMemoryFetchRequestWB => qf_queueMemoryFetchRequestWB
  | Directory.qw_queueMemoryWBRequest => qw_queueMemoryWBRequest
  | Directory.qf_queueMemoryFetchRequestDMA => qf_queueMemoryFetchRequestDMA
  | Directory.qf_queueMemoryFetchRequestWBDMA => qf_queueMemoryFetchRequestWBDMA
  | Directory.p_popIncomingDMARequestQueue => p_popIncomingDMARequestQueue
  | Directory.dr_sendDMAData => dr_sendDMAData
  | Directory.qw_queueMemoryWBRequest_partial => qw_queueMemoryWBRequest_partial
  | Directory.qw_queueMemoryWBRequest_partialWB => qw_queueMemoryWBRequest_partialWB
  | Directory.da_sendDMAAck => da_sendDMAAck
  | Directory.z_stall => z_stall
  | Directory.z_stallAndWaitRequest => z_stallAndWaitRequest
  | Directory.z_stallAndWaitRequestWB => z_stallAndWaitRequestWB
  | Directory.zz_recycleDMAQueue => zz_recycleDMAQueue
  | Directory.zz_recycleDMAWBQueue => zz_recycleDMAWBQueue
  | Directory.ss_recordGetSL1ID => ss_recordGetSL1ID
  | Directory.drp_sendDMAData => drp_sendDMAData
  | Directory.v_allocateTBE => v_allocateTBE
  | Directory.v_allocateTBEWB => v_allocateTBEWB
  | Directory.qw_queueMemoryWBRequest_partialTBE => qw_queueMemoryWBRequest_partialTBE
  end.

(** *** Transitions *)

Inductive resource : Set := Slot_response.
Definition resources : list resource := [Slot_response].

Definition needs (a : Directory.action) (r : resource) : bool :=
  match a, r with
  | (Directory.a_sendAck | Directory.d_sendDataToCores | Directory.d_sendDataToCoresRN
     | Directory.d_sendDataToSharersRN | Directory.d_sendDataToRequestorRN | Directory.d_sendDataToSharers
     | Directory.d_sendDataToRequestor | Directory.d_sendData | Directory.aa_sendAck
     | Directory.dr_sendDMAData | Directory.da_sendDMAAck | Directory.drp_sendDMAData), Slot_response => true
  | _, _ => false
  end.

Definition available (r : resource) (n : Z) : prog frame bool :=
  match r with
  | Slot_response => on_self (on_abs (AbstractController.areNSlotsAvailable now responseFromDir n))
  end.

(** The pointer is local to [doTransition]; the actions may change it. *)
Definition doTransition (event : Directory.Event) (tbe : option Z) addr : prog t TransitionResult :=
  state ← getState tbe addr;
  r ← (λ s, r ← doTransitionWorker Directory.find_transition perform needs resources available
                  event state addr (mkFrame s tbe);
            Ok ((r.1, m_tbe_ptr r.2), self r.2));
  let '((result, next_state), tbe) := r in
  match result with
  | TransitionResult_Valid =>
      _ ← setState tbe addr next_state; _ ← setAccessPermission addr next_state; mret result
  | TransitionResult_ResourceStall => mret result
  end.

Definition wake_next_cycle : prog t unit := on_abs (AbstractController.scheduleEvent 1).

(** [trigger(event, addr, TBEs[addr])] *)
Definition trigger (event : Directory.Event) addr : prog t port_result :=
  tbe ← gets (λ s, tbe_ptr s addr);
  r ← doTransition event tbe addr; after_transition wake_next_cycle r.

(** *** Ports *)

Definition if_ready (buf : Z) (p : prog t port_result) : prog t port_result :=
  b ← on_abs (AbstractController.isReady now buf); if b : bool then p else mret Idle.

(** [assert(in_msg.Destination.isElement(machineID))] *)
Definition assert_for_me (d : NetDest.t) : prog t unit :=
  me ← gets m_machineID;
  here ← lift (NetDest.isElement counts d me);
  lift (slicc_assert here).

(** [getDirectoryEntry(addr).Owner.isElement(m)] *)
Definition is_owner addr (m : MachineID) : prog t bool :=
  e ← getDirectoryEntry addr; lift (NetDest.isElement counts (Owner e) m).

(** A write-back of a machine that is not the owner is dropped. *)
Definition putm_of (buf : Z) (in_msg : RequestMsg.t) : prog t port_result :=
  owner ← is_owner (RequestMsg.m_Addr in_msg) (RequestMsg.m_Requestor in_msg);
  if owner : bool then trigger Directory.Event_PUTM (RequestMsg.m_Addr in_msg)
  else _ ← dequeue_from buf; mret Idle.

Definition requestNetwork_in : prog t port_result :=
  if_ready requestToDir (
    in_msg ← peek_request requestToDir;
    let addr := RequestMsg.m_Addr in_msg in
    _ ← assert_for_me (RequestMsg.m_Destination in_msg);
    match RequestMsg.m_Type in_msg with
    | Request_GETS | Request_GETI => trigger Directory.Event_GETS addr
    | Request_GETM =>
        owner ← is_owner addr (RequestMsg.m_Requestor in_msg);
        trigger (if owner : bool then Directory.Event_GETMO else Directory.Event_GETM) addr
    | Request_UPG => trigger Directory.Event_UPG addr
    | Request_PUTM => putm_of requestToDir in_msg
    | _ => raise PanicFault
    end).

Definition requestNetworkWB_in : prog t port_result :=
  if_ready requestToDir_WB (
    in_msg ← peek_request requestToDir_WB;
    let addr := RequestMsg.m_Addr in_msg in
    _ ← assert_for_me (RequestMsg.m_Destination in_msg);
    match RequestMsg.m_Type in_msg with
    | Request_GETS | Request_GETI => trigger Directory.Event_GETS addr
    | Request_GETM => trigger Directory.Event_GETM addr
    | Request_UPG => trigger Directory.Event_UPG addr
    | Request_PUTM => putm_of requestToDir_WB in_msg
    | _ => raise PanicFault
    end).

Definition responseNetwork_in : prog t port_result :=
  if_ready responseToDir (
    in_msg ← peek_response;
    _ ← assert_for_me (ResponseMsg.m_Destination in_msg);
    match ResponseMsg.m_Type in_msg with
    | Response_DATA_TO_WB => trigger Directory.Event_Data (ResponseMsg.m_Addr in_msg)
    | _ => raise PanicFault
    end).

Definition memQueue_in : prog t port_result :=
  if_ready responseFromMemory (
    in_msg ← peek_memory;
    match MemoryMsg.m_Type in_msg with
    | MEMORY_READ => trigger Directory.Event_Memory_Data (MemoryMsg.m_Addr in_msg)
    | MEMORY_WB => trigger Directory.Event_Memory_Ack (MemoryMsg.m_Addr in_msg)
    | _ => raise PanicFault
    end).

(** The ports are tried in the order of the source, whatever their ranks. *)
Definition ports : list (Z * prog t port_result) :=
  [(0, requestNetwork_in); (0, requestNetworkWB_in); (1, responseNetwork_in); (2, memQueue_in)].

Definition set_cur_in_port (rank : Z) : prog t unit :=
  on_abs (modS (λ c, AbstractController.with_cur_in_port c rank)).

Definition wakeup (fuel : nat) : prog t unit :=
  wakeup_loop ports set_cur_in_port wake_next_cycle (m_transitions_per_cycle cfg) fuel 0.

End controller.
End DirController.
