(* ===== verification/L1Controller.v ===== *)
(** * The cache controller (mem/protocol/MSI_Snooping_One_Level_RT-cache.sm, with the code
    that slicc/symbols/StateMachine.py writes around it)

    The controller of an L1 cache as it runs: the two caches and the sequencer it shares
    with its processor, the table of outstanding transactions, the message buffers, the
    functions, ports and actions of the protocol file, and the loop that drives them.
    The transitions are those of [MsiTables].  [tbe] and [cache_entry] of an action are
    pointers, which are null or name the line they point to. *)

From S2P Require Import Prelude IntMath Addresses NodeSets Destinations Clocks StdHeap Buffers Arbiter.
From S2P Require Import SlotTimes Blocks Policies Caches Tables MsiTables Controllers DirectoryMemory.
From S2P Require Import Messages Sequencer Machines.
Import RubySlicc_Util.
Local Open Scope Z_scope.

(** The times that entries and transactions keep for the accounting of latencies. *)
Record latencies := mkLat {
  startTime : Z;
  endTime : Z;
  arbitLatency : Z;
  interCoreCohLatency : Z;
  intraCoreCohLatency : Z;
  firstScheduledTime : Z;
  CoreID : Z;
  zeroArb : bool }.

Definition no_latencies : latencies := mkLat 0 0 0 0 0 0 0 false.

Definition with_start (l : latencies) (t : Z) : latencies :=
  mkLat t (endTime l) (arbitLatency l) (interCoreCohLatency l) (intraCoreCohLatency l)
    (firstScheduledTime l) (CoreID l) (zeroArb l).
Definition with_end (l : latencies) (t intra : Z) : latencies :=
  mkLat (startTime l) t (arbitLatency l) (interCoreCohLatency l) intra
    (firstScheduledTime l) (CoreID l) (zeroArb l).
Definition with_scheduled (l : latencies) (t : Z) : latencies :=
  mkLat (startTime l) (endTime l) (arbitLatency l) (interCoreCohLatency l) (intraCoreCohLatency l)
    t (CoreID l) (zeroArb l).
Definition with_arrival (l : latencies) (inter core arbit : Z) : latencies :=
  mkLat (startTime l) (endTime l) arbit inter (intraCoreCohLatency l)
    (firstScheduledTime l) core (zeroArb l).

(** [structure(Entry, ..., interface="AbstractCacheEntry")] *)
Record Entry := mkEntry {
  CacheState : L1Cache.State;
  DataBlk : DataBlock.t;
  Dirty : bool;
  finalDestination : MachineID;
  finalDestinationSet : NetDest.t;
  entry_isAtomic : bool;
  entry_times : latencies }.

Definition with_state (e : Entry) (s : L1Cache.State) : Entry :=
  mkEntry s (DataBlk e) (Dirty e) (finalDestination e) (finalDestinationSet e) (entry_isAtomic e)
    (entry_times e).
Definition with_block (e : Entry) (b : DataBlock.t) (dirty : bool) : Entry :=
  mkEntry (CacheState e) b dirty (finalDestination e) (finalDestinationSet e) (entry_isAtomic e)
    (entry_times e).
Definition with_destinations (e : Entry) (d : NetDest.t) : Entry :=
  mkEntry (CacheState e) (DataBlk e) (Dirty e) (finalDestination e) d (entry_isAtomic e)
    (entry_times e).
Definition with_atomic (e : Entry) (b : bool) : Entry :=
  mkEntry (CacheState e) (DataBlk e) (Dirty e) (finalDestination e) (finalDestinationSet e) b
    (entry_times e).
Definition with_entry_times (e : Entry) (l : latencies) : Entry :=
  mkEntry (CacheState e) (DataBlk e) (Dirty e) (finalDestination e) (finalDestinationSet e)
    (entry_isAtomic e) l.

(** [structure(TBE, ...)] *)
Record TBE := mkTBE {
  tbe_Addr : Z;
  TBEState : L1Cache.State;
  tbe_DataBlk : DataBlock.t;
  tbe_Dirty : bool;
  pendingAcks : Z;
  tbe_isAtomic : bool;
  tbe_times : latencies }.

Definition tbe_with_state (x : TBE) (s : L1Cache.State) : TBE :=
  mkTBE (tbe_Addr x) s (tbe_DataBlk x) (tbe_Dirty x) (pendingAcks x) (tbe_isAtomic x) (tbe_times x).
Definition tbe_with_block (x : TBE) (b : DataBlock.t) (dirty atomic : bool) : TBE :=
  mkTBE (tbe_Addr x) (TBEState x) b dirty (pendingAcks x) atomic (tbe_times x).
Definition tbe_with_acks (x : TBE) (n : Z) : TBE :=
  mkTBE (tbe_Addr x) (TBEState x) (tbe_DataBlk x) (tbe_Dirty x) n (tbe_isAtomic x) (tbe_times x).
Definition tbe_with_times (x : TBE) (l : latencies) : TBE :=
  mkTBE (tbe_Addr x) (TBEState x) (tbe_DataBlk x) (tbe_Dirty x) (pendingAcks x) (tbe_isAtomic x) l.

(** The statistics the protocol increments, and the delays it samples. *)
Inductive counter : Type :=
  | seq_loads | seq_approx_loads | seq_ifetch | seq_stores | seq_approx_stores
  | seq_Istate_othergetM | seq_I_state_no_diff_check | seq_intermediate_state_diff_check
  | seq_coherence_inv | seq_approx_coherence_inv
  | Icache_demand_misses | Icache_demand_hits | Dcache_demand_misses | Dcache_demand_hits
  | Dcache_approx_load_misses | Dcache_approx_store_misses
  | Dcache_approx_load_hits | Dcache_approx_store_hits
  | delay_sample (vnet delay : Z).

(** The parameters of the machine, and the number of virtual networks. *)
Record config := mkConfig {
  l1_request_latency : Z;
  l1_response_latency : Z;
  send_evictions : bool;
  m_transitions_per_cycle : Z;
  vnets : Z }.

(** The names of the message buffers. *)
Definition mandatoryQueue : Z := 0.
Definition requestFromCache : Z := 1.
Definition requestFromCacheWB : Z := 2.
Definition responseFromCache : Z := 3.
Definition atomicRequestFromCache : Z := 4.
Definition responseToCache : Z := 5.
Definition requestToCache : Z := 6.
Definition requestToCacheWB : Z := 7.
Definition atomicRequestToCache : Z := 8.

(** The largest latencies seen so far. *)
Record worst := mkWorst {
  max_wcet_latency : Z;
  max_arbit_latency : Z;
  max_interC_latency : Z;
  max_intraC_latency : Z }.

Module L1Controller.

(** [base] is what the controller shares with the sequencer. *)
Record t := mk {
  base : node policy_ptr Entry;
  TBEs : TBETable.t TBE;
  is_blocked : Z;
  maxima : worst;
  m_machineID : MachineID;
  clk : ClockedObject.t;
  profile : list counter }.

Definition with_base (s : t) (n : node policy_ptr Entry) : t :=
  mk n (TBEs s) (is_blocked s) (maxima s) (m_machineID s) (clk s) (profile s).
Definition with_TBEs (s : t) (b : TBETable.t TBE) : t :=
  mk (base s) b (is_blocked s) (maxima s) (m_machineID s) (clk s) (profile s).
Definition with_blocked (s : t) (n : Z) : t :=
  mk (base s) (TBEs s) n (maxima s) (m_machineID s) (clk s) (profile s).
Definition with_maxima (s : t) (w : worst) : t :=
  mk (base s) (TBEs s) (is_blocked s) w (m_machineID s) (clk s) (profile s).
Definition with_profile (s : t) (l : list counter) : t :=
  mk (base s) (TBEs s) (is_blocked s) (maxima s) (m_machineID s) (clk s) l.

(** A pointer to an entry: which cache it is in (true: the data cache) and its line. *)
Definition entry_ref : Type := bool * Z.

(** The controller during a transition, with the two pointers its actions share. *)
Record frame := mkFrame {
  self : t;
  m_tbe_ptr : option Z;
  m_cache_entry_ptr : option entry_ref }.

Definition with_self (f : frame) (s : t) : frame := mkFrame s (m_tbe_ptr f) (m_cache_entry_ptr f).
Definition with_tbe_ptr (f : frame) (p : option Z) : frame := mkFrame (self f) p (m_cache_entry_ptr f).
Definition with_entry_ptr (f : frame) (p : option entry_ref) : frame :=
  mkFrame (self f) (m_tbe_ptr f) p.

Section controller.
Context (sys : RubySystem.t) (counts : list Z) (junk : Z) (dirs : DirectoryMemory.statics).
Context (cfg : config) (now rt : Z) (cooldown : bool).
Implicit Types (s : t) (addr : Z).

(** *** The parts of the state *)

Definition on_node {A} (p : prog (node policy_ptr Entry) A) : prog t A := zoom base with_base p.
Definition on_abs {A} (p : prog (AbstractController.t payload) A) : prog t A := on_node (on_ctl p).
Definition on_self {A} (p : prog t A) : prog frame A := zoom self with_self p.

Definition bump (c : counter) : prog t unit := modS (λ s, with_profile s (profile s ++ [c])).

Definition cache_of s (d : bool) : CacheMemory.t policy_ptr Entry :=
  if d then dataCache (base s) else instCache (base s).
Definition with_cache_of s (d : bool) (c : CacheMemory.t policy_ptr Entry) : t :=
  with_base s (if d then with_data_cache (base s) c else with_inst_cache (base s) c).

(** [*m_cache_entry_ptr] and [*m_tbe_ptr] *)
Definition deref_entry s (r : option entry_ref) : outcome Entry :=
  r ← from_option_or NullDeref r;
  o ← CacheMemory.lookup sys (cache_of s r.1) r.2;
  e ← from_option_or NullDeref o;
  Ok (AbstractCacheEntry.data e).

Definition deref_tbe s (p : option Z) : outcome TBE :=
  a ← from_option_or NullDeref p; from_option_or NullDeref (TBETable.lookup (TBEs s) a).

(** A write through a pointer. *)
Definition update_entry (r : option entry_ref) (f : AbstractCacheEntry.t Entry → AbstractCacheEntry.t Entry)
    : prog t unit := λ s,
  r ← from_option_or NullDeref r;
  c ← CacheMemory.update_entry sys (cache_of s r.1) r.2 f;
  Ok (tt, with_cache_of s r.1 c).

Definition update_data (r : option entry_ref) (f : Entry → Entry) : prog t unit :=
  update_entry r (λ e, AbstractCacheEntry.set_data e (f (AbstractCacheEntry.data e))).

Definition update_tbe (p : option Z) (f : TBE → TBE) : prog t unit := λ s,
  a ← from_option_or NullDeref p;
  _ ← from_option_or NullDeref (TBETable.lookup (TBEs s) a);
  Ok (tt, with_TBEs s (TBETable.update_entry (TBEs s) a f)).

(** *** Functions of the protocol file *)

(** [Dcache[addr]] or [Icache[addr]] as a pointer. *)
Definition cache_ptr s (d : bool) addr : outcome (option entry_ref) :=
  o ← CacheMemory.lookup sys (cache_of s d) addr;
  Ok (match o with Some _ => Some (d, addr) | None => None end).

Definition getDCacheEntry s addr : outcome (option entry_ref) := cache_ptr s true addr.
Definition getICacheEntry s addr : outcome (option entry_ref) := cache_ptr s false addr.

Definition getL1CacheEntry s addr : outcome (option entry_ref) :=
  d ← getDCacheEntry s addr;
  match d with Some _ => Ok d | None => getICacheEntry s addr end.

(** [TBEs[addr]] *)
Definition tbe_ptr s addr : option Z :=
  match TBETable.lookup (TBEs s) addr with Some _ => Some addr | None => None end.

Definition isAtomic s addr : outcome bool :=
  r ← getL1CacheEntry s addr;
  match r with Some _ => e ← deref_entry s r; Ok (entry_isAtomic e) | None => Ok false end.

(** [assert((Dcache.isTagPresent(addr) && Icache.isTagPresent(addr)) == false)] *)
Definition assert_exclusive s addr : outcome unit :=
  d ← CacheMemory.isTagPresent sys (dataCache (base s)) addr;
  i ← (if d : bool then CacheMemory.isTagPresent sys (instCache (base s)) addr else Ok false);
  slicc_assert (negb i).

Definition getState s (tbe : option Z) (cache_entry : option entry_ref) addr : outcome L1Cache.State :=
  assert_exclusive s addr;;
  match tbe with
  | Some _ => x ← deref_tbe s tbe; Ok (TBEState x)
  | None =>
      match cache_entry with
      | Some _ => e ← deref_entry s cache_entry; Ok (CacheState e)
      | None => Ok L1Cache.State_I
      end
  end.

Definition is_dataSendState s (tbe : option Z) addr (cache_entry : option entry_ref) : outcome bool :=
  st ← getState s tbe cache_entry addr;
  Ok (match st with
      | L1Cache.State_M | L1Cache.State_IM_D | L1Cache.State_SM_D | L1Cache.State_MI_A => true
      | _ => false
      end).

Definition is_dataWaitingState s (tbe : option Z) addr (cache_entry : option entry_ref) : outcome bool :=
  st ← getState s tbe cache_entry addr;
  Ok (match st with
      | L1Cache.State_IM_D | L1Cache.State_SM_D | L1Cache.State_M => true
      | _ => false
      end).

Definition is_atomicInvariant s (tbe : option Z) addr (cache_entry : option entry_ref) : outcome bool :=
  st ← getState s tbe cache_entry addr;
  Ok (match st with
      | L1Cache.State_M | L1Cache.State_S | L1Cache.State_I => false
      | _ => true
      end).

Definition setState (tbe : option Z) (cache_entry : option entry_ref) addr (st : L1Cache.State)
    : prog t unit :=
  _ ← reads (λ s, assert_exclusive s addr);
  _ ← (match tbe with Some _ => update_tbe tbe (λ x, tbe_with_state x st) | None => mret tt end);
  match cache_entry with
  | Some _ => update_data cache_entry (λ e, with_state e st)
  | None => mret tt
  end.

Definition getAccessPermission s addr : outcome AccessPermission :=
  match tbe_ptr s addr with
  | Some _ as p => x ← deref_tbe s p; Ok (L1Cache.State_to_permission (TBEState x))
  | None =>
      r ← getL1CacheEntry s addr;
      match r with
      | Some _ => e ← deref_entry s r; Ok (L1Cache.State_to_permission (CacheState e))
      | None => Ok NotPresent
      end
  end.

(** What the packet holds afterwards. *)
Definition functionalRead s addr (p : packet) : outcome packet :=
  o ← (match tbe_ptr s addr with
       | Some _ as q => x ← deref_tbe s q; testAndRead sys addr (tbe_DataBlk x) p
       | None => r ← getL1CacheEntry s addr; e ← deref_entry s r; testAndRead sys addr (DataBlk e) p
       end);
  Ok (default p o).

Definition functionalWrite addr (p : packet) : prog t Z := λ s,
  match tbe_ptr s addr with
  | Some _ as q =>
      x ← deref_tbe s q;
      o ← testAndWrite sys addr (tbe_DataBlk x) p;
      match o with
      | Some b => r ← update_tbe q (λ x, tbe_with_block x b (tbe_Dirty x) (tbe_isAtomic x)) s; Ok (1, r.2)
      | None => Ok (0, s)
      end
  | None =>
      q ← getL1CacheEntry s addr;
      e ← deref_entry s q;
      o ← testAndWrite sys addr (DataBlk e) p;
      match o with
      | Some b => r ← update_data q (λ e, with_block e b (Dirty e)) s; Ok (1, r.2)
      | None => Ok (0, s)
      end
  end.

Definition setAccessPermission (cache_entry : option entry_ref) (st : L1Cache.State) : prog t unit :=
  match cache_entry with
  | Some _ => update_entry cache_entry
                (λ e, AbstractCacheEntry.changePermission e (L1Cache.State_to_permission st))
  | None => mret tt
  end.

(** The increments after [return] are never reached. *)
Definition mandatory_request_type_to_event (type : RubyRequestType) : prog t L1Cache.Event :=
  match type with
  | LD | LD_SHARED => _ ← bump seq_loads; mret L1Cache.Event_Load
  | LD_APPROX => _ ← bump seq_loads; _ ← bump seq_approx_loads; mret L1Cache.Event_Load_Approx
  | IFETCH => _ ← bump seq_ifetch; mret L1Cache.Event_Ifetch
  | ST | ATOMIC | ST_SHARED => _ ← bump seq_stores; mret L1Cache.Event_Store
  | ST_APPROX => _ ← bump seq_stores; _ ← bump seq_approx_stores; mret L1Cache.Event_Store_Approx
  | Locked_RMW_Read => mret L1Cache.Event_RMW_Read
  | Locked_RMW_Write => mret L1Cache.Event_RMW_Write
  | _ => raise PanicFault
  end.

Definition getPendingAcks s (tbe : option Z) : outcome Z := x ← deref_tbe s tbe; Ok (pendingAcks x).

(** *** Actions *)

(** [out_port.enqueue(out_msg, Cycles(latency))] *)
Definition enqueue_out (buf : Z) (m : payload) (latency : Z) : prog t unit := λ s,
  on_abs (AbstractController.enqueue sys now rt (ClockedObject.clockEdge now (clk s) 0) buf m
    latency false) s.

(** The heads of the queues, cast to the types of their ports. *)
Definition peek_mandatory : prog t RubyRequest.t :=
  p ← on_abs (AbstractController.peek mandatoryQueue); lift (as_ruby p).
Definition peek_request (buf : Z) : prog t RequestMsg.t :=
  p ← on_abs (AbstractController.peek buf); lift (as_request p).
Definition peek_response : prog t ResponseMsg.t :=
  p ← on_abs (AbstractController.peek responseToCache); lift (as_response p).

(** [Destination.broadcast(L1Cache); Destination.add(map_Address_to_Directory(address))] *)
Definition all_and_directory addr : outcome NetDest.t :=
  d ← NetDest.create counts junk;
  d ← NetDest.broadcast_type counts d MachineType_L1Cache;
  m ← map_Address_to_Directory dirs addr;
  NetDest.add counts d m.

(** [Destination.broadcast(L1Cache); Destination.remove(machineID)] *)
Definition all_others (me : MachineID) : outcome NetDest.t :=
  d ← NetDest.create counts junk;
  d ← NetDest.broadcast_type counts d MachineType_L1Cache;
  NetDest.remove counts d me.

(** [Destination.add(map_Address_to_Directory(address))] *)
Definition directory_only addr : outcome NetDest.t :=
  d ← NetDest.create counts junk;
  m ← map_Address_to_Directory dirs addr;
  NetDest.add counts d m.

(** A request; the data of a store is set by some of the actions only. *)
Definition send_request (buf : Z) (ty : CoherenceRequestType) addr (dest : NetDest.t)
    (block : DataBlock.t) (store : option RubyRequest.t) : prog t unit := λ s,
  let '(data, offset, size) :=
    match store with
    | Some r => (RubyRequest.m_Data64Bit r, RubyRequest.m_Offset r, RubyRequest.m_Size r)
    | None => (junk, junk, 0)
    end in
  enqueue_out buf
    (PRequest (RequestMsg.mk addr ty (m_machineID s) dest block Size_Control 0 data offset size))
    (l1_request_latency cfg) s.

(** The requests a processor access issues. *)
Definition issue (ty : CoherenceRequestType) (with_data : bool) addr : prog frame unit :=
  on_self (
    in_msg ← peek_mandatory;
    dest ← lift (all_and_directory addr);
    send_request requestFromCache ty addr dest (DataBlock.create sys)
      (if with_data then Some in_msg else None)).

Definition as_issueGETSMem : Z → prog frame unit := issue Request_GETS false.
Definition ai_issueGETINSTR : Z → prog frame unit := issue Request_GETI false.
Definition bm_issueUpg : Z → prog frame unit := issue Request_UPG true.
Definition bm_issueGETMA : Z → prog frame unit := issue Request_GETMA true.
Definition bam_issueGETM : Z → prog frame unit := issue Request_GETM true.
Definition bm_issueGETM : Z → prog frame unit := issue Request_GETM true.

Definition bm_issueGETMR addr : prog frame unit :=
  on_self (
    in_msg ← peek_request requestToCache;
    dest ← lift (all_and_directory addr);
    send_request requestFromCache Request_GETM addr (NetDest.makeSidePacket dest)
      (DataBlock.create sys) None).

(** The two messages of a locked read-modify-write. *)
Definition issue_atomic (ty : CoherenceRequestType) addr : prog frame unit :=
  on_self (
    in_msg ← peek_mandatory;
    me ← gets m_machineID;
    dest ← lift (all_others me);
    send_request atomicRequestFromCache ty addr dest (DataBlock.create sys) None).

Definition bam_issueGETMATOMICST : Z → prog frame unit := issue_atomic Request_GETMATOMICST.
Definition bam_issueGETMATOMICEN : Z → prog frame unit := issue_atomic Request_GETMATOMICEN.

(** The block of the entry as it is put in a message. *)
Definition entry_block : prog frame DataBlock.t := λ f,
  e ← deref_entry (self f) (m_cache_entry_ptr f);
  b ← DataBlock.assign_from sys (DataBlock.create sys) (DataBlk e);
  Ok (b, f).

Definition send_putm addr : prog frame unit :=
  dest ← lift (all_and_directory addr);
  b ← entry_block;
  on_self (send_request requestFromCacheWB Request_PUTM addr dest b None).

Definition bpm_issuePUTM addr : prog frame unit := _ ← on_self peek_mandatory; send_putm addr.
Definition bpm_issuePUTMR addr : prog frame unit :=
  _ ← on_self (peek_request requestToCache); send_putm addr.
Definition bpm_issuePUTMD addr : prog frame unit := send_putm addr.

Definition assert_entry : prog frame unit := λ f,
  slicc_assert (bool_decide (is_Some (m_cache_entry_ptr f)));; Ok (tt, f).
Definition assert_tbe : prog frame unit := λ f,
  slicc_assert (bool_decide (is_Some (m_tbe_ptr f)));; Ok (tt, f).

Definition send_response (ty : CoherenceResponseType) addr (dest : NetDest.t) (b : DataBlock.t)
    : prog t unit := λ s,
  enqueue_out responseFromCache
    (PResponse (ResponseMsg.mk addr ty (m_machineID s) dest b false Size_Control 0 0))
    (l1_response_latency cfg) s.

Definition cc_sendDataCacheToDir addr : prog frame unit :=
  _ ← assert_entry;
  dest ← lift (directory_only addr);
  b ← entry_block;
  on_self (send_response Response_DATA_TO_WB addr dest b).

(** The set of destinations of the entry is empty afterwards. *)
Definition cc_sendDataCacheToCache addr : prog frame unit :=
  _ ← assert_entry;
  ptr ← gets m_cache_entry_ptr;
  e ← reads (λ f, deref_entry (self f) ptr);
  dest ← lift (d ← NetDest.create counts junk; NetDest.addNetDest d (finalDestinationSet e));
  b ← entry_block;
  cleared ← lift (NetDest.clear (finalDestinationSet e));
  _ ← on_self (update_data ptr (λ e, with_destinations e cleared));
  on_self (send_response Response_DATA_TO_CACHE addr dest b).

Definition ct_sendDataTBEToDir addr : prog frame unit :=
  _ ← assert_tbe;
  dest ← lift (directory_only addr);
  x ← reads (λ f, deref_tbe (self f) (m_tbe_ptr f));
  b ← lift (DataBlock.assign_from sys (DataBlock.create sys) (tbe_DataBlk x));
  on_self (send_response Response_DATA_TO_WB addr dest b).

Definition forward_eviction_to_cpu addr : prog frame unit :=
  when (send_evictions cfg) (on_self (on_node (evictionCallback addr))).

(** A callback that works on the block of the entry in place, and what is done to the
    entry after it. *)
Definition with_callback (call : DataBlock.t → prog (node policy_ptr Entry) DataBlock.t)
    (after : Entry → Entry) : prog frame unit :=
  _ ← assert_entry;
  ptr ← gets m_cache_entry_ptr;
  e ← reads (λ f, deref_entry (self f) ptr);
  b ← on_self (on_node (call (DataBlk e)));
  on_self (update_data ptr (λ e, after (with_block e b (Dirty e)))).

Definition set_dirty (e : Entry) : Entry := with_block e (DataBlk e) true.

Definition r_load_hit addr : prog frame unit :=
  with_callback (λ b, readCallback sys now cooldown addr b false false) id.
Definition rx_load_hit addr : prog frame unit :=
  with_callback (λ b, readCallback sys now cooldown addr b true false) id.
Definition s_store_hit addr : prog frame unit :=
  with_callback (λ b, writeCallback sys now cooldown addr b false) set_dirty.
Definition sx_store_hit addr : prog frame unit :=
  with_callback (λ b, writeCallback sys now cooldown addr b true) set_dirty.
Definition sx_atomic_store_hit_set addr : prog frame unit :=
  with_callback (λ b, writeCallback sys now cooldown addr b true)
    (λ e, with_atomic (set_dirty e) true).
Definition sx_atomic_store_hit_unset addr : prog frame unit :=
  with_callback (λ b, writeCallback sys now cooldown addr b true)
    (λ e, with_atomic (set_dirty e) false).

(** [new L1Cache_TBE] *)
Definition new_tbe : TBE :=
  mkTBE 0 L1Cache.State_I (DataBlock.create sys) false 0 false no_latencies.

Definition allocate_tbe (atomic : bool) addr : prog frame unit :=
  _ ← assert_entry;
  _ ← on_self (λ s, b ← TBETable.allocate sys new_tbe (TBEs s) addr; Ok (tt, with_TBEs s b));
  _ ← modS (λ f, with_tbe_ptr f (tbe_ptr (self f) addr));
  e ← reads (λ f, deref_entry (self f) (m_cache_entry_ptr f));
  x ← reads (λ f, deref_tbe (self f) (m_tbe_ptr f));
  b ← lift (DataBlock.assign_from sys (tbe_DataBlk x) (DataBlk e));
  ptr ← gets m_tbe_ptr;
  on_self (update_tbe ptr (λ x, tbe_with_block x b (Dirty e) atomic)).

Definition i_allocateAtomicTBE : Z → prog frame unit := allocate_tbe true.
Definition i_allocateTBE : Z → prog frame unit := allocate_tbe false.

Definition dequeue_from (buf : Z) : prog frame Z := on_self (on_abs (AbstractController.dequeue now buf)).

Definition k_popMandatoryQueue (_ : Z) : prog frame unit := _ ← dequeue_from mandatoryQueue; mret tt.

(** [m := max(m, x)] for the four maxima. *)
Definition raise_maxima (w : worst) (total arbit inter intra : Z) : worst :=
  mkWorst (Z.max (max_wcet_latency w) total) (Z.max (max_arbit_latency w) arbit)
    (Z.max (max_interC_latency w) inter) (Z.max (max_intraC_latency w) intra).

Definition calcLatencyProfile (_ : Z) : prog frame unit :=
  c ← dequeue_from responseToCache;
  ptr ← gets m_tbe_ptr;
  x ← reads (λ f, deref_tbe (self f) ptr);
  let l := tbe_times x in
  total ← lift (cycles_sub c (startTime l));
  intra ← lift (cycles_sub total (u64 (interCoreCohLatency l + arbitLatency l)));
  _ ← on_self (update_tbe ptr (λ x, tbe_with_times x (with_end l c intra)));
  on_self (modS (λ s, with_maxima s
    (raise_maxima (maxima s) total (arbitLatency l) (interCoreCohLatency l) intra))).

Definition setStartTime (_ : Z) : prog frame unit :=
  c ← dequeue_from mandatoryQueue;
  ptr ← gets m_tbe_ptr;
  on_self (update_tbe ptr (λ x, tbe_with_times x (with_start (tbe_times x) c))).

Definition setStartTimeCE (_ : Z) : prog frame unit :=
  c ← dequeue_from mandatoryQueue;
  ptr ← gets m_cache_entry_ptr;
  on_self (update_data ptr (λ e, with_entry_times e (with_start (entry_times e) c))).

Definition copyStartTimeCETBE (_ : Z) : prog frame unit :=
  e ← reads (λ f, deref_entry (self f) (m_cache_entry_ptr f));
  ptr ← gets m_tbe_ptr;
  on_self (update_tbe ptr (λ x, tbe_with_times x (with_start (tbe_times x) (startTime (entry_times e))))).

Definition setFirstScheduledTime (_ : Z) : prog frame unit :=
  ptr ← gets m_tbe_ptr;
  x ← reads (λ f, deref_tbe (self f) ptr);
  c ← dequeue_from requestToCache;
  if decide (firstScheduledTime (tbe_times x) = 0) then
    c ← lift (refineFirstScheduledTime c);
    on_self (update_tbe ptr (λ x, tbe_with_times x (with_scheduled (tbe_times x) c)))
  else mret tt.

Definition setFirstScheduledTimeCE (_ : Z) : prog frame unit :=
  ptr ← gets m_cache_entry_ptr;
  e ← reads (λ f, deref_entry (self f) ptr);
  c ← dequeue_from requestToCache;
  if decide (firstScheduledTime (entry_times e) = 0) then
    c ← lift (refineFirstScheduledTime c);
    on_self (update_data ptr (λ e, with_entry_times e (with_scheduled (entry_times e) c)))
  else mret tt.

(** [profileMsgDelay(vnet, queue.dequeue())] *)
Definition profileMsgDelay (vnet delay : Z) : prog t unit :=
  _ ← lift (assert_that (bool_decide (vnet < vnets cfg))); bump (delay_sample vnet delay).

Definition pop_and_profile (vnet buf : Z) : prog frame unit :=
  c ← dequeue_from buf; on_self (profileMsgDelay vnet c).

Definition l_popRequestQueue (_ : Z) : prog frame unit := pop_and_profile 2 requestToCache.
Definition l_popRequestWBQueue (_ : Z) : prog frame unit := pop_and_profile 2 requestToCacheWB.
Definition l_popAtomicRequestQueue (_ : Z) : prog frame unit := pop_and_profile 2 atomicRequestToCache.
Definition o_popIncomingResponseQueue (_ : Z) : prog frame unit := pop_and_profile 1 responseToCache.

Definition s_deallocateTBE addr : prog frame unit :=
  _ ← on_self (λ s, b ← TBETable.deallocate sys (TBEs s) addr; Ok (tt, with_TBEs s b));
  modS (λ f, with_tbe_ptr f None).

Definition u_writeDataToL1Cache (_ : Z) : prog frame unit :=
  in_msg ← on_self peek_response;
  _ ← assert_entry;
  ptr ← gets m_cache_entry_ptr;
  e ← reads (λ f, deref_entry (self f) ptr);
  b ← lift (DataBlock.assign_from sys (DataBlk e) (ResponseMsg.m_DataBlk in_msg));
  _ ← on_self (update_data ptr (λ e, with_block e b (ResponseMsg.m_Dirty in_msg)));
  tptr ← gets m_tbe_ptr;
  x ← reads (λ f, deref_tbe (self f) tptr);
  let l := tbe_times x in
  inter ← lift (cycles_sub (ResponseMsg.m_SendTime in_msg) (firstScheduledTime l));
  core ← lift (NetDest.smallestNodeID (ResponseMsg.m_Destination in_msg));
  arbit ← lift (getArbitLatency (startTime l) core (zeroArb l));
  on_self (update_tbe tptr (λ x, tbe_with_times x (with_arrival l inter core arbit))).

Definition q_updateAckCount (_ : Z) : prog frame unit :=
  in_msg ← on_self peek_response;
  _ ← assert_tbe;
  ptr ← gets m_tbe_ptr;
  on_self (update_tbe ptr (λ x, tbe_with_acks x (pendingAcks x - ResponseMsg.m_AckCount in_msg))).

Definition unset_cache_entry (_ : Z) : prog frame unit := modS (λ f, with_entry_ptr f None).

(** A change of one of the caches. *)
Definition change_cache (d : bool) (g : CacheMemory.t policy_ptr Entry → outcome (CacheMemory.t policy_ptr Entry))
    : prog t unit := λ s, c ← g (cache_of s d); Ok (tt, with_cache_of s d c).

Definition ff_deallocateL1CacheBlock addr : prog frame unit :=
  present ← reads (λ f, CacheMemory.isTagPresent sys (dataCache (base (self f))) addr);
  _ ← on_self (change_cache present (λ c, CacheMemory.deallocate sys c addr));
  unset_cache_entry addr.

(** [new L1Cache_Entry] *)
Definition new_entry : outcome Entry :=
  d ← NetDest.create counts junk;
  Ok (mkEntry L1Cache.State_I (DataBlock.create sys) false (mkMachineID junk junk) d false no_latencies).

Definition allocate_block (d : bool) addr : prog frame unit :=
  ptr ← gets m_cache_entry_ptr;
  match ptr with
  | Some _ => mret tt
  | None =>
      e ← lift new_entry;
      _ ← on_self (change_cache d (λ c, CacheMemory.allocate sys now c addr (AbstractCacheEntry.create e)));
      modS (λ f, with_entry_ptr f (Some (d, addr)))
  end.

Definition oo_allocateAtomicL1DCacheBlock addr : prog frame unit :=
  _ ← allocate_block true addr;
  ptr ← gets m_cache_entry_ptr;
  on_self (update_data ptr (λ e, with_atomic e true)).
Definition oo_allocateL1DCacheBlock : Z → prog frame unit := allocate_block true.
Definition pp_allocateL1ICacheBlock : Z → prog frame unit := allocate_block false.

Definition stall_on (buf : Z) addr : prog frame unit :=
  on_self (on_abs (AbstractController.stall_and_wait sys now buf addr)).
Definition z_stallAndWaitMandatoryQueue : Z → prog frame unit := stall_on mandatoryQueue.
Definition z_stallAndWaitRequestQueue : Z → prog frame unit := stall_on requestToCache.
Definition z_stallAndWaitRequestWBQueue : Z → prog frame unit := stall_on requestToCacheWB.

(** Nothing is woken while the line is in a locked read-modify-write. *)
Definition unless_atomic addr (p : prog (AbstractController.t payload) unit) : prog frame unit :=
  b ← reads (λ f, isAtomic (self f) addr);
  when (negb b) (on_self (on_abs p)).

Definition kd_wakeUpDependents addr : prog frame unit :=
  unless_atomic addr (AbstractController.wakeUpBuffers now addr).
Definition ka_wakeUpAllDependents addr : prog frame unit :=
  unless_atomic addr (AbstractController.wakeUpAllBuffers now).

Definition count_one (c : counter) (_ : Z) : prog frame unit := on_self (bump c).
Definition uu_profileInstMiss : Z → prog frame unit := count_one Icache_demand_misses.
Definition uu_profileInstHit : Z → prog frame unit := count_one Icache_demand_hits.
Definition uu_profileDataMiss : Z → prog frame unit := count_one Dcache_demand_misses.
Definition uu_profileApproxLoadDataMiss : Z → prog frame unit := count_one Dcache_approx_load_misses.
Definition uu_profileApproxStoreDataMiss : Z → prog frame unit := count_one Dcache_approx_store_misses.
Definition uu_profileDataHit : Z → prog frame unit := count_one Dcache_demand_hits.
Definition uu_profileApproxLoadDataHit : Z → prog frame unit := count_one Dcache_approx_load_hits.
Definition uu_profileApproxStoreDataHit : Z → prog frame unit := count_one Dcache_approx_store_hits.
Definition uu_profileIstate_othergetM : Z → prog frame unit := count_one seq_Istate_othergetM.

Definition uu_profilecoherence_inv addr : prog frame unit :=
  in_msg ← on_self (peek_request requestToCache);
  me ← on_self (gets m_machineID);
  here ← lift (NetDest.isElement counts (RequestMsg.m_Destination in_msg) me);
  _ ← lift (slicc_assert here);
  ptr ← gets m_cache_entry_ptr;
  _ ← (match ptr with
       | Some _ =>
           e ← reads (λ f, deref_entry (self f) ptr);
           match CacheState e with
           | L1Cache.State_IS_D | L1Cache.State_IM_D | L1Cache.State_IM_DS =>
               on_self (bump seq_I_state_no_diff_check)
           | L1Cache.State_SM_AD | L1Cache.State_SM_D | L1Cache.State_SM_DS =>
               on_self (bump seq_intermediate_state_diff_check)
           | _ => mret tt
           end
       | None => mret tt
       end);
  count_one seq_coherence_inv addr.
Definition uu_profilecoherence_approx_inv : Z → prog frame unit := count_one seq_approx_coherence_inv.

Definition setBlocked (_ : Z) : prog frame unit :=
  on_self (modS (λ s, with_blocked s (is_blocked s + 1))).
Definition setUnblocked (_ : Z) : prog frame unit :=
  on_self (modS (λ s, with_blocked s (is_blocked s - 1))).

Definition perform (a : L1Cache.action) : Z → prog frame unit :=
  match a with
  | L1Cache.as_issueGETSMem => as_issueGETSMem
  | L1Cache.ai_issueGETINSTR => ai_issueGETINSTR
  | L1Cache.bm_issueGETMR => bm_issueGETMR
  | L1Cache.bm_issueUpg => bm_issueUpg
  | L1Cache.bm_issueGETMA => bm_issueGETMA
  | L1Cache.bam_issueGETM => bam_issueGETM
  | L1Cache.bm_issueGETM => bm_issueGETM
  | L1Cache.bam_issueGETMATOMICST => bam_issueGETMATOMICST
  | L1Cache.bam_issueGETMATOMICEN => bam_issueGETMATOMICEN
  | L1Cache.bpm_issuePUTM => bpm_issuePUTM
  | L1Cache.bpm_issuePUTMR => bpm_issuePUTMR
  | L1Cache.bpm_issuePUTMD => bpm_issuePUTMD
  | L1Cache.cc_sendDataCacheToDir => cc_sendDataCacheToDir
  | L1Cache.cc_sendDataCacheToCache => cc_sendDataCacheToCache
  | L1Cache.ct_sendDataTBEToDir => ct_sendDataTBEToDir
  | L1Cache.forward_eviction_to_cpu => forward_eviction_to_cpu
  | L1Cache.r_load_hit => r_load_hit
  | L1Cache.rx_load_hit => rx_load_hit
  | L1Cache.s_store_hit => s_store_hit
  | L1Cache.sx_store_hit => sx_store_hit
  | L1Cache.sx_atomic_store_hit_set => sx_atomic_store_hit_set
  | L1Cache.sx_atomic_store_hit_unset => sx_atomic_store_hit_unset
  | L1Cache.i_allocateAtomicTBE => i_allocateAtomicTBE
  | L1Cache.i_allocateTBE => i_allocateTBE
  | L1Cache.k_popMandatoryQueue => k_popMandatoryQueue
  | L1Cache.calcLatencyProfile => calcLatencyProfile
  | L1Cache.setStartTime => setStartTime
  | L1Cache.setStartTimeCE => setStartTimeCE
  | L1Cache.copyStartTimeCETBE => copyStartTimeCETBE
  | L1Cache.setFirstScheduledTime => setFirstScheduledTime
  | L1Cache.setFirstScheduledTimeCE => setFirstScheduledTimeCE
  | L1Cache.l_popRequestQueue => l_popRequestQueue
  | L1Cache.l_popRequestWBQueue => l_popRequestWBQueue
  | L1Cache.l_popAtomicRequestQueue => l_popAtomicRequestQueue
  | L1Cache.o_popIncomingResponseQueue => o_popIncomingResponseQueue
  | L1Cache.s_deallocateTBE => s_deallocateTBE
  | L1Cache.u_writeDataToL1Cache => u_writeDataToL1Cache
  | L1Cache.q_updateAckCount => q_updateAckCount
  | L1Cache.unset_cache_entry => unset_cache_entry
  | L1Cache.ff_deallocateL1CacheBlock => ff_deallocateL1CacheBlock
  | L1Cache.oo_allocateAtomicL1DCacheBlock => oo_allocateAtomicL1DCacheBlock
  | L1Cache.oo_allocateL1DCacheBlock => oo_allocateL1DCacheBlock
  | L1Cache.pp_allocateL1ICacheBlock => pp_allocateL1ICacheBlock
  | L1Cache.z_stallAndWaitMandatoryQueue => z_stallAndWaitMandatoryQueue
  | L1Cache.z_stallAndWaitRequestQueue => z_stallAndWaitRequestQueue
  | L1Cache.z_stallAndWaitRequestWBQueue => z_stallAndWaitRequestWBQueue
  | L1Cache.kd_wakeUpDependents => kd_wakeUpDependents
  | L1Cache.ka_wakeUpAllDependents => ka_wakeUpAllDependents
  | L1Cache.uu_profileInstMiss => uu_profileInstMiss
  | L1Cache.uu_profileInstHit => uu_profileInstHit
  | L1Cache.uu_profileDataMiss => uu_profileDataMiss
  | L1Cache.uu_profileApproxLoadDataMiss => uu_profileApproxLoadDataMiss
  | L1Cache.uu_profileApproxStoreDataMiss => uu_profileApproxStoreDataMiss
  | L1Cache.uu_profileDataHit => uu_profileDataHit
  | L1Cache.uu_profileApproxLoadDataHit => uu_profileApproxLoadDataHit
  | L1Cache.uu_profileApproxStoreDataHit => uu_profileApproxStoreDataHit
  | L1Cache.uu_profileIstate_othergetM => uu_profileIstate_othergetM
  | L1Cache.uu_profilecoherence_inv => uu_profilecoherence_inv
  | L1Cache.uu_profilecoherence_approx_inv => uu_profilecoherence_approx_inv
  | L1Cache.setBlocked => setBlocked
  | L1Cache.setUnblocked => setUnblocked
  end.

(** *** Transitions *)

(** What an action checks before a transition starts: a transaction entry, or a slot of
    the buffer it sends to.  The checks are in the order of their generated text. *)
Inductive resource : Set := Slot_TBEs | Slot_atomic | Slot_requestWB | Slot_request | Slot_response.

Definition resources : list resource :=
  [Slot_TBEs; Slot_atomic; Slot_requestWB; Slot_request; Slot_response].

Definition needs (a : L1Cache.action) (r : resource) : bool :=
  match a, r with
  | (L1Cache.i_allocateTBE | L1Cache.i_allocateAtomicTBE), Slot_TBEs => true
  | (L1Cache.bam_issueGETMATOMICST | L1Cache.bam_issueGETMATOMICEN), Slot_atomic => true
  | (L1Cache.bpm_issuePUTM | L1Cache.bpm_issuePUTMR | L1Cache.bpm_issuePUTMD), Slot_requestWB => true
  | (L1Cache.as_issueGETSMem | L1Cache.ai_issueGETINSTR | L1Cache.bm_issueGETMR | L1Cache.bm_issueUpg
     | L1Cache.bm_issueGETMA | L1Cache.bam_issueGETM | L1Cache.bm_issueGETM), Slot_request => true
  | (L1Cache.cc_sendDataCacheToDir | L1Cache.cc_sendDataCacheToCache
     | L1Cache.ct_sendDataTBEToDir), Slot_response => true
  | _, _ => false
  end.

Definition available (r : resource) (n : Z) : prog frame bool :=
  let slots buf := on_self (on_abs (AbstractController.areNSlotsAvailable now buf n)) in
  match r with
  | Slot_TBEs => gets (λ f, TBETable.areNSlotsAvailable (TBEs (self f)) n)
  | Slot_atomic => slots atomicRequestFromCache
  | Slot_requestWB => slots requestFromCacheWB
  | Slot_request => slots requestFromCache
  | Slot_response => slots responseFromCache
  end.

(** The pointers are local to [doTransition]; the actions may change them. *)
Definition doTransition (event : L1Cache.Event) (cache_entry : option entry_ref) (tbe : option Z)
    addr : prog t TransitionResult := λ s,
  state ← getState s tbe cache_entry addr;
  r ← doTransitionWorker L1Cache.find_transition perform needs resources available event state addr
        (mkFrame s tbe cache_entry);
  let '((result, next_state), f) := r in
  match result with
  | TransitionResult_Valid =>
      r ← (_ ← setState (m_tbe_ptr f) (m_cache_entry_ptr f) addr next_state;
           setAccessPermission (m_cache_entry_ptr f) next_state) (self f);
      Ok (result, r.2)
  | TransitionResult_ResourceStall => Ok (result, self f)
  end.

Definition wake_next_cycle : prog t unit := on_abs (AbstractController.scheduleEvent 1).

Definition trigger (event : L1Cache.Event) addr (cache_entry : option entry_ref) (tbe : option Z)
    : prog t port_result :=
  r ← doTransition event cache_entry tbe addr; after_transition wake_next_cycle r.

(** [Entry cache_entry := getL1CacheEntry(addr); TBE tbe := TBEs[addr];] *)
Definition with_pointers {A} addr (k : option entry_ref → option Z → prog t A) : prog t A :=
  entry ← reads (λ s, getL1CacheEntry s addr);
  tbe ← gets (λ s, tbe_ptr s addr);
  k entry tbe.

(** *** Ports *)

(** A port whose buffer is not ready, or whose head is held back, does nothing else. *)
Definition if_ready (buf : Z) (p : prog t port_result) : prog t port_result :=
  b ← on_abs (AbstractController.isReady now buf); if b : bool then p else mret Idle.

Definition unless_held (addr buf : Z) (exempt : bool) (p : prog t port_result) : prog t port_result :=
  held ← gets (λ s, AbstractController.held_back (ctl (base s)) addr buf);
  if held && negb exempt
  then _ ← on_abs (AbstractController.delayHead sys now rt buf); mret Delayed
  else p.

Definition atomicRequestNetwork_in : prog t port_result :=
  if_ready atomicRequestToCache (
    in_msg ← peek_request atomicRequestToCache;
    let addr := RequestMsg.m_Addr in_msg in
    unless_held addr atomicRequestToCache false (
      with_pointers addr (λ entry tbe,
        me ← gets m_machineID;
        match RequestMsg.m_Type in_msg with
        | Request_GETMATOMICEN => trigger L1Cache.Event_ATOMICEN addr entry tbe
        | Request_GETMATOMICST =>
            if decide (RequestMsg.m_Requestor in_msg ≠ me)
            then trigger L1Cache.Event_ATOMICST addr entry tbe
            else _ ← on_abs (AbstractController.dequeue now atomicRequestToCache); mret Idle
        | _ => mret Idle
        end))).

Definition responseNetwork_in : prog t port_result :=
  if_ready responseToCache (
    in_msg ← peek_response;
    let addr := ResponseMsg.m_Addr in_msg in
    unless_held addr responseToCache false (
      with_pointers addr (λ entry tbe,
        match ResponseMsg.m_Type in_msg with
        | Response_DATA | Response_DATA_TO_CACHE => trigger L1Cache.Event_Data addr entry tbe
        | Response_MEMORY_ACK => trigger L1Cache.Event_Ack addr entry tbe
        | _ => mret Idle
        end))).

(** A request of another cache that the line may have to answer: the requestor is noted,
    and a line in a locked read-modify-write that has or awaits the data leaves the
    request in the queue. *)
Definition note_requestor addr (requestor : MachineID) (entry : option entry_ref) (tbe : option Z)
    : prog t unit :=
  send ← reads (λ s, is_dataSendState s tbe addr entry);
  if send : bool then
    e ← reads (λ s, deref_entry s entry);
    none ← lift (NetDest.isEmpty (finalDestinationSet e));
    if none : bool then
      d ← lift (NetDest.add counts (finalDestinationSet e) requestor);
      update_data entry (λ e, with_destinations e d)
    else mret tt
  else mret tt.

Definition answer_other (event : L1Cache.Event) addr (requestor : MachineID)
    (entry : option entry_ref) (tbe : option Z) : prog t port_result :=
  _ ← note_requestor addr requestor entry tbe;
  atomic ← reads (λ s, isAtomic s addr);
  waiting ← (if atomic : bool then reads (λ s, is_dataWaitingState s tbe addr entry) else mret false);
  if waiting : bool then mret Idle else trigger event addr entry tbe.

(** The code that the two ports for requests share, word for word. *)
Definition request_port (buf : Z) : prog t port_result :=
  if_ready buf (
    in_msg ← peek_request buf;
    let addr := RequestMsg.m_Addr in_msg in
    let requestor := RequestMsg.m_Requestor in_msg in
    unless_held addr buf false (
      with_pointers addr (λ entry tbe,
        me ← gets m_machineID;
        here ← lift (NetDest.isElement counts (RequestMsg.m_Destination in_msg) me);
        _ ← lift (slicc_assert here);
        let own := bool_decide (requestor = me) in
        let fire event := trigger event addr entry tbe in
        let answer event := answer_other event addr requestor entry tbe in
        match RequestMsg.m_Type in_msg with
        | Request_GETS => if own then fire L1Cache.Event_OWN_GETS else answer L1Cache.Event_Other_GETS
        | Request_INV => fire L1Cache.Event_INV
        | Request_GETI => fire (if own then L1Cache.Event_OWN_GETI else L1Cache.Event_Other_GETI)
        | Request_UPG => fire (if own then L1Cache.Event_OWN_UPG else L1Cache.Event_Other_UPG)
        | Request_GETM => if own then fire L1Cache.Event_OWN_GETM else answer L1Cache.Event_Other_GETM
        | Request_GETMA => if own then fire L1Cache.Event_OWN_GETM
                           else answer L1Cache.Event_Other_GETM_Approx
        | Request_GETX => if own then fire L1Cache.Event_OWN_GETM else answer L1Cache.Event_Other_GETM
        | Request_PUTM => fire (if own then L1Cache.Event_OWN_PUTM else L1Cache.Event_Other_PUTM)
        | _ => mret Idle
        end))).

Definition requestNetwork_in : prog t port_result := request_port requestToCache.
Definition requestNetworkWB_in : prog t port_result := request_port requestToCacheWB.

(** A miss in a full set replaces its victim first. *)
Definition access (in_msg : RubyRequest.t) : prog t port_result :=
  let addr := RubyRequest.m_LineAddress in_msg in
  let d := bool_decide (RubyRequest.m_Type in_msg ≠ IFETCH) in
  entry ← reads (λ s, getL1CacheEntry s addr);
  avail ← (match entry with
           | Some _ => mret true
           | None => reads (λ s, CacheMemory.cacheAvail sys (cache_of s d) addr)
           end);
  if avail : bool then
    event ← mandatory_request_type_to_event (RubyRequest.m_Type in_msg);
    tbe ← gets (λ s, tbe_ptr s addr);
    trigger event addr entry tbe
  else
    victim ← reads (λ s, CacheMemory.cacheProbe sys (cache_of s d) addr);
    with_pointers victim (trigger L1Cache.Event_Replacement victim).

Definition mandatoryQueue_in : prog t port_result :=
  if_ready mandatoryQueue (
    blocked ← gets is_blocked;
    in_msg ← peek_mandatory;
    let addr := RubyRequest.m_LineAddress in_msg in
    unless_held addr mandatoryQueue (bool_decide (RubyRequest.m_PType in_msg = Locked_RMW_Write)) (
      if decide (blocked = 0) then access in_msg
      else
        entry ← reads (λ s, getL1CacheEntry s addr);
        if decide (RubyRequest.m_Type in_msg = Locked_RMW_Write) then
          event ← mandatory_request_type_to_event (RubyRequest.m_Type in_msg);
          tbe ← gets (λ s, tbe_ptr s addr);
          trigger event addr entry tbe
        else mret Idle)).

Definition ports : list (Z * prog t port_result) :=
  [(1, atomicRequestNetwork_in); (1, responseNetwork_in); (0, requestNetwork_in);
   (0, requestNetworkWB_in); (0, mandatoryQueue_in)].

Definition set_cur_in_port (rank : Z) : prog t unit :=
  on_abs (modS (λ c, AbstractController.with_cur_in_port c rank)).

Definition wakeup (fuel : nat) : prog t unit :=
  wakeup_loop ports set_cur_in_port wake_next_cycle (m_transitions_per_cycle cfg) fuel 0.

End controller.
End L1Controller.
