(* ===== verification/Functional.v ===== *)
(** * Functional accesses to the whole memory system (mem/ruby/system/System.cc, RubyPort.cc,
    mem/ruby/network/simple/SimpleNetwork.cc, Switch.cc)

    A functional access reads or writes memory at once, wherever its bytes are: in the
    caches, in transactions, in messages on their way, or in the memory.  [RubySystem] asks
    every controller for its permission to the line and decides from the answers where to
    read, and writes everywhere.  It knows the controllers through the class [Controller];
    [machine] is the sum of the three machines of the protocol. *)

From S2P Require Import Prelude IntMath Addresses NodeSets Destinations Clocks StdHeap Buffers Arbiter.
From S2P Require Import Blocks Policies Caches Tables MsiTables Controllers DirectoryMemory Messages Sequencer.
From S2P Require Import Packets PacketQueues Machines Dma DirController L1Controller.
Import Blocks.
Local Open Scope Z_scope.

(** ** Controllers *)

(** The virtual methods of [AbstractController] that functional reads use; [M] is the
    memory behind the memory ports. *)
Class Reader (C M : Type) := {
  getAccessPermission : Z → prog C AccessPermission;
  functionalRead : C → M → Z → packet → outcome packet }.

(** And those of functional writes. *)
Class Controller (C M : Type) := {
  reader :: Reader C M;
  functionalWrite : C → M → Z → packet → outcome (Z * (C * M));
  functionalWriteBuffers : packet → prog C Z }.

(** ** The network *)

Module SimpleNetwork.

(** The buffers that functional accesses go through: those inside each switch, and those of
    the links between switches. *)
Record t := mk {
  m_switches : list (list (MessageBuffer.t payload));
  m_buffers_to_free : list (MessageBuffer.t payload) }.

Section functional.
Context (sys : RubySystem.t).

(** The loop over the buffers of a switch or of the network, from a count on. *)
Definition write_buffers (n : Z) (bs : list (MessageBuffer.t payload)) (p : packet)
    : outcome (Z * list (MessageBuffer.t payload)) :=
  mfold (λ acc b,
    r ← MessageBuffer.functionalWrite (payload_functionalWrite sys) b p;
    Ok (u32 (acc.1 + r.1), acc.2 ++ [r.2])) (n, []) bs.

Fixpoint read_buffers (bs : list (MessageBuffer.t payload)) (p : packet) : outcome (option packet) :=
  match bs with
  | [] => Ok None
  | b :: bs =>
      o ← MessageBuffer.functionalRead (payload_functionalRead sys) b p;
      match o with Some p' => Ok (Some p') | None => read_buffers bs p end
  end.

(** [Switch::functionalRead] and [Switch::functionalWrite] *)
Definition switch_read (sw : list (MessageBuffer.t payload)) (p : packet) : outcome (option packet) :=
  read_buffers sw p.
Definition switch_write (sw : list (MessageBuffer.t payload)) (p : packet)
    : outcome (Z * list (MessageBuffer.t payload)) := write_buffers 0 sw p.

Fixpoint read_switches (sws : list (list (MessageBuffer.t payload))) (p : packet) : outcome (option packet) :=
  match sws with
  | [] => Ok None
  | sw :: sws =>
      o ← switch_read sw p;
      match o with Some p' => Ok (Some p') | None => read_switches sws p end
  end.

Definition functionalRead (net : t) (p : packet) : outcome (option packet) :=
  o ← read_switches (m_switches net) p;
  match o with Some p' => Ok (Some p') | None => read_buffers (m_buffers_to_free net) p end.

Definition functionalWrite (net : t) (p : packet) : outcome (Z * t) :=
  r ← mfold (λ acc sw, r ← switch_write sw p; Ok (u32 (acc.1 + r.1), acc.2 ++ [r.2])) (0, []) (m_switches net);
  r' ← write_buffers r.1 (m_buffers_to_free net) p;
  Ok (r'.1, mk r.2 r'.2).

End functional.
End SimpleNetwork.

(** ** The memory system *)

Module RubyAccess.

Record t (C M : Type) := mk {
  m_abs_cntrl_vec : list C;
  memory : M;
  m_network : SimpleNetwork.t }.
Arguments mk {C M}.
Arguments m_abs_cntrl_vec {C M}.
Arguments memory {C M}.
Arguments m_network {C M}.

Section accesses.
Context {C M : Type} (sys : RubySystem.t).
Implicit Types (s : t C M) (p : packet).

Section reads.
Context `{Reader C M}.

(** The permissions of all controllers for a line, as the first loop finds them. *)
Definition permissions (a : Z) : prog (list C) (list AccessPermission) := λ cs,
  mfold (λ acc c, r ← getAccessPermission a c; Ok (acc.1 ++ [r.1], acc.2 ++ [r.2])) ([], []) cs.

(** A counter of that loop, an [unsigned]. *)
Definition count (f : AccessPermission → bool) (l : list AccessPermission) : Z :=
  u32 (Z.of_nat (length (filter f l))).

Definition is_backing (x : AccessPermission) : bool :=
  match x with Backing_Store => true | _ => false end.
Definition is_absent (x : AccessPermission) : bool :=
  match x with Invalid | NotPresent => true | _ => false end.
Definition is_read_only (x : AccessPermission) : bool :=
  match x with Read_Only => true | _ => false end.
Definition is_read_write (x : AccessPermission) : bool :=
  match x with Read_Write => true | _ => false end.

(** A loop that asks the controllers again, and reads from the first that fits. *)
Fixpoint read_first (fit : AccessPermission → bool) (a : Z) (m : M) (p : packet) (cs : list C)
    : outcome (option packet * list C) :=
  match cs with
  | [] => Ok (None, [])
  | c :: cs =>
      r ← getAccessPermission a c;
      if fit r.1 then q ← functionalRead r.2 m a p; Ok (Some q, r.2 :: cs)
      else r' ← read_first fit a m p cs; Ok (r'.1, r.2 :: r'.2)
  end.

(** The packet after the read, when it succeeds. *)
Definition functionalRead s p : outcome (option packet * t C M) :=
  let line_address := Address.makeLineAddress sys (pkt_addr p) in
  r ← permissions line_address (m_abs_cntrl_vec s);
  let num_controllers := Z.of_nat (length (m_abs_cntrl_vec s)) in
  let num_ro := count is_read_only r.1 in
  let num_rw := count is_read_write r.1 in
  let num_backing_store := count is_backing r.1 in
  let num_invalid := count is_absent r.1 in
  assert_that (bool_decide (num_rw ≤ 1));;
  q ← (if bool_decide (num_invalid = u32 (num_controllers - 1)) && bool_decide (num_backing_store = 1) then
         read_first is_backing line_address (memory s) p r.2
       else if bool_decide (0 < num_ro) || bool_decide (num_rw = 1) then
         read_first (λ x, is_read_only x || is_read_write x) line_address (memory s) p r.2
       else Ok (None, r.2));
  Ok (q.1, mk q.2 (memory s) (m_network s)).

End reads.

Section writes.
Context `{Controller C M}.

(** One turn of the loop over the controllers: the messages in its buffers, and its data. *)
Definition write_controller (a : Z) (p : packet) (c : C) (m : M) : outcome (Z * (C * M)) :=
  b ← functionalWriteBuffers p c;
  r ← getAccessPermission a b.2;
  if is_absent r.1 then Ok (b.1, (r.2, m))
  else w ← functionalWrite r.2 m a p; Ok (b.1 + w.1, w.2).

Definition functionalWrite s p : outcome (bool * t C M) :=
  let line_addr := Address.makeLineAddress sys (pkt_addr p) in
  r ← mfold (λ (acc : Z * list C * M) c,
        w ← write_controller line_addr p c acc.2;
        Ok (u32 (acc.1.1 + w.1), acc.1.2 ++ [w.2.1], w.2.2)) (0, [], memory s) (m_abs_cntrl_vec s);
  n ← SimpleNetwork.functionalWrite sys (m_network s) p;
  Ok (true, mk r.1.2 r.2 n.2).

End writes.
End accesses.
End RubyAccess.

(** ** The port of a processor or device *)

Module RubyPort.

(** A functional access that a port receives. *)
Record access := mkAccess {
  pkt : packet;
  isRead : bool;
  isWrite : bool;
  needsResponse : bool;
  suppressFuncError : bool }.

(** [MemSlavePort::recvFunctional]: what happens to the system, the packet, and the status of
    its response if there is one.  [isPhysMemAddress] is the address map of the system,
    [isConnected] whether it has a device port, and [physmem] the backing store when it is used. *)
Definition recvFunctional {C M} `{Controller C M} (sys : RubySystem.t) (isPhysMemAddress : Z → bool)
    (isConnected : bool) (physmem : option (packet → packet)) (s : RubyAccess.t C M) (x : access)
    : outcome (RubyAccess.t C M * packet * option bool) :=
  let p := pkt x in
  (if isPhysMemAddress (pkt_addr p) then Ok tt else assert_that isConnected;; Err PanicFault);;
  assert_that (bool_decide (u64 (pkt_addr p + pkt_size p) ≤
    u64 (Address.makeLineAddress sys (pkt_addr p) + RubySystem.getBlockSizeBytes sys)));;
  match physmem with
  | Some access => Ok (s, access p, None)
  | None =>
      r ← (if isRead x then
             r ← RubyAccess.functionalRead sys s p;
             Ok (bool_decide (is_Some r.1), r.2, default p r.1)
           else if isWrite x then
             r ← RubyAccess.functionalWrite sys s p; Ok (r.1, r.2, p)
           else Err PanicFault);
      let '(accessSucceeded, s, p) := r in
      (if negb accessSucceeded && negb (suppressFuncError x) then Err FatalFault else Ok tt);;
      Ok (s, p, if needsResponse x then Some accessSucceeded else None)
  end.

End RubyPort.

(** ** The controllers of the protocol *)

Inductive machine : Type :=
  | L1Cache_Controller (s : L1Controller.t)
  | Directory_Controller (s : DirController.t)
  | DMA_Controller (s : DmaController.t).

Section machines.
Context (sys : RubySystem.t) (counts : list Z) (junk : Z) (dirs : DirectoryMemory.statics).
Context {M : Type} `{FunctionalMemory M}.
Implicit Types (s : machine) (m : M) (a : Z) (p : packet).

(** The buffers that the generated [functionalWriteBuffers] writes: the objects of the machine,
    then its parameters. *)
Definition l1_buffers : list Z :=
  [mandatoryQueue; requestFromCache; requestFromCacheWB; responseFromCache; atomicRequestFromCache;
   responseToCache; requestToCache; requestToCacheWB; atomicRequestToCache].
Definition dir_buffers : list Z := [requestToDir; requestToDir_WB; responseToDir; responseFromDir].
Definition dma_buffers : list Z := [dma_mandatoryQueue; dma_responseFromDir; dma_requestToDir].

Definition machine_permission a : prog machine AccessPermission := λ s,
  match s with
  | L1Cache_Controller s => x ← L1Controller.getAccessPermission sys s a; Ok (x, L1Cache_Controller s)
  | Directory_Controller s =>
      r ← DirController.getAccessPermission sys counts junk dirs a s; Ok (r.1, Directory_Controller r.2)
  | DMA_Controller s => Ok (DmaController.getAccessPermission a, DMA_Controller s)
  end.

Definition machine_read s m a p : outcome packet :=
  match s with
  | L1Cache_Controller s => L1Controller.functionalRead sys s a p
  | Directory_Controller s => DirController.functionalRead sys s m a p
  | DMA_Controller s => _ ← DmaController.functionalRead a; Ok p
  end.

Definition machine_write s m a p : outcome (Z * (machine * M)) :=
  match s with
  | L1Cache_Controller s => r ← L1Controller.functionalWrite sys a p s; Ok (r.1, (L1Cache_Controller r.2, m))
  | Directory_Controller s =>
      r ← DirController.functionalWrite sys s m a p; Ok (r.1, (Directory_Controller r.2.1, r.2.2))
  | DMA_Controller s => n ← DmaController.functionalWrite a; Ok (n, (DMA_Controller s, m))
  end.

Definition machine_write_buffers p : prog machine Z := λ s,
  let write := AbstractController.functionalWriteBuffers (payload_functionalWrite sys) in
  match s with
  | L1Cache_Controller s => r ← L1Controller.on_abs (write l1_buffers p) s; Ok (r.1, L1Cache_Controller r.2)
  | Directory_Controller s => r ← DirController.on_abs (write dir_buffers p) s; Ok (r.1, Directory_Controller r.2)
  | DMA_Controller s => r ← DmaController.on_abs (write dma_buffers p) s; Ok (r.1, DMA_Controller r.2)
  end.

Definition machine_reader : Reader machine M := {|
  getAccessPermission := machine_permission;
  functionalRead := machine_read |}.
Definition machine_controller : Controller machine M := {|
  reader := machine_reader;
  functionalWrite := machine_write;
  functionalWriteBuffers := machine_write_buffers |}.

End machines.
