(* ===== verification/Pointers.v ===== *)
(** * Null pointers in buffers, base controllers, caches and sequencers

    When the buffers of a controller are connected at both ends and the controller only
    knows buffers that exist, none of the operations the generated code uses follows a
    null pointer.  The same holds for the operations on well-formed caches, which also
    keep the entries of the other lines. *)

From S2P Require Import Prelude Triples IntMath Addresses NodeSets Destinations Clocks StdHeap Buffers.
From S2P Require Import SlotTimes Blocks Policies Caches Tables Controllers DirectoryMemory Messages Sequencer.
Import RubySlicc_Util.
Local Open Scope Z_scope.

(** The faults that the operations are shown to be free of: following a null pointer, and
    a loop that has not ended within its fuel. *)
Definition stuck (f : fault) : Prop :=
  match f with NullDeref | OutOfFuel => true | _ => false end = true.

Declare Scope triple_scope.
Notation "{{ P } } p {{ Q } }" := (triple stuck P p Q)
  (at level 90, p at next level, format "{{  P  } }  p  {{  Q  } }") : triple_scope.
Open Scope triple_scope.

Lemma not_stuck f : f ≠ NullDeref → f ≠ OutOfFuel → ¬ stuck f.
Proof. destruct f; cbn; first [done|congruence]. Qed.
#[export] Hint Resolve not_stuck : avoids.
#[export] Hint Extern 1 (_ ≠ _) => discriminate : avoids.

(** ** Heaps *)

Section heaps.
Context {A : Type} (comp : A → A → outcome bool).
Context (Hcomp : ∀ x y, avoids stuck (comp x y)).

Lemma avoids_at l i : avoids stuck (StdHeap.at_ (A := A) l i).
Proof. unfold StdHeap.at_. auto with avoids. Qed.

Lemma avoids_store l i x : avoids stuck (StdHeap.store (A := A) l i x).
Proof. unfold StdHeap.store. by case_decide. Qed.

Lemma avoids_push_loop fuel l hole top v : (hole < fuel)%nat →
  avoids stuck (StdHeap.push_loop comp fuel l hole top v).
Proof.
  revert l hole. induction fuel as [|fuel IH]; intros l hole Hf; cbn [StdHeap.push_loop]; [lia|].
  case_decide; [|apply avoids_store].
  apply avoids_bind; [apply avoids_at|]. intros p _. apply avoids_bind; [apply Hcomp|]. intros [] _.
  - apply avoids_bind; [apply avoids_store|]. intros l' _. apply IH.
    pose proof (parent_lt hole). lia.
  - apply avoids_store.
Qed.

Lemma avoids_push_heap l : avoids stuck (StdHeap.push_heap comp l).
Proof.
  unfold StdHeap.push_heap, StdHeap.push_from. apply avoids_bind; [apply avoids_at|].
  intros v _. apply avoids_push_loop. lia.
Qed.

(** The second child at least doubles. *)
Lemma avoids_adjust_loop fuel l hole second len :
  (0 < fuel)%nat → (len < fuel + second)%nat →
  avoids stuck (StdHeap.adjust_loop comp fuel l hole second len).
Proof.
  revert l hole second. induction fuel as [|fuel IH]; intros l hole second H0 Hf;
    cbn [StdHeap.adjust_loop]; [lia|].
  case_decide; [|done]. pose proof (half_spec (len - 1)).
  do 2 (apply avoids_bind; [apply avoids_at|]; intros ? _). apply avoids_bind; [apply Hcomp|].
  intros b _. apply avoids_bind; [apply avoids_at|]. intros ? _.
  apply avoids_bind; [apply avoids_store|]. intros ? _. apply IH; destruct b; lia.
Qed.

Lemma avoids_pop_heap l : avoids stuck (StdHeap.pop_heap comp l).
Proof.
  unfold StdHeap.pop_heap, StdHeap.adjust_heap, StdHeap.push_from. case_decide; [|done].
  do 2 (apply avoids_bind; [apply avoids_at|]; intros ? _).
  apply avoids_bind; [apply avoids_store|]. intros ? _.
  apply avoids_bind; [apply avoids_adjust_loop; lia|]. intros [[? ?] ?] _. case_decide.
  - apply avoids_bind; [apply avoids_at|]. intros ? _. apply avoids_bind; [apply avoids_store|].
    intros ? _. apply avoids_push_loop. lia.
  - apply avoids_push_loop. lia.
Qed.

End heaps.

(** ** Message buffers *)

Section buffers.
Context {P : Type}.
Implicit Types (b : MessageBuffer.t P).

(** Both ends of the buffer are known. *)
Definition connected b : Prop :=
  is_Some (MessageBuffer.m_sender (MessageBuffer.conf b)) ∧
  is_Some (MessageBuffer.m_receiver (MessageBuffer.conf b)).

Lemma avoids_sender b : connected b → avoids stuck (MessageBuffer.sender b).
Proof. intros [[x Hx] _]. unfold MessageBuffer.sender, MessageBuffer.clock_of. by rewrite Hx. Qed.
Lemma avoids_receiver b : connected b → avoids stuck (MessageBuffer.receiver b).
Proof. intros [_ [x Hx]]. unfold MessageBuffer.receiver, MessageBuffer.clock_of. by rewrite Hx. Qed.

Lemma avoids_greater (n1 n2 : MessageBufferNode.t P) : avoids stuck (MessageBufferNode.greater n1 n2).
Proof. unfold MessageBufferNode.greater. avoid_faults. Qed.
Lemma avoids_less (n1 n2 : MessageBufferNode.t P) : avoids stuck (MessageBufferNode.less n1 n2).
Proof. unfold MessageBufferNode.less. avoid_faults. Qed.
Lemma avoids_push_greater l : avoids stuck (MessageBuffer.push_heap_greater (P := P) l).
Proof. apply avoids_push_heap, avoids_greater. Qed.
Lemma avoids_push_less l : avoids stuck (MessageBuffer.push_heap_less (P := P) l).
Proof. apply avoids_push_heap, avoids_less. Qed.
Lemma avoids_pop_greater l : avoids stuck (MessageBuffer.pop_heap_greater (P := P) l).
Proof. apply avoids_pop_heap, avoids_greater. Qed.
Lemma avoids_front b : avoids stuck (MessageBuffer.front b).
Proof. unfold MessageBuffer.front. auto with avoids. Qed.
Lemma avoids_delayed (m : Message.t P) t : avoids stuck (Message.updateDelayedTicks m t).
Proof. unfold Message.updateDelayedTicks. avoid_faults. Qed.

End buffers.

#[export] Hint Resolve avoids_sender avoids_receiver avoids_greater avoids_less avoids_push_greater
  avoids_push_less avoids_pop_greater avoids_front avoids_delayed : avoids.

Section buffer_operations.
Context {P : Type}.
Implicit Types (b : MessageBuffer.t P).

Lemma avoids_enqueue sys now rt b m delta rmw : connected b →
  avoids stuck (MessageBuffer.enqueue sys now rt b m delta rmw).
Proof. intros Hb. unfold MessageBuffer.enqueue. avoid_faults. Qed.

Lemma enqueue_conf sys now rt b m delta rmw r :
  MessageBuffer.enqueue sys now rt b m delta rmw = Ok r → MessageBuffer.conf r.1 = MessageBuffer.conf b.
Proof.
  unfold MessageBuffer.enqueue. intros H. apply bind_Ok in H as (? & _ & H).
  apply bind_Ok in H as (s & _ & H). destruct (if decide _ then _ else _) as [msgs te].
  apply bind_Ok in H as (? & _ & H). destruct (MessageBuffer.arrival _ _ _ _ _ _) as [at_ last].
  repeat (apply bind_Ok in H as (? & _ & H)). by injection H as <-.
Qed.

Lemma avoids_dequeue now b : connected b → avoids stuck (MessageBuffer.dequeue now b).
Proof.
  intros Hb. unfold MessageBuffer.dequeue. apply avoids_bind; [apply avoids_front|]. intros n _.
  apply avoids_bind; [unfold MessageBuffer.note_pop; avoid_faults|]. intros [m b1] Hn.
  assert (connected b1) as Hb1.
  { unfold MessageBuffer.note_pop in Hn. apply bind_Ok in Hn as (? & _ & Hn).
    apply bind_Ok in Hn as (? & _ & Hn). injection Hn as _ <-. by case_decide. }
  apply avoids_bind; [change Trace.RANDOM_RECV with false; cbv iota; avoid_faults|].
  intros h _. unfold MessageBuffer.getCurrentCycles. avoid_faults.
Qed.

Lemma avoids_isReady now b : connected b → avoids stuck (MessageBuffer.isReady now b).
Proof. intros Hb. unfold MessageBuffer.isReady. avoid_faults. Qed.

Lemma avoids_peek b : avoids stuck (MessageBuffer.peek b).
Proof. unfold MessageBuffer.peek. avoid_faults. Qed.

Lemma avoids_slots now b n : connected b → avoids stuck (MessageBuffer.areNSlotsAvailable now b n).
Proof. intros Hb. unfold MessageBuffer.areNSlotsAvailable. avoid_faults. Qed.

Lemma slots_conf now b n r : MessageBuffer.areNSlotsAvailable now b n = Ok r →
  MessageBuffer.conf r.2 = MessageBuffer.conf b.
Proof.
  unfold MessageBuffer.areNSlotsAvailable. case_decide; [by intros [= <-]|].
  intros (s & _ & H1)%bind_Ok. destruct (decide (u32 _ ≤ _)); by injection H1 as <-.
Qed.

Lemma avoids_delayHead sys now rt b : connected b → avoids stuck (MessageBuffer.delayHead sys now rt b).
Proof.
  intros Hb. unfold MessageBuffer.delayHead. apply avoids_bind; [apply avoids_front|]. intros n _.
  apply avoids_bind; [apply avoids_pop_greater|]. intros h _. by apply avoids_enqueue.
Qed.

Lemma delayHead_conf sys now rt b r : MessageBuffer.delayHead sys now rt b = Ok r →
  MessageBuffer.conf r.1 = MessageBuffer.conf b.
Proof.
  unfold MessageBuffer.delayHead. intros (n & _ & H1)%bind_Ok. apply bind_Ok in H1 as (h & _ & H1).
  by apply enqueue_conf in H1.
Qed.

Lemma reanalyzeList_conf fuel b lt t r : MessageBuffer.reanalyzeList fuel b lt t = Ok r →
  MessageBuffer.conf r.1 = MessageBuffer.conf b.
Proof.
  revert b lt r. induction fuel as [|fuel IH]; intros b [|m lt] r; cbn [MessageBuffer.reanalyzeList];
    [by intros [= <-]|done|by intros [= <-]|].
  intros (x & _ & H1)%bind_Ok. apply bind_Ok in H1 as (h & _ & H1).
  apply bind_Ok in H1 as (r' & H1 & [= <-]). apply IH in H1. done.
Qed.

Lemma avoids_reanalyzeList fuel b lt t : (length lt ≤ fuel)%nat →
  avoids stuck (MessageBuffer.reanalyzeList fuel b lt t).
Proof.
  revert b lt. induction fuel as [|fuel IH]; intros b [|m lt] Hf; cbn [MessageBuffer.reanalyzeList];
    [done|cbn in Hf; lia|done|].
  apply avoids_bind; [auto with avoids|]. intros x Hx. apply avoids_bind.
  { apply avoids_push_greater. }
  intros h _. apply avoids_bind; [apply IH|done].
  unfold from_option_or in Hx. destruct (_ !! _) eqn:El; [|done].
  apply lookup_lt_Some in El. rewrite length_delete by done. cbn in *. lia.
Qed.

Lemma avoids_reanalyzeMessages now b addr : connected b →
  avoids stuck (MessageBuffer.reanalyzeMessages now b addr).
Proof.
  intros Hb. unfold MessageBuffer.reanalyzeMessages. apply avoids_bind; [auto with avoids|]. intros lt _.
  apply avoids_bind; [auto with avoids|]. intros r _.
  apply avoids_bind; [by apply avoids_reanalyzeList|]. done.
Qed.

Lemma reanalyzeMessages_conf now b addr r : MessageBuffer.reanalyzeMessages now b addr = Ok r →
  MessageBuffer.conf r.1 = MessageBuffer.conf b.
Proof.
  unfold MessageBuffer.reanalyzeMessages. intros (lt & _ & H1)%bind_Ok.
  apply bind_Ok in H1 as (c & _ & H1). apply bind_Ok in H1 as (r' & H1 & [= <-]).
  by apply reanalyzeList_conf in H1.
Qed.

Lemma avoids_reanalyzeAll now b : connected b → avoids stuck (MessageBuffer.reanalyzeAllMessages now b).
Proof.
  intros Hb. unfold MessageBuffer.reanalyzeAllMessages. apply avoids_bind; [auto with avoids|]. intros c _.
  apply avoids_bind; [|done]. apply avoids_mfold. intros s e.
  apply avoids_bind; [by apply avoids_reanalyzeList|done].
Qed.

Lemma reanalyzeAll_conf now b r : MessageBuffer.reanalyzeAllMessages now b = Ok r →
  MessageBuffer.conf r.1 = MessageBuffer.conf b.
Proof.
  unfold MessageBuffer.reanalyzeAllMessages. intros (c & _ & H1)%bind_Ok.
  apply bind_Ok in H1 as (r' & H1 & [= <-]). cbn.
  apply (mfold_inv (λ s, MessageBuffer.conf s.1 = MessageBuffer.conf b)) in H1; [done| |done].
  intros s e s' _ Hs H2. apply bind_Ok in H2 as (r1 & Hr & [= <-]). cbn.
  by apply reanalyzeList_conf in Hr as ->.
Qed.

Lemma avoids_stallMessage sys now b addr : connected b → avoids stuck (Address.getOffset sys addr) →
  avoids stuck (MessageBuffer.stallMessage sys now b addr).
Proof.
  intros Hb Ho. unfold MessageBuffer.stallMessage. apply avoids_bind; [done|]. intros o _.
  apply avoids_bind; [auto with avoids|]. intros u _. apply avoids_bind; [apply avoids_front|].
  intros n _. apply avoids_bind; [by apply avoids_dequeue|]. by intros [[m c] b1] _.
Qed.

Lemma stallMessage_conf sys now b addr b' : MessageBuffer.stallMessage sys now b addr = Ok b' →
  MessageBuffer.conf b' = MessageBuffer.conf b.
Proof.
  unfold MessageBuffer.stallMessage. intros (o & _ & H1)%bind_Ok. apply bind_Ok in H1 as (u & _ & H1).
  apply bind_Ok in H1 as (n & _ & H1). apply bind_Ok in H1 as ([[m c] b1] & Hd & [= <-]).
  apply dequeue_frame in Hd as (_ & Hd & _). done.
Qed.

End buffer_operations.

Lemma avoids_bitSelect a s b : avoids stuck (Address.bitSelect a s b).
Proof. unfold Address.bitSelect. avoid_faults. Qed.
Lemma avoids_getOffset sys a : avoids stuck (Address.getOffset sys a).
Proof. apply avoids_bitSelect. Qed.
#[export] Hint Resolve avoids_bitSelect avoids_getOffset : avoids.

(** ** Base controllers *)

(** What is known of how the buffers are set up, by name; it does not change while a
    controller runs. *)
Class Wired := wired : Z → MessageBuffer.config → Prop.
Definition any_wiring : Wired := λ _ _, True.

Section base.
Import AbstractController.
Context {P : Type} {W : Wired} (sys : RubySystem.t) (now rt : Z).
Implicit Types (c : t P).

(** The buffers are connected, those in [ids] are there, and only buffers that are
    there wait. *)
Definition ctl_ok (ids : gset Z) c : Prop :=
  (∀ id b, buffers c !! id = Some b → connected b ∧ wired id (MessageBuffer.conf b)) ∧
  (∀ id, id ∈ ids → is_Some (buffers c !! id)) ∧
  (∀ a vec id, (a, vec) ∈ m_waiting_buffers c → Some id ∈ vec → is_Some (buffers c !! id)).

Lemma with_buffer_ok ids c id b b' cs : ctl_ok ids c → buffers c !! id = Some b →
  MessageBuffer.conf b' = MessageBuffer.conf b → ctl_ok ids (with_buffer c id b' cs).
Proof.
  intros (Hc & Hi & Hw) Hb Hconf. split_and!; cbn.
  - intros id' b1 [[<- <-]|[Hne H1]]%lookup_insert_Some; [|by eapply Hc].
    unfold connected. rewrite Hconf. by apply (Hc id).
  - intros id' Hid. apply lookup_insert_is_Some'. right. by apply Hi.
  - intros a vec id' Hin Hv. apply lookup_insert_is_Some'. right. by eapply Hw.
Qed.

Lemma safe_on_buffer ids id f :
  id ∈ ids → (∀ b, connected b → avoids stuck (f b)) →
  (∀ b r, f b = Ok r → MessageBuffer.conf r.1 = MessageBuffer.conf b) →
  {{ ctl_ok ids }} on_buffer (P := P) id f {{ λ _, ctl_ok ids }}.
Proof.
  intros Hid Hf Hconf c Hc. unfold on_buffer. destruct Hc as (Hcon & Hi & Hw).
  destruct (Hi id Hid) as [b Hb]. rewrite Hb. cbn [from_option_or mbind outcome_bind].
  specialize (Hf b (proj1 (Hcon id b Hb))). destruct (f b) as [r|f'] eqn:E; [|done].
  cbn. eapply with_buffer_ok; [by split_and!|done|]. by apply Hconf.
Qed.

Lemma ctl_ok_add ids c id : ctl_ok ids c → is_Some (buffers c !! id) → ctl_ok ({[id]} ∪ ids) c.
Proof. intros (Hc & Hi & Hw) Hid. split_and!; [done| |done]. set_solver. Qed.

Lemma ctl_ok_weaken ids ids' c : ids' ⊆ ids → ctl_ok ids c → ctl_ok ids' c.
Proof. intros Hs (Hc & Hi & Hw). split_and!; [done|set_solver|done]. Qed.

Lemma safe_enqueue ids edge id m latency rmw : id ∈ ids →
  {{ ctl_ok ids }} AbstractController.enqueue (P := P) sys now rt edge id m latency rmw {{ λ _, ctl_ok ids }}.
Proof.
  intros Hid. apply safe_on_buffer; [done| |]; intros.
  - by apply avoids_enqueue.
  - by eapply enqueue_conf.
Qed.

Lemma safe_delayHead ids id : id ∈ ids →
  {{ ctl_ok ids }} AbstractController.delayHead (P := P) sys now rt id {{ λ _, ctl_ok ids }}.
Proof.
  intros Hid. apply safe_on_buffer; [done| |]; intros.
  - by apply avoids_delayHead.
  - by eapply delayHead_conf.
Qed.

Lemma safe_dequeue ids id : id ∈ ids →
  {{ ctl_ok ids }} AbstractController.dequeue (P := P) now id {{ λ _, ctl_ok ids }}.
Proof.
  intros Hid c Hc. unfold AbstractController.dequeue. destruct (proj1 (proj2 Hc) id Hid) as [b Hb].
  rewrite Hb. cbn [from_option_or mbind outcome_bind].
  pose proof (avoids_dequeue now b (proj1 (proj1 Hc id b Hb))) as Ha.
  destruct (MessageBuffer.dequeue now b) as [[[m z] b']|] eqn:E; [|done]. cbn.
  eapply with_buffer_ok; [done|done|]. by apply dequeue_frame in E as (_ & ? & _).
Qed.

Lemma safe_slots ids id n : id ∈ ids →
  {{ ctl_ok ids }} AbstractController.areNSlotsAvailable (P := P) now id n {{ λ _, ctl_ok ids }}.
Proof.
  intros Hid c Hc. unfold AbstractController.areNSlotsAvailable.
  destruct (proj1 (proj2 Hc) id Hid) as [b Hb]. rewrite Hb. cbn [from_option_or mbind outcome_bind].
  pose proof (avoids_slots now b n (proj1 (proj1 Hc id b Hb))) as Ha.
  destruct (MessageBuffer.areNSlotsAvailable now b n) as [[x b']|] eqn:E; [|done]. cbn.
  eapply with_buffer_ok; [done|done|]. by apply slots_conf in E.
Qed.

Lemma safe_buffer ids id : id ∈ ids →
  {{ ctl_ok ids }} buffer (P := P) id {{ λ b c, connected b ∧ ctl_ok ids c }}.
Proof.
  intros Hid c Hc. unfold buffer. destruct (proj1 (proj2 Hc) id Hid) as [b Hb]. rewrite Hb. cbn.
  split; [by apply (proj1 Hc id)|done].
Qed.

Lemma safe_isReady ids id : id ∈ ids →
  {{ ctl_ok ids }} AbstractController.isReady (P := P) now id {{ λ _, ctl_ok ids }}.
Proof.
  intros Hid. eapply triple_bind; [by apply safe_buffer|]. intros b. apply triple_pure. intros Hb.
  apply triple_lift_any. by apply avoids_isReady.
Qed.

Lemma safe_peek ids id : id ∈ ids →
  {{ ctl_ok ids }} AbstractController.peek (P := P) id {{ λ _, ctl_ok ids }}.
Proof.
  intros Hid. eapply triple_bind; [by apply safe_buffer|]. intros b. apply triple_pure. intros Hb.
  eapply triple_bind; [apply triple_lift_any, avoids_peek|]. intros m. by apply triple_ret.
Qed.

Lemma safe_scheduleEvent ids n : {{ ctl_ok ids }} scheduleEvent (P := P) n {{ λ _, ctl_ok ids }}.
Proof. by apply triple_modS. Qed.

Lemma safe_stallBuffer ids id addr : id ∈ ids →
  {{ ctl_ok ids }} stallBuffer (P := P) id addr {{ λ _, ctl_ok ids }}.
Proof.
  intros Hid c Hc. destruct (stallBuffer id addr c) as [[u c']|f] eqn:E.
  - apply stallBuffer_Ok in E as (vec & vec' & Hvec & _ & -> & ->). destruct Hc as (Hc & Hi & Hw).
    split_and!; cbn; [done|done|]. intros a w x Hin Hx.
    apply assoc_set_elem in Hin as [[= -> ->]|Hin]; [|by eapply Hw].
    apply list_elem_of_lookup in Hx as [k Hk]. apply list_lookup_insert_Some in Hk.
    destruct Hk as [(_ & [= ->] & _)|(_ & Hk)]; [by apply Hi|]. apply list_elem_of_lookup_2 in Hk.
    rewrite Hvec in Hk. destruct (assoc_find addr _) as [w|] eqn:Ef; cbn in Hk.
    + by eapply Hw; [apply assoc_find_elem|].
    + by apply elem_of_replicate in Hk as [? _].
  - unfold stallBuffer in E. pose proof (avoids_vset stuck
      (default (replicate (Z.to_nat (m_in_ports c)) None) (assoc_find addr (m_waiting_buffers c)))
      (m_cur_in_port c) (Some id) ltac:(auto with avoids)) as Ha.
    destruct (vset _ _ _); [done|]. cbn in E. by injection E as <-.
Qed.

Lemma safe_stall_and_wait ids id addr : id ∈ ids →
  {{ ctl_ok ids }} stall_and_wait (P := P) sys now id addr {{ λ _, ctl_ok ids }}.
Proof.
  intros Hid. eapply triple_bind; [by apply safe_stallBuffer|]. intros u.
  apply safe_on_buffer; [done| |].
  - intros b Hb. apply avoids_bind; [apply avoids_stallMessage; auto with avoids|done].
  - intros b r (b' & H1 & [= <-])%bind_Ok. by apply stallMessage_conf in H1.
Qed.

(** The buffers that wait for a line. *)
Definition waiters (vec : list (option Z)) : gset Z := list_to_set (omap id vec).

Lemma elem_of_waiters vec id : id ∈ waiters vec ↔ Some id ∈ vec.
Proof.
  unfold waiters. rewrite elem_of_list_to_set, list_elem_of_omap. split.
  - intros (o & Ho & E). cbn in E. by subst o.
  - intros H1. by exists (Some id).
Qed.

Lemma ctl_ok_waiters ids c vec : ctl_ok ids c →
  (∀ id, Some id ∈ vec → is_Some (buffers c !! id)) → ctl_ok (waiters vec ∪ ids) c.
Proof.
  intros (Hc & Hi & Hw) Hv. split_and!; [done| |done].
  intros id [Hid%elem_of_waiters|Hid]%elem_of_union; [by apply Hv|by apply Hi].
Qed.

Lemma safe_reanalyze_rank ids vec addr rank : waiters vec ⊆ ids →
  {{ ctl_ok ids }} reanalyze_rank (P := P) now vec addr rank {{ λ _, ctl_ok ids }}.
Proof.
  intros Hv. eapply triple_bind; [apply triple_lift; [auto with avoids|]|].
  { intros o c Ho Hc. exact (conj (proj2 (proj1 (vget_Ok _ _ _) Ho)) Hc). }
  intros [id|]; apply triple_pure; intros Ho; [|by apply triple_ret].
  apply safe_on_buffer.
  - apply Hv, elem_of_waiters. by eapply list_elem_of_lookup_2.
  - intros b Hb. by apply avoids_reanalyzeMessages.
  - intros b r. apply reanalyzeMessages_conf.
Qed.

Lemma with_waiting_ok ids c w : ctl_ok ids c → (∀ p, p ∈ w → p ∈ m_waiting_buffers c) →
  ctl_ok ids (with_waiting c w).
Proof. intros (Hc & Hi & Hw) Hsub. split_and!; [done|done|]. intros a vec id Hin. by eapply Hw, Hsub. Qed.

Lemma safe_wake_line ids addr ranks :
  {{ ctl_ok ids }} wake_line (P := P) now addr ranks {{ λ _, ctl_ok ids }}.
Proof.
  intros c Hc. unfold wake_line. destruct (assoc_find addr _) as [vec|] eqn:E; [|done].
  assert (ctl_ok (waiters vec ∪ ids) c) as Hc'.
  { apply ctl_ok_waiters; [done|]. intros id Hid. destruct Hc as (_ & _ & Hw).
    by eapply Hw; [apply assoc_find_elem|]. }
  pose proof (triple_each stuck (ctl_ok (waiters vec ∪ ids)) (reanalyze_rank now vec addr) ranks) as Ht.
  assert (∀ x, x ∈ ranks → triple stuck (ctl_ok (waiters vec ∪ ids)) (reanalyze_rank now vec addr x)
    (λ _, ctl_ok (waiters vec ∪ ids))) as Hr by (intros x _; apply safe_reanalyze_rank; set_solver).
  specialize (Ht Hr c Hc'). destruct (each _ _ c) as [[u c']|]; [|done]. cbn [mbind outcome_bind snd].
  apply (ctl_ok_weaken (waiters vec ∪ ids)); [set_solver|].
  apply with_waiting_ok; [done|]. intros p Hp. by apply list_elem_of_filter in Hp as [_ ?].
Qed.

Lemma safe_wakeUpBuffers ids addr :
  {{ ctl_ok ids }} wakeUpBuffers (P := P) now addr {{ λ _, ctl_ok ids }}.
Proof. intros c Hc. by apply safe_wake_line. Qed.

Lemma safe_wakeUpAllBuffers ids :
  {{ ctl_ok ids }} wakeUpAllBuffers (P := P) now {{ λ _, ctl_ok ids }}.
Proof.
  intros c Hc. unfold wakeUpAllBuffers. set (l := concat (m_waiting_buffers c).*2).
  assert (ctl_ok (waiters l ∪ ids) c) as Hc'.
  { apply ctl_ok_waiters; [done|]. intros id (a & v & Hin & Hv)%elem_of_concat_snd.
    destruct Hc as (_ & _ & Hw). by eapply Hw. }
  pose proof (triple_each stuck (ctl_ok (waiters l ∪ ids)) (λ o, match o with
    | Some buf => on_buffer buf (MessageBuffer.reanalyzeAllMessages now) | None => mret tt end) l) as Ht.
  cbv beta in Ht. specialize (Ht ltac:(intros [id|] Hx; [|by apply triple_ret];
    apply safe_on_buffer; [apply elem_of_union_l, elem_of_waiters, Hx|intros; by apply avoids_reanalyzeAll
      |intros; by eapply reanalyzeAll_conf]) c Hc').
  destruct (each _ l c) as [[u c']|]; [|done]. cbn [mbind outcome_bind snd].
  apply (ctl_ok_weaken (waiters l ∪ ids)); [set_solver|].
  apply with_waiting_ok; [done|]. by intros p ?%not_elem_of_nil.
Qed.

Lemma safe_blocks ids c b m : ctl_ok ids c → ctl_ok ids (with_blocks c b m).
Proof. done. Qed.

End base.

(** ** Caches *)

Section caches.
Import CacheMemory.
Context {T D : Type} `{PolicyLaws T} (sys : RubySystem.t).
Implicit Types (c : t T D) (a : Z).

(** The same lines are there, with the same data. *)
Definition same_data c c' : Prop :=
  ∀ a, AbstractCacheEntry.data <$> contents_at c' a = AbstractCacheEntry.data <$> contents_at c a.

Lemma same_data_refl c : same_data c c.
Proof. done. Qed.
Lemma same_data_trans c1 c2 c3 : same_data c1 c2 → same_data c2 c3 → same_data c1 c3.
Proof. intros H1 H2 a. by rewrite H2, H1. Qed.

(** A change that keeps well-formedness and data, or a fault that is not a null pointer. *)
Definition keeps_data c (o : outcome (t T D)) : Prop :=
  match o with Ok c' => cache_ok sys c' ∧ same_data c c' | Err f => ¬ stuck f end.

Lemma setMRU_keeps now c a : cache_ok sys c → line sys a → keeps_data c (setMRU sys now c a).
Proof.
  intros Hc Ha. pose proof Hc as (Hs & Ht & Hw). unfold setMRU. rewrite locate_eq by done.
  destruct (m_tag_index c !! a) as [i|] eqn:E; cbn; [|done].
  destruct (Ht a i E) as (_ & Hr & _).
  destruct (touch_spec now c (set_of c a) i Hs) as (p & -> & Hs'); [by apply set_of_range|done|].
  cbn. split; [|by intros b]. split; [exact Hs'|]. by split.
Qed.

Lemma update_keeps c a f : cache_ok sys c → line sys a →
  (∀ e, AbstractCacheEntry.m_Address (f e) = AbstractCacheEntry.m_Address e) →
  (∀ e, AbstractCacheEntry.m_Permission (f e) = AbstractCacheEntry.m_Permission e) →
  (∀ e, AbstractCacheEntry.data (f e) = AbstractCacheEntry.data e) →
  is_Some (contents_at c a) → keeps_data c (update_entry sys c a f).
Proof.
  intros Hc Ha Hadr Hperm Hdata [e He]. pose proof He as He'.
  apply (contents_iff sys) in He' as (i & _ & _ & Hea & Hpe); [|done].
  destruct (update_entry_spec sys c a f e) as (c' & -> & Hc' & Hcon);
    [done|done|done|by rewrite Hadr|by rewrite Hperm|]. cbn. split; [done|].
  intros b. rewrite Hcon. destruct (decide (b = a)) as [->|]; [|done]. rewrite He. cbn. by rewrite Hdata.
Qed.

Lemma contents_tag c a : cache_ok sys c → m_tag_index c !! a = None ∨
  ∃ i, m_tag_index c !! a = Some i ∧ is_Some (contents_at c a).
Proof.
  intros Hc. destruct (m_tag_index c !! a) as [i|] eqn:E; [|by left]. right. exists i. split; [done|].
  destruct (contents_at c a) as [e|] eqn:Ec; [by eexists|].
  apply (contents_None sys) in Ec; [congruence|done].
Qed.

Lemma setLocked_keeps c a x : cache_ok sys c → line sys a → keeps_data c (setLocked sys c a x).
Proof.
  intros Hc Ha. assert (setLocked sys c a x = match m_tag_index c !! a with
    | None => Err AssertFail
    | Some _ => update_entry sys c a (λ e, AbstractCacheEntry.set_locked e x) end) as ->.
  { unfold setLocked, locate_present, update_entry. rewrite assert_line_Ok, locate_eq by done.
    by destruct (m_tag_index c !! a). }
  destruct (contents_tag c a Hc) as [->|(i & -> & Hi)]; [done|]. by apply update_keeps.
Qed.

Lemma clearLocked_keeps c a : cache_ok sys c → line sys a → keeps_data c (clearLocked sys c a).
Proof. apply setLocked_keeps. Qed.

Lemma avoids_isLocked c a x : cache_ok sys c → line sys a → avoids stuck (isLocked sys c a x).
Proof.
  intros Hc Ha. unfold isLocked, locate_present. rewrite assert_line_Ok, locate_eq by done.
  cbn [mbind outcome_bind]. destruct (contents_tag c a Hc) as [->|(i & E & e & He)]; [done|].
  rewrite E. cbn. apply (contents_iff sys) in He as (j & Hj & Hat & _); [|done].
  assert (j = i) as -> by congruence. unfold entry_at. pose proof Hc as (Hs & Ht & _).
  destruct (Ht a i E) as (_ & Hr & _). rewrite slot_eq by (try done; by apply set_of_range).
  cbn [mbind outcome_bind]. by rewrite Hat.
Qed.

Lemma avoids_lookup c a : cache_ok sys c → line sys a → avoids stuck (lookup sys c a).
Proof. intros Hc Ha. by rewrite lookup_eq. Qed.

Lemma avoids_isTagPresent c a : cache_ok sys c → line sys a → avoids stuck (isTagPresent sys c a).
Proof. intros Hc Ha. by rewrite isTagPresent_eq. Qed.

End caches.

(** ** Destinations, blocks and times *)

Section destinations.
Context (counts : list Z) (junk : Z).
Implicit Types (d : NetDest.t) (x : NodeSet.t).

Lemma avoids_words x : avoids stuck (NodeSet.words x).
Proof. unfold NodeSet.words. avoid_faults. Qed.
Lemma avoids_word x i : avoids stuck (NodeSet.word x i).
Proof. unfold NodeSet.word. apply avoids_bind; [apply avoids_words|]. intros. auto with avoids. Qed.
Lemma avoids_set_word x i w : avoids stuck (NodeSet.set_word x i w).
Proof.
  unfold NodeSet.set_word. apply avoids_bind; [apply avoids_words|]. intros.
  apply avoids_bind; [auto with avoids|done].
Qed.
Hint Resolve avoids_word avoids_set_word : avoids.

Lemma avoids_clear x : avoids stuck (NodeSet.clear x).
Proof. unfold NodeSet.clear. avoid_faults. Qed.
Lemma avoids_all_words p x y l : avoids stuck (NodeSet.all_words p x y l).
Proof. induction l; cbn [NodeSet.all_words]; avoid_faults. Qed.
Lemma avoids_is_element x i : avoids stuck (NodeSet.isElement x i).
Proof. unfold NodeSet.isElement. avoid_faults. Qed.
Hint Resolve avoids_clear avoids_all_words avoids_is_element : avoids.

Lemma avoids_level m : avoids stuck (MachineType.base_level counts m).
Proof. unfold MachineType.base_level. avoid_faults. Qed.
Lemma avoids_base_count m : avoids stuck (MachineType.base_count counts m).
Proof. unfold MachineType.base_count. avoid_faults. Qed.
Hint Resolve avoids_level avoids_base_count : avoids.

Lemma avoids_update_row d i op : (∀ x, avoids stuck (op x)) → avoids stuck (NetDest.update_row d i op).
Proof. intros Hop. unfold NetDest.update_row. avoid_faults. Qed.
Lemma avoids_dest_create : avoids stuck (NetDest.create counts junk).
Proof. unfold NetDest.create, NetDest.resize, NodeSet.setSize. avoid_faults. Qed.
Lemma avoids_dest_add d m : avoids stuck (NetDest.add counts d m).
Proof.
  unfold NetDest.add, NetDest.vecIndex. avoid_faults. apply avoids_update_row. intros x.
  unfold NodeSet.add. avoid_faults.
Qed.
Lemma avoids_dest_remove d m : avoids stuck (NetDest.remove counts d m).
Proof.
  unfold NetDest.remove, NetDest.vecIndex. avoid_faults. apply avoids_update_row. intros x.
  unfold NodeSet.remove. avoid_faults.
Qed.
Lemma avoids_add_dest d e : avoids stuck (NetDest.addNetDest d e).
Proof. unfold NetDest.addNetDest, NetDest.zip_rows, NodeSet.addSet, NodeSet.zip_words. avoid_faults. Qed.
Lemma avoids_dest_clear d : avoids stuck (NetDest.clear d).
Proof. unfold NetDest.clear. avoid_faults. Qed.
Lemma avoids_broadcast_type d m : avoids stuck (NetDest.broadcast_type counts d m).
Proof. unfold NetDest.broadcast_type. avoid_faults. apply avoids_dest_add. Qed.
Lemma avoids_isElement d m : avoids stuck (NetDest.isElement counts d m).
Proof. unfold NetDest.isElement, NetDest.vecIndex. avoid_faults. Qed.
Lemma avoids_isEmpty d : avoids stuck (NetDest.isEmpty d).
Proof. unfold NetDest.isEmpty, NodeSet.isEmpty. avoid_faults. Qed.

Lemma avoids_first_element x js : avoids stuck (NetDest.first_element x js).
Proof. induction js; cbn [NetDest.first_element]; avoid_faults. Qed.
Lemma avoids_first_row l i : avoids stuck (NetDest.first_row i l).
Proof.
  revert i. induction l as [|x l IH]; intros i; cbn [NetDest.first_row]; [done|].
  apply avoids_bind; [apply avoids_first_element|]. intros [j|] _; [done|apply IH].
Qed.
Lemma avoids_smallestNodeID d : avoids stuck (NetDest.smallestNodeID d).
Proof.
  unfold NetDest.smallestNodeID, NetDest.count, NodeSet.count.
  avoid_faults. apply avoids_first_row.
Qed.

End destinations.

#[export] Hint Resolve avoids_dest_create avoids_dest_add avoids_dest_remove avoids_add_dest
  avoids_dest_clear avoids_broadcast_type avoids_isElement avoids_isEmpty avoids_smallestNodeID : avoids.

Section values.
Context (sys : RubySystem.t).
Implicit Types (d : DataBlock.t) (l : list Z).

Lemma avoids_copy_in l o l' n : avoids stuck (copy_in l o l' n).
Proof. unfold copy_in. avoid_faults. Qed.
Lemma avoids_from_here l o : avoids stuck (from_here l o).
Proof. unfold from_here. avoid_faults. Qed.
Hint Resolve avoids_copy_in avoids_from_here : avoids.

Lemma avoids_assign_from d d' : avoids stuck (DataBlock.assign_from sys d d').
Proof. unfold DataBlock.assign_from. avoid_faults. Qed.
Lemma avoids_setData d l o n : avoids stuck (DataBlock.setData sys d l o n).
Proof. unfold DataBlock.setData. avoid_faults. Qed.
Lemma avoids_getData d o n : avoids stuck (DataBlock.getData sys d o n).
Proof. unfold DataBlock.getData. avoid_faults. Qed.
Hint Resolve avoids_setData avoids_getData : avoids.

Lemma avoids_move_data ty p d : avoids stuck (move_data sys ty p d).
Proof. unfold move_data. avoid_faults. Qed.
Lemma avoids_mergeFrom x d : avoids stuck (SubBlock.mergeFrom sys x d).
Proof.
  unfold SubBlock.mergeFrom, SubBlock.internalMergeFrom, SubBlock.setByte, DataBlock.getByte. avoid_faults.
Qed.

Lemma avoids_cycles_sub a b : avoids stuck (cycles_sub a b).
Proof. unfold cycles_sub. avoid_faults. Qed.
Lemma avoids_advance fuel t p : 0 ≤ p → (0 < fuel)%nat → t - p ≤ 50 * (Z.of_nat fuel - 1) →
  avoids stuck (advance fuel t p).
Proof.
  revert p. induction fuel as [|fuel IH]; intros p Hp H0 Hf; cbn [advance]; [lia|].
  case_decide; [|done]. case_decide; [|done].
  unfold u64. rewrite uwrap_id by (unfold fits; lia). apply IH; lia.
Qed.
Hint Resolve avoids_cycles_sub : avoids.
Lemma avoids_getArbitLatency t n z : avoids stuck (getArbitLatency t n z).
Proof.
  unfold getArbitLatency, getCurrentStartSlot. avoid_faults.
  pose proof (start_period_fits t). apply avoids_advance; [lia..|].
  pose proof (Z.div_mod t 50). pose proof (Z.mod_pos_bound t 50). lia.
Qed.

Lemma avoids_directory s a : avoids stuck (map_Address_to_Directory s a).
Proof.
  unfold map_Address_to_Directory, map_Address_to_DirectoryNode,
    DirectoryMemory.mapAddressToDirectoryVersion. avoid_faults.
Qed.

End values.

#[export] Hint Resolve avoids_assign_from avoids_move_data avoids_mergeFrom avoids_cycles_sub
  avoids_getArbitLatency avoids_directory : avoids.

(** ** Sequencers *)

(** Addresses of lines: those the code makes, and those that pass its asserts. *)
Lemma line_of_make sys a : line sys (Address.makeLineAddress sys a).
Proof.
  unfold line, Address.line_address, Address.makeLineAddress, Address.maskLowOrderBits.
  set (m := if decide _ then _ else _).
  assert (fits 64 m) as Hm by (unfold m; case_decide; [done|apply uwrap_fits; lia]).
  rewrite <- Z.land_assoc, Z.land_diag. split; [|done].
  apply fits_of_bits; [lia|apply Z.land_nonneg; right; apply Hm|]. intros i Hi.
  by rewrite Z.land_spec, (fits_testbit_high 64 m), andb_false_r.
Qed.

Lemma assert_line_cases sys a :
  line sys a ∧ CacheMemory.assert_line sys a = Ok tt ∨
  ¬ line sys a ∧ CacheMemory.assert_line sys a = Err AssertFail.
Proof.
  unfold CacheMemory.assert_line. case_bool_decide as E; [left|right]; split; try done.
  - rewrite E. apply line_of_make.
  - by intros [_ ?].
Qed.

Section sequencers.
Context {T D : Type} `{PolicyLaws T} {W : Wired} (sys : RubySystem.t) (ids : gset Z).
Implicit Types (n : node T D).

(** The caches and the controller a sequencer shares are well-formed. *)
Definition node_ok n : Prop :=
  cache_ok sys (dataCache n) ∧ cache_ok sys (instCache n) ∧ ctl_ok ids (ctl n).

(** The caches hold the same data. *)
Definition same_caches n n' : Prop :=
  same_data (dataCache n) (dataCache n') ∧ same_data (instCache n) (instCache n').

(** A node that is well-formed and has the data of [n0]. *)
Definition like n0 n : Prop := node_ok n ∧ same_caches n0 n.

Lemma like_refl n : node_ok n → like n n.
Proof. done. Qed.

Lemma like_data_cache n0 n (o : outcome (CacheMemory.t T D)) :
  like n0 n → keeps_data sys (dataCache n) o →
  match o with Ok c => like n0 (with_data_cache n c) | Err f => ¬ stuck f end.
Proof.
  intros [(Hd & Hi & Hc) [Sd Si]]. destruct o as [c|]; [|done]. intros [Hok Hsame].
  split; [by split_and!|]. split; [|done]. by eapply same_data_trans.
Qed.

Lemma like_inst_cache n0 n (o : outcome (CacheMemory.t T D)) :
  like n0 n → keeps_data sys (instCache n) o →
  match o with Ok c => like n0 (with_inst_cache n c) | Err f => ¬ stuck f end.
Proof.
  intros [(Hd & Hi & Hc) [Sd Si]]. destruct o as [c|]; [|done]. intros [Hok Hsame].
  split; [by split_and!|]. split; [done|]. by eapply same_data_trans.
Qed.

Lemma like_seq n0 n q : like n0 n → like n0 (with_seq n q).
Proof. done. Qed.
Lemma like_ctl n0 n c : like n0 n → ctl_ok ids c → like n0 (with_ctl n c).
Proof. by intros [(? & ? & _) ?] Hc. Qed.

Context (now : Z) (cooldown : bool).

Lemma safe_set_mru n0 ty a : line sys a →
  {{ like n0 }} set_mru sys now ty false a {{ λ _, like n0 }}.
Proof.
  intros Ha n Hn. unfold set_mru. case_decide.
  - pose proof (like_inst_cache n0 n _ Hn (setMRU_keeps sys now _ a (proj1 (proj2 (proj1 Hn))) Ha)) as H2.
    by destruct (CacheMemory.setMRU _ _ _ _).
  - pose proof (like_data_cache n0 n _ Hn (setMRU_keeps sys now _ a (proj1 (proj1 Hn)) Ha)) as H2.
    by destruct (CacheMemory.setMRU _ _ _ _).
Qed.

Lemma safe_handleLlsc n0 a r : line sys a →
  {{ like n0 }} handleLlsc sys a r {{ λ _, like n0 }}.
Proof.
  intros Ha n Hn. pose proof (proj1 (proj1 Hn)) as Hd. unfold handleLlsc.
  pose proof (like_data_cache n0 n _ Hn (clearLocked_keeps sys _ a Hd Ha)) as Hclear.
  pose proof (like_data_cache n0 n _ Hn (setLocked_keeps sys _ a
    (Sequencer.m_version (sequencer n)) Hd Ha)) as Hset.
  pose proof (avoids_isLocked sys _ a (Sequencer.m_version (sequencer n)) Hd Ha) as Hl.
  pose proof (isTagPresent_eq sys _ a Hd Ha) as Hp.
  destruct (m_type r); try (rewrite Hp; cbn [mbind outcome_bind]; case_bool_decide; [|exact Hn]);
    try (destruct (CacheMemory.isLocked sys (dataCache n) a _) as [[]|]; [| |done]; cbn);
    first [done|by destruct (CacheMemory.setLocked _ _ _ _)|by destruct (CacheMemory.clearLocked _ _ _)].
Qed.

Lemma safe_hitCallback n0 r d ext :
  {{ like n0 }} hitCallback sys now cooldown r d ext false {{ λ _, like n0 }}.
Proof.
  intros n Hn. unfold hitCallback.
  pose proof (safe_set_mru n0 (m_type r) _ (line_of_make sys (getAddr (pkt r))) n Hn) as Hm.
  destruct (set_mru _ _ _ _ _ _) as [[u n']|]; [|done]. cbn [mbind outcome_bind snd].
  case_bool_decide; [|done]. cbn [assert_that mbind outcome_bind].
  pose proof (avoids_move_data sys (m_type r) (pkt r) d) as Hd.
  destruct (move_data _ _ _ _) as [[p d']|]; [|done]. cbn [mbind outcome_bind].
  destruct (Sequencer.m_usingRubyTester _); cbn [mbind outcome_bind]; [|done].
  destruct (tester p) as [x|]; cbn [from_option_or mbind outcome_bind]; [|done].
  pose proof (avoids_mergeFrom sys x d') as Hx. by destruct (SubBlock.mergeFrom _ _ _).
Qed.

Lemma avoids_markRemoved q : avoids stuck (Sequencer.markRemoved q).
Proof. unfold Sequencer.markRemoved, Sequencer.assert_count. avoid_faults. Qed.

Lemma safe_readCallback n0 a d ext :
  {{ like n0 }} readCallback sys now cooldown a d ext false {{ λ _, like n0 }}.
Proof.
  intros n Hn. unfold readCallback. destruct (assert_line_cases sys a) as [[_ ->]|[_ ->]]; [|done].
  cbn [mbind outcome_bind].
  destruct (Sequencer.m_readRequestTable _ !! a) as [r|]; [|done].
  match goal with |- context [Sequencer.markRemoved ?q] =>
    pose proof (avoids_markRemoved q) as Hq; destruct (Sequencer.markRemoved q) as [q'|]; [|done] end.
  cbn [mbind outcome_bind]. destruct (m_type r); try done; by apply safe_hitCallback.
Qed.

Lemma safe_writeCallback n0 a d ext :
  {{ like n0 }} writeCallback sys now cooldown a d ext {{ λ _, like n0 }}.
Proof.
  intros n Hn. unfold writeCallback. destruct (assert_line_cases sys a) as [[Ha ->]|[_ ->]];
    [|done]. cbn [mbind outcome_bind].
  destruct (Sequencer.m_writeRequestTable _ !! a) as [r|]; [|done]. cbn [from_option_or mbind outcome_bind].
  match goal with |- context [Sequencer.markRemoved ?q] =>
    pose proof (avoids_markRemoved q) as Hq; destruct (Sequencer.markRemoved q) as [q'|]; [|done] end.
  cbn [mbind outcome_bind]. destruct (is_write_callback_type (m_type r)); [|done].
  cbn [assert_that mbind outcome_bind].
  assert (∀ (x : bool * SequencerRequest) n', like n0 n' → match (let '((_, r), n) := (x, n') in
      b ← on_ctl (match m_type r with
              | Locked_RMW_Read => AbstractController.blockOnQueue a (Sequencer.m_mandatory_q_ptr q')
              | Locked_RMW_Write => AbstractController.unblock a
              | _ => mret tt
              end) n;
      hitCallback sys now cooldown r d ext false b.2) with Ok (_, n') => like n0 n' | Err f => ¬ stuck f end)
    as Hend.
  { intros [b r'] n' Hn'. unfold on_ctl, zoom. destruct (m_type r'); cbn [mbind outcome_bind];
      apply safe_hitCallback; try done; apply like_ctl; try done; apply safe_blocks, Hn'. }
  destruct (Sequencer.m_usingNetworkTester q'); [by apply (Hend (true, r))|].
  pose proof (safe_handleLlsc n0 a r Ha (with_seq n q') Hn) as Hl.
  destruct (handleLlsc _ _ _ _) as [[x n']|]; [|done]. by apply Hend.
Qed.

End sequencers.

(** ** The messages in a buffer *)

Lemma avoids_as_ruby p : avoids stuck (as_ruby p).
Proof. by destruct p. Qed.
Lemma avoids_as_request p : avoids stuck (as_request p).
Proof. by destruct p. Qed.
Lemma avoids_as_response p : avoids stuck (as_response p).
Proof. by destruct p. Qed.
Lemma avoids_as_memory p : avoids stuck (as_memory p).
Proof. by destruct p. Qed.
#[export] Hint Resolve avoids_as_ruby avoids_as_request avoids_as_response avoids_as_memory : avoids.
