(* ===== verification/Contents.v ===== *)
(** * What the buffers of a controller hold

    The operations on buffers move messages, between a queue, its stalled messages and the
    caller.  None of them makes a message up, and only [dequeue] takes one out.  Here this
    is shown without any assumption on the order of the queue, and the changes of all the
    buffers of a controller are added up. *)

From stdpp Require Import sorting.
From S2P Require Import Prelude Triples Addresses Clocks StdHeap Buffers Controllers.
Local Open Scope Z_scope.

(** ** One buffer *)

Section buffers.
Import MessageBuffer.
Context {P : Type}.
Implicit Types (b : t P) (m : Message.t P).

Lemma payloads_perm (q q' : list (MessageBufferNode.t P)) : q ≡ₚ q' → payloads q ≡ₚ payloads q'.
Proof. intros Hq. unfold payloads. by rewrite Hq. Qed.

Lemma updateDelayedTicks_payload m t m' : Message.updateDelayedTicks m t = Ok m' →
  Message.payload m' = Message.payload m.
Proof. unfold Message.updateDelayedTicks. by intros (u & _ & [= <-])%bind_Ok. Qed.

Lemma enqueue_contents sys now rt b m delta rmw r : enqueue sys now rt b m delta rmw = Ok r →
  contents r.1 ≡ₚ Message.payload m :: contents b ∧ m_stall_msg_map r.1 = m_stall_msg_map b.
Proof.
  unfold enqueue. intros (u & _ & H1)%bind_Ok. apply bind_Ok in H1 as (s & _ & H1).
  destruct (if decide (m_time_last_time_enqueue b < _) then _ else _) as [msgs te].
  apply bind_Ok in H1 as (? & _ & H1). destruct (arrival _ _ _ _ _ _) as [time last].
  do 3 apply bind_Ok in H1 as (? & _ & H1). apply bind_Ok in H1 as (m' & Hm & H1).
  apply bind_Ok in H1 as (h & Hh & H1). apply bind_Ok in H1 as (? & _ & [= <-]). split; [|done].
  unfold contents. cbn. set (n := MessageBufferNode.mk _ _ _) in Hh.
  assert (h ≡ₚ n :: m_prio_heap b) as Hp.
  { destruct rmw; apply push_heap_perm in Hh; rewrite Hh; [done|]. symmetry. apply Permutation_cons_append. }
  rewrite (payloads_perm _ _ Hp). cbn. by rewrite (updateDelayedTicks_payload _ _ _ Hm).
Qed.

Lemma dequeue_contents now b m c b' : dequeue now b = Ok (m, c, b') →
  (∃ n q, m_prio_heap b = n :: q ∧ Message.payload m = Message.payload (MessageBufferNode.m_msgptr n)) ∧
  contents b ≡ₚ Message.payload m :: contents b' ∧ m_stall_msg_map b' = m_stall_msg_map b.
Proof.
  unfold dequeue, note_pop, front. intros (n & Hn & H1)%bind_Ok.
  apply bind_Ok in H1 as ([m' b1] & Hp & H1). apply bind_Ok in Hp as (r & _ & Hp).
  apply bind_Ok in Hp as (m1 & Hm & [= -> <-]). apply bind_Ok in H1 as (h & Hh & H1).
  apply bind_Ok in H1 as (z & _ & [= <- _ <-]). apply bind_Ok in Hh as (h' & Hh & [= <-]).
  destruct (m_prio_heap b) as [|n0 q] eqn:E; [done|]. injection Hn as ->.
  assert (pop_heap_greater (n :: q) = Ok h') as Hpop by (rewrite <- E; by case_decide).
  apply pop_heap_perm in Hpop as (q' & -> & Hq). rewrite pop_back_app.
  assert (Message.payload m' = Message.payload (MessageBufferNode.m_msgptr n)) as Hpay
    by (by apply updateDelayedTicks_payload in Hm).
  split; [by exists n, q|]. unfold contents, stalled. split; [|by case_decide].
  rewrite E. cbn. rewrite Hpay, (payloads_perm _ _ Hq). by case_decide.
Qed.

(** The map of stalled messages is in the order of its keys. *)
Definition stall_sorted b : Prop := StronglySorted Z.lt (m_stall_msg_map b).*1.

Lemma sorted_stall_ok b : stall_sorted b → stall_ok b.
Proof.
  unfold stall_sorted, stall_ok. induction 1 as [|k l _ IH Hk]; [constructor|]. constructor; [|done].
  intros Hin. rewrite Forall_forall in Hk. specialize (Hk k Hin). lia.
Qed.

Lemma stall_push_sorted a m s : StronglySorted Z.lt s.*1 →
  StronglySorted Z.lt (stall_push (P := P) a m s).*1 ∧
  ∀ k, k ∈ (stall_push (P := P) a m s).*1 → k = a ∨ k ∈ s.*1.
Proof.
  induction s as [|[k ms] s IH]; cbn; intros Hs.
  { split; [by repeat constructor|]. set_solver. }
  pose proof Hs as Hs'. apply StronglySorted_inv in Hs as [Hs Hk]. specialize (IH Hs) as [IH1 IH2].
  rewrite Forall_forall in Hk. case_decide as Ea; [by split; [|set_solver]|]. case_decide; cbn.
  - split; [|set_solver]. constructor; [done|]. apply Forall_forall. intros x [->|Hx]%elem_of_cons; [done|].
    specialize (Hk x Hx). lia.
  - split; [|set_solver]. constructor; [done|]. apply Forall_forall. intros x [->|Hx]%IH2; [lia|by apply Hk].
Qed.

Lemma stall_erase_sorted a s : StronglySorted Z.lt s.*1 →
  StronglySorted Z.lt (stall_erase (P := P) a s).*1.
Proof.
  unfold stall_erase. induction s as [|[k ms] s IH]; [done|]. rewrite fmap_cons. intros Hs.
  apply StronglySorted_inv in Hs as [Hs Hk]. rewrite filter_cons. case_decide; [|by apply IH].
  rewrite fmap_cons. constructor; [by apply IH|]. rewrite Forall_forall in *. intros x (e & -> & He)%list_elem_of_fmap.
  apply list_elem_of_filter in He as [_ He]. apply Hk. by apply list_elem_of_fmap_2.
Qed.

(** The messages of [b'] are those of [b], and the order of the stalled ones is kept. *)
Definition rearranged b b' : Prop :=
  contents b' ≡ₚ contents b ∧ (stall_sorted b → stall_sorted b').

Lemma stallMessage_rearranged sys now b a b' : stallMessage sys now b a = Ok b' → rearranged b b'.
Proof.
  unfold stallMessage. intros (o & _ & H1)%bind_Ok. do 2 apply bind_Ok in H1 as (? & _ & H1).
  apply bind_Ok in H1 as ([[m c] b1] & Hd & [= <-]). apply dequeue_contents in Hd as (_ & Hc & Hst).
  split; [|unfold stall_sorted; cbn; rewrite Hst; intros Hs; by apply stall_push_sorted].
  rewrite Hc. unfold contents, stalled. cbn. rewrite stalled_push. cbn. by rewrite Permutation_middle.
Qed.

Lemma reanalyzeList_moves lt tick : ∀ fuel b r, reanalyzeList fuel b lt tick = Ok r →
  payloads (m_prio_heap r.1) ≡ₚ payloads (m_prio_heap b) ++ (Message.payload <$> lt) ∧
  m_stall_msg_map r.1 = m_stall_msg_map b.
Proof.
  induction lt as [|m lt IH]; intros fuel b r H1; destruct fuel as [|fuel]; cbn [reanalyzeList] in H1;
    [by injection H1 as <-; rewrite app_nil_r|by injection H1 as <-; rewrite app_nil_r|done|].
  change (reanalyze_pos (m :: lt)) with 0%nat in H1. change Trace.RANDOM_RECV with false in H1.
  cbn [lookup list_lookup from_option_or mbind outcome_bind] in H1.
  apply bind_Ok in H1 as (h & Hh & H1). apply bind_Ok in H1 as (r' & H1 & [= <-]).
  cbn [delete list_delete] in H1. apply IH in H1 as [Hp Hst]. split; [|done]. cbn [fst] in *. rewrite Hp.
  apply push_heap_perm in Hh. cbn. rewrite (payloads_perm _ _ Hh). unfold payloads. rewrite map_app. cbn.
  by rewrite <- app_assoc.
Qed.

Lemma reanalyzeMessages_rearranged now b a r : stall_sorted b → reanalyzeMessages now b a = Ok r →
  rearranged b r.1.
Proof.
  intros Hs. unfold reanalyzeMessages. intros (lt & Hlt & H1)%bind_Ok.
  apply bind_Ok in H1 as (c & _ & H1). apply bind_Ok in H1 as (r' & H1 & [= <-]).
  destruct (stall_find a _) as [ms|] eqn:Ef; [|done]. injection Hlt as ->.
  apply reanalyzeList_moves in H1 as [Hp Hst]. split.
  - unfold contents, stalled. cbn. rewrite Hst, Hp, <- app_assoc. f_equiv.
    by rewrite (stalled_erase a _ lt (sorted_stall_ok b Hs) Ef), fmap_app.
  - unfold stall_sorted. cbn. rewrite Hst. apply stall_erase_sorted.
Qed.

Lemma recycle_rearranged now b r : recycle now b = Ok r → rearranged b r.1.
Proof.
  unfold recycle, front. intros (n & Hn & H1)%bind_Ok. apply bind_Ok in H1 as (h & Hh & H1).
  apply bind_Ok in H1 as (c & _ & H1). apply bind_Ok in H1 as (h' & Hh' & [= <-]).
  destruct (m_prio_heap b) as [|n0 q] eqn:E; [done|]. injection Hn as ->.
  apply pop_heap_perm in Hh as (q' & -> & Hq). rewrite pop_back_app in Hh'. apply push_heap_perm in Hh'.
  split; [|done]. unfold contents. cbn. rewrite E, (payloads_perm _ _ Hh'). unfold payloads. rewrite map_app. cbn.
  rewrite <- (Permutation_cons_append _ _). cbn. by rewrite (payloads_perm _ _ Hq).
Qed.

Lemma reanalyzeAllMessages_rearranged now b r : reanalyzeAllMessages now b = Ok r → rearranged b r.1.
Proof.
  unfold reanalyzeAllMessages. intros (c & _ & H1)%bind_Ok. apply bind_Ok in H1 as (r' & H1 & [= <-]).
  assert (∀ (s : list (Z * list (Message.t P))) acc, mfold (λ acc e, res ← reanalyzeList (length e.2) acc.1 e.2 (ClockedObject.clockEdge now c 1);
      Ok (res.1, acc.2 ++ res.2)) acc s = Ok r' →
    payloads (m_prio_heap r'.1) ≡ₚ payloads (m_prio_heap acc.1) ++ (Message.payload <$> concat s.*2)) as Hm.
  { intros s. induction s as [|e s IH]; intros acc H2; cbn in H2.
    - injection H2 as <-. by rewrite app_nil_r.
    - apply bind_Ok in H2 as (acc1 & H2 & H3). apply bind_Ok in H2 as (r1 & H2 & [= <-]).
      apply reanalyzeList_moves in H2 as [Hp _]. rewrite (IH _ H3). cbn. rewrite Hp, fmap_app. by rewrite app_assoc. }
  split; [|by constructor]. unfold contents, stalled. cbn. rewrite (Hm _ _ H1), app_nil_r. cbn. done.
Qed.

Lemma delayHead_rearranged sys now rt b r : delayHead sys now rt b = Ok r → rearranged b r.1.
Proof.
  unfold delayHead, front. intros (n & Hn & H1)%bind_Ok. apply bind_Ok in H1 as (h & Hh & H1).
  destruct (m_prio_heap b) as [|n0 q] eqn:E; [done|]. injection Hn as ->.
  apply pop_heap_perm in Hh as (q' & -> & Hq). rewrite pop_back_app in H1.
  apply enqueue_contents in H1 as [Hc Hst]. split; [|unfold stall_sorted; by rewrite Hst].
  rewrite Hc. unfold contents, stalled. cbn. rewrite E. cbn. by rewrite (payloads_perm _ _ Hq).
Qed.

Lemma peek_contents b m : peek b = Ok m → Message.payload m ∈ contents b.
Proof.
  unfold peek, front. intros (n & Hn & [= <-])%bind_Ok. unfold contents.
  destruct (m_prio_heap b) as [|n0 q]; [done|]. injection Hn as ->. cbn. set_solver.
Qed.

End buffers.

(** ** The buffers of a controller *)

Section controllers.
Import AbstractController.
Context {P : Type}.
Implicit Types (c : t P) (id : Z) (p : P) (l : list (Z * P)).

Definition holding c id : list P := from_option contents [] (buffers c !! id).

(** The message at the head of a queue. *)
Definition head_of c id : option P :=
  b ← buffers c !! id; n ← head (MessageBuffer.m_prio_heap b);
  Some (Message.payload (MessageBufferNode.m_msgptr n)).

Definition of_buffer id l : list P := (filter (λ x, x.1 = id) l).*2.

(** From [c] to [c'] the messages [ins] came into the buffers and [outs] left them. *)
Definition transfer (ins outs : list (Z * P)) c c' : Prop :=
  ∀ id, of_buffer id outs ++ holding c' id ≡ₚ of_buffer id ins ++ holding c id.

Definition sorted c : Prop := ∀ id b, buffers c !! id = Some b → stall_sorted b.

Lemma of_buffer_app id l l' : of_buffer id (l ++ l') = of_buffer id l ++ of_buffer id l'.
Proof. unfold of_buffer. by rewrite filter_app, fmap_app. Qed.

Lemma of_buffer_cons id x l : of_buffer id (x :: l) =
  if decide (x.1 = id) then x.2 :: of_buffer id l else of_buffer id l.
Proof. unfold of_buffer. rewrite filter_cons. by case_decide. Qed.

Lemma elem_of_of_buffer id p l : p ∈ of_buffer id l ↔ (id, p) ∈ l.
Proof.
  unfold of_buffer. rewrite list_elem_of_fmap. split.
  - intros ([i q] & -> & [<- H]%list_elem_of_filter). done.
  - intros H. exists (id, p). split; [done|]. by apply list_elem_of_filter.
Qed.

Lemma transfer_refl c : transfer [] [] c c.
Proof. by intros id. Qed.

Lemma transfer_trans ins outs ins' outs' c c1 c' :
  transfer ins outs c c1 → transfer ins' outs' c1 c' → transfer (ins ++ ins') (outs ++ outs') c c'.
Proof.
  intros H1 H2 id. rewrite !of_buffer_app. rewrite <- app_assoc, (H2 id).
  rewrite (Permutation_app_comm (of_buffer id ins)), <- app_assoc, <- (H1 id). solve_Permutation.
Qed.

(** What holds of the messages before and of those that come in holds afterwards. *)
Lemma transfer_forall (φ : Z → P → Prop) ins outs c c' : transfer ins outs c c' →
  (∀ id p, (id, p) ∈ ins → φ id p) → (∀ id, Forall (φ id) (holding c id)) →
  ∀ id, Forall (φ id) (holding c' id).
Proof.
  intros Ht Hin Hc id. apply Forall_forall. intros p Hp. specialize (Ht id).
  assert (p ∈ of_buffer id ins ++ holding c id) as Hx by (rewrite <- Ht; set_solver).
  apply elem_of_app in Hx as [Hx%elem_of_of_buffer|Hx]; [by apply Hin|].
  specialize (Hc id). rewrite Forall_forall in Hc. by apply Hc.
Qed.

(** One buffer has changed. *)
Lemma with_buffer_transfer ins outs c id b b' cs : buffers c !! id = Some b →
  outs ++ contents b' ≡ₚ ins ++ contents b →
  transfer (pair id <$> ins) (pair id <$> outs) c (with_buffer c id b' cs).
Proof.
  intros Hb Hp id'. unfold holding. cbn.
  assert (∀ k : list P, of_buffer id' (pair id <$> k) = if decide (id = id') then k else []) as Hof.
  { intros k. induction k as [|x k IH]; [by case_decide|]. rewrite fmap_cons, of_buffer_cons, IH. cbn.
    by case_decide. }
  rewrite !Hof. case_decide as E; [subst id'; by simplify_map_eq|by rewrite lookup_insert_ne].
Qed.

Lemma with_buffer_sorted c id b cs : sorted c → stall_sorted b → sorted (with_buffer c id b cs).
Proof.
  intros Hc Hb id' b'. cbn. intros [[<- <-]|[_ H1]]%lookup_insert_Some; [done|by eapply Hc].
Qed.

Lemma with_buffer_head c id b cs id' : id' ≠ id → head_of (with_buffer c id b cs) id' = head_of c id'.
Proof. intros Hne. unfold head_of. cbn. by rewrite lookup_insert_ne. Qed.

(** *** Operations *)

Lemma enqueue_transfer sys now rt edge id p latency rmw c u c' :
  AbstractController.enqueue sys now rt edge id p latency rmw c = Ok (u, c') →
  transfer [(id, p)] [] c c' ∧ (sorted c → sorted c') ∧ ∀ id', id' ≠ id → head_of c' id' = head_of c id'.
Proof.
  intros (b & r & Hb & H1 & ->)%on_buffer_Ok. apply enqueue_contents in H1 as [Hc Hst]. split; [|split].
  - exact (with_buffer_transfer [p] [] c id b r.1 _ Hb Hc).
  - intros Hs. apply with_buffer_sorted; [done|]. unfold stall_sorted. rewrite Hst. by apply (Hs id).
  - intros id' Hne. by apply with_buffer_head.
Qed.

Lemma dequeue_transfer now id c z c' : AbstractController.dequeue now id c = Ok (z, c') →
  ∃ p, head_of c id = Some p ∧ transfer [] [(id, p)] c c' ∧ (sorted c → sorted c').
Proof.
  unfold AbstractController.dequeue. intros (b & Hb & H1)%bind_Ok.
  apply bind_Ok in H1 as ([[m y] b'] & Hd & [= _ <-]). cbn [fst snd].
  destruct (buffers c !! id) as [b0|] eqn:E; [|done]. injection Hb as ->.
  apply dequeue_contents in Hd as ((n & q & Hh & Hm) & Hc & Hst). exists (Message.payload m). split.
  { unfold head_of. rewrite E. cbn. by rewrite Hh, Hm. } split.
  - apply (with_buffer_transfer [] [_] c id b b' _ E). by rewrite Hc.
  - intros Hs. apply with_buffer_sorted; [done|]. unfold stall_sorted. rewrite Hst. by apply (Hs id).
Qed.

(** A call on a buffer that moves its messages about. *)
Lemma on_buffer_rearranged id f c u c' : sorted c →
  (∀ b r, stall_sorted b → f b = Ok r → rearranged b r.1) → on_buffer id f c = Ok (u, c') →
  transfer [] [] c c' ∧ sorted c'.
Proof.
  intros Hs Hf (b & r & Hb & H1 & ->)%on_buffer_Ok. pose proof (Hs id b Hb) as Hsb.
  destruct (Hf b r Hsb H1) as [Hc Hst]. split; [|by apply with_buffer_sorted; [|apply Hst]].
  exact (with_buffer_transfer [] [] c id b r.1 _ Hb Hc).
Qed.

Lemma stall_and_wait_transfer sys now id a c u c' : sorted c →
  stall_and_wait sys now id a c = Ok (u, c') → transfer [] [] c c' ∧ sorted c'.
Proof.
  intros Hs (v & c1 & H1 & H2)%prog_bind_Ok. unfold stallBuffer in H1.
  apply bind_Ok in H1 as (vec & _ & [= _ <-]).
  eapply on_buffer_rearranged in H2; [exact H2|exact Hs|]. intros b r _ (b' & H3 & [= <-])%bind_Ok.
  by eapply stallMessage_rearranged.
Qed.

Lemma wake_line_transfer now a ranks c u c' : sorted c → wake_line now a ranks c = Ok (u, c') →
  transfer [] [] c c' ∧ sorted c'.
Proof.
  intros Hs. unfold wake_line. destruct (assoc_find a _) as [vec|].
  2: { intros [= _ <-]. split; [apply transfer_refl|done]. }
  intros ([v c1] & H1 & [= _ <-])%bind_Ok. change (transfer [] [] c c1 ∧ sorted c1).
  revert H1. apply (each_inv (λ s, transfer [] [] c s ∧ sorted s)); [|by split; [apply transfer_refl|]].
  intros rank s w s' _ [Ht Hst] (o & s1 & H1 & H2)%prog_bind_Ok. unfold lift in H1.
  destruct (vget vec rank); [|done]. injection H1 as <- <-. destruct a0 as [id|]; [|by injection H2 as _ <-].
  apply on_buffer_rearranged in H2 as [Ht' Hs']; [|done|intros b r; apply reanalyzeMessages_rearranged].
  split; [|done]. exact (transfer_trans [] [] [] [] _ _ _ Ht Ht').
Qed.

Lemma wakeUpAllBuffers_transfer now c u c' : sorted c → wakeUpAllBuffers now c = Ok (u, c') →
  transfer [] [] c c' ∧ sorted c'.
Proof.
  intros Hs. unfold wakeUpAllBuffers. intros ([v c1] & H1 & [= _ <-])%bind_Ok.
  change (transfer [] [] c c1 ∧ sorted c1). revert H1.
  apply (each_inv (λ s, transfer [] [] c s ∧ sorted s)); [|by split; [apply transfer_refl|]].
  intros [id|] s w s' _ [Ht Hst] H2; [|by injection H2 as _ <-].
  apply on_buffer_rearranged in H2 as [Ht' Hs']; [|done|intros b r _; apply reanalyzeAllMessages_rearranged].
  split; [|done]. exact (transfer_trans [] [] [] [] _ _ _ Ht Ht').
Qed.

Lemma delayHead_transfer sys now rt id c u c' : sorted c →
  AbstractController.delayHead sys now rt id c = Ok (u, c') → transfer [] [] c c' ∧ sorted c'.
Proof.
  intros Hs. apply on_buffer_rearranged; [done|]. intros b r _. apply delayHead_rearranged.
Qed.

Lemma slots_transfer now id n c x c' : areNSlotsAvailable now id n c = Ok (x, c') →
  transfer [] [] c c' ∧ (sorted c → sorted c') ∧ ∀ id', head_of c' id' = head_of c id'.
Proof.
  unfold areNSlotsAvailable. intros (b & Hb & H1)%bind_Ok. apply bind_Ok in H1 as ([y b'] & H1 & [= _ <-]).
  destruct (buffers c !! id) as [b0|] eqn:E; [|done]. injection Hb as ->. cbn [fst snd].
  assert (MessageBuffer.m_prio_heap b' = MessageBuffer.m_prio_heap b ∧
    MessageBuffer.m_stall_msg_map b' = MessageBuffer.m_stall_msg_map b) as [Hh Hst].
  { unfold MessageBuffer.areNSlotsAvailable in H1. case_decide; [by injection H1 as _ <-|].
    apply bind_Ok in H1 as (s & _ & H1). destruct (decide (u32 _ ≤ _)); by injection H1 as _ <-. }
  split; [|split].
  - apply (with_buffer_transfer [] [] c id b b' _ E). cbn. unfold contents, MessageBuffer.stalled.
    by rewrite Hh, Hst.
  - intros Hs. apply with_buffer_sorted; [done|]. unfold stall_sorted. rewrite Hst. by apply (Hs id).
  - intros id'. destruct (decide (id' = id)) as [->|Hne]; [|by apply with_buffer_head].
    unfold head_of. cbn. rewrite lookup_insert_eq, E. cbn. by rewrite Hh.
Qed.

Lemma isReady_same now id c x c' : AbstractController.isReady now id c = Ok (x, c') → c' = c.
Proof.
  intros (b & c1 & H1 & H2)%prog_bind_Ok. unfold buffer in H1.
  apply bind_Ok in H1 as (b1 & _ & [= <- <-]). by apply lift_Ok in H2 as [_ ->].
Qed.

Lemma peek_head id c p c' : AbstractController.peek id c = Ok (p, c') → c' = c ∧ head_of c id = Some p.
Proof.
  intros (b & c1 & H1 & H2)%prog_bind_Ok. unfold buffer in H1. apply bind_Ok in H1 as (b1 & Hb & [= <- <-]).
  apply prog_bind_Ok in H2 as (m & c2 & H2 & [= <- <-]). unfold lift in H2.
  destruct (MessageBuffer.peek b1) as [m1|] eqn:Em; [|done]. injection H2 as <- <-. split; [done|].
  unfold head_of. destruct (buffers c !! id) as [b2|]; [|done]. injection Hb as ->. cbn.
  unfold MessageBuffer.peek, MessageBuffer.front in Em. apply bind_Ok in Em as (n & Hn & [= <-]).
  destruct (MessageBuffer.m_prio_heap b1); [done|]. by injection Hn as ->.
Qed.

Lemma head_held c id p : head_of c id = Some p → p ∈ holding c id.
Proof.
  unfold head_of, holding. destruct (buffers c !! id) as [b|]; [|done]. cbn. unfold contents.
  destruct (MessageBuffer.m_prio_heap b); [done|]. intros [= <-]. cbn. set_solver.
Qed.

End controllers.
