(* ===== verification/Progress.v ===== *)
(** * Termination of wakeups

    The loop of a controller counts the transitions it fires and stops at a bound, but it
    does not count the iterations in which a port puts the head of its queue off to a later
    cycle.  Here the messages that are ready in the queues of the ports are the measure:
    putting one off lowers it, and a port that does nothing does not raise it. *)

From S2P Require Import Prelude Triples Clocks StdHeap Buffers Controllers Machines Pointers.
Local Open Scope Z_scope.

(** ** Ready messages of a buffer *)

Section buffers.
Context {P : Type} (now : Z).
Implicit Types (b : MessageBuffer.t P) (q : list (MessageBufferNode.t P)).

Definition ready_in (edge : Z) q : nat :=
  length (filter (λ n, MessageBufferNode.m_time n ≤ edge) q).

Definition ready_nodes b : nat :=
  match MessageBuffer.receiver b with
  | Ok r => ready_in (ClockedObject.clockEdge now r 0) (MessageBuffer.m_prio_heap b)
  | Err _ => 0%nat
  end.

(** The receiver is not ahead of the sender. *)
Definition in_step (c : MessageBuffer.config) : Prop :=
  ∀ s r, MessageBuffer.m_sender c = Some s → MessageBuffer.m_receiver c = Some r →
    ClockedObject.clockEdge now (obj_clock r) 0 ≤
    ClockedObject.clockEdge now (obj_clock s) 0.

Lemma ready_in_perm edge q q' : q ≡ₚ q' → ready_in edge q = ready_in edge q'.
Proof. intros Hq. unfold ready_in. by rewrite Hq. Qed.

Lemma ready_in_cons edge n q : ready_in edge (n :: q) =
  ((if decide (MessageBufferNode.m_time n ≤ edge)%Z then 1 else 0) + ready_in edge q)%nat.
Proof. unfold ready_in. rewrite filter_cons. by case_decide. Qed.

Lemma dequeue_heap b m c b' : MessageBuffer.dequeue now b = Ok (m, c, b') →
  ∃ n q, MessageBuffer.m_prio_heap b = n :: q ∧ MessageBuffer.m_prio_heap b' ≡ₚ q.
Proof.
  unfold MessageBuffer.dequeue, MessageBuffer.note_pop, MessageBuffer.front.
  intros (n & Hn & H1)%bind_Ok. destruct (MessageBuffer.m_prio_heap b) as [|n0 q] eqn:E; [done|].
  apply bind_Ok in H1 as ([m' b1] & Hp & H1). apply bind_Ok in Hp as (r & _ & Hp).
  apply bind_Ok in Hp as (m1 & _ & [= _ <-]). apply bind_Ok in H1 as (h & Hh & H1).
  apply bind_Ok in H1 as (z & _ & [= _ _ <-]). exists n0, q. split; [done|]. cbn.
  apply bind_Ok in Hh as (h' & Hh & [= <-]).
  assert (MessageBuffer.pop_heap_greater (n0 :: q) = Ok h') as Hpop by (rewrite <- E; by case_decide).
  apply pop_heap_perm in Hpop as (q' & -> & Hq). by rewrite pop_back_app.
Qed.

Lemma dequeue_ready b m c b' : MessageBuffer.dequeue now b = Ok (m, c, b') →
  (ready_nodes b' ≤ ready_nodes b)%nat.
Proof.
  intros Hd. pose proof (dequeue_heap b m c b' Hd) as (n & q & E & Hq).
  apply dequeue_frame in Hd as (_ & Hc & _). unfold ready_nodes, MessageBuffer.receiver. rewrite Hc, E.
  destruct (MessageBuffer.clock_of _); [|done]. rewrite (ready_in_perm _ _ _ Hq), ready_in_cons. lia.
Qed.

Lemma enqueue_heap sys rt b m delta r : MessageBuffer.enqueue sys now rt b m delta false = Ok r →
  ∃ s n, MessageBuffer.sender b = Ok s ∧ ClockedObject.clockEdge now s 0 < MessageBufferNode.m_time n ∧
    MessageBuffer.m_prio_heap r.1 ≡ₚ n :: MessageBuffer.m_prio_heap b.
Proof.
  unfold MessageBuffer.enqueue. intros (u & _ & H1)%bind_Ok. apply bind_Ok in H1 as (s & Hs & H1).
  destruct (if decide (MessageBuffer.m_time_last_time_enqueue b < _) then _ else _) as [msgs te].
  apply bind_Ok in H1 as (u1 & _ & H1).
  destruct (MessageBuffer.arrival _ _ _ _ _ _) as [time last].
  apply bind_Ok in H1 as (u2 & Ht%assert_that_Ok & H1). rewrite bool_decide_eq_true in Ht.
  do 2 apply bind_Ok in H1 as (? & _ & H1). apply bind_Ok in H1 as (m' & _ & H1).
  apply bind_Ok in H1 as (h & Hh & H1). apply bind_Ok in H1 as (? & _ & [= <-]).
  apply push_heap_perm in Hh. exists s. eexists (MessageBufferNode.mk time _ _).
  split; [done|]. split; [exact Ht|]. cbn. rewrite Hh. symmetry. apply Permutation_cons_append.
Qed.

(** A ready head that is put off is not ready any more. *)
Lemma delayHead_ready sys rt b r : in_step (MessageBuffer.conf b) →
  MessageBuffer.isReady now b = Ok true → MessageBuffer.delayHead sys now rt b = Ok r →
  (ready_nodes r.1 < ready_nodes b)%nat.
Proof.
  intros Hin Hr Hd. pose proof (delayHead_conf _ _ _ _ _ Hd) as Hconf.
  unfold MessageBuffer.isReady in Hr. unfold MessageBuffer.delayHead, MessageBuffer.front in Hd.
  unfold ready_nodes. destruct (MessageBuffer.m_prio_heap b) as [|n q] eqn:E; [done|].
  apply bind_Ok in Hr as (rc & Hrc & [= Hle%bool_decide_eq_true]).
  assert (MessageBuffer.receiver r.1 = Ok rc) as -> by (unfold MessageBuffer.receiver in *; by rewrite Hconf).
  rewrite Hrc, ready_in_cons, decide_True by done.
  apply bind_Ok in Hd as (n' & _ & Hd). apply bind_Ok in Hd as (h & Hh & Hd).
  apply pop_heap_perm in Hh as (q' & -> & Hq). rewrite pop_back_app in Hd.
  apply enqueue_heap in Hd as (s & x & Hs & Ht & Hheap). cbn in Hheap.
  rewrite (ready_in_perm _ _ _ Hheap), ready_in_cons, (ready_in_perm _ _ _ Hq), decide_False; [lia|].
  unfold MessageBuffer.sender, MessageBuffer.receiver, MessageBuffer.clock_of in Hs, Hrc. cbn in Hs.
  destruct (MessageBuffer.m_sender _) eqn:Es in Hs; [|done]. injection Hs as <-.
  destruct (MessageBuffer.m_receiver _) eqn:Er; [|done]. injection Hrc as <-.
  specialize (Hin _ _ Es Er). lia.
Qed.

End buffers.

(** ** Wakeups keep what their ports keep *)

Section loops.
Context {C : Type} (bad : fault → Prop) (ok : C → Prop) (set_cur_in_port : Z → prog C unit).
Hypothesis cur_ok : ∀ rank, triple bad ok (set_cur_in_port rank) (λ _, ok).

Lemma scan_keeps ps : (∀ rank code, (rank, code) ∈ ps → triple bad ok code (λ _, ok)) →
  triple bad ok (scan_ports set_cur_in_port ps) (λ _, ok).
Proof.
  induction ps as [|[rank code] ps IH]; intros Hps; cbn [scan_ports]; [apply keeps_ret|].
  apply keeps_bind; [done|]. intros ?. apply keeps_bind; [apply (Hps rank); set_solver|].
  intros []; try apply keeps_ret. apply IH. intros r c Hin. apply (Hps r). set_solver.
Qed.

Context (ports : list (Z * prog C port_result)) (wake_next_cycle : prog C unit) (bound : Z).
Hypothesis wake_ok : triple bad ok wake_next_cycle (λ _, ok).

Lemma loop_keeps fuel k : ¬ bad OutOfFuel → ¬ bad AssertFail →
  (∀ rank code, (rank, code) ∈ ports → triple bad ok code (λ _, ok)) →
  triple bad ok (wakeup_loop ports set_cur_in_port wake_next_cycle bound fuel k) (λ _, ok).
Proof.
  intros Hfuel Hassert Hps. revert k. induction fuel as [|fuel IH]; intros k; cbn [wakeup_loop]; [by apply triple_raise|].
  apply keeps_bind; [apply triple_lift_any; by destruct (bool_decide _)|]. intros ?.
  case_decide; [exact wake_ok|]. apply keeps_bind; [exact (scan_keeps ports Hps)|].
  intros []; [done|done|apply keeps_ret].
Qed.

End loops.

(** Whatever the fuel, the loop follows no null pointer. *)
Lemma wakeup_keeps {C} (ok : C → Prop) set_cur_in_port ports wake_next_cycle bound fuel k :
  (∀ rank, triple stuck ok (set_cur_in_port rank) (λ _, ok)) → triple stuck ok wake_next_cycle (λ _, ok) →
  (∀ rank code, (rank, code) ∈ ports → triple stuck ok code (λ _, ok)) →
  triple (λ f, f = NullDeref) ok (wakeup_loop ports set_cur_in_port wake_next_cycle bound fuel k) (λ _, ok).
Proof.
  intros Hcur Hwake Hps. assert (∀ f, f = NullDeref → stuck f) as Hn by (by intros ? ->).
  apply loop_keeps; [..|done|done|]; intros; eapply triple_bad; try exact Hn; eauto.
Qed.

(** ** Ready messages of a controller *)

Section controller.
Context {C P : Type} (abs : C → AbstractController.t P) (inputs : list Z) (now : Z).
Implicit Types (s : C).

Definition ready_of (c : AbstractController.t P) (id : Z) : nat :=
  from_option (ready_nodes now) 0%nat (AbstractController.buffers c !! id).

Definition waiting s : nat := sum_list (ready_of (abs s) <$> inputs).

(** What the measure depends on. *)
Definition heaps s : gmap Z (MessageBuffer.config * list (MessageBufferNode.t P)) :=
  (λ b, (MessageBuffer.conf b, MessageBuffer.m_prio_heap b)) <$> AbstractController.buffers (abs s).

Lemma waiting_heaps s s' : heaps s = heaps s' → waiting s = waiting s'.
Proof.
  intros E. unfold waiting. f_equal. apply list_fmap_ext. intros _ id _. unfold ready_of.
  assert (heaps s !! id = heaps s' !! id) as Eid by (by rewrite E). unfold heaps in Eid.
  rewrite !lookup_fmap in Eid.
  destruct (AbstractController.buffers (abs s) !! id), (AbstractController.buffers (abs s') !! id);
    try done. injection Eid as Hc Hh. cbn. unfold ready_nodes, MessageBuffer.receiver. by rewrite Hc, Hh.
Qed.

(** One buffer has changed. *)
Lemma waiting_buffer s s' id b b' cs : AbstractController.buffers (abs s) !! id = Some b →
  abs s' = AbstractController.with_buffer (abs s) id b' cs →
  ((ready_nodes now b' ≤ ready_nodes now b)%nat → (waiting s' ≤ waiting s)%nat) ∧
  (id ∈ inputs → (ready_nodes now b' < ready_nodes now b)%nat → (waiting s' < waiting s)%nat).
Proof.
  intros Hb E. unfold waiting.
  assert (∀ j, ready_of (abs s') j = if decide (j = id) then ready_nodes now b' else ready_of (abs s) j) as Hj.
  { intros j. unfold ready_of. rewrite E. cbn. case_decide as Hj; [subst j|]; by simplify_map_eq. }
  assert (ready_of (abs s) id = ready_nodes now b) as Hid by (unfold ready_of; by rewrite Hb).
  assert ((ready_nodes now b' ≤ ready_nodes now b)%nat → ∀ l,
    (sum_list (ready_of (abs s') <$> l) ≤ sum_list (ready_of (abs s) <$> l))%nat) as Hle.
  { intros Hle l. induction l as [|j l IH]; cbn; [lia|]. rewrite Hj. case_decide; subst; lia. }
  split; [intros; by apply Hle|]. intros Hin Hlt.
  induction inputs as [|j l IH]; [by apply elem_of_nil in Hin|]. cbn. specialize (Hle ltac:(lia) l).
  rewrite Hj. case_decide; [subst; lia|]. apply elem_of_cons in Hin as [->|Hin]; [done|].
  specialize (IH Hin). lia.
Qed.

(** *** Code that leaves the queues alone *)

Definition quiet {A} (p : prog C A) : Prop := ∀ s a s', p s = Ok (a, s') → heaps s' = heaps s.

Lemma quiet_bind {A B} (p : prog C A) (k : A → prog C B) :
  quiet p → (∀ a, quiet (k a)) → quiet (p ≫= k).
Proof.
  intros Hp Hk s b s' (a & s1 & H1 & H2)%prog_bind_Ok. rewrite (Hk _ _ _ _ H2). by apply (Hp _ a).
Qed.
Lemma quiet_ret {A} (a : A) : quiet (mret a).
Proof. by intros s a' s' [= <- <-]. Qed.
Lemma quiet_gets {A} (f : C → A) : quiet (gets f).
Proof. by intros s a' s' [= <- <-]. Qed.
Lemma quiet_reads {A} (f : C → outcome A) : quiet (reads f).
Proof. intros s a s'. unfold reads. destruct (f s); by intros [= <- <-]. Qed.
Lemma quiet_lift {A} (o : outcome A) : quiet (lift o).
Proof. intros s a s'. unfold lift. destruct o; by intros [= <- <-]. Qed.
Lemma quiet_raise {A} f : quiet (A := A) (raise f).
Proof. by intros s a s'. Qed.
Lemma quiet_modS (g : C → C) : (∀ s, abs (g s) = abs s) → quiet (modS g).
Proof. intros Hg s a s' [= <- <-]. unfold heaps. by rewrite Hg. Qed.

(** *** Operations of the base controller *)

Lemma slots_heaps buf k (c : AbstractController.t P) x c' :
  AbstractController.areNSlotsAvailable now buf k c = Ok (x, c') →
  (λ b, (MessageBuffer.conf b, MessageBuffer.m_prio_heap b)) <$> AbstractController.buffers c' =
  (λ b, (MessageBuffer.conf b, MessageBuffer.m_prio_heap b)) <$> AbstractController.buffers c.
Proof.
  unfold AbstractController.areNSlotsAvailable. intros (b & Hb & E)%bind_Ok.
  apply bind_Ok in E as ([z b'] & Hs & [= <- <-]).
  unfold from_option_or in Hb. destruct (_ !! buf) as [b0|] eqn:Eb; [|done]. injection Hb as ->.
  cbn. rewrite fmap_insert. apply insert_id. rewrite lookup_fmap, Eb. cbn.
  f_equal. unfold MessageBuffer.areNSlotsAvailable in Hs. case_decide; [by injection Hs as _ <-|].
  apply bind_Ok in Hs as (sd & _ & Hs). destruct (decide (u32 _ ≤ _)); by injection Hs as _ <-.
Qed.

Lemma dequeue_waiting buf s z c s' : AbstractController.dequeue now buf (abs s) = Ok (z, c) → abs s' = c →
  (waiting s' ≤ waiting s)%nat.
Proof.
  unfold AbstractController.dequeue. intros (b & Hb & H1)%bind_Ok E.
  apply bind_Ok in H1 as ([[m y] b'] & Hd & [= <- <-]).
  unfold from_option_or in Hb. destruct (_ !! buf) as [b0|] eqn:Eb; [|done]. injection Hb as ->.
  eapply waiting_buffer; [exact Eb|exact E|]. by eapply dequeue_ready.
Qed.

(** *** Ports *)

(** From a state with [I], a port that gives up without a transition leaves no more ready
    messages than before, and fewer if it put one off. *)
Definition winds_down_from (I : C → Prop) (p : prog C port_result) : Prop :=
  ∀ s r s', I s → p s = Ok (r, s') →
    match r with
    | Fired => True
    | Delayed => (waiting s' < waiting s)%nat
    | Idle => (waiting s' ≤ waiting s)%nat
    end.
Definition winds_down : prog C port_result → Prop := winds_down_from (λ _, True).

Lemma winds_down_bind {A} (p : prog C A) k : quiet p → (∀ a, winds_down (k a)) → winds_down (p ≫= k).
Proof.
  intros Hp Hk s r s' _ (a & s1 & H1 & H2)%prog_bind_Ok. specialize (Hk _ _ _ _ I H2).
  rewrite <- (waiting_heaps s1 s); [done|]. by apply (Hp _ a).
Qed.
Lemma winds_down_idle : winds_down (mret Idle).
Proof. by intros s r s' _ [= <- <-]. Qed.

Lemma after_transition_winds (wake : prog C unit) r :
  quiet wake → winds_down (after_transition wake r).
Proof.
  intros Hw. destruct r; [by intros s r s' _ [= <- <-]|].
  apply winds_down_bind; [done|]. intros ?. apply winds_down_idle.
Qed.

(** *** The loop *)

Context (ports : list (Z * prog C port_result)).
Context (set_cur_in_port : Z → prog C unit) (wake_next_cycle : prog C unit) (bound : Z).
Context (ok : C → Prop).
Hypothesis cur_ok : ∀ rank, triple stuck ok (set_cur_in_port rank) (λ _, ok).
Hypothesis cur_quiet : ∀ rank, quiet (set_cur_in_port rank).
Hypothesis wake_ok : triple stuck ok wake_next_cycle (λ _, ok).
Hypothesis ports_ok : ∀ rank code, (rank, code) ∈ ports →
  triple stuck ok code (λ _, ok) ∧ winds_down_from ok code.

Lemma scan_winds ps : (∀ x, x ∈ ps → x ∈ ports) →
  winds_down_from ok (scan_ports set_cur_in_port ps).
Proof.
  induction ps as [|[rank code] ps IH]; intros Hps; cbn [scan_ports]; [by intros s r s' _ [= <- <-]|].
  destruct (ports_ok rank code) as [Hok Hw]; [set_solver|]. intros s r s' Hs (u & s1 & H1 & H2)%prog_bind_Ok.
  pose proof (triple_Ok _ _ _ _ _ _ _ (cur_ok rank) Hs H1) as Hs1.
  apply cur_quiet, waiting_heaps in H1. apply prog_bind_Ok in H2 as (r1 & s2 & H2 & H3).
  pose proof (triple_Ok _ _ _ _ _ _ _ Hok Hs1 H2) as Hs2. apply Hw in H2; [|done].
  destruct r1; [by injection H3 as <- <-|injection H3 as <- <-; lia|].
  apply IH in H3; [|set_solver|done]. destruct r; [done|lia|lia].
Qed.

(** With enough fuel the loop ends, and in none of the excluded faults. *)
Lemma wakeup_loop_ends s counter : ok s → ∃ N, ∀ fuel, (N ≤ fuel)%nat →
  avoids stuck (wakeup_loop ports set_cur_in_port wake_next_cycle bound fuel counter s).
Proof.
  remember (Z.to_nat (bound - counter)) as k eqn:Hk. revert counter s Hk.
  induction k as [k IHk] using lt_wf_ind. intros counter s Hk.
  remember (waiting s) as w eqn:Hw. revert s Hw. induction w as [w IHw] using lt_wf_ind. intros s -> Hs.
  pose proof (scan_winds ports ltac:(done)) as Hwinds.
  pose proof (scan_keeps stuck ok _ cur_ok ports (λ rank code Hin, proj1 (ports_ok rank code Hin))) as Hscan.
  destruct (decide (counter < bound)) as [Hlt|Hge].
  2: { exists 1%nat. intros [|fuel] Hf; [lia|]. cbn [wakeup_loop]. unfold mbind, prog_bind, lift.
       case_bool_decide; [|done]. cbn [assert_that]. rewrite decide_True by lia.
       specialize (wake_ok s Hs). by destruct (wake_next_cycle s) as [[]|]. }
  assert (∀ N, match scan_ports set_cur_in_port ports s with
    | Ok (Fired, s') => ∀ fuel, (N ≤ fuel)%nat → avoids stuck (wakeup_loop ports set_cur_in_port
        wake_next_cycle bound fuel (counter + 1) s')
    | Ok (Delayed, s') => ∀ fuel, (N ≤ fuel)%nat → avoids stuck (wakeup_loop ports set_cur_in_port
        wake_next_cycle bound fuel counter s')
    | _ => True end →
    ∀ fuel, (S N ≤ fuel)%nat →
      avoids stuck (wakeup_loop ports set_cur_in_port wake_next_cycle bound fuel counter s)) as Hstep.
  { intros N HN [|fuel] Hf; [lia|]. cbn [wakeup_loop]. unfold mbind, prog_bind, lift.
    rewrite bool_decide_eq_true_2 by lia. cbn [assert_that]. rewrite decide_False by lia.
    specialize (Hscan s Hs). destruct (scan_ports _ _ s) as [[[] s']|]; [apply HN; lia|apply HN; lia|done..]. }
  pose proof (Hscan s Hs) as Hs'. destruct (scan_ports set_cur_in_port ports s) as [[[] s']|] eqn:E.
  - destruct (IHk (Z.to_nat (bound - (counter + 1))) ltac:(lia) _ s' eq_refl Hs') as [N HN].
    exists (S N). by apply Hstep.
  - destruct (IHw (waiting s') (Hwinds _ _ _ Hs E) s' eq_refl Hs') as [N HN]. exists (S N). by apply Hstep.
  - exists 1%nat. by apply (Hstep 0%nat).
  - exists 1%nat. by apply (Hstep 0%nat).
Qed.

End controller.
