(* ===== verification/DmaRuns.v ===== *)
(** * What the DMA sequencer does with a request of a device

    The port of the sequencer takes requests that lie in one line.  The theorem follows one
    from the port to the message for the DMA controller, and from the controller's callback
    back to the port, for [DmaPort] of [Dma]; what answers the message is not part of it. *)

From S2P Require Import Prelude Triples IntMath Addresses NodeSets Destinations Clocks StdHeap Buffers Arbiter Blocks.
From S2P Require Import Policies Caches MsiTables Controllers DirectoryMemory Messages Sequencer PacketQueues Machines.
From S2P Require Import Dma Pointers Contents Progress.
Import DMASequencer DmaPort.
Local Open Scope Z_scope.

Section line.
Context (sys : RubySystem.t) (Hg : Address.geometry sys) (Hbits : RubySystem.m_block_size_bits sys ≤ 30).
(** The request of the device and its bytes. *)
Context (p : dma_packet) (l0 : list Z).
Implicit Types (r : DMARequest) (b : DataBlock.t) (l : list Z).

Definition request_ok : Prop :=
  0 ≤ d_addr p ∧ 0 < d_size p < 2 ^ 30 ∧ d_addr p + d_size p ≤ 2 ^ 64 ∧
  d_has_data p = true ∧ d_data p = Some l0 ∧ Z.of_nat (length l0) = d_size p.

Context (Hp : request_ok).

#[local] Abbreviation B := (RubySystem.m_block_size_bytes sys).
#[local] Abbreviation mask := (2 ^ RubySystem.m_block_size_bits sys - 1).
#[local] Abbreviation offset := (d_addr p `mod` B).

(** The request lies in one line. *)
Definition in_line : Prop := offset + d_size p ≤ B.

(** The message for the controller: the address and the bytes of the request, at their place
    in the line. *)
Definition line_message (x : SequencerMsg.t) : Prop :=
  SequencerMsg.m_PhysicalAddress x = d_addr p ∧
  SequencerMsg.m_LineAddress x = Address.line_address sys (d_addr p) ∧
  SequencerMsg.m_Type x = (if d_write p then Sequencer_ST else Sequencer_LD) ∧
  SequencerMsg.m_Len x = d_size p ∧
  (d_write p = true → ∀ i, 0 ≤ i < d_size p →
     DataBlock.m_data (SequencerMsg.m_DataBlk x) !! Z.to_nat (offset + i) = l0 !! Z.to_nat i).

(** The bytes of the device when the line [b] has come. *)
Definition device_bytes b l : Prop :=
  length l = length l0 ∧ ∀ i, 0 ≤ i < d_size p →
    l !! Z.to_nat i = if d_write p then l0 !! Z.to_nat i
                      else DataBlock.m_data b !! Z.to_nat (offset + i).

(** The request as the sequencer keeps it: issued in full, and not completed. *)
Definition active : DMARequest := mkDMARequest (d_addr p) (d_size p) (d_write p) 0 (d_size p) p.

Lemma block_bounds : 2 ≤ B ≤ 2 ^ 30.
Proof.
  split; [by apply block_pos|]. destruct Hg as [? ->]. apply Z.pow_le_mono_r; lia.
Qed.

Lemma mask_mod a : Z.land a mask = a `mod` B.
Proof.
  destruct Hg as [? ->]. rewrite <- Z.land_ones by lia. f_equal. rewrite Z.ones_equiv. lia.
Qed.

Lemma in_block_true o n : 0 ≤ o → 0 ≤ n → o + n ≤ B → DataBlock.in_block sys o n = true.
Proof.
  intros. pose proof block_bounds. unfold DataBlock.in_block, u32, RubySystem.getBlockSizeBytes.
  rewrite uwrap_id by (unfold fits; lia). apply bool_decide_eq_true. lia.
Qed.

Lemma new_block_length : Z.of_nat (length (DataBlock.m_data (DataBlock.create sys))) = B.
Proof.
  pose proof block_bounds. unfold DataBlock.create, DataBlock.size, RubySystem.getBlockSizeBytes. cbn.
  rewrite length_replicate. lia.
Qed.

Lemma first_message_line : in_line → ∃ x,
  first_message sys mask (mkDMARequest (d_addr p) (s32 (d_size p)) (d_write p) 0 0 p) = Ok x ∧ line_message x.
Proof.
  intros Hin. unfold in_line in Hin. pose proof block_bounds as HB. pose proof Hp as (Ha0&Hsz&Hend&Hh&Hd&Hlen).
  pose proof (Z.mod_pos_bound (d_addr p) B ltac:(lia)) as Hm. pose proof new_block_length as Hn.
  unfold first_message, line_message. cbn [start_paddr len write]. rewrite mask_mod, !s32_id by lia.
  rewrite decide_True.
  2: { unfold u32, block, RubySystem.getBlockSizeBytes. rewrite uwrap_id by (unfold fits; lia). lia. }
  unfold data. cbn [pkt]. rewrite Hd.
  destruct (d_write p); [|cbn [mbind outcome_bind]; eexists; split; [done|]; by split_and!].
  unfold DataBlock.setData. rewrite in_block_true by lia. cbn [assert_that mbind outcome_bind].
  destruct (copy_total (DataBlock.m_data (DataBlock.create sys)) offset l0 (d_size p))
    as (l' & -> & _ & Hl'); [lia..|]. cbn [mbind outcome_bind].
  eexists. split; [done|]. split_and!; try done. intros _ i Hi. cbn. rewrite Hl', decide_True by lia. f_equal. lia.
Qed.

(** The answer to a read brings the bytes of the line to the device. *)
Lemma received_line b : in_line → d_write p = false → Z.of_nat (length (DataBlock.m_data b)) = B →
  ∃ l, received sys mask b active = Ok (mkDMARequest (d_addr p) (d_size p) (d_write p) 0 (d_size p) (set_data p l)) ∧
    device_bytes b l.
Proof.
  intros Hin Hw Hb. unfold in_line in Hin. pose proof block_bounds as HB.
  pose proof Hp as (Ha0&Hsz&Hend&Hh&Hd&Hlen). pose proof (Z.mod_pos_bound (d_addr p) B ltac:(lia)) as Hm.
  unfold received, active. cbn [start_paddr len write bytes_completed bytes_issued pkt]. rewrite Hw.
  cbn [negb assert_that mbind outcome_bind]. unfold data. cbn [pkt]. rewrite Hd, decide_True by done.
  rewrite mask_mod, s32_id, Z.sub_0_r by lia. unfold DataBlock.getData. rewrite in_block_true by lia.
  cbn [assert_that mbind outcome_bind]. rewrite from_here_Ok by lia. cbn [mbind outcome_bind].
  destruct (copy_total l0 0 (drop (Z.to_nat offset) (DataBlock.m_data b)) (d_size p))
    as (l & -> & Hl1 & Hl2); [lia|lia|lia|rewrite length_drop; lia|]. cbn [mbind outcome_bind].
  exists l. split; [done|]. split; [done|]. intros i Hi. rewrite Hw, Hl2, decide_True, lookup_drop by lia.
  f_equal. lia.
Qed.

Lemma set_data_same : set_data p l0 = p.
Proof. destruct Hp as (_&_&_&_&Hd&_). destruct p. cbn in *. by subst. Qed.

Context (isMemAddr : Z → bool) (clockPeriod : Z).
Implicit Types (n : dma_node) (now rt : Z).

Definition dma_idle n : Prop := m_is_busy (seq n) = false ∧ m_data_block_mask (seq n) = mask.

Definition dma_waiting n : Prop :=
  m_is_busy (seq n) = true ∧ m_data_block_mask (seq n) = mask ∧ active_request (seq n) = active.

Lemma accepted_line now rt n accepted n' : dma_idle n →
  recvTimingReq sys isMemAddr now rt p n = Ok (accepted, n') →
  accepted = true ∧ in_line ∧ dma_waiting n' ∧
  ∃ x, line_message x ∧ transfer [(dma_mandatoryQueue, PSequencer x)] [] (ctl n) (ctl n').
Proof.
  intros [Hb Hm] H. pose proof Hp as (Ha0&Hsz&Hend&Hh&Hd&Hlen). unfold recvTimingReq in H.
  destruct (d_inhibited p); [done|]. apply bind_Ok in H as (? & _ & H).
  rewrite getOffset_eq in H by (done || unfold fits; lia). cbn [mbind outcome_bind] in H.
  apply bind_Ok in H as (? & Hin%assert_that_Ok%bool_decide_eq_true & H).
  apply bind_Ok in H as ([st n1] & Hmk & H). unfold makeRequest in Hmk. rewrite Hb in Hmk.
  unfold new_request in Hmk. rewrite Hh in Hmk. cbn [assert_that mbind outcome_bind] in Hmk.
  rewrite Hm in Hmk. destruct (first_message_line Hin) as (msg & Hx & Hline). rewrite Hx in Hmk.
  cbn [mbind outcome_bind] in Hmk. apply bind_Ok in Hmk as ([u n2] & He & Hmk).
  injection Hmk as <- <-. cbn [fst snd] in H. injection H as <- <-.
  unfold enqueue_msg in He. apply zoom_Ok in He as (c & He & ->). apply enqueue_transfer in He as [Ht _].
  split_and!; [done|exact Hin| |exists msg; split; [exact Hline|exact Ht]].
  split_and!; [done|done|]. cbn. destruct Hline as (_ & _ & _ & Hlen' & _). unfold issued, active.
  cbn. rewrite Hlen', s32_id by lia. done.
Qed.

(** The callback of the controller. *)
Definition callback now rt b (reissue : Z → list dma_packet) : prog dma_node unit :=
  if d_write p then ackCallback sys isMemAddr None clockPeriod now rt reissue
  else dataCallback sys isMemAddr None clockPeriod now rt b reissue.

(** What the device asked for can be answered at [now]. *)
Definition answerable now n : Prop :=
  isMemAddr (d_addr p) = true ∧ d_request p = true ∧ d_llsc p = false ∧ d_flush p = false ∧
  0 ≤ now ∧ 0 ≤ clockPeriod ∧ now + clockPeriod < MaxTick ∧
  queue_ok now (slave_port (seq n)) ∧ PacketQueue.size (slave_port (seq n)) ≤ 100 ∧ retry (seq n) = false.

(** The packet goes to the queue of the port. *)
Definition returned now l n n' : Prop :=
  PacketQueue.transmitList (slave_port (seq n')) =
    if d_needsResponse p
    then stable_insert (now + clockPeriod) (makeResponse (set_data p l)) (PacketQueue.transmitList (slave_port (seq n)))
    else PacketQueue.transmitList (slave_port (seq n)).

Lemma issue_line now rt reissue l n : answerable now n → m_is_busy (seq n) = true →
  active_request (seq n) = mkDMARequest (d_addr p) (d_size p) (d_write p) 0 (d_size p) (set_data p l) →
  ∃ n', issueNext sys isMemAddr None clockPeriod now rt reissue n = Ok (tt, n') ∧
    ctl n' = ctl n ∧ m_is_busy (seq n') = false ∧ returned now l n n'.
Proof.
  intros (H1&H2&H3&H4&Hn&Hc&Hmax&Hq&Hsz&Hr) Hb Ha. unfold issueNext. rewrite Hb, Ha.
  cbn [assert_that mbind outcome_bind]. rewrite decide_True by done. unfold ruby_hit_callback.
  cbn [completed pkt d_addr set_data d_request]. rewrite H1, H2. cbn [assert_that mbind outcome_bind].
  unfold hitCallback. cbn [d_llsc d_flush d_needsResponse set_data]. rewrite H3, H4.
  cbn [negb assert_that mbind outcome_bind]. unfold returned. destruct (d_needsResponse p).
  - assert (u64 (now + clockPeriod) = now + clockPeriod) as ->.
    { apply uwrap_id. unfold fits, MaxTick in *. lia. }
    destruct (sched_total (λ _, false) now (slave_port (seq n)) (makeResponse (set_data p l)) (now + clockPeriod) false)
      as (q & Hs & Ht); [lia|done|lia|done|done|]. cbn [seq with_seq with_request with_busy slave_port].
    rewrite Hs. cbn [mbind outcome_bind retry with_port with_busy with_request]. rewrite Hr.
    cbn [mbind outcome_bind]. eexists. split; [done|]. cbn. unfold slot_time in Ht.
    assert (match last (PacketQueue.transmitList (slave_port (seq n))) with
            | Some _ => now + clockPeriod | None => now + clockPeriod end = now + clockPeriod) as E
      by (by destruct (last _)).
    rewrite E in Ht. unfold testDrainComplete. destruct (_ && _); by rewrite <- Ht.
  - cbn [mbind outcome_bind retry with_busy with_request seq with_seq]. rewrite Hr. cbn [mbind outcome_bind].
    eexists. split; [done|]. cbn. unfold testDrainComplete. by destruct (_ && _).
Qed.

Lemma callback_line now rt reissue b n : in_line → dma_waiting n → answerable now n →
  Z.of_nat (length (DataBlock.m_data b)) = B →
  ∃ n' l, callback now rt b reissue n = Ok (tt, n') ∧ ctl n' = ctl n ∧ m_is_busy (seq n') = false ∧
    device_bytes b l ∧ returned now l n n'.
Proof.
  intros Hin (Hb & Hm & Ha) Hans Hlen. unfold callback. destruct (d_write p) eqn:Hw.
  - destruct (issue_line now rt reissue l0 n Hans Hb) as (n' & H & H1 & H2 & H3).
    { rewrite Ha, set_data_same. done. }
    exists n', l0. split_and!; try done. unfold device_bytes. by rewrite Hw.
  - unfold dataCallback. rewrite Hb, Hm, Ha. cbn [assert_that mbind outcome_bind].
    destruct (received_line b Hin Hw Hlen) as (l & -> & Hl). cbn [mbind outcome_bind].
    destruct (issue_line now rt reissue l (with_seq n (with_request (seq n)
      (mkDMARequest (d_addr p) (d_size p) (d_write p) 0 (d_size p) (set_data p l)))))
      as (n' & H & H1 & H2 & H3); [done..|]. exists n', l. by split_and!.
Qed.

End line.

(** C8: the port of the DMA sequencer takes only requests that lie in one line (the assert
    on others fails), and an idle sequencer gives the controller exactly one message for
    one: the line, the address and the length of the request, and for a write its bytes at
    their place in the line.  When the controller calls back, with any line for a read, the
    request is complete: there is no second message, the sequencer is free again, the
    device has the bytes of the line from its address on (a write leaves its bytes alone),
    and its packet, if it needs an answer, is queued at the port for the next cycle. *)
Theorem dma_line_roundtrip sys isMemAddr clockPeriod now rt p l0 n accepted n1 :
  Address.geometry sys → RubySystem.m_block_size_bits sys ≤ 30 → request_ok p l0 → dma_idle sys n →
  recvTimingReq sys isMemAddr now rt p n = Ok (accepted, n1) →
  accepted = true ∧ in_line sys p ∧
  (∃ x, line_message sys p l0 x ∧ transfer [(dma_mandatoryQueue, PSequencer x)] [] (ctl n) (ctl n1)) ∧
  dma_waiting sys p n1 ∧
  ∀ now2 rt2 reissue b n2, dma_waiting sys p n2 → answerable p isMemAddr clockPeriod now2 n2 →
    Z.of_nat (length (DataBlock.m_data b)) = RubySystem.m_block_size_bytes sys →
    ∃ n3 l, callback sys p isMemAddr clockPeriod now2 rt2 b reissue n2 = Ok (tt, n3) ∧
      ctl n3 = ctl n2 ∧ m_is_busy (seq n3) = false ∧ device_bytes sys p l0 b l ∧
      returned p clockPeriod now2 l n2 n3.
Proof.
  intros Hg Hbits Hp Hi H.
  destruct (accepted_line sys Hg Hbits p l0 Hp isMemAddr now rt n accepted n1 Hi H) as (-> & Hin & Hw & Hx).
  split_and!; try done. intros now2 rt2 reissue b n2 Hw2 Ha Hlen. by apply callback_line.
Qed.

(** ** A read of four bytes *)

Definition dma_buffer : MessageBuffer.t payload :=
  MessageBuffer.with_conf (MessageBuffer.create 1)
    (MessageBuffer.mkConfig 1 (Some demo_clock) (Some demo_clock) (Some ToController) 0 0 false true false 0 0).
Definition dma_read : dma_packet :=
  mkDmaPacket 70 4 false true (Some [0; 0; 0; 0]) true true false false false.
Definition dma_node0 : dma_node :=
  mkDmaNode (AbstractController.create 1 3 (list_to_map ((λ i, (i, dma_buffer)) <$> seqZ 0 3)))
    (get_Ok (DMASequencer.create sys64 0 false (ClockedObject.create 1) (mkDMARequest 0 0 false 0 0 dma_read)) eq_refl).
Definition dma_node1 : dma_node :=
  get_Ok (r ← recvTimingReq sys64 (λ _, true) 1 0 dma_read dma_node0; Ok r.2) eq_refl.
Definition counting_line : DataBlock.t := DataBlock.mk (seqZ 0 64) true.

Lemma dma_line_roundtrip_witness : ∃ n3 l,
  callback sys64 dma_read (λ _, true) 1 9 0 counting_line (λ _, []) dma_node1 = Ok (tt, n3) ∧
  m_is_busy (seq n3) = false ∧ l !! 2%nat = Some 8 ∧
  PacketQueue.transmitList (slave_port (seq n3)) = [(10, makeResponse (set_data dma_read l))].
Proof.
  destruct (dma_line_roundtrip sys64 (λ _, true) 1 1 0 dma_read [0; 0; 0; 0] dma_node0 true dma_node1)
    as (_ & _ & _ & Hw & Hcall).
  - split; cbn; lia.
  - cbn. lia.
  - unfold request_ok. cbn. split_and!; done || lia.
  - split; vm_compute; reflexivity.
  - vm_compute. reflexivity.
  - destruct (Hcall 9 0 (λ _, []) counting_line dma_node1 Hw) as (n3 & l & H1 & _ & H2 & [_ Hl] & H3).
    + assert (slave_port (seq dma_node1) = PacketQueue.create) as E by (vm_compute; reflexivity).
      assert (retry (seq dma_node1) = false) as Er by (vm_compute; reflexivity).
      unfold answerable. rewrite E, Er. split; [reflexivity|]. split; [reflexivity|].
      split; [reflexivity|]. split; [reflexivity|]. split; [lia|]. split; [lia|].
      split; [unfold MaxTick; lia|]. split; [|split; [by vm_compute|reflexivity]].
      split; [constructor|by split; [constructor|]].
    + reflexivity.
    + exists n3, l. split; [exact H1|]. split; [exact H2|]. split.
      * specialize (Hl 2 ltac:(cbn; lia)). vm_compute in Hl. exact Hl.
      * unfold returned in H3. change (d_needsResponse dma_read) with true in H3. cbn [Z.add] in H3.
        rewrite H3. assert (slave_port (seq dma_node1) = PacketQueue.create) as -> by (vm_compute; reflexivity).
        reflexivity.
Defined.
