(* ===== verification/L1Safety.v ===== *)
(** * Pointer safety of the cache controller

    A line of an L1 cache has an entry in one of the caches, a transaction entry, both or
    neither, and its state decides which.  Actions follow the pointers to them without a
    test.  Here every action has a shape transformer, which says what the action needs and
    what it leaves; a run through the tables shows that the transformers compose from the
    shape of a state to the shape of the next; and the actions are shown to do what their
    transformers say.  So no wakeup of the controller follows a null pointer, and each
    leaves every line in a state with the objects the state asks for. *)

From S2P Require Import Prelude Triples IntMath Addresses NodeSets Destinations Clocks StdHeap Buffers Arbiter.
From S2P Require Import SlotTimes Blocks Policies Caches Tables MsiTables Controllers DirectoryMemory.
From S2P Require Import Messages Sequencer Machines L1Controller Pointers Progress.
Import RubySlicc_Util L1Controller.
Local Open Scope Z_scope.
Local Open Scope triple_scope.

(** ** Shapes *)

(** The cache that has the entry of a line (true: the data cache), and whether there is
    a transaction entry. *)
Record shape := mkShape { in_cache : option bool; has_tbe : bool }.

Definition has_entry (sh : shape) : bool := bool_decide (is_Some (in_cache sh)).

(** Whether a line in a state has an entry and a transaction entry; no line is in one of
    the other states. *)
Definition objects (st : L1Cache.State) : option (bool * bool) :=
  match st with
  | L1Cache.State_I => Some (false, false)
  | L1Cache.State_IM_A | L1Cache.State_IM_W | L1Cache.State_IM_WL | L1Cache.State_IS_A
  | L1Cache.State_M | L1Cache.State_MI_A | L1Cache.State_MS_A | L1Cache.State_M_L
  | L1Cache.State_S | L1Cache.State_SM_W | L1Cache.State_SM_WL => Some (true, false)
  | L1Cache.State_IS_AD | L1Cache.State_IS_D | L1Cache.State_IS_DI | L1Cache.State_IM_AD
  | L1Cache.State_IM_D | L1Cache.State_IM_DS | L1Cache.State_IM_DI | L1Cache.State_IM_DL =>
      Some (true, true)
  | _ => None
  end.

Definition fits_state (st : L1Cache.State) (sh : shape) : bool :=
  bool_decide (objects st = Some (has_entry sh, has_tbe sh)).

(** What an action needs and leaves; [None]: it would follow a null pointer, or leave an
    object behind that no pointer names. *)
Definition shape_act (a : L1Cache.action) (sh : shape) : option shape :=
  match a with
  | L1Cache.bpm_issuePUTM | L1Cache.bpm_issuePUTMR | L1Cache.bpm_issuePUTMD
  | L1Cache.cc_sendDataCacheToDir | L1Cache.cc_sendDataCacheToCache
  | L1Cache.r_load_hit | L1Cache.rx_load_hit | L1Cache.s_store_hit | L1Cache.sx_store_hit
  | L1Cache.sx_atomic_store_hit_set | L1Cache.sx_atomic_store_hit_unset
  | L1Cache.setStartTimeCE | L1Cache.setFirstScheduledTimeCE =>
      if has_entry sh then Some sh else None
  | L1Cache.ct_sendDataTBEToDir | L1Cache.calcLatencyProfile | L1Cache.setStartTime
  | L1Cache.setFirstScheduledTime | L1Cache.q_updateAckCount =>
      if has_tbe sh then Some sh else None
  | L1Cache.copyStartTimeCETBE | L1Cache.u_writeDataToL1Cache =>
      if has_entry sh && has_tbe sh then Some sh else None
  | L1Cache.i_allocateTBE | L1Cache.i_allocateAtomicTBE =>
      if has_entry sh && negb (has_tbe sh) then Some (mkShape (in_cache sh) true) else None
  | L1Cache.s_deallocateTBE => if has_tbe sh then Some (mkShape (in_cache sh) false) else None
  | L1Cache.oo_allocateL1DCacheBlock | L1Cache.oo_allocateAtomicL1DCacheBlock =>
      Some (mkShape (Some (default true (in_cache sh))) (has_tbe sh))
  | L1Cache.pp_allocateL1ICacheBlock =>
      Some (mkShape (Some (default false (in_cache sh))) (has_tbe sh))
  | L1Cache.ff_deallocateL1CacheBlock =>
      if has_entry sh then Some (mkShape None (has_tbe sh)) else None
  | L1Cache.unset_cache_entry => None
  | _ => Some sh
  end.

Definition shape_run (acts : list L1Cache.action) (sh : shape) : option shape :=
  foldl (λ o a, o ≫= shape_act a) (Some sh) acts.

(** ** The tables keep shapes *)

Definition shapes : list shape :=
  o ← [None; Some true; Some false]; t ← [true; false]; [mkShape o t].

Lemma elem_of_shapes sh : sh ∈ shapes.
Proof. destruct sh as [[[]|] []]; vm_compute; repeat constructor. Qed.

(** One state and event in one shape. *)
Definition step_fits (st : L1Cache.State) (ev : L1Cache.Event) (sh : shape) : bool :=
  match L1Cache.find_transition st ev with
  | Some (next, acts) =>
      negb (fits_state st sh) ||
      match shape_run acts sh with Some sh' => fits_state next sh' | None => false end
  | None => true
  end.

Lemma all_steps_fit st ev : forallb (step_fits st ev) shapes = true.
Proof. destruct st; try reflexivity; destruct ev; vm_compute; reflexivity. Qed.

Lemma step_fits_run st ev sh next acts :
  L1Cache.find_transition st ev = Some (next, acts) → fits_state st sh = true →
  ∃ sh', shape_run acts sh = Some sh' ∧ fits_state next sh' = true.
Proof.
  intros Ht Hsh. pose proof (all_steps_fit st ev) as H. rewrite forallb_forall in H.
  specialize (H sh (proj1 (list_elem_of_In _ _) (elem_of_shapes sh))). unfold step_fits in H.
  rewrite Ht, Hsh in H. cbn in H. destruct (shape_run acts sh) as [sh'|]; [by exists sh'|done].
Qed.

Lemma no_objects st : objects st = Some (false, false) → st = L1Cache.State_I.
Proof. by destruct st. Qed.

(** ** Lines of the controller *)

(** The buffers the protocol declares. *)
Definition buffer_ids : gset Z := list_to_set (seqZ 0 9).

Section lines.
Context {W : Wired} (sys : RubySystem.t).
Implicit Types (s : t) (a b : Z) (d : bool) (sh : shape) (st : L1Cache.State).

Definition base_ok s : Prop := node_ok sys buffer_ids (base s).

Lemma cache_of_ok s d : base_ok s → cache_ok sys (cache_of s d).
Proof. intros (? & ? & _). by destruct d. Qed.

(** The states that the objects of a line hold. *)
Definition entry_state s d a : option L1Cache.State :=
  (λ e, CacheState (AbstractCacheEntry.data e)) <$> contents_at (cache_of s d) a.
Definition tbe_state s a : option L1Cache.State := TBEState <$> TBETable.lookup (TBEs s) a.

(** Line [a] has the objects of [sh]. *)
Definition holds a sh s : Prop :=
  (∀ d, is_Some (entry_state s d a) ↔ in_cache sh = Some d) ∧
  (is_Some (tbe_state s a) ↔ has_tbe sh = true).

(** The other lines are as they were. *)
Definition others a s0 s : Prop :=
  ∀ b, b ≠ a → (∀ d, entry_state s d b = entry_state s0 d b) ∧ tbe_state s b = tbe_state s0 b.

(** During a transition of line [a] that started in [s0]. *)
Definition within a s0 sh s : Prop := base_ok s ∧ holds a sh s ∧ others a s0 s.

(** Line [a] is in state [st], which is the state that all of its objects hold. *)
Definition line_is s a st sh : Prop :=
  fits_state st sh = true ∧
  (∀ d, entry_state s d a = if decide (in_cache sh = Some d) then Some st else None) ∧
  tbe_state s a = if has_tbe sh then Some st else None.

(** Every line has the objects of its state, which agree on it. *)
Definition l1_ok s : Prop := base_ok s ∧ ∀ a, ∃ st sh, line_is s a st sh.

(** The pointers to the objects of [sh]. *)
Definition entry_ptr a sh : option entry_ref := (λ d, (d, a)) <$> in_cache sh.
Definition tbe_ptr_of a sh : option Z := if has_tbe sh then Some a else None.

Definition frame_ok a s0 sh (f : frame) : Prop :=
  within a s0 sh (self f) ∧ m_cache_entry_ptr f = entry_ptr a sh ∧ m_tbe_ptr f = tbe_ptr_of a sh.

(** *** The parts of the state *)

Lemma within_contents a s0 sh s d : within a s0 sh s → in_cache sh = Some d →
  is_Some (contents_at (cache_of s d) a).
Proof. intros (_ & [He _] & _) Hd. apply He in Hd. unfold entry_state in Hd. by apply fmap_is_Some in Hd. Qed.

Lemma within_no_contents a s0 sh s d : within a s0 sh s → in_cache sh ≠ Some d →
  contents_at (cache_of s d) a = None.
Proof.
  intros (_ & [He _] & _) Hd. apply eq_None_not_Some. intros Hs. apply Hd, He. by apply fmap_is_Some.
Qed.

Lemma within_tbe a s0 sh s : within a s0 sh s → has_tbe sh = true →
  is_Some (TBETable.lookup (TBEs s) a).
Proof. intros (_ & [_ Ht] & _) H. apply Ht in H. unfold tbe_state in H. by apply fmap_is_Some in H. Qed.

Lemma within_no_tbe a s0 sh s : within a s0 sh s → has_tbe sh = false →
  TBETable.lookup (TBEs s) a = None.
Proof.
  intros (_ & [_ Ht] & _) H. apply eq_None_not_Some. intros Hs. assert (has_tbe sh = true); [|congruence].
  apply Ht. by apply fmap_is_Some.
Qed.

(** A change that does not touch caches or transactions. *)
Lemma within_ctl a s0 sh s s' : within a s0 sh s → base_ok s' →
  (∀ d b, entry_state s' d b = entry_state s d b) → (∀ b, tbe_state s' b = tbe_state s b) →
  within a s0 sh s'.
Proof.
  intros (Hb & [He Ht] & Ho) Hb' Hs Hts. split; [done|]. split.
  - split; [intros d; rewrite Hs; apply He|rewrite Hts; apply Ht].
  - intros b Hne. destruct (Ho b Hne) as [Ho1 Ho2]. split; [intros d; by rewrite Hs|by rewrite Hts].
Qed.

(** One cache changes at line [a] only. *)
Lemma within_cache a s0 sh sh' s d c : within a s0 sh s → cache_ok sys c →
  has_tbe sh' = has_tbe sh → (∀ d', d' ≠ d → in_cache sh' = Some d' ↔ in_cache sh = Some d') →
  (∀ b, b ≠ a → (λ e, CacheState (AbstractCacheEntry.data e)) <$> contents_at c b = entry_state s d b) →
  (is_Some (contents_at c a) ↔ in_cache sh' = Some d) → within a s0 sh' (with_cache_of s d c).
Proof.
  intros (Hb & [He Ht] & Ho) Hc Hst Hother Hrest Hat. split.
  { destruct Hb as (? & ? & ?). unfold base_ok. by destruct d; split_and!. }
  assert (∀ d' b, entry_state (with_cache_of s d c) d' b =
    if decide (d' = d) then (λ e, CacheState (AbstractCacheEntry.data e)) <$> contents_at c b
    else entry_state s d' b) as Hes by (by intros [] b; destruct d; unfold entry_state; case_decide).
  split.
  - split; [|by rewrite Hst]. intros d'. rewrite Hes. case_decide as E.
    + rewrite E, fmap_is_Some. exact Hat.
    + rewrite Hother by done. apply He.
  - intros b Hne. destruct (Ho b Hne) as [Ho1 Ho2]. split; [|done]. intros d'. rewrite Hes.
    case_decide as E; [rewrite E, Hrest by done; apply Ho1|apply Ho1].
Qed.

(** The transaction entry of line [a] changes only. *)
Lemma within_TBEs a s0 sh sh' s tb : within a s0 sh s → in_cache sh' = in_cache sh →
  (∀ b, b ≠ a → TBETable.lookup tb b = TBETable.lookup (TBEs s) b) →
  (is_Some (TBETable.lookup tb a) ↔ has_tbe sh' = true) → within a s0 sh' (with_TBEs s tb).
Proof.
  intros (Hb & [He Ht] & Ho) Hin Hrest Hat. split; [done|]. split.
  - split; [intros d; rewrite Hin; apply He|]. unfold tbe_state. cbn. rewrite fmap_is_Some; exact Hat.
  - intros b Hne. destruct (Ho b Hne) as [Ho1 Ho2]. split; [exact Ho1|]. rewrite <- Ho2. unfold tbe_state.
    cbn. by rewrite Hrest.
Qed.

(** *** Operations on the state *)

(** A callback of the sequencer keeps the data of the caches. *)
Lemma within_like a s0 sh s n : within a s0 sh s → like sys buffer_ids (base s) n →
  within a s0 sh (with_base s n).
Proof.
  intros Hs [Hn [Hd Hi]]. apply (within_ctl a s0 sh s); [done|done| |done]. intros d b.
  unfold entry_state. rewrite !(option_fmap_compose AbstractCacheEntry.data CacheState).
  f_equal. destruct d; [apply Hd|apply Hi].
Qed.

Lemma safe_on_node {A} a s0 sh (p : prog (node policy_ptr Entry) A) :
  (∀ n0, {{ like sys buffer_ids n0 }} p {{ λ _, like sys buffer_ids n0 }}) →
  {{ within a s0 sh }} on_node p {{ λ _, within a s0 sh }}.
Proof.
  intros Hp. apply triple_zoom. intros s Hs. specialize (Hp (base s) (base s)).
  destruct (p (base s)) as [[x n]|]; [|by apply Hp, like_refl, Hs].
  apply within_like; [done|]. apply Hp, like_refl, Hs.
Qed.

Lemma safe_on_abs {A} a s0 sh (p : prog (AbstractController.t payload) A) :
  {{ ctl_ok buffer_ids }} p {{ λ _, ctl_ok buffer_ids }} →
  {{ within a s0 sh }} on_abs p {{ λ _, within a s0 sh }}.
Proof.
  intros Hp. apply safe_on_node. intros n0. eapply triple_zoom_frame; [exact Hp|by intros n [(_ & _ & ?) _]|].
  intros n x c Hn Hc. by apply like_ctl.
Qed.

(** A change of the counters of the controller. *)
Lemma safe_modS a s0 sh (g : t → t) : (∀ s, base (g s) = base s ∧ TBEs (g s) = TBEs s) →
  {{ within a s0 sh }} modS g {{ λ _, within a s0 sh }}.
Proof.
  intros Hg. apply triple_modS. intros s Hs. destruct (Hg s) as [Hb Ht].
  apply (within_ctl a s0 sh s); [done| | |].
  - unfold base_ok. rewrite Hb. apply Hs.
  - intros d b. unfold entry_state, cache_of. by rewrite Hb.
  - intros b. unfold tbe_state. by rewrite Ht.
Qed.

(** *** Pointers *)

Lemma deref_entry_within a s0 sh s : line sys a → within a s0 sh s → has_entry sh = true →
  ∃ e, deref_entry sys s (entry_ptr a sh) = Ok e.
Proof.
  intros Ha Hs Hsh. unfold has_entry in Hsh. apply bool_decide_eq_true in Hsh as [d Hd].
  unfold deref_entry, entry_ptr. rewrite Hd. cbn [fmap option_fmap option_map from_option_or mbind outcome_bind fst snd].
  rewrite lookup_eq by (done || apply cache_of_ok, Hs). cbn [mbind outcome_bind].
  destruct (within_contents a s0 sh s d Hs Hd) as [e ->]. cbn. by eexists.
Qed.

Lemma deref_tbe_within a s0 sh s : within a s0 sh s → has_tbe sh = true →
  ∃ x, deref_tbe s (tbe_ptr_of a sh) = Ok x.
Proof.
  intros Hs Hsh. unfold deref_tbe, tbe_ptr_of. rewrite Hsh. cbn [from_option_or mbind outcome_bind].
  destruct (within_tbe a s0 sh s Hs Hsh) as [x ->]. by eexists.
Qed.

Lemma update_entry_run a s0 sh d g s : line sys a → within a s0 sh s → in_cache sh = Some d →
  (∀ e, AbstractCacheEntry.m_Address (g e) = AbstractCacheEntry.m_Address e) →
  (∀ e, AbstractCacheEntry.m_Permission e ≠ NotPresent → AbstractCacheEntry.m_Permission (g e) ≠ NotPresent) →
  ∃ c, update_entry sys (entry_ptr a sh) g s = Ok (tt, with_cache_of s d c) ∧
    within a s0 sh (with_cache_of s d c) ∧
    entry_state (with_cache_of s d c) d a =
      (λ e, CacheState (AbstractCacheEntry.data (g e))) <$> contents_at (cache_of s d) a.
Proof.
  intros Ha Hs Hd Hga Hgp. unfold update_entry, entry_ptr.
  rewrite Hd. cbn [fmap option_fmap option_map from_option_or mbind outcome_bind fst snd].
  pose proof (cache_of_ok s d (proj1 Hs)) as Hc. destruct (within_contents a s0 sh s d Hs Hd) as [e He].
  pose proof He as He'. apply (contents_iff sys) in He' as (i & _ & _ & Hea & Hep); [|done].
  destruct (update_entry_spec sys (cache_of s d) a g e) as (c' & -> & Hc' & Hcon);
    [done|done|done|by rewrite Hga|by apply Hgp|].
  cbn [mbind outcome_bind]. exists c'. split; [done|]. split.
  - apply (within_cache a s0 sh sh s d c'); [done|done|done|done| |].
    + intros b Hne. rewrite Hcon, decide_False by done. done.
    + rewrite Hcon, decide_True by done. by rewrite Hd.
  - rewrite He. unfold entry_state. destruct d; cbn; rewrite Hcon, decide_True by done; done.
Qed.

Lemma safe_update_entry a s0 sh g : line sys a → has_entry sh = true →
  (∀ e, AbstractCacheEntry.m_Address (g e) = AbstractCacheEntry.m_Address e) →
  (∀ e, AbstractCacheEntry.m_Permission e ≠ NotPresent → AbstractCacheEntry.m_Permission (g e) ≠ NotPresent) →
  {{ within a s0 sh }} update_entry sys (entry_ptr a sh) g {{ λ _, within a s0 sh }}.
Proof.
  intros Ha Hsh Hga Hgp s Hs. apply bool_decide_eq_true in Hsh as [d Hd].
  by destruct (update_entry_run a s0 sh d g s) as (c & -> & Hc & _).
Qed.

Lemma safe_update_data a s0 sh g : line sys a → has_entry sh = true →
  {{ within a s0 sh }} update_data sys (entry_ptr a sh) g {{ λ _, within a s0 sh }}.
Proof. intros Ha Hsh. by apply safe_update_entry. Qed.

Lemma safe_update_tbe a s0 sh g : has_tbe sh = true →
  {{ within a s0 sh }} update_tbe (tbe_ptr_of a sh) g {{ λ _, within a s0 sh }}.
Proof.
  intros Hsh s Hs. unfold update_tbe, tbe_ptr_of. rewrite Hsh. cbn [from_option_or mbind outcome_bind].
  destruct (within_tbe a s0 sh s Hs Hsh) as [x Hx]. rewrite Hx. cbn [from_option_or mbind outcome_bind].
  apply (within_TBEs a s0 sh sh); [done|done| |].
  - intros b Hne. by rewrite lookup_update_tbe, decide_False.
  - by rewrite lookup_update_tbe, decide_True, Hx, Hsh.
Qed.

(** *** Allocation *)

Lemma safe_allocate_tbe a s0 sh dflt : has_tbe sh = false →
  {{ within a s0 sh }} (λ s, b ← TBETable.allocate sys dflt (TBEs s) a; Ok (tt, with_TBEs s b))
  {{ λ _, within a s0 (mkShape (in_cache sh) true) }}.
Proof.
  intros Hsh s Hs. unfold TBETable.allocate, TBETable.isPresent.
  destruct (is_line sys a); [|done]. cbn [assert_that mbind outcome_bind].
  do 3 (case_bool_decide; cbn [negb assert_that mbind outcome_bind]; try done).
  apply (within_TBEs a s0 sh); [done|done| |].
  - intros b Hne. unfold TBETable.lookup. cbn. by rewrite lookup_insert_ne.
  - unfold TBETable.lookup. cbn. by rewrite lookup_insert_eq.
Qed.

Lemma safe_deallocate_tbe a s0 sh :
  {{ within a s0 sh }} (λ s, b ← TBETable.deallocate sys (TBEs s) a; Ok (tt, with_TBEs s b))
  {{ λ _, within a s0 (mkShape (in_cache sh) false) }}.
Proof.
  intros s Hs. unfold TBETable.deallocate, TBETable.isPresent.
  destruct (is_line sys a); [|done]. cbn [assert_that mbind outcome_bind].
  do 3 (case_bool_decide; cbn [negb assert_that mbind outcome_bind]; try done).
  apply (within_TBEs a s0 sh); [done|done| |].
  - intros b Hne. unfold TBETable.lookup. cbn. by rewrite lookup_delete_ne.
  - unfold TBETable.lookup. cbn. rewrite lookup_delete_eq. split; [by intros [? ?]|done].
Qed.

Lemma safe_allocate_entry a s0 sh d now e : line sys a → in_cache sh = None →
  {{ within a s0 sh }} change_cache d (λ c, CacheMemory.allocate sys now c a e)
  {{ λ _, within a s0 (mkShape (Some d) (has_tbe sh)) }}.
Proof.
  intros Ha Hsh s Hs. pose proof (cache_of_ok s d (proj1 Hs)) as Hc.
  pose proof (within_no_contents a s0 sh s d Hs ltac:(congruence)) as Hno. unfold change_cache.
  destruct (cacheAvail_eq sys (cache_of s d) a Hc Ha) as ([] & Hav & _).
  - destruct (allocate_avail sys now (cache_of s d) a e Hc Ha Hno Hav) as (c' & -> & Hc' & Hcon).
    cbn [mbind outcome_bind]. apply (within_cache a s0 sh); [done|done|done| | |].
    + intros d' Hd'. cbn. split; intros E; congruence.
    + intros b Hne. by rewrite Hcon, decide_False.
    + rewrite Hcon, decide_True by done. done.
  - unfold CacheMemory.allocate. rewrite assert_line_Ok, isTagPresent_eq, Hno, Hav by done. done.
Qed.

Lemma safe_deallocate_entry a s0 sh d : line sys a → in_cache sh = Some d →
  {{ within a s0 sh }} change_cache d (λ c, CacheMemory.deallocate sys c a)
  {{ λ _, within a s0 (mkShape None (has_tbe sh)) }}.
Proof.
  intros Ha Hsh s Hs. pose proof (cache_of_ok s d (proj1 Hs)) as Hc. unfold change_cache.
  destruct (deallocate_spec sys (cache_of s d) a Hc Ha (within_contents a s0 sh s d Hs Hsh))
    as (c' & -> & Hc' & _ & _ & _ & Hcon).
  cbn [mbind outcome_bind]. apply (within_cache a s0 sh); [done|done|done| | |].
  - intros d' Hd'. cbn. split; intros E; congruence.
  - intros b Hne. by rewrite Hcon, decide_False.
  - rewrite Hcon, decide_True by done. split; [by intros [? ?]|done].
Qed.

(** *** Functions of the protocol *)

Lemma getL1CacheEntry_within a s0 sh s : line sys a → within a s0 sh s →
  getL1CacheEntry sys s a = Ok (entry_ptr a sh).
Proof.
  intros Ha Hs. unfold getL1CacheEntry, getDCacheEntry, getICacheEntry, cache_ptr.
  rewrite !lookup_eq by (done || apply cache_of_ok, Hs). cbn [mbind outcome_bind]. unfold entry_ptr.
  destruct (in_cache sh) as [[]|] eqn:E.
  - by destruct (within_contents a s0 sh s true Hs E) as [e ->].
  - rewrite (within_no_contents a s0 sh s true Hs) by congruence. cbn [mbind outcome_bind].
    by destruct (within_contents a s0 sh s false Hs E) as [e ->].
  - by rewrite !(within_no_contents a s0 sh s) by (done || congruence).
Qed.

Lemma tbe_ptr_within a s0 sh s : within a s0 sh s → tbe_ptr s a = tbe_ptr_of a sh.
Proof.
  intros Hs. unfold tbe_ptr, tbe_ptr_of. destruct (has_tbe sh) eqn:E.
  - by destruct (within_tbe a s0 sh s Hs E) as [x ->].
  - by rewrite (within_no_tbe a s0 sh s Hs E).
Qed.

Lemma isAtomic_within a s0 sh s : line sys a → within a s0 sh s → ∃ x, isAtomic sys s a = Ok x.
Proof.
  intros Ha Hs. unfold isAtomic. rewrite (getL1CacheEntry_within a s0 sh s Ha Hs). cbn [mbind outcome_bind].
  destruct (entry_ptr a sh) as [r|] eqn:E; [|by eexists].
  destruct (deref_entry_within a s0 sh s Ha Hs) as [e He].
  { apply bool_decide_eq_true. unfold entry_ptr in E. by destruct (in_cache sh). }
  rewrite <- E, He. by eexists.
Qed.

(** A line in at most one cache passes the assert. *)
Lemma assert_exclusive_within a s0 sh s : line sys a → within a s0 sh s →
  assert_exclusive sys s a = Ok tt.
Proof.
  intros Ha Hs. unfold assert_exclusive.
  rewrite (isTagPresent_eq sys (dataCache (base s))), (isTagPresent_eq sys (instCache (base s)))
    by (done || apply Hs). cbn [mbind outcome_bind].
  case_bool_decide as Hd; [|done]. cbn [mbind outcome_bind]. rewrite bool_decide_eq_false_2; [done|].
  intros Hi. destruct Hs as (_ & [He _] & _).
  assert (in_cache sh = Some true) by (apply He, fmap_is_Some, Hd).
  assert (in_cache sh = Some false) by (apply He, fmap_is_Some, Hi). congruence.
Qed.

End lines.

(** ** Actions *)

Create HintDb safety discriminated.

Lemma buffer_known id : 0 ≤ id < 9 → id ∈ buffer_ids.
Proof. intros H. apply elem_of_list_to_set, elem_of_seqZ. lia. Qed.
#[export] Hint Extern 1 (_ ∈ buffer_ids) => apply buffer_known; vm_compute; by split : safety.
#[export] Hint Resolve safe_enqueue safe_delayHead safe_dequeue safe_slots safe_isReady safe_peek
  safe_scheduleEvent safe_stall_and_wait safe_wakeUpBuffers safe_wakeUpAllBuffers
  safe_readCallback safe_writeCallback : safety.

Section actions.
Context {W : Wired} (sys : RubySystem.t) (counts : list Z) (junk : Z) (dirs : DirectoryMemory.statics).
Context (cfg : config) (now rt : Z) (cooldown : bool).
Context (a : Z) (Ha : line sys a) (s0 : t).
Implicit Types (s : t) (sh : shape).

#[local] Abbreviation within := (within sys a s0).
#[local] Abbreviation frame_ok := (frame_ok sys a s0).

Lemma safe_on_self {A} sh (p : prog t A) :
  {{ within sh }} p {{ λ _, within sh }} → {{ frame_ok sh }} on_self p {{ λ _, frame_ok sh }}.
Proof. intros Hp. eapply triple_zoom_frame; [exact Hp|by intros f [? _]|]. by intros f x s [_ ?] Hs. Qed.

Lemma read_entry_ptr {A} sh (k : option entry_ref → prog frame A) Q :
  {{ frame_ok sh }} k (entry_ptr a sh) {{ Q }} → {{ frame_ok sh }} gets m_cache_entry_ptr ≫= k {{ Q }}.
Proof. apply triple_gets_eq. by intros f (_ & ? & _). Qed.

Lemma read_tbe_ptr {A} sh (k : option Z → prog frame A) Q :
  {{ frame_ok sh }} k (tbe_ptr_of a sh) {{ Q }} → {{ frame_ok sh }} gets m_tbe_ptr ≫= k {{ Q }}.
Proof. apply triple_gets_eq. by intros f (_ & _ & ?). Qed.

Lemma avoids_deref_entry sh s : has_entry sh = true → within sh s →
  avoids stuck (deref_entry sys s (entry_ptr a sh)).
Proof. intros Hsh Hs. by destruct (deref_entry_within sys a s0 sh s Ha Hs Hsh) as [e ->]. Qed.

Lemma avoids_deref_tbe sh s : has_tbe sh = true → within sh s →
  avoids stuck (deref_tbe s (tbe_ptr_of a sh)).
Proof. intros Hsh Hs. by destruct (deref_tbe_within sys a s0 sh s Hs Hsh) as [e ->]. Qed.

Lemma safe_read_entry sh : has_entry sh = true →
  {{ frame_ok sh }} reads (λ f, deref_entry sys (self f) (m_cache_entry_ptr f)) {{ λ _, frame_ok sh }}.
Proof. intros Hsh. apply keeps_reads. intros f (Hf & -> & _). by apply avoids_deref_entry. Qed.

Lemma safe_read_entry_at sh : has_entry sh = true →
  {{ frame_ok sh }} reads (λ f, deref_entry sys (self f) (entry_ptr a sh)) {{ λ _, frame_ok sh }}.
Proof. intros Hsh. apply keeps_reads. intros f (Hf & _ & _). by apply avoids_deref_entry. Qed.

Lemma safe_read_tbe sh : has_tbe sh = true →
  {{ frame_ok sh }} reads (λ f, deref_tbe (self f) (m_tbe_ptr f)) {{ λ _, frame_ok sh }}.
Proof. intros Hsh. apply keeps_reads. intros f (Hf & _ & ->). by apply avoids_deref_tbe. Qed.

Lemma safe_read_tbe_at sh : has_tbe sh = true →
  {{ frame_ok sh }} reads (λ f, deref_tbe (self f) (tbe_ptr_of a sh)) {{ λ _, frame_ok sh }}.
Proof. intros Hsh. apply keeps_reads. intros f (Hf & _ & _). by apply avoids_deref_tbe. Qed.

Lemma safe_assert_entry sh : {{ frame_ok sh }} assert_entry {{ λ _, frame_ok sh }}.
Proof. intros f Hf. unfold assert_entry, slicc_assert. by case_bool_decide. Qed.
Lemma safe_assert_tbe sh : {{ frame_ok sh }} assert_tbe {{ λ _, frame_ok sh }}.
Proof. intros f Hf. unfold assert_tbe, slicc_assert. by case_bool_decide. Qed.

Lemma safe_enqueue_out sh buf m latency : buf ∈ buffer_ids →
  {{ within sh }} enqueue_out sys now rt buf m latency {{ λ _, within sh }}.
Proof. intros Hb s Hs. by apply (safe_on_abs sys a s0 sh _ (safe_enqueue _ _ _ _ _ _ _ _ _ Hb)). Qed.

Lemma safe_bump sh c : {{ within sh }} bump c {{ λ _, within sh }}.
Proof. by apply safe_modS. Qed.

Lemma safe_peek_mandatory sh : {{ within sh }} peek_mandatory {{ λ _, within sh }}.
Proof.
  apply keeps_bind; [apply safe_on_abs; auto with safety|]. intros x. apply triple_lift_any. auto with avoids.
Qed.
Lemma safe_peek_request sh buf : buf ∈ buffer_ids → {{ within sh }} peek_request buf {{ λ _, within sh }}.
Proof.
  intros Hb. apply keeps_bind; [apply safe_on_abs; auto with safety|].
  intros x. apply triple_lift_any. auto with avoids.
Qed.
Lemma safe_peek_response sh : {{ within sh }} peek_response {{ λ _, within sh }}.
Proof.
  apply keeps_bind; [apply safe_on_abs; auto with safety|]. intros x. apply triple_lift_any. auto with avoids.
Qed.

Lemma safe_send_request sh buf ty addr dest b o : buf ∈ buffer_ids →
  {{ within sh }} send_request sys junk cfg now rt buf ty addr dest b o {{ λ _, within sh }}.
Proof. intros Hb s Hs. unfold send_request. destruct o; by apply (safe_enqueue_out sh). Qed.
Lemma safe_send_response sh ty addr dest b :
  {{ within sh }} send_response sys cfg now rt ty addr dest b {{ λ _, within sh }}.
Proof. intros s Hs. unfold send_response. apply (safe_enqueue_out sh); [auto with safety|done]. Qed.

Lemma avoids_all_and_directory : avoids stuck (all_and_directory counts junk dirs a).
Proof. unfold all_and_directory. avoid_faults. Qed.
Lemma avoids_all_others me : avoids stuck (all_others counts junk me).
Proof. unfold all_others. avoid_faults. Qed.
Lemma avoids_directory_only : avoids stuck (directory_only counts junk dirs a).
Proof. unfold directory_only. avoid_faults. Qed.

Lemma safe_entry_block sh : has_entry sh = true →
  {{ frame_ok sh }} entry_block sys {{ λ _, frame_ok sh }}.
Proof.
  intros Hsh f Hf. unfold entry_block. destruct Hf as (Hf & He & Ht). rewrite He.
  destruct (deref_entry_within sys a s0 sh _ Ha Hf Hsh) as [e ->]. cbn [mbind outcome_bind].
  pose proof (avoids_assign_from sys (DataBlock.create sys) (DataBlk e)) as Hb.
  by destruct (DataBlock.assign_from _ _ _).
Qed.

Lemma safe_dequeue_from sh buf : buf ∈ buffer_ids →
  {{ frame_ok sh }} dequeue_from now buf {{ λ _, frame_ok sh }}.
Proof. intros Hb. apply safe_on_self, safe_on_abs. auto with safety. Qed.

End actions.

#[export] Hint Resolve avoids_all_and_directory avoids_all_others avoids_directory_only : avoids.
#[export] Hint Resolve safe_read_entry safe_read_entry_at safe_read_tbe safe_read_tbe_at safe_assert_entry
  safe_assert_tbe safe_bump safe_peek_mandatory safe_peek_request safe_peek_response safe_send_request
  safe_send_response safe_entry_block safe_dequeue_from safe_update_data safe_update_tbe : safety.

(** Follow the code of an action that keeps the shape. *)
Ltac keep_shape :=
  repeat match goal with
  | |- triple _ _ (gets m_cache_entry_ptr ≫= _) _ => apply read_entry_ptr
  | |- triple _ _ (gets m_tbe_ptr ≫= _) _ => apply read_tbe_ptr
  | |- triple _ _ (_ ≫= _) _ => apply keeps_bind; [|intros ?]
  | |- triple _ _ (mret _) _ => apply keeps_ret
  | |- triple _ _ (gets _) _ => apply keeps_gets
  | |- triple _ _ (lift _) _ => apply triple_lift_any; avoid_faults
  | |- triple _ _ (when _ _) _ => apply triple_when
  | |- triple _ _ (match ?x with _ => _ end) _ => destruct x
  | |- triple _ _ (modS _) _ => by apply safe_modS
  | |- triple _ _ _ _ => solve [auto with safety]
  | |- triple _ _ (on_self _) _ => apply safe_on_self
  | |- triple _ _ (on_abs _) _ => apply safe_on_abs
  | |- triple _ _ (on_node _) _ => apply safe_on_node; intros ?
  end.

Section performed.
Context {W : Wired} (sys : RubySystem.t) (counts : list Z) (junk : Z) (dirs : DirectoryMemory.statics).
Context (cfg : config) (now rt : Z) (cooldown : bool).
Context (a : Z) (Ha : line sys a) (s0 : t).
Implicit Types (s : t) (sh : shape).

#[local] Abbreviation within := (within sys a s0).
#[local] Abbreviation frame_ok := (frame_ok sys a s0).
#[local] Abbreviation keeps sh p := (triple stuck (frame_ok sh) p (λ _, frame_ok sh)).
#[local] Abbreviation perform := (perform sys counts junk dirs cfg now rt cooldown).

Lemma safe_issue sh ty b : keeps sh (issue sys counts junk dirs cfg now rt ty b a).
Proof. unfold issue. keep_shape. Qed.

Lemma safe_issue_atomic sh ty : keeps sh (issue_atomic sys counts junk cfg now rt ty a).
Proof. unfold issue_atomic. keep_shape. Qed.

Lemma safe_send_putm sh : has_entry sh = true → keeps sh (send_putm sys counts junk dirs cfg now rt a).
Proof. intros Hsh. unfold send_putm. keep_shape. Qed.

Lemma safe_with_callback sh call g : has_entry sh = true →
  (∀ b n0, {{ like sys buffer_ids n0 }} call b {{ λ _, like sys buffer_ids n0 }}) →
  keeps sh (with_callback sys call g).
Proof. intros Hsh Hcall. unfold with_callback. keep_shape. Qed.

Lemma safe_pop_and_profile sh v buf : buf ∈ buffer_ids → keeps sh (pop_and_profile cfg now v buf).
Proof. intros Hb. unfold pop_and_profile, profileMsgDelay. keep_shape. Qed.

Lemma safe_unless_atomic sh p : {{ ctl_ok buffer_ids }} p {{ λ _, ctl_ok buffer_ids }} →
  keeps sh (unless_atomic sys a p).
Proof.
  intros Hp. unfold unless_atomic. apply keeps_bind.
  - apply keeps_reads. intros f (Hf & _). by destruct (isAtomic_within sys a s0 sh _ Ha Hf) as [x ->].
  - intros x. apply triple_when, safe_on_self, safe_on_abs, Hp.
Qed.

(** *** The actions that change the shape *)

Lemma safe_allocate_tbe_action sh atomic : has_entry sh = true → has_tbe sh = false →
  {{ frame_ok sh }} allocate_tbe sys atomic a {{ λ _, frame_ok (mkShape (in_cache sh) true) }}.
Proof.
  intros He Ht. unfold allocate_tbe. eapply triple_bind; [by apply safe_assert_entry|]. intros ?.
  set (sh' := mkShape (in_cache sh) true).
  eapply triple_bind with (R := λ _ f, within sh' (self f) ∧ m_cache_entry_ptr f = entry_ptr a sh').
  { eapply triple_zoom_frame; [by apply safe_allocate_tbe|by intros f [? _]|]. by intros f x s (_ & ? & _) Hs. }
  intros ?. eapply triple_bind with (R := λ _, frame_ok sh').
  { apply triple_modS. intros f [Hf Hp]. split; [done|]. split; [done|]. exact (tbe_ptr_within sys a s0 sh' _ Hf). }
  intros ?. keep_shape; by apply safe_read_entry || by apply safe_read_tbe.
Qed.

Lemma safe_s_deallocateTBE sh : has_tbe sh = true →
  {{ frame_ok sh }} s_deallocateTBE sys a {{ λ _, frame_ok (mkShape (in_cache sh) false) }}.
Proof.
  intros Ht. unfold s_deallocateTBE. set (sh' := mkShape (in_cache sh) false).
  eapply triple_bind with (R := λ _ f, within sh' (self f) ∧ m_cache_entry_ptr f = entry_ptr a sh').
  { eapply triple_zoom_frame; [by apply safe_deallocate_tbe|by intros f [? _]|]. by intros f x s (_ & ? & _) Hs. }
  intros ?. apply triple_modS. by intros f [Hf Hp].
Qed.

Lemma safe_ff_deallocate sh : has_entry sh = true →
  {{ frame_ok sh }} ff_deallocateL1CacheBlock sys a {{ λ _, frame_ok (mkShape None (has_tbe sh)) }}.
Proof.
  intros He. apply bool_decide_eq_true in He as [d Hd]. unfold ff_deallocateL1CacheBlock.
  set (sh' := mkShape None (has_tbe sh)). apply triple_reads_eq with (x := d).
  { intros f ((Hb & [Hh _] & _) & _). rewrite isTagPresent_eq by (done || apply Hb). f_equal.
    specialize (Hh true). rewrite Hd in Hh. unfold entry_state in Hh. rewrite fmap_is_Some in Hh.
    destruct d; [by apply bool_decide_eq_true_2, Hh|]. apply bool_decide_eq_false_2. intros H. by apply Hh in H. }
  eapply triple_bind with (R := λ _ f, within sh' (self f) ∧ m_tbe_ptr f = tbe_ptr_of a sh').
  { eapply triple_zoom_frame; [by apply safe_deallocate_entry|by intros f [? _]|]. by intros f x s (_ & _ & ?) Hs. }
  intros ?. apply triple_modS. by intros f [Hf Hp].
Qed.

Lemma safe_allocate_block sh d : {{ frame_ok sh }} allocate_block sys counts junk now d a
  {{ λ _, frame_ok (mkShape (Some (default d (in_cache sh))) (has_tbe sh)) }}.
Proof.
  unfold allocate_block. apply read_entry_ptr. unfold entry_ptr at 1.
  destruct sh as [[d'|] tb]; cbn [in_cache has_tbe default fmap option_fmap option_map]; [by apply triple_ret|].
  eapply triple_bind; [apply triple_lift_any; unfold new_entry; avoid_faults|]. intros e.
  set (sh' := mkShape (Some d) tb).
  eapply triple_bind with (R := λ _ f, within sh' (self f) ∧ m_tbe_ptr f = tbe_ptr_of a sh').
  { eapply triple_zoom_frame; [by apply (safe_allocate_entry sys a s0 (mkShape None tb))|by intros f [? _]|]. by intros f x s (_ & _ & ?) Hs. }
  intros ?. apply triple_modS. by intros f [Hf Hp].
Qed.

Lemma safe_oo_atomic sh : {{ frame_ok sh }} oo_allocateAtomicL1DCacheBlock sys counts junk now a
  {{ λ _, frame_ok (mkShape (Some (default true (in_cache sh))) (has_tbe sh)) }}.
Proof. eapply triple_bind; [apply safe_allocate_block|]. intros ?. by keep_shape. Qed.

(** *** The actions do what their transformers say *)

Lemma safe_evictionCallback n0 : {{ like sys buffer_ids n0 }} evictionCallback a
  {{ λ _, like (D := Entry) (T := policy_ptr) sys buffer_ids n0 }}.
Proof. by intros n Hn. Qed.
Hint Resolve safe_evictionCallback : safety.

Lemma safe_profile_inv sh : keeps sh (uu_profilecoherence_inv sys counts a).
Proof.
  unfold uu_profilecoherence_inv, slicc_assert. do 4 (apply keeps_bind; [keep_shape|intros ?]).
  apply read_entry_ptr. apply keeps_bind; [|intros ?; unfold count_one; keep_shape].
  destruct (entry_ptr a sh) as [r|] eqn:E; [|keep_shape].
  rewrite <- E. apply keeps_bind; [|intros ?; keep_shape].
  apply safe_read_entry_at; [done|]. unfold entry_ptr in E. apply bool_decide_eq_true_2. by destruct (in_cache sh).
Qed.

#[local] Hint Unfold bm_issueGETMR bpm_issuePUTM bpm_issuePUTMR bpm_issuePUTMD cc_sendDataCacheToDir
  cc_sendDataCacheToCache ct_sendDataTBEToDir forward_eviction_to_cpu k_popMandatoryQueue
  calcLatencyProfile setStartTime setStartTimeCE copyStartTimeCETBE setFirstScheduledTime
  setFirstScheduledTimeCE refineFirstScheduledTime u_writeDataToL1Cache q_updateAckCount
  z_stallAndWaitMandatoryQueue z_stallAndWaitRequestQueue z_stallAndWaitRequestWBQueue stall_on
  uu_profileInstMiss uu_profileInstHit uu_profileDataMiss uu_profileApproxLoadDataMiss
  uu_profileApproxStoreDataMiss uu_profileDataHit uu_profileApproxLoadDataHit
  uu_profileApproxStoreDataHit uu_profileIstate_othergetM uu_profilecoherence_approx_inv count_one
  setBlocked setUnblocked : actions.
#[local] Hint Resolve safe_send_putm : safety.

Lemma perform_safe act sh sh' : shape_act act sh = Some sh' →
  {{ frame_ok sh }} perform act a {{ λ _, frame_ok sh' }}.
Proof.
  intros Hact. destruct act; cbn [shape_act L1Controller.perform] in *;
    repeat match type of Hact with (if ?b then _ else _) = _ => destruct b eqn:?; [|done] end;
    repeat match goal with H : _ && _ = true |- _ => apply andb_true_iff in H as [? ?] end;
    try discriminate Hact; injection Hact as <-;
    first [by apply safe_issue|by apply safe_issue_atomic|by apply safe_pop_and_profile; auto with safety
      |by apply safe_with_callback; [done|]; intros; auto with safety
      |by apply safe_unless_atomic; auto with safety
      |by apply safe_allocate_tbe_action; [done|apply negb_true_iff]|by apply safe_s_deallocateTBE
      |by apply safe_ff_deallocate|apply safe_allocate_block|apply safe_oo_atomic|apply safe_profile_inv
      |autounfold with actions; by keep_shape].
Qed.

End performed.

(** ** Transitions *)

Section transitions.
Context {W : Wired} (sys : RubySystem.t) (counts : list Z) (junk : Z) (dirs : DirectoryMemory.statics).
Context (cfg : config) (now rt : Z) (cooldown : bool).
Implicit Types (s : t) (sh : shape) (a : Z).

Lemma within_start s a st sh : base_ok sys s → line_is s a st sh → within sys a s sh s.
Proof.
  intros Hb (_ & He & Ht). split; [done|]. split; [|done]. split.
  - intros d. rewrite He. case_decide; [done|]. split; [by intros [? ?]|done].
  - rewrite Ht. destruct (has_tbe sh); [done|]. split; [by intros [? ?]|done].
Qed.

Lemma getState_line s a st sh : line sys a → base_ok sys s → line_is s a st sh →
  getState sys s (tbe_ptr_of a sh) (entry_ptr a sh) a = Ok st.
Proof.
  intros Ha Hb Hl. pose proof (within_start s a st sh Hb Hl) as Hw. destruct Hl as (Hf & He & Ht).
  unfold getState. rewrite (assert_exclusive_within sys a s sh s) by done. cbn [mbind outcome_bind].
  unfold tbe_ptr_of, tbe_state in *. apply bool_decide_eq_true in Hf.
  destruct (has_tbe sh).
  - unfold deref_tbe. cbn [from_option_or mbind outcome_bind].
    destruct (TBETable.lookup (TBEs s) a) as [x|]; [|done]. by injection Ht as <-.
  - unfold entry_ptr, has_entry in *. destruct (in_cache sh) as [d|]; cbn [fmap option_fmap option_map].
    + specialize (He d). rewrite decide_True in He by done. unfold deref_entry.
      cbn [from_option_or mbind outcome_bind fst snd].
      rewrite lookup_eq by (done || by apply cache_of_ok). cbn [mbind outcome_bind].
      unfold entry_state in He. destruct (contents_at (cache_of s d) a) as [e|]; [|done]. by injection He as <-.
    + rewrite bool_decide_eq_false_2 in Hf by (by intros [? ?]). apply no_objects in Hf. by rewrite Hf.
Qed.

(** The objects of the line hold [st]. *)
Definition entry_marked a st sh s : Prop := ∀ d, in_cache sh = Some d → entry_state s d a = Some st.
Definition tbe_marked a st sh s : Prop := has_tbe sh = true → tbe_state s a = Some st.

Lemma marked_line s0 s a st sh : within sys a s0 sh s → entry_marked a st sh s → tbe_marked a st sh s →
  fits_state st sh = true → line_is s a st sh.
Proof.
  intros (_ & [He Ht] & _) Hem Htm Hf. split; [done|]. split.
  - intros d. case_decide as E; [by apply Hem|]. apply eq_None_not_Some. by rewrite He.
  - destruct (has_tbe sh) eqn:E; [by apply Htm|]. apply eq_None_not_Some. rewrite Ht. congruence.
Qed.

Lemma within_l1_ok s0 s a st sh : l1_ok sys s0 → within sys a s0 sh s → line_is s a st sh → l1_ok sys s.
Proof.
  intros [_ H0] (Hb & _ & Ho) Hl. split; [done|]. intros b. destruct (decide (b = a)) as [->|Hne].
  - by exists st, sh.
  - destruct (H0 b) as (st' & sh' & Hf & He & Ht). destruct (Ho b Hne) as [Ho1 Ho2].
    exists st', sh'. split; [done|]. split; [intros d; by rewrite Ho1|by rewrite Ho2].
Qed.

Lemma safe_setState s0 a st sh : line sys a →
  {{ within sys a s0 sh }} setState sys (tbe_ptr_of a sh) (entry_ptr a sh) a st
  {{ λ _ s, within sys a s0 sh s ∧ entry_marked a st sh s ∧ tbe_marked a st sh s }}.
Proof.
  intros Ha. unfold setState. eapply triple_bind with (R := λ _, within sys a s0 sh).
  { apply keeps_reads. intros s Hs. by rewrite (assert_exclusive_within sys a s0 sh s). }
  intros ?. eapply triple_bind with (R := λ _ s, within sys a s0 sh s ∧ tbe_marked a st sh s).
  { intros s Hs. unfold tbe_ptr_of. destruct (has_tbe sh) eqn:E; [|split; [done|intros ?; congruence]].
    pose proof (safe_update_tbe sys a s0 sh (λ x, tbe_with_state x st) E s Hs) as Hu.
    unfold tbe_ptr_of in Hu. rewrite E in Hu. destruct (within_tbe sys a s0 sh s Hs E) as [x Hx].
    unfold update_tbe in *. cbn [from_option_or mbind outcome_bind] in *. rewrite Hx in *.
    cbn [from_option_or mbind outcome_bind] in *. split; [done|]. intros _. unfold tbe_state. cbn.
    by rewrite lookup_update_tbe, decide_True, Hx. }
  intros ? s [Hs Hm]. unfold entry_ptr. destruct (in_cache sh) as [d|] eqn:E.
  2: { split; [done|]. split; [intros ? ?; congruence|done]. }
  cbn [fmap option_fmap option_map]. change (Some (d, a)) with ((λ d, (d, a)) <$> Some d).
  rewrite <- E. unfold update_data.
  destruct (update_entry_run sys a s0 sh d (λ e, AbstractCacheEntry.set_data e
    (with_state (AbstractCacheEntry.data e) st)) s Ha Hs E) as (c & Hrun & Hc & Hst); [done|done|].
  unfold entry_ptr in Hrun. rewrite Hrun. split; [done|]. split; [|done].
  intros d' Hd'. assert (d' = d) as -> by congruence. rewrite Hst.
  by destruct (within_contents sys a s0 sh s d Hs E) as [e ->].
Qed.

Lemma safe_setAccessPermission s0 a st sh : line sys a →
  {{ λ s, within sys a s0 sh s ∧ entry_marked a st sh s ∧ tbe_marked a st sh s }}
  setAccessPermission sys (entry_ptr a sh) st
  {{ λ _ s, within sys a s0 sh s ∧ entry_marked a st sh s ∧ tbe_marked a st sh s }}.
Proof.
  intros Ha s (Hs & Hem & Htm). unfold setAccessPermission.
  destruct (entry_ptr a sh) as [r|] eqn:Er; [|done]. pose proof Er as E'. unfold entry_ptr in E'.
  destruct (in_cache sh) as [d|] eqn:E; [|done].
  destruct (update_entry_run sys a s0 sh d (λ e, AbstractCacheEntry.changePermission e
    (L1Cache.State_to_permission st)) s Ha Hs E) as (c & Hrun & Hc & Hst); [done|by destruct st|].
  rewrite Er in Hrun. rewrite Hrun.
  split; [done|]. split; [|done]. intros d' Hd'. assert (d' = d) as -> by congruence.
  rewrite Hst. by apply Hem.
Qed.

(** What does not touch caches and transactions keeps the invariant. *)
Lemma l1_ok_like s n : l1_ok sys s → like sys buffer_ids (base s) n → l1_ok sys (with_base s n).
Proof.
  intros [Hb Hl] [Hn [Hd Hi]]. split; [done|]. intros a. destruct (Hl a) as (st & sh & Hf & He & Ht).
  exists st, sh. split; [done|]. split; [|done]. intros d. rewrite <- He. unfold entry_state.
  rewrite !(option_fmap_compose AbstractCacheEntry.data CacheState). f_equal.
  destruct d; [apply Hd|apply Hi].
Qed.

Lemma ok_on_abs {A} (p : prog (AbstractController.t payload) A) :
  {{ ctl_ok buffer_ids }} p {{ λ _, ctl_ok buffer_ids }} → {{ l1_ok sys }} on_abs p {{ λ _, l1_ok sys }}.
Proof.
  intros Hp s Hs. unfold on_abs, on_node, on_ctl, zoom. pose proof Hs as [(? & ? & Hc) _].
  specialize (Hp _ Hc). destruct (p (ctl (base s))) as [[x c]|]; [|done].
  apply l1_ok_like; [done|]. by apply like_ctl, Hp.
Qed.

Lemma ok_modS (g : t → t) : (∀ s, base (g s) = base s ∧ TBEs (g s) = TBEs s) →
  {{ l1_ok sys }} modS g {{ λ _, l1_ok sys }}.
Proof.
  intros Hg. apply triple_modS. intros s [Hb Hl]. destruct (Hg s) as [Eb Et].
  split; [unfold base_ok; by rewrite Eb|]. intros a. destruct (Hl a) as (st & sh & Hf & He & Ht).
  exists st, sh. unfold line_is, entry_state, tbe_state, cache_of in *. by rewrite Eb, Et.
Qed.

Lemma safe_available s0 a sh r n : {{ frame_ok sys a s0 sh }} available now r n {{ λ _, frame_ok sys a s0 sh }}.
Proof. unfold available. keep_shape. Qed.

Lemma safe_check_all s0 a sh acts rs : {{ frame_ok sys a s0 sh }}
  check_all needs (available now) acts rs {{ λ _, frame_ok sys a s0 sh }}.
Proof.
  induction rs as [|r rs IH]; cbn [check_all]; [apply keeps_ret|]. case_decide; [done|].
  apply keeps_bind; [apply safe_available|]. intros []; [done|apply keeps_ret].
Qed.

Lemma ok_check_all acts rs : {{ λ f, l1_ok sys (self f) }} check_all needs (available now) acts rs
  {{ λ _ f, l1_ok sys (self f) }}.
Proof.
  induction rs as [|r rs IH]; cbn [check_all]; [apply keeps_ret|]. case_decide; [done|].
  apply keeps_bind.
  - unfold available. destruct r; [apply keeps_gets|..]; (eapply triple_zoom_frame;
      [apply ok_on_abs; auto with safety|done|done]).
  - intros []; [done|apply keeps_ret].
Qed.

(** The actions of a transition, or none of them for want of resources. *)
Lemma safe_worker s0 ev a st sh : line sys a → fits_state st sh = true →
  {{ λ f, frame_ok sys a s0 sh f ∧ l1_ok sys (self f) }}
  doTransitionWorker L1Cache.find_transition (perform sys counts junk dirs cfg now rt cooldown)
    needs resources (available now) ev st a
  {{ λ r f, match r.1 with
            | TransitionResult_Valid => ∃ sh', fits_state r.2 sh' = true ∧ frame_ok sys a s0 sh' f
            | TransitionResult_ResourceStall => l1_ok sys (self f)
            end }}.
Proof.
  intros Ha Hfit. unfold doTransitionWorker.
  destruct (L1Cache.find_transition st ev) as [[next acts]|] eqn:Et; [|by apply triple_raise].
  destruct (step_fits_run st ev sh next acts Et Hfit) as (sh' & Hrun & Hfit').
  eapply triple_bind; [apply triple_and; [apply safe_check_all|apply ok_check_all]|]. intros [].
  - eapply triple_bind with (R := λ _, frame_ok sys a s0 sh').
    + eapply triple_conseq; [|by intros f [Hf _]; exact Hf|by intros ? f Hf; exact Hf].
      apply (triple_each_run stuck shape_act (frame_ok sys a s0)); [|exact Hrun].
      intros x d d' Hx. by apply perform_safe.
    + intros ?. apply triple_ret. intros f Hf. by exists sh'.
  - apply triple_ret. by intros f [_ ?].
Qed.

(** A transition of a line in state [st]. *)
Lemma safe_doTransition ev a st sh : line sys a →
  {{ λ s, l1_ok sys s ∧ line_is s a st sh }}
  doTransition sys counts junk dirs cfg now rt cooldown ev (entry_ptr a sh) (tbe_ptr_of a sh) a
  {{ λ _, l1_ok sys }}.
Proof.
  intros Ha s0 [H0 Hl]. unfold doTransition. rewrite (getState_line s0 a st sh) by (done || apply H0).
  cbn [mbind outcome_bind].
  assert (frame_ok sys a s0 sh (mkFrame s0 (tbe_ptr_of a sh) (entry_ptr a sh))) as Hf.
  { split; [|done]. apply (within_start _ _ st); [apply H0|exact Hl]. }
  pose proof (safe_worker s0 ev a st sh Ha (proj1 Hl) _ (conj Hf H0)) as Hw.
  destruct (doTransitionWorker _ _ _ _ _ _ _ _ _) as [[[[] next] f]|]; [| |done]; cbn [mbind outcome_bind].
  2: exact Hw.
  destruct Hw as (sh' & Hfit & Hw & -> & ->). unfold mbind at 2, prog_bind at 1.
  pose proof (safe_setState s0 a next sh' Ha _ Hw) as Hset.
  destruct (setState _ _ _ _ _ _) as [[u' s1]|]; [|done].
  pose proof (safe_setAccessPermission s0 a next sh' Ha _ Hset) as Hperm.
  destruct (setAccessPermission _ _ _ _) as [[u'' s2]|]; [|done]. cbn.
  destruct Hperm as (Hw2 & Hem & Htm). eapply within_l1_ok; [done|done|]. by eapply marked_line.
Qed.

End transitions.

(** ** Ports and wakeups *)

Section ports.
Context {W : Wired} (sys : RubySystem.t) (counts : list Z) (junk : Z) (dirs : DirectoryMemory.statics).
Context (cfg : config) (now rt : Z) (cooldown : bool).
Implicit Types (s : t) (sh : shape) (a : Z).

#[local] Abbreviation ok := (l1_ok sys).
#[local] Abbreviation trigger := (trigger sys counts junk dirs cfg now rt cooldown).

(** The controller, with line [a] in state [st]. *)
Definition at_line a st sh s : Prop := ok s ∧ line_is s a st sh.

Lemma at_line_entry a st sh s : line sys a → at_line a st sh s →
  getL1CacheEntry sys s a = Ok (entry_ptr a sh).
Proof. intros Ha [[Hb _] Hl]. by eapply getL1CacheEntry_within, within_start. Qed.

Lemma at_line_tbe a st sh s : line sys a → at_line a st sh s → tbe_ptr s a = tbe_ptr_of a sh.
Proof. intros Ha [[Hb _] Hl]. by eapply (tbe_ptr_within sys), within_start. Qed.

Lemma not_line_entry a s : ¬ line sys a → getL1CacheEntry sys s a = Err AssertFail.
Proof.
  intros Ha. unfold getL1CacheEntry, getDCacheEntry, cache_ptr, CacheMemory.lookup.
  by destruct (assert_line_cases sys a) as [[? _]|[_ ->]].
Qed.

(** Code that starts with the entry of an address: the address is that of a line, or an
    assert fails. *)
Lemma with_line {A} a (k : option entry_ref → prog t A) Q :
  (line sys a → ∀ st sh, {{ at_line a st sh }} k (entry_ptr a sh) {{ Q }}) →
  {{ ok }} reads (λ s, getL1CacheEntry sys s a) ≫= k {{ Q }}.
Proof.
  intros Hk s Hs. unfold mbind, prog_bind, reads. destruct (decide (a = Address.line_address sys a)) as [E|E].
  - assert (line sys a) as Ha by (rewrite E; apply line_of_make).
    destruct (proj2 Hs a) as (st & sh & Hl).
    rewrite (at_line_entry a st sh s Ha (conj Hs Hl)). by apply (Hk Ha st sh).
  - rewrite not_line_entry by (by intros [_ ?]). done.
Qed.

Lemma ok_wake_next_cycle : {{ ok }} wake_next_cycle {{ λ _, ok }}.
Proof. apply ok_on_abs. auto with safety. Qed.

Lemma safe_trigger ev a st sh : line sys a →
  {{ at_line a st sh }} trigger ev a (entry_ptr a sh) (tbe_ptr_of a sh) {{ λ _, ok }}.
Proof.
  intros Ha. eapply triple_bind; [by apply safe_doTransition|]. intros []; [apply keeps_ret|].
  apply keeps_bind; [apply ok_wake_next_cycle|]. intros ?. apply keeps_ret.
Qed.

(** Code that starts with the pointers of a line. *)
Lemma safe_with_pointers {A} a (k : option entry_ref → option Z → prog t A) :
  (line sys a → ∀ st sh, {{ at_line a st sh }} k (entry_ptr a sh) (tbe_ptr_of a sh) {{ λ _, ok }}) →
  {{ ok }} with_pointers sys a k {{ λ _, ok }}.
Proof.
  intros Hk. apply with_line. intros Ha st sh. eapply triple_gets_eq; [|by apply Hk].
  intros s Hs. by eapply at_line_tbe.
Qed.

(** *** Requests of other caches *)

Lemma at_line_entry_needed st sh : fits_state st sh = true →
  match st with
  | L1Cache.State_M | L1Cache.State_IM_D | L1Cache.State_SM_D | L1Cache.State_MI_A => True
  | _ => False
  end → has_entry sh = true.
Proof. intros Hf. apply bool_decide_eq_true in Hf. by destruct st; try done; injection Hf. Qed.

Lemma safe_note_destinations a st sh dest : line sys a → has_entry sh = true →
  {{ at_line a st sh }} update_data sys (entry_ptr a sh) (λ e, with_destinations e dest)
  {{ λ _, at_line a st sh }}.
Proof.
  intros Ha He s [Hs Hl]. apply bool_decide_eq_true in He as [d Hd].
  pose proof (within_start sys s a st sh (proj1 Hs) Hl) as Hw.
  destruct (update_entry_run sys a s sh d (λ e, AbstractCacheEntry.set_data e
    (with_destinations (AbstractCacheEntry.data e) dest)) s Ha Hw Hd) as (c & Hrun & Hc & Hst); [done|done|].
  unfold update_data. rewrite Hrun. assert (line_is (with_cache_of s d c) a st sh) as Hl'.
  2: { split; [by eapply within_l1_ok|done]. }
  apply (marked_line sys s); [done| | |apply Hl].
  - intros d' Hd'. assert (d' = d) as -> by congruence. rewrite Hst.
    destruct Hl as (_ & Hl & _). specialize (Hl d). rewrite decide_True in Hl by done. exact Hl.
  - intros Ht. destruct Hl as (_ & _ & Hl). by rewrite Ht in Hl.
Qed.

Lemma safe_note_requestor a st sh m : line sys a →
  {{ at_line a st sh }} note_requestor sys counts a m (entry_ptr a sh) (tbe_ptr_of a sh)
  {{ λ _, at_line a st sh }}.
Proof.
  intros Ha. eapply triple_reads_eq.
  { intros s [[Hb _] Hl]. unfold is_dataSendState. rewrite (getState_line sys s a st sh) by done. done. }
  destruct (match st with L1Cache.State_M | L1Cache.State_IM_D | L1Cache.State_SM_D
    | L1Cache.State_MI_A => true | _ => false end) eqn:Hst; [|apply keeps_ret].
  apply (triple_fact _ (has_entry sh = true)).
  { intros s Hs. eapply at_line_entry_needed; [apply Hs|]. by destruct st. }
  intros He. apply keeps_bind; [apply keeps_reads|].
  { intros s [Hs Hl]. eapply avoids_deref_entry; [done|done|]. eapply within_start; [apply Hs|done]. }
  intros e. apply keeps_bind; [apply triple_lift_any; auto with avoids|]. intros []; [|apply keeps_ret].
  apply keeps_bind; [apply triple_lift_any; auto with avoids|]. intros dest. by apply safe_note_destinations.
Qed.

Lemma safe_answer_other ev a st sh m : line sys a →
  {{ at_line a st sh }} answer_other sys counts junk dirs cfg now rt cooldown ev a m (entry_ptr a sh) (tbe_ptr_of a sh)
  {{ λ _, ok }}.
Proof.
  intros Ha. eapply triple_bind; [by apply safe_note_requestor|]. intros ?.
  eapply triple_bind; [apply keeps_reads|].
  { intros s [Hs Hl]. by destruct (isAtomic_within sys a s sh s Ha (within_start sys s a st sh (proj1 Hs) Hl)) as [x ->]. }
  intros atomic. eapply triple_bind with (R := λ _, at_line a st sh).
  { destruct atomic; [|apply keeps_ret]. apply keeps_reads. intros s [[Hb _] Hl].
    unfold is_dataWaitingState. by rewrite (getState_line sys s a st sh). }
  intros []; [|by apply safe_trigger]. apply triple_ret. by intros s [? _].
Qed.

(** What a port does with the state of a line in view. *)
Lemma at_line_idle a st sh (r : port_result) : {{ at_line a st sh }} mret r {{ λ _, ok }}.
Proof. apply triple_ret. by intros s [? _]. Qed.

(** *** The ports *)

Lemma ok_peek_request buf : buf ∈ buffer_ids → {{ ok }} peek_request buf {{ λ _, ok }}.
Proof.
  intros Hb. apply keeps_bind; [apply ok_on_abs; auto with safety|]. intros [];
    apply triple_lift_any; done.
Qed.

Lemma ok_if_ready buf p : buf ∈ buffer_ids → {{ ok }} p {{ λ _, ok }} → {{ ok }} if_ready now buf p {{ λ _, ok }}.
Proof.
  intros Hb Hp. apply keeps_bind; [apply ok_on_abs; auto with safety|]. intros []; [done|apply keeps_ret].
Qed.

Lemma ok_unless_held a buf x p : buf ∈ buffer_ids → {{ ok }} p {{ λ _, ok }} →
  {{ ok }} unless_held sys now rt a buf x p {{ λ _, ok }}.
Proof.
  intros Hb Hp. apply keeps_bind; [apply keeps_gets|]. intros held. destruct (held && _); [|done].
  apply keeps_bind; [apply ok_on_abs; auto with safety|]. intros ?. apply keeps_ret.
Qed.

Lemma safe_atomic_port :
  {{ ok }} atomicRequestNetwork_in sys counts junk dirs cfg now rt cooldown {{ λ _, ok }}.
Proof.
  apply ok_if_ready; [auto with safety|]. apply keeps_bind; [apply ok_peek_request; auto with safety|].
  intros m. apply ok_unless_held; [auto with safety|]. apply safe_with_pointers. intros Ha st sh.
  eapply triple_bind; [apply keeps_gets|]. intros me.
  destruct (RequestMsg.m_Type m); try apply at_line_idle; [by apply safe_trigger|].
  case_decide; [by apply safe_trigger|]. eapply triple_conseq with (P' := ok) (Q' := λ _, ok);
    [|by intros s [? _]|done].
  apply keeps_bind; [apply ok_on_abs; auto with safety|]. intros ?. apply keeps_ret.
Qed.

Lemma safe_response_port :
  {{ ok }} responseNetwork_in sys counts junk dirs cfg now rt cooldown {{ λ _, ok }}.
Proof.
  apply ok_if_ready; [auto with safety|]. apply keeps_bind.
  { apply keeps_bind; [apply ok_on_abs; auto with safety|]. intros []; by apply triple_lift_any. }
  intros m. apply ok_unless_held; [auto with safety|]. apply safe_with_pointers. intros Ha st sh.
  destruct (ResponseMsg.m_Type m); first [apply at_line_idle|by apply safe_trigger].
Qed.

Lemma safe_request_port buf : buf ∈ buffer_ids →
  {{ ok }} request_port sys counts junk dirs cfg now rt cooldown buf {{ λ _, ok }}.
Proof.
  intros Hb. apply ok_if_ready; [done|]. apply keeps_bind; [by apply ok_peek_request|]. intros m.
  apply ok_unless_held; [done|]. apply safe_with_pointers. intros Ha st sh.
  eapply triple_bind; [apply keeps_gets|]. intros me.
  eapply triple_bind; [apply triple_lift_any; auto with avoids|]. intros here.
  eapply triple_bind; [apply triple_lift_any; by destruct here|]. intros ?.
  destruct (RequestMsg.m_Type m); first [apply at_line_idle|by apply safe_trigger|
    case_bool_decide; [by apply safe_trigger|by apply safe_answer_other]].
Qed.

(** *** Requests of the processor *)

Lemma line_modS a st sh (g : t → t) : (∀ s, base (g s) = base s ∧ TBEs (g s) = TBEs s) →
  {{ at_line a st sh }} modS g {{ λ _, at_line a st sh }}.
Proof.
  intros Hg. apply triple_modS. intros s [Hs Hl]. split; [by apply (ok_modS sys g Hg s Hs)|].
  destruct (Hg s) as [Eb Et]. unfold line_is, entry_state, tbe_state, cache_of in *. by rewrite Eb, Et.
Qed.

Lemma safe_event a st sh ty :
  {{ at_line a st sh }} mandatory_request_type_to_event ty {{ λ _, at_line a st sh }}.
Proof.
  destruct ty; cbn [mandatory_request_type_to_event];
    repeat (apply keeps_bind; [by apply line_modS|intros ?]); first [apply keeps_ret|by apply triple_raise].
Qed.

Lemma safe_event_trigger a st sh ty : line sys a →
  {{ at_line a st sh }}
  event ← mandatory_request_type_to_event ty; tbe ← gets (λ s, tbe_ptr s a);
  trigger event a (entry_ptr a sh) tbe
  {{ λ _, ok }}.
Proof.
  intros Ha. eapply triple_bind; [apply safe_event|]. intros ev.
  eapply triple_gets_eq; [by intros; eapply at_line_tbe|]. by apply safe_trigger.
Qed.

Lemma safe_access m : {{ ok }} access sys counts junk dirs cfg now rt cooldown m {{ λ _, ok }}.
Proof.
  unfold access. apply with_line. intros Ha st sh. set (a := RubyRequest.m_LineAddress m) in *.
  set (d := bool_decide _).
  eapply triple_bind with (R := λ r s, at_line a st sh s ∧
    (r = false → CacheMemory.cacheAvail sys (cache_of s d) a = Ok false)).
  { destruct (entry_ptr a sh); [by apply triple_ret|]. apply triple_reads. intros s Hs.
    destruct (cacheAvail_eq sys (cache_of s d) a (cache_of_ok sys s d (proj1 (proj1 Hs))) Ha) as (r & -> & _).
    split; [done|]. intros r' [= <-]. split; [done|]. by intros ->. }
  intros [].
  - eapply triple_conseq; [by apply safe_event_trigger|by intros s [? _]|done].
  - eapply triple_bind with (R := λ _, ok); [|intros v; apply safe_with_pointers; intros; by apply safe_trigger].
    apply triple_reads. intros s [[Hs _] Hav].
    destruct (cacheProbe_spec sys (cache_of s d) a (cache_of_ok sys s d (proj1 Hs)) Ha (Hav eq_refl))
      as (v & -> & _). done.
Qed.

Lemma safe_mandatory_port :
  {{ ok }} mandatoryQueue_in sys counts junk dirs cfg now rt cooldown {{ λ _, ok }}.
Proof.
  apply ok_if_ready; [auto with safety|]. apply keeps_bind; [apply keeps_gets|]. intros blocked.
  apply keeps_bind.
  { apply keeps_bind; [apply ok_on_abs; auto with safety|]. intros []; by apply triple_lift_any. }
  intros m. apply ok_unless_held; [auto with safety|]. case_decide; [apply safe_access|].
  apply with_line. intros Ha st sh. case_decide; [by apply safe_event_trigger|].
  apply triple_ret. by intros s [? _].
Qed.

(** *** The loop *)

Lemma safe_ports rank code : (rank, code) ∈ ports sys counts junk dirs cfg now rt cooldown →
  {{ ok }} code {{ λ _, ok }}.
Proof.
  intros Hin. unfold ports in Hin. repeat (apply elem_of_cons in Hin as [[= -> ->]|Hin];
    [first [apply safe_atomic_port|apply safe_response_port|by apply safe_request_port; auto with safety
      |apply safe_mandatory_port]|]). by apply elem_of_nil in Hin.
Qed.

(** Whatever the fuel, the loop follows no null pointer. *)
Lemma safe_wakeup fuel n :
  triple (λ f, f = NullDeref) ok (wakeup_loop (ports sys counts junk dirs cfg now rt cooldown)
    set_cur_in_port wake_next_cycle (m_transitions_per_cycle cfg) fuel n) (λ _, ok).
Proof.
  apply wakeup_keeps; [|apply ok_wake_next_cycle|apply safe_ports].
  intros rank. apply ok_on_abs. by apply triple_modS.
Qed.

End ports.

(** ** Runs of a controller *)

Section runs.
#[local] Existing Instance any_wiring.
Context (sys : RubySystem.t) (counts : list Z) (junk : Z) (dirs : DirectoryMemory.statics) (cfg : config).
Implicit Types (s : t).

(** What happens to a controller: it wakes up, its processor makes a request, the network
    puts a message into one of its buffers, or takes one out. *)
Inductive l1_step (s s' : t) : Prop :=
  | step_wakeup now rt cooldown fuel u :
      wakeup sys counts junk dirs cfg now rt cooldown fuel s = Ok (u, s') → l1_step s s'
  | step_request now rt p r :
      on_node (makeRequest sys now rt junk p) s = Ok (r, s') → l1_step s s'
  | step_deliver now rt edge buf m latency rmw u :
      on_abs (AbstractController.enqueue sys now rt edge buf m latency rmw) s = Ok (u, s') → l1_step s s'
  | step_take now buf r :
      on_abs (AbstractController.dequeue now buf) s = Ok (r, s') → l1_step s s'.

(** A controller with empty caches and no transactions. *)
Definition l1_fresh s : Prop :=
  base_ok sys s ∧ (∀ d a, contents_at (cache_of s d) a = None) ∧ TBETable.m_map (TBEs s) = ∅.

Lemma fresh_ok s : l1_fresh s → l1_ok sys s.
Proof.
  intros (Hb & He & Ht). split; [done|]. intros a. exists L1Cache.State_I, (mkShape None false).
  split; [done|]. split.
  - intros d. unfold entry_state. by rewrite He.
  - unfold tbe_state, TBETable.lookup. by rewrite Ht.
Qed.

Lemma enqueue_ctl now rt edge buf m latency rmw (c c' : AbstractController.t payload) u :
  ctl_ok buffer_ids c → AbstractController.enqueue sys now rt edge buf m latency rmw c = Ok (u, c') →
  ctl_ok buffer_ids c'.
Proof.
  intros Hc (b & r & Hb & Hf & ->)%on_buffer_Ok. eapply with_buffer_ok; [done|done|]. by eapply enqueue_conf.
Qed.

Lemma makeRequest_like now rt p n r n' : node_ok sys buffer_ids n →
  makeRequest sys now rt junk p n = Ok (r, n') → like (T := policy_ptr) (D := Entry) sys buffer_ids n n'.
Proof.
  intros Hn. unfold makeRequest. destruct (decide _); [by intros [= <- <-]|].
  intros ([t1 t2] & _ & H1)%bind_Ok. apply bind_Ok in H1 as ([st1 n1] & Hins & H1).
  assert (like sys buffer_ids n n1) as Hl.
  { unfold insertRequest in Hins. apply bind_Ok in Hins as (u & _ & Hins).
    destruct (_ && _); [by injection Hins as <- <-|].
    destruct (bool_decide _); [by injection Hins as <- <-|].
    destruct (bool_decide _); [by injection Hins as <- <-|].
    apply bind_Ok in Hins as (v & _ & Hins). by injection Hins as <- <-. }
  cbn [fst snd] in H1. destruct st1; try (by injection H1 as <- <-).
  apply bind_Ok in H1 as ([u n2] & Hiss & [= <- <-]). cbn [snd]. unfold issueRequest in Hiss.
  apply bind_Ok in Hiss as (msg & _ & Hiss). apply bind_Ok in Hiss as (v & _ & Hiss).
  unfold on_ctl, zoom in Hiss. apply bind_Ok in Hiss as ([x c] & Henq & [= <- <-]).
  apply like_ctl; [done|]. eapply enqueue_ctl; [apply Hl|exact Henq].
Qed.

Lemma dequeue_ctl now buf (c c' : AbstractController.t payload) r :
  ctl_ok buffer_ids c → AbstractController.dequeue now buf c = Ok (r, c') → ctl_ok buffer_ids c'.
Proof.
  intros Hc H1. unfold AbstractController.dequeue in H1. apply bind_Ok in H1 as (b & Hb & H1).
  apply bind_Ok in H1 as ([[m z] b'] & Hd & [= <- <-]).
  destruct (AbstractController.buffers c !! buf) as [b1|] eqn:E; [|done]. injection Hb as ->.
  eapply with_buffer_ok; [done|done|]. by apply dequeue_frame in Hd as (_ & ? & _).
Qed.

Lemma on_abs_run {A} (p : prog (AbstractController.t payload) A) s x s' : l1_ok sys s →
  on_abs p s = Ok (x, s') →
  (∀ c', p (ctl (base s)) = Ok (x, c') → ctl_ok buffer_ids c') → l1_ok sys s'.
Proof.
  intros Hs H1 Hp. unfold on_abs, on_node, on_ctl, zoom in H1.
  apply bind_Ok in H1 as ([y n] & H1 & [= <- <-]). apply bind_Ok in H1 as ([z c] & H1 & [= <- <-]).
  apply l1_ok_like; [done|]. apply like_ctl; [apply like_refl, Hs|by apply Hp].
Qed.

Lemma l1_step_ok s s' : l1_ok sys s → l1_step s s' → l1_ok sys s'.
Proof.
  intros Hs [now rt cooldown fuel u H1|now rt p r H1|now rt edge buf m latency rmw u H1|now buf r H1].
  - exact (triple_Ok _ _ _ _ _ _ _ (safe_wakeup sys counts junk dirs cfg now rt cooldown fuel 0) Hs H1).
  - unfold on_node, zoom in H1. apply bind_Ok in H1 as ([x n] & H1 & [= <- <-]).
    apply l1_ok_like; [done|]. eapply makeRequest_like; [apply Hs|exact H1].
  - eapply on_abs_run; [done|exact H1|]. intros c'. apply enqueue_ctl, Hs.
  - eapply on_abs_run; [done|exact H1|]. intros c'. apply dequeue_ctl, Hs.
Qed.

Lemma l1_steps_ok s s' : l1_ok sys s → rtc l1_step s s' → l1_ok sys s'.
Proof. intros Hs. induction 1 as [|s s1 s' H1 _ IH]; [done|]. by apply IH, (l1_step_ok s). Qed.

(** C13: in every run of a cache controller from empty caches, whatever its processor
    asks for and whatever the network delivers, every line has exactly the objects its
    state calls for: an entry in one of the two caches at most, and a transaction entry,
    which agree on the state. *)
Theorem l1_objects_agree s s' :
  l1_fresh s → rtc l1_step s s' →
  (∀ a, ∃ st sh, objects st = Some (bool_decide (is_Some (in_cache sh)), has_tbe sh) ∧
     (∀ d, entry_state s' d a = if decide (in_cache sh = Some d) then Some st else None) ∧
     tbe_state s' a = if has_tbe sh then Some st else None) ∧
  ∀ a, line sys a → assert_exclusive sys s' a = Ok tt.
Proof.
  intros Hf Hr. destruct (l1_steps_ok s s' (fresh_ok s Hf) Hr) as [Hb Hl]. split.
  - intros a. destruct (Hl a) as (st & sh & Hfit & Hrest). exists st, sh. split; [|done].
    by apply bool_decide_eq_true in Hfit.
  - intros a Ha. destruct (Hl a) as (st & sh & Hl'). eapply assert_exclusive_within; [done|].
    by eapply within_start.
Qed.

(** C12: a wakeup in any state that such a run reaches does not follow a null pointer, to
    a cache entry, a transaction entry or a message buffer, in any port, transition or
    action. *)
Theorem l1_pointers_valid s s' now rt cooldown fuel :
  l1_fresh s → rtc l1_step s s' →
  wakeup sys counts junk dirs cfg now rt cooldown fuel s' ≠ Err NullDeref.
Proof.
  intros Hf Hr E. pose proof (safe_wakeup sys counts junk dirs cfg now rt cooldown fuel 0 s'
    (l1_steps_ok s s' (fresh_ok s Hf) Hr)) as Hw.
  unfold wakeup in E. rewrite E in Hw. by apply Hw.
Qed.

End runs.

(** ** Witnesses *)

(** A controller with two empty caches of two sets and two ways, in a system of one L1
    cache and one directory, and a load of its processor. *)
Definition demo_cache : CacheMemory.t policy_ptr Entry :=
  get_Ok (CacheMemory.create sys64 demo_params) eq_refl.
Definition demo_buffers : gmap Z (MessageBuffer.t payload) :=
  list_to_map ((λ i, (i, mandatory)) <$> seqZ 0 9).
Definition demo_l1 : t :=
  mk (mkNode seq0 demo_cache demo_cache None (AbstractController.create 0 2 demo_buffers))
     (TBETable.create 16) 0 (mkWorst 0 0 0 0) (mkMachineID MachineType_L1Cache 0)
     (ClockedObject.create 1) [].
Definition demo_statics : DirectoryMemory.statics := DirectoryMemory.mkStatics 1 0 4096 11.
Definition demo_cfg : config := mkConfig 2 2 false 4 3.
Definition demo_wakeup (now : Z) : prog t unit :=
  wakeup sys64 [1; 1; 0] 0 demo_statics demo_cfg now 0 false 8.
Definition demo_load : cpu_packet := packet_of true false false false (replicate 8 0).
Definition demo_loading : t :=
  get_Ok (r ← on_node (makeRequest sys64 1 0 0 demo_load) demo_l1; Ok r.2) eq_refl.
Definition demo_missing : t := get_Ok (r ← demo_wakeup 5 demo_loading; Ok r.2) eq_refl.

Lemma demo_fresh : l1_fresh sys64 demo_l1.
Proof.
  destruct (new_cache_ok (Data := Entry) sys64 demo_params) as (c & Hc & Hok & _ & _ & _ & Hn);
    [simpl; lia|simpl; lia|vm_compute; done|by right|].
  assert (demo_cache = c) as E by (by apply get_Ok_eq). split; [|split; [|done]].
  - unfold base_ok, node_ok, demo_l1. cbn. rewrite E. split; [done|]. split; [done|].
    split_and!; [| |by intros a vec id ?%not_elem_of_nil].
    + intros id b Hb. apply elem_of_list_to_map_2, list_elem_of_fmap in Hb as (i & [= -> ->] & _).
      split; by eexists.
    + intros id Hid. apply elem_of_list_to_set in Hid. apply not_eq_None_Some.
      intros Hno%not_elem_of_list_to_map_2. apply Hno. rewrite <- list_fmap_compose.
      apply list_elem_of_fmap. by exists id.
  - intros d a. unfold cache_of. destruct d; cbn; rewrite E; apply Hn.
Qed.

Lemma demo_run : rtc (l1_step sys64 [1; 1; 0] 0 demo_statics demo_cfg) demo_l1 demo_missing.
Proof.
  apply rtc_l with demo_loading.
  - eapply (step_request _ _ _ _ _ _ _ 1 0 demo_load). vm_compute. reflexivity.
  - apply rtc_once. eapply (step_wakeup _ _ _ _ _ _ _ 5 0 false 8). vm_compute. reflexivity.
Qed.

(** The load has missed: the line waits for its request to be ordered. *)
Lemma l1_objects_agree_witness :
  entry_state demo_missing true 0 = Some L1Cache.State_IS_AD ∧
  entry_state demo_missing false 0 = None ∧ tbe_state demo_missing 0 = Some L1Cache.State_IS_AD.
Proof.
  destruct (l1_objects_agree sys64 [1; 1; 0] 0 demo_statics demo_cfg demo_l1 demo_missing demo_fresh demo_run)
    as [H _].
  destruct (H 0) as (st & sh & Ho & He & Ht).
  assert (tbe_state demo_missing 0 = Some L1Cache.State_IS_AD) as Hst by (vm_compute; reflexivity).
  rewrite Ht in Hst. destruct (has_tbe sh); [|done]. injection Hst as ->.
  split_and!; [vm_compute; reflexivity|vm_compute; reflexivity|exact Ht].
Defined.

Lemma l1_pointers_valid_witness : demo_wakeup 6 demo_missing ≠ Err NullDeref.
Proof.
  apply (l1_pointers_valid sys64 [1; 1; 0] 0 demo_statics demo_cfg demo_l1 demo_missing 6 0 false 8);
    [exact demo_fresh|exact demo_run].
Defined.
