(* ===== verification/L1Progress.v ===== *)
(** * Termination of the wakeups of the cache controller

    The ports of the controller satisfy what [Progress] asks of ports, so every wakeup ends,
    and by [L1Safety] in no null pointer. *)

From S2P Require Import Prelude Triples Addresses Clocks Buffers Policies Caches Tables MsiTables.
From S2P Require Import Controllers DirectoryMemory Messages Sequencer Machines L1Controller.
From S2P Require Import Pointers Progress L1Safety.
Import L1Controller.
Local Open Scope Z_scope.
Local Open Scope triple_scope.

(** The queues of the ports. *)
Definition input_buffers : list Z :=
  [atomicRequestToCache; responseToCache; requestToCache; requestToCacheWB; mandatoryQueue].

Definition abs (s : t) : AbstractController.t payload := ctl (base s).

Section progress.
Context (sys : RubySystem.t) (counts : list Z) (junk : Z) (dirs : DirectoryMemory.statics).
Context (cfg : config) (now rt : Z) (cooldown : bool).
Implicit Types (s : t) (a : Z).

(** The controller wakes up at an edge of its clock: no queue of a port has its receiver
    ahead of its sender. *)
#[local] Instance at_edge : Wired := λ id c, id ∈ input_buffers → in_step now c.

#[local] Abbreviation quiet := (quiet abs).
#[local] Abbreviation winds_down := (winds_down abs input_buffers now).
#[local] Abbreviation winds_down_from := (winds_down_from abs input_buffers now).

(** *** Transitions that wait for resources *)

Lemma quiet_zoom {A} (p : prog t A) : quiet p →
  Progress.quiet (λ f, abs (self f)) (on_self p).
Proof.
  intros Hp f x f' H1. unfold on_self, zoom in H1. destruct (p (self f)) as [[y s']|] eqn:E; [|done].
  injection H1 as <- <-. exact (Hp _ _ _ E).
Qed.

Lemma quiet_slots buf n : quiet (on_abs (AbstractController.areNSlotsAvailable now buf n)).
Proof.
  intros s x s' H1. unfold on_abs, on_node, on_ctl, zoom in H1.
  destruct (AbstractController.areNSlotsAvailable now buf n (ctl (base s))) as [[y c]|] eqn:E; [|done].
  injection H1 as <- <-. unfold heaps, abs. by rewrite <- (slots_heaps _ _ _ _ _ _ E).
Qed.

Lemma quiet_check_all acts rs : Progress.quiet (λ f, abs (self f))
  (check_all needs (available now) acts rs).
Proof.
  induction rs as [|r rs IH]; cbn [check_all]; [apply quiet_ret|]. case_decide; [done|].
  apply quiet_bind; [|intros []; [done|apply quiet_ret]].
  destruct r; cbn [available]; [apply quiet_gets|apply quiet_zoom, quiet_slots..].
Qed.

Lemma doTransition_stall ev entry tbe a s s' :
  doTransition sys counts junk dirs cfg now rt cooldown ev entry tbe a s =
    Ok (TransitionResult_ResourceStall, s') → heaps abs s' = heaps abs s.
Proof.
  unfold doTransition. intros (st & _ & H1)%bind_Ok. apply bind_Ok in H1 as ([[res next] f] & H1 & H2).
  destruct res; [apply bind_Ok in H2 as (? & _ & ?); congruence|]. injection H2 as <-.
  unfold doTransitionWorker in H1. destruct (L1Cache.find_transition st ev) as [[nx acts]|]; [|done].
  apply prog_bind_Ok in H1 as (ok & f1 & H1 & H2). destruct ok.
  - apply prog_bind_Ok in H2 as (? & ? & _ & [= ]).
  - injection H2 as _ <-. exact (quiet_check_all _ _ _ _ _ H1).
Qed.

Lemma quiet_wake : quiet wake_next_cycle.
Proof. by intros s x s' [= <- <-]. Qed.

Lemma trigger_winds ev a entry tbe :
  winds_down (trigger sys counts junk dirs cfg now rt cooldown ev a entry tbe).
Proof.
  intros s r s' _ (res & s1 & H1 & H2)%prog_bind_Ok. destruct res; [by injection H2 as <- <-|].
  apply doTransition_stall, (waiting_heaps abs input_buffers now) in H1. rewrite <- H1.
  exact (after_transition_winds abs input_buffers now _ _ quiet_wake _ _ _ I H2).
Qed.

(** *** Code before a transition *)

Lemma quiet_update_data p f : quiet (update_data sys p f).
Proof.
  intros s x s' H1. unfold update_data, update_entry in H1. apply bind_Ok in H1 as ([d a] & _ & H1).
  apply bind_Ok in H1 as (c & _ & [= _ <-]). by destruct d.
Qed.

Lemma quiet_event ty : quiet (mandatory_request_type_to_event ty).
Proof.
  destruct ty; cbn [mandatory_request_type_to_event];
    repeat (apply quiet_bind; [by apply quiet_modS|intros ?]); first [apply quiet_ret|apply quiet_raise].
Qed.

Lemma quiet_note a m entry tbe : quiet (note_requestor sys counts a m entry tbe).
Proof.
  apply quiet_bind; [apply quiet_reads|]. intros []; [|apply quiet_ret].
  apply quiet_bind; [apply quiet_reads|]. intros e. apply quiet_bind; [apply quiet_lift|].
  intros []; [|apply quiet_ret]. apply quiet_bind; [apply quiet_lift|]. intros ?. apply quiet_update_data.
Qed.

Lemma answer_winds ev a m entry tbe :
  winds_down (answer_other sys counts junk dirs cfg now rt cooldown ev a m entry tbe).
Proof.
  apply winds_down_bind; [apply quiet_note|]. intros ?. apply winds_down_bind; [apply quiet_reads|].
  intros atomic. apply winds_down_bind; [destruct atomic; [apply quiet_reads|apply quiet_ret]|].
  intros []; [apply winds_down_idle|apply trigger_winds].
Qed.

Lemma pointers_wind a k : (∀ entry tbe, winds_down (k entry tbe)) → winds_down (with_pointers sys a k).
Proof.
  intros Hk. apply winds_down_bind; [apply quiet_reads|]. intros entry.
  apply winds_down_bind; [apply quiet_gets|]. intros tbe. apply Hk.
Qed.

(** *** Ports *)

Lemma on_abs_Ok {A} (p : prog (AbstractController.t payload) A) s x s' : on_abs p s = Ok (x, s') →
  ∃ c, p (abs s) = Ok (x, c) ∧ s' = with_base s (with_ctl (base s) c).
Proof.
  unfold on_abs, on_node, on_ctl, zoom. unfold abs. destruct (p _) as [[y c]|]; [|done].
  intros [= <- <-]. by exists c.
Qed.

Lemma dequeue_winds buf : winds_down (_ ← on_abs (AbstractController.dequeue now buf); mret Idle).
Proof.
  intros s r s' _ (z & s1 & H1 & [= <- <-])%prog_bind_Ok. apply on_abs_Ok in H1 as (c & H1 & ->).
  by eapply dequeue_waiting.
Qed.

(** The head of [buf] is ready. *)
Definition ready_at buf s : Prop := ∃ b, AbstractController.buffers (abs s) !! buf = Some b ∧
  MessageBuffer.isReady now b = Ok true ∧ in_step now (MessageBuffer.conf b).

Lemma if_ready_winds buf p : buf ∈ input_buffers → winds_down_from (ready_at buf) p →
  winds_down_from (l1_ok sys) (if_ready now buf p).
Proof.
  intros Hin Hp s r s' Hs (ready & s1 & H1 & H2)%prog_bind_Ok.
  apply on_abs_Ok in H1 as (c & H1 & ->). unfold AbstractController.isReady in H1.
  apply prog_bind_Ok in H1 as (b & c1 & Hb & H1). unfold AbstractController.buffer in Hb.
  apply bind_Ok in Hb as (b1 & Hb & [= <- <-]). unfold lift in H1.
  destruct (MessageBuffer.isReady now b1) as [y|] eqn:Er; [|done]. injection H1 as <- <-.
  assert (with_base s (with_ctl (base s) (abs s)) = s) as E by (by destruct s as [[]]). rewrite E in H2.
  destruct y; [|by injection H2 as <- <-]. apply Hp in H2; [done|]. exists b1.
  unfold from_option_or in Hb. destruct (_ !! buf) as [b2|] eqn:Eb; [|done]. injection Hb as ->.
  split_and!; [done..|]. destruct Hs as [(_ & _ & Hc & _) _]. by apply (Hc buf b1 Eb).
Qed.

Lemma unless_held_winds a buf x rest : buf ∈ input_buffers → winds_down rest →
  winds_down_from (ready_at buf) (unless_held sys now rt a buf x rest).
Proof.
  intros Hin Hrest s r s' (b & Hb & Hr & Hst) (held & s2 & [= <- <-] & H2)%prog_bind_Ok.
  destruct (_ && _); [|by apply Hrest in H2]. apply prog_bind_Ok in H2 as (u & s3 & H2 & [= <- <-]).
  apply on_abs_Ok in H2 as (c & H2 & ->). apply on_buffer_Ok in H2 as (b' & r' & Hb2 & Hd & ->).
  rewrite Hb in Hb2. injection Hb2 as <-. eapply waiting_buffer; [exact Hb|done|done|].
  by eapply delayHead_ready.
Qed.

Lemma look_winds {M} (I : t → Prop) (look : prog t M) k :
  (∀ s m s', look s = Ok (m, s') → s' = s) → (∀ m, winds_down_from I (k m)) →
  winds_down_from I (look ≫= k).
Proof.
  intros Hlook Hk s r s' Hs (m & s1 & H1 & H2)%prog_bind_Ok. apply Hlook in H1 as ->. by apply Hk in H2.
Qed.

Lemma peek_same {M} buf (cast : payload → outcome M) s m s' :
  (p ← on_abs (AbstractController.peek buf); lift (cast p)) s = Ok (m, s') → s' = s.
Proof.
  intros (p & s1 & H1 & H2)%prog_bind_Ok. apply on_abs_Ok in H1 as (c & H1 & ->).
  unfold lift in H2. destruct (cast p); [|done]. injection H2 as _ <-.
  apply prog_bind_Ok in H1 as (b & c1 & H1 & H2). unfold AbstractController.buffer in H1.
  apply bind_Ok in H1 as (b1 & _ & [= _ <-]). apply prog_bind_Ok in H2 as (y & c2 & H2 & [= _ <-]).
  unfold lift in H2. destruct (MessageBuffer.peek b); [|done]. injection H2 as _ <-.
  by destruct s as [[]].
Qed.

Lemma atomic_winds : winds_down_from (l1_ok sys)
  (atomicRequestNetwork_in sys counts junk dirs cfg now rt cooldown).
Proof.
  apply if_ready_winds; [set_solver|]. apply look_winds; [apply peek_same|]. intros m.
  apply unless_held_winds; [set_solver|].
  apply pointers_wind. intros entry tbe. apply winds_down_bind; [apply quiet_gets|]. intros me.
  destruct (RequestMsg.m_Type m); try apply winds_down_idle; [apply trigger_winds|].
  case_decide; [apply trigger_winds|apply dequeue_winds].
Qed.

Lemma response_winds : winds_down_from (l1_ok sys)
  (responseNetwork_in sys counts junk dirs cfg now rt cooldown).
Proof.
  apply if_ready_winds; [set_solver|]. apply look_winds; [apply peek_same|]. intros m.
  apply unless_held_winds; [set_solver|].
  apply pointers_wind. intros entry tbe.
  destruct (ResponseMsg.m_Type m); first [apply winds_down_idle|apply trigger_winds].
Qed.

Lemma request_winds buf : buf ∈ input_buffers → winds_down_from (l1_ok sys)
  (request_port sys counts junk dirs cfg now rt cooldown buf).
Proof.
  intros Hb. apply if_ready_winds; [done|]. apply look_winds; [apply peek_same|]. intros m.
  apply unless_held_winds; [done|].
  apply pointers_wind. intros entry tbe. apply winds_down_bind; [apply quiet_gets|]. intros me.
  apply winds_down_bind; [apply quiet_lift|]. intros here. apply winds_down_bind; [apply quiet_lift|].
  intros ?. destruct (RequestMsg.m_Type m); first [apply winds_down_idle|apply trigger_winds|
    case_bool_decide; first [apply trigger_winds|apply answer_winds]].
Qed.

Lemma event_winds ty a entry : winds_down (
  event ← mandatory_request_type_to_event ty; tbe ← gets (λ s, tbe_ptr s a);
  trigger sys counts junk dirs cfg now rt cooldown event a entry tbe).
Proof.
  apply winds_down_bind; [apply quiet_event|]. intros ev. apply winds_down_bind; [apply quiet_gets|].
  intros tbe. apply trigger_winds.
Qed.

Lemma access_winds m : winds_down (access sys counts junk dirs cfg now rt cooldown m).
Proof.
  apply winds_down_bind; [apply quiet_reads|]. intros entry.
  apply winds_down_bind; [destruct entry; [apply quiet_ret|apply quiet_reads]|]. intros [].
  - apply event_winds.
  - apply winds_down_bind; [apply quiet_reads|]. intros v. apply pointers_wind. intros e tbe.
    apply trigger_winds.
Qed.

Lemma mandatory_winds : winds_down_from (l1_ok sys)
  (mandatoryQueue_in sys counts junk dirs cfg now rt cooldown).
Proof.
  apply if_ready_winds; [set_solver|]. apply look_winds; [by intros s m s' [= _ <-]|]. intros blocked.
  apply look_winds; [apply peek_same|]. intros m. apply unless_held_winds; [set_solver|].
  case_decide; [apply access_winds|]. apply winds_down_bind; [apply quiet_reads|]. intros entry.
  case_decide; [apply event_winds|apply winds_down_idle].
Qed.

(** *** The loop *)

Lemma l1_loop_ends s : l1_ok sys s → ∃ N, ∀ fuel, (N ≤ fuel)%nat →
  avoids stuck (wakeup sys counts junk dirs cfg now rt cooldown fuel s).
Proof.
  intros Hs. apply (wakeup_loop_ends abs input_buffers now _ _ _ _ (l1_ok sys)); [| | | |done].
  - intros rank. apply ok_on_abs. by apply triple_modS.
  - intros rank. by intros s1 x s2 [= <- <-].
  - apply ok_wake_next_cycle.
  - intros rank code Hin. split; [by eapply safe_ports|]. unfold ports in Hin.
    repeat (apply elem_of_cons in Hin as [[= -> ->]|Hin]; [first [apply atomic_winds|apply response_winds
      |by apply request_winds; set_solver|apply mandatory_winds]|]). by apply elem_of_nil in Hin.
Qed.

(** C15: every wakeup ends.  At an edge of the clock of the controller, in any state that a
    run from empty caches reaches, there is a number of iterations after which the loop has
    ended, although iterations that put a message off are not counted against its bound;
    no inner loop runs on, and no null pointer is followed on the way. *)
Theorem l1_wakeup_ends s0 s : l1_fresh sys s0 → rtc (l1_step sys counts junk dirs cfg) s0 s →
  (∀ id b, id ∈ input_buffers → AbstractController.buffers (abs s) !! id = Some b →
     in_step now (MessageBuffer.conf b)) →
  ∃ N, ∀ fuel, (N ≤ fuel)%nat →
    wakeup sys counts junk dirs cfg now rt cooldown fuel s ≠ Err OutOfFuel ∧
    wakeup sys counts junk dirs cfg now rt cooldown fuel s ≠ Err NullDeref.
Proof.
  intros Hf Hr Hedge. destruct (l1_loop_ends s) as [N HN].
  { destruct (l1_steps_ok sys counts junk dirs cfg s0 s (fresh_ok sys s0 Hf) Hr)
      as [(Hd & Hi & Hc & Hrest) Hl].
    split; [|done]. split; [done|]. split; [done|]. split; [|done]. intros id b Hb.
    split; [by apply (Hc id)|]. intros Hin. by apply (Hedge id). }
  exists N. intros fuel Hfu. specialize (HN fuel Hfu). destruct (wakeup _ _ _ _ _ _ _ _ _ _) as [x|f]; [done|].
  split; intros [= ->]; by apply HN.
Qed.

End progress.

(** The load of [demo_missing] is still on its way when the controller wakes up again. *)
Lemma l1_wakeup_ends_witness : ∃ N, ∀ fuel, (N ≤ fuel)%nat →
  wakeup sys64 [1; 1; 0] 0 demo_statics demo_cfg 6 0 false fuel demo_missing ≠ Err OutOfFuel ∧
  wakeup sys64 [1; 1; 0] 0 demo_statics demo_cfg 6 0 false fuel demo_missing ≠ Err NullDeref.
Proof.
  apply (l1_wakeup_ends sys64 [1; 1; 0] 0 demo_statics demo_cfg 6 0 false demo_l1 demo_missing);
    [exact demo_fresh|exact demo_run|].
  intros id b Hin Hb. assert (MessageBuffer.conf b = MessageBuffer.conf mandatory) as ->.
  { assert (Forall (λ i, MessageBuffer.conf <$> AbstractController.buffers (abs demo_missing) !! i =
      Some (MessageBuffer.conf mandatory)) input_buffers) as Hall
      by (repeat constructor; vm_compute; reflexivity).
    rewrite Forall_forall in Hall. specialize (Hall id Hin). rewrite Hb in Hall. by injection Hall. }
  intros sd r [= <-] [= <-]. done.
Defined.
