(* ===== verification/Coherence.v ===== *)
(** * Coherence of the protocol (the tables of [MsiTables] composed)

    One line of memory, the caches that share it and its directory.  Every
    state change is a transition of the tables of the source; the queues
    between the controllers are lists.  The bus delivers a request to all caches
    and to the directory in one step, as the arbiter grants the bus to one core
    at a time.  How long the steps take against each other is a parameter,
    [timing]: whether the answers to one request are finished before the bus is
    granted again.  Locked read-modify-writes and instruction fetches are not
    among the processor events considered here. *)

From S2P Require Import Prelude MsiTables.

Module System.

(** What an in_port of the L1 cache triggers for a request on the bus; [own]
    is [in_msg.Requestor == machineID].  A type without a case triggers
    nothing. *)
Definition bus_event (own : bool) (ty : CoherenceRequestType) : option L1Cache.Event :=
  match ty with
  | Request_GETS => Some (if own then L1Cache.Event_OWN_GETS else L1Cache.Event_Other_GETS)
  | Request_INV => Some L1Cache.Event_INV
  | Request_GETI => Some (if own then L1Cache.Event_OWN_GETI else L1Cache.Event_Other_GETI)
  | Request_UPG => Some (if own then L1Cache.Event_OWN_UPG else L1Cache.Event_Other_UPG)
  | Request_GETM | Request_GETX =>
      Some (if own then L1Cache.Event_OWN_GETM else L1Cache.Event_Other_GETM)
  | Request_GETMA =>
      Some (if own then L1Cache.Event_OWN_GETM else L1Cache.Event_Other_GETM_Approx)
  | Request_PUTM => Some (if own then L1Cache.Event_OWN_PUTM else L1Cache.Event_Other_PUTM)
  | _ => None
  end.

(** What the in_ports of the directory do with a request: trigger an event,
    drop a write-back that is not from the owner, or fail. *)
Inductive dir_response : Set :=
  | Trigger (e : Directory.Event)
  | Drop
  | Invalid_message.

Definition directory_event (from_owner : bool) (ty : CoherenceRequestType) : dir_response :=
  match ty with
  | Request_GETS | Request_GETI => Trigger Directory.Event_GETS
  | Request_GETM => Trigger (if from_owner then Directory.Event_GETMO else Directory.Event_GETM)
  | Request_UPG => Trigger Directory.Event_UPG
  | Request_PUTM => if from_owner then Trigger Directory.Event_PUTM else Drop
  | _ => Invalid_message
  end.

Section system.
(** The contents of a line. *)
Context {V : Type}.

(** A cache: its state for the line, the requests and the number of write-backs
    it has queued for the bus, its copy, and the data on its way to it.  A
    request carries whether it is a side packet. *)
Record cache := mkCache {
  st : L1Cache.State;
  requests : list (CoherenceRequestType * bool);
  writebacks : nat;
  block : V;
  responses : list V }.

Inductive mem_op : Type :=
  | MemRead (requestor : nat)
  | MemWrite (d : V).

(** The directory with the requests it stalled, the memory behind it with its
    queue, and the write-back data on its way. *)
Record directory := mkDir {
  dst : Directory.State;
  owner : option nat;
  stalled : list (CoherenceRequestType * nat);
  memory_queue : list mem_op;
  data_in : list V;
  memory : V }.

(** [latest] is the value of the last store; no transition reads it. *)
Record t := mkSys { caches : list cache; dir : directory; latest : V }.

(** *** Caches *)

(** The effect of a transition: the cache, the write-back data it sent, the
    values its processor saw, and whether its processor stored. *)
Record turn := mkTurn { self : cache; sent : list V; seen : list V; wrote : bool }.

Definition issue (x : turn) (ty : CoherenceRequestType) (side : bool) : turn :=
  let c := self x in
  mkTurn (mkCache (st c) (requests c ++ [(ty, side)]) (writebacks c) (block c) (responses c))
    (sent x) (seen x) (wrote x).

Definition issue_wb (x : turn) : turn :=
  let c := self x in
  mkTurn (mkCache (st c) (requests c) (S (writebacks c)) (block c) (responses c))
    (sent x) (seen x) (wrote x).

Definition with_block (x : turn) (v : V) : turn :=
  let c := self x in
  mkTurn (mkCache (st c) (requests c) (writebacks c) v (responses c))
    (sent x) (seen x) (wrote x).

(** [incoming] is the data of the response at the head of its queue, [w] what the
    processor leaves in the line when it stores. *)
Definition act (incoming : option V) (w : V) (x : turn) (a : L1Cache.action) : turn :=
  match a with
  | L1Cache.as_issueGETSMem => issue x Request_GETS false
  | L1Cache.ai_issueGETINSTR => issue x Request_GETI false
  | L1Cache.bm_issueGETM | L1Cache.bam_issueGETM => issue x Request_GETM false
  | L1Cache.bm_issueGETMR => issue x Request_GETM true
  | L1Cache.bm_issueUpg => issue x Request_UPG false
  | L1Cache.bpm_issuePUTM | L1Cache.bpm_issuePUTMR | L1Cache.bpm_issuePUTMD => issue_wb x
  | L1Cache.cc_sendDataCacheToDir | L1Cache.ct_sendDataTBEToDir =>
      mkTurn (self x) (sent x ++ [block (self x)]) (seen x) (wrote x)
  | L1Cache.u_writeDataToL1Cache => with_block x (default (block (self x)) incoming)
  | L1Cache.r_load_hit | L1Cache.rx_load_hit =>
      mkTurn (self x) (sent x) (seen x ++ [block (self x)]) (wrote x)
  | L1Cache.s_store_hit | L1Cache.sx_store_hit
  | L1Cache.sx_atomic_store_hit_set | L1Cache.sx_atomic_store_hit_unset =>
      with_block (mkTurn (self x) (sent x) (seen x ++ [block (self x)]) true) w
  | _ => x
  end.

(** [doTransition] for the line; [None] is the [fatal] of a missing case. *)
Definition cache_event (incoming : option V) (w : V) (c : cache) (e : L1Cache.Event)
    : option turn :=
  p ← L1Cache.find_transition (st c) e;
  let x := foldl (act incoming w) (mkTurn c [] [] false) p.2 in
  let c := self x in
  Some (mkTurn (mkCache p.1 (requests c) (writebacks c) (block c) (responses c))
          (sent x) (seen x) (wrote x)).

(** A request of cache [i] reaches every cache. *)
Definition broadcast (w : V) (i : nat) (ty : CoherenceRequestType) (cs : list cache)
    : option (list turn) :=
  mapM id (imap (λ j c, e ← bus_event (bool_decide (j = i)) ty; cache_event None w c e) cs).

(** *** Directory *)

(** The effect of a transition: the directory, whether the message left its
    queue, whether the stalled requests are woken, and the data sent. *)
Record dturn := mkDturn {
  dself : directory;
  popped : bool;
  woken : bool;
  delivered : list (nat * V) }.

Definition with_dself (x : dturn) (d : directory) : dturn :=
  mkDturn d (popped x) (woken x) (delivered x).
Definition pop (x : dturn) : dturn := mkDturn (dself x) true (woken x) (delivered x).
Definition with_owner (d : directory) (o : option nat) : directory :=
  mkDir (dst d) o (stalled d) (memory_queue d) (data_in d) (memory d).
Definition with_stalled (d : directory) (l : list (CoherenceRequestType * nat)) : directory :=
  mkDir (dst d) (owner d) l (memory_queue d) (data_in d) (memory d).
Definition with_queue (d : directory) (l : list mem_op) : directory :=
  mkDir (dst d) (owner d) (stalled d) l (data_in d) (memory d).
Definition with_data_in (d : directory) (l : list V) : directory :=
  mkDir (dst d) (owner d) (stalled d) (memory_queue d) l (memory d).
Definition with_memory (d : directory) (v : V) : directory :=
  mkDir (dst d) (owner d) (stalled d) (memory_queue d) (data_in d) v.
Definition with_dst (d : directory) (s : Directory.State) : directory :=
  mkDir s (owner d) (stalled d) (memory_queue d) (data_in d) (memory d).

(** [ty] and [req] are the type and the requestor of the message, [incoming] its
    data. *)
Definition dact (ty : CoherenceRequestType) (req : nat) (incoming : option V)
    (x : dturn) (a : Directory.action) : dturn :=
  let d := dself x in
  match a with
  | Directory.c_clearOwner => with_dself x (with_owner d None)
  | Directory.e_ownerIsRequestor => with_dself x (with_owner d (Some req))
  | Directory.qf_queueMemoryFetchRequest =>
      with_dself x (with_queue d (memory_queue d ++ [MemRead req]))
  | Directory.qw_queueMemoryWBRequest =>
      with_dself x (with_queue d (memory_queue d ++ from_option (λ v, [MemWrite v]) [] incoming))
  | Directory.d_sendData =>
      mkDturn d true (woken x) (delivered x ++ from_option (λ v, [(req, v)]) [] incoming)
  | Directory.z_stallAndWaitRequest => pop (with_dself x (with_stalled d (stalled d ++ [(ty, req)])))
  | Directory.kd_wakeUpDependents => mkDturn d (popped x) true (delivered x)
  | Directory.j_popIncomingRequestQueue | Directory.j_popIncomingRequestWBQueue
  | Directory.k_popIncomingResponseQueue | Directory.l_popMemQueue => pop x
  | _ => x
  end.

Definition dir_event (ty : CoherenceRequestType) (req : nat) (incoming : option V)
    (d : directory) (e : Directory.Event) : option dturn :=
  p ← Directory.find_transition (dst d) e;
  let x := foldl (dact ty req incoming) (mkDturn d false false []) p.2 in
  Some (with_dself x (with_dst (dself x) p.1)).

(** A request stays at the head of its queue until a transition takes it; two
    transitions are enough, the first of which moves [M] to [M_D]. *)
Fixpoint serve (fuel : nat) (d : directory) (ty : CoherenceRequestType) (req : nat)
    : option directory :=
  match fuel with
  | O => None
  | S fuel =>
      match directory_event (bool_decide (owner d = Some req)) ty with
      | Trigger e =>
          x ← dir_event ty req None d e;
          if popped x then Some (dself x) else serve fuel (dself x) ty req
      | Drop => Some d
      | Invalid_message => None
      end
  end.

(** The stalled requests return to the queue in their order. *)
Fixpoint serve_all (d : directory) (l : list (CoherenceRequestType * nat)) : option directory :=
  match l with
  | [] => Some d
  | r :: l => d ← serve 2 d r.1 r.2; serve_all d l
  end.

Definition wake (x : dturn) : option directory :=
  if woken x then serve_all (with_stalled (dself x) []) (stalled (dself x)) else Some (dself x).

(** *** Steps *)

(** Which answers are finished before the bus is granted again: write-back data
    at the directory, accesses to memory, and side packets. *)
Record timing := mkTiming { data_in_slot : bool; memory_in_slot : bool; side_in_slot : bool }.

Inductive label : Type :=
  | Processor (i : nat) (e : L1Cache.Event)
  | Grant (i : nat)
  | Grant_writeback (i : nat)
  | Data_to_directory
  | Memory_done
  | Data_to_cache (i : nat).

(** [Blocked]: the step is not possible now.  [Fatal]: the simulator stops with
    an invalid transition.  Otherwise the new state and what processors saw. *)
Inductive result : Type :=
  | Blocked
  | Fatal
  | Next (s : t) (observed : list (nat * V)).

Definition side_pending (c : cache) : bool := existsb snd (requests c).
Definition is_nil {A} (l : list A) : bool := match l with [] => true | _ => false end.

Definition bus_free (T : timing) (s : t) (i : nat) : bool :=
  (negb (data_in_slot T) || is_nil (data_in (dir s))) &&
  (negb (memory_in_slot T) || is_nil (memory_queue (dir s))) &&
  (negb (side_in_slot T) ||
   forallb id (imap (λ j c, bool_decide (j = i) || negb (side_pending c)) (caches s))).

(** The states in which a request of the processor for the line is outstanding: it missed, and its
    load or store has not been done yet ([outstanding_until_hit] shows that of the table). *)
Definition outstanding (s : L1Cache.State) : bool :=
  match s with
  | L1Cache.State_NP | L1Cache.State_I | L1Cache.State_S | L1Cache.State_M | L1Cache.State_M_I
  | L1Cache.State_MI_A | L1Cache.State_MS_A | L1Cache.State_II_A | L1Cache.State_I_I
  | L1Cache.State_MS_WB | L1Cache.State_MI_WB | L1Cache.State_M_L => false
  | _ => true
  end.

(** The processor events considered.  The sequencer lets one request be outstanding and answers
    all others with [BufferFull]: in the states above neither the line is accessed nor can a
    request for another line replace it.  A line that is not cached is not replaced. *)
Definition processor_event (s : L1Cache.State) (e : L1Cache.Event) : bool :=
  negb (outstanding s) &&
  match e with
  | L1Cache.Event_Load | L1Cache.Event_Store => true
  | L1Cache.Event_Replacement => bool_decide (s ≠ L1Cache.State_I)
  | _ => false
  end.

Definition is_processor (l : label) : bool :=
  match l with Processor _ _ => true | _ => false end.

(** One cache made a transition. *)
Definition cache_moved (s : t) (w : V) (i : nat) (o : option turn) : result :=
  match o with
  | None => Fatal
  | Some x =>
      Next (mkSys (<[i := self x]> (caches s))
              (with_data_in (dir s) (data_in (dir s) ++ sent x))
              (if wrote x then w else latest s))
           (map (λ v, (i, v)) (seen x))
  end.

(** The bus carries a request of cache [i]; [c] is the cache without it. *)
Definition bus_moved (s : t) (w : V) (i : nat) (c : cache) (ty : CoherenceRequestType) : result :=
  match broadcast w i ty (<[i := c]> (caches s)), serve 2 (dir s) ty i with
  | Some xs, Some d =>
      Next (mkSys (map self xs)
              (with_data_in d (data_in d ++ concat (map sent xs)))
              (if existsb wrote xs then w else latest s))
           (concat (imap (λ j x, map (λ v, (j, v)) (seen x)) xs))
  | _, _ => Fatal
  end.

(** Data of the directory is on its way to caches. *)
Definition deliver (cs : list cache) (l : list (nat * V)) : list cache :=
  foldl (λ cs p, alter (λ c, mkCache (st c) (requests c) (writebacks c) (block c)
                               (responses c ++ [p.2])) p.1 cs) cs l.

(** The directory made a transition. *)
Definition directory_moved (s : t) (o : option dturn) : result :=
  match o with
  | None => Fatal
  | Some x =>
      match wake x with
      | None => Fatal
      | Some d => Next (mkSys (deliver (caches s) (delivered x)) d (latest s)) []
      end
  end.

(** [w] is what a processor that stores in this step leaves in the line.  The
    messages of the memory and of write-back data have no request type. *)
Definition exec (T : timing) (s : t) (l : label) (w : V) : result :=
  match l with
  | Processor i e =>
      match caches s !! i with
      | Some c =>
          if processor_event (st c) e then cache_moved s w i (cache_event None w c e) else Blocked
      | None => Blocked
      end
  | Grant i =>
      match caches s !! i with
      | Some (mkCache a ((ty, _) :: rs) n v ds) =>
          if bus_free T s i then bus_moved s w i (mkCache a rs n v ds) ty else Blocked
      | _ => Blocked
      end
  | Grant_writeback i =>
      match caches s !! i with
      | Some (mkCache a rs (S n) v ds) =>
          if bus_free T s i then bus_moved s w i (mkCache a rs n v ds) Request_PUTM else Blocked
      | _ => Blocked
      end
  | Data_to_directory =>
      match data_in (dir s) with
      | v :: vs =>
          directory_moved s (dir_event Request_WB_ACK 0 (Some v)
            (with_data_in (dir s) vs) Directory.Event_Data)
      | [] => Blocked
      end
  | Memory_done =>
      match memory_queue (dir s) with
      | MemWrite v :: q =>
          directory_moved s (dir_event Request_WB_ACK 0 None
            (with_memory (with_queue (dir s) q) v) Directory.Event_Memory_Ack)
      | MemRead r :: q =>
          directory_moved s (dir_event Request_WB_ACK r (Some (memory (dir s)))
            (with_queue (dir s) q) Directory.Event_Memory_Data)
      | [] => Blocked
      end
  | Data_to_cache i =>
      match caches s !! i with
      | Some (mkCache a rs n v (d :: ds)) =>
          cache_moved s w i (cache_event (Some d) w (mkCache a rs n v ds) L1Cache.Event_Data)
      | _ => Blocked
      end
  end.

(** [n] caches without the line. *)
Definition initial (n : nat) (v : V) : t :=
  mkSys (replicate n (mkCache L1Cache.State_I [] 0 v []))
    (mkDir Directory.State_I None [] [] [] v) v.

Inductive step (T : timing) (s : t) : t → Prop :=
  | step_exec l w s' obs : exec T s l w = Next s' obs → step T s s'.

Definition reachable (T : timing) (n : nat) (v : V) (s : t) : Prop := rtc (step T) (initial n v) s.

End system.
Arguments cache : clear implicits.
Arguments directory : clear implicits.
Arguments t : clear implicits.
Arguments turn : clear implicits.
Arguments dturn : clear implicits.
Arguments result : clear implicits.
Arguments mem_op : clear implicits.
Arguments mkCache {V}.
Arguments mkSys {V}.

(** Everything a request causes at the directory and at the memory, and the side
    packet of a lost upgrade, is done before the next grant. *)
Definition in_slot : timing := mkTiming true true true.

(** A run of labels, with the values the processors store. *)
Fixpoint run {V} (T : timing) (s : t V) (ls : list (label * V)) : result V :=
  match ls with
  | [] => Next s []
  | (l, w) :: ls => match exec T s l w with Next s' _ => run T s' ls | r => r end
  end.

(** A processor event that hits: a load that returns, a store that completes. *)
Definition load_hits (s : L1Cache.State) : bool :=
  from_option (λ p, bool_decide (L1Cache.rx_load_hit ∈ p.2)) false
    (L1Cache.find_transition s L1Cache.Event_Load).
Definition store_hits (s : L1Cache.State) : bool :=
  from_option (λ p, bool_decide (L1Cache.sx_store_hit ∈ p.2)) false
    (L1Cache.find_transition s L1Cache.Event_Store).

End System.
