(* ===== verification/L1Moves.v ===== *)
(** * What the actions of the cache controller move

    An action changes the copy of its line in a cache or in the transaction entry, puts
    messages into the queues to the network, takes the message that caused it, and calls
    the processor back.  Here each action of [L1Controller] is shown to do to these what
    the same action does to a cache of [Coherence]. *)

From S2P Require Import Prelude Triples IntMath Addresses NodeSets Destinations Clocks StdHeap Buffers Arbiter.
From S2P Require Import SlotTimes Blocks Policies Caches Tables MsiTables Controllers DirectoryMemory.
From S2P Require Import Messages Sequencer Machines L1Controller Pointers Contents Progress L1Safety L1Progress.
From S2P Require Import Coherence.
Import RubySlicc_Util L1Controller.
Local Open Scope Z_scope.
Local Open Scope triple_scope.

Create HintDb moves discriminated.

(** Code that ends without a fault takes [P] to [Q]. *)
#[local] Abbreviation partial P p Q := (triple (λ _, False) P p Q).

Lemma avoids_none {A} (o : outcome A) : avoids (λ _, False) o.
Proof. destruct o; [done|by intros []]. Qed.
#[export] Hint Resolve avoids_none : core.

(** ** Copies *)

Section copies.
Context {W : Wired} (sys : RubySystem.t).
Implicit Types (s : t) (a b : Z) (d : bool).

(** The bytes of a block that belong to the line. *)
Definition bytes_of (blk : DataBlock.t) : list Z := take (DataBlock.size sys) (DataBlock.m_data blk).

Lemma assign_bytes (blk obj blk' : DataBlock.t) :
  DataBlock.assign_from sys blk obj = Ok blk' → bytes_of blk' = bytes_of obj.
Proof.
  unfold DataBlock.assign_from, copy_in. intros (l & Hl & [= <-])%bind_Ok. unfold bytes_of, DataBlock.size. cbn.
  destruct (decide _) as [(_ & H1 & H2 & H3)|]; [|done]. injection Hl as <-. cbn [take app].
  set (n := Z.to_nat (RubySystem.getBlockSizeBytes sys)) in *.
  rewrite take_app_le by (rewrite length_take; lia). by rewrite take_take, Nat.min_id.
Qed.

(** The copies of a line, in the caches and in the transaction table. *)
Definition block_in (e : AbstractCacheEntry.t Entry) : list Z := bytes_of (DataBlk (AbstractCacheEntry.data e)).
Definition copy s d b : option (list Z) := block_in <$> contents_at (cache_of s d) b.
Definition tbe_copy s b : option (list Z) := (λ x, bytes_of (tbe_DataBlk x)) <$> TBETable.lookup (TBEs s) b.

(** What the sequencer waits for, and what it has told its processor. *)
Definition dialogue s : gmap Z SequencerRequest * gmap Z SequencerRequest * list completion :=
  let q := sequencer (base s) in
  (Sequencer.m_writeRequestTable q, Sequencer.m_readRequestTable q, Sequencer.completions q).

(** The caches, the transactions, the dialogue with the processor and the name of the
    machine are as they were. *)
Definition same s s' : Prop :=
  (∀ d b, copy s' d b = copy s d b) ∧ (∀ b, tbe_copy s' b = tbe_copy s b) ∧
  dialogue s' = dialogue s ∧ m_machineID s' = m_machineID s.

(** The queues are as they were, too. *)
Definition still s s' : Prop :=
  same s s' ∧ AbstractController.buffers (abs s') = AbstractController.buffers (abs s).

Lemma same_refl s : same s s.
Proof. done. Qed.
Lemma copy_still_refl s : still s s.
Proof. done. Qed.

Lemma still_modS (g : t → t) s u s' :
  (∀ s, base (g s) = base s ∧ TBEs (g s) = TBEs s ∧ m_machineID (g s) = m_machineID s) →
  modS g s = Ok (u, s') → still s s'.
Proof.
  intros Hg [= _ <-]. destruct (Hg s) as (Hb & Ht & Hm).
  unfold still, same, copy, tbe_copy, dialogue, cache_of, abs. by rewrite Hb, Ht, Hm.
Qed.

Lemma on_abs_same {A} (p : prog (AbstractController.t payload) A) s x s' : on_abs p s = Ok (x, s') →
  p (abs s) = Ok (x, abs s') ∧ same s s'.
Proof. intros (c & Hp & ->)%on_abs_Ok. done. Qed.

Lemma update_tbe_inv (p : option Z) g s u s' : update_tbe p g s = Ok (u, s') →
  ∃ a x, p = Some a ∧ TBETable.lookup (TBEs s) a = Some x ∧ s' = with_TBEs s (TBETable.update_entry (TBEs s) a g).
Proof.
  unfold update_tbe. intros (a & Hp & H1)%bind_Ok. destruct p as [a'|]; [|done]. injection Hp as ->.
  apply bind_Ok in H1 as (x & Hx & [= _ <-]). destruct (TBETable.lookup _ a) as [y|] eqn:E; [|done]. by exists a, y.
Qed.

Lemma tbe_copy_update s a x g b : TBETable.lookup (TBEs s) a = Some x →
  tbe_copy (with_TBEs s (TBETable.update_entry (TBEs s) a g)) b =
  if decide (b = a) then Some (bytes_of (tbe_DataBlk (g x))) else tbe_copy s b.
Proof.
  intros Hx. unfold tbe_copy. cbn. rewrite lookup_update_tbe. case_decide as E; [|done]. subst b. by rewrite Hx.
Qed.

Lemma still_update_tbe p g s u s' : (∀ x, tbe_DataBlk (g x) = tbe_DataBlk x) →
  update_tbe p g s = Ok (u, s') → still s s'.
Proof.
  intros Hg (a & x & -> & Hx & ->)%update_tbe_inv. split; [|done]. split_and!; [done| |done|done].
  intros b. rewrite (tbe_copy_update s a x) by done. case_decide as E; [|done]. subst b.
  unfold tbe_copy. by rewrite Hx, Hg.
Qed.

Lemma with_cache_copy s d c d' b : copy (with_cache_of s d c) d' b =
  if decide (d' = d) then block_in <$> contents_at c b else copy s d' b.
Proof. unfold copy, with_cache_of, cache_of. destruct d', d; by case_decide. Qed.

(** A write through the pointer of an entry. *)
Lemma update_entry_inv a s0 sh g s u s' : line sys a → within sys a s0 sh s →
  (∀ e, AbstractCacheEntry.m_Address (g e) = AbstractCacheEntry.m_Address e) →
  (∀ e, AbstractCacheEntry.m_Permission e ≠ NotPresent → AbstractCacheEntry.m_Permission (g e) ≠ NotPresent) →
  update_entry sys (entry_ptr a sh) g s = Ok (u, s') →
  ∃ d e c, in_cache sh = Some d ∧ contents_at (cache_of s d) a = Some e ∧ s' = with_cache_of s d c ∧
    ∀ b, block_in <$> contents_at c b = if decide (b = a) then Some (block_in (g e)) else copy s d b.
Proof.
  intros Ha Hs Hga Hgp. unfold update_entry, entry_ptr. destruct (in_cache sh) as [d|] eqn:Hd; [|done].
  cbn [fmap option_fmap option_map from_option_or mbind outcome_bind fst snd].
  pose proof (cache_of_ok sys s d (proj1 Hs)) as Hc. destruct (within_contents sys a s0 sh s d Hs Hd) as [e He].
  pose proof He as He'. apply (contents_iff sys) in He' as (i & _ & _ & Hea & Hep); [|done].
  destruct (update_entry_spec sys (cache_of s d) a g e) as (c' & -> & Hc' & Hcon);
    [done|done|done|by rewrite Hga|by apply Hgp|].
  cbn [mbind outcome_bind]. intros [= _ <-]. exists d, e, c'. split_and!; [done|done|done|].
  intros b. rewrite Hcon. by case_decide.
Qed.

Lemma update_data_inv a s0 sh g s u s' : line sys a → within sys a s0 sh s →
  update_data sys (entry_ptr a sh) g s = Ok (u, s') →
  ∃ d e c, in_cache sh = Some d ∧ contents_at (cache_of s d) a = Some e ∧ s' = with_cache_of s d c ∧
    ∀ b, block_in <$> contents_at c b =
      if decide (b = a) then Some (bytes_of (DataBlk (g (AbstractCacheEntry.data e)))) else copy s d b.
Proof. intros Ha Hs. by apply (update_entry_inv a s0). Qed.

Lemma still_update_entry a s0 sh g s u s' : (∀ e, block_in (g e) = block_in e) → line sys a →
  within sys a s0 sh s → (∀ e, AbstractCacheEntry.m_Address (g e) = AbstractCacheEntry.m_Address e) →
  (∀ e, AbstractCacheEntry.m_Permission e ≠ NotPresent → AbstractCacheEntry.m_Permission (g e) ≠ NotPresent) →
  update_entry sys (entry_ptr a sh) g s = Ok (u, s') → still s s'.
Proof.
  intros Hg Ha Hs Hga Hgp (d & e & c & Hd & He & -> & Hc)%(update_entry_inv a s0); [|done..].
  assert (∀ d' b, copy (with_cache_of s d c) d' b = copy s d' b) as Hcopy.
  { intros d' b. rewrite with_cache_copy. case_decide as E; [|done]. subst d'. rewrite Hc.
    case_decide as E; [|done]. subst b. unfold copy. by rewrite He, Hg. }
  unfold still, same, dialogue, abs. by destruct d.
Qed.

Lemma still_update_data a s0 sh g s u s' : (∀ e, DataBlk (g e) = DataBlk e) → line sys a →
  within sys a s0 sh s → update_data sys (entry_ptr a sh) g s = Ok (u, s') → still s s'.
Proof.
  intros Hg Ha Hs. apply (still_update_entry a s0); [|done..]. intros e. unfold block_in. cbn. by rewrite Hg.
Qed.

End copies.

(** ** What is known during a transition *)

(** Whether the heads of the queues are as they were when the transition started, whether
    the transaction entry has the block of the line, whether the entry was given up,
    whether the processor was called, and the queues whose head was taken. *)
Record progress := mkProgress {
  intact : bool; fresh : bool; freed : bool; called : bool; taken : list Z }.

Definition disturbed (fl : progress) : progress := mkProgress false (fresh fl) (freed fl) (called fl) (taken fl).
Definition stale (fl : progress) : progress := mkProgress (intact fl) false (freed fl) (called fl) (taken fl).
Definition freshened (fl : progress) : progress := mkProgress (intact fl) true (freed fl) (called fl) (taken fl).
Definition took (q : Z) (fl : progress) : progress :=
  mkProgress false (fresh fl) (freed fl) (called fl) (taken fl ++ [q]).
Definition gave_up (fl : progress) : progress := mkProgress (intact fl) false true (called fl) (taken fl).
Definition answered (fl : progress) : progress := mkProgress (intact fl) false (freed fl) true (taken fl).

(** The queue whose head an action takes. *)
Definition takes (a : L1Cache.action) : option Z :=
  match a with
  | L1Cache.k_popMandatoryQueue | L1Cache.setStartTime | L1Cache.setStartTimeCE => Some mandatoryQueue
  | L1Cache.calcLatencyProfile | L1Cache.o_popIncomingResponseQueue => Some responseToCache
  | L1Cache.l_popRequestQueue | L1Cache.setFirstScheduledTime | L1Cache.setFirstScheduledTimeCE =>
      Some requestToCache
  | L1Cache.l_popRequestWBQueue => Some requestToCacheWB
  | L1Cache.l_popAtomicRequestQueue => Some atomicRequestToCache
  | _ => None
  end.

(** What an action needs to be known, and what is known after it; [None]: the action would
    look at something else than the message that caused it, or call the processor twice. *)
Definition progress_act (a : L1Cache.action) (fl : progress) : option progress :=
  match a with
  | L1Cache.u_writeDataToL1Cache => if intact fl then Some (stale fl) else None
  | L1Cache.z_stallAndWaitMandatoryQueue | L1Cache.z_stallAndWaitRequestQueue
  | L1Cache.z_stallAndWaitRequestWBQueue | L1Cache.kd_wakeUpDependents
  | L1Cache.ka_wakeUpAllDependents => Some (disturbed fl)
  | L1Cache.ct_sendDataTBEToDir => if fresh fl then Some fl else None
  | L1Cache.r_load_hit | L1Cache.rx_load_hit | L1Cache.s_store_hit | L1Cache.sx_store_hit
  | L1Cache.sx_atomic_store_hit_set | L1Cache.sx_atomic_store_hit_unset =>
      if called fl then None else Some (answered fl)
  | L1Cache.oo_allocateL1DCacheBlock | L1Cache.oo_allocateAtomicL1DCacheBlock
  | L1Cache.pp_allocateL1ICacheBlock => if freed fl then None else Some fl
  | L1Cache.ff_deallocateL1CacheBlock => Some (gave_up fl)
  | L1Cache.s_deallocateTBE => Some (stale fl)
  | L1Cache.i_allocateTBE | L1Cache.i_allocateAtomicTBE => Some (freshened fl)
  | L1Cache.bm_issueGETMA | L1Cache.cc_sendDataCacheToCache | L1Cache.unset_cache_entry => None
  | _ =>
      match takes a with
      | Some q => if intact fl then Some (took q fl) else None
      | None => Some fl
      end
  end.

Definition at_start : progress := mkProgress true false false false [].

Definition progress_run (acts : list L1Cache.action) : option progress :=
  foldl (λ o a, o ≫= progress_act a) (Some at_start) acts.

Definition writes_data (a : L1Cache.action) : bool :=
  bool_decide (a = L1Cache.u_writeDataToL1Cache).

(** The queue whose port triggers an event. *)
Definition queue_of (ev : L1Cache.Event) : Z :=
  match ev with
  | L1Cache.Event_OWN_PUTM | L1Cache.Event_Other_PUTM => requestToCacheWB
  | L1Cache.Event_Data | L1Cache.Event_Ack => responseToCache
  | L1Cache.Event_ATOMICST | L1Cache.Event_ATOMICEN => atomicRequestToCache
  | L1Cache.Event_OWN_GETS | L1Cache.Event_OWN_GETI | L1Cache.Event_OWN_GETM | L1Cache.Event_OWN_UPG
  | L1Cache.Event_Other_GETS | L1Cache.Event_Other_GETI | L1Cache.Event_Other_GETM
  | L1Cache.Event_Other_GETM_Approx | L1Cache.Event_Other_UPG | L1Cache.Event_INV => requestToCache
  | _ => mandatoryQueue
  end.

(** No transition of the table asks for more than is known; at most one message is taken, the
    one that caused it, and data is written for the event of a response only. *)
Definition step_known (st : L1Cache.State) (ev : L1Cache.Event) : bool :=
  match L1Cache.find_transition st ev with
  | Some (_, acts) =>
      match progress_run acts with
      | Some fl => bool_decide (taken fl = omap takes acts ∧ (taken fl = [] ∨ taken fl = [queue_of ev]))
      | None => false
      end && (negb (existsb writes_data acts) || bool_decide (ev = L1Cache.Event_Data))
  | None => true
  end.

Lemma all_steps_known st ev : step_known st ev = true.
Proof. destruct st; destruct ev; vm_compute; reflexivity. Qed.

(** ** A transition of a line *)

Section tracking.
Context {W : Wired} (sys : RubySystem.t) (counts : list Z) (junk : Z) (dirs : DirectoryMemory.statics).
Context (cfg : config) (now rt : Z) (cooldown : bool).
Context (a : Z) (Ha : line sys a) (s0 : t) (incoming : option (list Z)).
Implicit Types (s : t) (sh : shape) (fl : progress) (w : list Z) (x : System.turn (list Z)).

#[local] Abbreviation block x := (System.block (System.self x)).
#[local] Abbreviation bytes_of := (bytes_of sys).
#[local] Abbreviation copy := (copy sys).
#[local] Abbreviation tbe_copy := (tbe_copy sys).
#[local] Abbreviation within := (within sys a s0).
#[local] Abbreviation frame_ok := (frame_ok sys a s0).
#[local] Abbreviation me := (m_machineID s0).

(** The messages of the model. *)
Definition is_request (p : payload) (r : CoherenceRequestType * bool) : Prop :=
  ∃ m d, p = PRequest m ∧ RequestMsg.m_Addr m = a ∧ RequestMsg.m_Type m = r.1 ∧
    RequestMsg.m_Requestor m = me ∧ all_and_directory counts junk dirs a = Ok d ∧
    RequestMsg.m_Destination m = if r.2 then NetDest.makeSidePacket d else d.

Definition is_data (p : payload) (v : list Z) : Prop :=
  ∃ m, p = PResponse m ∧ ResponseMsg.m_Addr m = a ∧ ResponseMsg.m_Type m = Response_DATA_TO_WB ∧
    ResponseMsg.m_Sender m = me ∧ directory_only counts junk dirs a = Ok (ResponseMsg.m_Destination m) ∧
    bytes_of (ResponseMsg.m_DataBlk m) = v.

(** The messages sent are those of the turn, and locked accesses announced. *)
Definition carries (ins : list (Z * payload)) x : Prop :=
  Forall2 is_request (of_buffer requestFromCache ins) (System.requests (System.self x)) ∧
  Forall2 is_request (of_buffer requestFromCacheWB ins)
    (replicate (System.writebacks (System.self x)) (Request_PUTM, false)) ∧
  Forall2 is_data (of_buffer responseFromCache ins) (System.sent x) ∧
  Forall (λ m, m.1 ∉ input_buffers) ins.

(** The processor is told that an access to a line that held [v] is done, which left [v']. *)
Definition tells (v v' : list Z) (c : completion) : Prop :=
  ∃ r r' p p' blk blk',
    (Sequencer.m_readRequestTable (sequencer (base s0)) !! a = Some r ∨
     Sequencer.m_writeRequestTable (sequencer (base s0)) !! a = Some r) ∧
    bytes r' = bytes (pkt r) ∧ bytes_of blk = v ∧ bytes_of blk' = v' ∧
    move_data sys (m_type r) r' blk = Ok (p, blk') ∧ bytes p' = bytes p ∧
    c = if cooldown then NextFlushRequest else HitCallback p'.

(** No load of the processor waits for the line: then [readCallback] does nothing. *)
Definition not_reading : Prop := Sequencer.m_readRequestTable (sequencer (base s0)) !! a = None.

(** Where the transition is: the state is that of the turn [x], in which the processor
    leaves [w] if it stores. *)
Record tracks w x fl sh s : Prop := mkTracks {
  at_entry : ∀ d, in_cache sh = Some d → copy s d a = Some (block x);
  at_blank : in_cache sh = None → freed fl = false → block x = bytes_of (DataBlock.create sys);
  at_tbe : fresh fl = true → tbe_copy s a = Some (block x);
  elsewhere : ∀ b, b ≠ a → (∀ d, copy s d b = copy s0 d b) ∧ tbe_copy s b = tbe_copy s0 b;
  same_name : m_machineID s = me;
  in_order : sorted (abs s);
  heads : intact fl = true → ∀ q, q ∈ input_buffers → head_of (abs s) q = head_of (abs s0) q;
  mail : ∃ ins outs, carries ins x ∧ transfer ins outs (abs s0) (abs s) ∧
    Forall2 (λ o q, o.1 = q ∧ head_of (abs s0) q = Some o.2) outs (taken fl);
  told : if called fl
    then ∃ v, System.seen x = [v] ∧
      (System.wrote x = false ∧ dialogue s = dialogue s0 ∧ not_reading ∨
       ∃ c, (dialogue s).2 = (dialogue s0).2 ++ [c] ∧ tells v (if System.wrote x then w else v) c)
    else System.seen x = [] ∧ System.wrote x = false ∧ dialogue s = dialogue s0 }.

Definition tracked w x fl sh (f : frame) : Prop := frame_ok sh f ∧ tracks w x fl sh (self f).

Lemma tracks_still w x fl sh s s' : still sys s s' → tracks w x fl sh s → tracks w x fl sh s'.
Proof.
  intros [(Hc & Ht & Hd & Hm) Hb] [E1 E2 E3 E4 E5 E6 E7 E8 E9].
  assert (∀ q, head_of (abs s') q = head_of (abs s) q) as Hh by (intros q; unfold head_of; by rewrite Hb).
  assert (∀ q, holding (abs s') q = holding (abs s) q) as Hq by (intros q; unfold holding; by rewrite Hb).
  constructor.
  - intros d. rewrite Hc. apply E1.
  - done.
  - intros H. rewrite Ht. by apply E3.
  - intros b Hne. destruct (E4 b Hne) as [H1 H2]. split; [intros d; by rewrite Hc|by rewrite Ht].
  - congruence.
  - intros id b. rewrite Hb. apply E6.
  - intros H q Hin. rewrite Hh. by apply E7.
  - destruct E8 as (ins & outs & H1 & H2 & H3). exists ins, outs. split_and!; [done| |done].
    intros id. rewrite Hq. apply H2.
  - rewrite Hd. exact E9.
Qed.

(** *** Parts of an action *)

Definition on_line w x fl sh s : Prop := within sh s ∧ tracks w x fl sh s.

Lemma tracked_on_self {A} w w' x x' fl fl' sh (p : prog t A) :
  partial (on_line w x fl sh) p (λ _, on_line w' x' fl' sh) →
  partial (tracked w x fl sh) (on_self p) (λ _, tracked w' x' fl' sh).
Proof.
  intros Hp. eapply triple_zoom_frame; [exact Hp|by intros f [[? _] ?]|]. by intros f y s [[_ ?] _] [? ?].
Qed.

(** Code that changes nothing the model knows. *)
Lemma line_still {A} w x fl sh (p : prog t A) : {{ within sh }} p {{ λ _, within sh }} →
  (∀ s y s', within sh s → p s = Ok (y, s') → still sys s s') →
  partial (on_line w x fl sh) p (λ _, on_line w x fl sh).
Proof.
  intros Hsafe Hp. apply triple_partial. intros s y s' [Hs Ht] H1. split; [exact (triple_Ok _ _ _ _ _ _ _ Hsafe Hs H1)|].
  eapply tracks_still; [by eapply Hp|done].
Qed.

Lemma line_reads {A} w x fl sh (g : t → outcome A) : partial (on_line w x fl sh) (reads g) (λ _, on_line w x fl sh).
Proof. by apply keeps_reads. Qed.

Lemma line_mod_succ w x fl sh (g : t → t) :
  (∀ s, base (g s) = base s ∧ TBEs (g s) = TBEs s ∧ m_machineID (g s) = m_machineID s) →
  partial (on_line w x fl sh) (modS g) (λ _, on_line w x fl sh).
Proof.
  intros Hg. apply line_still; [apply safe_modS; intros s; split; apply Hg|]. intros s y s' _. by apply still_modS.
Qed.

Lemma line_update_data w x fl sh g : has_entry sh = true → (∀ e, DataBlk (g e) = DataBlk e) →
  partial (on_line w x fl sh) (update_data sys (entry_ptr a sh) g) (λ _, on_line w x fl sh).
Proof.
  intros Hsh Hg. apply line_still; [by apply safe_update_data|]. intros s y s' Hs. by eapply still_update_data.
Qed.

Lemma line_update_tbe w x fl sh g : has_tbe sh = true → (∀ e, tbe_DataBlk (g e) = tbe_DataBlk e) →
  partial (on_line w x fl sh) (update_tbe (tbe_ptr_of a sh) g) (λ _, on_line w x fl sh).
Proof.
  intros Hsh Hg. apply line_still; [by apply safe_update_tbe|]. intros s y s' Hs. by apply still_update_tbe.
Qed.

(** A message that the port of queue [q] sees. *)
Lemma line_peek {A} w x fl sh q (cast : payload → outcome A) : q ∈ buffer_ids →
  partial (on_line w x fl sh) (p ← on_abs (AbstractController.peek q); lift (cast p))
    (λ m s, on_line w x fl sh s ∧ ∃ p, head_of (abs s) q = Some p ∧ cast p = Ok m).
Proof.
  intros Hq. apply triple_partial. intros s m s' [Hs Ht] (p & s1 & H1 & [H2 ->]%lift_Ok)%prog_bind_Ok.
  apply on_abs_Ok in H1 as (c & [-> Hh]%peek_head & ->). destruct s as [[]]. split; [done|]. by exists p.
Qed.

(** Calls on the queues. *)
Lemma line_on_abs {A} w x x' fl fl' sh (p : prog (AbstractController.t payload) A) :
  {{ ctl_ok buffer_ids }} p {{ λ _, ctl_ok buffer_ids }} →
  (∀ s s', same sys s s' → within sh s → tracks w x fl sh s → ∀ y, p (abs s) = Ok (y, abs s') →
    tracks w x' fl' sh s') →
  partial (on_line w x fl sh) (on_abs p) (λ _, on_line w x' fl' sh).
Proof.
  intros Hsafe Hp. apply triple_partial. intros s y s' [Hs Ht] H1.
  split; [exact (triple_Ok _ _ _ _ _ _ _ (safe_on_abs sys a s0 sh p Hsafe) Hs H1)|]. apply (on_abs_same sys) in H1 as [H1 H2]. by eapply Hp.
Qed.

(** Messages move. *)
Lemma tracks_queues w x x' fl fl' sh s s' ins outs tk :
  same sys s s' → tracks w x fl sh s → transfer ins outs (abs s) (abs s') → sorted (abs s') →
  (block x', System.seen x', System.wrote x') = (block x, System.seen x, System.wrote x) →
  (∀ l, carries l x → carries (l ++ ins) x') →
  (fresh fl', freed fl', called fl', taken fl') = (fresh fl, freed fl, called fl, taken fl ++ tk) →
  (intact fl' = true → intact fl = true ∧ ∀ q, q ∈ input_buffers → head_of (abs s') q = head_of (abs s) q) →
  Forall2 (λ o q, o.1 = q ∧ head_of (abs s0) q = Some o.2) outs tk →
  tracks w x' fl' sh s'.
Proof.
  intros (Hc & Ht & Hd & Hm) [E1 E2 E3 E4 E5 E6 E7 E8 E9] Htr Hs [= Eb Es Ew] Hcar [= F1 F2 F3 F4] Hint Htk.
  constructor.
  - intros d. rewrite Hc, Eb. apply E1.
  - rewrite F2, Eb. done.
  - rewrite F1, Ht, Eb. done.
  - intros b Hne. destruct (E4 b Hne) as [H1 H2]. split; [intros d; by rewrite Hc|by rewrite Ht].
  - congruence.
  - done.
  - intros H q Hin. destruct (Hint H) as [H1 H2]. rewrite H2 by done. by apply E7.
  - destruct E8 as (ins0 & outs0 & H1 & H2 & H3). exists (ins0 ++ ins), (outs0 ++ outs).
    split_and!; [by apply Hcar|by eapply transfer_trans|]. rewrite F4. by apply Forall2_app.
  - rewrite F3, Hd, Es, Ew. exact E9.
Qed.

Lemma carries_nil l x : carries l x → carries (l ++ []) x.
Proof. by rewrite app_nil_r. Qed.

(** The messages stay where they are, in another order. *)
Lemma line_rearrange {A} w x fl sh (p : prog (AbstractController.t payload) A) :
  {{ ctl_ok buffer_ids }} p {{ λ _, ctl_ok buffer_ids }} →
  (∀ c y c', sorted c → p c = Ok (y, c') → transfer [] [] c c' ∧ sorted c') →
  partial (on_line w x fl sh) (on_abs p) (λ _, on_line w x (disturbed fl) sh).
Proof.
  intros Hsafe Hp. apply line_on_abs; [done|]. intros s s' Hsm _ Ht y H1.
  destruct (Hp _ _ _ (in_order _ _ _ _ _ Ht) H1) as [Htr Hso].
  apply (tracks_queues w x x fl _ sh s s' [] [] []); [done|done|done|done|done|intros l; apply carries_nil| |done|by constructor].
  cbn. by rewrite app_nil_r.
Qed.

Lemma line_dequeue w x fl sh q : q ∈ input_buffers → intact fl = true →
  partial (on_line w x fl sh) (on_abs (AbstractController.dequeue now q)) (λ _, on_line w x (took q fl) sh).
Proof.
  intros Hq Hint. apply line_on_abs.
  { apply safe_dequeue. apply buffer_known. unfold input_buffers in Hq. set_unfold.
    destruct Hq as [->|[->|[->|[->|[->|[]]]]]]; vm_compute; by split. }
  intros s s' Hsm _ Ht y (p & Hh & Htr & Hso)%dequeue_transfer.
  apply (tracks_queues w x x fl _ sh s s' [] [(q, p)] [q]); [done|done|done| |done|intros l; apply carries_nil|done|done|].
  - apply Hso, Ht.
  - repeat constructor. cbn. rewrite <- (heads _ _ _ _ _ Ht Hint q Hq). done.
Qed.

Lemma line_enqueue w x x' fl sh buf (m : t → payload) latency : buf ∈ buffer_ids → buf ∉ input_buffers →
  (block x', System.seen x', System.wrote x') = (block x, System.seen x, System.wrote x) →
  (∀ s l, m_machineID s = me → carries l x → carries (l ++ [(buf, m s)]) x') →
  partial (on_line w x fl sh) (λ s, enqueue_out sys now rt buf (m s) latency s) (λ _, on_line w x' fl sh).
Proof.
  intros Hb Hin Hx Hcar s Hs. unfold enqueue_out.
  refine (line_on_abs w x x' fl fl sh (AbstractController.enqueue sys now rt (ClockedObject.clockEdge now (clk s) 0)
    buf (m s) latency false) _ _ s Hs); [by apply safe_enqueue|].
  intros s1 s2 Hsm _ Ht y (Htr & Hso & Hh)%enqueue_transfer.
  apply (tracks_queues w x x' fl fl sh s1 s2 [(buf, m s)] [] []); [done|done|done| |done| | | |by constructor].
  - apply Hso, Ht.
  - intros l. apply Hcar. apply Hs.
  - by rewrite app_nil_r.
  - intros H. split; [done|]. intros q Hq. apply Hh. by intros ->.
Qed.

(** *** Messages *)

Lemma of_buffer_sent id q (m : payload) (l : list (Z * payload)) :
  of_buffer id (l ++ [(q, m)]) = of_buffer id l ++ if decide (q = id) then [m] else [].
Proof. rewrite of_buffer_app, of_buffer_cons. cbn. by destruct (decide (q = id)). Qed.

Lemma carries_request l x m ty side : is_request m (ty, side) → carries l x →
  carries (l ++ [(requestFromCache, m)]) (System.issue x ty side).
Proof.
  intros Hm (H1 & H2 & H3 & H4). split_and!; rewrite ?of_buffer_sent;
    rewrite ?decide_True, ?decide_False, ?app_nil_r by done; [by apply Forall2_app; [|constructor]|done|done|].
  apply Forall_app. split; [done|]. constructor; [|done]. cbn. unfold input_buffers. set_solver.
Qed.

Lemma carries_writeback l x m : is_request m (Request_PUTM, false) → carries l x →
  carries (l ++ [(requestFromCacheWB, m)]) (System.issue_wb x).
Proof.
  intros Hm (H1 & H2 & H3 & H4). split_and!; rewrite ?of_buffer_sent;
    rewrite ?decide_True, ?decide_False, ?app_nil_r by done; [done| |done|].
  - cbn [System.issue_wb System.self System.writebacks]. rewrite replicate_S_end. by apply Forall2_app; [|constructor].
  - apply Forall_app. split; [done|]. constructor; [|done]. cbn. unfold input_buffers. set_solver.
Qed.

(** The turn in which the block is sent. *)
Definition sending x : System.turn (list Z) :=
  System.mkTurn (System.self x) (System.sent x ++ [block x]) (System.seen x) (System.wrote x).

Lemma carries_data l x m : is_data m (block x) → carries l x → carries (l ++ [(responseFromCache, m)]) (sending x).
Proof.
  intros Hm (H1 & H2 & H3 & H4). split_and!; rewrite ?of_buffer_sent;
    rewrite ?decide_True, ?decide_False, ?app_nil_r by done; [done|done|by apply Forall2_app; [|constructor]|].
  apply Forall_app. split; [done|]. constructor; [|done]. cbn. unfold input_buffers. set_solver.
Qed.

Lemma carries_announcement l x m : carries l x → carries (l ++ [(atomicRequestFromCache, m)]) x.
Proof.
  intros (H1 & H2 & H3 & H4). split_and!; rewrite ?of_buffer_sent; rewrite ?decide_False, ?app_nil_r by done; [done..|].
  apply Forall_app. split; [done|]. constructor; [|done]. cbn. unfold input_buffers. set_solver.
Qed.

Lemma line_send_request w x x' fl sh buf ty dest b o : buf ∈ buffer_ids → buf ∉ input_buffers →
  (block x', System.seen x', System.wrote x') = (block x, System.seen x, System.wrote x) →
  (∀ l m, RequestMsg.m_Addr m = a → RequestMsg.m_Type m = ty → RequestMsg.m_Requestor m = me →
     RequestMsg.m_Destination m = dest → carries l x → carries (l ++ [(buf, PRequest m)]) x') →
  partial (on_line w x fl sh) (send_request sys junk cfg now rt buf ty a dest b o) (λ _, on_line w x' fl sh).
Proof.
  intros Hb Hin Hx Hcar. unfold send_request. destruct o as [r|];
    refine (line_enqueue w x x' fl sh buf (λ s, PRequest (RequestMsg.mk a ty (m_machineID s) dest b Size_Control 0 _ _ _))
      _ Hb Hin Hx _); intros s l Hs Hl; by apply Hcar.
Qed.

Lemma line_send_response w x fl sh dest b : directory_only counts junk dirs a = Ok dest → bytes_of b = block x →
  partial (on_line w x fl sh) (send_response sys cfg now rt Response_DATA_TO_WB a dest b)
    (λ _, on_line w (sending x) fl sh).
Proof.
  intros Hd Hb. unfold send_response.
  refine (line_enqueue w x (sending x) fl sh responseFromCache (λ s, PResponse (ResponseMsg.mk a Response_DATA_TO_WB
    (m_machineID s) dest b false Size_Control 0 0)) _ _ _ eq_refl _); [by apply buffer_known|unfold input_buffers; set_solver|].
  intros s l Hs. apply carries_data. by eexists.
Qed.

(** *** The copy of the line *)

(** The block of the line changes, and nothing else. *)
Lemma tracks_block w w' x x' fl fl' sh s s' :
  tracks w x fl sh s →
  (∀ d, in_cache sh = Some d → copy s' d a = Some (block x')) → is_Some (in_cache sh) →
  (∀ d b, b ≠ a → copy s' d b = copy s d b) → (∀ b, tbe_copy s' b = tbe_copy s b) →
  m_machineID s' = m_machineID s → AbstractController.buffers (abs s') = AbstractController.buffers (abs s) →
  (System.requests (System.self x'), System.writebacks (System.self x'), System.sent x') =
    (System.requests (System.self x), System.writebacks (System.self x), System.sent x) →
  fresh fl' = false → intact fl' = intact fl → taken fl' = taken fl →
  (if called fl'
   then ∃ v, System.seen x' = [v] ∧
      (System.wrote x' = false ∧ dialogue s' = dialogue s0 ∧ not_reading ∨
       ∃ c, (dialogue s').2 = (dialogue s0).2 ++ [c] ∧ tells v (if System.wrote x' then w' else v) c)
   else System.seen x' = [] ∧ System.wrote x' = false ∧ dialogue s' = dialogue s0) →
  tracks w' x' fl' sh s'.
Proof.
  intros [E1 E2 E3 E4 E5 E6 E7 E8 E9] Hat [d0 Hd0] Hne Ht Hm Hb [= X1 X2 X3] F1 F2 F3 Htold.
  assert (∀ q, head_of (abs s') q = head_of (abs s) q) as Hh by (intros q; unfold head_of; by rewrite Hb).
  constructor; [done|by rewrite Hd0|by rewrite F1| | | | | |done].
  - intros b Hb'. destruct (E4 b Hb') as [H1 H2]. split; [intros d; by rewrite Hne|by rewrite Ht].
  - congruence.
  - intros id b. rewrite Hb. apply E6.
  - intros H q Hin. rewrite Hh. apply E7; [congruence|done].
  - destruct E8 as (ins & outs & H1 & H2 & H3). exists ins, outs. split_and!.
    + unfold carries in *. by rewrite X1, X2, X3.
    + intros id. unfold holding. rewrite Hb. apply H2.
    + by rewrite F3.
Qed.

(** A write of the block through the pointer of the entry. *)
Lemma update_block w x fl sh g s u s' blk : within sh s → tracks w x fl sh s →
  (∀ e, DataBlk (g e) = blk) → update_data sys (entry_ptr a sh) g s = Ok (u, s') →
  (∀ d, in_cache sh = Some d → copy s' d a = Some (bytes_of blk)) ∧ is_Some (in_cache sh) ∧
  (∀ d b, b ≠ a → copy s' d b = copy s d b) ∧ (∀ b, tbe_copy s' b = tbe_copy s b) ∧
  m_machineID s' = m_machineID s ∧ abs s' = abs s ∧ dialogue s' = dialogue s.
Proof.
  intros Hs Ht Hg (d & e & c & Hd & He & -> & Hc)%(update_data_inv sys a s0); [|done|done]. split_and!.
  - intros d' Hd'. assert (d' = d) as -> by congruence. rewrite with_cache_copy, decide_True by done.
    by rewrite Hc, decide_True, Hg.
  - by exists d.
  - intros d' b Hne. rewrite with_cache_copy. case_decide as E; [|done]. subst d'. by rewrite Hc, decide_False.
  - by destruct d.
  - by destruct d.
  - by destruct d.
  - by destruct d.
Qed.

(** What the pointer of the entry reads. *)
Lemma deref_copy w x fl sh s e : within sh s → tracks w x fl sh s →
  deref_entry sys s (entry_ptr a sh) = Ok e → bytes_of (DataBlk e) = block x.
Proof.
  intros Hs Ht. unfold deref_entry, entry_ptr. destruct (in_cache sh) as [d|] eqn:Hd; [|done].
  cbn [fmap option_fmap option_map from_option_or mbind outcome_bind fst snd].
  rewrite lookup_eq by (done || apply cache_of_ok, Hs). cbn [mbind outcome_bind].
  pose proof (at_entry _ _ _ _ _ Ht d Hd) as Hc. unfold L1Moves.copy in Hc.
  destruct (contents_at (cache_of s d) a) as [e'|]; [|done]. cbn. intros [= <-]. by injection Hc.
Qed.

Lemma tracked_entry_block w x fl sh :
  partial (tracked w x fl sh) (entry_block sys) (λ b f, tracked w x fl sh f ∧ bytes_of b = block x).
Proof.
  apply triple_partial. intros f b f' [Hf Ht] (e & He & H1)%bind_Ok. apply bind_Ok in H1 as (b' & Hb & [= <- <-]).
  split; [done|]. rewrite (assign_bytes _ _ _ _ Hb). destruct Hf as (Hs & Hp & _). rewrite Hp in He.
  by eapply deref_copy.
Qed.

(** *** The processor *)

Lemma like_copy s n d b : like sys buffer_ids (base s) n → copy (with_base s n) d b = copy s d b.
Proof.
  intros [_ [Hd Hi]]. unfold L1Moves.copy. change (block_in sys) with ((λ e, bytes_of (DataBlk e)) ∘ AbstractCacheEntry.data).
  rewrite !option_fmap_compose. f_equal. destruct d; [apply Hd|apply Hi].
Qed.

(** A call of the sequencer that works on the block of the entry. *)
Lemma with_callback_inv w x fl sh call g f u f' :
  (∀ b n0, {{ like sys buffer_ids n0 }} call b {{ λ _, like sys buffer_ids n0 }}) →
  (∀ e, DataBlk (g e) = DataBlk e) →
  tracked w x fl sh f → with_callback sys call g f = Ok (u, f') →
  ∃ blk blk' n, bytes_of blk = block x ∧ call blk (base (self f)) = Ok (blk', n) ∧
    (∀ d, in_cache sh = Some d → copy (self f') d a = Some (bytes_of blk')) ∧ is_Some (in_cache sh) ∧
    (∀ d b, b ≠ a → copy (self f') d b = copy (self f) d b) ∧ (∀ b, tbe_copy (self f') b = tbe_copy (self f) b) ∧
    m_machineID (self f') = m_machineID (self f) ∧ abs (self f') = ctl n ∧
    dialogue (self f') = dialogue (with_base (self f) n).
Proof.
  intros Hsafe Hg [(Hs & He & Htb) Ht] (? & f1 & H1 & H2)%prog_bind_Ok. unfold assert_entry, slicc_assert in H1.
  assert (f1 = f) as -> by (apply bind_Ok in H1 as (? & _ & [= _ <-]); done). clear H1.
  apply prog_bind_Ok in H2 as (p & f1 & [= <- <-] & H2).
  apply prog_bind_Ok in H2 as (e & f1 & [H1 ->]%reads_Ok & H2).
  apply prog_bind_Ok in H2 as (blk' & f1 & H3 & H2). rewrite He in *.
  apply zoom_Ok in H3 as (s1 & H3 & ->). apply zoom_Ok in H3 as (n & H3 & ->).
  assert (like sys buffer_ids (base (self f)) n) as Hl.
  { exact (triple_Ok _ _ _ _ _ _ _ (Hsafe (DataBlk e) (base (self f))) (like_refl _ _ _ (proj1 Hs)) H3). }
  apply zoom_Ok in H2 as (s2 & H2 & ->). cbn [self with_self] in *.
  assert (within sh (with_base (self f) n)) as Hs1 by (by apply within_like).
  exists (DataBlk e), blk', n. split; [exact (deref_copy w x fl sh (self f) e Hs Ht H1)|]. split; [done|].
  destruct (update_data_inv sys a s0 sh _ _ _ _ Ha Hs1 H2) as (d & e1 & c & Hd & He1 & -> & Hc). split_and!.
  - intros d' Hd'. assert (d' = d) as -> by congruence. rewrite with_cache_copy, decide_True by done.
    by rewrite Hc, decide_True, Hg.
  - by exists d.
  - intros d' b Hne. rewrite with_cache_copy. case_decide as E; [|by apply like_copy]. subst d'.
    rewrite Hc, decide_False by done. by apply like_copy.
  - by destruct d.
  - by destruct d.
  - by destruct d.
  - by destruct d.
Qed.

Lemma move_data_read ty p blk p' blk' : RubySystem.getWarmupEnabled sys = false → is_read_type ty = true →
  move_data sys ty p blk = Ok (p', blk') → blk' = blk.
Proof.
  intros Hw Hty. unfold move_data. rewrite Hw, Hty. intros (o & _ & H1)%bind_Ok.
  destruct (isFlush p); [by injection H1|]. do 2 apply bind_Ok in H1 as (? & _ & H1). by injection H1.
Qed.

(** The turns in which the processor reads and stores. *)
Definition seeing x : System.turn (list Z) :=
  System.mkTurn (System.self x) (System.sent x) (System.seen x ++ [block x]) (System.wrote x).
Definition storing w x : System.turn (list Z) :=
  System.with_block (System.mkTurn (System.self x) (System.sent x) (System.seen x ++ [block x]) true) w.

Lemma tracked_load w x fl sh ext : RubySystem.getWarmupEnabled sys = false → has_entry sh = true → called fl = false →
  partial (tracked w x fl sh) (with_callback sys (λ b, readCallback sys now cooldown a b ext false) id)
    (λ _, tracked w (seeing x) (answered fl) sh).
Proof.
  intros Hw Hsh Hc. apply triple_partial. intros f u f' [Hf Ht] H1. split.
  { refine (triple_Ok _ _ _ _ _ _ _ (safe_with_callback sys a Ha s0 sh _ _ Hsh _) Hf H1).
    intros; apply safe_readCallback. }
  destruct (with_callback_inv w x fl sh _ id f u f' (λ b n0, safe_readCallback sys _ now cooldown n0 a b ext)
    (λ _, eq_refl) (conj Hf Ht) H1) as (blk & blk' & n & Hb & Hcall & H2 & H3 & H4 & H5 & H6 & H7 & H8).
  pose proof (told _ _ _ _ _ Ht) as Htold. rewrite Hc in Htold. destruct Htold as (T1 & T2 & T3).
  apply readCallback_Ok in Hcall.
  destruct (Sequencer.m_readRequestTable (sequencer (base (self f))) !! a) as [r|] eqn:Er.
  - destruct Hcall as (p & p' & Hmv & Hp & Hctl & Hty & _ & Hcomp).
    assert (blk' = blk) as -> by (eapply move_data_read; [done| |exact Hmv]; by destruct Hty as [->| ->]).
    eapply (tracks_block w w x (seeing x) fl); try done; [intros d Hd; by rewrite (H2 d Hd), Hb|by rewrite H7, Hctl|].
    cbn [called answered]. exists (block x). cbn [seeing System.seen System.wrote]. rewrite T1, T2. split; [done|].
    right. eexists. split; [rewrite H8; unfold dialogue; cbn; rewrite Hcomp, Hw; f_equal; by injection T3|].
    exists r, (pkt r), p, p', blk, blk. split_and!; try done. left. by injection T3 as _ <- _.
  - destruct Hcall as [-> ->]. eapply (tracks_block w w x (seeing x) fl); try done; [intros d Hd; by rewrite (H2 d Hd), Hb|by rewrite H7|].
    cbn [called answered]. exists (block x). cbn [seeing System.seen System.wrote]. rewrite T1, T2. split; [done|].
    left. split; [done|]. split; [by rewrite H8|]. unfold not_reading. by injection T3 as _ <- _.
Qed.

Lemma tracked_store w x fl sh ext g : RubySystem.getWarmupEnabled sys = false → has_entry sh = true → called fl = false →
  (∀ e, DataBlk (g e) = DataBlk e) →
  partial (tracked w x fl sh) (with_callback sys (λ b, writeCallback sys now cooldown a b ext) g)
    (λ _ f, ∃ w', tracked w' (storing w' x) (answered fl) sh f).
Proof.
  intros Hw Hsh Hc Hg. apply triple_partial. intros f u f' [Hf Ht] H1.
  destruct (with_callback_inv w x fl sh _ g f u f' (λ b n0, safe_writeCallback sys _ now cooldown n0 a b ext)
    Hg (conj Hf Ht) H1) as (blk & blk' & n & Hb & Hcall & H2 & H3 & H4 & H5 & H6 & H7 & H8).
  exists (bytes_of blk'). split.
  { refine (triple_Ok _ _ _ _ _ _ _ (safe_with_callback sys a Ha s0 sh _ _ Hsh _) Hf H1).
    intros; apply safe_writeCallback. }
  pose proof (told _ _ _ _ _ Ht) as Htold. rewrite Hc in Htold. destruct Htold as (T1 & T2 & T3).
  apply writeCallback_Ok in Hcall as (r & r' & p & p' & Hr & Hr' & Hmv & Hp & _ & _ & Hctl & Hcomp).
  eapply (tracks_block w _ x _ fl); try done.
  - rewrite H7, Hctl. unfold block_effect. by destruct (m_type r).
  - cbn [called answered]. exists (block x). cbn [storing System.with_block System.seen System.wrote]. rewrite T1.
    split; [done|]. right.
    eexists. split; [rewrite H8; unfold dialogue; cbn; rewrite Hcomp, Hw; f_equal; by injection T3|].
    exists r, (pkt r'), p, p', blk, blk'. split_and!; try done; [right; by injection T3 as <- _ _|].
    destruct (decide _); [by destruct Hr' as (? & -> & _)|by rewrite Hr'].
Qed.

(** *** Entries and transactions *)

Lemma tracked_write_data w x fl sh v m : has_entry sh = true → has_tbe sh = true → intact fl = true →
  incoming = Some v → head_of (abs s0) responseToCache = Some (PResponse m) →
  bytes_of (ResponseMsg.m_DataBlk m) = v →
  partial (tracked w x fl sh) (u_writeDataToL1Cache sys a)
    (λ _, tracked w (System.with_block x (default (block x) incoming)) (stale fl) sh).
Proof.
  intros Hsh Htb Hint Hv Hm Hmv. apply triple_partial. intros f u f' [Hf Ht] H1.
  assert (frame_ok sh f') as Hf'.
  { refine (triple_Ok _ _ _ _ _ _ _ (perform_safe sys counts junk dirs cfg now rt cooldown a Ha s0
      L1Cache.u_writeDataToL1Cache sh sh _) Hf H1). cbn. by rewrite Hsh, Htb. }
  split; [done|]. destruct Hf as (Hs & He & Htp).
  apply prog_bind_Ok in H1 as (m' & f1 & H1 & H2). apply zoom_Ok in H1 as (s1 & H1 & ->).
  apply prog_bind_Ok in H1 as (p & s2 & H1 & [Hcast ->]%lift_Ok).
  apply on_abs_Ok in H1 as (c & [-> Hh]%peek_head & ->).
  assert (m' = m) as ->.
  { rewrite (heads _ _ _ _ _ Ht Hint), Hm in Hh by (unfold input_buffers; set_solver).
    injection Hh as <-. by injection Hcast. }
  replace (with_self f _) with f in H2 by (by destruct f as [[[]]]).
  apply prog_bind_Ok in H2 as (? & f1 & H1 & H2). unfold assert_entry, slicc_assert in H1.
  assert (f1 = f) as -> by (apply bind_Ok in H1 as (? & _ & [= _ <-]); done). clear H1.
  apply prog_bind_Ok in H2 as (? & f1 & [= <- <-] & H2).
  apply prog_bind_Ok in H2 as (e & f1 & [H1 ->]%reads_Ok & H2).
  apply prog_bind_Ok in H2 as (blk & f1 & [Hblk ->]%lift_Ok & H2).
  apply prog_bind_Ok in H2 as (? & f1 & H3 & H2). apply zoom_Ok in H3 as (s1 & H3 & ->). rewrite He in H3.
  destruct (update_block w x fl sh (λ e, with_block e blk (ResponseMsg.m_Dirty m)) (self f) _ s1 blk Hs Ht (λ _, eq_refl) H3)
    as (U1 & U2 & U3 & U4 & U5 & U6 & U7).
  apply prog_bind_Ok in H2 as (? & f1 & [= <- <-] & H2).
  apply prog_bind_Ok in H2 as (y & f1 & [_ ->]%reads_Ok & H2).
  do 3 apply prog_bind_Ok in H2 as (? & f1 & [_ ->]%lift_Ok & H2).
  apply zoom_Ok in H2 as (s2 & H2 & ->). apply (still_update_tbe sys) in H2; [|done].
  eapply tracks_still; [exact H2|]. cbn [self with_self] in *.
  eapply (tracks_block w w x _ fl); try done.
  - intros d Hd. rewrite U1 by done. cbn. rewrite Hv, (assign_bytes _ _ _ _ Hblk), Hmv. done.
  - by rewrite U6.
  - cbn [called stale]. rewrite U7. exact (told _ _ _ _ _ Ht).
Qed.

(** An object of the line comes or goes. *)
Lemma tracks_shape w x fl fl' sh sh' s s' : tracks w x fl sh s →
  (∀ d, in_cache sh' = Some d → copy s' d a = Some (block x)) →
  (in_cache sh' = None → freed fl' = false → block x = bytes_of (DataBlock.create sys)) →
  (fresh fl' = true → tbe_copy s' a = Some (block x)) →
  (∀ d b, b ≠ a → copy s' d b = copy s d b) → (∀ b, b ≠ a → tbe_copy s' b = tbe_copy s b) →
  m_machineID s' = m_machineID s → base s' = base s ∨ (∃ d c, s' = with_cache_of s d c) →
  (intact fl', called fl', taken fl') = (intact fl, called fl, taken fl) → tracks w x fl' sh' s'.
Proof.
  intros [E1 E2 E3 E4 E5 E6 E7 E8 E9] H1 H2 H3 H4 H5 Hm Hb [= F1 F2 F3].
  assert (abs s' = abs s ∧ dialogue s' = dialogue s) as [Ha' Hd].
  { unfold abs, dialogue. destruct Hb as [->|([] & c & ->)]; done. }
  constructor; [done|done|done| | | | | |].
  - intros b Hne. destruct (E4 b Hne) as [G1 G2]. split; [intros d; by rewrite H4|by rewrite H5].
  - congruence.
  - by rewrite Ha'.
  - by rewrite F1, Ha'.
  - by rewrite F3, Ha'.
  - by rewrite F2, Hd.
Qed.

Lemma tracked_allocate_block w x fl sh d : freed fl = false →
  partial (tracked w x fl sh) (allocate_block sys counts junk now d a)
    (λ _, tracked w x fl (mkShape (Some (default d (in_cache sh))) (has_tbe sh))).
Proof.
  intros Hfr. apply triple_partial. intros f u f' [Hf Ht] H1.
  split; [exact (triple_Ok _ _ _ _ _ _ _ (safe_allocate_block sys counts junk now a Ha s0 sh d) Hf H1)|].
  destruct Hf as (Hs & He & _). apply prog_bind_Ok in H1 as (p & f1 & [= <- <-] & H1). rewrite He in H1.
  unfold entry_ptr in H1. destruct sh as [[d'|] tb]; [by injection H1 as _ <-|].
  cbn [fmap option_fmap option_map in_cache has_tbe default] in *.
  apply prog_bind_Ok in H1 as (e & f1 & [Hne ->]%lift_Ok & H1).
  apply prog_bind_Ok in H1 as (? & f1 & H2 & [= _ <-]). cbn [self with_entry_ptr].
  apply zoom_Ok in H2 as (s1 & (c & Hal & [= _ <-])%bind_Ok & ->). cbn [self with_self].
  assert (bytes_of (DataBlk e) = block x) as Hblk.
  { rewrite (at_blank _ _ _ _ _ Ht) by done. apply bind_Ok in Hne as (? & _ & [= <-]). done. }
  pose proof (cache_of_ok sys _ d (proj1 Hs)) as Hc.
  pose proof (within_no_contents sys a s0 _ _ d Hs ltac:(done)) as Hno.
  destruct (cacheAvail_eq sys (cache_of (self f) d) a Hc Ha) as ([] & Hav & _).
  2: { unfold CacheMemory.allocate in Hal. rewrite assert_line_Ok, isTagPresent_eq, Hno, Hav in Hal by done. done. }
  destruct (allocate_avail sys now (cache_of (self f) d) a (AbstractCacheEntry.create e) Hc Ha Hno Hav)
    as (c' & Hal' & _ & Hcon). assert (c' = c) as -> by congruence.
  eapply (tracks_shape w x fl fl); [done| |done|apply Ht| |by destruct d|by destruct d|right; by exists d, c|done].
  - intros d' [= <-]. rewrite with_cache_copy, decide_True by done. rewrite Hcon, decide_True by done.
    cbn. by rewrite <- Hblk.
  - intros d' b Hne'. rewrite with_cache_copy. case_decide as E; [|done]. subst d'.
    unfold L1Moves.copy. by rewrite Hcon, decide_False.
Qed.

Lemma tracked_ff_deallocate w x fl sh : has_entry sh = true →
  partial (tracked w x fl sh) (ff_deallocateL1CacheBlock sys a)
    (λ _, tracked w x (gave_up fl) (mkShape None (has_tbe sh))).
Proof.
  intros Hsh. apply triple_partial. intros f u f' [Hf Ht] H1.
  pose proof (triple_Ok _ _ _ _ _ _ _ (safe_ff_deallocate sys a Ha s0 sh Hsh) Hf H1) as Hf'.
  split; [exact Hf'|]. destruct Hf as (Hs & _).
  apply prog_bind_Ok in H1 as (d & f1 & [Hd ->]%reads_Ok & H1).
  apply prog_bind_Ok in H1 as (? & f1 & H2 & [= _ <-]). cbn [self with_entry_ptr].
  apply zoom_Ok in H2 as (s1 & (c & Hal & [= _ <-])%bind_Ok & ->). cbn [self with_self].
  assert (in_cache sh = Some d) as Hin.
  { apply bool_decide_eq_true in Hsh as [d' Hd']. rewrite Hd'. f_equal.
    rewrite isTagPresent_eq in Hd by (done || apply Hs). injection Hd as <-.
    destruct Hs as (_ & [He _] & _). specialize (He true). unfold entry_state in He. rewrite fmap_is_Some in He.
    symmetry. destruct d'; [by apply bool_decide_eq_true_2, He|]. apply bool_decide_eq_false_2. intros G%He. congruence. }
  destruct (deallocate_spec sys (cache_of (self f) d) a (cache_of_ok sys _ d (proj1 Hs)) Ha
    (within_contents sys a s0 sh _ d Hs Hin)) as (c' & Hal' & _ & _ & _ & _ & Hcon).
  assert (c' = c) as -> by congruence.
  eapply (tracks_shape w x fl); [done|done|done|done| |by destruct d|by destruct d|right; by exists d, c|done].
  intros d' b Hne'. rewrite with_cache_copy. case_decide as E; [|done]. subst d'.
  unfold L1Moves.copy. by rewrite Hcon, decide_False.
Qed.

Lemma tracked_deallocate_tbe w x fl sh : has_tbe sh = true →
  partial (tracked w x fl sh) (s_deallocateTBE sys a) (λ _, tracked w x (stale fl) (mkShape (in_cache sh) false)).
Proof.
  intros Hsh. apply triple_partial. intros f u f' [Hf Ht] H1.
  split; [exact (triple_Ok _ _ _ _ _ _ _ (safe_s_deallocateTBE sys a s0 sh Hsh) Hf H1)|].
  apply prog_bind_Ok in H1 as (? & f1 & H2 & [= _ <-]). cbn [self with_tbe_ptr].
  unfold on_self in H2. apply zoom_Ok in H2 as (s1 & (tb & Hal & [= _ <-])%bind_Ok & ->). cbn [self with_self].
  eapply (tracks_shape w x fl); [done|apply Ht|apply Ht|done|done| |done|by left|done].
  intros b Hne. unfold L1Moves.tbe_copy, TBETable.deallocate in *. do 3 apply bind_Ok in Hal as (? & _ & Hal).
  injection Hal as <-. cbn. unfold TBETable.lookup. cbn. by rewrite lookup_delete_ne.
Qed.

Lemma tracked_allocate_tbe w x fl sh atomic : has_entry sh = true → has_tbe sh = false →
  partial (tracked w x fl sh) (allocate_tbe sys atomic a) (λ _, tracked w x (freshened fl) (mkShape (in_cache sh) true)).
Proof.
  intros Hsh Htb. apply triple_partial. intros f u f' [Hf Ht] H1.
  split; [exact (triple_Ok _ _ _ _ _ _ _ (safe_allocate_tbe_action sys a Ha s0 sh atomic Hsh Htb) Hf H1)|].
  destruct Hf as (Hs & He & _).
  apply prog_bind_Ok in H1 as (? & f1 & H2 & H1). unfold assert_entry, slicc_assert in H2.
  assert (f1 = f) as -> by (apply bind_Ok in H2 as (? & _ & [= _ <-]); done). clear H2.
  apply prog_bind_Ok in H1 as (? & f1 & H2 & H1).
  unfold on_self in H2. apply zoom_Ok in H2 as (s1 & (tb & Hal & [= _ <-])%bind_Ok & ->).
  apply prog_bind_Ok in H1 as (? & f1 & [= _ <-] & H1).
  apply prog_bind_Ok in H1 as (e & f1 & [H2 ->]%reads_Ok & H1).
  apply prog_bind_Ok in H1 as (y & f1 & [_ ->]%reads_Ok & H1).
  apply prog_bind_Ok in H1 as (blk & f1 & [Hblk ->]%lift_Ok & H1).
  apply prog_bind_Ok in H1 as (? & f1 & [= <- <-] & H1). cbn [self with_self with_tbe_ptr m_tbe_ptr m_cache_entry_ptr] in *.
  apply zoom_Ok in H1 as (s2 & H1 & ->). cbn [self with_self with_tbe_ptr] in *.
  change (deref_entry sys (with_TBEs (self f) tb) (m_cache_entry_ptr f)) with (deref_entry sys (self f) (m_cache_entry_ptr f)) in H2.
  rewrite He in H2. apply (deref_copy w x fl sh (self f) e Hs Ht) in H2.
  apply update_tbe_inv in H1 as (a' & z & Hp & Hz & ->).
  assert (a' = a) as -> by (unfold tbe_ptr in Hp; destruct (TBETable.lookup _ a); congruence).
  eapply (tracks_shape w x fl); [done|apply Ht|apply Ht| |done| |done|by left|done].
  - intros _. rewrite (tbe_copy_update sys _ a z), decide_True by done. cbn. by rewrite (assign_bytes _ _ _ _ Hblk), H2.
  - intros b Hne. rewrite (tbe_copy_update sys _ a z), decide_False by done.
    unfold TBETable.allocate in Hal. do 3 apply bind_Ok in Hal as (? & _ & Hal). injection Hal as <-.
    unfold L1Moves.tbe_copy, TBETable.lookup. cbn. by rewrite lookup_insert_ne.
Qed.

(** *** Actions that send *)

Lemma line_peek_any {A} w x fl sh q (cast : payload → outcome A) : q ∈ buffer_ids →
  partial (on_line w x fl sh) (p ← on_abs (AbstractController.peek q); lift (cast p)) (λ _, on_line w x fl sh).
Proof. intros Hq. eapply triple_conseq; [by apply line_peek|done|]. by intros m s [? _]. Qed.

Lemma tracked_issue w x fl sh ty b :
  partial (tracked w x fl sh) (issue sys counts junk dirs cfg now rt ty b a) (λ _, tracked w (System.issue x ty false) fl sh).
Proof.
  apply tracked_on_self. eapply triple_bind; [by apply line_peek_any, buffer_known|]. intros r.
  apply triple_lift_bind; [done|]. intros d Hd.
  apply line_send_request; [by apply buffer_known|unfold input_buffers; set_solver|done|].
  intros l m H1 H2 H3 H4. apply carries_request. exists m, d. by rewrite H1, H2, H3, H4.
Qed.

Lemma tracked_issueGETMR w x fl sh :
  partial (tracked w x fl sh) (bm_issueGETMR sys counts junk dirs cfg now rt a)
    (λ _, tracked w (System.issue x Request_GETM true) fl sh).
Proof.
  apply tracked_on_self. eapply triple_bind; [by apply line_peek_any, buffer_known|]. intros r.
  apply triple_lift_bind; [done|]. intros d Hd.
  apply line_send_request; [by apply buffer_known|unfold input_buffers; set_solver|done|].
  intros l m H1 H2 H3 H4. apply carries_request. exists m, d. by rewrite H1, H2, H3, H4.
Qed.

Lemma tracked_issue_atomic w x fl sh ty :
  partial (tracked w x fl sh) (issue_atomic sys counts junk cfg now rt ty a) (λ _, tracked w x fl sh).
Proof.
  apply tracked_on_self. eapply triple_bind; [by apply line_peek_any, buffer_known|]. intros r.
  eapply triple_bind; [apply keeps_gets|]. intros m. apply triple_lift_bind; [done|]. intros d _.
  apply line_send_request; [by apply buffer_known|unfold input_buffers; set_solver|done|].
  intros l k _ _ _ _. apply carries_announcement.
Qed.

Lemma tracked_send_putm w x fl sh :
  partial (tracked w x fl sh) (send_putm sys counts junk dirs cfg now rt a) (λ _, tracked w (System.issue_wb x) fl sh).
Proof.
  apply triple_lift_bind; [done|]. intros d Hd.
  eapply triple_bind with (R := λ _, tracked w x fl sh).
  { eapply triple_conseq; [apply tracked_entry_block|done|]. by intros b f [? _]. }
  intros b. apply tracked_on_self, line_send_request; [by apply buffer_known|unfold input_buffers; set_solver|done|].
  intros l m H1 H2 H3 H4. apply carries_writeback. exists m, d. by rewrite H1, H2, H3, H4.
Qed.

Lemma tracked_assert_entry w x fl sh : partial (tracked w x fl sh) assert_entry (λ _, tracked w x fl sh).
Proof. apply triple_partial. intros f u f' Hf H1. unfold assert_entry in H1. by apply bind_Ok in H1 as (? & _ & [= _ <-]). Qed.
Lemma tracked_assert_tbe w x fl sh : partial (tracked w x fl sh) assert_tbe (λ _, tracked w x fl sh).
Proof. apply triple_partial. intros f u f' Hf H1. unfold assert_tbe in H1. by apply bind_Ok in H1 as (? & _ & [= _ <-]). Qed.

Lemma tracked_send_entry w x fl sh :
  partial (tracked w x fl sh) (cc_sendDataCacheToDir sys counts junk dirs cfg now rt a) (λ _, tracked w (sending x) fl sh).
Proof.
  eapply triple_bind; [apply tracked_assert_entry|]. intros ?. apply triple_lift_bind; [done|]. intros d Hd.
  eapply triple_bind; [apply tracked_entry_block|]. intros b.
  apply (triple_fact _ (bytes_of b = block x)); [by intros f [_ ?]|]. intros Hb.
  apply triple_conseq with (P' := tracked w x fl sh) (Q' := λ _, tracked w (sending x) fl sh); [|by intros f [Hf _]|done]. by apply tracked_on_self, line_send_response.
Qed.

Lemma tracked_send_tbe w x fl sh : fresh fl = true →
  partial (tracked w x fl sh) (ct_sendDataTBEToDir sys counts junk dirs cfg now rt a) (λ _, tracked w (sending x) fl sh).
Proof.
  intros Hfr. eapply triple_bind; [apply tracked_assert_tbe|]. intros ?. apply triple_lift_bind; [done|]. intros d Hd.
  eapply triple_bind with (R := λ y f, tracked w x fl sh f ∧ bytes_of (tbe_DataBlk y) = block x).
  { apply triple_partial. intros f y f' [Hf Ht] [H1 ->]%reads_Ok. split; [done|]. destruct Hf as (_ & _ & Hp).
    rewrite Hp in H1. unfold tbe_ptr_of in H1. destruct (has_tbe sh); [|done].
    pose proof (at_tbe _ _ _ _ _ Ht Hfr) as Hc. unfold L1Moves.tbe_copy, deref_tbe in *.
    cbn [from_option_or mbind outcome_bind] in H1.
    destruct (TBETable.lookup _ a); [|done]. injection H1 as ->. by injection Hc. }
  intros y. apply (triple_fact _ (bytes_of (tbe_DataBlk y) = block x)); [by intros f [_ ?]|]. intros Hy.
  apply triple_conseq with (P' := tracked w x fl sh) (Q' := λ _, tracked w (sending x) fl sh); [|by intros f [Hf _]|done].
  apply triple_lift_bind; [done|]. intros b Hb. apply tracked_on_self, line_send_response; [done|].
  by rewrite (assign_bytes _ _ _ _ Hb).
Qed.

(** *** Actions that take a message or count *)

Lemma tracked_entry_ptr {A} w x fl sh (k : option entry_ref → prog frame A) Q :
  partial (tracked w x fl sh) (k (entry_ptr a sh)) Q → partial (tracked w x fl sh) (gets m_cache_entry_ptr ≫= k) Q.
Proof. apply triple_gets_eq. by intros f [(_ & ? & _) _]. Qed.

Lemma tracked_tbe_ptr {A} w x fl sh (k : option Z → prog frame A) Q :
  partial (tracked w x fl sh) (k (tbe_ptr_of a sh)) Q → partial (tracked w x fl sh) (gets m_tbe_ptr ≫= k) Q.
Proof. apply triple_gets_eq. by intros f [(_ & _ & ?) _]. Qed.

Lemma tracked_dequeue w x fl sh q : q ∈ input_buffers → intact fl = true →
  partial (tracked w x fl sh) (dequeue_from now q) (λ _, tracked w x (took q fl) sh).
Proof. intros Hq Hint. by apply tracked_on_self, line_dequeue. Qed.

Lemma tracked_eviction w x fl sh : partial (tracked w x fl sh) (forward_eviction_to_cpu cfg a) (λ _, tracked w x fl sh).
Proof.
  apply triple_when, tracked_on_self, line_still; [by apply safe_on_node; intros ? ? ?|].
  intros s y s' _ (n & [= _ <-] & ->)%zoom_Ok. done.
Qed.

Lemma tracked_stall w x fl sh q : q ∈ buffer_ids →
  partial (tracked w x fl sh) (stall_on sys now q a) (λ _, tracked w x (disturbed fl) sh).
Proof.
  intros Hq. apply tracked_on_self, line_rearrange; [by apply safe_stall_and_wait|].
  intros c y c' Hc. by apply stall_and_wait_transfer.
Qed.

Lemma tracks_disturbed w x fl sh s : tracks w x fl sh s → tracks w x (disturbed fl) sh s.
Proof. by intros []; constructor. Qed.

Lemma tracked_wake w x fl sh p : {{ ctl_ok buffer_ids }} p {{ λ _, ctl_ok buffer_ids }} →
  (∀ c y c', sorted c → p c = Ok (y, c') → transfer [] [] c c' ∧ sorted c') →
  partial (tracked w x fl sh) (unless_atomic sys a p) (λ _, tracked w x (disturbed fl) sh).
Proof.
  intros Hsafe Hp. eapply triple_bind; [by apply keeps_reads|]. intros []; cbn [negb when].
  - apply triple_ret. intros f [Hf Ht]. split; [done|]. by apply tracks_disturbed.
  - by apply tracked_on_self, line_rearrange.
Qed.

(** Follow the code of an action that leaves the turn as it is. *)
Ltac keep_turn :=
  repeat match goal with
  | |- triple _ _ (gets m_cache_entry_ptr ≫= _) _ => apply tracked_entry_ptr
  | |- triple _ _ (gets m_tbe_ptr ≫= _) _ => apply tracked_tbe_ptr
  | |- triple _ _ (dequeue_from _ _ ≫= _) _ =>
      eapply triple_bind; [apply tracked_dequeue; [unfold input_buffers; set_solver|done]|intros ?]
  | |- triple _ ?P (_ ≫= _) _ => apply (triple_bind _ P (λ _, P)); [|intros ?]
  | |- triple _ _ (mret _) _ => apply keeps_ret
  | |- triple _ _ (gets _) _ => apply keeps_gets
  | |- triple _ _ (reads _) _ => by apply keeps_reads
  | |- triple _ _ (lift _) _ => by apply triple_lift_any
  | |- triple _ _ (match ?y with _ => _ end) _ => destruct y
  | |- triple _ _ (on_self (modS _)) _ => by apply tracked_on_self, line_mod_succ
  | |- triple _ _ (on_self (bump _)) _ => by apply tracked_on_self, line_mod_succ
  | |- triple _ _ (on_self (gets _)) _ => apply tracked_on_self, keeps_gets
  | |- triple _ _ (on_self (update_data _ _ _)) _ => by apply tracked_on_self, line_update_data
  | |- triple _ _ (on_self (update_tbe _ _)) _ => by apply tracked_on_self, line_update_tbe
  | |- triple _ _ (on_self peek_mandatory) _ => by apply tracked_on_self, line_peek_any, buffer_known
  | |- triple _ _ (on_self (peek_request _)) _ => by apply tracked_on_self, line_peek_any, buffer_known
  | |- triple _ _ (on_self peek_response) _ => by apply tracked_on_self, line_peek_any, buffer_known
  | |- triple _ _ assert_entry _ => apply tracked_assert_entry
  | |- triple _ _ assert_tbe _ => apply tracked_assert_tbe
  end.

Lemma tracked_pop_and_profile w x fl sh v q : q ∈ input_buffers → intact fl = true →
  partial (tracked w x fl sh) (pop_and_profile cfg now v q) (λ _, tracked w x (took q fl) sh).
Proof.
  intros Hq Hint. eapply triple_bind; [by apply tracked_dequeue|]. intros c. apply tracked_on_self.
  eapply triple_bind; [by apply triple_lift_any|]. intros ?. by apply line_mod_succ.
Qed.

Lemma tracked_profile_inv w x fl sh :
  partial (tracked w x fl sh) (uu_profilecoherence_inv sys counts a) (λ _, tracked w x fl sh).
Proof. unfold uu_profilecoherence_inv, count_one. keep_turn. Qed.

Lemma tracked_oo_atomic w x fl sh : freed fl = false →
  partial (tracked w x fl sh) (oo_allocateAtomicL1DCacheBlock sys counts junk now a)
    (λ _, tracked w x fl (mkShape (Some (default true (in_cache sh))) (has_tbe sh))).
Proof. intros Hfr. eapply triple_bind; [by apply tracked_allocate_block|]. intros ?. keep_turn. Qed.

(** The actions that end a store of the processor. *)
Definition ends_store (act : L1Cache.action) : bool :=
  match act with
  | L1Cache.s_store_hit | L1Cache.sx_store_hit
  | L1Cache.sx_atomic_store_hit_set | L1Cache.sx_atomic_store_hit_unset => true
  | _ => false
  end.

#[local] Abbreviation perform := (perform sys counts junk dirs cfg now rt cooldown).

#[local] Hint Unfold bpm_issuePUTM bpm_issuePUTMR bpm_issuePUTMD k_popMandatoryQueue
  calcLatencyProfile setStartTime setStartTimeCE copyStartTimeCETBE setFirstScheduledTime
  setFirstScheduledTimeCE q_updateAckCount uu_profileInstMiss uu_profileInstHit uu_profileDataMiss
  uu_profileApproxLoadDataMiss uu_profileApproxStoreDataMiss uu_profileDataHit uu_profileApproxLoadDataHit
  uu_profileApproxStoreDataHit uu_profileIstate_othergetM uu_profilecoherence_approx_inv count_one
  setBlocked setUnblocked : moves.

Lemma perform_quiet act w x fl fl' sh sh' : ends_store act = false → writes_data act = false →
  RubySystem.getWarmupEnabled sys = false → shape_act act sh = Some sh' → progress_act act fl = Some fl' →
  partial (tracked w x fl sh) (perform act a) (λ _, tracked w (System.act incoming w x act) fl' sh').
Proof.
  intros Hst Hwr Hw Hsh Hfl. destruct act; try discriminate Hst; try discriminate Hwr;
    cbn [shape_act progress_act takes L1Controller.perform System.act] in *;
    repeat match goal with
    | H : (if ?b then _ else _) = Some _ |- _ => destruct b eqn:?; try discriminate H
    | H : None = Some _ |- _ => discriminate H
    | H : _ && _ = true |- _ => apply andb_true_iff in H as [? ?]
    | H : negb _ = true |- _ => apply negb_true_iff in H
    | H : Some _ = Some _ |- _ => injection H as <-
    end;
    first [apply tracked_issue|apply tracked_issueGETMR|apply tracked_issue_atomic|apply tracked_send_entry
      |by apply tracked_send_tbe|apply tracked_eviction|by apply tracked_load|by apply tracked_allocate_tbe
      |by apply tracked_pop_and_profile; [unfold input_buffers; set_solver|]|by apply tracked_deallocate_tbe
      |by apply tracked_ff_deallocate|by apply tracked_allocate_block|by apply tracked_oo_atomic
      |by apply tracked_stall, buffer_known|apply tracked_profile_inv
      |apply tracked_wake; [auto with safety|intros; by eapply wake_line_transfer]
      |apply tracked_wake; [auto with safety|intros; by eapply wakeUpAllBuffers_transfer]
      |by autounfold with moves; keep_turn; try apply tracked_send_putm].
Qed.

End tracking.
