(* ===== verification/L1Runs.v ===== *)
(** * The cache controller refines the protocol

    A transition that a port of [L1Controller] fires is the transition that a cache of
    [Coherence] makes for the message at the head of the queue of the port: on the copy of
    the line, the messages to the network, the message that is taken, and what the
    processor is told.  [L1Moves] has the actions; here they are put together into
    transitions, ports and runs. *)

From S2P Require Import Prelude Triples IntMath Addresses NodeSets Destinations Clocks StdHeap Buffers Arbiter.
From S2P Require Import SlotTimes Blocks Policies Caches Tables MsiTables Controllers DirectoryMemory.
From S2P Require Import Messages Sequencer Machines L1Controller Pointers Contents Progress L1Safety L1Progress.
From S2P Require Import Coherence L1Moves.
Import RubySlicc_Util L1Controller.
Local Open Scope Z_scope.
Local Open Scope triple_scope.

#[local] Abbreviation partial P p Q := (triple (λ _, False) P p Q).

(** ** Transitions *)

Section transitions.
Context {W : Wired} (sys : RubySystem.t) (counts : list Z) (junk : Z) (dirs : DirectoryMemory.statics).
Context (cfg : config) (now rt : Z) (cooldown : bool) (Hwarm : RubySystem.getWarmupEnabled sys = false).
Context (a : Z) (Ha : line sys a) (s0 : t) (incoming : option (list Z)) (st0 : L1Cache.State) (v0 : list Z).
Implicit Types (s : t) (sh : shape) (fl : progress) (w : list Z) (x : System.turn (list Z)).

#[local] Abbreviation tracks := (tracks sys counts junk dirs cooldown a s0).
#[local] Abbreviation tracked := (tracked sys counts junk dirs cooldown a s0).
#[local] Abbreviation frame_ok := (frame_ok sys a s0).
#[local] Abbreviation within := (within sys a s0).

(** The line before the transition, and after some of its actions. *)
Definition start : System.turn (list Z) := System.mkTurn (System.mkCache st0 [] 0 v0 []) [] [] false.
Definition turn_after w (acts : list L1Cache.action) : System.turn (list Z) :=
  foldl (System.act incoming w) start acts.

(** How far the transition is, and the step of one action. *)
Definition stage : Type := shape * progress * list L1Cache.action.

Definition stage_act (act : L1Cache.action) (p : stage) : option stage :=
  let '(sh, fl, acts) := p in
  if writes_data act && bool_decide (incoming = None) then None
  else sh ← shape_act act sh; fl ← progress_act act fl; Some (sh, fl, acts ++ [act]).

Definition at_stage (p : stage) (f : frame) : Prop :=
  let '(sh, fl, acts) := p in
  ∃ w, tracked w (turn_after w acts) fl sh f ∧ (called fl = false → ∀ w', turn_after w' acts = turn_after w acts).

(** The message that brings the data is at the head of its queue. *)
Definition brought : Prop := ∀ v, incoming = Some v →
  ∃ m, head_of (abs s0) responseToCache = Some (PResponse m) ∧ bytes_of sys (ResponseMsg.m_DataBlk m) = v.

Lemma turn_after_snoc w acts act : turn_after w (acts ++ [act]) = System.act incoming w (turn_after w acts) act.
Proof. unfold turn_after. by rewrite foldl_snoc. Qed.

Lemma act_without_store act w w' x : ends_store act = false → System.act incoming w x act = System.act incoming w' x act.
Proof. by destruct act. Qed.

Lemma stage_step act p p' : brought → stage_act act p = Some p' →
  partial (at_stage p) (perform sys counts junk dirs cfg now rt cooldown act a) (λ _, at_stage p').
Proof.
  intros Hbr. destruct p as [[sh fl] acts]. unfold stage_act. destruct (writes_data act && _) eqn:Hdata; [done|].
  destruct (shape_act act sh) as [sh'|] eqn:Hsh; [|done]. destruct (progress_act act fl) as [fl'|] eqn:Hfl; [|done].
  intros [= <-]. unfold at_stage. apply triple_exists. intros w.
  apply (triple_fact _ (called fl = false → ∀ w', turn_after w' acts = turn_after w acts)); [by intros f [_ ?]|].
  intros Hfree. apply triple_conseq with (P' := tracked w (turn_after w acts) fl sh)
    (Q' := λ _ f, ∃ w', tracked w' (turn_after w' (acts ++ [act])) fl' sh' f ∧
      (called fl' = false → ∀ w1, turn_after w1 (acts ++ [act]) = turn_after w' (acts ++ [act])));
    [|by intros f [? _]|done].
  destruct (ends_store act) eqn:Hst.
  - assert (called fl = false ∧ fl' = answered fl) as [Hc ->] by (destruct act; try done; cbn in Hfl; destruct (called fl); by inversion Hfl).
    assert (has_entry sh = true ∧ sh' = sh) as [Hent ->] by (destruct act; try done; cbn in Hsh; destruct (has_entry sh); by inversion Hsh).
    apply triple_conseq with (P' := tracked w (turn_after w acts) fl sh)
      (Q' := λ _ f, ∃ w', tracked w' (storing w' (turn_after w acts)) (answered fl) sh f); [|done|].
    { destruct act; try done; by apply tracked_store. }
    intros ? f (w' & Hf). exists w'. split; [|done]. rewrite turn_after_snoc, (Hfree Hc w').
    by destruct act.
  - assert (partial (tracked w (turn_after w acts) fl sh) (perform sys counts junk dirs cfg now rt cooldown act a)
      (λ _, tracked w (turn_after w (acts ++ [act])) fl' sh')) as Hp.
    { rewrite turn_after_snoc. destruct (writes_data act) eqn:Hwr; [|by apply perform_quiet].
      apply bool_decide_eq_true in Hwr as ->. cbn [shape_act progress_act] in *.
      destruct (has_entry sh && has_tbe sh) eqn:E; [|done]. apply andb_true_iff in E as [? ?].
      destruct (intact fl) eqn:?; [|done]. injection Hsh as <-. injection Hfl as <-.
      destruct incoming as [v|] eqn:Hinc; [|done]. destruct (Hbr v Hinc) as (m & Hm & Hv). rewrite <- Hinc.
      cbn [perform System.act]. eapply tracked_write_data; done. }
    eapply triple_conseq; [exact Hp|done|]. intros ? f Hf. exists w. split; [done|].
    intros Hc w1. rewrite !turn_after_snoc, (act_without_store act w1 w) by done. f_equal. apply Hfree.
    destruct (called fl) eqn:Hcf; [|done]. exfalso. revert Hfl Hc. clear -Hcf.
    destruct act; cbn; rewrite ?Hcf; repeat case_match; intros; simplify_eq; cbn in *; congruence.
Qed.

(** The stages of a list of actions. *)
Lemma stage_run acts : (existsb writes_data acts = true → is_Some incoming) → ∀ sh fl sh' fl' before,
  shape_run acts sh = Some sh' → foldl (λ o act, o ≫= progress_act act) (Some fl) acts = Some fl' →
  foldl (λ o act, o ≫= stage_act act) (Some (sh, fl, before)) acts = Some (sh', fl', before ++ acts).
Proof.
  unfold shape_run. induction acts as [|act acts IH]; intros Hdata sh fl sh' fl' before Hsh Hfl; cbn [foldl existsb] in *.
  { injection Hsh as <-. injection Hfl as <-. by rewrite app_nil_r. }
  cbn [mbind option_bind] in *.
  destruct (shape_act act sh) as [sh1|] eqn:E1; [|by rewrite foldl_bind_None in Hsh].
  destruct (progress_act act fl) as [fl1|] eqn:E2; [|by rewrite foldl_bind_None in Hfl].
  assert (stage_act act (sh, fl, before) = Some (sh1, fl1, before ++ [act])) as ->.
  { unfold stage_act. rewrite E1, E2. cbn. destruct (writes_data act); [|done].
    rewrite bool_decide_eq_false_2; [done|]. intros E. destruct Hdata as [? ?]; [done|congruence]. }
  rewrite (IH (λ H, Hdata ltac:(rewrite H; apply orb_true_r)) _ _ sh' fl' _ Hsh Hfl). by rewrite <- app_assoc.
Qed.

(** The checks for resources only look at the queues to the network. *)
Lemma line_slots w x sh q k : q ∈ buffer_ids →
  partial (on_line sys counts junk dirs cooldown a s0 w x at_start sh)
    (on_abs (AbstractController.areNSlotsAvailable now q k))
    (λ _, on_line sys counts junk dirs cooldown a s0 w x at_start sh).
Proof.
  intros Hq. apply line_on_abs; [by apply safe_slots|]. intros s s' Hsm _ Ht y (Htr & Hso & Hh)%slots_transfer.
  apply (tracks_queues sys counts junk dirs cooldown a s0 w x x at_start at_start sh s s' [] [] []);
    [done|done|done| |done| |done| |by constructor].
  - apply Hso, Ht.
  - intros l. by apply carries_nil.
  - intros _. split; [done|]. intros id _. apply Hh.
Qed.

Lemma tracked_check_all w x sh acts rs :
  partial (tracked w x at_start sh) (check_all needs (available now) acts rs) (λ _, tracked w x at_start sh).
Proof.
  induction rs as [|r rs IH]; cbn [check_all]; [apply keeps_ret|]. case_decide; [done|].
  apply keeps_bind; [|by intros []; [done|apply keeps_ret]].
  destruct r; cbn [available]; [apply keeps_gets|by apply tracked_on_self, line_slots, buffer_known..].
Qed.

(** The block a line holds; a new entry has the bytes of a new block. *)
Definition held_block s b : list Z :=
  default (bytes_of sys (DataBlock.create sys)) (match copy sys s true b with Some v => Some v | None => copy sys s false b end).

Lemma tracks_start st sh : base_ok sys s0 → line_is s0 a st sh → sorted (abs s0) → v0 = held_block s0 a →
  ∀ w, tracks w start at_start sh s0.
Proof.
  intros Hb (_ & He & _) Hso Hv w.
  assert (∀ d, copy sys s0 d a = None ↔ in_cache sh ≠ Some d) as Hcopy.
  { intros d. specialize (He d). unfold entry_state, copy in *. rewrite fmap_None.
    destruct (contents_at (cache_of s0 d) a); cbn in He; case_decide; split; congruence. }
  constructor; [| |done|done|done|done|done| |done].
  - intros d Hd. change (copy sys s0 d a = Some v0). rewrite Hv. unfold held_block.
    destruct (copy sys s0 d a) as [v|] eqn:E; [|by apply Hcopy in E].
    assert (∀ d', d' ≠ d → copy sys s0 d' a = None) as Hno by (intros d' ?; apply Hcopy; congruence).
    destruct d; [by rewrite E|]. by rewrite (Hno true), E.
  - intros Hn _. change (v0 = bytes_of sys (DataBlock.create sys)). rewrite Hv. unfold held_block. by rewrite !(proj2 (Hcopy _)) by congruence.
  - exists [], []. split_and!; [by repeat constructor|apply transfer_refl|by constructor].
Qed.

(** Two turns that differ in the state of the line only. *)
Lemma tracks_turn w x x' fl sh s :
  (System.requests (System.self x'), System.writebacks (System.self x'), System.block (System.self x'), System.sent x',
   System.seen x', System.wrote x') =
  (System.requests (System.self x), System.writebacks (System.self x), System.block (System.self x), System.sent x,
   System.seen x, System.wrote x) → tracks w x fl sh s → tracks w x' fl sh s.
Proof.
  intros [= X1 X2 X3 X4 X5 X6] [E1 E2 E3 E4 E5 E6 E7 E8 E9].
  constructor; rewrite ?X3, ?X4, ?X5, ?X6; try done.
  unfold carries in *. by rewrite X1, X2, X4.
Qed.

(** The state of the line is written last. *)
Lemma line_setState w x fl sh st :
  partial (on_line sys counts junk dirs cooldown a s0 w x fl sh)
    (_ ← setState sys (tbe_ptr_of a sh) (entry_ptr a sh) a st; setAccessPermission sys (entry_ptr a sh) st)
    (λ _, on_line sys counts junk dirs cooldown a s0 w x fl sh).
Proof.
  apply keeps_bind.
  - unfold setState. apply keeps_bind; [by apply keeps_reads|]. intros _. apply keeps_bind.
    + destruct (has_tbe sh) eqn:E; unfold tbe_ptr_of; rewrite E; [|apply keeps_ret].
      pose proof (line_update_tbe sys counts junk dirs cooldown a s0 w x fl sh (λ y, tbe_with_state y st) E) as Hu.
      unfold tbe_ptr_of in Hu. rewrite E in Hu. by apply Hu.
    + intros _. destruct (entry_ptr a sh) as [r|] eqn:E; [|apply keeps_ret]. rewrite <- E.
      apply line_update_data; [done| |done]. unfold entry_ptr in E. apply bool_decide_eq_true_2. by destruct (in_cache sh).
  - intros _. unfold setAccessPermission. destruct (entry_ptr a sh) as [r|] eqn:E; [|apply keeps_ret]. rewrite <- E.
    assert (has_entry sh = true) as Hsh.
    { unfold entry_ptr in E. apply bool_decide_eq_true_2. by destruct (in_cache sh). }
    apply line_still; [apply safe_update_entry; [done|done|done|by destruct st]|].
    intros s y s' Hs. apply (still_update_entry sys a s0); [done|done|done|done|by destruct st].
Qed.

Lemma known_actions ev st next acts : L1Cache.find_transition st ev = Some (next, acts) →
  ∃ fl, progress_run acts = Some fl ∧ taken fl = omap takes acts ∧ (omap takes acts = [] ∨ omap takes acts = [queue_of ev]) ∧
    (existsb writes_data acts = true → ev = L1Cache.Event_Data).
Proof.
  intros Ht. pose proof (all_steps_known st ev) as H. unfold step_known in H. rewrite Ht in H.
  apply andb_true_iff in H as [H1 H2]. destruct (progress_run acts) as [fl|]; [|done].
  apply bool_decide_eq_true in H1 as [H0 H1]. exists fl. rewrite <- H0. split_and!; [done|done|done|]. intros E. rewrite E in H2.
  by apply bool_decide_eq_true in H2.
Qed.

(** The transition of the line from state [st0] that the model makes for an event: the next
    state of the line and its copy, the other lines as they were, the messages sent, the
    message taken, and what the processor was told. *)
Definition moved_as ev s' : Prop :=
  ∃ next acts w x sh ins outs,
    L1Cache.find_transition st0 ev = Some (next, acts) ∧
    System.cache_event incoming w (System.mkCache st0 [] 0 v0 []) ev = Some x ∧
    line_is s' a next sh ∧ (∀ d, in_cache sh = Some d → copy sys s' d a = Some (System.block (System.self x))) ∧
    others a s0 s' ∧ (∀ b, b ≠ a → ∀ d, copy sys s' d b = copy sys s0 d b) ∧
    carries sys counts junk dirs a s0 ins x ∧ transfer ins outs (abs s0) (abs s') ∧
    Forall2 (λ o q, o.1 = q ∧ head_of (abs s0) q = Some o.2) outs (omap takes acts) ∧
    (omap takes acts = [] ∨ omap takes acts = [queue_of ev]) ∧
    (System.wrote x = false ∧ dialogue s' = dialogue s0 ∧ (System.seen x = [] ∨ not_reading a s0) ∨
     ∃ v c, System.seen x = [v] ∧ (dialogue s').2 = (dialogue s0).2 ++ [c] ∧
       tells sys cooldown a s0 v (if System.wrote x then w else v) c).

(** The worker of the transition. *)
Lemma worker_moves ev sh : fits_state st0 sh = true → brought → (ev = L1Cache.Event_Data → is_Some incoming) →
  partial (λ f, ∀ w, tracked w start at_start sh f)
    (doTransitionWorker L1Cache.find_transition (perform sys counts junk dirs cfg now rt cooldown)
       needs resources (available now) ev st0 a)
    (λ r f, match r.1 with
       | TransitionResult_Valid => ∃ acts w x fl sh', fits_state r.2 sh' = true ∧
           L1Cache.find_transition st0 ev = Some (r.2, acts) ∧
           System.cache_event incoming w (System.mkCache st0 [] 0 v0 []) ev = Some x ∧
           tracked w x fl sh' f ∧ taken fl = omap takes acts ∧ (omap takes acts = [] ∨ omap takes acts = [queue_of ev])
       | TransitionResult_ResourceStall => sorted (abs (self f))
       end).
Proof.
  intros Hfit Hbr Hev. unfold doTransitionWorker.
  destruct (L1Cache.find_transition st0 ev) as [[next acts]|] eqn:Et; [|by apply triple_raise; intros []].
  destruct (step_fits_run st0 ev sh next acts Et Hfit) as (sh' & Hrun & Hfit').
  destruct (known_actions ev st0 next acts Et) as (fl & Hfl & Htk & Htq & Hdata).
  pose proof (stage_run acts (λ H, Hev (Hdata H)) sh at_start sh' fl [] Hrun Hfl) as Hstage.
  eapply triple_bind with (R := λ _ f, tracked v0 start at_start sh f).
  { apply triple_conseq with (P' := tracked v0 start at_start sh) (Q' := λ _, tracked v0 start at_start sh);
      [apply tracked_check_all|by intros f Hf|done]. }
  intros []; [|apply triple_ret; intros f Hf; apply Hf].
  eapply triple_bind with (R := λ _, at_stage (sh', fl, acts)).
  - apply triple_conseq with (P' := at_stage (sh, at_start, [])) (Q' := λ _, at_stage (sh', fl, acts)); [|by intros f Hf; exists v0|done].
    apply (triple_each_run _ stage_act at_stage); [|exact Hstage]. intros act p p'. by apply stage_step.
  - intros ?. apply triple_ret. intros f (w & Hf & _). exists acts, w. eexists _, fl, sh'. split; [done|]. split; [done|].
    unfold System.cache_event. cbn [System.st]. rewrite Et. cbn [mbind option_bind]. split; [done|].
    split; [|done]. destruct Hf as [Hf Htr]. split; [done|]. by eapply tracks_turn; [|exact Htr].
Qed.

Lemma doTransition_moves ev sh res s' : l1_ok sys s0 → line_is s0 a st0 sh → sorted (abs s0) → v0 = held_block s0 a →
  brought → (ev = L1Cache.Event_Data → is_Some incoming) →
  doTransition sys counts junk dirs cfg now rt cooldown ev (entry_ptr a sh) (tbe_ptr_of a sh) a s0 = Ok (res, s') →
  sorted (abs s') ∧ (res = TransitionResult_Valid → moved_as ev s').
Proof.
  intros H0 Hl Hso Hv Hbr Hev. unfold doTransition. rewrite (getState_line sys s0 a st0 sh) by (done || apply H0).
  cbn [mbind outcome_bind]. intros ([[res' next] f] & H1 & H2)%bind_Ok.
  assert (frame_ok sh (mkFrame s0 (tbe_ptr_of a sh) (entry_ptr a sh))) as Hf.
  { split; [|done]. apply (within_start _ _ _ st0); [apply H0|exact Hl]. }
  assert (∀ w, tracked w start at_start sh (mkFrame s0 (tbe_ptr_of a sh) (entry_ptr a sh))) as Htr.
  { intros w. split; [done|]. apply (tracks_start st0); [apply H0|done..]. }
  pose proof (triple_Ok _ _ _ _ _ _ _ (worker_moves ev sh (proj1 Hl) Hbr Hev) Htr H1) as Hw. cbn [fst snd] in Hw.
  destruct res'; [|by injection H2 as <- <-].
  destruct Hw as (acts & w & x & fl & sh' & Hfit & Het & Hx & [Hf' Htx] & Htk & Htq). destruct Hf' as (Hs & He & Ht).
  rewrite He, Ht in H2. apply bind_Ok in H2 as ([u s2] & H2 & [= <- <-]). cbn [snd].
  pose proof (triple_Ok _ _ _ _ _ _ _ (line_setState w x fl sh' next) (conj Hs Htx) H2) as [Hs2 Htx2].
  split; [apply Htx2|]. intros _.
  assert (line_is s2 a next sh') as Hl2.
  { apply prog_bind_Ok in H2 as (? & s1 & H2 & H3).
    pose proof (triple_Ok _ _ _ _ _ _ _ (safe_setState sys s0 a next sh' Ha) Hs H2) as Hset.
    destruct (triple_Ok _ _ _ _ _ _ _ (safe_setAccessPermission sys s0 a next sh' Ha) Hset H3) as (Hw2 & Hem & Htm).
    by eapply marked_line. }
  destruct Htx2 as [E1 E2 E3 E4 E5 E6 E7 (ins & outs & E8 & E8' & E8'') E9].
  exists next, acts, w, x, sh', ins, outs. rewrite Htk in E8''. split_and!; try done.
  - apply Hs2.
  - intros b Hne d. by apply E4.
  - destruct (called fl); [|left; tauto]. destruct E9 as (v & Hsn & [(? & ? & ?)|(c & Hc & Htell)]); [left; tauto|]. right. by exists v, c.
Qed.

End transitions.

(** ** Ports *)

Section ports.
Context {W : Wired} (sys : RubySystem.t) (counts : list Z) (junk : Z) (dirs : DirectoryMemory.statics).
Context (cfg : config) (now rt : Z) (cooldown : bool) (Hwarm : RubySystem.getWarmupEnabled sys = false).
Implicit Types (s : t) (sh : shape) (st : L1Cache.State) (b q : Z) (p : payload).

#[local] Abbreviation held_block := (held_block sys).
#[local] Abbreviation moved_as := (moved_as sys counts junk dirs cooldown).

(** The event that a message at the head of a queue causes, its line, and the data it
    brings. *)
Inductive caused s : Z → payload → Z → L1Cache.Event → option (list Z) → Prop :=
  | by_bus q m ev : q = requestToCache ∨ q = requestToCacheWB →
      System.bus_event (bool_decide (RequestMsg.m_Requestor m = m_machineID s)) (RequestMsg.m_Type m) = Some ev →
      caused s q (PRequest m) (RequestMsg.m_Addr m) ev None
  | by_data m : ResponseMsg.m_Type m = Response_DATA ∨ ResponseMsg.m_Type m = Response_DATA_TO_CACHE →
      caused s responseToCache (PResponse m) (ResponseMsg.m_Addr m) L1Cache.Event_Data
        (Some (bytes_of sys (ResponseMsg.m_DataBlk m)))
  | by_ack m : ResponseMsg.m_Type m = Response_MEMORY_ACK →
      caused s responseToCache (PResponse m) (ResponseMsg.m_Addr m) L1Cache.Event_Ack None
  | by_access r ev s' : mandatory_request_type_to_event (RubyRequest.m_Type r) s = Ok (ev, s') →
      caused s mandatoryQueue (PRuby r) (RubyRequest.m_LineAddress r) ev None
  | by_victim r v : let d := bool_decide (RubyRequest.m_Type r ≠ IFETCH) in
      getL1CacheEntry sys s (RubyRequest.m_LineAddress r) = Ok None →
      CacheMemory.cacheAvail sys (cache_of s d) (RubyRequest.m_LineAddress r) = Ok false →
      CacheMemory.cacheProbe sys (cache_of s d) (RubyRequest.m_LineAddress r) = Ok v →
      caused s mandatoryQueue (PRuby r) v L1Cache.Event_Replacement None
  | by_lock m : RequestMsg.m_Type m = Request_GETMATOMICST → RequestMsg.m_Requestor m ≠ m_machineID s →
      caused s atomicRequestToCache (PRequest m) (RequestMsg.m_Addr m) L1Cache.Event_ATOMICST None
  | by_unlock m : RequestMsg.m_Type m = Request_GETMATOMICEN →
      caused s atomicRequestToCache (PRequest m) (RequestMsg.m_Addr m) L1Cache.Event_ATOMICEN None.

(** The transition that a message at the head of a queue causes. *)
Definition fires s s' : Prop :=
  ∃ q p b ev inc st sh, head_of (abs s) q = Some p ∧ caused s q p b ev inc ∧ line_is s b st sh ∧
    moved_as b s inc st (held_block s b) ev s'.

Definition ok s : Prop := l1_ok sys s ∧ sorted (abs s).

(** A port looks at the state, counts and notes a requestor before it triggers. *)
Definition near b s s1 : Prop :=
  still sys s s1 ∧ others b s s1 ∧ (∀ st sh, line_is s b st sh → line_is s1 b st sh) ∧ l1_ok sys s1.

Lemma near_self b s : ok s → near b s s.
Proof. by intros [? _]. Qed.

Lemma moved_near b s s1 inc st v ev s' : near b s s1 → moved_as b s1 inc st v ev s' → moved_as b s inc st v ev s'.
Proof.
  intros ([(Hc & Ht & Hd & Hm) Hb] & Ho & _) (next & acts & w & x & sh & ins & outs & H1 & H2 & H3 & H4 & H5 & H6 & H7 & H8 & H9 & H10 & H11).
  exists next, acts, w, x, sh, ins, outs. split_and!; try done.
  - intros c Hne. destruct (H5 c Hne) as [G1 G2], (Ho c Hne) as [G3 G4]. split; [intros d; by rewrite G1|by rewrite G2].
  - intros c Hne d. by rewrite H6.
  - unfold carries, is_request, is_data in *. by rewrite <- Hm.
  - intros id. rewrite (H8 id). unfold holding. by rewrite Hb.
  - eapply Forall2_impl; [exact H9|]. intros o q [E1 E2]. split; [done|]. rewrite <- E2. unfold head_of. by rewrite Hb.
  - rewrite <- Hd. destruct H11 as [(? & ? & H11)|(v' & c & G1 & G2 & r & r' & p & p' & blk & blk' & Hr & G3)].
    { left. unfold not_reading in *. injection Hd as _ E2 _. by rewrite <- E2. }
    right. exists v', c. split; [done|]. split; [done|]. exists r, r', p, p', blk, blk'. split; [|done].
    injection Hd as E1 E2 _. by rewrite <- E1, <- E2.
Qed.

Lemma wake_sorted s r s' : wake_next_cycle s = Ok (r, s') → sorted (abs s) → sorted (abs s').
Proof. by intros (c & [= _ <-] & ->)%on_abs_Ok. Qed.

Lemma l1_trigger_fires s s1 b ev inc st sh q p r s' : ok s → near b s s1 → line sys b → line_is s b st sh →
  head_of (abs s) q = Some p → caused s q p b ev inc →
  trigger sys counts junk dirs cfg now rt cooldown ev b (entry_ptr b sh) (tbe_ptr_of b sh) s1 = Ok (r, s') →
  sorted (abs s') ∧ (r = Fired → fires s s').
Proof.
  intros [Hs Hso] Hn Hb Hl Hh Hca (res & s2 & H1 & H2)%prog_bind_Ok.
  pose proof Hn as ([(Hc & _ & _ & _) Hbuf] & _ & Hl1 & Hs1).
  assert (∀ q, head_of (abs s1) q = head_of (abs s) q) as Hhead by (intros ?; unfold head_of; by rewrite Hbuf).
  assert (held_block s b = held_block s1 b) as Hv by (unfold L1Runs.held_block; by rewrite !Hc).
  apply (doTransition_moves sys counts junk dirs cfg now rt cooldown Hwarm b Hb s1 inc st (held_block s b)) in H1
    as [Hso2 Hmv]; [|done|by apply Hl1|intros id buf; rewrite Hbuf; apply Hso|done| |].
  - destruct res; [|].
    + injection H2 as <- <-. split; [done|]. intros _. exists q, p, b, ev, inc, st, sh. split_and!; [done..|].
      by apply (moved_near b s s1), Hmv.
    + apply prog_bind_Ok in H2 as (? & s3 & H2 & [= <- <-]). split; [by eapply wake_sorted|done].
  - intros v Hinc. rewrite Hhead. destruct Hca; try done. injection Hinc as <-. by exists m.
  - intros ->. by inversion Hca as [? ? ? ? He|? ?|? ?|? ? ? He| | |]; subst; try done;
      [destruct (RequestMsg.m_Type m), (bool_decide _)|destruct (RubyRequest.m_Type _)].
Qed.

(** What a run of a port gives. *)
Definition port_run s (r : port_result) s' : Prop := sorted (abs s') ∧ (r = Fired → fires s s').

Lemma if_ready_run q (code : prog t port_result) s r s' : ok s → if_ready now q code s = Ok (r, s') →
  (code s = Ok (r, s') → port_run s r s') → port_run s r s'.
Proof.
  intros Hs (y & s1 & H1 & H2)%prog_bind_Ok Hk. apply on_abs_Ok in H1 as (c & ->%isReady_same & ->).
  replace (with_base s _) with s in H2 by (by destruct s as [[]]). destruct y; [by apply Hk|].
  injection H2 as <- <-. split; [apply Hs|done].
Qed.

Lemma l1_peek_run {M A} q (cast : payload → outcome M) (k : M → prog t A) s r s' :
  (m ← (p ← on_abs (AbstractController.peek q); lift (cast p)); k m) s = Ok (r, s') →
  ∃ p m, head_of (abs s) q = Some p ∧ cast p = Ok m ∧ k m s = Ok (r, s').
Proof.
  intros (m & s1 & H1 & H2)%prog_bind_Ok. apply prog_bind_Ok in H1 as (p & s2 & H1 & [H3 ->]%lift_Ok).
  apply on_abs_Ok in H1 as (c & [-> Hh]%peek_head & ->).
  replace (with_base s _) with s in H2 by (by destruct s as [[]]). by exists p, m.
Qed.

Lemma unless_held_run b q x (code : prog t port_result) s r s' : ok s →
  unless_held sys now rt b q x code s = Ok (r, s') →
  (code s = Ok (r, s') → port_run s r s') → port_run s r s'.
Proof.
  intros Hs (held & s1 & [= <- <-] & H2)%prog_bind_Ok Hk. destruct (_ && _); [|by apply Hk].
  apply prog_bind_Ok in H2 as (? & s2 & H2 & [= <- <-]). apply on_abs_Ok in H2 as (c & H2 & ->).
  split; [|done]. by apply delayHead_transfer in H2 as [_ ?]; [|apply Hs].
Qed.

Lemma entry_run {A} b (k : option entry_ref → prog t A) s r s' : l1_ok sys s →
  (e ← reads (λ s, getL1CacheEntry sys s b); k e) s = Ok (r, s') →
  line sys b ∧ ∃ st sh, line_is s b st sh ∧ getL1CacheEntry sys s b = Ok (entry_ptr b sh) ∧ k (entry_ptr b sh) s = Ok (r, s').
Proof.
  intros Hs (e & s1 & [H1 ->]%reads_Ok & H2)%prog_bind_Ok.
  destruct (decide (b = Address.line_address sys b)) as [E|E];
    [|by rewrite not_line_entry in H1 by (by intros [_ ?])].
  assert (line sys b) as Hb by (rewrite E; apply line_of_make). split; [done|].
  destruct (proj2 Hs b) as (st & sh & Hl). exists st, sh.
  pose proof (at_line_entry sys b st sh s Hb (conj Hs Hl)) as He. rewrite He in H1. injection H1 as <-. done.
Qed.

Lemma pointers_run {A} b (k : option entry_ref → option Z → prog t A) s r s' : l1_ok sys s →
  with_pointers sys b k s = Ok (r, s') →
  line sys b ∧ ∃ st sh, line_is s b st sh ∧ k (entry_ptr b sh) (tbe_ptr_of b sh) s = Ok (r, s').
Proof.
  intros Hs (Hb & st & sh & Hl & _ & H1)%entry_run; [|done]. split; [done|]. exists st, sh. split; [done|].
  apply prog_bind_Ok in H1 as (p & s1 & [= <- <-] & H1).
  by rewrite (at_line_tbe sys b st sh s Hb (conj Hs Hl)) in H1.
Qed.

Lemma response_run s r s' : ok s →
  responseNetwork_in sys counts junk dirs cfg now rt cooldown s = Ok (r, s') → port_run s r s'.
Proof.
  intros Hs H1. eapply if_ready_run; [done|exact H1|]. clear H1. intros (p & m & Hh & Hp & H1)%l1_peek_run.
  destruct p; try done. injection Hp as ->. eapply unless_held_run; [done|exact H1|]. clear H1.
  intros (Hb & st & sh & Hl & H1)%pointers_run; [|apply Hs].
  destruct (ResponseMsg.m_Type m) eqn:Ety; try (injection H1 as <- <-; split; [apply Hs|done]);
    (eapply l1_trigger_fires; [done|by apply near_self|done|done|exact Hh| |exact H1]); constructor; auto.
Qed.

Lemma atomic_run s r s' : ok s →
  atomicRequestNetwork_in sys counts junk dirs cfg now rt cooldown s = Ok (r, s') → port_run s r s'.
Proof.
  intros Hs H1. eapply if_ready_run; [done|exact H1|]. clear H1. intros (p & m & Hh & Hp & H1)%l1_peek_run.
  destruct p; try done. injection Hp as ->. eapply unless_held_run; [done|exact H1|]. clear H1.
  intros (Hb & st & sh & Hl & H1)%pointers_run; [|apply Hs].
  apply prog_bind_Ok in H1 as (me & s1 & [= <- <-] & H1).
  destruct (RequestMsg.m_Type m) eqn:Ety; try (injection H1 as <- <-; split; [apply Hs|done]).
  - eapply l1_trigger_fires; [done|by apply near_self|done|done|exact Hh|by constructor|exact H1].
  - case_decide; [eapply l1_trigger_fires; [done|by apply near_self|done|done|exact Hh|by constructor|exact H1]|].
    apply prog_bind_Ok in H1 as (? & s2 & H1 & [= <- <-]). apply on_abs_Ok in H1 as (c & H1 & ->).
    split; [|done]. apply dequeue_transfer in H1 as (? & _ & _ & Hso). apply Hso, Hs.
Qed.

Lemma note_near s b st sh m u s1 : ok s → line sys b → line_is s b st sh →
  note_requestor sys counts b m (entry_ptr b sh) (tbe_ptr_of b sh) s = Ok (u, s1) → near b s s1.
Proof.
  intros Hs Hb Hl (send & s2 & [_ ->]%reads_Ok & H1)%prog_bind_Ok.
  destruct send; [|injection H1 as _ <-; by apply near_self].
  apply prog_bind_Ok in H1 as (e & s2 & [He ->]%reads_Ok & H1).
  apply prog_bind_Ok in H1 as (none & s2 & [_ ->]%lift_Ok & H1).
  destruct none; [|injection H1 as _ <-; by apply near_self].
  apply prog_bind_Ok in H1 as (d & s2 & [_ ->]%lift_Ok & H1). destruct Hs as [Hs Hso].
  pose proof (within_start sys s b st sh (proj1 Hs) Hl) as Hw.
  assert (has_entry sh = true) as Hsh.
  { unfold entry_ptr in He. destruct sh as [[]]; [|done]. done. }
  assert (∀ st' sh', line_is s b st' sh' → has_entry sh' = true ∧ entry_ptr b sh' = entry_ptr b sh) as Hsame.
  { intros st' sh' Hl'. pose proof (at_line_entry sys b st sh s Hb (conj Hs Hl)) as E.
    rewrite (at_line_entry sys b st' sh' s Hb (conj Hs Hl')) in E. injection E as E. split; [|done].
    unfold has_entry, entry_ptr in *. by destruct (in_cache sh'), (in_cache sh). }
  split_and!.
  - exact (still_update_data sys b s sh (λ e, with_destinations e d) s u s1 (λ _, eq_refl) Hb Hw H1).
  - exact (proj2 (proj2 (triple_Ok _ _ _ _ _ _ _ (safe_update_data sys b s sh (λ e, with_destinations e d) Hb Hsh) Hw H1))).
  - intros st' sh' Hl'. destruct (Hsame st' sh' Hl') as [Hsh' Hp]. rewrite <- Hp in H1.
    by destruct (triple_Ok _ _ _ _ _ _ _ (safe_note_destinations sys b st' sh' d Hb Hsh') (conj Hs Hl') H1).
  - by destruct (triple_Ok _ _ _ _ _ _ _ (safe_note_destinations sys b st sh d Hb Hsh) (conj Hs Hl) H1).
Qed.

Lemma answer_run s b st sh ev m q p r s' : ok s → line sys b → line_is s b st sh → head_of (abs s) q = Some p →
  caused s q p b ev None →
  answer_other sys counts junk dirs cfg now rt cooldown ev b m (entry_ptr b sh) (tbe_ptr_of b sh) s = Ok (r, s') →
  port_run s r s'.
Proof.
  intros Hs Hb Hl Hh Hca (u & s1 & H1 & H2)%prog_bind_Ok. pose proof (note_near s b st sh m u s1 Hs Hb Hl H1) as Hn.
  apply prog_bind_Ok in H2 as (atomic & s2 & [_ ->]%reads_Ok & H2).
  apply prog_bind_Ok in H2 as (waiting & s2 & H3 & H2).
  assert (s2 = s1) as -> by (destruct atomic; [by apply reads_Ok in H3 as [_ ?]|by injection H3]).
  destruct waiting; [|by eapply l1_trigger_fires].
  injection H2 as <- <-. split; [|done]. destruct Hn as ([_ Hb'] & _). intros id buf. rewrite Hb'. apply Hs.
Qed.

Lemma request_run q s r s' : q = requestToCache ∨ q = requestToCacheWB → ok s →
  request_port sys counts junk dirs cfg now rt cooldown q s = Ok (r, s') → port_run s r s'.
Proof.
  intros Hq Hs H1. eapply if_ready_run; [done|exact H1|]. clear H1. intros (p & m & Hh & Hp & H1)%l1_peek_run.
  destruct p; try done. injection Hp as ->. eapply unless_held_run; [done|exact H1|]. clear H1.
  intros (Hb & st & sh & Hl & H1)%pointers_run; [|apply Hs].
  apply prog_bind_Ok in H1 as (me & s1 & [= <- <-] & H1).
  apply prog_bind_Ok in H1 as (here & s1 & [_ ->]%lift_Ok & H1).
  apply prog_bind_Ok in H1 as (? & s1 & [_ ->]%lift_Ok & H1).
  assert (∀ ev, System.bus_event (bool_decide (RequestMsg.m_Requestor m = m_machineID s)) (RequestMsg.m_Type m) = Some ev →
    caused s q (PRequest m) (RequestMsg.m_Addr m) ev None) as Hca by (intros ev Hev; by apply by_bus).
  destruct (RequestMsg.m_Type m) eqn:Ety; cbn [System.bus_event] in Hca;
    try (injection H1 as <- <-; split; [apply Hs|done]);
    destruct (bool_decide _);
    first [eapply l1_trigger_fires; [done|by apply near_self|done|done|exact Hh|by apply Hca|exact H1]
          |eapply answer_run; [done|done|done|exact Hh|by apply Hca|exact H1]].
Qed.

(** *** Requests of the processor *)

Lemma event_near s b ty ev s1 : ok s → mandatory_request_type_to_event ty s = Ok (ev, s1) →
  near b s s1 ∧ tbe_ptr s1 b = tbe_ptr s b.
Proof.
  intros [Hs Hso] H1. assert (base s1 = base s ∧ TBEs s1 = TBEs s ∧ m_machineID s1 = m_machineID s) as (Hba & Ht & Hm).
  { destruct ty; cbn in H1; try done; by injection H1 as _ <-. }
  assert (∀ a st sh, line_is s a st sh → line_is s1 a st sh) as Hl.
  { intros a st sh. unfold line_is, entry_state, tbe_state, cache_of. by rewrite !Hba, Ht. }
  assert (l1_ok sys s1) as Hs1.
  { split; [unfold base_ok; rewrite Hba; apply Hs|]. intros a. destruct (proj2 Hs a) as (st & sh & ?). exists st, sh. by apply Hl. }
  split; [|unfold tbe_ptr; by rewrite Ht]. split_and!; [|intros c _|by apply Hl|done].
  - unfold still, same, copy, tbe_copy, dialogue, abs, cache_of. by rewrite !Hba, !Ht, Hm.
  - unfold entry_state, tbe_state, cache_of. by rewrite !Hba, Ht.
Qed.

Lemma event_run s rq b st sh r s' : b = RubyRequest.m_LineAddress rq → ok s → line sys b → line_is s b st sh →
  head_of (abs s) mandatoryQueue = Some (PRuby rq) →
  (event ← mandatory_request_type_to_event (RubyRequest.m_Type rq); tbe ← gets (λ s, tbe_ptr s b);
   trigger sys counts junk dirs cfg now rt cooldown event b (entry_ptr b sh) tbe) s = Ok (r, s') → port_run s r s'.
Proof.
  intros -> Hs Hb Hl Hh (ev & s1 & H1 & H2)%prog_bind_Ok.
  apply prog_bind_Ok in H2 as (p & s2 & [= <- <-] & H2).
  destruct (event_near s (RubyRequest.m_LineAddress rq) _ _ _ Hs H1) as [Hn Hp].
  rewrite Hp, (at_line_tbe sys _ st sh s Hb (conj (proj1 Hs) Hl)) in H2.
  eapply l1_trigger_fires; [done|done|done|done|exact Hh|by eapply by_access|exact H2].
Qed.

Lemma access_run s rq r s' : ok s → head_of (abs s) mandatoryQueue = Some (PRuby rq) →
  access sys counts junk dirs cfg now rt cooldown rq s = Ok (r, s') → port_run s r s'.
Proof.
  intros Hs Hh (Hb & st & sh & Hl & He & H1)%entry_run; [|apply Hs].
  apply prog_bind_Ok in H1 as (avail & s1 & H2 & H1).
  assert (s1 = s) as -> by (destruct (entry_ptr _ sh); [by injection H2|by apply reads_Ok in H2 as [_ ?]]).
  destruct avail; [by eapply event_run|].
  apply prog_bind_Ok in H1 as (v & s1 & [Hv ->]%reads_Ok & H1).
  apply pointers_run in H1 as (Hbv & st' & sh' & Hl' & H1); [|apply Hs].
  eapply l1_trigger_fires; [done|by apply near_self|done|done|exact Hh| |exact H1].
  destruct (entry_ptr _ sh); [done|]. apply reads_Ok in H2 as [H2 _]. by apply by_victim.
Qed.

Lemma mandatory_run s r s' : ok s →
  mandatoryQueue_in sys counts junk dirs cfg now rt cooldown s = Ok (r, s') → port_run s r s'.
Proof.
  intros Hs H1. eapply if_ready_run; [done|exact H1|]. clear H1.
  intros (blocked & s1 & [= <- <-] & H1)%prog_bind_Ok. apply l1_peek_run in H1 as (p & m & Hh & Hp & H1).
  destruct p; try done. injection Hp as ->. eapply unless_held_run; [done|exact H1|]. clear H1. intros H1.
  case_decide; [by eapply access_run|]. apply entry_run in H1 as (Hb & st & sh & Hl & _ & H1); [|apply Hs].
  case_decide; [by eapply event_run|]. injection H1 as <- <-. split; [apply Hs|done].
Qed.

Lemma ports_run rank code s r s' : (rank, code) ∈ ports sys counts junk dirs cfg now rt cooldown →
  ok s → code s = Ok (r, s') → port_run s r s'.
Proof.
  intros Hin Hs. unfold ports in Hin. repeat (apply elem_of_cons in Hin as [[= -> ->]|Hin];
    [first [by apply atomic_run|by apply response_run|by apply request_run; [tauto|]|by apply mandatory_run]|]).
  by apply elem_of_nil in Hin.
Qed.

End ports.

(** ** Runs *)

Section runs.
#[local] Existing Instance any_wiring.
Context (sys : RubySystem.t) (counts : list Z) (junk : Z) (dirs : DirectoryMemory.statics) (cfg : config).
Context (Hwarm : RubySystem.getWarmupEnabled sys = false).
Implicit Types (s : t).

#[local] Abbreviation ok := (ok sys).

Lemma ok_wakeup now rt cooldown fuel s u s' : ok s →
  wakeup sys counts junk dirs cfg now rt cooldown fuel s = Ok (u, s') → ok s'.
Proof.
  intros Hs H1. refine (triple_Ok (λ _, False) ok _ (λ _, ok) _ _ _ _ Hs H1). unfold wakeup. apply loop_keeps; [| |tauto|tauto|].
  - intros rank. apply triple_partial. intros s1 y s2 [G1 G2] (c & [= _ <-] & ->)%on_abs_Ok. split; [|done].
    apply l1_ok_like; [done|]. apply like_ctl; [apply like_refl, G1|]. by destruct G1 as [(_ & _ & ?) _].
  - apply triple_partial. intros s1 y s2 [G1 G2] H2. split; [|by eapply wake_sorted].
    exact (triple_Ok _ _ _ _ _ _ _ (ok_wake_next_cycle sys) G1 H2).
  - intros rank code Hin. apply triple_partial. intros s1 y s2 [G1 G2] H2. split.
    + exact (triple_Ok _ _ _ _ _ _ _ (safe_ports sys counts junk dirs cfg now rt cooldown rank code Hin) G1 H2).
    + exact (proj1 (ports_run sys counts junk dirs cfg now rt cooldown Hwarm rank code s1 y s2 Hin (conj G1 G2) H2)).
Qed.

Lemma makeRequest_sorted now rt p s r s' : sorted (abs s) →
  on_node (makeRequest sys now rt junk p) s = Ok (r, s') → sorted (abs s').
Proof.
  intros Hs (n' & H1 & ->)%zoom_Ok. change (sorted (ctl n')). revert H1. unfold makeRequest.
  destruct (decide _); [by intros [= _ <-]|].
  intros ([t1 t2] & _ & H1)%bind_Ok. apply bind_Ok in H1 as ([st1 n1] & Hins & H1).
  assert (ctl n1 = ctl (base s)) as Hc.
  { unfold insertRequest in Hins. apply bind_Ok in Hins as (u & _ & Hins).
    destruct (_ && _); [by injection Hins as _ <-|]. destruct (bool_decide _); [by injection Hins as _ <-|].
    destruct (bool_decide _); [by injection Hins as _ <-|]. apply bind_Ok in Hins as (v & _ & Hins). by injection Hins as _ <-. }
  cbn [fst snd] in H1. destruct st1; try (injection H1 as _ <-; by rewrite Hc).
  apply bind_Ok in H1 as ([u n2] & Hiss & [= _ <-]). cbn [snd]. unfold issueRequest in Hiss.
  apply bind_Ok in Hiss as (msg & _ & Hiss). apply bind_Ok in Hiss as (v & _ & Hiss).
  apply on_ctl_Ok in Hiss as (c & Henq & ->). apply enqueue_transfer in Henq as (_ & Hso & _). apply Hso. by rewrite Hc.
Qed.

Lemma l1_steps_sorted s s' : ok s → rtc (l1_step sys counts junk dirs cfg) s s' → ok s'.
Proof.
  intros Hs. induction 1 as [|s s1 s' H1 _ IH]; [done|]. apply IH. destruct Hs as [Hl Hso].
  pose proof (l1_step_ok sys counts junk dirs cfg s s1 Hl H1) as Hl1. destruct H1 as [now rt cooldown fuel u H1|now rt p r H1|now rt edge buf m latency rmw u H1|now buf r H1].
  - exact (ok_wakeup now rt cooldown fuel s u s1 (conj Hl Hso) H1).
  - split; [done|by eapply makeRequest_sorted].
  - split; [done|]. apply on_abs_Ok in H1 as (c & H1 & ->).
    apply enqueue_transfer in H1 as (_ & Hc & _). by apply Hc.
  - split; [done|]. apply on_abs_Ok in H1 as (c & H1 & ->).
    apply dequeue_transfer in H1 as (? & _ & _ & Hc). by apply Hc.
Qed.

(** C7: when a port of a cache controller fires a transition, in a run from empty caches, it is
    the transition that the cache of the protocol model makes for the message at the head of
    the queue of the port: the line gets the next state and the copy of the model, and no other
    line changes; the requests, write-backs and data of the model, and nothing else but
    announcements of locked accesses, go to the network; the message is taken exactly if the
    transition says so; and the processor is told that its access is done, with the data that
    the model says it sees, exactly if it sees some and waits for it: nothing is told if the
    model shows it nothing, or if it is a load for which no request of the processor waits. *)
Theorem l1_fires_model_transitions s s' now rt cooldown rank code s2 :
  l1_fresh sys s → (∀ q b, AbstractController.buffers (abs s) !! q = Some b → MessageBuffer.m_stall_msg_map b = []) →
  rtc (l1_step sys counts junk dirs cfg) s s' →
  (rank, code) ∈ ports sys counts junk dirs cfg now rt cooldown → code s' = Ok (Fired, s2) →
  ∃ q p a ev incoming st sh next acts w x sh2 ins outs,
    head_of (abs s') q = Some p ∧ caused sys s' q p a ev incoming ∧ line_is s' a st sh ∧
    L1Cache.find_transition st ev = Some (next, acts) ∧
    System.cache_event incoming w (System.mkCache st [] 0 (held_block sys s' a) []) ev = Some x ∧
    line_is s2 a next sh2 ∧
    (∀ d, in_cache sh2 = Some d → copy sys s2 d a = Some (System.block (System.self x))) ∧
    (∀ b d, b ≠ a → entry_state s2 d b = entry_state s' d b ∧ tbe_state s2 b = tbe_state s' b ∧
       copy sys s2 d b = copy sys s' d b) ∧
    carries sys counts junk dirs a s' ins x ∧ transfer ins outs (abs s') (abs s2) ∧
    Forall2 (λ o q, o.1 = q ∧ head_of (abs s') q = Some o.2) outs (omap takes acts) ∧
    (omap takes acts = [] ∨ omap takes acts = [queue_of ev]) ∧
    (System.wrote x = false ∧ dialogue s2 = dialogue s' ∧ (System.seen x = [] ∨ not_reading a s') ∨
     ∃ v c, System.seen x = [v] ∧ (dialogue s2).2 = (dialogue s').2 ++ [c] ∧
       tells sys cooldown a s' v (if System.wrote x then w else v) c).
Proof.
  intros Hf Hst Hr Hin H1.
  assert (ok s) as Hs.
  { split; [by apply fresh_ok|]. intros q b Hb. unfold stall_sorted. rewrite (Hst q b Hb). constructor. }
  destruct (proj2 (ports_run sys counts junk dirs cfg now rt cooldown Hwarm rank code s' Fired s2 Hin
    (l1_steps_sorted s s' Hs Hr) H1) eq_refl) as (q & p & a & ev & inc & st & sh & Hh & Hca & Hl & Hmv).
  destruct Hmv as (next & acts & w & x & sh2 & ins & outs & E1 & E2 & E3 & E4 & E5 & E6 & Erest).
  exists q, p, a, ev, inc, st, sh, next, acts, w, x, sh2, ins, outs. split_and!; try done; try apply Erest.
  intros b d Hne. destruct (E5 b Hne) as [G1 G2]. split_and!; [apply G1|done|by apply E6].
Qed.

End runs.

(** ** Witness *)

(** The port of the processor takes its load: the line is not cached, so an entry and a
    transaction are allocated and a request is sent. *)
Definition demo_port : prog t port_result :=
  mandatoryQueue_in sys64 [1; 1; 0] 0 demo_statics demo_cfg 5 0 false.
Definition demo_fired : t := get_Ok (r ← demo_port demo_loading; Ok r.2) eq_refl.

Lemma demo_loading_run : rtc (l1_step sys64 [1; 1; 0] 0 demo_statics demo_cfg) demo_l1 demo_loading.
Proof. apply rtc_once. eapply (step_request _ _ _ _ _ _ _ 1 0 demo_load). vm_compute. reflexivity. Qed.

Lemma l1_fires_model_transitions_witness : ∃ a ev incoming st sh w x ins outs,
  line_is demo_loading a st sh ∧
  System.cache_event incoming w (System.mkCache st [] 0 (held_block sys64 demo_loading a) []) ev = Some x ∧
  carries sys64 [1; 1; 0] 0 demo_statics a demo_loading ins x ∧ transfer ins outs (abs demo_loading) (abs demo_fired) ∧
  of_buffer requestFromCache ins ≡ₚ holding (abs demo_fired) requestFromCache.
Proof.
  destruct (l1_fires_model_transitions sys64 [1; 1; 0] 0 demo_statics demo_cfg eq_refl demo_l1 demo_loading 5 0 false 0
    demo_port demo_fired demo_fresh) as (q & p & a & ev & inc & st & sh & next & acts & w & x & sh2 & ins & outs &
      _ & _ & H3 & _ & H5 & _ & _ & _ & H6 & H7 & H8 & H9 & _).
  - intros q b Hb. apply elem_of_list_to_map_2, list_elem_of_fmap in Hb as (i & [= -> ->] & _). done.
  - exact demo_loading_run.
  - unfold ports. do 4 apply list_elem_of_further. apply list_elem_of_here.
  - vm_compute. reflexivity.
  - exists a, ev, inc, st, sh, w, x, ins, outs. refine (conj H3 (conj H5 (conj H6 (conj H7 _)))).
    specialize (H7 requestFromCache).
    assert (holding (abs demo_loading) requestFromCache = []) as Hno by (vm_compute; reflexivity).
    assert (of_buffer requestFromCache outs = []) as Hout.
    { destruct H9 as [E|E]; rewrite E in H8; inversion H8 as [|o ? l ? [Ho _] Hl]; [done|]. inversion Hl.
      rewrite of_buffer_cons, Ho, decide_False by (by destruct ev). done. }
    rewrite Hno, Hout, app_nil_r in H7. exact (symmetry H7).
Defined.
