(* ===== verification/DirSafety.v ===== *)
(** * The lines of a directory

    The state of a line in a directory is written down twice, in its entry and, while a
    transaction is under way, in a transaction entry; and the entry names the owner.  Here
    a transition of the controller is followed action by action, beside the transition of
    the directory in [Coherence]: what the controller leaves of the line, sends to the
    caches and asks of the memory is what the model says.  So in every run the entries of a
    line agree, its owner is the one cache its state calls for, and no wakeup follows a null
    pointer. *)

From S2P Require Import Prelude Triples IntMath Addresses NodeSets Destinations Clocks StdHeap Buffers Arbiter.
From S2P Require Import SlotTimes Blocks Policies Caches Tables MsiTables Controllers DirectoryMemory.
From S2P Require Import Messages PacketQueues Machines DirController Coherence Pointers Contents.
Import RubySlicc_Util DirController.
Local Open Scope Z_scope.
Local Open Scope triple_scope.

(** ** Entries of lines *)

Section memory.
Context {E : Type} (sys : RubySystem.t) (dirs : DirectoryMemory.statics) (ver n : Z).
Implicit Types (d : DirectoryMemory.t E) (a b : Z).

(** A line of the directory with number [ver], which has [n] entries. *)
Definition home a : Prop :=
  line sys a ∧ DirectoryMemory.mapAddressToDirectoryVersion dirs a = Ok (u64 ver) ∧
  ∃ i, DirectoryMemory.mapAddressToLocalIdx sys dirs a = Ok i ∧ 0 ≤ i < n.

Definition slot a : nat :=
  match DirectoryMemory.mapAddressToLocalIdx sys dirs a with Ok i => Z.to_nat i | Err _ => 0%nat end.

Definition memory_ok d : Prop :=
  DirectoryMemory.m_version d = ver ∧ DirectoryMemory.m_num_entries d = n ∧
  Z.of_nat (length (DirectoryMemory.m_entries d)) = n.

Definition entry_of d a : option E := mjoin (DirectoryMemory.m_entries d !! slot a).

Context (Hgeo : Address.geometry sys) (Hdirs : statics_ok sys dirs).

Lemma home_slot a b : home a → home b → slot a = slot b → a = b.
Proof.
  intros ([Hfa Ea] & Hva & i & Hi & Hir) ([Hfb Eb] & Hvb & j & Hj & Hjr). unfold slot. rewrite Hi, Hj.
  intros Hs. rewrite Ea, Eb. apply (same_entry_same_line sys dirs); [done..|congruence|].
  rewrite Hi, Hj. f_equal. lia.
Qed.

Lemma home_index d a : memory_ok d → home a →
  DirectoryMemory.entry_index sys dirs d a = Ok (Z.of_nat (slot a)) ∧
  (slot a < length (DirectoryMemory.m_entries d))%nat.
Proof.
  intros (Hv & Hn & Hl) (_ & Hva & i & Hi & Hir). unfold DirectoryMemory.entry_index, DirectoryMemory.isPresent, slot.
  rewrite Hva, Hi, Hv, Hn. cbn [mbind outcome_bind]. rewrite !bool_decide_eq_true_2 by (done || lia).
  cbn [mbind outcome_bind assert_that]. split; [f_equal|]; lia.
Qed.

Lemma home_present d a : memory_ok d → home a → DirectoryMemory.isPresent dirs d a = Ok true.
Proof.
  intros (Hv & _ & _) (_ & Hva & _). unfold DirectoryMemory.isPresent. rewrite Hva, Hv. cbn.
  by rewrite bool_decide_eq_true_2.
Qed.

Lemma lookup_home d a : memory_ok d → home a → DirectoryMemory.lookup sys dirs d a = Ok (entry_of d a).
Proof.
  intros Hd Ha. unfold DirectoryMemory.lookup. destruct (home_index d a Hd Ha) as [-> Hlt].
  cbn [mbind outcome_bind]. unfold entry_of. apply lookup_lt_is_Some in Hlt as [o Ho].
  by rewrite (vget_nat _ _ _ Ho), Ho.
Qed.

(** [d'] has [e] for [a] and the rest of [d]. *)
Definition stores d a (e : E) d' : Prop :=
  memory_ok d' ∧ entry_of d' a = Some e ∧ ∀ b, home b → b ≠ a → entry_of d' b = entry_of d b.

Lemma vset_stores d a e : memory_ok d → home a → ∃ l,
  vset (DirectoryMemory.m_entries d) (Z.of_nat (slot a)) (Some e) = Ok l ∧
  stores d a e (DirectoryMemory.mk (DirectoryMemory.m_version d) (DirectoryMemory.m_size_bytes d)
    (DirectoryMemory.m_size_bits d) (DirectoryMemory.m_num_entries d) l).
Proof.
  intros Hd Ha. destruct (home_index d a Hd Ha) as [_ Hlt]. pose proof Hd as (Hv & Hn & Hl).
  eexists. split; [apply vset_Ok; split; [lia|done]|]. rewrite Nat2Z.id. split; [|split].
  - split_and!; cbn; [done|done|]. by rewrite length_insert.
  - unfold entry_of. cbn. by rewrite list_lookup_insert_eq.
  - intros b Hb Hne. unfold entry_of. cbn. rewrite list_lookup_insert_ne; [done|].
    intros Hs. by apply Hne, home_slot.
Qed.

Lemma allocate_home chg d a e : memory_ok d → home a →
  ∃ d', DirectoryMemory.allocate chg sys dirs d a e = Ok d' ∧ stores d a (chg e Read_Only) d'.
Proof.
  intros Hd Ha. unfold DirectoryMemory.allocate. rewrite (proj1 (home_index d a Hd Ha)). cbn [mbind outcome_bind].
  destruct (vset_stores d a (chg e Read_Only) Hd Ha) as (l & -> & Hl). by eexists.
Qed.

Lemma update_home d a e x : memory_ok d → home a → entry_of d a = Some x →
  ∃ d', DirectoryMemory.update_entry sys dirs d a (λ _, e) = Ok d' ∧ stores d a e d'.
Proof.
  intros Hd Ha Hx. unfold DirectoryMemory.update_entry. destruct (home_index d a Hd Ha) as [-> Hlt].
  cbn [mbind outcome_bind]. apply lookup_lt_is_Some in Hlt as [o Ho]. rewrite (vget_nat _ _ _ Ho).
  unfold entry_of in Hx. rewrite Ho in Hx. cbn in Hx. rewrite Hx. cbn [mbind outcome_bind from_option_or].
  destruct (vset_stores d a e Hd Ha) as (l & -> & Hl). by eexists.
Qed.

End memory.

(** ** What a directory holds *)

#[local] Existing Instance any_wiring.

Definition dir_buffers : gset Z := list_to_set (seqZ 0 5).

Lemma dir_buffer_known id : 0 ≤ id < 5 → id ∈ dir_buffers.
Proof. intros H. apply elem_of_list_to_set, elem_of_seqZ. lia. Qed.

(** The L1 cache of core [r]. *)
Definition core (r : nat) : MachineID := mkMachineID MachineType_L1Cache (Z.of_nat r).
Definition owners (o : option nat) : gset MachineID := from_option (λ r, {[core r]}) ∅ o.

(** Whether a line in a state has a transaction entry, and an owner; no line is in one of
    the other states. *)
Definition duties (st : Directory.State) : option (bool * bool) :=
  match st with
  | Directory.State_I => Some (false, false)
  | Directory.State_IS => Some (true, false)
  | Directory.State_IM | Directory.State_M_D => Some (true, true)
  | Directory.State_M | Directory.State_MI => Some (false, true)
  | _ => None
  end.

Section lines.
Context (sys : RubySystem.t) (counts : list Z) (dirs : DirectoryMemory.statics) (ver n : Z).
Implicit Types (s : t) (a b : Z) (p : payload) (k : mem_packet).

#[local] Abbreviation home := (home sys dirs ver n).
#[local] Abbreviation entry_of := (entry_of sys dirs).

Definition is_core (m : MachineID) : Prop := ∃ r, m = core r ∧ machine_ok counts m.

(** The messages for a directory are about its lines; the caches, which exist, write back
    through a queue of its own. *)
Definition message_ok (id : Z) p : Prop :=
  match p with
  | PRequest m =>
      home (RequestMsg.m_Addr m) ∧ is_core (RequestMsg.m_Requestor m) ∧
      (id = requestToDir → RequestMsg.m_Type m ≠ Request_PUTM) ∧
      (id = requestToDir_WB → RequestMsg.m_Type m = Request_PUTM)
  | PResponse m => home (ResponseMsg.m_Addr m)
  | PMemory m =>
      home (MemoryMsg.m_Addr m) ∧
      (MemoryMsg.m_Type m = MEMORY_READ → is_core (MemoryMsg.m_OriginalRequestorMachId m))
  | _ => True
  end.

(** A packet for the memory names the machine that asked. *)
Definition packet_ok k : Prop :=
  home (pkt_addr k) ∧ ∃ m, senderState k = Some m ∧ (pkt_isRead k = true → is_core m).

Definition packets s : list mem_packet := (PacketQueue.transmitList (memoryPort s)).*2.

Definition parts_ok s : Prop :=
  ctl_ok dir_buffers (base s) ∧ sorted (base s) ∧
  (∀ id, Forall (message_ok id) (holding (base s) id)) ∧
  Forall packet_ok (packets s) ∧ memory_ok ver n (directory s).

(** Line [a] is in state [st] with owner [o]: its entries say so, and are those that the
    state calls for. *)
Definition line_is s a (st : Directory.State) (o : option nat) : Prop :=
  ∃ tb, duties st = Some (tb, bool_decide (is_Some o)) ∧
    TBEState <$> TBETable.lookup (TBEs s) a = (if tb : bool then Some st else None) ∧
    match entry_of (directory s) a with
    | Some e => DirectoryState e = st ∧ dest_repr counts (owners o) (Owner e)
    | None => st = Directory.State_I
    end.

Definition dir_ok s : Prop := parts_ok s ∧ ∀ a, home a → ∃ st o, line_is s a st o.

(** The other lines are as they were. *)
Definition others a s0 s : Prop :=
  (∀ b, home b → b ≠ a → entry_of (directory s) b = entry_of (directory s0) b) ∧
  ∀ b, b ≠ a → TBETable.lookup (TBEs s) b = TBETable.lookup (TBEs s0) b.

Lemma others_refl a s : others a s s.
Proof. done. Qed.

Lemma others_trans a s0 s1 s : others a s0 s1 → others a s1 s → others a s0 s.
Proof.
  intros [H1 H2] [H3 H4]. split; intros b; [intros Hb Hne; by rewrite H3, H1|intros Hne; by rewrite H4, H2].
Qed.

Lemma others_line a s0 s b st o : others a s0 s → home b → b ≠ a → line_is s0 b st o → line_is s b st o.
Proof. intros [He Ht] Hb Hne. unfold line_is. by rewrite He, Ht. Qed.

(** One line has a new state, the others theirs. *)
Lemma dir_ok_line a s0 s st o : dir_ok s0 → parts_ok s → others a s0 s → line_is s a st o → dir_ok s.
Proof.
  intros [_ Hl] Hp Ho Ha. split; [done|]. intros b Hb. destruct (decide (b = a)) as [->|Hne]; [by eauto|].
  destruct (Hl b Hb) as (st' & o' & H). exists st', o'. by eapply others_line.
Qed.

(** A change of the queues. *)
Lemma dir_ok_parts s0 s : dir_ok s0 → parts_ok s → directory s = directory s0 → TBEs s = TBEs s0 → dir_ok s.
Proof.
  intros [_ Hl] Hp Hd Ht. split; [done|]. intros a Ha. destruct (Hl a Ha) as (st & o & H). exists st, o.
  unfold line_is. by rewrite Hd, Ht.
Qed.

End lines.

(** ** Operations on a line *)

Lemma avoids_send_time node t : avoids stuck (send_time node t).
Proof.
  unfold send_time, getCurrentStartSlot. case_decide; [|done]. destruct (inBound t node); [|done].
  rewrite decide_False by lia. done.
Qed.
Lemma avoids_sched {P} ex now (q : PacketQueue.t P) pkt when force :
  avoids stuck (PacketQueue.schedSendTiming ex now q pkt when force).
Proof.
  unfold PacketQueue.schedSendTiming, PacketQueue.schedSendEvent. avoid_faults.
Qed.
Lemma avoids_get_data sys d o n : avoids stuck (DataBlock.getData sys d o n).
Proof. unfold DataBlock.getData, from_here. avoid_faults. Qed.
Lemma avoids_copy l o l' n : avoids stuck (copy_in l o l' n).
Proof. unfold copy_in. avoid_faults. Qed.
Lemma avoids_set_data sys d l o n : avoids stuck (DataBlock.setData sys d l o n).
Proof. unfold DataBlock.setData, copy_in. avoid_faults. Qed.
#[export] Hint Resolve avoids_send_time avoids_sched
  avoids_get_data avoids_copy avoids_set_data : avoids.

(** What is assumed of a directory: the layout of its lines, the size of the system, and
    that the memory answers a functional access for the one who asked. *)
Record setting (sys : RubySystem.t) (counts : list Z) (dirs : DirectoryMemory.statics)
    (functional : mem_packet → mem_packet) : Prop := mkSetting {
  set_geometry : Address.geometry sys;
  set_statics : statics_ok sys dirs;
  set_counts : Forall (λ n, 0 ≤ n ≤ 31) counts;
  set_functional : ∀ k, pkt_addr (functional k) = pkt_addr k ∧ pkt_isRead (functional k) = pkt_isRead k ∧
    senderState (functional k) = senderState k }.

Section operations.
Context (sys : RubySystem.t) (counts : list Z) (junk : Z) (dirs : DirectoryMemory.statics) (ver n : Z).
Context (anyone : MachineID) (functional : mem_packet → mem_packet) (cfg : config) (now rt : Z).
Context (Hset : setting sys counts dirs functional).
Implicit Types (s : t) (a b : Z) (p : payload) (k : mem_packet).

#[local] Abbreviation home := (home sys dirs ver n).
#[local] Abbreviation entry_of := (entry_of sys dirs).
#[local] Abbreviation stores := (stores sys dirs ver n).
#[local] Abbreviation parts_ok := (parts_ok sys counts dirs ver n).
#[local] Abbreviation line_is := (line_is sys counts dirs).
#[local] Abbreviation dir_ok := (dir_ok sys counts dirs ver n).
#[local] Abbreviation others := (others sys dirs ver n).
#[local] Abbreviation getDirectoryEntry := (getDirectoryEntry sys counts junk dirs).
#[local] Abbreviation update_entry := (update_entry sys counts junk dirs).

Lemma new_entry_eq : ∃ e, new_entry counts junk = Ok e ∧ DirectoryState e = Directory.State_I ∧
  dest_repr counts ∅ (Owner e).
Proof.
  unfold new_entry. destruct (dest_create counts junk (set_counts _ _ _ _ Hset)) as (d & -> & Hd & _).
  by eexists.
Qed.

(** The entry that is read, made when there is none. *)
Definition reads_entry s a (e : Entry) s' : Prop :=
  s' = with_directory s (directory s') ∧ memory_ok ver n (directory s') ∧
  entry_of (directory s') a = Some e ∧
  (∀ b, home b → b ≠ a → entry_of (directory s') b = entry_of (directory s) b) ∧
  (entry_of (directory s) a = Some e ∨
   entry_of (directory s) a = None ∧ DirectoryState e = Directory.State_I ∧ dest_repr counts ∅ (Owner e)).

Lemma getDirectoryEntry_run a s : memory_ok ver n (directory s) → home a →
  ∃ e s', getDirectoryEntry a s = Ok (e, s') ∧ reads_entry s a e s'.
Proof.
  intros Hm Ha. unfold DirController.getDirectoryEntry. rewrite (lookup_home sys dirs ver n) by done.
  cbn [mbind outcome_bind]. destruct (entry_of (directory s) a) as [e|] eqn:E.
  { exists e, s. split; [done|]. split_and!; [by destruct s|done|done|done|by left]. }
  destruct new_entry_eq as (e & -> & Hst & Hd). cbn [mbind outcome_bind].
  destruct (allocate_home sys dirs ver n (set_geometry _ _ _ _ Hset) (set_statics _ _ _ _ Hset)
    changePermission (directory s) a e Hm Ha) as (d' & -> & Hok & He & Ho).
  eexists _, _. split; [done|]. split_and!; [done..|]. by right.
Qed.

Lemma getDirectoryEntry_there a s e : memory_ok ver n (directory s) → home a →
  entry_of (directory s) a = Some e → getDirectoryEntry a s = Ok (e, s).
Proof.
  intros Hm Ha He. unfold DirController.getDirectoryEntry. by rewrite (lookup_home sys dirs ver n), He.
Qed.

Lemma dir_update_entry_run a s e f : memory_ok ver n (directory s) → home a →
  entry_of (directory s) a = Some e → 
  update_entry a f s = (e' ← f e; d ← DirectoryMemory.update_entry sys dirs (directory s) a (λ _, e');
    Ok (tt, with_directory s d)) ∧
  ∀ e', ∃ d, DirectoryMemory.update_entry sys dirs (directory s) a (λ _, e') = Ok d ∧
    stores (directory s) a e' d.
Proof.
  intros Hm Ha He. unfold DirController.update_entry, mbind, prog_bind.
  rewrite (getDirectoryEntry_there a s e) by done. unfold lift, store_entry. split.
  - by destruct (f e).
  - intros e'. apply (update_home sys dirs ver n (set_geometry _ _ _ _ Hset) (set_statics _ _ _ _ Hset)
      (directory s) a e' e Hm Ha He).
Qed.

Lemma entry_write a s e g : memory_ok ver n (directory s) → home a → entry_of (directory s) a = Some e →
  ∃ d, (present ← isPresent dirs a; when present (update_entry a (λ e, Ok (g e)))) s =
       Ok (tt, with_directory s d) ∧ stores (directory s) a (g e) d.
Proof.
  intros Hm Ha He. unfold isPresent, reads, mbind, prog_bind.
  rewrite (home_present sys dirs ver n) by done. cbn [when].
  destruct (dir_update_entry_run a s e (λ e, Ok (g e)) Hm Ha He) as [-> Hupd]. cbn [mbind outcome_bind].
  destruct (Hupd (g e)) as (d & -> & Hs). by exists d.
Qed.

(** Reading the entry of a line keeps its state. *)
Lemma reads_entry_line s a e s' st o : dir_ok s → home a → reads_entry s a e s' → line_is s a st o →
  dir_ok s' ∧ line_is s' a st o ∧ DirectoryState e = st ∧ dest_repr counts (owners o) (Owner e) ∧
  others a s s'.
Proof.
  intros Hs Ha (E & Hm & He & Ho & Hor) (tb & Hd & Ht & Hl).
  assert (DirectoryState e = st ∧ dest_repr counts (owners o) (Owner e)) as [Hst Hown].
  { destruct Hor as [Hold|(Hnone & Hi & Hempty)]; [by rewrite Hold in Hl|].
    rewrite Hnone in Hl. subst st. cbn in Hd. injection Hd as _ Hf. destruct o; [done|]. done. }
  assert (line_is s' a st o) as Hl'.
  { exists tb. split; [done|]. rewrite He. split; [|done]. rewrite E. exact Ht. }
  assert (others a s s') as Hoth by (split; [done|intros b _; by rewrite E]).
  split_and!; [|done..]. eapply dir_ok_line; [done| |done|done]. rewrite E.
  destruct Hs as [(? & ? & ? & ? & _) _]. by split_and!.
Qed.

(** An answer of the memory becomes a message. *)
Definition receives s s' : Prop := ∃ c m, s' = with_base s c ∧ ctl_ok dir_buffers c ∧ sorted c ∧
  transfer [(responseFromMemory, m)] [] (base s) c ∧ message_ok sys counts dirs ver n responseFromMemory m ∧
  ∀ id, id ≠ responseFromMemory → head_of c id = head_of (base s) id.

Lemma recvTimingResp_run k : packet_ok sys counts dirs ver n k →
  ∀ s, parts_ok s → match recvTimingResp sys now rt k s with
                    | Ok (u, s') => receives s s'
                    | Err e => ¬ stuck e
                    end.
Proof.
  intros (Hk & m & Hm & Hcore) s (Hc & Hs & _). unfold recvTimingResp. rewrite Hm.
  destruct (pkt_isResponse k); [|done]. cbn [assert_that mbind outcome_bind from_option_or].
  set (msg := if pkt_isRead k then _ else _).
  assert (avoids stuck msg ∧ ∀ y, msg = Ok y → message_ok sys counts dirs ver n responseFromMemory (PMemory y))
    as [Hav Hmsg].
  { unfold msg. destruct (pkt_isRead k); [split; [avoid_faults|]|destruct (pkt_isWrite k); [|done]].
    - intros y (b & _ & [= <-])%bind_Ok. cbn. split; [done|]. intros _. by apply Hcore.
    - split; [done|]. intros y [= <-]. by split. }
  destruct msg as [y|]; [|done]. cbn [mbind outcome_bind]. unfold on_abs, zoom.
  pose proof (safe_enqueue (P := payload) sys now rt dir_buffers (clockEdge now s 0) responseFromMemory
    (PMemory y) 1 false ltac:(by apply dir_buffer_known) (base s) Hc) as Hen.
  destruct (AbstractController.enqueue _ _ _ _ _ _ _ _ (base s)) as [[u c]|] eqn:E; [|done].
  cbn. apply enqueue_transfer in E as (Ht & Hs' & Hh). exists c, (PMemory y). split_and!; auto.
Qed.

End operations.

(** ** During a transition *)

(** The queue that the message of an event is taken from. *)
Definition queue_of (ev : Directory.Event) : Z :=
  match ev with
  | Directory.Event_PUTM => requestToDir_WB
  | Directory.Event_Data => responseToDir
  | Directory.Event_Memory_Data | Directory.Event_Memory_Ack => responseFromMemory
  | _ => requestToDir
  end.

Definition is_read (p : payload) : bool :=
  match p with PMemory m => match MemoryMsg.m_Type m with MEMORY_READ => true | _ => false end | _ => false end.

(** What an action needs: a transaction entry or none, and the message still at the head
    of its queue.  The actions that no transition has are left out. *)
Definition guard (q : Z) (reading : bool) (act : Directory.action) (tb popped : bool) : bool :=
  match act with
  | Directory.c_clearOwner => true
  | Directory.kd_wakeUpDependents => popped
  | Directory.i_allocateTBE => negb tb
  | Directory.w_deallocateTBE => tb
  | Directory.ss_recordGetSL1ID => tb && (negb popped && bool_decide (q = requestToDir))
  | Directory.e_ownerIsRequestor | Directory.qf_queueMemoryFetchRequest
  | Directory.j_popIncomingRequestQueue => negb popped && bool_decide (q = requestToDir)
  | Directory.j_popIncomingRequestWBQueue => negb popped && bool_decide (q = requestToDir_WB)
  | Directory.qw_queueMemoryWBRequest
  | Directory.k_popIncomingResponseQueue => negb popped && bool_decide (q = responseToDir)
  | Directory.d_sendData => negb popped && bool_decide (q = responseFromMemory) && reading
  | Directory.l_popMemQueue => negb popped && bool_decide (q = responseFromMemory)
  | Directory.z_stallAndWaitRequest => negb popped
  | _ => false
  end.

Definition tbe_after (act : Directory.action) (tb : bool) : bool :=
  match act with
  | Directory.i_allocateTBE => true
  | Directory.w_deallocateTBE => false
  | _ => tb
  end.

Section transition.
Context (sys : RubySystem.t) (counts : list Z) (junk : Z) (dirs : DirectoryMemory.statics) (ver n : Z).
Context (anyone : MachineID) (functional : mem_packet → mem_packet) (cfg : config) (now rt : Z).
Context (Hset : setting sys counts dirs functional).
(** The line, the queue and its message, with the type of the request, the cache that asked
    and the data of the message, and the state the transition starts in. *)
Context (a : Z) (Ha : home sys dirs ver n a) (q : Z) (p : payload).
Context (ty : CoherenceRequestType) (req : nat) (inc : option DataBlock.t) (s0 : t) (st0 : Directory.State).
Implicit Types (s : t) (tb : bool) (k : mem_packet) (f : frame).

#[local] Abbreviation dturn := (System.dturn DataBlock.t).
#[local] Abbreviation entry_of := (entry_of sys dirs).
#[local] Abbreviation parts_ok := (parts_ok sys counts dirs ver n).
#[local] Abbreviation message_ok := (message_ok sys counts dirs ver n).
#[local] Abbreviation warm := (RubySystem.getWarmupEnabled sys).

Definition describes : Prop :=
  match p with
  | PRequest m =>
      RequestMsg.m_Type m = ty ∧ RequestMsg.m_Requestor m = core req ∧ machine_ok counts (core req) ∧ inc = None
  | PResponse m => inc = Some (ResponseMsg.m_DataBlk m)
  | PMemory m =>
      if is_read p then
        inc = Some (MemoryMsg.m_DataBlk m) ∧ MemoryMsg.m_OriginalRequestorMachId m = core req ∧
        machine_ok counts (core req)
      else inc = None
  | _ => False
  end.

(** A packet that asks the memory for what the model queues. *)
Definition asks k (op : System.mem_op DataBlock.t) : Prop :=
  pkt_addr k = a ∧ pkt_size k = RubySystem.getBlockSizeBytes sys ∧
  match op with
  | System.MemRead r => pkt_isRead k = true ∧ senderState k = Some (core r)
  | System.MemWrite d => pkt_isRead k = false ∧ pkt_isWrite k = true ∧
      pkt_data k = take (DataBlock.size sys) (DataBlock.m_data d)
  end.

(** A message that carries what the model delivers. *)
Definition answers (x : payload) (d : nat * DataBlock.t) : Prop :=
  ∃ m, x = PResponse m ∧ ResponseMsg.m_Addr m = a ∧ ResponseMsg.m_Type m = Response_DATA ∧
    ResponseMsg.m_Sender m = m_machineID s0 ∧ dest_repr counts {[core d.1]} (ResponseMsg.m_Destination m) ∧
    DataBlock.m_data (ResponseMsg.m_DataBlk m) = take (DataBlock.size sys) (DataBlock.m_data d.2).

(** A stalled message has left its queue, but not the buffer. *)
Definition taken (x : dturn) : list (Z * payload) :=
  if System.popped x && System.is_nil (System.stalled (System.dself x)) then [(q, p)] else [].

Definition sent (x : dturn) (c : AbstractController.t payload) : Prop :=
  ∃ new, Forall2 answers new (System.delivered x) ∧
    transfer (pair responseFromDir <$> new) (taken x) (base s0) c.

Definition asked (x : dturn) (l : list mem_packet) : Prop :=
  ∃ new, Forall2 asks new (System.memory_queue (System.dself x)) ∧ l ≡ₚ packets s0 ++ new.

(** The controller and the model have run the same actions.  (During warmup the memory is
    not asked through its port.) *)
Record during tb (x : dturn) f : Prop := mkDuring {
  dur_parts : parts_ok (self f);
  dur_entry : ∃ e, entry_of (directory (self f)) a = Some e ∧ DirectoryState e = st0 ∧
    dest_repr counts (owners (System.owner (System.dself x))) (Owner e);
  dur_tbe : is_Some (TBETable.lookup (TBEs (self f)) a) ↔ tb = true;
  dur_ptr : m_tbe_ptr f = if tb then Some a else None;
  dur_others : others sys dirs ver n a s0 (self f);
  dur_head : System.popped x = false → head_of (base (self f)) q = Some p;
  dur_stalled : System.popped x = false → System.stalled (System.dself x) = [];
  dur_me : m_machineID (self f) = m_machineID s0;
  dur_asked : warm = false → asked x (packets (self f));
  dur_sent : warm = false → sent x (base (self f)) }.

Definition dact : dturn → Directory.action → dturn := System.dact ty req inc.

(** *** Parts of the frame *)

Lemma during_directory tb x x' f e d : during tb x f →
  stores sys dirs ver n (directory (self f)) a e d → DirectoryState e = st0 →
  dest_repr counts (owners (System.owner (System.dself x'))) (Owner e) →
  System.memory_queue (System.dself x') = System.memory_queue (System.dself x) →
  System.popped x' = System.popped x → System.delivered x' = System.delivered x →
  System.stalled (System.dself x') = System.stalled (System.dself x) →
  during tb x' (with_self f (with_directory (self f) d)).
Proof.
  intros [Hp He Ht Hptr Ho Hh Hs Hme Has Hse] (Hd & Hea & Hother) Hst Hrep Eq Ep Ed Es.
  constructor; cbn; rewrite ?Ep, ?Es; try done.
  - destruct Hp as (? & ? & ? & ? & _). by split_and!.
  - by exists e.
  - destruct Ho as [Ho1 Ho2]. split; [|done]. intros b Hb Hne. cbn. by rewrite Hother, Ho1.
  - intros Hw. specialize (Has Hw) as (new & H1 & H2). exists new. by rewrite Eq.
  - intros Hw. specialize (Hse Hw) as (new & H1 & H2). exists new. unfold taken. by rewrite Ed, Ep, Es.
Qed.

Lemma during_TBEs tb tb' x f tbl ptr : during tb x f →
  (∀ b, b ≠ a → TBETable.lookup tbl b = TBETable.lookup (TBEs (self f)) b) →
  (is_Some (TBETable.lookup tbl a) ↔ tb' = true) → ptr = (if tb' then Some a else None) →
  during tb' x (mkFrame (with_TBEs (self f) tbl) ptr).
Proof.
  intros [Hp He Ht Hptr Ho Hh Hs Hme Has Hse] Hother Hat Hp'.
  constructor; cbn; try done.
  destruct Ho as [Ho1 Ho2]. split; [done|]. intros b Hne. cbn. by rewrite Hother, Ho2.
Qed.

Lemma during_base tb x x' f c ins outs : during tb x f → ctl_ok dir_buffers c → sorted c →
  transfer ins outs (base (self f)) c → (∀ id y, (id, y) ∈ ins → message_ok id y) →
  System.owner (System.dself x') = System.owner (System.dself x) →
  (warm = false → System.memory_queue (System.dself x') = System.memory_queue (System.dself x)) →
  (System.popped x' = false → head_of c q = Some p ∧ System.stalled (System.dself x') = []) →
  (warm = false → sent x (base (self f)) → sent x' c) →
  during tb x' (with_self f (with_base (self f) c)).
Proof.
  intros [Hp He Ht Hptr Ho Hh Hs Hme Has Hse] Hc Hsc Htr Hins Eo Eq Hhead Hsent.
  destruct Hp as (_ & Hso & Hm & Hpk & Hmem).
  constructor; cbn; try done.
  - split_and!; [done..| |done|done]. by eapply transfer_forall.
  - by rewrite Eo.
  - intros Hx. by apply Hhead.
  - intros Hx. by apply Hhead.
  - intros Hw. specialize (Has Hw) as (new & H1 & H2). exists new. by rewrite Eq.
  - auto.
Qed.

Lemma during_port tb x x' f l new_pkt op : during tb x f →
  packets (with_port (self f) l) ≡ₚ new_pkt :: packets (self f) →
  packet_ok sys counts dirs ver n new_pkt → asks new_pkt op →
  System.owner (System.dself x') = System.owner (System.dself x) →
  System.memory_queue (System.dself x') = System.memory_queue (System.dself x) ++ [op] →
  System.popped x' = System.popped x → System.delivered x' = System.delivered x →
  System.stalled (System.dself x') = System.stalled (System.dself x) →
  during tb x' (with_self f (with_port (self f) l)).
Proof.
  intros [Hp He Ht Hptr Ho Hh Hs Hme Has Hse] Hl Hok Hask Eo Eq Ep Ed Es.
  destruct Hp as (Hctl & Hso & Hm & Hpk & Hmem).
  constructor; cbn; rewrite ?Ep, ?Es, ?Eo; try done.
  - split_and!; [done..| |done]. rewrite Hl. by constructor.
  - intros Hw. specialize (Has Hw) as (new & H1 & H2). exists (new ++ [new_pkt]). rewrite Eq. split.
    + apply Forall2_app; [done|]. by constructor.
    + change (packets (with_port (self f) l) ≡ₚ packets s0 ++ new ++ [new_pkt]).
      rewrite Hl, H2, app_assoc. apply Permutation_cons_append.
  - intros Hw. specialize (Hse Hw) as (new & H1 & H2). exists new. unfold taken. by rewrite Ed, Ep, Es.
Qed.

(** *** Entries *)

Lemma act_update tb x x' g : (∀ e, avoids stuck (g e)) →
  (∀ e e', dest_repr counts (owners (System.owner (System.dself x))) (Owner e) → g e = Ok e' →
     DirectoryState e' = DirectoryState e ∧
     dest_repr counts (owners (System.owner (System.dself x'))) (Owner e')) →
  System.memory_queue (System.dself x') = System.memory_queue (System.dself x) →
  System.popped x' = System.popped x → System.delivered x' = System.delivered x →
  System.stalled (System.dself x') = System.stalled (System.dself x) →
  {{ during tb x }} on_self (update_entry sys counts junk dirs a g) {{ λ _, during tb x' }}.
Proof.
  intros Hg Hown Eq Ep Ed Es f Hf. unfold on_self, zoom.
  destruct (dur_entry _ _ _ Hf) as (e & He & Hst & Hd).
  pose proof (dur_parts _ _ _ Hf) as (_ & _ & _ & _ & Hm).
  destruct (dir_update_entry_run sys counts junk dirs ver n functional Hset a (self f) e g Hm Ha He) as [-> Hupd].
  specialize (Hg e). destruct (g e) as [e'|] eqn:Eg; [|done]. cbn [mbind outcome_bind].
  destruct (Hupd e') as (d & -> & Hs). cbn [mbind outcome_bind].
  destruct (Hown e e' Hd Eg) as [Hst' Hd']. eapply during_directory; try done. congruence.
Qed.

Lemma act_c_clearOwner tb x :
  {{ during tb x }} c_clearOwner sys counts junk dirs a {{ λ _, during tb (dact x Directory.c_clearOwner) }}.
Proof.
  apply act_update; try done.
  - intros e. apply avoids_bind; [auto with avoids|done].
  - intros e e' Hd (d & Hc & [= <-])%bind_Ok. split; [done|].
    destruct (dest_clear counts _ _ Hd) as (r & Hr & Hrep). rewrite Hc in Hr. by injection Hr as ->.
Qed.

(** The message is the request that the model is given. *)
Context (Hdesc : describes).

Lemma desc_request m : as_request p = Ok m →
  RequestMsg.m_Requestor m = core req ∧ machine_ok counts (core req).
Proof. unfold describes in Hdesc. destruct p; try done. intros [= <-]. by destruct Hdesc as (_ & ? & ? & _). Qed.

Lemma desc_response m : as_response p = Ok m → inc = Some (ResponseMsg.m_DataBlk m).
Proof. unfold describes in Hdesc. destruct p; try done. by intros [= <-]. Qed.

Lemma desc_memory m : as_memory p = Ok m → is_read p = true →
  inc = Some (MemoryMsg.m_DataBlk m) ∧ MemoryMsg.m_OriginalRequestorMachId m = core req ∧
  machine_ok counts (core req).
Proof.
  unfold describes in Hdesc. intros Hm Hr. rewrite Hr in Hdesc. destruct p; try done. by injection Hm as <-.
Qed.

Lemma self_bind {A B} P (g : prog t A) (k : A → prog t B) Q :
  {{ P }} y ← on_self g; on_self (k y) {{ Q }} → {{ P }} on_self (g ≫= k) {{ Q }}.
Proof.
  intros H f Hf. specialize (H f Hf). unfold on_self, zoom, mbind, prog_bind in *.
  destruct (g (self f)) as [[y s1]|]; [|done]. cbn in *. by destruct (k y s1) as [[z s2]|].
Qed.

Lemma self_ret {A} P (y : A) Q : (∀ f, P f → Q y f) → {{ P }} on_self (mret y) {{ Q }}.
Proof. intros H f Hf. apply H in Hf. by destruct f as [[] ?]. Qed.

Lemma self_lift {A} P (o : outcome A) (Q : A → frame → Prop) :
  avoids stuck o → (∀ y f, o = Ok y → P f → Q y f) → {{ P }} on_self (lift o) {{ Q }}.
Proof.
  intros Ho H f Hf. unfold on_self, zoom, lift. destruct o as [y|]; [|done]. cbn.
  assert (Q y f) as Hq by auto. by destruct f as [[] ?].
Qed.

Lemma self_gets {A} P (g : t → A) (Q : A → frame → Prop) :
  (∀ f, P f → Q (g (self f)) f) → {{ P }} on_self (gets g) {{ Q }}.
Proof. intros H f Hf. apply H in Hf. by destruct f as [[] ?]. Qed.

(** The head of the queue is the message of the transition. *)
Lemma peek_run {M} tb x (cast : payload → outcome M) : System.popped x = false →
  q ∈ dir_buffers → (∀ y, avoids stuck (cast y)) →
  {{ during tb x }} on_self (y ← on_abs (AbstractController.peek q); lift (cast y))
  {{ λ m f, cast p = Ok m ∧ during tb x f }}.
Proof.
  intros Hx Hq Hcast f Hf. pose proof (dur_head _ _ _ Hf Hx) as Hh.
  pose proof (dur_parts _ _ _ Hf) as ((Hcon & Hex & _) & _).
  unfold on_self, on_abs, zoom, mbind, prog_bind.
  unfold AbstractController.peek, AbstractController.buffer, mbind, prog_bind.
  unfold head_of in Hh. destruct (AbstractController.buffers (base (self f)) !! q) as [b|]; [|done].
  cbn in Hh |- *. unfold MessageBuffer.peek, MessageBuffer.front.
  destruct (MessageBuffer.m_prio_heap b) as [|nd l]; [done|]. cbn in Hh |- *. injection Hh as ->.
  unfold lift. specialize (Hcast p). destruct (cast p); [|done]. cbn. split; [done|]. by destruct f as [[] ?].
Qed.

Lemma act_e_ownerIsRequestor tb x : System.popped x = false → q = requestToDir →
  {{ during tb x }} e_ownerIsRequestor sys counts junk dirs a
  {{ λ _, during tb (dact x Directory.e_ownerIsRequestor) }}.
Proof.
  intros Hx Hq. apply self_bind. eapply triple_bind.
  { unfold peek_request. rewrite <- Hq. apply (peek_run tb x as_request Hx); [|auto with avoids].
    rewrite Hq. by apply dir_buffer_known. }
  intros m. apply triple_pure. intros [-> Hok]%desc_request.
  apply self_bind. eapply triple_bind; [apply act_c_clearOwner|]. intros u. apply act_update; try done.
  - intros e. apply avoids_bind; [auto with avoids|done].
  - intros e e' Hd (d & Hadd & [= <-])%bind_Ok. split; [done|].
    destruct (dest_add counts _ _ (core req) Hd Hok) as (r & Hr & Hrep). rewrite Hadd in Hr. injection Hr as ->.
    cbn in *. by rewrite right_id_L in Hrep by apply _.
Qed.

(** *** Queues *)

(** An operation on the queues of the controller. *)
Lemma act_base {A} tb x x' (g : prog (AbstractController.t payload) A) :
  {{ ctl_ok dir_buffers }} g {{ λ _, ctl_ok dir_buffers }} →
  System.owner (System.dself x') = System.owner (System.dself x) →
  System.memory_queue (System.dself x') = System.memory_queue (System.dself x) →
  (∀ f c y c', during tb x f → c = base (self f) → sorted c → g c = Ok (y, c') →
     sorted c' ∧ ∃ ins outs, transfer ins outs c c' ∧ (∀ id y, (id, y) ∈ ins → message_ok id y) ∧
     (System.popped x' = false → head_of c' q = Some p ∧ System.stalled (System.dself x') = []) ∧
     (warm = false → sent x c → sent x' c')) →
  {{ during tb x }} on_self (on_abs g) {{ λ _, during tb x' }}.
Proof.
  intros Hctl Eo Eq Hg f Hf. pose proof (dur_parts _ _ _ Hf) as (Hc & Hs & _).
  specialize (Hctl (base (self f)) Hc). unfold on_self, on_abs, zoom.
  destruct (g (base (self f))) as [[y c]|] eqn:E; [|done]. cbn.
  destruct (Hg f _ y c Hf eq_refl Hs E) as (Hsc & ins & outs & Ht & Hins & Hhead & Hsent).
  by eapply (during_base tb x x' f c ins outs).
Qed.

(** The message leaves the controller. *)
Lemma sent_pop x c c' : System.popped x = false → System.stalled (System.dself x) = [] →
  transfer [] [(q, p)] c c' → sent x c → sent (System.pop x) c'.
Proof.
  intros Hx Hs Ht (new & Hnew & Htr). exists new. split; [done|]. unfold taken in *. cbn. rewrite Hx, Hs in *.
  cbn in *. pose proof (transfer_trans _ _ _ _ _ _ _ Htr Ht) as H. by rewrite app_nil_r in H.
Qed.

Lemma act_dequeue tb x : System.popped x = false → q ∈ dir_buffers →
  {{ during tb x }} on_self (dequeue_from now q) {{ λ _, during tb (System.pop x) }}.
Proof.
  intros Hx Hq. apply act_base; [by apply safe_dequeue|done|done|].
  intros f c z c' Hf -> Hs H1. apply dequeue_transfer in H1 as (p' & Hp' & Ht & Hs').
  rewrite (dur_head _ _ _ Hf Hx) in Hp'. injection Hp' as <-. split; [by apply Hs'|].
  exists [], [(q, p)]. split_and!; [done|set_solver|done|].
  intros _. apply sent_pop; [done|by eapply dur_stalled|done].
Qed.

Lemma act_pop tb x q' : System.popped x = false → q = q' → q' ∈ dir_buffers →
  {{ during tb x }} pop now q' {{ λ _, during tb (System.pop x) }}.
Proof.
  intros Hx <- Hq. apply self_bind. eapply triple_bind; [by apply act_dequeue|]. intros ?. by apply self_ret.
Qed.

Lemma act_wakeUp tb x : System.popped x = true →
  {{ during tb x }} kd_wakeUpDependents now a {{ λ _, during tb (dact x Directory.kd_wakeUpDependents) }}.
Proof.
  intros Hx. apply act_base; [apply safe_wakeUpBuffers|done|done|].
  intros f c z c' Hf -> Hs H1. apply wake_line_transfer in H1 as [Ht Hs']; [|done]. split; [done|].
  exists [], []. split_and!; [done|set_solver|by cbn; rewrite Hx|].
  intros _ (new & Hnew & Htr). exists new. split; [done|].
  pose proof (transfer_trans _ _ _ _ _ _ _ Htr Ht) as H. by rewrite !app_nil_r in H.
Qed.

Lemma act_stall tb x : System.popped x = false →
  {{ during tb x }} z_stallAndWaitRequest sys now a {{ λ _, during tb (dact x Directory.z_stallAndWaitRequest) }}.
Proof.
  intros Hx. apply act_base; [apply safe_stall_and_wait; by apply dir_buffer_known|done|done|].
  intros f c z c' Hf -> Hs H1. apply stall_and_wait_transfer in H1 as [Ht Hs']; [|done]. split; [done|].
  exists [], []. split_and!; [done|set_solver|done|].
  intros _ (new & Hnew & Htr). exists new. split; [done|]. unfold taken in *. cbn. rewrite Hx in Htr.
  replace (System.is_nil _) with false by (by destruct (System.stalled (System.dself x))).
  pose proof (transfer_trans _ _ _ _ _ _ _ Htr Ht) as H. by rewrite !app_nil_r in H.
Qed.

(** *** Transaction entries *)

Lemma act_i_allocateTBE x : {{ during false x }} i_allocateTBE sys counts junk anyone a {{ λ _, during true x }}.
Proof.
  intros f Hf. unfold i_allocateTBE, mbind, prog_bind, on_self, zoom.
  unfold new_tbe. destruct (dest_create counts junk (set_counts _ _ _ _ Hset)) as (d & -> & _).
  cbn [mbind outcome_bind]. unfold TBETable.allocate, TBETable.isPresent.
  destruct (is_line sys a); [|done]. cbn [assert_that mbind outcome_bind].
  do 3 (case_bool_decide; cbn [negb assert_that mbind outcome_bind]; try done).
  unfold modS. cbn [with_tbe_ptr with_self self]. apply (during_TBEs false true); [done| | |].
  - intros b Hne. unfold TBETable.lookup. cbn. by rewrite lookup_insert_ne.
  - unfold TBETable.lookup. cbn. by rewrite lookup_insert_eq.
  - unfold tbe_ptr, TBETable.lookup. cbn. by rewrite lookup_insert_eq.
Qed.

Lemma act_w_deallocateTBE x : {{ during true x }} w_deallocateTBE sys a {{ λ _, during false x }}.
Proof.
  intros f Hf. unfold w_deallocateTBE, mbind, prog_bind, on_self, zoom.
  unfold TBETable.deallocate, TBETable.isPresent.
  destruct (is_line sys a); [|done]. cbn [assert_that mbind outcome_bind].
  do 3 (case_bool_decide; cbn [negb assert_that mbind outcome_bind]; try done).
  unfold modS. cbn [with_tbe_ptr with_self self]. apply (during_TBEs true false); [done| | |done].
  - intros b Hne. unfold TBETable.lookup. cbn. by rewrite lookup_delete_ne.
  - unfold TBETable.lookup. cbn. rewrite lookup_delete_eq. split; [by intros [? ?]|done].
Qed.

Lemma lookup_update (tbl : TBETable.t TBE) g b b' :
  TBETable.lookup (TBETable.update_entry tbl b g) b' =
  if decide (b' = b) then g <$> TBETable.lookup tbl b' else TBETable.lookup tbl b'.
Proof.
  unfold TBETable.lookup, TBETable.update_entry. cbn. case_decide as E.
  - by rewrite E, lookup_alter_eq.
  - by rewrite lookup_alter_ne.
Qed.

Lemma during_tbe_lookup x f : during true x f → ∃ y, TBETable.lookup (TBEs (self f)) a = Some y.
Proof. intros Hf. by apply (dur_tbe _ _ _ Hf). Qed.

Lemma act_update_tbe x g : {{ during true x }} on_self (update_tbe (Some a) g) {{ λ _, during true x }}.
Proof.
  intros f Hf. unfold on_self, zoom, update_tbe. cbn [from_option_or mbind outcome_bind].
  destruct (during_tbe_lookup x f Hf) as [y Hy]. rewrite Hy. cbn [from_option_or mbind outcome_bind].
  destruct f as [s ptr]. pose proof (dur_ptr _ _ _ Hf) as Hptr. cbn in *.
  apply (during_TBEs true true x (mkFrame s ptr)); [done| | |done].
  - intros b Hne. by rewrite lookup_update, decide_False.
  - by rewrite lookup_update, decide_True, Hy.
Qed.

Lemma act_ss_record x : System.popped x = false → q = requestToDir →
  {{ during true x }} ss_recordGetSL1ID counts a {{ λ _, during true x }}.
Proof.
  intros Hx Hq. unfold ss_recordGetSL1ID, peek_request. rewrite <- Hq. eapply triple_bind.
  { apply (peek_run true x as_request Hx); [|auto with avoids]. rewrite Hq. by apply dir_buffer_known. }
  intros m. apply triple_pure. intros _. apply triple_gets_eq with (x := Some a).
  { intros f Hf. exact (dur_ptr _ _ _ Hf). }
  eapply triple_bind; [apply keeps_reads|].
  { intros f Hf. unfold deref_tbe. cbn. destruct (during_tbe_lookup x f Hf) as [y ->]. done. }
  intros y. do 2 (eapply triple_bind; [apply triple_lift_any; auto with avoids|]; intros ?).
  apply act_update_tbe.
Qed.

(** *** The memory *)

Lemma with_self_self f : with_self f (self f) = f.
Proof. by destruct f. Qed.

Lemma act_memory tb x x' k latency op : packet_ok sys counts dirs ver n k → asks k op →
  q ≠ responseFromMemory →
  System.owner (System.dself x') = System.owner (System.dself x) →
  System.memory_queue (System.dself x') = System.memory_queue (System.dself x) ++ [op] →
  System.popped x' = System.popped x → System.delivered x' = System.delivered x →
  System.stalled (System.dself x') = System.stalled (System.dself x) →
  {{ during tb x }} on_self (send_to_memory sys functional now rt k latency) {{ λ _, during tb x' }}.
Proof.
  intros Hk Hask Hq Eo Eq Ep Ed Es f Hf. unfold on_self, zoom, send_to_memory.
  destruct warm eqn:Hw.
  - assert (packet_ok sys counts dirs ver n (functional k)) as Hk'.
    { destruct Hk as (H1 & m & H2 & H3), (set_functional _ _ _ _ Hset k) as (E1 & E2 & E3).
      split; [by rewrite E1|]. exists m. by rewrite E2, E3. }
    pose proof (recvTimingResp_run sys counts dirs ver n now rt _ Hk' _ (dur_parts _ _ _ Hf)) as H1.
    destruct (recvTimingResp _ _ _ _ _) as [[u s']|]; [|done].
    destruct H1 as (c & m & -> & Hc & Hs & Ht & Hm & Hh). cbn.
    apply (during_base tb x x' f c [(responseFromMemory, m)] []); try done; try congruence.
    + intros id y Hin. apply list_elem_of_singleton in Hin as [= -> ->]. done.
    + intros Hx. rewrite Ep in Hx. rewrite Es, Hh by done.
      split; [by apply (dur_head _ _ _ Hf)|by apply (dur_stalled _ _ _ Hf)].
  - unfold schedTimingReq.
    pose proof (avoids_sched (λ _, false) now (memoryPort (self f)) k (clockEdge now (self f) latency) false) as Hav.
    destruct (PacketQueue.schedSendTiming _ _ _ _ _ _) as [l|] eqn:E; [|done]. cbn [mbind outcome_bind].
    apply schedSendTiming_list in E as [time Hl].
    apply (during_port tb x x' f l k op); try done. unfold packets. cbn. by rewrite Hl.
Qed.

Lemma act_qf_fetch tb x : System.popped x = false → q = requestToDir →
  {{ during tb x }} qf_queueMemoryFetchRequest sys junk functional cfg now rt a
  {{ λ _, during tb (dact x Directory.qf_queueMemoryFetchRequest) }}.
Proof.
  intros Hx Hq. apply self_bind. eapply triple_bind.
  { unfold peek_request. rewrite <- Hq. apply (peek_run tb x as_request Hx); [|auto with avoids].
    rewrite Hq. by apply dir_buffer_known. }
  intros m. apply triple_pure. intros [-> Hok]%desc_request.
  apply (act_memory tb x _ _ _ (System.MemRead req)); try done; [|by rewrite Hq].
  split; [done|]. exists (core req). split; [done|]. intros _. by exists req.
Qed.

(** What [memcpy] takes from a block. *)
Lemma copy_whole (to from l : list Z) : length to = DataBlock.size sys →
  copy_in to 0 from (RubySystem.getBlockSizeBytes sys) = Ok l → l = take (DataBlock.size sys) from.
Proof.
  intros Hto. unfold copy_in. case_decide as H; [|done]. intros [= <-]. cbn.
  change (Z.to_nat (RubySystem.getBlockSizeBytes sys)) with (DataBlock.size sys).
  rewrite drop_ge by lia. by rewrite app_nil_r.
Qed.

Lemma act_qw_write tb x : System.popped x = false → q = responseToDir →
  {{ during tb x }} qw_queueMemoryWBRequest sys junk functional cfg now rt a
  {{ λ _, during tb (dact x Directory.qw_queueMemoryWBRequest) }}.
Proof.
  intros Hx Hq. apply self_bind. eapply triple_bind.
  { unfold peek_response. rewrite <- Hq. apply (peek_run tb x as_response Hx); [|auto with avoids].
    rewrite Hq. by apply dir_buffer_known. }
  intros m. apply triple_pure. intros Hinc%desc_response. apply self_bind. eapply triple_bind.
  { apply self_lift with (Q := λ l f, l = take (DataBlock.size sys) (DataBlock.m_data (ResponseMsg.m_DataBlk m)) ∧
      during tb x f); [avoid_faults|].
    intros l f (d & Hd & Hc)%bind_Ok Hf. split; [|done]. unfold DataBlock.getData in Hd.
    apply bind_Ok in Hd as (? & _ & Hd). unfold from_here in Hd. case_decide; [|done]. injection Hd as <-.
    apply copy_whole in Hc; [done|]. by rewrite length_replicate. }
  intros l. apply triple_pure. intros ->.
  apply (act_memory tb x _ _ _ (System.MemWrite (ResponseMsg.m_DataBlk m))); try done;
    [|by rewrite Hq|by cbn; rewrite Hinc].
  split; [done|]. by exists (ResponseMsg.m_Sender m).
Qed.

(** *** The answer to the cache *)

Lemma dest_of_core : machine_ok counts (core req) →
  ∃ d, dest_of counts junk (core req) = Ok d ∧ dest_repr counts {[core req]} d.
Proof.
  intros Hok. unfold dest_of. destruct (dest_create counts junk (set_counts _ _ _ _ Hset)) as (d & -> & Hd & _).
  cbn [mbind outcome_bind]. destruct (dest_add counts _ _ (core req) Hd Hok) as (r & -> & Hr). exists r.
  split; [done|]. by rewrite right_id_L in Hr by apply _.
Qed.

Lemma act_enqueue tb x r msg v edge : System.popped x = true → System.stalled (System.dself x) = [] →
  answers msg (r, v) →
  {{ during tb x }} on_self (on_abs (AbstractController.enqueue sys now rt edge responseFromDir msg
    (to_mem_ctrl_latency cfg) false))
  {{ λ _, during tb (System.mkDturn (System.dself x) true (System.woken x) (System.delivered x ++ [(r, v)])) }}.
Proof.
  intros Hx Hst Hmsg. apply act_base; [apply safe_enqueue; by apply dir_buffer_known|done|done|].
  intros f c u c' Hf -> Hs H1. apply enqueue_transfer in H1 as (Ht & Hs' & _). split; [by apply Hs'|].
  exists [(responseFromDir, msg)], []. split_and!; [done| |done|].
  - intros id y Hin. apply list_elem_of_singleton in Hin as [= -> ->].
    destruct Hmsg as (m & -> & E & _). cbn. by rewrite E.
  - intros _ (new & Hnew & Htr). exists (new ++ [msg]). split.
    + cbn. apply Forall2_app; [done|]. by constructor.
    + unfold taken in *. cbn. rewrite Hx, Hst in *. cbn in *. rewrite fmap_app.
      exact (transfer_trans _ _ _ _ _ _ _ Htr Ht).
Qed.

Lemma act_send tb x d b v time : System.popped x = true → System.stalled (System.dself x) = [] →
  dest_repr counts {[core req]} d → DataBlock.m_data b = take (DataBlock.size sys) (DataBlock.m_data v) →
  {{ during tb x }} on_self (me ← gets m_machineID;
       send sys cfg now rt a Response_DATA me d b Size_Response_Data time)
  {{ λ _, during tb (System.mkDturn (System.dself x) true (System.woken x) (System.delivered x ++ [(req, v)])) }}.
Proof.
  intros Hx Hst Hd Hb. apply self_bind. eapply triple_bind.
  { apply (self_gets _ _ (λ me f, me = m_machineID s0 ∧ during tb x f)). intros f Hf. split; [|done].
    exact (dur_me _ _ _ Hf). }
  intros me. apply triple_pure. intros -> f Hf.
  unfold on_self, zoom, send. match goal with |- context [AbstractController.enqueue _ _ _ _ _ ?m _ _] =>
    pose proof (act_enqueue tb x req m v (clockEdge now (self f) 0) Hx Hst) as H end.
  specialize (H ltac:(eexists; by split_and!) f Hf). unfold on_self, zoom in H. exact H.
Qed.

Lemma act_d_sendData tb x : System.popped x = false → q = responseFromMemory → is_read p = true →
  {{ during tb x }} d_sendData sys counts junk cfg now rt a {{ λ _, during tb (dact x Directory.d_sendData) }}.
Proof.
  intros Hx Hq Hr. apply (triple_fact _ (System.stalled (System.dself x) = [])).
  { intros f Hf. exact (dur_stalled _ _ _ Hf Hx). }
  intros Hst. apply self_bind. eapply triple_bind.
  { unfold peek_memory. rewrite <- Hq. apply (peek_run tb x as_memory Hx); [|auto with avoids].
    rewrite Hq. by apply dir_buffer_known. }
  intros m. apply triple_pure. intros Hm. destruct (desc_memory m Hm Hr) as (Hinc & -> & Hok). destruct (dest_of_core Hok) as (d & -> & Hd). apply self_bind. eapply triple_bind.
  { apply self_lift with (Q := λ d' f, d' = d ∧ during tb x f); [done|]. by intros y f [= <-] Hf. }
  intros d'. apply triple_pure. intros ->. apply self_bind. eapply triple_bind.
  { apply self_lift with (Q := λ b f, DataBlock.m_data b =
      take (DataBlock.size sys) (DataBlock.m_data (MemoryMsg.m_DataBlk m)) ∧ during tb x f);
      [unfold block_of; avoid_faults|].
    intros b f (l & Hl & [= <-])%bind_Ok Hf. split; [|done]. cbn. apply copy_whole in Hl; [done|].
    cbn. by rewrite length_replicate. }
  intros b. apply triple_pure. intros Hb. apply self_bind. rewrite <- Hq.
  eapply triple_bind; [apply act_dequeue; [done|rewrite Hq; by apply dir_buffer_known]|]. intros time.
  apply self_bind. eapply triple_bind; [apply self_lift with (Q := λ _, during tb (System.pop x)); auto with avoids|].
  intros node. apply self_bind.
  eapply triple_bind; [apply self_lift with (Q := λ _, during tb (System.pop x)); auto with avoids|]. intros time'.
  unfold dact. cbn [System.dact]. rewrite Hinc. by apply (act_send tb (System.pop x)).
Qed.

(** *** All actions *)

Definition dstep (act : Directory.action) (d : bool * dturn) : option (bool * dturn) :=
  if guard q (is_read p) act d.1 (System.popped d.2) then Some (tbe_after act d.1, dact d.2 act) else None.

Lemma act_runs act tb x d : dstep act (tb, x) = Some d →
  {{ during tb x }} perform sys counts junk dirs anyone functional cfg now rt act a
  {{ λ _, during d.1 d.2 }}.
Proof.
  unfold dstep. cbn [fst snd]. destruct (guard _ _ _ _ _) eqn:G; [|done]. intros [= <-]. cbn [fst snd].
  destruct act; try discriminate G; cbn [guard tbe_after perform] in *;
    repeat match goal with
    | H : _ && _ = true |- _ => apply andb_true_iff in H as [? ?]
    | H : negb _ = true |- _ => apply negb_true_iff in H
    | H : bool_decide _ = true |- _ => apply bool_decide_eq_true in H
    end; try (subst tb);
    first [by apply act_c_clearOwner|by apply act_e_ownerIsRequestor|by apply act_d_sendData
      |by apply act_i_allocateTBE|by apply act_w_deallocateTBE|by apply act_pop; [..|apply dir_buffer_known]
      |by apply act_wakeUp|by apply act_qf_fetch|by apply act_qw_write|by apply act_stall
      |by apply act_ss_record].
Qed.

(** *** The resources *)

Definition unmoved f0 f : Prop :=
  directory (self f) = directory (self f0) ∧ TBEs (self f) = TBEs (self f0).

Lemma check_runs tb x acts rs f0 :
  {{ λ f, during tb x f ∧ unmoved f0 f }} check_all needs (available now) acts rs
  {{ λ _ f, during tb x f ∧ unmoved f0 f }}.
Proof.
  induction rs as [|r rs IH]; cbn [check_all]; [apply keeps_ret|]. case_decide; [done|].
  apply keeps_bind; [|intros []; [done|apply keeps_ret]].
  destruct r; cbn [available].
  intros f [Hf Hu].
  pose proof (act_base tb x x (AbstractController.areNSlotsAvailable now responseFromDir (slots_needed needs acts
    Slot_response)) ltac:(apply safe_slots; by apply dir_buffer_known) eq_refl eq_refl) as H1.
  unfold on_self, on_abs, zoom in *. refine (_ (H1 _ f Hf)).
  - destruct (AbstractController.areNSlotsAvailable _ _ _ _) as [[y c]|]; [|done]. intros H2. by split.
  - intros f' c y c' Hf' -> Hs H2. apply slots_transfer in H2 as (Ht & Hs' & Hh). split; [by apply Hs'|].
    exists [], []. split_and!; [done|set_solver| |].
    + intros Hx. rewrite Hh. split; [by apply (dur_head _ _ _ Hf')|by apply (dur_stalled _ _ _ Hf')].
    + intros _ (new & Hnew & Htr). exists new. split; [done|].
      pose proof (transfer_trans _ _ _ _ _ _ _ Htr Ht) as H3. by rewrite !app_nil_r in H3.
Qed.

(** *** The end of a transition *)

Lemma finish_run tb x s ptr next : during tb x (mkFrame s ptr) →
  ∃ s', (_ ← setState sys counts junk dirs ptr a next; setAccessPermission sys counts junk dirs a next) s
        = Ok (tt, s') ∧
    base s' = base s ∧ memoryPort s' = memoryPort s ∧ memory_ok ver n (directory s') ∧
    others sys dirs ver n a s0 s' ∧
    TBEState <$> TBETable.lookup (TBEs s') a = (if tb then Some next else None) ∧
    ∃ e, entry_of (directory s') a = Some e ∧ DirectoryState e = next ∧
      dest_repr counts (owners (System.owner (System.dself x))) (Owner e).
Proof.
  intros Hf. destruct (dur_entry _ _ _ Hf) as (e & He & _ & Hd). cbn in He.
  pose proof (dur_parts _ _ _ Hf) as (_ & _ & _ & _ & Hm). pose proof (dur_tbe _ _ _ Hf) as Ht. cbn in Ht.
  pose proof (dur_ptr _ _ _ Hf) as Hp. cbn in Hp. pose proof (dur_others _ _ _ Hf) as [Ho1 Ho2]. cbn in Ho1, Ho2.
  set (tbl := if tb then TBETable.update_entry (TBEs s) a (λ y, tbe_with_state y next) else TBEs s).
  assert ((match ptr with Some _ => update_tbe ptr (λ y, tbe_with_state y next) | None => mret tt end) s =
    Ok (tt, with_TBEs s tbl)) as Htbe.
  { unfold tbl. rewrite Hp. destruct tb; [|by destruct s]. destruct Ht as [_ [y Hy]]; [done|].
    unfold update_tbe. cbn. by rewrite Hy. }
  destruct (entry_write sys counts junk dirs ver n functional Hset a (with_TBEs s tbl) e
    (λ e, with_state e next) Hm Ha He) as (d1 & H1 & Hm1 & He1 & Hb1).
  destruct (entry_write sys counts junk dirs ver n functional Hset a (with_directory (with_TBEs s tbl) d1) _
    (λ e, changePermission e (Directory.State_to_permission next)) Hm1 Ha He1) as (d2 & H2 & Hm2 & He2 & Hb2).
  exists (with_directory (with_directory (with_TBEs s tbl) d1) d2). split.
  { assert (setState sys counts junk dirs ptr a next s = Ok (tt, with_directory (with_TBEs s tbl) d1)) as H3
      by (unfold setState; rewrite (prog_bind_step _ _ _ _ _ Htbe); exact H1).
    rewrite (prog_bind_step _ _ _ _ _ H3). exact H2. }
  split_and!; [done|done|done| | |].
  - split; cbn; intros b; [intros Hb Hne; by rewrite Hb2, Hb1, Ho1|]. intros Hne. rewrite <- Ho2 by done.
    unfold tbl. destruct tb; [|done]. by rewrite lookup_update, decide_False.
  - cbn. unfold tbl. destruct tb.
    + rewrite lookup_update, decide_True by done. destruct Ht as [_ [y Hy]]; [done|]. by rewrite Hy.
    + destruct (TBETable.lookup (TBEs s) a) eqn:E; [|done]. destruct Ht as [Ht _].
      by specialize (Ht ltac:(by eexists)).
  - exists (changePermission (with_state e next) (Directory.State_to_permission next)). by split_and!.
Qed.

End transition.

(** ** Transitions *)

(** The table: from a state with its duties every transition runs, and the next state has
    its duties. *)
Lemma table_steps q p ty req inc (v : DataBlock.t) st ev next acts o tb :
  Directory.find_transition st ev = Some (next, acts) →
  duties st = Some (tb, bool_decide (is_Some o)) → q = queue_of ev →
  (ev = Directory.Event_Memory_Data → is_read p = true) →
  let x0 := System.mkDturn (System.mkDir st o [] [] [] v) false false [] in
  let x := foldl (dact ty req inc) x0 acts in
  ∃ tb', foldl (λ d act, d ≫= dstep q p ty req inc act) (Some (tb, x0)) acts = Some (tb', x) ∧
    duties next = Some (tb', bool_decide (is_Some (System.owner (System.dself x)))).
Proof.
  intros Ht Hd -> Hr x0 x. unfold dstep. revert x Hr. generalize (is_read p). intros rd x Hr.
  destruct st; try discriminate Hd; injection Hd as <- Ho;
    destruct ev; try discriminate Ht; try (rewrite (Hr eq_refl));
    vm_compute in Ht; injection Ht as <- <-; destruct o; try discriminate Ho;
    eexists; (split; [vm_compute; reflexivity|vm_compute; reflexivity]).
Qed.

Section transitions.
Context (sys : RubySystem.t) (counts : list Z) (junk : Z) (dirs : DirectoryMemory.statics) (ver n : Z).
Context (anyone : MachineID) (functional : mem_packet → mem_packet) (cfg : config) (now rt : Z).
Context (Hset : setting sys counts dirs functional).
Implicit Types (s : t) (a b : Z) (p : payload) (st : Directory.State) (ev : Directory.Event).

#[local] Abbreviation home := (home sys dirs ver n).
#[local] Abbreviation entry_of := (entry_of sys dirs).
#[local] Abbreviation parts_ok := (parts_ok sys counts dirs ver n).
#[local] Abbreviation line_is := (line_is sys counts dirs).
#[local] Abbreviation dir_ok := (dir_ok sys counts dirs ver n).
#[local] Abbreviation doTransition := (doTransition sys counts junk dirs anyone functional cfg now rt).

(** The state of the line is read; its entry is there afterwards. *)
Lemma getState_run s a st o : dir_ok s → home a → line_is s a st o →
  ∃ d e, getState sys counts junk dirs (tbe_ptr s a) a s = Ok (st, with_directory s d) ∧
    dir_ok (with_directory s d) ∧ line_is (with_directory s d) a st o ∧
    entry_of d a = Some e ∧ DirectoryState e = st ∧ dest_repr counts (owners o) (Owner e) ∧
    others sys dirs ver n a s (with_directory s d).
Proof.
  intros Hs Ha Hl. pose proof Hl as (tb & Hd & Ht & He). pose proof Hs as [(_ & _ & _ & _ & Hm) _].
  unfold getState, tbe_ptr. destruct tb.
  - destruct (TBETable.lookup (TBEs s) a) as [y|] eqn:Ey; [|done]. injection Ht as Ht.
    destruct (entry_of (directory s) a) as [e|] eqn:Ee; [|by subst st; rewrite He in Hd].
    exists (directory s), e. assert (with_directory s (directory s) = s) as Es by (by destruct s). rewrite Es.
    split_and!; try done; [|apply He|apply He].
    unfold reads, deref_tbe, mbind, prog_bind. cbn. rewrite Ey. cbn. by rewrite Ht.
  - destruct (TBETable.lookup (TBEs s) a) as [y|] eqn:Ey; [done|].
    unfold isPresent, reads, mbind, prog_bind. rewrite (home_present sys dirs ver n) by done.
    destruct (getDirectoryEntry_run sys counts junk dirs ver n functional Hset a s Hm Ha) as (e & s' & -> & Hr).
    destruct (reads_entry_line sys counts dirs ver n s a e s' st o Hs Ha Hr Hl) as (Hs' & Hl' & Hst & Hrep & Ho).
    destruct Hr as (E & _ & Hea & _). rewrite E in Hs', Hl', Ho |- *.
    exists (directory s'), e. split_and!; try done. by rewrite Hst.
Qed.

(** What a transition on the message [p] of line [a] leaves, when the model makes the
    transition [x]. *)
Definition follows s a q p ty req inc st o v ev s' : Prop :=
  ∃ x, System.dir_event ty req inc (System.mkDir st o [] [] [] v) ev = Some x ∧
    line_is s' a (System.dst (System.dself x)) (System.owner (System.dself x)) ∧ others sys dirs ver n a s s' ∧
    (RubySystem.getWarmupEnabled sys = false →
     asked sys a s x (packets s') ∧ sent sys counts a q p s x (base s')).

(** The turn of the model before its actions. *)
Definition turn0 st o (v : DataBlock.t) : System.dturn DataBlock.t :=
  System.mkDturn (System.mkDir st o [] [] [] v) false false [].

#[local] Abbreviation during s0 a q p st := (during sys counts dirs ver n a q p s0 st).

Lemma during_start s a q p st o v tb e :
  dir_ok s → home a → line_is s a st o → duties st = Some (tb, bool_decide (is_Some o)) →
  entry_of (directory s) a = Some e → head_of (base s) q = Some p →
  during s a q p st tb (turn0 st o v) (mkFrame s (tbe_ptr s a)).
Proof.
  intros [Hp _] Ha (tb' & Hd' & Ht & He) Hd Hea Hh. rewrite Hd in Hd'. injection Hd' as <-.
  rewrite Hea in He. destruct He as [Hst Hrep]. constructor; cbn; try done.
  - by exists e.
  - rewrite <- (fmap_is_Some TBEState), Ht. destruct tb; [by split|]. split; [by intros [? ?]|done].
  - unfold tbe_ptr. destruct tb, (TBETable.lookup (TBEs s) a); done.
  - intros _. exists []. split; [constructor|]. by rewrite app_nil_r.
  - intros _. exists []. split; [constructor|]. apply transfer_refl.
Qed.

(** The part of [doTransition] between reading the state and writing it. *)
Lemma worker_run s a p ty req inc st o ev v tb f0 : home a → describes counts p ty req inc →
  (ev = Directory.Event_Memory_Data → is_read p = true) →
  duties st = Some (tb, bool_decide (is_Some o)) →
  let during := during s a (queue_of ev) p st in
  {{ λ f, during tb (turn0 st o v) f ∧ unmoved f0 f }}
  doTransitionWorker Directory.find_transition (perform sys counts junk dirs anyone functional cfg now rt) needs
    resources (available now) ev st a
  {{ λ r f, match r.1 with
            | TransitionResult_Valid => ∃ x tb', System.dir_event ty req inc (System.mkDir st o [] [] [] v) ev = Some x ∧
                r.2 = System.dst (System.dself x) ∧
                duties r.2 = Some (tb', bool_decide (is_Some (System.owner (System.dself x)))) ∧ during tb' x f
            | TransitionResult_ResourceStall => during tb (turn0 st o v) f ∧ unmoved f0 f
            end }}.
Proof.
  intros Ha Hdesc Hr Hd during. unfold doTransitionWorker, System.dir_event. cbn [System.dst].
  destruct (Directory.find_transition st ev) as [[next acts]|] eqn:Et; [|by apply triple_raise].
  cbn [mbind option_bind fst snd].
  destruct (table_steps (queue_of ev) p ty req inc v st ev next acts o tb Et Hd eq_refl Hr) as (tb' & Hrun & Hd').
  eapply triple_bind; [by eapply check_runs|]. intros []; [|by apply triple_ret].
  eapply triple_bind.
  { eapply triple_conseq.
    - apply (triple_each_run stuck (dstep (queue_of ev) p ty req inc) (λ d, during d.1 d.2)
        (λ act, perform sys counts junk dirs anyone functional cfg now rt act a) acts
        (tb, turn0 st o v)); [|exact Hrun].
      intros act [tb1 x1] d Hact. by eapply act_runs.
    - by intros f [Hf _].
    - done. }
  intros u. apply triple_ret. intros f [H1 H2 H3 H4 H5 H6 H7 H8 H9 H10]. eexists _, tb'.
  split; [done|]. split; [done|]. split; [exact Hd'|]. by constructor.
Qed.

Lemma prog_bind_last {A B C} (g : prog t A) (h : prog t B) (k : C) s s' u :
  (_ ← g; h) s = Ok (u, s') → (_ ← g; _ ← h; mret k) s = Ok (k, s').
Proof.
  unfold mbind, prog_bind. destruct (g s) as [[y s1]|]; [|done]. destruct (h s1) as [[z s2]|]; [|done].
  by intros [= _ <-].
Qed.

Lemma doTransition_run s a p ty req inc st o v ev :
  dir_ok s → home a → line_is s a st o → head_of (base s) (queue_of ev) = Some p →
  describes counts p ty req inc → (ev = Directory.Event_Memory_Data → is_read p = true) →
  match doTransition ev (tbe_ptr s a) a s with
  | Ok (TransitionResult_Valid, s') => dir_ok s' ∧ follows s a (queue_of ev) p ty req inc st o v ev s'
  | Ok (TransitionResult_ResourceStall, s') => dir_ok s'
  | Err e => ¬ stuck e
  end.
Proof.
  intros Hs Ha Hl Hh Hdesc Hr. unfold DirController.doTransition.
  destruct (getState_run s a st o Hs Ha Hl) as (d & e & Hget & Hs1 & Hl1 & He & _ & _ & Hoth).
  rewrite (prog_bind_step _ _ _ _ _ Hget). set (s1 := with_directory s d) in *.
  pose proof Hl1 as (tb & Hd & _).
  pose proof (during_start s1 a (queue_of ev) p st o v tb e Hs1 Ha Hl1 Hd He Hh) as Hstart.
  set (f0 := mkFrame s1 (tbe_ptr s1 a)) in Hstart.
  pose proof (worker_run s1 a p ty req inc st o ev v tb f0 Ha Hdesc Hr Hd f0
    (conj Hstart (conj eq_refl eq_refl))) as H1.
  unfold mbind at 1, prog_bind at 1. change (tbe_ptr s a) with (tbe_ptr s1 a). fold f0.
  destruct (doTransitionWorker _ _ _ _ _ _ _ _ f0) as [[[res next] f]|] eqn:Ew; [|done].
  cbn [mbind outcome_bind fst snd] in H1 |- *. destruct res.
  2: { destruct H1 as [Hf [Hd1 Ht1]]. eapply dir_ok_parts; [exact Hs1|by eapply dur_parts|done|done]. }
  destruct H1 as (x & tb' & Hev & -> & Hd' & Hf). destruct f as [s2 ptr]. cbn [self m_tbe_ptr].
  destruct (finish_run sys counts junk dirs ver n functional Hset a Ha _ _ _ _ tb' x s2 ptr
    (System.dst (System.dself x)) Hf) as (s' & Hfin & Hb & Hpt & Hm & Ho & Ht & e' & He' & Hst' & Hrep').
  rewrite (prog_bind_last _ _ _ _ _ _ Hfin).
  assert (line_is s' a (System.dst (System.dself x)) (System.owner (System.dself x))) as Hl'.
  { exists tb'. by rewrite He'. }
  pose proof (dur_parts _ _ _ _ _ _ _ _ _ _ _ _ _ Hf) as (Hc2 & Hs2 & Hm2 & Hp2 & _). cbn [self] in *.
  split.
  - eapply (dir_ok_line sys counts dirs ver n a s1); [done| |done|done].
    unfold DirSafety.parts_ok, packets. by rewrite Hb, Hpt.
  - exists x. split; [done|]. split; [done|]. split; [by eapply others_trans|]. intros Hw. unfold packets. rewrite Hb, Hpt.
    split; [exact (dur_asked _ _ _ _ _ _ _ _ _ _ _ _ _ Hf Hw)|exact (dur_sent _ _ _ _ _ _ _ _ _ _ _ _ _ Hf Hw)].
Qed.

End transitions.

(** ** Ports *)

Section ports.
Context (sys : RubySystem.t) (counts : list Z) (junk : Z) (dirs : DirectoryMemory.statics) (ver n : Z).
Context (anyone : MachineID) (functional : mem_packet → mem_packet) (cfg : config) (now rt : Z).
Context (Hset : setting sys counts dirs functional).
Implicit Types (s : t) (a b : Z) (p : payload) (ev : Directory.Event).

#[local] Abbreviation home := (home sys dirs ver n).
#[local] Abbreviation message_ok := (message_ok sys counts dirs ver n).
#[local] Abbreviation ok := (dir_ok sys counts dirs ver n).
#[local] Abbreviation trigger := (trigger sys counts junk dirs anyone functional cfg now rt).

Definition has_head (q : Z) p s : Prop := ok s ∧ head_of (base s) q = Some p.

Lemma head_message q p s : has_head q p s → message_ok q p.
Proof.
  intros [[(_ & _ & Hm & _) _] Hh]. specialize (Hm q). rewrite Forall_forall in Hm. by apply Hm, head_held.
Qed.

(** The line a message is about. *)
Definition line_of p : option Z :=
  match p with
  | PRequest m => Some (RequestMsg.m_Addr m)
  | PResponse m => Some (ResponseMsg.m_Addr m)
  | PMemory m => Some (MemoryMsg.m_Addr m)
  | _ => None
  end.

Lemma message_describes q p a : message_ok q p → line_of p = Some a →
  home a ∧ ∃ ty req inc, describes counts p ty req inc.
Proof.
  destruct p as [m|m|m| | | |]; cbn; intros Hm [= <-]; unfold describes; cbn.
  - destruct Hm as (Ha & (r & Hr & Hok) & _). split; [done|]. exists (RequestMsg.m_Type m), r, None.
    by rewrite <- Hr.
  - split; [done|]. by exists Request_GETS, 0%nat, (Some (ResponseMsg.m_DataBlk m)).
  - destruct Hm as [Ha Hm]. split; [done|]. destruct (MemoryMsg.m_Type m) eqn:Et; [|by exists Request_GETS, 0%nat, None..].
    destruct (Hm eq_refl) as (r & Hr & Hok). exists Request_GETS, r, (Some (MemoryMsg.m_DataBlk m)).
    by rewrite <- Hr.
Qed.

Lemma safe_wake : {{ ok }} wake_next_cycle {{ λ _, ok }}.
Proof. intros s Hs. unfold wake_next_cycle, on_abs, zoom. cbn. by eapply dir_ok_parts; [exact Hs|apply Hs|..]. Qed.

Lemma dir_safe_trigger ev p a : line_of p = Some a → (ev = Directory.Event_Memory_Data → is_read p = true) →
  {{ has_head (queue_of ev) p }} trigger ev a {{ λ _, ok }}.
Proof.
  intros Hp Hr s Hs. pose proof (head_message _ _ _ Hs) as Hm. destruct Hs as [Hs Hh].
  destruct (message_describes _ p a Hm Hp) as (Ha & ty & req & inc & Hdesc).
  destruct (proj2 Hs a Ha) as (st & o & Hl).
  pose proof (doTransition_run sys counts junk dirs ver n anyone functional cfg now rt Hset s a p ty req inc st o
    (DataBlock.create sys) ev Hs Ha Hl Hh Hdesc Hr) as H1.
  unfold DirController.trigger, mbind, prog_bind, gets. cbn.
  destruct (doTransition _ _ _ _ _ _ _ _ _ ev _ a s) as [[[] s']|]; [|cbn; pose proof (safe_wake s' H1) as H2|done].
  - cbn. apply H1.
  - unfold after_transition, mbind, prog_bind. by destruct (wake_next_cycle s') as [[]|].
Qed.

(** *** Looking at a queue *)

Lemma with_base_same s : with_base s (base s) = s.
Proof. by destruct s. Qed.

Lemma safe_if_ready q g : q ∈ dir_buffers → {{ ok }} g {{ λ _, ok }} → {{ ok }} if_ready now q g {{ λ _, ok }}.
Proof.
  intros Hq Hg s Hs. unfold if_ready, mbind, prog_bind, on_abs, zoom.
  pose proof (safe_isReady (P := payload) now dir_buffers q Hq (base s) (proj1 (proj1 Hs))) as H1.
  destruct (AbstractController.isReady now q (base s)) as [[x c]|] eqn:E; [|done].
  apply isReady_same in E as ->. cbn. rewrite with_base_same. destruct x; [by apply Hg|done].
Qed.

Lemma safe_look {M A} q (cast : payload → outcome M) (k : M → prog t A) : q ∈ dir_buffers →
  (∀ p, avoids stuck (cast p)) →
  (∀ p m, cast p = Ok m → {{ has_head q p }} k m {{ λ _, ok }}) →
  {{ ok }} (m ← (p ← on_abs (AbstractController.peek q); lift (cast p)); k m) {{ λ _, ok }}.
Proof.
  intros Hq Hcast Hk s Hs. unfold mbind, prog_bind, on_abs, zoom.
  pose proof (safe_peek (P := payload) dir_buffers q Hq (base s) (proj1 (proj1 Hs))) as H1.
  destruct (AbstractController.peek q (base s)) as [[p c]|] eqn:E; [|done].
  apply peek_head in E as [-> Hh]. cbn. rewrite with_base_same. unfold lift. specialize (Hcast p).
  destruct (cast p) as [m|] eqn:Ec; [|done]. by apply (Hk p m Ec).
Qed.

Lemma safe_assert_for_me q p d : {{ has_head q p }} assert_for_me counts d {{ λ _, has_head q p }}.
Proof.
  apply keeps_bind; [apply keeps_gets|]. intros me. apply keeps_bind; [apply triple_lift_any; auto with avoids|].
  intros []; by apply triple_lift_any.
Qed.

Lemma safe_is_owner q p a m : home a →
  {{ has_head q p }} is_owner sys counts junk dirs a m {{ λ _, has_head q p }}.
Proof.
  intros Ha. unfold is_owner. apply keeps_bind; [|intros e; apply triple_lift_any; auto with avoids].
  intros s [Hs Hh]. pose proof Hs as [(_ & _ & _ & _ & Hm) Hl]. destruct (Hl a Ha) as (st & o & Hla).
  destruct (getDirectoryEntry_run sys counts junk dirs ver n functional Hset a s Hm Ha) as (e & s' & -> & Hr).
  destruct (reads_entry_line sys counts dirs ver n s a e s' st o Hs Ha Hr Hla) as (Hs' & _).
  split; [done|]. destruct Hr as [-> _]. exact Hh.
Qed.

Lemma safe_drop q : q ∈ dir_buffers → {{ ok }} _ ← dequeue_from now q; mret Idle {{ λ _, ok }}.
Proof.
  intros Hq. apply keeps_bind; [|intros ?; apply keeps_ret]. intros s Hs. unfold dequeue_from, on_abs, zoom.
  pose proof Hs as [(Hc & Hso & Hm & Hpk & Hmem) _].
  pose proof (safe_dequeue (P := payload) now dir_buffers q Hq (base s) Hc) as H1.
  destruct (AbstractController.dequeue now q (base s)) as [[x c]|] eqn:E; [|done]. cbn.
  apply dequeue_transfer in E as (p & _ & Ht & Hso'). eapply dir_ok_parts; [exact Hs| |done|done].
  split_and!; [done|by apply Hso'| |done|done]. eapply transfer_forall; [done|set_solver|done].
Qed.

Lemma has_head_ok {A} q p (g : prog t A) : {{ ok }} g {{ λ _, ok }} → {{ has_head q p }} g {{ λ _, ok }}.
Proof. intros Hg. eapply triple_conseq; [exact Hg|by intros s [? _]|done]. Qed.

Ltac serve := lazymatch goal with
  | |- triple _ _ (raise _) _ => by apply triple_raise
  | |- triple _ _ (DirController.trigger _ _ _ _ _ _ _ _ _ ?ev _) _ => by apply (dir_safe_trigger ev)
  | _ => idtac
  end.

Lemma safe_putm m : message_ok requestToDir_WB (PRequest m) →
  {{ has_head requestToDir_WB (PRequest m) }}
  putm_of sys counts junk dirs anyone functional cfg now rt requestToDir_WB m {{ λ _, ok }}.
Proof.
  intros Hm. eapply triple_bind; [apply safe_is_owner, Hm|].
  intros []; [serve|]. apply has_head_ok, safe_drop. by apply dir_buffer_known.
Qed.

Lemma safe_requestNetwork_in :
  {{ ok }} requestNetwork_in sys counts junk dirs anyone functional cfg now rt {{ λ _, ok }}.
Proof.
  apply safe_if_ready; [by apply dir_buffer_known|]. apply safe_look; [by apply dir_buffer_known|auto with avoids|].
  intros p m Hp. destruct p as [m'| | | | | |]; try done. injection Hp as ->.
  apply (triple_fact _ (message_ok requestToDir (PRequest m))); [by intros; eapply head_message|]. intros Hm.
  eapply triple_bind; [apply safe_assert_for_me|]. intros ?. pose proof Hm as (Ha & _ & Hput & _).
  destruct (RequestMsg.m_Type m); serve.
  - eapply triple_bind; [by apply safe_is_owner|]. intros []; serve.
  - by destruct Hput.
Qed.

Lemma safe_requestNetworkWB_in :
  {{ ok }} requestNetworkWB_in sys counts junk dirs anyone functional cfg now rt {{ λ _, ok }}.
Proof.
  apply safe_if_ready; [by apply dir_buffer_known|]. apply safe_look; [by apply dir_buffer_known|auto with avoids|].
  intros p m Hp. destruct p as [m'| | | | | |]; try done. injection Hp as ->.
  apply (triple_fact _ (message_ok requestToDir_WB (PRequest m))); [by intros; eapply head_message|]. intros Hm.
  eapply triple_bind; [apply safe_assert_for_me|]. intros ?. pose proof Hm as (Ha & _ & _ & Hput).
  rewrite (Hput eq_refl). by apply safe_putm.
Qed.

Lemma safe_responseNetwork_in :
  {{ ok }} responseNetwork_in sys counts junk dirs anyone functional cfg now rt {{ λ _, ok }}.
Proof.
  apply safe_if_ready; [by apply dir_buffer_known|]. apply safe_look; [by apply dir_buffer_known|auto with avoids|].
  intros p m Hp. destruct p as [|m'| | | | |]; try done. injection Hp as ->.
  eapply triple_bind; [apply safe_assert_for_me|]. intros ?.
  destruct (ResponseMsg.m_Type m); serve.
Qed.

Lemma safe_memQueue_in :
  {{ ok }} memQueue_in sys counts junk dirs anyone functional cfg now rt {{ λ _, ok }}.
Proof.
  apply safe_if_ready; [by apply dir_buffer_known|]. apply safe_look; [by apply dir_buffer_known|auto with avoids|].
  intros p m Hp. destruct p as [| |m'| | | |]; try done. injection Hp as ->.
  destruct (MemoryMsg.m_Type m) eqn:Et; [|serve..].
  apply (dir_safe_trigger Directory.Event_Memory_Data); [done|]. intros _. cbn. by rewrite Et.
Qed.

Lemma dir_safe_ports rank code : (rank, code) ∈ ports sys counts junk dirs anyone functional cfg now rt →
  {{ ok }} code {{ λ _, ok }}.
Proof.
  intros Hin. unfold ports in Hin. repeat (apply elem_of_cons in Hin as [[= -> ->]|Hin];
    [first [apply safe_requestNetwork_in|apply safe_requestNetworkWB_in|apply safe_responseNetwork_in
      |apply safe_memQueue_in]|]). by apply elem_of_nil in Hin.
Qed.

Lemma safe_cur_in_port rank : {{ ok }} set_cur_in_port rank {{ λ _, ok }}.
Proof.
  intros s Hs. unfold set_cur_in_port, on_abs, zoom. cbn. by eapply dir_ok_parts; [exact Hs|apply Hs|..].
Qed.

End ports.
