(* ===== verification/DirRuns.v ===== *)
(** * Runs of a directory controller

    The controller with what surrounds it: the network that brings and takes messages, and
    the memory that takes packets and answers them.  Every wakeup ends, every transition it
    makes is one of the model in [Coherence], and the lines stay in order. *)

From S2P Require Import Prelude Triples IntMath Addresses NodeSets Destinations Clocks StdHeap Buffers Arbiter.
From S2P Require Import SlotTimes Blocks Policies Caches Tables MsiTables Controllers DirectoryMemory.
From S2P Require Import Messages PacketQueues Machines DirController Coherence Pointers Contents Progress DirSafety.
Import DirController.
Local Open Scope Z_scope.
Local Open Scope triple_scope.

#[local] Existing Instance any_wiring.

(** ** Ports make progress *)

Definition dir_inputs : list Z := [requestToDir; requestToDir_WB; responseToDir; responseFromMemory].

Section progress.
Context (sys : RubySystem.t) (counts : list Z) (junk : Z) (dirs : DirectoryMemory.statics).
Context (anyone : MachineID) (functional : mem_packet → mem_packet) (cfg : config) (now rt : Z).
Implicit Types (s : t) (a : Z) (f : frame).

#[local] Abbreviation quiet := (quiet base).
#[local] Abbreviation winds_down := (winds_down base dir_inputs now).

Lemma dir_on_abs_run {A} (g : prog (AbstractController.t payload) A) s x s' : on_abs g s = Ok (x, s') →
  ∃ c, g (base s) = Ok (x, c) ∧ s' = with_base s c.
Proof. unfold on_abs, zoom. destruct (g (base s)) as [[y c]|]; [|done]. intros [= <- <-]. by exists c. Qed.

Lemma quiet_same {A} (g : prog t A) : (∀ s x s', g s = Ok (x, s') → base s' = base s) → quiet g.
Proof. intros Hg s x s' H1. unfold heaps. by rewrite (Hg s x s' H1). Qed.

Lemma getDirectoryEntry_base a s e s' : getDirectoryEntry sys counts junk dirs a s = Ok (e, s') → base s' = base s.
Proof.
  unfold getDirectoryEntry. intros (o & _ & H1)%bind_Ok. destruct o; [by injection H1 as _ <-|].
  apply bind_Ok in H1 as (e1 & _ & H1). by apply bind_Ok in H1 as (d & _ & [= _ <-]).
Qed.

Lemma quiet_is_owner a m : quiet (is_owner sys counts junk dirs a m).
Proof. apply quiet_bind; [apply quiet_same, getDirectoryEntry_base|intros e; apply quiet_lift]. Qed.

Lemma quiet_getState tbe a : quiet (getState sys counts junk dirs tbe a).
Proof.
  destruct tbe; cbn [getState].
  - apply quiet_bind; [apply quiet_reads|intros ?; apply quiet_ret].
  - apply quiet_bind; [apply quiet_reads|]. intros []; [|apply quiet_ret].
    apply quiet_bind; [apply quiet_same, getDirectoryEntry_base|intros ?; apply quiet_ret].
Qed.

Lemma dir_quiet_check_all acts rs : Progress.quiet (λ f, base (self f)) (check_all needs (available now) acts rs).
Proof.
  induction rs as [|r rs IH]; cbn [check_all]; [apply quiet_ret|]. case_decide; [done|].
  apply quiet_bind; [|intros []; [done|apply quiet_ret]].
  destruct r; cbn [available]. intros f x f' H1. unfold on_self, on_abs, zoom in H1.
  destruct (AbstractController.areNSlotsAvailable _ _ _ _) as [[y c]|] eqn:E; [|done]. injection H1 as <- <-.
  exact (slots_heaps _ _ _ _ _ _ E).
Qed.

Lemma dir_doTransition_stall ev tbe a s s' :
  doTransition sys counts junk dirs anyone functional cfg now rt ev tbe a s =
    Ok (TransitionResult_ResourceStall, s') → heaps base s' = heaps base s.
Proof.
  unfold doTransition. intros (st & s1 & H1 & H2)%prog_bind_Ok. apply quiet_getState in H1. rewrite <- H1.
  apply prog_bind_Ok in H2 as ([[res next] ptr] & s2 & H2 & H3).
  apply bind_Ok in H2 as ([[r1 r2] f] & H2 & [= -> -> <- <-]). destruct res.
  { apply prog_bind_Ok in H3 as (? & ? & _ & H3). by apply prog_bind_Ok in H3 as (? & ? & _ & [= ]). }
  injection H3 as <-. unfold doTransitionWorker in H2.
  destruct (Directory.find_transition st ev) as [[nx acts]|]; [|done].
  apply prog_bind_Ok in H2 as (ok & f1 & H2 & H3). destruct ok.
  - by apply prog_bind_Ok in H3 as (? & ? & _ & [= ]).
  - injection H3 as _ <-. exact (dir_quiet_check_all _ _ _ _ _ H2).
Qed.

Lemma dir_quiet_wake : quiet wake_next_cycle.
Proof. by intros s x s' [= <- <-]. Qed.

Lemma dir_trigger_winds ev a : winds_down (trigger sys counts junk dirs anyone functional cfg now rt ev a).
Proof.
  apply winds_down_bind; [apply quiet_gets|]. intros tbe s r s' _ (res & s1 & H1 & H2)%prog_bind_Ok.
  destruct res; [by injection H2 as <- <-|].
  apply dir_doTransition_stall, (waiting_heaps base dir_inputs now) in H1. rewrite <- H1.
  exact (after_transition_winds base dir_inputs now _ _ dir_quiet_wake _ _ _ I H2).
Qed.

Lemma drop_winds q : winds_down (_ ← dequeue_from now q; mret Idle).
Proof.
  intros s r s' _ (z & s1 & H1 & [= <- <-])%prog_bind_Ok. apply dir_on_abs_run in H1 as (c & H1 & ->).
  by eapply dequeue_waiting.
Qed.

Lemma dir_look_winds {M} q (cast : payload → outcome M) k : (∀ m, winds_down (k m)) →
  winds_down (m ← (p ← on_abs (AbstractController.peek q); lift (cast p)); k m).
Proof.
  intros Hk. apply winds_down_bind; [|done]. apply quiet_bind; [|intros p; apply quiet_lift].
  apply quiet_same. intros s x s' H1. apply dir_on_abs_run in H1 as (c & H1 & ->). by apply peek_head in H1 as [-> _].
Qed.

Lemma dir_if_ready_winds q g : winds_down g → winds_down (if_ready now q g).
Proof.
  intros Hg. apply winds_down_bind; [|intros []; [done|apply winds_down_idle]].
  apply quiet_same. intros s x s' H1. apply dir_on_abs_run in H1 as (c & H1 & ->). by apply isReady_same in H1 as ->.
Qed.

Lemma for_me_winds d k : winds_down k → winds_down (_ ← assert_for_me counts d; k).
Proof.
  intros Hk. apply winds_down_bind; [|done]. apply quiet_bind; [apply quiet_gets|]. intros me.
  apply quiet_bind; [apply quiet_lift|]. intros ?. apply quiet_lift.
Qed.

Lemma raise_winds e : winds_down (raise e).
Proof. by intros s r s'. Qed.

Lemma putm_winds q m : winds_down (putm_of sys counts junk dirs anyone functional cfg now rt q m).
Proof.
  apply winds_down_bind; [apply quiet_is_owner|]. intros []; [apply dir_trigger_winds|apply drop_winds].
Qed.

Lemma ports_wind rank code : (rank, code) ∈ ports sys counts junk dirs anyone functional cfg now rt →
  winds_down code.
Proof.
  intros Hin. unfold ports in Hin.
  repeat (apply elem_of_cons in Hin as [[= -> ->]|Hin]; [apply dir_if_ready_winds, dir_look_winds; intros m|]).
  - apply for_me_winds. destruct (RequestMsg.m_Type m); try apply raise_winds; try apply dir_trigger_winds;
      [|apply putm_winds]. apply winds_down_bind; [apply quiet_is_owner|]. intros ?. apply dir_trigger_winds.
  - apply for_me_winds. destruct (RequestMsg.m_Type m); first [apply raise_winds|apply dir_trigger_winds|apply putm_winds].
  - apply for_me_winds. destruct (ResponseMsg.m_Type m); first [apply raise_winds|apply dir_trigger_winds].
  - destruct (MemoryMsg.m_Type m); first [apply raise_winds|apply dir_trigger_winds].
  - by apply elem_of_nil in Hin.
Qed.

End progress.

(** ** Every transition is one of the model *)

Section model.
Context (sys : RubySystem.t) (counts : list Z) (junk : Z) (dirs : DirectoryMemory.statics) (ver n : Z).
Context (anyone : MachineID) (functional : mem_packet → mem_packet) (cfg : config) (now rt : Z).
Context (Hset : setting sys counts dirs functional).
Implicit Types (s : t) (a : Z) (p : payload) (ev : Directory.Event) (v : DataBlock.t).

#[local] Abbreviation home := (home sys dirs ver n).
#[local] Abbreviation line_is := (line_is sys counts dirs).
#[local] Abbreviation ok := (dir_ok sys counts dirs ver n).

(** The event of the model for a message of the given kind, when [o] owns the line. *)
Definition event_for p (o : option nat) (ty : CoherenceRequestType) (req : nat) : option Directory.Event :=
  match p with
  | PRequest _ =>
      match System.directory_event (bool_decide (o = Some req)) ty with
      | System.Trigger e => Some e
      | _ => None
      end
  | PResponse _ => Some Directory.Event_Data
  | PMemory _ => Some (if is_read p then Directory.Event_Memory_Data else Directory.Event_Memory_Ack)
  | _ => None
  end.

(** From [s] to [s'] the controller has made the transition of the model for the message at
    the head of a queue. *)
Definition fires v s s' : Prop :=
  ∃ q p a ty req inc st o ev,
    head_of (base s) q = Some p ∧ line_of p = Some a ∧ describes counts p ty req inc ∧
    line_is s a st o ∧ event_for p o ty req = Some ev ∧
    follows sys counts dirs ver n s a q p ty req inc st o v ev s'.

(** A state in which at most the entry of [a] was made. *)
Definition near a s s1 : Prop :=
  ok s1 ∧ s1 = with_directory s (directory s1) ∧
  (∀ st o, line_is s a st o → line_is s1 a st o) ∧ others sys dirs ver n a s s1.

Lemma follows_near s s1 a q p ty req inc st o v ev s' : near a s s1 →
  follows sys counts dirs ver n s1 a q p ty req inc st o v ev s' →
  follows sys counts dirs ver n s a q p ty req inc st o v ev s'.
Proof.
  intros (_ & E & _ & Ho) (x & Hx & Hl & Hoth & Hw). exists x. split; [done|]. split; [done|].
  split; [by eapply others_trans|]. intros Hwarm. specialize (Hw Hwarm) as [Ha Hs]. rewrite E in Ha, Hs.
  by split.
Qed.

Lemma trigger_fires v s s1 s' ev p a q ty req inc st o : ok s → near a s s1 →
  head_of (base s) q = Some p → q = queue_of ev → line_of p = Some a →
  describes counts p ty req inc → line_is s a st o → event_for p o ty req = Some ev →
  trigger sys counts junk dirs anyone functional cfg now rt ev a s1 = Ok (Fired, s') → fires v s s'.
Proof.
  intros Hs Hnear Hh -> Hp Hdesc Hl Hev H1. exists (queue_of ev), p, a, ty, req, inc, st, o, ev.
  split_and!; [done..|]. pose proof Hnear as (Hs1 & E & Hlines & _).
  assert (has_head sys counts dirs ver n (queue_of ev) p s) as Hhead by done.
  apply head_message in Hhead. destruct (message_describes _ _ _ _ _ _ p a Hhead Hp) as [Ha _].
  assert (ev = Directory.Event_Memory_Data → is_read p = true) as Hr.
  { intros ->. destruct p; try done. cbn [event_for] in Hev.
    - by destruct ty, (bool_decide _).
    - revert Hev. unfold event_for. by destruct (is_read _). }
  assert (head_of (base s1) (queue_of ev) = Some p) as Hh1 by (by rewrite E).
  pose proof (doTransition_run sys counts junk dirs ver n anyone functional cfg now rt Hset s1 a p ty req inc st o
    v ev Hs1 Ha (Hlines _ _ Hl) Hh1 Hdesc Hr) as H2.
  unfold trigger, mbind, prog_bind, gets in H1. cbn in H1.
  destruct (doTransition _ _ _ _ _ _ _ _ _ ev _ a s1) as [[[] s2]|]; [|done|done].
  injection H1 as <-. by apply (follows_near s s1); [|apply H2].
Qed.

Lemma near_refl a s : ok s → near a s s.
Proof. intros Hs. split_and!; [done|by destruct s|done|done]. Qed.

(** Reading the owner makes the entry of the line, and gives the answer of the model. *)
Lemma is_owner_near s a req st o b s1 : ok s → home a → line_is s a st o → machine_ok counts (core req) →
  is_owner sys counts junk dirs a (core req) s = Ok (b, s1) → near a s s1 ∧ b = bool_decide (o = Some req).
Proof.
  intros Hs Ha Hl Hok (e & s2 & H1 & H2)%prog_bind_Ok. pose proof Hs as [(_ & _ & _ & _ & Hm) Hlines].
  destruct (getDirectoryEntry_run sys counts junk dirs ver n functional Hset a s Hm Ha) as (e' & s' & H3 & Hr).
  rewrite H1 in H3. injection H3 as <- <-.
  destruct (reads_entry_line sys counts dirs ver n s a e s2 st o Hs Ha Hr Hl) as (Hs2 & Hl2 & _ & Hrep & Ho).
  unfold lift in H2. rewrite (dest_isElement counts _ _ _ Hrep Hok) in H2. injection H2 as <- <-. split.
  - split_and!; [done|apply Hr| |].
    + intros st' o' Hlb. by destruct (reads_entry_line sys counts dirs ver n s a e s2 st' o' Hs Ha Hr Hlb)
        as (_ & ? & _).
    + done.
  - apply bool_decide_ext. unfold owners. destruct o as [r|]; cbn; [|set_solver].
    rewrite elem_of_singleton. unfold core. split; [intros [= E]; f_equal; lia|by intros [= ->]].
Qed.

(** *** The ports *)

Lemma look_Ok {M} q (cast : payload → outcome M) k s s' :
  if_ready now q (m ← (p ← on_abs (AbstractController.peek q); lift (cast p)); k m) s = Ok (Fired, s') →
  ∃ p m, head_of (base s) q = Some p ∧ cast p = Ok m ∧ k m s = Ok (Fired, s').
Proof.
  intros (b & s1 & H1 & H2)%prog_bind_Ok. apply dir_on_abs_run in H1 as (c & H1 & ->).
  apply isReady_same in H1 as ->. rewrite with_base_same in H2. destruct b; [|done].
  apply prog_bind_Ok in H2 as (m & s1 & H1 & H2). apply prog_bind_Ok in H1 as (p & s2 & H1 & H3).
  apply dir_on_abs_run in H1 as (c & H1 & ->). apply peek_head in H1 as [-> Hh]. rewrite with_base_same in H3.
  unfold lift in H3. destruct (cast p) as [m'|] eqn:Ec; [|done]. injection H3 as <- <-. by exists p, m'.
Qed.

Lemma for_me_Ok {A} d (k : prog t A) s r : (_ ← assert_for_me counts d; k) s = Ok r → k s = Ok r.
Proof.
  destruct r as [x s']. intros (u & s1 & H1 & H2)%prog_bind_Ok.
  apply prog_bind_Ok in H1 as (me & s2 & [= <- <-] & H1). apply prog_bind_Ok in H1 as (h & s3 & H1 & H3).
  unfold lift in H1, H3. destruct (NetDest.isElement _ _ _); [|done]. injection H1 as <- <-.
  destruct (slicc_assert _); [|done]. by injection H3 as <- <-.
Qed.

(** A request at the head of its queue. *)
Lemma request_context s q m : ok s → head_of (base s) q = Some (PRequest m) →
  ∃ req st o, home (RequestMsg.m_Addr m) ∧ RequestMsg.m_Requestor m = core req ∧ machine_ok counts (core req) ∧
    describes counts (PRequest m) (RequestMsg.m_Type m) req None ∧ line_is s (RequestMsg.m_Addr m) st o ∧
    (q = requestToDir → RequestMsg.m_Type m ≠ Request_PUTM) ∧
    (q = requestToDir_WB → RequestMsg.m_Type m = Request_PUTM).
Proof.
  intros Hs Hh. assert (has_head sys counts dirs ver n q (PRequest m) s) as Hm by done.
  apply head_message in Hm as (Ha & (req & Hr & Hok) & Hput). rewrite Hr in Hok.
  destruct (proj2 Hs _ Ha) as (st & o & Hl). exists req, st, o.
  split_and!; [done|done|done|by unfold describes|done|apply Hput..].
Qed.

Lemma requestNetwork_fires v s s' : ok s →
  requestNetwork_in sys counts junk dirs anyone functional cfg now rt s = Ok (Fired, s') → fires v s s'.
Proof.
  intros Hs (p & m & Hh & Hp & H1)%look_Ok. destruct p; try done. injection Hp as ->.
  apply for_me_Ok in H1. destruct (request_context s _ m Hs Hh) as (req & st & o & Ha & Hr & Hok & Hdesc & Hl & Hput & _).
  pose proof (λ ev s1 Hnear Hq, trigger_fires v s s1 s' ev (PRequest m) _ _ _ _ _ _ _ Hs Hnear Hh Hq eq_refl Hdesc Hl)
    as Hfire. cbn [event_for] in Hfire.
  destruct (RequestMsg.m_Type m) eqn:Et; try discriminate H1; try (exfalso; by apply Hput);
    try (by lazymatch type of H1 with trigger _ _ _ _ _ _ _ _ _ _ _ _ = _ =>
      refine (Hfire _ s (near_refl _ s Hs) _ _ H1) end).
  apply prog_bind_Ok in H1 as (b & s1 & H1 & H2). rewrite Hr in H1.
  destruct (is_owner_near s _ req st o b s1 Hs Ha Hl Hok H1) as [Hnear ->].
  refine (Hfire _ s1 Hnear _ _ H2); [by destruct (bool_decide _)|done].
Qed.

Lemma requestNetworkWB_fires v s s' : ok s →
  requestNetworkWB_in sys counts junk dirs anyone functional cfg now rt s = Ok (Fired, s') → fires v s s'.
Proof.
  intros Hs (p & m & Hh & Hp & H1)%look_Ok. destruct p; try done. injection Hp as ->.
  apply for_me_Ok in H1. destruct (request_context s _ m Hs Hh) as (req & st & o & Ha & Hr & Hok & Hdesc & Hl & _ & Hput).
  specialize (Hput eq_refl). rewrite Hput in H1, Hdesc.
  apply prog_bind_Ok in H1 as (b & s1 & H1 & H2). rewrite Hr in H1.
  destruct (is_owner_near s _ req st o b s1 Hs Ha Hl Hok H1) as [Hnear ->].
  destruct (bool_decide (o = Some req)) eqn:Eo; [|by apply prog_bind_Ok in H2 as (? & ? & _ & [= ])].
  refine (trigger_fires v s s1 s' Directory.Event_PUTM (PRequest m) _ _ _ _ _ _ _ Hs Hnear Hh eq_refl eq_refl Hdesc Hl _ H2).
  unfold event_for. by rewrite Eo.
Qed.

Lemma responseNetwork_fires v s s' : ok s →
  responseNetwork_in sys counts junk dirs anyone functional cfg now rt s = Ok (Fired, s') → fires v s s'.
Proof.
  intros Hs (p & m & Hh & Hp & H1)%look_Ok. destruct p; try done. injection Hp as ->. apply for_me_Ok in H1.
  assert (has_head sys counts dirs ver n responseToDir (PResponse m) s) as Hm by done. apply head_message in Hm as Ha.
  destruct (proj2 Hs _ Ha) as (st & o & Hl). destruct (ResponseMsg.m_Type m); try discriminate H1.
  by refine (trigger_fires v s s s' Directory.Event_Data (PResponse m) _ _ Request_WB_ACK 0%nat _ _ _ Hs (near_refl _ s Hs) Hh
    eq_refl eq_refl eq_refl Hl _ H1).
Qed.

Lemma memQueue_fires v s s' : ok s →
  memQueue_in sys counts junk dirs anyone functional cfg now rt s = Ok (Fired, s') → fires v s s'.
Proof.
  intros Hs (p & m & Hh & Hp & H1)%look_Ok. destruct p; try done. injection Hp as ->.
  assert (has_head sys counts dirs ver n responseFromMemory (PMemory m) s) as Hm by done.
  apply head_message in Hm as [Ha Hread]. destruct (proj2 Hs _ Ha) as (st & o & Hl).
  destruct (MemoryMsg.m_Type m) eqn:Et; try discriminate H1.
  - destruct (Hread eq_refl) as (req & Hr & Hok). rewrite Hr in Hok.
    refine (trigger_fires v s s s' Directory.Event_Memory_Data (PMemory m) _ _ Request_WB_ACK req (Some (MemoryMsg.m_DataBlk m)) _ _ Hs
      (near_refl _ s Hs) Hh eq_refl eq_refl _ Hl _ H1); [|cbn; by rewrite Et].
    unfold describes, is_read. by rewrite Et.
  - refine (trigger_fires v s s s' Directory.Event_Memory_Ack (PMemory m) _ _ Request_WB_ACK 0%nat None _ _ Hs
      (near_refl _ s Hs) Hh eq_refl eq_refl _ Hl _ H1); [|cbn; by rewrite Et].
    unfold describes, is_read. by rewrite Et.
Qed.

Lemma ports_fire v rank code s s' : (rank, code) ∈ ports sys counts junk dirs anyone functional cfg now rt →
  ok s → code s = Ok (Fired, s') → fires v s s'.
Proof.
  intros Hin Hs H1. unfold ports in Hin. repeat (apply elem_of_cons in Hin as [[= -> ->]|Hin];
    [first [by apply requestNetwork_fires|by apply requestNetworkWB_fires|by apply responseNetwork_fires
      |by apply memQueue_fires]|]). by apply elem_of_nil in Hin.
Qed.

End model.

(** ** Runs *)

Section runs.
Context (sys : RubySystem.t) (counts : list Z) (junk : Z) (dirs : DirectoryMemory.statics) (ver n : Z).
Context (anyone : MachineID) (functional : mem_packet → mem_packet) (cfg : config).
Implicit Types (s : t) (k : mem_packet) (l : list mem_packet).

#[local] Abbreviation home := (home sys dirs ver n).
#[local] Abbreviation entry_of := (entry_of sys dirs).
#[local] Abbreviation message_ok := (message_ok sys counts dirs ver n).
#[local] Abbreviation packet_ok := (packet_ok sys counts dirs ver n).
#[local] Abbreviation ok := (dir_ok sys counts dirs ver n).

(** The answer to a packet: for the same line and the same machine. *)
Definition answer_to k k' : Prop :=
  pkt_addr k' = pkt_addr k ∧ pkt_isRead k' = pkt_isRead k ∧ senderState k' = senderState k.

(** What happens to a directory, with the packets that the memory has not answered yet: it
    wakes up, the network brings a message or takes one, the port sends its first packet,
    which the memory takes or refuses, or the memory answers. *)
Inductive dir_step : t * list mem_packet → t * list mem_packet → Prop :=
  | step_wakeup now rt fuel u s s' l :
      wakeup sys counts junk dirs anyone functional cfg now rt fuel s = Ok (u, s') → dir_step (s, l) (s', l)
  | step_deliver now rt edge buf m latency u s s' l : buf ≠ responseFromMemory → message_ok buf m →
      on_abs (AbstractController.enqueue sys now rt edge buf m latency false) s = Ok (u, s') →
      dir_step (s, l) (s', l)
  | step_take now z s s' l :
      on_abs (AbstractController.dequeue now responseFromDir) s = Ok (z, s') → dir_step (s, l) (s', l)
  | step_send now (accepted : bool) time k rest q s l :
      PacketQueue.transmitList (memoryPort s) = (time, k) :: rest →
      PacketQueue.processSendEvent (λ _, false) now (memoryPort s) accepted [] = Ok q ∨
      PacketQueue.retry (λ _, false) now (memoryPort s) accepted [] = Ok q →
      dir_step (s, l) (with_port s q, if accepted then l ++ [k] else l)
  | step_answer now rt k k' l1 l2 u s s' : answer_to k k' →
      recvTimingResp sys now rt k' s = Ok (u, s') → dir_step (s, l1 ++ k :: l2) (s', l1 ++ l2).

(** A controller at the start: nothing in its buffers, its port and its memory. *)
Definition dir_fresh s : Prop :=
  ctl_ok dir_buffers (base s) ∧
  (∀ id b, AbstractController.buffers (base s) !! id = Some b →
     MessageBuffer.m_prio_heap b = [] ∧ MessageBuffer.m_stall_msg_map b = []) ∧
  PacketQueue.transmitList (memoryPort s) = [] ∧ memory_ok ver n (directory s) ∧
  Forall (λ e, e = None) (DirectoryMemory.m_entries (directory s)) ∧ TBETable.m_map (TBEs s) = ∅.

Lemma dir_fresh_ok s : dir_fresh s → ok s.
Proof.
  intros (Hc & Hb & Hp & Hm & He & Ht). split.
  - split_and!; [done| | | |done].
    + intros id b Hib. unfold stall_sorted. rewrite (proj2 (Hb id b Hib)). constructor.
    + intros id. unfold holding. destruct (AbstractController.buffers (base s) !! id) as [b|] eqn:E; [|constructor].
      destruct (Hb id b E) as [Hh Hs]. cbn. unfold contents, MessageBuffer.stalled. rewrite Hh, Hs. constructor.
    + unfold packets. rewrite Hp. constructor.
  - intros a Ha. exists Directory.State_I, None. exists false. split; [done|].
    unfold TBETable.lookup. rewrite Ht. split; [done|].
    replace (entry_of (directory s) a) with (@None Entry); [done|]. unfold DirSafety.entry_of.
    destruct (_ !! _) as [e|] eqn:E; [|done]. rewrite Forall_forall in He.
    by rewrite (He e (list_elem_of_lookup_2 _ _ _ E)).
Qed.

Lemma send_packets now (q q' : PacketQueue.t mem_packet) accepted time k rest :
  PacketQueue.transmitList q = (time, k) :: rest →
  PacketQueue.processSendEvent (λ _, false) now q accepted [] = Ok q' ∨
  PacketQueue.retry (λ _, false) now q accepted [] = Ok q' →
  ∀ y, y ∈ (PacketQueue.transmitList q').*2 → y ∈ (PacketQueue.transmitList q).*2.
Proof.
  intros Hq H y. assert (∀ q0, PacketQueue.transmitList q0 = PacketQueue.transmitList q →
    PacketQueue.sendDeferredPacket (λ _, false) now q0 accepted [] = Ok q' →
    y ∈ (PacketQueue.transmitList q').*2 → y ∈ (PacketQueue.transmitList q).*2) as Hsend.
  { intros q0 E H1 Hy. unfold PacketQueue.sendDeferredPacket in H1. rewrite E, Hq in H1.
    do 2 apply bind_Ok in H1 as (? & _ & H1). cbn in H1. rewrite Hq. destruct accepted.
    - apply schedSendEvent_list in H1. rewrite H1 in Hy. cbn in *. set_solver.
    - injection H1 as <-. done. }
  destruct H as [(? & _ & H)%bind_Ok|(? & _ & H)%bind_Ok]; by eapply Hsend; [|exact H].
Qed.

Context (Hset : setting sys counts dirs functional).

Definition run_ok (x : t * list mem_packet) : Prop := ok x.1 ∧ Forall packet_ok x.2.

Lemma wakeup_ok now rt fuel :
  triple (λ f, f = NullDeref) ok (wakeup sys counts junk dirs anyone functional cfg now rt fuel) (λ _, ok).
Proof.
  apply wakeup_keeps; [apply safe_cur_in_port|apply safe_wake|]. intros rank code Hin.
  by eapply dir_safe_ports.
Qed.

(** A change of the queues by a transfer. *)
Lemma transfer_ok s c ins outs : ok s → ctl_ok dir_buffers c → (sorted (base s) → sorted c) →
  transfer ins outs (base s) c → (∀ id y, (id, y) ∈ ins → message_ok id y) → ok (with_base s c).
Proof.
  intros Hs Hc Hso Ht Hin. pose proof Hs as [(_ & Hs0 & Hm & Hpk & Hmem) _].
  eapply dir_ok_parts; [exact Hs| |done|done]. split_and!; [done|by apply Hso| |done|done].
  by eapply transfer_forall.
Qed.

Lemma dir_step_ok x x' : run_ok x → dir_step x x' → run_ok x'.
Proof.
  intros [Hs Hl] H1. destruct H1 as [now rt fuel u s s' l H1|now rt edge buf m latency u s s' l Hbuf Hm H1
    |now z s s' l H1|now accepted time k rest q s l Hq H1|now rt k k' l1 l2 u s s' Hans H1]; cbn [fst snd] in *.
  - split; [|done]. exact (triple_Ok _ _ _ _ _ _ _ (wakeup_ok now rt fuel) Hs H1).
  - split; [|done]. apply dir_on_abs_run in H1 as (c & H1 & ->). pose proof Hs as [(Hc & _) _].
    pose proof H1 as (Ht & Hso & _)%enqueue_transfer.
    eapply transfer_ok; [done| |done|exact Ht|].
    + pose proof H1 as (b & r & Hb & Hf & ->)%on_buffer_Ok. eapply with_buffer_ok; [done|done|]. by eapply enqueue_conf.
    + intros id y Hin. by apply list_elem_of_singleton in Hin as [= -> ->].
  - split; [|done]. apply dir_on_abs_run in H1 as (c & H1 & ->). pose proof Hs as [(Hc & _) _].
    pose proof H1 as (p & _ & Ht & Hso)%dequeue_transfer.
    eapply transfer_ok; [done| |done|exact Ht|set_solver].
    exact (triple_Ok _ _ _ _ _ _ _ (safe_dequeue (P := payload) now dir_buffers responseFromDir
      (dir_buffer_known _ ltac:(done))) Hc H1).
  - pose proof Hs as [(Hc & Hso & Hm & Hpk & Hmem) _]. rewrite Forall_forall in Hpk. split.
    + eapply dir_ok_parts; [exact Hs| |done|done]. split_and!; [done..| |done]. apply Forall_forall.
      intros y Hy. apply Hpk. by eapply send_packets.
    + destruct accepted; [|done]. apply Forall_app. split; [done|]. apply Forall_singleton, Hpk.
      unfold packets. rewrite Hq. cbn. set_solver.
  - apply Forall_app in Hl as [Hl1 [Hk Hl2]%Forall_cons]. split; [|by apply Forall_app].
    assert (packet_ok k') as Hk'.
    { destruct Hk as (Hh & m & Hm & Hcore), Hans as (E1 & E2 & E3). split; [by rewrite E1|].
      exists m. by rewrite E2, E3. }
    pose proof (recvTimingResp_run sys counts dirs ver n now rt k' Hk' s (proj1 Hs)) as H2. rewrite H1 in H2.
    destruct H2 as (c & m & -> & Hc & Hso & Ht & Hm & _).
    eapply transfer_ok; [done|done|done|exact Ht|]. intros id y Hin. by apply list_elem_of_singleton in Hin as [= -> ->].
Qed.

Lemma dir_run_ok s x : dir_fresh s → rtc dir_step (s, []) x → run_ok x.
Proof.
  intros Hs Hr. assert (run_ok (s, [])) as H0 by (split; [by apply dir_fresh_ok|constructor]). revert H0.
  induction Hr as [|x y z H1 _ IH]; [done|]. intros Hx. by apply IH, (dir_step_ok x).
Qed.

(** C6: in every run of a directory from empty buffers and an empty memory, whatever the
    caches ask for and however the memory answers, every line has exactly the transaction
    entry its state calls for, the two records of its state agree, and its entry names
    exactly one existing cache as the owner in the states IM, M, MI and M_D, and none in the
    others. *)
Theorem dir_lines_agree s s' l : dir_fresh s → rtc dir_step (s, []) (s', l) →
  ∀ a, home a → ∃ st tb o,
    duties st = Some (tb, bool_decide (is_Some o)) ∧
    TBEState <$> TBETable.lookup (TBEs s') a = (if tb : bool then Some st else None) ∧
    match entry_of (directory s') a with
    | None => st = Directory.State_I
    | Some e => DirectoryState e = st ∧ (∀ r, o = Some r → machine_ok counts (core r)) ∧
        ∀ m, machine_ok counts m → NetDest.isElement counts (Owner e) m = Ok (bool_decide (core <$> o = Some m))
    end.
Proof.
  intros Hf Hr a Ha. destruct (dir_run_ok s (s', l) Hf Hr) as [[_ Hl] _].
  destruct (Hl a Ha) as (st & o & tb & Hd & Ht & He). exists st, tb, o. split; [done|]. split; [done|].
  cbn [fst] in *. destruct (entry_of (directory s') a) as [e|]; [|done]. destruct He as [Hst Hrep].
  split; [done|]. split; [intros r ->; apply Hrep; set_solver|]. intros m Hm. rewrite (dest_isElement counts _ _ _ Hrep Hm). f_equal. apply bool_decide_ext.
  unfold owners. destruct o as [r|]; cbn; [|set_solver]. rewrite elem_of_singleton.
  split; [by intros ->|by intros [= ->]].
Qed.

(** C14: every wakeup of a directory ends: in any state of such a run there is a number of
    iterations after which the loop has ended, no inner loop runs on, and no null pointer is
    followed, to an entry, a transaction entry, a message buffer or the sender of a packet. *)
Theorem dir_wakeup_ends s s' l now rt : dir_fresh s → rtc dir_step (s, []) (s', l) →
  ∃ N, ∀ fuel, (N ≤ fuel)%nat →
    wakeup sys counts junk dirs anyone functional cfg now rt fuel s' ≠ Err OutOfFuel ∧
    wakeup sys counts junk dirs anyone functional cfg now rt fuel s' ≠ Err NullDeref.
Proof.
  intros Hf Hr. destruct (dir_run_ok s (s', l) Hf Hr) as [Hs _].
  destruct (wakeup_loop_ends base dir_inputs now (ports sys counts junk dirs anyone functional cfg now rt)
    set_cur_in_port wake_next_cycle (m_transitions_per_cycle cfg) ok) with (s := s') (counter := 0) as [N HN];
    [apply safe_cur_in_port|by intros rank x y z [= <- <-]|apply safe_wake| |done|].
  { intros rank code Hin. split; [by eapply dir_safe_ports|]. intros x r x' _.
    exact (ports_wind sys counts junk dirs anyone functional cfg now rt rank code Hin x r x' I). }
  exists N. intros fuel Hfu. specialize (HN fuel Hfu). unfold wakeup.
  destruct (wakeup_loop _ _ _ _ _ _ _) as [x|f]; [done|]. split; intros [= ->]; by apply HN.
Qed.

(** C5: when the code of a port fires a transition, it is the transition that the directory
    of [Coherence] makes for the message at the head of the queue: the event is the one the
    model chooses for the message and the owner of the line, the state and the owner of the
    line afterwards are those of the model, the packets that went to the memory are the
    reads and writes the model queues, the messages that left for the caches carry the data
    the model delivers to the caches it names, the message is gone exactly if the model took
    it without stalling it, and the other lines are as they were. *)
Theorem dir_fires_model_transitions s s' l now rt rank code s2 v :
  dir_fresh s → rtc dir_step (s, []) (s', l) → RubySystem.getWarmupEnabled sys = false →
  (rank, code) ∈ ports sys counts junk dirs anyone functional cfg now rt → code s' = Ok (Fired, s2) →
  ∃ q p a ty req inc st o ev x,
    head_of (base s') q = Some p ∧ line_of p = Some a ∧ describes counts p ty req inc ∧
    line_is sys counts dirs s' a st o ∧ event_for p o ty req = Some ev ∧
    System.dir_event ty req inc (System.mkDir st o [] [] [] v) ev = Some x ∧
    line_is sys counts dirs s2 a (System.dst (System.dself x)) (System.owner (System.dself x)) ∧
    others sys dirs ver n a s' s2 ∧
    (∃ new, Forall2 (asks sys a) new (System.memory_queue (System.dself x)) ∧
       packets s2 ≡ₚ packets s' ++ new) ∧
    ∃ new, Forall2 (answers sys counts a s') new (System.delivered x) ∧
      transfer (pair responseFromDir <$> new)
        (if System.popped x && System.is_nil (System.stalled (System.dself x)) then [(q, p)] else [])
        (base s') (base s2).
Proof.
  intros Hf Hr Hw Hin H1. destruct (dir_run_ok s (s', l) Hf Hr) as [Hs _].
  destruct (ports_fire sys counts junk dirs ver n anyone functional cfg now rt Hset v rank code s' s2 Hin Hs H1)
    as (q & p & a & ty & req & inc & st & o & ev & Hh & Hp & Hdesc & Hl & Hev & x & Hx & Hl2 & Ho & Hout).
  destruct (Hout Hw) as [Hask Hsent]. exists q, p, a, ty, req, inc, st, o, ev, x. by split_and!.
Qed.

End runs.

(** ** Witnesses *)

(** The directory of a system with one L1 cache: 64 lines of 64 bytes, and a load request
    of the cache. *)
Definition dir_statics : DirectoryMemory.statics := DirectoryMemory.mkStatics 1 0 4096 11.
Definition dir_cfg : config := mkConfig 1 6 32.
Definition dir_memory : mem_packet → mem_packet := λ k,
  mkMemPacket (pkt_addr k) (pkt_size k) (pkt_isRead k) (pkt_isWrite k) true (replicate 64 7) (senderState k).
Definition dir_buffer : MessageBuffer.t payload :=
  MessageBuffer.with_conf (MessageBuffer.create 1)
    (MessageBuffer.mkConfig 1 (Some demo_clock) (Some demo_clock) (Some ToController) 0 0 false true false 0 0).
Definition dir0 : t :=
  mk (AbstractController.create 1 3 (list_to_map ((λ i, (i, dir_buffer)) <$> seqZ 0 5)))
    (DirectoryMemory.mk 0 4096 12 64 (replicate 64 None)) (TBETable.create 16) PacketQueue.create
    (mkMachineID MachineType_Directory 0) (ClockedObject.create 1).
Definition dir_dest : NetDest.t :=
  get_Ok (d ← NetDest.create [1; 1; 0] 0; NetDest.add [1; 1; 0] d (mkMachineID MachineType_Directory 0)) eq_refl.
Definition dir_request : RequestMsg.t :=
  RequestMsg.mk 128 Request_GETM (core 0) dir_dest (DataBlock.create sys64) Size_Request_Control 0 0 0 0.
Definition dir1 : t :=
  get_Ok (r ← on_abs (AbstractController.enqueue sys64 1 0 1 requestToDir (PRequest dir_request) 1 false) dir0;
          Ok r.2) eq_refl.
Definition dir_wakeup (now : Z) : prog t unit :=
  wakeup sys64 [1; 1; 0] 0 dir_statics (core 0) dir_memory dir_cfg now 0 8.
Definition dir2 : t := get_Ok (r ← dir_wakeup 5 dir1; Ok r.2) eq_refl.

Lemma dir_setting : setting sys64 [1; 1; 0] dir_statics dir_memory.
Proof.
  split; [split; cbn; lia|split_and!; cbn; lia|repeat constructor; lia|done].
Qed.

Lemma dir0_fresh : dir_fresh 0 64 dir0.
Proof.
  assert (∀ id b, AbstractController.buffers (base dir0) !! id = Some b → b = dir_buffer) as Hb.
  { intros id b H. apply elem_of_list_to_map_2, list_elem_of_fmap in H as (i & [= -> ->] & _). done. }
  split_and!; [split_and!| |done| |by apply Forall_replicate|done].
  - intros id b ->%Hb. split; [|done]. split; by eexists.
  - intros id Hid. apply elem_of_list_to_set in Hid. apply not_eq_None_Some.
    intros Hno%not_elem_of_list_to_map_2. apply Hno. rewrite <- list_fmap_compose.
    apply list_elem_of_fmap. by exists id.
  - by intros a vec id ?%not_elem_of_nil.
  - by intros id b ->%Hb.
  - by split_and!.
Qed.

Lemma home128 : home sys64 dir_statics 0 64 128.
Proof. split; [split; [unfold fits; lia|reflexivity]|]. split; [reflexivity|]. exists 2. split; [reflexivity|lia]. Qed.

Lemma dir_run1 : rtc (dir_step sys64 [1; 1; 0] 0 dir_statics 0 64 (core 0) dir_memory dir_cfg) (dir0, []) (dir1, []).
Proof.
  apply rtc_once. eapply (step_deliver _ _ _ _ _ _ _ _ _ 1 0 1 requestToDir (PRequest dir_request) 1);
    [done| |vm_compute; reflexivity].
  split; [exact home128|]. split; [exists 0%nat; split; [done|]; split; [done|]; by exists 1|]. by split.
Qed.

Lemma dir_run2 : rtc (dir_step sys64 [1; 1; 0] 0 dir_statics 0 64 (core 0) dir_memory dir_cfg) (dir0, []) (dir2, []).
Proof.
  eapply rtc_r; [apply dir_run1|]. eapply (step_wakeup _ _ _ _ _ _ _ _ _ 5 0 8). vm_compute. reflexivity.
Qed.

(** The request has been taken: the line waits for the memory, and its entry names the requestor,
    which exists. *)
Lemma dir_lines_agree_witness : TBEState <$> TBETable.lookup (TBEs dir2) 128 = Some Directory.State_IM ∧
  ∃ e r, entry_of sys64 dir_statics (directory dir2) 128 = Some e ∧ machine_ok [1; 1; 0] (core r) ∧
    NetDest.isElement [1; 1; 0] (Owner e) (core r) = Ok true.
Proof.
  assert (TBEState <$> TBETable.lookup (TBEs dir2) 128 = Some Directory.State_IM) as Ht0 by (vm_compute; reflexivity).
  split; [exact Ht0|].
  pose proof (dir_lines_agree sys64 [1; 1; 0] 0 dir_statics 0 64 (core 0) dir_memory dir_cfg dir_setting
    dir0 dir2 [] dir0_fresh dir_run2 128 home128) as (st & tb & o & Hd & Ht & He).
  rewrite Ht0 in Ht. destruct tb; [|discriminate Ht]. injection Ht as <-. destruct o as [r|]; [|discriminate Hd].
  destruct (entry_of sys64 dir_statics (directory dir2) 128) as [e|]; [|discriminate He]. destruct He as (_ & Hr & Hm).
  exists e, r. split; [reflexivity|]. split; [by apply Hr|]. rewrite (Hm (core r) (Hr r eq_refl)).
  by rewrite bool_decide_eq_true_2.
Defined.

Lemma dir_wakeup_ends_witness : ∃ N, ∀ fuel, (N ≤ fuel)%nat →
  wakeup sys64 [1; 1; 0] 0 dir_statics (core 0) dir_memory dir_cfg 6 0 fuel dir2 ≠ Err OutOfFuel ∧
  wakeup sys64 [1; 1; 0] 0 dir_statics (core 0) dir_memory dir_cfg 6 0 fuel dir2 ≠ Err NullDeref.
Proof.
  exact (dir_wakeup_ends sys64 [1; 1; 0] 0 dir_statics 0 64 (core 0) dir_memory dir_cfg dir_setting
    dir0 dir2 [] 6 0 dir0_fresh dir_run2).
Defined.

(** The port takes the request of [dir1]: a read goes to the memory. *)
Definition dir_port : prog t port_result :=
  requestNetwork_in sys64 [1; 1; 0] 0 dir_statics (core 0) dir_memory dir_cfg 5 0.
Definition dir_fired : t := get_Ok (r ← dir_port dir1; Ok r.2) eq_refl.

Lemma dir_fires_model_transitions_witness : ∃ a st o x,
  line_is sys64 [1; 1; 0] dir_statics dir1 a st o ∧
  line_is sys64 [1; 1; 0] dir_statics dir_fired a (System.dst (System.dself x)) (System.owner (System.dself x)) ∧
  ∃ new, Forall2 (asks sys64 a) new (System.memory_queue (System.dself x)) ∧
    packets dir_fired ≡ₚ packets dir1 ++ new.
Proof.
  assert (dir_port dir1 = Ok (Fired, dir_fired)) as H1 by (vm_compute; reflexivity).
  pose proof (dir_fires_model_transitions sys64 [1; 1; 0] 0 dir_statics 0 64 (core 0) dir_memory dir_cfg dir_setting
    dir0 dir1 [] 5 0 0 dir_port dir_fired (DataBlock.create sys64) dir0_fresh dir_run1 eq_refl
    (list_elem_of_here _ _) H1)
    as (q & p & a & ty & req & inc & st & o & ev & x & _ & _ & _ & Hl & _ & _ & Hl2 & _ & Hask & _).
  exact (ex_intro _ a (ex_intro _ st (ex_intro _ o (ex_intro _ x (conj Hl (conj Hl2 Hask)))))).
Defined.
