(* ===== verification/CoherenceProof.v ===== *)
(** * The protocol is coherent (proofs about [Coherence])

    An invariant of the system of [Coherence], which relates the state of every
    cache to what the directory knows of it, and its preservation by every step.
    From it: a writable copy is the only copy and every copy is the last value
    stored; the only invalid transitions are those of a processor that uses a line
    whose upgrade was lost; what processors read; that every miss completes after a
    bounded number of steps; and that all of this needs the answers to one request
    to be finished before the next grant. *)

From S2P Require Import Prelude MsiTables Coherence.

Import System.

(** ** Reading the tables *)

(** Replace the look-up of a known state and event by its result. *)
Ltac read_tables :=
  repeat match goal with
  | |- context [L1Cache.find_transition ?s ?e] =>
      let r := eval vm_compute in (L1Cache.find_transition s e) in
      change (L1Cache.find_transition s e) with r
  | |- context [Directory.find_transition ?s ?e] =>
      let r := eval vm_compute in (Directory.find_transition s e) in
      change (Directory.find_transition s e) with r
  end.

(** The states a line is in when no processor locks it. *)
Definition live (s : L1Cache.State) : bool :=
  match s with
  | L1Cache.State_I | L1Cache.State_S | L1Cache.State_M | L1Cache.State_IS_AD
  | L1Cache.State_IS_D | L1Cache.State_IS_DI | L1Cache.State_IM_AD | L1Cache.State_IM_D
  | L1Cache.State_IM_DS | L1Cache.State_IM_DI | L1Cache.State_MI_A | L1Cache.State_MS_A
  | L1Cache.State_SM_W | L1Cache.State_IM_W => true
  | _ => false
  end.

(** The state after a request of another cache, as the table gives it. *)
Definition snoop (ty : CoherenceRequestType) (s : L1Cache.State) : L1Cache.State :=
  from_option fst s (e ← bus_event false ty; L1Cache.find_transition s e).

(** The types of the requests the caches put on the bus. *)
Definition bus_type (ty : CoherenceRequestType) : bool :=
  match ty with
  | Request_GETS | Request_GETM | Request_UPG | Request_PUTM => true
  | _ => false
  end.

(** ** What the directory knows of a cache *)

(** A cache has no request at the directory, or one that is stalled or being
    fetched for, or it is the owner and has been answered. *)
Inductive role : Set :=
  | Idle
  | Waits (ty : CoherenceRequestType)
  | Fetches (ty : CoherenceRequestType)
  | Owns.

#[global] Instance role_eq_dec : EqDecision role.
Proof. solve_decision. Defined.

Section invariant.
Context {V : Type}.
Implicit Types (c : cache V) (cs : list (cache V)) (d : directory V) (s : t V) (v w : V)
  (i j : nat) (q : list (mem_op V)) (ty : CoherenceRequestType).

(** The cache that has, or is about to get, the only valid copy. *)
Definition holder d : option nat :=
  match data_in d, dst d with
  | [], (Directory.State_IM | Directory.State_M | Directory.State_M_D) => owner d
  | _, _ => None
  end.

Definition reads q : list nat := omap (λ o, match o with MemRead r => Some r | _ => None end) q.

(** The requests that the directory has accepted, in bus order: the one it works
    on, as far as it is not answered, and the stalled ones. *)
Definition pending d : list (CoherenceRequestType * nat) :=
  match holder d with
  | Some o => [(Request_GETM, o)]
  | None => map (pair Request_GETS) (reads (memory_queue d))
  end ++ stalled d.

(** The role of a cache in a list of stalled requests. *)
Fixpoint waits (l : list (CoherenceRequestType * nat)) i : role :=
  match l with
  | [] => Idle
  | (ty, j) :: l => if decide (i = j) then Waits ty else waits l i
  end.

Definition role_of d i : role :=
  if decide (holder d = Some i)
  then if decide (i ∈ reads (memory_queue d)) then Fetches Request_GETM else Owns
  else if decide (i ∈ reads (memory_queue d)) then Fetches Request_GETS
  else waits (stalled d) i.

(** The situations of a cache: its role, its state, its queued requests, and the
    numbers of its write-backs and of the responses on their way to it. *)
Definition situations
    : list (role * L1Cache.State * list (CoherenceRequestType * bool) * nat * nat) := [
  (Idle, L1Cache.State_I, [], 0, 0);
  (Idle, L1Cache.State_S, [], 0, 0);
  (Idle, L1Cache.State_IS_AD, [(Request_GETS, false)], 0, 0);
  (Idle, L1Cache.State_IM_AD, [(Request_GETM, false)], 0, 0);
  (Idle, L1Cache.State_SM_W, [(Request_UPG, false)], 0, 0);
  (Idle, L1Cache.State_IM_W, [(Request_UPG, false)], 0, 0);
  (Idle, L1Cache.State_IS_D, [], 0, 1);
  (Idle, L1Cache.State_IS_DI, [], 0, 1);
  (Idle, L1Cache.State_IM_D, [(Request_GETM, true)], 0, 0);
  (Waits Request_GETS, L1Cache.State_IS_D, [], 0, 0);
  (Waits Request_GETS, L1Cache.State_IS_DI, [], 0, 0);
  (Waits Request_GETM, L1Cache.State_IM_D, [], 0, 0);
  (Waits Request_GETM, L1Cache.State_IM_DS, [], 0, 0);
  (Waits Request_GETM, L1Cache.State_IM_DI, [], 0, 0);
  (Fetches Request_GETS, L1Cache.State_IS_D, [], 0, 0);
  (Fetches Request_GETS, L1Cache.State_IS_DI, [], 0, 0);
  (Fetches Request_GETM, L1Cache.State_IM_D, [], 0, 0);
  (Fetches Request_GETM, L1Cache.State_IM_DS, [], 0, 0);
  (Fetches Request_GETM, L1Cache.State_IM_DI, [], 0, 0);
  (Owns, L1Cache.State_IM_D, [], 0, 1);
  (Owns, L1Cache.State_IM_DS, [], 0, 1);
  (Owns, L1Cache.State_IM_DI, [], 0, 1);
  (Owns, L1Cache.State_IM_D, [(Request_GETM, true)], 0, 0);
  (Owns, L1Cache.State_M, [], 0, 0);
  (Owns, L1Cache.State_MI_A, [], 1, 0);
  (Owns, L1Cache.State_MS_A, [], 1, 0)].

Definition local_ok (r : role) c : Prop :=
  (r, st c, requests c, writebacks c, length (responses c)) ∈ situations.

(** A state a cache can be in when a request of the given type follows its own
    in bus order. *)
Definition precedes (a : L1Cache.State) ty : bool :=
  match ty, a with
  | Request_GETM, (L1Cache.State_IS_DI | L1Cache.State_IM_DI | L1Cache.State_MI_A) => true
  | Request_GETS, (L1Cache.State_IS_D | L1Cache.State_IS_DI | L1Cache.State_IM_DS
                  | L1Cache.State_IM_DI | L1Cache.State_MS_A | L1Cache.State_MI_A) => true
  | _, _ => false
  end.

Definition before cs (r1 r2 : CoherenceRequestType * nat) : Prop :=
  ∀ c, cs !! r1.2 = Some c → precedes (st c) r2.1 = true.

(** The line is valid in the cache. *)
Definition valid (a : L1Cache.State) : bool :=
  match a with
  | L1Cache.State_S | L1Cache.State_SM_W | L1Cache.State_M | L1Cache.State_MI_A
  | L1Cache.State_MS_A => true
  | _ => false
  end.

(** The cache shares the line, or will when its data arrives. *)
Definition shares c : bool :=
  match st c with
  | L1Cache.State_S | L1Cache.State_SM_W => true
  | L1Cache.State_IS_D => negb (is_nil (responses c))
  | _ => false
  end.

(** A store is ahead: some cache holds the line or waits to. *)
Definition claimed d : Prop := is_Some (holder d) ∨ Request_GETM ∈ (stalled d).*1.

(** The memory, after what is queued for it, is up to date. *)
Definition fresh q (m v : V) : Prop := (q = [] ∧ m = v) ∨ q = [MemWrite v].

Inductive dir_shape (v : V) : directory V → Prop :=
  | shape_I q m : fresh q m v → dir_shape v (mkDir Directory.State_I None [] q [] m)
  | shape_IS l q r m : fresh q m v →
      dir_shape v (mkDir Directory.State_IS None l (q ++ [MemRead r]) [] m)
  | shape_IM l q o m : fresh q m v →
      dir_shape v (mkDir Directory.State_IM (Some o) l (q ++ [MemRead o]) [] m)
  | shape_M o m : dir_shape v (mkDir Directory.State_M (Some o) [] [] [] m)
  | shape_M_D o r l m : dir_shape v (mkDir Directory.State_M_D (Some o) (r :: l) [] [] m)
  | shape_M_D_data o r l m : dir_shape v (mkDir Directory.State_M_D (Some o) (r :: l) [] [v] m)
  | shape_MI o m : dir_shape v (mkDir Directory.State_MI (Some o) [] [] [v] m).

Definition data_ok v c : Prop :=
  (valid (st c) = true → block c = v) ∧
  (st c ≠ L1Cache.State_IS_DI → Forall (eq v) (responses c)).

Record invariant s : Prop := {
  inv_dir : dir_shape (latest s) (dir s);
  inv_types : Forall (λ r, r.1 = Request_GETS ∨ r.1 = Request_GETM) (stalled (dir s));
  inv_local i c : caches s !! i = Some c → local_ok (role_of (dir s) i) c;
  inv_data i c : caches s !! i = Some c → data_ok (latest s) c;
  inv_nodup : NoDup (pending (dir s)).*2;
  inv_range : Forall (λ r, r.2 < length (caches s)) (pending (dir s));
  inv_order : ForallOrdPairs (before (caches s)) (pending (dir s));
  inv_excl i c : claimed (dir s) → caches s !! i = Some c → shares c = false;
  inv_side i j c c' : caches s !! i = Some c → caches s !! j = Some c' →
    side_pending c = true → side_pending c' = true → i = j;
  inv_upgraded i c : holder (dir s) = Some i → caches s !! i = Some c →
    side_pending c = true → memory (dir s) = latest s }.

End invariant.

Ltac is_situation :=
  vm_compute; repeat first [apply list_elem_of_here | apply list_elem_of_further].
Ltac each_situation := unfold situations; repeat first [apply Forall_nil_2 | apply Forall_cons_2].

(** ** Caches *)

Section caches.
Context {V : Type}.
Implicit Types (c : cache V) (cs : list (cache V)) (d : directory V) (s : t V) (v w : V)
  (i j : nat) (ty : CoherenceRequestType) (r : role).

(** A cache after a request of another one. *)
Definition snooped ty c : cache V :=
  mkCache (snoop ty (st c)) (requests c)
    (match st c, ty with
     | L1Cache.State_M, Request_PUTM => writebacks c
     | L1Cache.State_M, _ => S (writebacks c)
     | _, _ => writebacks c
     end) (block c) (responses c).

Lemma cache_snoop w c ty : live (st c) = true → bus_type ty = true →
  ∃ e, bus_event false ty = Some e ∧
    cache_event None w c e = Some (mkTurn (snooped ty c) [] [] false).
Proof.
  destruct c as [a rq n v ds]. cbn [st]. intros Ha Hty.
  destruct ty; try discriminate; eexists; (split; [reflexivity|]);
    destruct a; try discriminate; reflexivity.
Qed.

(** Go through the situations of a cache taken apart. *)
Lemma local_cases (P : role → L1Cache.State → list (CoherenceRequestType * bool) → nat →
    list V → Prop) r c :
  Forall (λ x, ∀ ds, length ds = x.2 → P x.1.1.1.1 x.1.1.1.2 x.1.1.2 x.1.2 ds) situations →
  local_ok r c → P r (st c) (requests c) (writebacks c) (responses c).
Proof. rewrite Forall_forall. intros H Hc. by apply (H _ Hc). Qed.

Lemma local_live r c : local_ok r c → live (st c) = true.
Proof. apply (local_cases (λ _ a _ _ _, live a = true)). by each_situation. Qed.

(** The roles and queues survive the requests of others, unless a side packet is
    still to come. *)
Lemma snoop_local r c ty : bus_type ty = true → side_pending c = false →
  local_ok r c → local_ok r (snooped ty c).
Proof.
  unfold side_pending. intros Hty Hs Hc. revert Hs. unfold local_ok at 1, snooped.
  cbn [st requests writebacks block responses].
  revert Hc. apply (local_cases (λ r a rq n ds, existsb snd rq = false →
    (r, snoop ty a, rq, match a, ty with
     | L1Cache.State_M, Request_PUTM => n | L1Cache.State_M, _ => S n | _, _ => n end,
     length ds) ∈ situations)).
  destruct ty; try discriminate; each_situation; intros ds ->; try discriminate;
    intros _; is_situation.
Qed.

Lemma snoop_precedes ty ty' (a : L1Cache.State) : bus_type ty = true →
  precedes a ty' = true → precedes (snoop ty a) ty' = true.
Proof.
  destruct ty; try discriminate; intros _; destruct ty'; try discriminate;
    destruct a; try discriminate; reflexivity.
Qed.

(** A request on the bus comes after every request the directory has. *)
Lemma snoop_follows r c ty : ty = Request_GETS ∨ ty = Request_GETM → r ≠ Idle →
  side_pending c = false → local_ok r c → precedes (snoop ty (st c)) ty = true.
Proof.
  unfold side_pending. intros Hty Hr Hs Hc. revert Hr Hs. revert Hc.
  apply (local_cases (λ r a rq _ _, r ≠ Idle → existsb snd rq = false →
    precedes (snoop ty a) ty = true)).
  destruct Hty as [-> | ->]; each_situation; intros ds _; done.
Qed.

(** A store on the bus ends sharing. *)
Lemma snoop_unshares r c ty : ty = Request_GETM ∨ ty = Request_UPG →
  local_ok r c → shares (snooped ty c) = false.
Proof.
  intros Hty. unfold shares, snooped. cbn [st responses].
  apply (local_cases (λ _ a _ _ ds, match snoop ty a with
    | L1Cache.State_S | L1Cache.State_SM_W => true
    | L1Cache.State_IS_D => negb (is_nil ds) | _ => false end = false)).
  destruct Hty as [-> | ->]; each_situation; intros ds Hds; done.
Qed.

Lemma snoop_shares r c ty : bus_type ty = true → local_ok r c → shares c = false →
  shares (snooped ty c) = false.
Proof.
  intros Hty. unfold shares, snooped. cbn [st responses]. intros Hc. revert Hc.
  apply (local_cases (λ _ a _ _ ds, match a with
    | L1Cache.State_S | L1Cache.State_SM_W => true
    | L1Cache.State_IS_D => negb (is_nil ds) | _ => false end = false →
    match snoop ty a with
    | L1Cache.State_S | L1Cache.State_SM_W => true
    | L1Cache.State_IS_D => negb (is_nil ds) | _ => false end = false)).
  destruct ty; try discriminate; each_situation; intros ds Hds; done.
Qed.

Lemma snoop_data r v c ty : bus_type ty = true → local_ok r c → data_ok v c →
  data_ok v (snooped ty c).
Proof.
  intros Hty Hc [Hv Hr]. unfold data_ok, snooped. cbn [st block responses].
  assert ((valid (snoop ty (st c)) = true → valid (st c) = true) ∧
    (snoop ty (st c) ≠ L1Cache.State_IS_DI → st c ≠ L1Cache.State_IS_DI)) as [H1 H2].
  { revert Hc. apply (local_cases (λ _ a _ _ _, (valid (snoop ty a) = true → valid a = true) ∧
      (snoop ty a ≠ L1Cache.State_IS_DI → a ≠ L1Cache.State_IS_DI))).
    destruct ty; try discriminate; each_situation; intros ds _; by vm_compute. }
  split; [by auto|]. intros H. apply Hr. by apply H2.
Qed.

(** After a store on the bus only an owner keeps the line. *)
Lemma snoop_invalid r c ty : ty = Request_GETM ∨ ty = Request_UPG → r ≠ Owns → local_ok r c →
  valid (snoop ty (st c)) = false ∧
  (responses c = [] ∨ snoop ty (st c) = L1Cache.State_IS_DI).
Proof.
  intros Hty Hr Hc. revert Hr. revert Hc.
  apply (local_cases (λ r a _ _ ds, r ≠ Owns → valid (snoop ty a) = false ∧
    (ds = [] ∨ snoop ty a = L1Cache.State_IS_DI))).
  destruct Hty as [-> | ->]; each_situation; intros ds Hds ?;
    (split; [done|]); first [by right | by left; apply nil_length_inv | done].
Qed.

End caches.

(** ** Requests on the bus *)

Section bus.
Context {V : Type}.
Implicit Types (c : cache V) (cs : list (cache V)) (d : directory V) (s : t V) (v w : V)
  (i j : nat) (ty : CoherenceRequestType) (x : turn V).

(** The caches after a request of cache [i], which becomes [c]. *)
Definition snoop_all ty i c cs : list (cache V) :=
  imap (λ j c', if decide (j = i) then c else snooped ty c') cs.

Lemma snoop_all_lookup ty i c cs j c' : snoop_all ty i c cs !! j = Some c' ↔
  (j = i ∧ i < length cs ∧ c' = c) ∨
  (j ≠ i ∧ ∃ c0, cs !! j = Some c0 ∧ c' = snooped ty c0).
Proof.
  unfold snoop_all. rewrite list_lookup_imap_Some. destruct (decide (j = i)) as [->|Hne].
  - split.
    + intros (c0 & H & ->). left. split_and!; [done|by eapply lookup_lt_Some|done].
    + intros [(_ & Hi & ->)|[? _]]; [|done].
      apply lookup_lt_is_Some_2 in Hi as [c0 ?]. by exists c0.
  - naive_solver.
Qed.

Lemma bus_moved_spec s w i c ty e x d : i < length (caches s) →
  bus_type ty = true → bus_event true ty = Some e → cache_event None w c e = Some x →
  (∀ j c', j ≠ i → caches s !! j = Some c' → live (st c') = true) →
  serve 2 (dir s) ty i = Some d →
  bus_moved s w i c ty =
    Next (mkSys (snoop_all ty i (self x) (caches s)) (with_data_in d (data_in d ++ sent x))
            (if wrote x then w else latest s)) (map (pair i) (seen x)).
Proof.
  intros Hi Hty He Hx Hlive Hd.
  set (g := λ j c', if decide (j = i) then x else mkTurn (snooped ty c') [] [] false).
  assert (broadcast w i ty (<[i := c]> (caches s)) = Some (imap g (caches s))) as Hb.
  { unfold broadcast. rewrite (mapM_imap_Some _ g).
    - f_equal. apply list_eq. intros j. rewrite !list_lookup_imap.
      destruct (decide (j = i)) as [->|Hne].
      + rewrite list_lookup_insert_eq by done.
        apply lookup_lt_is_Some_2 in Hi as [c0 ->]. simpl. unfold g.
        by destruct (decide (i = i)).
      + by rewrite list_lookup_insert_ne.
    - intros j c' Hj. unfold g. destruct (decide (j = i)) as [->|Hne].
      + rewrite bool_decide_eq_true_2, He by done. simpl.
        rewrite list_lookup_insert_eq in Hj by done. by injection Hj as <-.
      + rewrite bool_decide_eq_false_2 by done. rewrite list_lookup_insert_ne in Hj by done.
        destruct (cache_snoop w c' ty) as (e' & -> & He'); [by eapply Hlive|done|]. exact He'. }
  unfold bus_moved. rewrite Hb, Hd.
  apply lookup_lt_is_Some_2 in Hi as [c0 Hc0].
  assert (imap g (caches s) !! i = Some x) as Hgi
    by (rewrite list_lookup_imap, Hc0; simpl; unfold g; by rewrite decide_True).
  assert (∀ j y, imap g (caches s) !! j = Some y → j ≠ i →
    sent y = [] ∧ seen y = [] ∧ wrote y = false) as Hg.
  { intros j y (c' & _ & ->)%list_lookup_imap_Some Hne. unfold g. by rewrite decide_False. }
  f_equal; [f_equal|].
  - unfold snoop_all. rewrite fmap_imap. apply imap_ext. intros j c' _. unfold g. simpl.
    by destruct (decide (j = i)).
  - f_equal. f_equal. rewrite <- (concat_imap_only (λ _, sent) _ _ _ Hgi); [|intros; by eapply Hg].
    f_equal. apply list_eq. intros j.
    by rewrite (list_lookup_imap (λ _, sent)), <- list_lookup_fmap.
  - by rewrite (existsb_only wrote _ _ _ Hgi); [|intros; by eapply Hg].
  - rewrite (concat_imap_only _ _ _ _ Hgi); [done|].
    intros j y Hj Hne. destruct (Hg j y Hj Hne) as (_ & -> & _). done.
Qed.

(** The orders of requests survive a request on the bus. *)
Lemma order_snoop cs i c' ty l : bus_type ty = true → i ∉ l.*2 →
  ForallOrdPairs (before cs) l →
  ForallOrdPairs (before (snoop_all ty i c' cs)) l.
Proof.
  intros Hty Hi. apply ForallOrdPairs_mono. intros r1 r2 Hr1 _ H c0 Hc0.
  apply snoop_all_lookup in Hc0 as [(E & _ & ->)|(Hne & c1 & Hc1 & ->)].
  - destruct Hi. rewrite <- E. by apply list_elem_of_fmap_2.
  - cbn [st snooped]. apply snoop_precedes; [done|]. by apply H.
Qed.

(** What a request of cache [i] must keep, besides the other caches. *)
Lemma bus_inv s i c c' ty d v : invariant s → caches s !! i = Some c → bus_type ty = true →
  (∀ j cj, j ≠ i → caches s !! j = Some cj → side_pending cj = false) →
  dir_shape v d → Forall (λ r, r.1 = Request_GETS ∨ r.1 = Request_GETM) (stalled d) →
  local_ok (role_of d i) c' → data_ok v c' →
  (∀ j, j ≠ i → role_of d j = role_of (dir s) j) →
  (v = latest s ∨ ∀ j cj, j ≠ i → caches s !! j = Some cj →
     valid (snoop ty (st cj)) = false ∧
     (responses cj = [] ∨ snoop ty (st cj) = L1Cache.State_IS_DI)) →
  NoDup (pending d).*2 → Forall (λ r, r.2 < length (caches s)) (pending d) →
  ForallOrdPairs (before (snoop_all ty i c' (caches s))) (pending d) →
  (claimed d → shares c' = false ∧
     (claimed (dir s) ∨ ty = Request_GETM ∨ ty = Request_UPG)) →
  (holder d = Some i → side_pending c' = true → memory d = v) →
  invariant (mkSys (snoop_all ty i c' (caches s)) d v).
Proof.
  intros Hinv Hc Hty Hside Hshape Htypes Hlocal Hdata Hrole Hv Hnd Hrange Horder Hexcl Hup.
  split; cbn [caches dir latest]; try done.
  - intros j cj [(-> & _ & ->)|(Hne & c0 & H0 & ->)]%snoop_all_lookup; [done|].
    rewrite Hrole by done. apply snoop_local; [done|by eapply Hside|by eapply inv_local].
  - intros j cj [(-> & _ & ->)|(Hne & c0 & H0 & ->)]%snoop_all_lookup; [done|].
    destruct Hv as [->|Hv].
    + eapply snoop_data; [done|by eapply inv_local|by eapply inv_data].
    + destruct (Hv j c0 Hne H0) as [Hval Hres]. unfold data_ok, snooped. cbn [st block responses].
      split; [by rewrite Hval|]. intros ?. destruct Hres as [-> | ?]; [constructor|done].
  - unfold snoop_all. by rewrite length_imap.
  - intros j cj Hcl Hj. destruct (Hexcl Hcl) as [Hs Hcl'].
    apply snoop_all_lookup in Hj as [(-> & _ & ->)|(Hne & c0 & H0 & ->)]; [done|].
    destruct Hcl' as [Hcl'|Hst].
    + eapply snoop_shares; [done|by eapply inv_local|by eapply inv_excl].
    + eapply snoop_unshares; [done|by eapply inv_local].
  - intros j k cj ck Hj Hk Hsj Hsk.
    apply snoop_all_lookup in Hj as [(-> & _ & ->)|(Hnej & c0 & H0 & ->)];
      apply snoop_all_lookup in Hk as [(-> & _ & ->)|(Hnek & c1 & H1 & ->)]; try done.
    + by rewrite (Hside k c1 Hnek H1 : side_pending (snooped ty c1) = false) in Hsk.
    + by rewrite (Hside j c0 Hnej H0 : side_pending (snooped ty c0) = false) in Hsj.
    + by rewrite (Hside j c0 Hnej H0 : side_pending (snooped ty c0) = false) in Hsj.
  - intros j cj Hh [(-> & _ & ->)|(Hne & c0 & H0 & ->)]%snoop_all_lookup Hs; [by apply Hup|].
    by rewrite (Hside j c0 Hne H0 : side_pending (snooped ty c0) = false) in Hs.
Qed.

End bus.

(** ** The directory *)

Section directory.
Context {V : Type}.
Implicit Types (c : cache V) (cs : list (cache V)) (d : directory V) (s : t V) (v w m : V)
  (i j o : nat) (ty : CoherenceRequestType) (l : list (CoherenceRequestType * nat)).

Lemma waits_snoc_ne l ty i j : j ≠ i → waits (l ++ [(ty, i)]) j = waits l j.
Proof.
  intros Hne. induction l as [|[ty' k] l IH]; simpl; [by rewrite decide_False|].
  by destruct (decide (j = k)).
Qed.

Lemma waits_snoc l ty i : i ∉ l.*2 → waits (l ++ [(ty, i)]) i = Waits ty.
Proof.
  induction l as [|[ty' k] l IH]; simpl; [by rewrite decide_True|].
  rewrite not_elem_of_cons. intros [? ?]. rewrite decide_False by done. by apply IH.
Qed.

Lemma waits_idle l i : waits l i = Idle → i ∉ l.*2.
Proof.
  induction l as [|[ty k] l IH]; simpl; [intros _; apply not_elem_of_nil|].
  destruct (decide (i = k)); [done|]. intros H. apply not_elem_of_cons. by split; [|apply IH].
Qed.

Lemma waits_not l i : i ∉ l.*2 → waits l i = Idle.
Proof.
  induction l as [|[ty k] l IH]; simpl; [done|]. rewrite not_elem_of_cons. intros [? ?].
  rewrite decide_False by done. by apply IH.
Qed.

Lemma waits_owns l i : waits l i ≠ Owns.
Proof. induction l as [|[ty k] l IH]; [done|]. cbn. by destruct (decide (i = k)). Qed.

Lemma idle_not_pending d i : role_of d i = Idle → i ∉ (pending d).*2.
Proof.
  unfold role_of, pending. rewrite fmap_app, not_elem_of_app.
  destruct (decide (holder d = Some i)) as [?|Hh]; [by destruct (decide _)|].
  destruct (decide _) as [?|Hr]; [done|]. intros Hw%waits_idle. split; [|done].
  destruct (holder d) as [o|]; simpl.
  - rewrite not_elem_of_cons. split; [congruence|apply not_elem_of_nil].
  - rewrite list_elem_of_fmap. intros (r & -> & (k & -> & ?)%list_elem_of_fmap). done.
Qed.

(** The owner that has been answered: the directory waits for it. *)
Lemma owns_holder d i : role_of d i = Owns → holder d = Some i.
Proof.
  unfold role_of. destruct (decide (holder d = Some i)); [done|].
  destruct (decide _); [done|]. intros H. by apply waits_owns in H.
Qed.

(** *** Requests at the directory *)

Lemma serve_I_GETS i q m :
  serve 2 (mkDir Directory.State_I None [] q [] m) Request_GETS i =
    Some (mkDir Directory.State_IS None [] (q ++ [MemRead i]) [] m : directory V).
Proof. reflexivity. Qed.

Lemma serve_I_GETM i q m :
  serve 2 (mkDir Directory.State_I None [] q [] m) Request_GETM i =
    Some (mkDir Directory.State_IM (Some i) [] (q ++ [MemRead i]) [] m : directory V).
Proof. reflexivity. Qed.

Lemma serve_I_UPG i m :
  serve 2 (mkDir Directory.State_I None [] [] [] m) Request_UPG i =
    Some (mkDir Directory.State_M (Some i) [] [] [] m : directory V).
Proof. reflexivity. Qed.

(** The states in which the directory waits for an owner. *)
Definition owned (a : Directory.State) : bool :=
  match a with Directory.State_M | Directory.State_M_D => true | _ => false end.

(** The states in which requests wait. *)
Definition stalling (a : Directory.State) : bool :=
  match a with
  | Directory.State_IS | Directory.State_IM | Directory.State_M_D => true
  | _ => false
  end.

Lemma serve_step n d ty i : serve (S n) d ty i =
  match directory_event (bool_decide (owner d = Some i)) ty with
  | Trigger e =>
      x ← dir_event ty i None d e;
      if popped x then Some (dself x) else serve n (dself x) ty i
  | Drop => Some d
  | Invalid_message => None
  end.
Proof. reflexivity. Qed.

Lemma serve_stalling n a ow l q m ty i : stalling a = true → ow ≠ Some i →
  ty = Request_GETS ∨ ty = Request_GETM →
  serve (S n) (mkDir a ow l q [] m) ty i =
    Some (mkDir a ow (l ++ [(ty, i)]) q [] m : directory V).
Proof.
  intros Ha Hne [-> | ->]; cbn [serve directory_event owner];
    rewrite ?bool_decide_eq_false_2 by done; destruct a; try discriminate; reflexivity.
Qed.

Lemma serve_owned a o l q m ty i : owned a = true → o ≠ i →
  ty = Request_GETS ∨ ty = Request_GETM →
  serve 2 (mkDir a (Some o) l q [] m) ty i =
    Some (mkDir Directory.State_M_D (Some o) (l ++ [(ty, i)]) q [] m : directory V).
Proof.
  intros Ha Hne Hty. destruct a; try discriminate; [|by apply serve_stalling; [|congruence|]].
  assert (Some o ≠ Some i) by congruence. rewrite <- (serve_stalling 0) by done.
  rewrite (serve_step 1). cbn [owner]. rewrite bool_decide_eq_false_2 by done.
  destruct Hty as [-> | ->]; reflexivity.
Qed.

Lemma serve_owned_UPG a o l q m i : owned a = true →
  serve 2 (mkDir a (Some o) l q [] m) Request_UPG i =
    Some (mkDir a (Some o) l q [] m : directory V).
Proof. intros Ha. destruct a; try discriminate; reflexivity. Qed.

Lemma serve_upgraded o m :
  serve 2 (mkDir Directory.State_M (Some o) [] [] [] m) Request_GETM o =
    Some (mkDir Directory.State_IM (Some o) [] [MemRead o] [] m : directory V).
Proof.
  cbn [serve directory_event owner]. rewrite bool_decide_eq_true_2 by done. reflexivity.
Qed.

Lemma serve_PUTM a o l m : owned a = true →
  serve 2 (mkDir a (Some o) l [] [] m) Request_PUTM o =
    Some (mkDir (if decide (a = Directory.State_M) then Directory.State_MI else a)
            (Some o) l [] [] m : directory V).
Proof.
  intros Ha. cbn [serve directory_event owner]. rewrite bool_decide_eq_true_2 by done.
  destruct a; try discriminate; reflexivity.
Qed.

(** The woken requests stall again, in their order. *)
Lemma serve_all_stalling a ow l q m l' : stalling a = true →
  Forall (λ r, r.1 = Request_GETS ∨ r.1 = Request_GETM) l' →
  Forall (λ r, ow ≠ Some r.2) l' →
  serve_all (mkDir a ow l q [] m) l' = Some (mkDir a ow (l ++ l') q [] m : directory V).
Proof.
  intros Ha. revert l. induction l' as [|[ty i] l' IH]; intros l Hty How; [by rewrite app_nil_r|].
  apply Forall_cons in Hty as [? ?]. apply Forall_cons in How as [? ?]. cbn [serve_all fst snd].
  rewrite serve_stalling by done. cbn. rewrite IH by done. by rewrite <- app_assoc.
Qed.

(** *** Roles and pending requests, by the state of the directory *)

Lemma role_I q m v i : fresh q m v →
  role_of (mkDir Directory.State_I None [] q [] m : directory V) i = Idle.
Proof. by intros [[-> _]| ->]. Qed.

Lemma reads_fresh q m v i : fresh q m v → reads (q ++ [MemRead i]) = [i].
Proof. by intros [[-> _]| ->]. Qed.

Lemma role_IS l q r m v i : fresh q m v →
  role_of (mkDir Directory.State_IS None l (q ++ [MemRead r]) [] m : directory V) i =
    if decide (i = r) then Fetches Request_GETS else waits l i.
Proof.
  intros Hq. unfold role_of. cbn [holder data_in dst memory_queue stalled].
  rewrite (reads_fresh _ _ _ _ Hq). rewrite decide_False by done.
  apply decide_ext. apply list_elem_of_singleton.
Qed.

Lemma role_IM l q o m v i : fresh q m v →
  role_of (mkDir Directory.State_IM (Some o) l (q ++ [MemRead o]) [] m : directory V) i =
    if decide (i = o) then Fetches Request_GETM else waits l i.
Proof.
  intros Hq. unfold role_of. cbn [holder data_in dst memory_queue stalled owner].
  rewrite (reads_fresh _ _ _ _ Hq). destruct (decide (i = o)) as [->|Hne].
  - rewrite !decide_True; [done|by apply list_elem_of_singleton|done].
  - rewrite !decide_False; [done|by rewrite list_elem_of_singleton|congruence].
Qed.

Lemma role_owned a o l m i : owned a = true →
  role_of (mkDir a (Some o) l [] [] m : directory V) i =
    if decide (i = o) then Owns else waits l i.
Proof.
  intros Ha. unfold role_of. cbn [holder data_in dst memory_queue stalled owner reads omap].
  replace (match a with Directory.State_IM | Directory.State_M | Directory.State_M_D => Some o
    | _ => None end) with (Some o) by (by destruct a).
  destruct (decide (i = o)) as [->|Hne].
  - rewrite decide_True by done. rewrite decide_False; [done|apply not_elem_of_nil].
  - rewrite !decide_False; [done|apply not_elem_of_nil|congruence].
Qed.

Lemma role_data a o l v m i :
  role_of (mkDir a (Some o) l [] [v] m : directory V) i = waits l i.
Proof. reflexivity. Qed.

Lemma pending_IS l q r m v : fresh q m v →
  pending (mkDir Directory.State_IS None l (q ++ [MemRead r]) [] m : directory V) =
    (Request_GETS, r) :: l.
Proof. by intros [[-> _]| ->]. Qed.

Lemma pending_owned a o l q m : owned a = true →
  pending (mkDir a (Some o) l q [] m : directory V) = (Request_GETM, o) :: l.
Proof. by destruct a. Qed.

Lemma claimed_owned a o l q m : owned a = true →
  claimed (mkDir a (Some o) l q [] m : directory V).
Proof. intros Ha. left. by exists o; destruct a. Qed.

End directory.

(** ** Grants of the bus *)

Section grants.
Context {V : Type}.
Implicit Types (c : cache V) (cs : list (cache V)) (d : directory V) (s : t V) (v w m : V)
  (i j o : nat) (ty : CoherenceRequestType) (l : list (CoherenceRequestType * nat)) (r : role).

(** Between grants the directory is idle or waits for an owner. *)
Lemma quiet_shapes v d : dir_shape v d → data_in d = [] → memory_queue d = [] →
  d = mkDir Directory.State_I None [] [] [] v ∨
  ∃ a o l m, owned a = true ∧ (a = Directory.State_M ↔ l = []) ∧
    d = mkDir a (Some o) l [] [] m.
Proof.
  intros Hd. destruct Hd as [q m Hq|l q r m Hq|l q o m Hq|o m|o r l m|o r l m|o m]; cbn;
    intros Hdata Hmem; try done.
  - left. by destruct Hq as [[-> ->]| ->].
  - by destruct q.
  - by destruct q.
  - right. exists Directory.State_M, o, [], m. done.
  - right. exists Directory.State_M_D, o, (r :: l), m. split; [done|]. split; [|done]. by split.
Qed.

(** A queued request, by the state of its cache. *)
Lemma local_requests r c ty b rs : local_ok r c → requests c = (ty, b) :: rs →
  rs = [] ∧ writebacks c = 0 ∧ responses c = [] ∧
  ((r = Idle ∧ (st c, ty, b) ∈ [
      (L1Cache.State_IS_AD, Request_GETS, false); (L1Cache.State_IM_AD, Request_GETM, false);
      (L1Cache.State_SM_W, Request_UPG, false); (L1Cache.State_IM_W, Request_UPG, false);
      (L1Cache.State_IM_D, Request_GETM, true)]) ∨
   (r = Owns ∧ (st c, ty, b) = (L1Cache.State_IM_D, Request_GETM, true))).
Proof.
  intros Hc. pattern r, (st c), (requests c), (writebacks c), (responses c).
  eapply local_cases; [|exact Hc]. each_situation; intros ds Hds; cbn; try discriminate;
    intros [= <- <- <-]; apply nil_length_inv in Hds; (split_and!; [done..|]);
    first [by right | left; split; [done|is_situation]].
Qed.

Lemma local_writeback r c n : local_ok r c → writebacks c = S n →
  r = Owns ∧ n = 0 ∧ requests c = [] ∧ responses c = [] ∧
  (st c = L1Cache.State_MI_A ∨ st c = L1Cache.State_MS_A).
Proof.
  intros Hc. pattern r, (st c), (requests c), (writebacks c), (responses c).
  eapply local_cases; [|exact Hc]. each_situation; intros ds Hds; cbn; try discriminate;
    intros [= <-]; apply nil_length_inv in Hds; split_and!; auto.
Qed.

Lemma claimed_stalled a o l q v m : claimed (mkDir a (Some o) l q [v] m : directory V) ↔
  Request_GETM ∈ l.*1.
Proof. unfold claimed, is_Some. cbn. naive_solver. Qed.

Section granted.
(** A grant to cache [i] with nothing of an earlier one left. *)
Context (cs : list (cache V)) (v : V) (i : nat) (c c' : cache V).
Hypothesis Hc : cs !! i = Some c.
Hypothesis Hside : ∀ j cj, j ≠ i → cs !! j = Some cj → side_pending cj = false.

(** The line is not owned: the directory reads the memory. *)
Lemma start_inv ty d :
  invariant (mkSys cs (mkDir Directory.State_I None [] [] [] v) v) →
  (ty = Request_GETS ∧ d = mkDir Directory.State_IS None [] ([] ++ [MemRead i]) [] v) ∨
  (ty = Request_GETM ∧ d = mkDir Directory.State_IM (Some i) [] ([] ++ [MemRead i]) [] v) →
  local_ok (Fetches ty) c' → data_ok v c' → shares c' = false →
  invariant (mkSys (snoop_all ty i c' cs) d v).
Proof.
  intros Hinv Hd Hlocal Hdata Hshares.
  assert (i < length cs) by by eapply lookup_lt_Some.
  assert (fresh [] v v) as Hf by by left.
  eapply (bus_inv (mkSys _ _ _)); cbn [caches dir latest] in *; try done;
    destruct Hd as [[-> ->]|[-> ->]]; try done.
  - by apply (shape_IS v [] []).
  - by apply (shape_IM v [] []).
  - by rewrite (role_IS [] [] _ _ _ _ Hf), decide_True.
  - by rewrite (role_IM [] [] _ _ _ _ Hf), decide_True.
  - intros j Hj. by rewrite (role_IS [] [] _ _ _ _ Hf), decide_False.
  - intros j Hj. by rewrite (role_IM [] [] _ _ _ _ Hf), decide_False.
  - by left.
  - by left.
  - apply NoDup_singleton.
  - apply NoDup_singleton.
  - by apply Forall_singleton.
  - by apply Forall_singleton.
  - repeat constructor.
  - repeat constructor.
  - intros [[? ?]|?%elem_of_nil]; done.
  - by auto.
Qed.

(** The line is owned by another cache: the request is stalled. *)
Lemma enqueue_inv a o l m ty :
  invariant (mkSys cs (mkDir a (Some o) l [] [] m) v) → owned a = true → o ≠ i →
  waits l i = Idle → ty = Request_GETS ∨ ty = Request_GETM →
  local_ok (Waits ty) c' → data_ok v c' → shares c' = false →
  invariant (mkSys (snoop_all ty i c' cs)
    (mkDir Directory.State_M_D (Some o) (l ++ [(ty, i)]) [] [] m) v).
Proof.
  intros Hinv Ha Hne Hw Hty Hlocal Hdata Hshares.
  assert (i ∉ (pending (mkDir a (Some o) l [] [] m)).*2) as Hi.
  { apply idle_not_pending. by rewrite role_owned, decide_False. }
  assert (pending (mkDir Directory.State_M_D (Some o) (l ++ [(ty, i)]) [] [] m) =
    pending (mkDir a (Some o) l [] [] m) ++ [(ty, i)]) as Hp by (by rewrite !pending_owned).
  assert (bus_type ty = true) as Hbus by (by destruct Hty as [-> | ->]).
  pose proof (inv_order _ Hinv) as Hord. cbn [caches dir] in Hord.
  eapply (bus_inv (mkSys _ _ _)); cbn [caches dir latest] in *; try done; rewrite ?Hp.
  - destruct l; apply shape_M_D.
  - apply Forall_app; split; [apply (inv_types _ Hinv)|by apply Forall_singleton].
  - rewrite role_owned, decide_False, waits_snoc; [done| |done|done]. by apply waits_idle.
  - intros j Hj. rewrite !role_owned by done. by rewrite waits_snoc_ne.
  - by left.
  - rewrite fmap_app. apply NoDup_app. split; [apply (inv_nodup _ Hinv)|].
    split; [|apply NoDup_singleton]. intros k Hk ->%list_elem_of_singleton. done.
  - apply Forall_app. split; [apply (inv_range _ Hinv)|]. apply Forall_singleton.
    by eapply lookup_lt_Some.
  - apply ForallOrdPairs_snoc; [by apply order_snoop|].
    apply Forall_forall. intros r Hr c0 Hc0.
    assert (r.2 ≠ i) as Hri by (intros <-; apply Hi; by apply list_elem_of_fmap_2).
    apply snoop_all_lookup in Hc0 as [(? & _)|(_ & c1 & Hc1 & ->)]; [done|].
    cbn [st snooped snd fst]. eapply snoop_follows; [done| |by eapply Hside|by eapply inv_local].
    intros E. eapply idle_not_pending; [exact E|]. by apply list_elem_of_fmap_2.
  - intros _. split; [done|]. left. by apply claimed_owned.
  - intros [= ?]. done.
Qed.

(** An upgrade of a line that is not owned makes the cache the owner. *)
Lemma upgrade_inv v' :
  invariant (mkSys cs (mkDir Directory.State_I None [] [] [] v) v) →
  local_ok Owns c' → data_ok v' c' → shares c' = false → (side_pending c' = true → v = v') →
  invariant (mkSys (snoop_all Request_UPG i c' cs)
    (mkDir Directory.State_M (Some i) [] [] [] v) v').
Proof.
  intros Hinv Hlocal Hdata Hshares Hup.
  eapply (bus_inv (mkSys _ _ _)); cbn [caches dir latest] in *; try done.
  - apply shape_M.
  - by rewrite role_owned, decide_True.
  - intros j Hj. by rewrite role_owned, decide_False.
  - right. intros j cj Hj Hcj. apply (snoop_invalid Idle); [by right|done|].
    apply (inv_local _ Hinv j cj Hcj).
  - apply NoDup_singleton.
  - apply Forall_singleton. by eapply lookup_lt_Some.
  - repeat constructor.
  - by auto.
Qed.

(** An upgrade of a line that another cache owns is lost. *)
Lemma lost_upgrade_inv a o l m :
  invariant (mkSys cs (mkDir a (Some o) l [] [] m) v) → owned a = true → o ≠ i →
  waits l i = Idle → local_ok Idle c' → data_ok v c' → shares c' = false →
  invariant (mkSys (snoop_all Request_UPG i c' cs) (mkDir a (Some o) l [] [] m) v).
Proof.
  intros Hinv Ha Hne Hw Hlocal Hdata Hshares.
  assert (role_of (mkDir a (Some o) l [] [] m) i = Idle) as Hrole
    by (by rewrite role_owned, decide_False).
  pose proof Hinv as [? ? ? ? ? ? Hord ? ? ?]. cbn [caches dir latest] in *.
  eapply (bus_inv (mkSys _ _ _)); cbn [caches dir latest] in *; try done.
  - by rewrite Hrole.
  - by left.
  - apply order_snoop; [done|by apply idle_not_pending|done].
  - by auto.
  - intros Hh. unfold role_of in Hrole. rewrite decide_True in Hrole by done.
    by destruct (decide _).
Qed.

(** The cache that lost an upgrade and is the owner again asks for the data. *)
Lemma refetch_inv m :
  invariant (mkSys cs (mkDir Directory.State_M (Some i) [] [] [] m) v) → m = v →
  local_ok (Fetches Request_GETM) c' → data_ok v c' → shares c' = false →
  invariant (mkSys (snoop_all Request_GETM i c' cs)
    (mkDir Directory.State_IM (Some i) [] ([] ++ [MemRead i]) [] m) v).
Proof.
  intros Hinv -> Hlocal Hdata Hshares. assert (fresh [] v v) as Hf by by left.
  eapply (bus_inv (mkSys _ _ _)); cbn [caches dir latest] in *; try done.
  - by apply (shape_IM v [] []).
  - by rewrite (role_IM [] [] _ _ _ _ Hf), decide_True.
  - intros j Hj. by rewrite (role_IM [] [] _ _ _ _ Hf), role_owned, !decide_False.
  - by left.
  - apply NoDup_singleton.
  - apply Forall_singleton. by eapply lookup_lt_Some.
  - repeat constructor.
  - by auto.
Qed.

(** The owner writes the line back. *)
Lemma writeback_inv a l m :
  invariant (mkSys cs (mkDir a (Some i) l [] [] m) v) → owned a = true →
  (a = Directory.State_M ↔ l = []) →
  local_ok Idle c' → data_ok v c' → (Request_GETM ∈ l.*1 → shares c' = false) →
  invariant (mkSys (snoop_all Request_PUTM i c' cs)
    (mkDir (if decide (a = Directory.State_M) then Directory.State_MI else a)
       (Some i) l [] [v] m) v).
Proof.
  intros Hinv Ha Hal Hlocal Hdata Hshares.
  pose proof Hinv as [_ ? _ _ Hnd Hrange Hord _ _ _]. cbn [caches dir latest] in *.
  rewrite pending_owned in Hnd, Hrange, Hord by done. cbn in Hnd.
  apply NoDup_cons in Hnd as [Hi Hnd]. inversion_clear Hord. inversion_clear Hrange.
  eapply (bus_inv (mkSys _ (mkDir a (Some i) l [] [] m) v));
    cbn [caches dir latest]; try done.
  - destruct (decide (a = Directory.State_M)) as [E|E].
    + rewrite (proj1 Hal E). apply shape_MI.
    + destruct l; [by destruct E; apply Hal|]. destruct a; try discriminate; [done|].
      apply shape_M_D_data.
  - by rewrite role_data, waits_not.
  - intros j Hj. by rewrite role_data, role_owned, decide_False.
  - by left.
  - by apply order_snoop.
  - rewrite claimed_stalled. intros Hl. split; [by apply Hshares|]. left. by apply claimed_owned.
Qed.

End granted.

(** *** The work that is left *)

(** Every message costs more than all it can lead to: a request ends in an access
    to the memory, a response and the write-back of one owner, a lost upgrade in one
    more request. *)
Definition request_cost (r : CoherenceRequestType * bool) : nat :=
  match r.1 with Request_UPG => 15 | _ => 11 end.
Definition op_cost (o : mem_op V) : nat := match o with MemRead _ => 5 | MemWrite _ => 1 end.
Definition cost c : nat :=
  sum_list_with request_cost (requests c) + 3 * writebacks c + 4 * length (responses c).
Definition dir_cost d : nat :=
  6 * length (stalled d) + 2 * length (data_in d) + sum_list_with op_cost (memory_queue d).
Definition work s : nat := sum_list_with cost (caches s) + dir_cost (dir s).

(** What a request makes the owner do. *)
Definition snoop_cost ty : nat := match ty with Request_PUTM => 0 | _ => 3 end.

Lemma cost_snooped ty c :
  cost (snooped ty c) ≤
    (if decide (st c = L1Cache.State_M) then snoop_cost ty else 0) + cost c.
Proof.
  unfold cost, snooped. cbn [requests writebacks responses].
  destruct (decide _) as [->|]; [destruct ty; cbn; lia|]. by destruct (st c).
Qed.

Lemma cost_sum_insert i c c' cs : cs !! i = Some c →
  sum_list_with cost (<[i := c']> cs) + cost c = sum_list_with cost cs + cost c'.
Proof. apply sum_list_with_insert. Qed.

(** At most one cache starts a write-back when a request comes by. *)
Lemma cost_snoop_all ty i c c' cs k : cs !! i = Some c →
  (∀ j cj, cs !! j = Some cj → st cj = L1Cache.State_M → j = k) →
  sum_list_with cost (snoop_all ty i c' cs) + cost c ≤
    sum_list_with cost cs + cost c' + snoop_cost ty.
Proof.
  intros Hc Hk.
  assert (sum_list_with cost (snoop_all ty i c' cs) ≤
    sum_list_with cost (<[i := c']> cs) + snoop_cost ty).
  { apply (sum_list_with_le_one _ _ _ k).
    - unfold snoop_all. by rewrite length_imap, length_insert.
    - intros j x y [(-> & Hi & ->)|(Hne & c0 & H0 & ->)]%snoop_all_lookup Hy.
      + rewrite list_lookup_insert_eq in Hy by done. injection Hy as <-. lia.
      + rewrite list_lookup_insert_ne in Hy by done. rewrite H0 in Hy. injection Hy as <-.
        pose proof (cost_snooped ty c0). pose proof (Hk j c0 H0).
        destruct (decide (j = k)), (decide (st c0 = L1Cache.State_M)); try lia.
        destruct n; auto. }
  pose proof (cost_sum_insert i c c' cs Hc). lia.
Qed.

(** A step keeps the invariant and is not fatal, and the values that processors
    see in it are the last one stored, but for the load that was overtaken.  With [b]
    it leaves less work. *)
Definition good (b : bool) s (r : result V) : Prop :=
  match r with
  | Blocked => True
  | Fatal => False
  | Next s' obs =>
      invariant s' ∧
      Forall (λ p, p.2 = latest s ∨
        ∃ c, caches s !! p.1 = Some c ∧ st c = L1Cache.State_IS_DI) obs ∧
      (b = true → work s' < work s)
  end.

(** Only the holder has the line modified. *)
Lemma modified_holder s : invariant s →
  ∃ k, ∀ j c, caches s !! j = Some c → st c = L1Cache.State_M → j = k.
Proof.
  intros Hinv. exists (default 0 (holder (dir s))). intros j c Hc Hst.
  rewrite (owns_holder _ j); [done|]. pose proof (inv_local _ Hinv j c Hc) as H. revert H Hst.
  apply (local_cases (λ r a _ _ _, a = L1Cache.State_M → r = Owns)). by each_situation.
Qed.

Lemma bus_free_quiet s i : bus_free in_slot s i = true →
  data_in (dir s) = [] ∧ memory_queue (dir s) = [] ∧
  ∀ j cj, j ≠ i → caches s !! j = Some cj → side_pending cj = false.
Proof.
  unfold bus_free. cbn [data_in_slot memory_in_slot side_in_slot in_slot negb orb].
  rewrite !andb_true_iff. intros [[H1 H2] H3]. split_and!.
  - by destruct (data_in (dir s)).
  - by destruct (memory_queue (dir s)).
  - intros j cj Hj Hcj. rewrite forallb_forall in H3.
    specialize (H3 (bool_decide (j = i) || negb (side_pending cj))).
    rewrite bool_decide_eq_false_2 in H3 by done. cbn in H3.
    apply negb_true_iff, H3, list_elem_of_In, list_elem_of_lookup. exists j.
    rewrite list_lookup_imap, Hcj. cbn. by rewrite bool_decide_eq_false_2.
Qed.

Lemma bus_good s w i c0 c ty e x d : invariant s → caches s !! i = Some c0 →
  bus_type ty = true → bus_event true ty = Some e → cache_event None w c e = Some x →
  serve 2 (dir s) ty i = Some d → Forall (eq (latest s)) (seen x) →
  cost (self x) + dir_cost d + 2 * length (sent x) + snoop_cost ty < cost c0 + dir_cost (dir s) →
  invariant (mkSys (snoop_all ty i (self x) (caches s)) (with_data_in d (data_in d ++ sent x))
    (if wrote x then w else latest s)) →
  good true s (bus_moved s w i c ty).
Proof.
  intros Hinv Hc0 Hty He Hx Hd Hseen Hcost Hnext.
  rewrite (bus_moved_spec s w i c ty e x d); try done; [|by eapply lookup_lt_Some|].
  - split; [done|]. split.
    + apply Forall_map. eapply Forall_impl; [exact Hseen|]. cbn. auto.
    + intros _. destruct (modified_holder s Hinv) as [k Hk].
      pose proof (cost_snoop_all ty i c0 (self x) _ k Hc0 Hk). unfold work, dir_cost in *.
      cbn [caches dir with_data_in stalled data_in memory_queue] in *. rewrite length_app. lia.
  - intros j c' _ Hc'. eapply local_live. by eapply (inv_local _ Hinv).
Qed.

(** A request for the line by a cache the directory knows nothing of. *)
Lemma request_good s w i c0 c c' ty e : invariant s → caches s !! i = Some c0 →
  bus_free in_slot s i = true → role_of (dir s) i = Idle →
  ty = Request_GETS ∨ ty = Request_GETM → bus_event true ty = Some e →
  cache_event None w c e = Some (mkTurn c' [] [] false) →
  cost c0 = 11 → cost c' = 0 → local_ok (Fetches ty) c' → local_ok (Waits ty) c' → data_ok (latest s) c' →
  shares c' = false → good true s (bus_moved s w i c ty).
Proof.
  intros Hinv Hc0 (Hdata & Hmem & Hside)%bus_free_quiet Hrole Hty He Hx Hk0 Hk Hl1 Hl2 Hd Hs.
  assert (bus_type ty = true) by (by destruct Hty as [-> | ->]).
  destruct s as [cs d v]. cbn [caches dir latest] in *.
  destruct (quiet_shapes v d) as [->|(a & o & l & m & Ha & Hal & ->)];
    [apply (inv_dir _ Hinv)|done|done| |].
  - destruct Hty as [-> | ->]; (eapply bus_good; [done..|reflexivity|done|cbn; lia|]);
      eapply start_inv; eauto.
  - rewrite role_owned in Hrole by done. destruct (decide (i = o)) as [|Hne]; [done|].
    eapply bus_good; try done; [by apply serve_owned; auto| |by eapply enqueue_inv; eauto].
    assert (snoop_cost ty ≤ 3) by (by destruct ty; cbn; lia). cbn. rewrite length_app. cbn. lia.
Qed.

(** An upgrade: the cache still shares the line, or lost it to another store. *)
Lemma upgrade_good s w i v0 : invariant s →
  caches s !! i = Some (mkCache L1Cache.State_SM_W [(Request_UPG, false)] 0 v0 []) →
  bus_free in_slot s i = true →
  good true s (bus_moved s w i (mkCache L1Cache.State_SM_W [] 0 v0 []) Request_UPG).
Proof.
  intros Hinv Hc (Hdata & Hmem & Hside)%bus_free_quiet.
  assert (v0 = latest s) as -> by (by apply (inv_data _ Hinv _ _ Hc)).
  destruct s as [cs d v]. cbn [caches dir latest] in *.
  destruct (quiet_shapes v d) as [->|(a & o & l & m & Ha & Hal & ->)];
    [apply (inv_dir _ Hinv)|done|done| |].
  - eapply bus_good; [done..|reflexivity|reflexivity|by repeat constructor|cbn; lia|].
    eapply upgrade_inv; eauto; [is_situation|by split|done].
  - pose proof (inv_excl _ Hinv _ _ (claimed_owned _ _ _ _ _ Ha) Hc). done.
Qed.

Lemma lost_upgrade_good s w i v0 : invariant s → role_of (dir s) i = Idle →
  caches s !! i = Some (mkCache L1Cache.State_IM_W [(Request_UPG, false)] 0 v0 []) →
  bus_free in_slot s i = true →
  good true s (bus_moved s w i (mkCache L1Cache.State_IM_W [] 0 v0 []) Request_UPG).
Proof.
  intros Hinv Hrole Hc (Hdata & Hmem & Hside)%bus_free_quiet.
  destruct s as [cs d v]. cbn [caches dir latest] in *.
  destruct (quiet_shapes v d) as [->|(a & o & l & m & Ha & Hal & ->)];
    [apply (inv_dir _ Hinv)|done|done| |].
  - eapply bus_good; [done..|reflexivity|reflexivity|done|cbn; lia|].
    eapply upgrade_inv; eauto; [is_situation|by split].
  - rewrite role_owned in Hrole by done. destruct (decide (i = o)); [done|].
    eapply bus_good; [done..|reflexivity|by apply serve_owned_UPG|done|cbn; lia|].
    eapply lost_upgrade_inv; eauto; [is_situation|by split].
Qed.

(** The owner that has no data yet precedes nothing. *)
Lemma side_owner s i c : invariant s → caches s !! i = Some c →
  data_in (dir s) = [] → memory_queue (dir s) = [] →
  role_of (dir s) i = Owns → st c = L1Cache.State_IM_D →
  ∃ m, dir s = mkDir Directory.State_M (Some i) [] [] [] m.
Proof.
  intros Hinv Hc Hdata Hmem Hrole Hst. pose proof (inv_order _ Hinv) as Hord.
  destruct (quiet_shapes (latest s) (dir s)) as [E|(a & o & l & m & Ha & Hal & E)];
    [apply (inv_dir _ Hinv)|done|done| |]; rewrite E in *; [done|].
  rewrite role_owned in Hrole by done. destruct (decide (i = o)) as [->|].
  - rewrite pending_owned in Hord by done. destruct l as [|r l].
    + rewrite (proj2 Hal) by done. by exists m.
    + inversion_clear Hord as [|? ? Hall _]. apply Forall_inv in Hall.
      specialize (Hall c Hc). rewrite Hst in Hall. by destruct (r.1).
  - by apply waits_owns in Hrole.
Qed.

Lemma side_good s w i v0 : invariant s → role_of (dir s) i = Owns →
  caches s !! i = Some (mkCache L1Cache.State_IM_D [(Request_GETM, true)] 0 v0 []) →
  bus_free in_slot s i = true →
  good true s (bus_moved s w i (mkCache L1Cache.State_IM_D [] 0 v0 []) Request_GETM).
Proof.
  intros Hinv Hrole Hc (Hdata & Hmem & Hside)%bus_free_quiet.
  destruct (side_owner s i _ Hinv Hc Hdata Hmem Hrole eq_refl) as [m Hd].
  assert (m = latest s) as Hup.
  { pose proof (λ H, inv_upgraded _ Hinv i _ H Hc eq_refl) as Hup. rewrite Hd in Hup.
    by apply Hup. }
  destruct s as [cs d v]. cbn [caches dir latest] in *.
  subst d. eapply bus_good; [done..|reflexivity|apply serve_upgraded|done|cbn; lia|].
  eapply refetch_inv; eauto; [is_situation|by split].
Qed.

Lemma grant_good s i w : invariant s → good true s (exec in_slot s (Grant i) w).
Proof.
  intros Hinv. cbn [exec].
  destruct (caches s !! i) as [[a [|[ty b] rs] n v ds]|] eqn:Hc; [done| |done].
  destruct (bus_free in_slot s i) eqn:Hfree; [|done].
  destruct (local_requests _ _ _ _ _ (inv_local _ Hinv i _ Hc) eq_refl)
    as (-> & Hn & Hds & H). cbn in Hn, Hds. subst.
  destruct H as [[Hrole H]|[Hrole [= -> -> ->]]]; [|by apply side_good].
  cbn [st] in H. rewrite !elem_of_cons, elem_of_nil in H.
  destruct H as [[= -> -> ->]|[[= -> -> ->]|[[= -> -> ->]|[[= -> -> ->]|[[= -> -> ->]|[]]]]]];
    [| |by apply upgrade_good|by apply lost_upgrade_good|];
    (eapply request_good; [done..|by auto|reflexivity|reflexivity|done|done|is_situation|is_situation
      |by split|done]).
Qed.

Lemma grant_writeback_good s i w : invariant s → good true s (exec in_slot s (Grant_writeback i) w).
Proof.
  intros Hinv. cbn [exec].
  destruct (caches s !! i) as [[a rq [|n] v0 ds]|] eqn:Hc; [done| |done].
  destruct (bus_free in_slot s i) eqn:Hfree; [|done].
  apply bus_free_quiet in Hfree as (Hdata & Hmem & Hside).
  destruct (local_writeback _ _ _ (inv_local _ Hinv i _ Hc) eq_refl)
    as (Hrole & -> & Hrq & Hds & Hst). cbn in Hrq, Hds, Hst. subst rq ds.
  assert (v0 = latest s) as ->
    by (apply (inv_data _ Hinv _ _ Hc); by destruct Hst as [-> | ->]).
  pose proof (inv_order _ Hinv) as Hord. destruct s as [cs d v]. cbn [caches dir latest] in *.
  destruct (quiet_shapes v d) as [->|(b & o & l & m & Hb & Hal & ->)];
    [apply (inv_dir _ Hinv)|done|done|done|].
  rewrite role_owned in Hrole by done. rewrite pending_owned in Hord by done.
  destruct (decide (i = o)) as [<-|]; [|by apply waits_owns in Hrole].
  inversion_clear Hord as [|? ? Hall _].
  destruct Hst as [-> | ->]; (eapply bus_good; [done..|reflexivity|by apply serve_PUTM|done|cbn; lia|]);
    (eapply writeback_inv; [done..|is_situation|by split|]); [done|].
  intros (r & E & Hr)%list_elem_of_fmap. rewrite Forall_forall in Hall.
  specialize (Hall _ Hr _ Hc). by rewrite <- E in Hall.
Qed.

End grants.

(** ** Answers of the directory and of the memory *)

Section answers.
Context {V : Type}.
Implicit Types (c : cache V) (cs : list (cache V)) (d : directory V) (s : t V) (v w m : V)
  (i j o : nat) (ty : CoherenceRequestType) (l : list (CoherenceRequestType * nat))
  (q : list (mem_op V)).

(** What an answer must keep.  Requests leave the front of the pending ones. *)
Lemma answer_inv s cs d l0 : invariant s → dir_shape (latest s) d →
  Forall (λ r, r.1 = Request_GETS ∨ r.1 = Request_GETM) (stalled d) →
  pending (dir s) = l0 ++ pending d → length cs = length (caches s) →
  (∀ j c', cs !! j = Some c' → ∃ c, caches s !! j = Some c ∧ st c' = st c ∧
     requests c' = requests c ∧ local_ok (role_of d j) c' ∧ data_ok (latest s) c' ∧
     (claimed d → shares c' = false) ∧ (holder d = Some j → side_pending c = false)) →
  invariant (mkSys cs d (latest s)).
Proof.
  intros Hinv Hshape Htypes Hp Hlen Hcs.
  pose proof (inv_nodup _ Hinv) as Hnd. pose proof (inv_range _ Hinv) as Hrange.
  pose proof (inv_order _ Hinv) as Hord. rewrite Hp in Hnd, Hrange, Hord.
  rewrite fmap_app in Hnd. apply NoDup_app in Hnd as (_ & _ & Hnd).
  apply Forall_app in Hrange as [_ Hrange]. apply ForallOrdPairs_app_r in Hord.
  split; cbn [caches dir latest]; try done.
  - intros j c' Hj. by destruct (Hcs j c' Hj) as (? & ? & ? & ? & ? & ? & ? & ?).
  - intros j c' Hj. by destruct (Hcs j c' Hj) as (? & ? & ? & ? & ? & ? & ? & ?).
  - by rewrite Hlen.
  - eapply ForallOrdPairs_mono; [|exact Hord]. intros r1 r2 _ _ H c' Hc'.
    destruct (Hcs _ c' Hc') as (c & Hc & -> & _). by apply H.
  - intros j c' Hcl Hj. destruct (Hcs j c' Hj) as (? & ? & ? & ? & ? & ? & ? & ?). auto.
  - intros j k c1 c2 Hj Hk. unfold side_pending.
    destruct (Hcs j c1 Hj) as (? & ? & ? & -> & _).
    destruct (Hcs k c2 Hk) as (? & ? & ? & -> & _). by eapply inv_side.
  - intros j c' Hh Hj. unfold side_pending.
    destruct (Hcs j c' Hj) as (? & ? & ? & -> & ? & ? & ? & Hs). specialize (Hs Hh).
    unfold side_pending in Hs. by rewrite Hs.
Qed.

Lemma local_side r c : local_ok r c → side_pending c = true → r = Idle ∨ r = Owns.
Proof.
  unfold side_pending. apply (local_cases (λ r _ rq _ _, existsb snd rq = true →
    r = Idle ∨ r = Owns)). each_situation; intros ds _; cbn; auto; discriminate.
Qed.

(** A stalled request that the directory takes up. *)
Lemma local_fetch ty c : local_ok (Waits ty) c → local_ok (Fetches ty) c.
Proof.
  unfold local_ok. intros H. remember (Waits ty) as r eqn:Hr. revert H Hr.
  apply (local_cases (λ r a rq n ds, r = Waits ty →
    (Fetches ty, a, rq, n, length ds) ∈ situations)).
  each_situation; intros ds Hds; cbn; try discriminate; intros [= <-]; rewrite Hds; is_situation.
Qed.

(** The directory that takes up the first of the stalled requests. *)
Definition woken_dir q m l : directory V :=
  match l with
  | [] => mkDir Directory.State_I None [] q [] m
  | (Request_GETS, i) :: l => mkDir Directory.State_IS None l (q ++ [MemRead i]) [] m
  | (_, i) :: l => mkDir Directory.State_IM (Some i) l (q ++ [MemRead i]) [] m
  end.

Lemma serve_all_woken q m l :
  Forall (λ r, r.1 = Request_GETS ∨ r.1 = Request_GETM) l → NoDup l.*2 →
  serve_all (mkDir Directory.State_I None [] q [] m) l = Some (woken_dir q m l).
Proof.
  destruct l as [|[ty i] l]; [done|]. intros [Hty Hl]%Forall_cons [Hi _]%NoDup_cons.
  cbn [serve_all fst snd]. destruct Hty as [[= ->]|[= ->]].
  - rewrite serve_I_GETS. cbn [mbind option_bind]. rewrite serve_all_stalling; try done.
    by apply Forall_true.
  - rewrite serve_I_GETM. cbn [mbind option_bind]. rewrite serve_all_stalling; try done.
    apply Forall_forall. intros r Hr [= ->]. apply Hi. cbn. by apply (list_elem_of_fmap_2 snd).
Qed.

Section woken.
Context (q : list (mem_op V)) (m v : V) (l : list (CoherenceRequestType * nat)).
Hypothesis Hq : fresh q m v.
Hypothesis Hl : Forall (λ r, r.1 = Request_GETS ∨ r.1 = Request_GETM) l.

Lemma woken_shape : dir_shape v (woken_dir q m l).
Proof.
  destruct l as [|[ty i] l']; [by constructor|].
  apply Forall_inv in Hl as [[= ->]|[= ->]]; by constructor.
Qed.

Lemma woken_types :
  Forall (λ r, r.1 = Request_GETS ∨ r.1 = Request_GETM) (stalled (woken_dir q m l)).
Proof.
  destruct l as [|[ty i] l']; [constructor|]. apply Forall_cons in Hl as [_ ?].
  by destruct ty.
Qed.

Lemma woken_pending : pending (woken_dir q m l) = l.
Proof.
  destruct l as [|[ty i] l']; [by destruct Hq as [[-> _]| ->]|].
  apply Forall_inv in Hl as [[= ->]|[= ->]]; cbn [woken_dir]; [by eapply pending_IS|done].
Qed.

Lemma woken_role i : role_of (woken_dir q m l) i = waits l i ∨
  ∃ ty, waits l i = Waits ty ∧ role_of (woken_dir q m l) i = Fetches ty.
Proof.
  destruct l as [|[ty j] l']; [left; by eapply role_I|].
  apply Forall_inv in Hl as [[= ->]|[= ->]]; cbn [woken_dir waits].
  - rewrite (role_IS _ _ _ _ _ _ Hq). destruct (decide (i = j)); eauto.
  - rewrite (role_IM _ _ _ _ _ _ Hq). destruct (decide (i = j)); eauto.
Qed.

Lemma woken_local i c : local_ok (waits l i) c → local_ok (role_of (woken_dir q m l) i) c.
Proof.
  destruct (woken_role i) as [->|(ty & -> & ->)]; [done|]. apply local_fetch.
Qed.

Lemma woken_holder i : holder (woken_dir q m l) = Some i →
  role_of (woken_dir q m l) i = Fetches Request_GETM.
Proof.
  destruct l as [|[ty j] l']; [done|]. apply Forall_inv in Hl as [[= ->]|[= ->]]; [done|].
  cbn [woken_dir]. intros [= ->]. by rewrite (role_IM _ _ _ _ _ _ Hq), decide_True.
Qed.

Lemma woken_claimed : claimed (woken_dir q m l) → Request_GETM ∈ l.*1.
Proof.
  destruct l as [|[ty j] l']; [by intros [[? ?]|?]|].
  apply Forall_inv in Hl as [[= ->]|[= ->]]; cbn [woken_dir fmap list_fmap fst].
  - intros [[? [=]]|H]. by apply list_elem_of_further.
  - intros _. apply list_elem_of_here.
Qed.

End woken.

Lemma woken_cost q m l : dir_cost (woken_dir q m l) ≤ 6 * length l + sum_list_with op_cost q.
Proof.
  destruct l as [|[ty i] l]; [unfold dir_cost; cbn; lia|].
  destruct ty; unfold dir_cost; cbn; rewrite sum_list_with_app; cbn; lia.
Qed.

(** The owner has been answered; the stalled requests wait for its data. *)
Definition owned_dir o m l : directory V :=
  mkDir (match l with [] => Directory.State_M | _ => Directory.State_M_D end) (Some o) l [] [] m.

Lemma serve_all_owned o m l :
  Forall (λ r, r.1 = Request_GETS ∨ r.1 = Request_GETM) l → o ∉ l.*2 →
  serve_all (mkDir Directory.State_M (Some o) [] [] [] m) l = Some (owned_dir o m l).
Proof.
  destruct l as [|[ty i] l]; [done|]. intros [Hty Hl]%Forall_cons Ho.
  cbn [serve_all fst snd]. rewrite serve_owned; [|done|set_solver|done].
  cbn [mbind option_bind]. rewrite serve_all_stalling; try done.
  apply Forall_forall. intros r Hr [= ->]. apply Ho. cbn. right.
  by apply (list_elem_of_fmap_2 snd).
Qed.

(** Write-back data reaches the directory. *)
Lemma data_to_directory_good T s w : invariant s → good true s (exec T s Data_to_directory w).
Proof.
  intros Hinv. pose proof (inv_types _ Hinv) as Hl. pose proof (inv_nodup _ Hinv) as Hnd.
  destruct s as [cs d v]. pose proof (inv_dir _ Hinv) as Hd. cbn [caches dir latest] in *.
  assert (fresh [MemWrite v] (memory d) v) as Hf by by right.
  assert (data_in d = [] ∨ ∃ a o, d = mkDir a (Some o) (stalled d) [] [v] (memory d) ∧
    (a = Directory.State_M_D ∨ a = Directory.State_MI)) as [E|(a & o & E & Ha)].
  { destruct Hd; eauto 8. }
  { unfold exec. cbn [dir]. by rewrite E. }
  assert (pending d = stalled d) as Hp by by rewrite E. rewrite Hp in Hnd.
  assert (exec T (mkSys cs d v) Data_to_directory w =
    Next (mkSys cs (woken_dir [MemWrite v] (memory d) (stalled d)) v) []) as ->.
  { rewrite E at 1. unfold exec, directory_moved, wake.
    transitivity (match serve_all (mkDir Directory.State_I None [] [MemWrite v] [] (memory d))
      (stalled d) with None => Fatal | Some d => Next (mkSys cs d v) [] end);
      [by destruct Ha as [-> | ->]|]. by rewrite serve_all_woken. }
  split; [|split; [done|]]; cycle 1.
  { intros _. pose proof (woken_cost [MemWrite v] (memory d) (stalled d)).
    assert (dir_cost d = 6 * length (stalled d) + 2) as Hcost
      by (rewrite E at 1; unfold dir_cost; cbn; lia).
    unfold work. cbn [caches dir sum_list_with op_cost] in *. lia. }
  apply (answer_inv (mkSys cs d v) _ _ []); cbn [caches dir latest]; try done.
  - by apply woken_shape.
  - by apply woken_types.
  - by rewrite (woken_pending _ _ v).
  - intros j c Hj. exists c. pose proof (inv_local _ Hinv j c Hj) as Hc. cbn [dir] in Hc.
    assert (local_ok (role_of (woken_dir [MemWrite v] (memory d) (stalled d)) j) c) as Hc'.
    { eapply woken_local; [done..|]. rewrite E in Hc. by rewrite role_data in Hc. }
    split_and!; try done; [by apply (inv_data _ Hinv j)|..].
    + intros Hcl%woken_claimed; [|done..]. apply (inv_excl _ Hinv j); [|done]. by right.
    + intros Hh%(woken_holder _ _ v); [|done..]. rewrite Hh in Hc'.
      apply not_true_is_false. intros Hs. by destruct (local_side _ _ Hc' Hs).
Qed.

(** The memory has written the line. *)
Lemma memory_written_good s v0 q : invariant s → memory_queue (dir s) = MemWrite v0 :: q →
  good true s (directory_moved s (dir_event Request_WB_ACK 0 None
    (with_memory (with_queue (dir s) q) v0) Directory.Event_Memory_Ack)).
Proof.
  intros Hinv Hq. pose proof (inv_dir _ Hinv) as Hd.
  assert (v0 = latest s ∧ dir_shape (latest s) (with_memory (with_queue (dir s) q) v0) ∧
    stalling (dst (dir s)) || bool_decide (dst (dir s) = Directory.State_I) = true ∧
    reads (MemWrite v0 :: q) = reads q ∧
    ∀ i, holder (dir s) = Some i → role_of (dir s) i = Fetches Request_GETM)
    as (-> & Hd' & Hdst & Hreads & Hh).
  { destruct Hd as [q0 m Hf|l q0 r m Hf|l q0 o m Hf|o m|o r l m|o r l m|o m]; try done;
      destruct Hf as [[-> ->]| ->]; cbn in Hq; try done; injection Hq as <- <-;
      (split_and!; try done).
    - apply shape_I. by left.
    - apply (shape_IS _ l []). by left.
    - apply (shape_IM _ l []). by left.
    - intros i [= <-]. rewrite (role_IM l [MemWrite (latest s)] o m (latest s)); [|by right].
      by rewrite decide_True. }
  set (d := with_memory (with_queue (dir s) q) (latest s)) in *.
  assert (∀ i, role_of d i = role_of (dir s) i) as Hrole.
  { intros i. unfold role_of, d. cbn. by rewrite Hq, Hreads. }
  assert (directory_moved s (dir_event Request_WB_ACK 0 None d Directory.Event_Memory_Ack) =
    Next (mkSys (caches s) d (latest s)) []) as ->.
  { clear -Hdst. unfold d. destruct (dir s) as [a ow l q0 di m]. cbn in Hdst.
    destruct a; try discriminate; reflexivity. }
  split; [|split; [done|]]; cycle 1.
  { intros _. unfold work, dir_cost, d. cbn. rewrite Hq. cbn. lia. }
  apply (answer_inv s _ _ []); try done; [apply (inv_types _ Hinv)|..].
  - unfold d, pending. cbn. by rewrite Hq, Hreads.
  - intros j c Hj. exists c. pose proof (inv_local _ Hinv j c Hj) as Hc.
    split_and!; try done; [by rewrite Hrole|by apply (inv_data _ Hinv j)| |].
    + intros Hcl. by apply (inv_excl _ Hinv j).
    + intros Hj'. apply Hh in Hj'. rewrite Hj' in Hc.
      apply not_true_is_false. intros Hs. by destruct (local_side _ _ Hc Hs).
Qed.

(** A cache with one more response on its way. *)
Definition answered v c : cache V :=
  mkCache (st c) (requests c) (writebacks c) (block c) (responses c ++ [v]).

Lemma answered_local ty r c v :
  (ty, r) ∈ [(Request_GETS, Idle); (Request_GETM, Owns)] →
  local_ok (Fetches ty) c → local_ok r (answered v c).
Proof.
  intros Hr H. unfold local_ok, answered. cbn [st requests writebacks responses].
  rewrite length_app. remember (Fetches ty) as r0 eqn:Hr0. revert H Hr0.
  apply (local_cases (λ r0 a rq n ds, r0 = Fetches ty →
    (r, a, rq, n, length ds + 1) ∈ situations)).
  rewrite !elem_of_cons, elem_of_nil in Hr.
  destruct Hr as [[= -> ->]|[[= -> ->]|[]]];
    each_situation; intros ds Hds; cbn; try discriminate; intros _; rewrite Hds; is_situation.
Qed.

Lemma answered_data v c : data_ok v c → data_ok v (answered v c).
Proof.
  intros [H1 H2]. split; [done|]. cbn [st responses answered]. intros H.
  apply Forall_app. split; [by apply H2|by apply Forall_singleton].
Qed.

Lemma alter_answered v i cs j c' : alter (answered v) i cs !! j = Some c' →
  ∃ c, cs !! j = Some c ∧ c' = if decide (j = i) then answered v c else c.
Proof.
  destruct (decide (j = i)) as [->|Hne].
  - rewrite list_lookup_alter_eq. intros (c & -> & Hc)%fmap_Some. by exists c.
  - rewrite list_lookup_alter_ne by done. by exists c'.
Qed.

Lemma answered_work s i v d : dir_cost d + 4 < dir_cost (dir s) →
  work (mkSys (alter (answered v) i (caches s)) d (latest s)) < work s.
Proof.
  intros H. unfold work. cbn [caches dir].
  assert (sum_list_with cost (alter (answered v) i (caches s)) ≤
    sum_list_with cost (caches s) + 4); [|lia].
  apply (sum_list_with_le_one _ _ _ i); [by rewrite length_alter|].
  intros j x y (c & Hc & ->)%alter_answered Hy. assert (y = c) as -> by congruence.
  destruct (decide (j = i)); [|lia]. unfold cost, answered. cbn. rewrite length_app. cbn. lia.
Qed.

(** The memory has read the line for a load. *)
Lemma load_answered s i l : invariant s →
  dir s = mkDir Directory.State_IS None l ([] ++ [MemRead i]) [] (latest s) →
  invariant (mkSys (alter (answered (latest s)) i (caches s)) (woken_dir [] (latest s) l)
    (latest s)).
Proof.
  intros Hinv Hd. assert (fresh [] (latest s) (latest s)) as Hf by by left.
  pose proof (inv_types _ Hinv) as Hl. pose proof (inv_order _ Hinv) as Hord.
  pose proof (inv_nodup _ Hinv) as Hnd. rewrite Hd in Hl, Hord, Hnd.
  rewrite (pending_IS l [] _ _ _ Hf) in Hord, Hnd. cbn in Hl, Hnd.
  apply NoDup_cons in Hnd as [Hi _]. inversion_clear Hord as [|? ? Hall _].
  apply (answer_inv s _ _ [(Request_GETS, i)]); try done; [by apply woken_shape
    |by apply woken_types|by rewrite (woken_pending _ _ (latest s)), Hd|by rewrite length_alter|].
  intros j c' (c & Hc & ->)%alter_answered. exists c.
  pose proof (inv_local _ Hinv j c Hc) as Hlocal. pose proof (inv_data _ Hinv j c Hc) as Hdata.
  rewrite Hd, (role_IS l [] _ _ _ _ Hf) in Hlocal.
  destruct (decide (j = i)) as [->|Hne].
  - assert (role_of (woken_dir [] (latest s) l) i = Idle) as Hrole.
    { destruct (woken_role [] (latest s) (latest s) l Hf Hl i) as [E|(ty & E & _)];
        rewrite waits_not in E; done. }
    rewrite Hrole. split_and!; try done; [by eapply answered_local; [is_situation|]
      |by apply answered_data| |].
    + intros (r & E & Hr)%woken_claimed%list_elem_of_fmap; [|done..].
      rewrite Forall_forall in Hall. specialize (Hall _ Hr c Hc). rewrite <- E in Hall.
      unfold shares. cbn [st answered]. by destruct (st c).
    + intros Hh%(woken_holder _ _ (latest s)); [|done..]. congruence.
  - pose proof (woken_local [] (latest s) (latest s) l Hf Hl j c Hlocal) as Hlocal'.
    split_and!; try done.
    + intros Hcl%woken_claimed; [|done..]. apply (inv_excl _ Hinv j); [|done]. right. by rewrite Hd.
    + intros Hh%(woken_holder _ _ (latest s)); [|done..]. rewrite Hh in Hlocal'.
      apply not_true_is_false. intros Hs. by destruct (local_side _ _ Hlocal' Hs).
Qed.

(** The memory has read the line for a store. *)
Lemma store_answered s i l : invariant s →
  dir s = mkDir Directory.State_IM (Some i) l ([] ++ [MemRead i]) [] (latest s) →
  invariant (mkSys (alter (answered (latest s)) i (caches s)) (owned_dir i (latest s) l)
    (latest s)).
Proof.
  intros Hinv Hd. assert (fresh [] (latest s) (latest s)) as Hf by by left.
  pose proof (inv_types _ Hinv) as Hl. rewrite Hd in Hl.
  assert (owned (dst (owned_dir i (latest s) l)) = true) as Ho by by destruct l.
  apply (answer_inv s _ _ []); try done; [destruct l; [apply shape_M|apply shape_M_D]
    |rewrite Hd; by destruct l|by rewrite length_alter|].
  intros j c' (c & Hc & ->)%alter_answered. exists c.
  pose proof (inv_local _ Hinv j c Hc) as Hlocal. pose proof (inv_data _ Hinv j c Hc) as Hdata.
  assert (shares c = false) as Hs.
  { apply (inv_excl _ Hinv j); [|done]. rewrite Hd. by left; exists i. }
  rewrite Hd, (role_IM l [] _ _ _ _ Hf) in Hlocal.
  unfold owned_dir. rewrite role_owned by done. destruct (decide (j = i)) as [->|Hne].
  - split_and!; try done; [by eapply answered_local; [is_situation|]|by apply answered_data| |].
    + intros _. revert Hs. unfold shares. cbn [st answered responses].
      destruct (st c) eqn:Hst; try done. clear -Hlocal Hst. exfalso. revert Hst.
      remember (Fetches Request_GETM) as r eqn:Hr. revert Hlocal Hr.
      apply (local_cases (λ r a _ _ _, r = Fetches Request_GETM → a = L1Cache.State_IS_D → False)).
      by each_situation.
    + intros _. apply not_true_is_false. intros Hs'. by destruct (local_side _ _ Hlocal Hs').
  - split_and!; try done. intros Hh. destruct l; cbn in Hh; congruence.
Qed.

Lemma memory_read_good s i q : invariant s → memory_queue (dir s) = MemRead i :: q →
  good true s (directory_moved s (dir_event Request_WB_ACK i (Some (memory (dir s)))
    (with_queue (dir s) q) Directory.Event_Memory_Data)).
Proof.
  intros Hinv Hq. pose proof (inv_types _ Hinv) as Hl. pose proof (inv_nodup _ Hinv) as Hnd.
  pose proof (inv_dir _ Hinv) as Hd. remember (dir s) as d eqn:E. symmetry in E.
  destruct Hd as [q0 m Hf|l q0 r m Hf|l q0 o m Hf|o m|o r l m|o r l m|o m]; try done;
    destruct Hf as [[-> ->]| ->]; cbn in Hq; try done; injection Hq as <- <-;
    cbn in Hl, Hnd; apply NoDup_cons in Hnd as [Hi Hnd].
  - unfold directory_moved, wake.
    change (good true s (match serve_all (mkDir Directory.State_I None [] [] [] (latest s)) l with
      | None => Fatal
      | Some d => Next (mkSys (alter (answered (latest s)) r (caches s)) d (latest s)) [] end)).
    rewrite serve_all_woken by done. split; [by apply load_answered|]. split; [done|].
    intros _. apply answered_work. rewrite E. pose proof (woken_cost [] (latest s) l).
    cbn in *. lia.
  - unfold directory_moved, wake.
    change (good true s (match serve_all (mkDir Directory.State_M (Some o) [] [] [] (latest s)) l with
      | None => Fatal
      | Some d => Next (mkSys (alter (answered (latest s)) o (caches s)) d (latest s)) [] end)).
    rewrite serve_all_owned by done. split; [by apply store_answered|]. split; [done|].
    intros _. apply answered_work. rewrite E. cbn. lia.
Qed.

Lemma memory_good T s w : invariant s → good true s (exec T s Memory_done w).
Proof.
  intros Hinv. cbn [exec]. destruct (memory_queue (dir s)) as [|[i|v] q] eqn:Hq; [done|..].
  - by apply memory_read_good.
  - by apply memory_written_good.
Qed.

End answers.

(** ** Steps of one cache *)

Section moves.
Context {V : Type}.
Implicit Types (c : cache V) (cs : list (cache V)) (d : directory V) (s : t V) (v w : V)
  (i j : nat) (ty : CoherenceRequestType) (x : turn V).

Lemma owns_shape v w d i : dir_shape v d → role_of d i = Owns → dir_shape w d.
Proof.
  intros Hd Hi. destruct Hd as [q m Hf|l q r m Hf|l q o m Hf|o m|o r l m|o r l m|o m];
    try (by apply owns_holder in Hi); [|by constructor..].
  rewrite (role_IM _ _ _ _ _ _ Hf) in Hi. destruct (decide _); [done|].
  by apply waits_owns in Hi.
Qed.

(** No other cache has the line when one is its owner. *)
Lemma owns_alone s i j c : invariant s → role_of (dir s) i = Owns → j ≠ i →
  caches s !! j = Some c →
  valid (st c) = false ∧ (responses c = [] ∨ st c = L1Cache.State_IS_DI).
Proof.
  intros Hinv Hi%owns_holder Hne Hc.
  assert (shares c = false) as Hs by (apply (inv_excl _ Hinv j); [left; by exists i|done]).
  assert (role_of (dir s) j ≠ Owns) as Hr by (intros H%owns_holder; congruence).
  pose proof (inv_local _ Hinv j c Hc) as Hl. revert Hs Hr. unfold shares. revert Hl.
  apply (local_cases (λ r a _ _ ds, match a with
    | L1Cache.State_S | L1Cache.State_SM_W => true
    | L1Cache.State_IS_D => negb (is_nil ds) | _ => false end = false → r ≠ Owns →
    valid a = false ∧ (ds = [] ∨ a = L1Cache.State_IS_DI))).
  each_situation; intros ds Hds; cbn; try done; intros Hs _; (split; [done|]);
    first [by right | by left; apply nil_length_inv | by destruct ds].
Qed.

(** What a step of cache [i] alone must keep. *)
Lemma move_inv s i c c' v : invariant s → caches s !! i = Some c →
  local_ok (role_of (dir s) i) c' → data_ok v c' →
  v = latest s ∨ role_of (dir s) i = Owns →
  i ∉ (pending (dir s)).*2 ∨ (∀ ty, precedes (st c) ty = true → precedes (st c') ty = true) →
  (shares c' = true → shares c = true) → (side_pending c' = true → side_pending c = true) →
  (v = latest s ∨ side_pending c' = false) →
  invariant (mkSys (<[i := c']> (caches s)) (dir s) v).
Proof.
  intros Hinv Hc Hlocal Hdata Hv Hord Hsh Hside Hup.
  assert (∀ j cj, <[i := c']> (caches s) !! j = Some cj →
    (j = i ∧ cj = c') ∨ (j ≠ i ∧ caches s !! j = Some cj)) as Hlook.
  { intros j cj. rewrite list_lookup_insert_Some. naive_solver. }
  assert (∀ b b' : bool, (b = true → b' = true) → b' = false → b = false) as Hbool
    by (intros [] [] H; try done; by specialize (H eq_refl)).
  pose proof Hinv as [H1 H2 H3 H4 H5 H6 H7 H8 H9 H10].
  split; cbn [caches dir latest]; try done.
  - destruct Hv as [-> | ?]; [done|by eapply owns_shape].
  - intros j cj [[-> ->]|[? ?]]%Hlook; [done|by apply H3].
  - intros j cj [[-> ->]|[? Hj]]%Hlook; [done|]. destruct Hv as [-> | Hi]; [by eapply H4|].
    destruct (owns_alone s i j cj) as [Hval Hres]; [done..|].
    split; [by rewrite Hval|]. intros ?. destruct Hres as [-> | ?]; [constructor|done].
  - by rewrite length_insert.
  - eapply ForallOrdPairs_mono; [|exact H7]. intros r1 r2 Hr1 _ H cj [[E ->]|[? ?]]%Hlook;
      [|by apply H].
    destruct Hord as [Hord|Hord]; [destruct Hord; rewrite <- E; by apply list_elem_of_fmap_2|].
    apply Hord, (H c). by rewrite E.
  - intros j cj Hcl [[-> ->]|[? ?]]%Hlook; [|by eapply H8]. by eapply Hbool, H8.
  - intros j k cj ck [[-> ->]|[? ?]]%Hlook [[-> ->]|[? ?]]%Hlook Hj Hk;
      [done|by eapply H9; eauto..].
  - intros j cj Hh [[-> ->]|[Hne Hj]]%Hlook Hs.
    + destruct Hup as [-> | ?]; [|congruence]. by eapply H10; eauto.
    + destruct Hv as [-> | Hi%owns_holder]; [by eapply H10|congruence].
Qed.

(** A transition of a cache alone, as the tables give it for the situations. *)
Record moves (w : V) (r : role) c x : Prop := {
  moves_sent : sent x = [];
  moves_local : local_ok r (self x);
  moves_order : r = Idle ∨
    ∀ ty, precedes (st c) ty = true → precedes (st (self x)) ty = true;
  moves_shares : shares (self x) = true → shares c = true;
  moves_side : side_pending (self x) = true → side_pending c = true;
  moves_wrote : wrote x = true →
    r = Owns ∧ side_pending (self x) = false ∧ block (self x) = w ∧ responses (self x) = [] }.

Lemma moved_good b s w i c0 c x : invariant s → caches s !! i = Some c0 →
  st c = st c0 → shares c = shares c0 → side_pending c = side_pending c0 →
  moves w (role_of (dir s) i) c x →
  (wrote x = false → data_ok (latest s) (self x)) →
  Forall (eq (latest s)) (seen x) ∨ st c0 = L1Cache.State_IS_DI →
  (b = true → cost (self x) < cost c0) →
  good b s (cache_moved s w i (Some x)).
Proof.
  intros Hinv Hc0 Hst Hsh Hsd [Hsent Hlocal Hord Hshares Hside Hwrote] Hdata Hseen Hcost.
  cbn [cache_moved good]. rewrite Hsent, app_nil_r.
  replace (with_data_in (dir s) (data_in (dir s))) with (dir s) by by destruct (dir s).
  split; [|split].
  - eapply move_inv; try done.
    + destruct (wrote x); [|by auto]. destruct Hwrote as (_ & _ & <- & Hr); [done|].
      split; [done|]. by rewrite Hr.
    + destruct (wrote x); [right; by apply Hwrote|by left].
    + destruct Hord as [Hr|Hord]; [left; by apply idle_not_pending|right; by rewrite <- Hst].
    + by rewrite <- Hsh.
    + by rewrite <- Hsd.
    + destruct (wrote x); [right; by apply Hwrote|by left].
  - apply Forall_map. destruct Hseen as [Hseen|?].
    + eapply Forall_impl; [exact Hseen|]. cbn. auto.
    + apply Forall_true. cbn. eauto.
  - intros Hb. specialize (Hcost Hb). unfold work. cbn [caches dir].
    pose proof (cost_sum_insert i c0 (self x) _ Hc0). lia.
Qed.

Lemma response_moves w r a rq n v0 (u : V) ds : local_ok r (mkCache a rq n v0 (u :: ds)) →
  ∃ x, cache_event (Some u) w (mkCache a rq n v0 ds) L1Cache.Event_Data = Some x ∧
    moves w r (mkCache a rq n v0 (u :: ds)) x ∧ seen x = [u] ∧ responses (self x) = [] ∧
    (a = L1Cache.State_IS_DI → valid (st (self x)) = false) ∧
    (wrote x = false → block (self x) = u) ∧
    cost (self x) < cost (mkCache a rq n v0 (u :: ds)).
Proof.
  intros Hc. pose (f := mkCache a rq n v0 (u :: ds)).
  assert (∀ (u : V) ds, responses f = u :: ds → ∃ x,
    cache_event (Some u) w (mkCache (st f) (requests f) (writebacks f) v0 ds)
      L1Cache.Event_Data = Some x ∧
    moves w r (mkCache (st f) (requests f) (writebacks f) v0 (u :: ds)) x ∧
    seen x = [u] ∧ responses (self x) = [] ∧
    (st f = L1Cache.State_IS_DI → valid (st (self x)) = false) ∧
    (wrote x = false → block (self x) = u) ∧
    cost (self x) < cost (mkCache (st f) (requests f) (writebacks f) v0 (u :: ds))) as H; [|by apply (H u ds)].
  pattern r, (st f), (requests f), (writebacks f), (responses f).
  eapply local_cases; [|exact Hc]. clear. each_situation; intros dds Hdds u ds ->;
    cbn in Hdds; try discriminate; injection Hdds as ->%nil_length_inv;
    (eexists; split; [reflexivity|]); (split; [|by split_and!; try done; cbn; lia]);
    (split; [done|is_situation| |done|done|first [done | intros _; by split_and!]]).
  all: first [by left | right; intros []; done].
Qed.

(** A response reaches its cache. *)
Lemma data_to_cache_good T s w i : invariant s → good true s (exec T s (Data_to_cache i) w).
Proof.
  intros Hinv. cbn [exec].
  destruct (caches s !! i) as [[a rq n v0 [|u ds]]|] eqn:Hc; [done| |done].
  destruct (inv_data _ Hinv i _ Hc) as [_ Hdata]. cbn [st responses] in Hdata.
  destruct (response_moves w _ _ _ _ _ _ _ (inv_local _ Hinv i _ Hc))
    as (x & -> & Hm & Hseen & Hres & Hval & Hblock & Hcost).
  assert (a = L1Cache.State_IS_DI ∨ latest s = u) as Hd.
  { destruct (decide (a = L1Cache.State_IS_DI)); [by left|right]. by eapply Forall_inv, Hdata. }
  eapply moved_good; try done.
  - intros Hw%Hblock. split; [|by rewrite Hres].
    destruct Hd as [?%Hval|Hd]; congruence.
  - rewrite Hseen. destruct Hd as [Hd|Hd]; [by right|left; by apply Forall_singleton].
Qed.

Lemma processor_moves w r c e : local_ok r c → processor_event (st c) e = true →
  ∃ x, cache_event None w c e = Some x ∧ moves w r c x ∧
    (seen x = [] ∨ seen x = [block c] ∧ valid (st c) = true) ∧
    responses (self x) = responses c ∧ (valid (st (self x)) = true → valid (st c) = true) ∧
    (st (self x) ≠ L1Cache.State_IS_DI → st c ≠ L1Cache.State_IS_DI) ∧
    (wrote x = false → block (self x) = block c).
Proof.
  intros Hc. replace c with (mkCache (st c) (requests c) (writebacks c) (block c) (responses c))
    by by destruct c.
  cbn [st responses block]. generalize (block c) as v. intros v. revert v.
  pattern r, (st c), (requests c), (writebacks c), (responses c).
  eapply local_cases; [|exact Hc]. clear. each_situation; intros ds Hds v He;
    (destruct ds as [|u [|]]; try discriminate Hds); clear Hds; try discriminate He;
    (destruct e; try discriminate He; clear He).
  all: (eexists; split; [vm_compute; reflexivity|]); (split; [|by split_and!; auto]).
  all: split; [done|is_situation|first [by left | right; intros []; done]|done|done|].
  all: first [done | intros _; by split_and!].
Qed.

Lemma processor_good T s w i e : invariant s → good false s (exec T s (Processor i e) w).
Proof.
  intros Hinv. cbn [exec]. destruct (caches s !! i) as [c|] eqn:Hc; [|done].
  destruct (processor_event (st c) e) eqn:He; [|done].
  destruct (processor_moves w _ _ _ (inv_local _ Hinv i c Hc) He)
    as (x & -> & Hm & Hseen & Hres & Hval & Hdi & Hblock).
  destruct (inv_data _ Hinv i c Hc) as [Hd1 Hd2]. eapply moved_good; try done.
  - intros Hw. split; [rewrite Hblock by done; auto|]. rewrite Hres. auto.
  - left. destruct Hseen as [->|[-> ?]]; [done|]. apply Forall_singleton. symmetry. auto.
Qed.

(** A step of a system that keeps the invariant is good. *)
Lemma exec_good s l w : invariant s → good (negb (is_processor l)) s (exec in_slot s l w).
Proof.
  intros Hinv. destruct l as [i e|i|i| | |i].
  - by apply processor_good.
  - by apply grant_good.
  - by apply grant_writeback_good.
  - by apply data_to_directory_good.
  - by apply memory_good.
  - by apply data_to_cache_good.
Qed.

Lemma initial_invariant n v : invariant (initial n v).
Proof.
  split; cbn [initial caches dir latest].
  - apply shape_I. by left.
  - constructor.
  - intros i c [-> _]%lookup_replicate. is_situation.
  - intros i c [-> _]%lookup_replicate. done.
  - constructor.
  - constructor.
  - constructor.
  - by intros i c _ [-> _]%lookup_replicate.
  - by intros i j c c' [-> _]%lookup_replicate.
  - done.
Qed.

Lemma reachable_invariant n v s : reachable in_slot n v s → invariant s.
Proof.
  unfold reachable. intros H. pose proof (initial_invariant n v) as H0.
  induction H as [|s1 s2 s3 [l w s' obs Hx] _ IH]; [done|]. apply IH.
  pose proof (exec_good s1 l w H0) as Hg. rewrite Hx in Hg. apply Hg.
Qed.

End moves.

(** ** Progress *)

Section progress.
Context {V : Type}.
Implicit Types (c : cache V) (cs : list (cache V)) (d : directory V) (s : t V) (v w : V)
  (i j o : nat) (r : role).

(** A step that no processor starts. *)
Inductive settles s : t V → Prop :=
  | settles_exec l w s' obs : is_processor l = false → exec in_slot s l w = Next s' obs →
      settles s s'.

(** Nothing is under way. *)
Definition stable (a : L1Cache.State) : bool :=
  match a with L1Cache.State_I | L1Cache.State_S | L1Cache.State_M => true | _ => false end.

Definition settled s : Prop :=
  (∀ i c, caches s !! i = Some c →
     stable (st c) = true ∧ requests c = [] ∧ writebacks c = 0 ∧ responses c = []) ∧
  stalled (dir s) = [] ∧ memory_queue (dir s) = [] ∧ data_in (dir s) = [] ∧
  (dst (dir s) = Directory.State_I ∨ dst (dir s) = Directory.State_M).

Lemma local_stable r c : local_ok r c → requests c = [] → writebacks c = 0 →
  responses c = [] → (r = Idle → stable (st c) = true) ∧ (r = Owns → st c = L1Cache.State_M).
Proof.
  intros Hc. pattern r, (st c), (requests c), (writebacks c), (responses c).
  eapply local_cases; [|exact Hc].
  each_situation; intros ds Hds Hrq Hn ->; try discriminate; by split.
Qed.

Lemma quiet_settled s : invariant s → data_in (dir s) = [] → memory_queue (dir s) = [] →
  (∀ i c, caches s !! i = Some c → requests c = [] ∧ writebacks c = 0 ∧ responses c = []) →
  settled s.
Proof.
  intros Hinv Hdata Hmem Hcs.
  assert (∀ i c, caches s !! i = Some c → (role_of (dir s) i = Idle → stable (st c) = true) ∧
    (role_of (dir s) i = Owns → st c = L1Cache.State_M)) as Hst.
  { intros i c Hc. destruct (Hcs i c Hc) as (? & ? & ?). apply local_stable; try done.
    by apply (inv_local _ Hinv). }
  destruct (quiet_shapes (latest s) (dir s)) as [E|(a & o & l & m & Ha & Hal & E)];
    [apply (inv_dir _ Hinv)|done|done|..].
  - split; [|rewrite E; by auto]. intros i c Hc. split; [|by eapply Hcs].
    apply (Hst i c Hc). by rewrite E.
  - pose proof (inv_order _ Hinv) as Hord. pose proof (inv_range _ Hinv) as Hrange.
    rewrite E, pending_owned in Hord, Hrange by done. apply Forall_inv in Hrange.
    apply lookup_lt_is_Some_2 in Hrange as [c Hc]. cbn in Hc.
    destruct l as [|r l].
    + split; [|rewrite E; cbn; split_and!; try done; right; by apply Hal].
      intros j cj Hj. split; [|by eapply Hcs].
      destruct (Hst j cj Hj) as [H1 H2]. rewrite E, role_owned in H1, H2 by done.
      destruct (decide (j = o)); [by rewrite H2|by apply H1].
    + inversion_clear Hord as [|? ? Hall _]. apply Forall_inv in Hall. specialize (Hall c Hc).
      destruct (Hst o c Hc) as [_ H]. rewrite H in Hall; [by destruct (r.1)|].
      by rewrite E, role_owned, decide_True.
Qed.

Lemma cache_moved_moves s w i x : cache_moved s w i x ≠ Blocked.
Proof. by destruct x. Qed.

Lemma bus_moved_moves s w i c ty : bus_moved s w i c ty ≠ Blocked.
Proof.
  unfold bus_moved. destruct (broadcast _ _ _ _); [|done]. by destruct (serve _ _ _ _).
Qed.

Lemma directory_moved_moves s x : directory_moved s x ≠ Blocked.
Proof. unfold directory_moved. destruct x as [x|]; [|done]. by destruct (wake x). Qed.

(** A cache with something queued can move, when nothing else is under way. *)
Lemma cache_progress s i c : invariant s → caches s !! i = Some c →
  bus_free in_slot s i = true →
  requests c ≠ [] ∨ writebacks c ≠ 0 ∨ responses c ≠ [] →
  ∃ l, is_processor l = false ∧ ∀ w, exec in_slot s l w ≠ Blocked.
Proof.
  intros Hinv Hc Hfree H. destruct c as [a rq n v ds].
  destruct ds as [|u ds]; [|exists (Data_to_cache i); split; [done|]; intros w; cbn [exec]; rewrite Hc;
    apply cache_moved_moves].
  destruct rq as [|[ty b] rq].
  - destruct n as [|n]; [by destruct H as [?|[?|?]]|]. exists (Grant_writeback i). split; [done|]. intros w.
    cbn [exec]. rewrite Hc, Hfree. apply bus_moved_moves.
  - exists (Grant i). split; [done|]. intros w. cbn [exec]. rewrite Hc, Hfree.
    apply bus_moved_moves.
Qed.

Lemma bus_free_intro s i : data_in (dir s) = [] → memory_queue (dir s) = [] →
  (∀ j c, caches s !! j = Some c → j ≠ i → side_pending c = false) →
  bus_free in_slot s i = true.
Proof.
  intros Hdata Hmem Hside. unfold bus_free. rewrite Hdata, Hmem. cbn. apply forallb_forall. intros b Hb%list_elem_of_In.
  apply list_elem_of_lookup in Hb as (j & (c & Hc & ->)%list_lookup_imap_Some).
  destruct (decide (j = i)) as [->|Hne]; [by rewrite bool_decide_eq_true_2|].
  by rewrite (Hside j c), orb_true_r.
Qed.

Lemma progress s : invariant s →
  (∃ l, is_processor l = false ∧ ∀ w, exec in_slot s l w ≠ Blocked) ∨ settled s.
Proof.
  intros Hinv. destruct (data_in (dir s)) as [|u us] eqn:Hdata.
  2: { left. exists Data_to_directory. split; [done|]. intros w. cbn [exec]. rewrite Hdata.
       apply directory_moved_moves. }
  destruct (memory_queue (dir s)) as [|o q] eqn:Hmem.
  2: { left. exists Memory_done. split; [done|]. intros w. cbn [exec]. rewrite Hmem.
       destruct o; apply directory_moved_moves. }
  pose (busy c := requests c ≠ [] ∨ writebacks c ≠ 0 ∨ responses c ≠ []).
  destruct (decide (Exists (λ c, side_pending c = true) (caches s))) as [Hs|Hs].
  { apply Exists_exists in Hs as (c & (i & Hc)%list_elem_of_lookup & Hs). left.
    eapply cache_progress; [done|done| |].
    - apply bus_free_intro; [done..|]. intros j cj Hj Hne. apply not_true_is_false. intros Hsj.
      apply Hne. by eapply (inv_side _ Hinv).
    - left. unfold side_pending in Hs. by destruct (requests c). }
  apply not_Exists_Forall in Hs; [|apply _]. rewrite Forall_lookup in Hs.
  destruct (decide (Exists busy (caches s))) as [Hb|Hb].
  { apply Exists_exists in Hb as (c & (i & Hc)%list_elem_of_lookup & Hb). left.
    eapply cache_progress; [done|done| |done]. apply bus_free_intro; [done..|].
    intros j cj Hj _. apply not_true_is_false. by eapply Hs. }
  right. apply not_Exists_Forall in Hb; [|intros c; apply _]. rewrite Forall_lookup in Hb.
  apply quiet_settled; [done..|]. intros i c Hc. specialize (Hb i c Hc).
  change (¬ (requests c ≠ [] ∨ writebacks c ≠ 0 ∨ responses c ≠ [])) in Hb.
  split_and!.
  - destruct (requests c); [done|]. destruct Hb. by left.
  - destruct (writebacks c); [done|]. destruct Hb. right. by left.
  - destruct (responses c); [done|]. destruct Hb. right. by right.
Qed.

(** *** How much work there can be *)

Lemma local_cost r c : local_ok r c → cost c ≤ 15.
Proof.
  unfold cost.
  apply (local_cases (λ _ _ rq n ds, sum_list_with request_cost rq + 3 * n + 4 * length ds ≤ 15)).
  each_situation; intros ds ->; cbn; lia.
Qed.

Lemma work_bounded s : invariant s → work s ≤ 21 * length (caches s) + 6.
Proof.
  intros Hinv. unfold work.
  assert (sum_list_with cost (caches s) ≤ 15 * length (caches s)) as Hcs.
  { apply (sum_list_with_bounded cost). intros i c Hc. by eapply local_cost, (inv_local _ Hinv). }
  assert (length (stalled (dir s)) ≤ length (caches s)) as Hl.
  { transitivity (length (pending (dir s)).*2).
    - unfold pending. rewrite length_fmap, length_app. lia.
    - apply NoDup_bounded_length; [apply (inv_nodup _ Hinv)|].
      rewrite Forall_fmap. apply (inv_range _ Hinv). }
  assert (2 * length (data_in (dir s)) + sum_list_with op_cost (memory_queue (dir s)) ≤ 6).
  { destruct (inv_dir _ Hinv) as [? ? [[-> _]| ->]|? ? ? ? [[-> _]| ->]|? ? ? ? [[-> _]| ->]| | | |];
      cbn; lia. }
  unfold dir_cost. lia.
Qed.

End progress.

(** ** Correctness of the protocol *)

Section theorems.
Context {V : Type}.
Implicit Types (c : cache V) (s : t V) (v w u : V) (i j n k : nat).

Lemma store_hits_owns r c : local_ok r c → store_hits (st c) = true → r = Owns.
Proof.
  apply (local_cases (λ r a _ _ _, store_hits a = true → r = Owns)).
  each_situation; intros ds _; by vm_compute.
Qed.

Lemma hits_valid r c : local_ok r c →
  load_hits (st c) || store_hits (st c) = true → valid (st c) = true.
Proof.
  apply (local_cases (λ _ a _ _ _, load_hits a || store_hits a = true → valid a = true)).
  each_situation; intros ds _; by vm_compute.
Qed.

(** C1: a cache in which a store hits has the only copy that can be read or
    written, and a load that hits reads the last value stored. *)
Theorem single_writer_last_value n v s i j c c' : reachable in_slot n v s →
  caches s !! i = Some c → caches s !! j = Some c' →
  (store_hits (st c) = true → i ≠ j → load_hits (st c') = false ∧ store_hits (st c') = false) ∧
  (load_hits (st c) = true → block c = latest s).
Proof.
  intros Hinv%reachable_invariant Hi Hj. pose proof (inv_local _ Hinv i c Hi) as Hci. split.
  - intros Hs Hne. pose proof (store_hits_owns _ _ Hci Hs) as Ho.
    destruct (owns_alone s i j c') as [Hv _]; [by auto..|].
    pose proof (hits_valid _ _ (inv_local _ Hinv j c' Hj)) as H. rewrite Hv in H.
    apply orb_false_elim. apply not_true_is_false. intros E. by specialize (H E).
  - intros Hl. apply (inv_data _ Hinv i c Hi), (hits_valid _ _ Hci). by rewrite Hl.
Qed.

(** The states with an outstanding request are those between a miss and the answer to the
    processor: in the states a line can have, a transition enters them only for a request of the processor that does
    not hit, and leaves them exactly when it makes the load or the store. *)
Definition hit_action (a : L1Cache.action) : bool :=
  match a with
  | L1Cache.r_load_hit | L1Cache.rx_load_hit | L1Cache.s_store_hit | L1Cache.sx_store_hit
  | L1Cache.sx_atomic_store_hit_set | L1Cache.sx_atomic_store_hit_unset => true
  | _ => false
  end.
Definition asks (e : L1Cache.Event) : bool :=
  match e with
  | L1Cache.Event_Load | L1Cache.Event_Store | L1Cache.Event_Ifetch | L1Cache.Event_RMW_Read
  | L1Cache.Event_RMW_Write | L1Cache.Event_Load_Approx | L1Cache.Event_Store_Approx => true
  | _ => false
  end.
Lemma outstanding_until_hit a e a' acts : live a = true → L1Cache.find_transition a e = Some (a', acts) →
  outstanding a' = if outstanding a then negb (existsb hit_action acts) else outstanding a' && asks e && negb (existsb hit_action acts).
Proof. destruct a, e; vm_compute; first [by intros [=] | by intros _ [= <- <-] | by intros _ [=]]. Qed.


(** C4: the value a processor reads, or replaces by its store, is the last value
    stored; the exception is a load that another store overtook on the bus
    ([IS_DI]), which returns the data once and gives up the line. *)
Theorem observed_last_value n v s l w s' obs i u : reachable in_slot n v s →
  exec in_slot s l w = Next s' obs → (i, u) ∈ obs →
  u = latest s ∨ ∃ c, caches s !! i = Some c ∧ st c = L1Cache.State_IS_DI.
Proof.
  intros Hinv%reachable_invariant Hx Hu.
  pose proof (exec_good s l w Hinv) as Hg. rewrite Hx in Hg. destruct Hg as (_ & Hobs & _). rewrite Forall_forall in Hobs.
  apply (Hobs _ Hu).
Qed.

(** The number of caches does not change. *)
Lemma deliver_length (cs : list (cache V)) l : length (deliver cs l) = length cs.
Proof.
  unfold deliver. revert cs. induction l as [|p l IH]; intros cs; [done|]. cbn.
  by rewrite IH, length_alter.
Qed.

Lemma exec_length T s l w s' obs : exec T s l w = Next s' obs →
  length (caches s') = length (caches s).
Proof.
  assert (∀ i x, cache_moved s w i x = Next s' obs → length (caches s') = length (caches s)) as H1.
  { intros i [x|] [= <- _]. apply length_insert. }
  assert (∀ i c ty, bus_moved s w i c ty = Next s' obs → length (caches s') = length (caches s))
    as H2.
  { intros i c ty. unfold bus_moved. destruct (broadcast _ _ _ _) as [xs|] eqn:Hb; [|done].
    destruct (serve _ _ _ _); [|done]. intros [= <- _]. apply mapM_Some_1, Forall2_length in Hb.
    cbn. by rewrite length_map, <- Hb, length_imap, length_insert. }
  assert (∀ x, directory_moved s x = Next s' obs → length (caches s') = length (caches s)) as H3.
  { intros [x|]; [|done]. unfold directory_moved. destruct (wake x); [|done].
    intros [= <- _]. apply deliver_length. }
  destruct l as [i e|i|i| | |i]; cbn [exec].
  - destruct (caches s !! i); [|done]. destruct (processor_event _ _); [apply H1|done].
  - destruct (caches s !! i) as [[a [|[ty b] rs] k v ds]|]; [done| |done].
    destruct (bus_free _ _ _); [apply H2|done].
  - destruct (caches s !! i) as [[a rs [|k] v ds]|]; [done| |done].
    destruct (bus_free _ _ _); [apply H2|done].
  - destruct (data_in (dir s)); [done|apply H3].
  - destruct (memory_queue (dir s)) as [|[r|v] q]; [done|apply H3..].
  - destruct (caches s !! i) as [[a rs k v [|d ds]]|]; [done|apply H1|done].
Qed.

Lemma reachable_length T n v s : reachable T n v s → length (caches s) = n.
Proof.
  unfold reachable. intros H. remember (initial n v) as s0 eqn:E.
  transitivity (length (caches s0)); [|rewrite E; apply length_replicate]. clear E.
  induction H as [|s1 s2 s3 [l w s' obs Hx] _ IH]; [done|]. by rewrite IH, (exec_length _ _ _ _ _ _ Hx).
Qed.

Lemma settles_work s s' : invariant s → settles s s' → invariant s' ∧ work s' < work s.
Proof.
  intros Hinv [l w s1 obs Hl Hx].
  pose proof (exec_good s l w Hinv) as Hg.
  rewrite Hx, Hl in Hg. destruct Hg as (? & _ & ?). auto.
Qed.

Lemma settles_progress s : invariant s → (∃ s', settles s s') ∨ settled s.
Proof.
  intros Hinv. destruct (progress s Hinv) as [(l & Hl & Hx)|?]; [left|by right].
  specialize (Hx (latest s)).
  pose proof (exec_good s l (latest s) Hinv) as Hg.
  destruct (exec in_slot s l (latest s)) as [| |s' obs] eqn:E; [done|done|].
  exists s'. by econstructor.
Qed.


End theorems.

(** ** Runs *)

Lemma run_reachable {V} T (s s' : t V) ls obs : run T s ls = Next s' obs → rtc (step T) s s'.
Proof.
  revert s. induction ls as [|[l w] ls IH]; intros s; cbn [run].
  - intros [= <- _]. apply rtc_refl.
  - destruct (exec T s l w) as [| |s1 obs1] eqn:E; [done|done|]. intros H.
    eapply rtc_l; [by econstructor|by apply IH].
Qed.

Lemma run_then {V} (P : t V → Prop) T n v ls :
  match run T (initial n v) ls with Next s _ => P s | _ => False end →
  ∃ s, reachable T n v s ∧ P s.
Proof.
  destruct (run T (initial n v) ls) as [| |s obs] eqn:E; [done|done|].
  intros H. exists s. split; [by eapply run_reachable|done].
Qed.

(** Processors that store leave [1], [2], ... in the line. *)
Definition numbered (ls : list label) : list (label * nat) := imap (λ k l, (l, S k)) ls.

Definition late_data : list label :=
  [Processor 0 L1Cache.Event_Store; Grant 0; Memory_done; Data_to_cache 0;
   Processor 0 L1Cache.Event_Replacement; Grant_writeback 0; Processor 0 L1Cache.Event_Store].

Definition late_memory : list label :=
  [Processor 0 L1Cache.Event_Load; Processor 1 L1Cache.Event_Load; Grant 0; Grant 1;
   Memory_done; Data_to_cache 0; Processor 0 L1Cache.Event_Store; Grant 0;
   Processor 0 L1Cache.Event_Replacement; Grant_writeback 0].

Definition late_side : list label :=
  [Processor 0 L1Cache.Event_Load; Processor 1 L1Cache.Event_Store; Grant 0; Memory_done;
   Data_to_cache 0; Processor 0 L1Cache.Event_Store; Grant 1; Memory_done; Data_to_cache 1;
   Processor 1 L1Cache.Event_Replacement; Grant_writeback 1; Processor 1 L1Cache.Event_Load;
   Data_to_directory; Memory_done; Grant 0; Grant 1].

(** C18: the timing is needed.  When write-back data, accesses to the memory or the
    side packet of a lost upgrade may be late for the next grant, two caches reach an
    invalid transition that no processor starts. *)
Theorem late_answers_fatal T : T ≠ in_slot →
  ∃ s l, reachable T 2 0 s ∧ is_processor l = false ∧ exec T s l 0 = Fatal.
Proof.
  destruct T as [a b c]. intros HT.
  assert (∃ ls l, is_processor l = false ∧
    match run (mkTiming a b c) (initial 2 0) (numbered ls) with
    | Next s _ => exec (mkTiming a b c) s l 0 = Fatal | _ => False end) as (ls & l & Hl & H).
  { destruct a; [destruct b; [destruct c; [done|]|]|].
    - exists late_side, (Grant 0). by vm_compute.
    - exists late_memory, Data_to_directory. by destruct c; vm_compute.
    - exists late_data, (Grant 0). by destruct b, c; vm_compute. }
  destruct (run_then _ _ _ _ _ H) as (s & ? & ?). by exists s, l.
Qed.

Definition lost_upgrade : list label :=
  [Processor 0 L1Cache.Event_Load; Processor 1 L1Cache.Event_Store; Grant 0; Memory_done;
   Data_to_cache 0; Processor 0 L1Cache.Event_Store; Grant 1].

Definition overtaken_load : list label :=
  [Processor 0 L1Cache.Event_Load; Processor 1 L1Cache.Event_Store; Grant 0; Memory_done;
   Grant 1; Memory_done; Data_to_cache 1].

(** The overtaken load is real: a processor reads [0] after another processor has
    stored another value. *)
Theorem overtaken_load_old_value : ∃ s, reachable in_slot 2 0 s ∧ latest s ≠ 0 ∧
  ∃ s', exec in_slot s (Data_to_cache 0) 0 = Next s' [(0, 0)].
Proof.
  apply (run_then _ _ _ _ (numbered overtaken_load)). vm_compute. split; [done|].
  by eexists.
Qed.

(** ** Witnesses *)

Definition stored : list label :=
  [Processor 0 L1Cache.Event_Store; Processor 1 L1Cache.Event_Load; Grant 0; Memory_done;
   Data_to_cache 0].

Lemma single_writer_last_value_witness : ∃ s c c', reachable in_slot 2 0 s ∧
  caches s !! 0 = Some c ∧ caches s !! 1 = Some c' ∧ store_hits (st c) = true ∧
  load_hits (st c') = false ∧ block c = latest s ∧ latest s ≠ 0.
Proof.
  destruct (run_then (λ s,
    caches s !! 0 = Some (mkCache L1Cache.State_M [] 0 5 []) ∧
    caches s !! 1 = Some (mkCache L1Cache.State_IS_AD [(Request_GETS, false)] 0 0 []) ∧
    latest s ≠ 0) in_slot 2 0 (numbered stored)) as (s & Hr & H0 & H1 & Hl); [by vm_compute|].
  destruct (single_writer_last_value 2 0 s 0 1 _ _ Hr H0 H1) as [Hw Hv].
  eexists s, _, _. split; [exact Hr|]. split; [exact H0|]. split; [exact H1|].
  split; [reflexivity|]. split; [by apply Hw|]. split; [by apply Hv|exact Hl].
Defined.


(** Another processor takes the line over and reads what was stored. *)
Definition taken_over : list label :=
  stored ++ [Grant 1; Grant_writeback 0; Data_to_directory; Memory_done; Memory_done].

Lemma observed_last_value_witness : ∃ s s' u, reachable in_slot 2 0 s ∧
  exec in_slot s (Data_to_cache 1) 0 = Next s' [(1, u)] ∧ u = latest s ∧ u ≠ 0.
Proof.
  destruct (run_then (λ s, caches s !! 1 = Some (mkCache L1Cache.State_IS_D [] 0 0 [5]) ∧
    ∃ s', exec in_slot s (Data_to_cache 1) 0 = Next s' [(1, 5)])
    in_slot 2 0 (numbered taken_over)) as (s & Hr & H1 & s' & Hx); [by vm_compute; eauto|].
  exists s, s', 5. split; [exact Hr|]. split; [exact Hx|].
  destruct (observed_last_value 2 0 s _ 0 s' [(1, 5)] 1 5 Hr Hx) as [E|(c & Hc & Hst)];
    [apply list_elem_of_here|by split|]. rewrite H1 in Hc. by injection Hc as <-.
Defined.


Lemma late_answers_fatal_witness : ∃ s l, reachable (mkTiming true false true) 2 0 s ∧
  is_processor l = false ∧ exec (mkTiming true false true) s l 0 = Fatal.
Proof. by apply (late_answers_fatal (mkTiming true false true)). Defined.
