(* ===== verification/FunctionalProof.v ===== *)
(** * Functional accesses are coherent (proofs about [Functional])

    The choice of where to read, against the interface of the controllers.  For the
    protocol of [Coherence]: a functional read returns the last value stored, unless a
    write-back is on its way to the memory.  For the controllers themselves: a functional
    write is what a functional read returns. *)

From S2P Require Import Prelude IntMath Addresses NodeSets Destinations Clocks StdHeap Buffers Arbiter.
From S2P Require Import Blocks Policies Caches Tables MsiTables Controllers DirectoryMemory Messages Sequencer.
From S2P Require Import Packets PacketQueues Machines Dma DirController L1Controller Functional.
From S2P Require Import Pointers L1Safety DirSafety DirRuns Coherence CoherenceProof.
Import Blocks.
Local Open Scope Z_scope.

(** ** Where a functional read goes *)

Section choice.
Context {C M : Type} `{Reader C M} (sys : RubySystem.t).
Implicit Types (c : C) (cs : list C) (m : M) (a : Z) (p : packet) (x : AccessPermission) (xs : list AccessPermission).

(** The controller answers [x] and is not changed by the question. *)
Definition answers a x c : Prop := getAccessPermission a c = Ok (x, c).

Lemma permissions_answers a xs cs : Forall2 (answers a) xs cs → RubyAccess.permissions a cs = Ok (xs, cs).
Proof.
  intros Hf. unfold RubyAccess.permissions.
  enough (∀ xs0 cs0, mfold (λ acc c, r ← getAccessPermission a c; Ok (acc.1 ++ [r.1], acc.2 ++ [r.2]))
    (xs0, cs0) cs = Ok (xs0 ++ xs, cs0 ++ cs)) as E by apply (E [] []).
  induction Hf as [|x c xs cs Hx _ IH]; intros xs0 cs0; [by rewrite !app_nil_r|].
  cbn [mfold]. unfold answers in Hx. rewrite Hx. cbn [mbind outcome_bind fst snd]. rewrite IH. by rewrite <- !app_assoc.
Qed.

Lemma permissions_length a cs xs cs' : RubyAccess.permissions a cs = Ok (xs, cs') → length xs = length cs.
Proof.
  unfold RubyAccess.permissions.
  enough (∀ xs0 cs0, mfold (λ acc c, r ← getAccessPermission a c; Ok (acc.1 ++ [r.1], acc.2 ++ [r.2]))
    (xs0, cs0) cs = Ok (xs, cs') → length xs = (length xs0 + length cs)%nat) as E by apply (E [] []).
  induction cs as [|c cs IH]; intros xs0 cs0; cbn [mfold].
  - intros [= <- _]. cbn. lia.
  - intros (acc & ([x c'] & _ & [= <-])%bind_Ok & ->%IH)%bind_Ok. rewrite length_app. cbn. lia.
Qed.

(** The first controller whose answer fits. *)
Fixpoint chosen (fit : AccessPermission → bool) xs cs : option C :=
  match xs, cs with
  | x :: xs, c :: cs => if fit x then Some c else chosen fit xs cs
  | _, _ => None
  end.

(** The controller that [functionalRead] reads from. *)
Definition source xs cs : option C :=
  if bool_decide (RubyAccess.count RubyAccess.is_absent xs = u32 (Z.of_nat (length xs) - 1)) &&
     bool_decide (RubyAccess.count RubyAccess.is_backing xs = 1)
  then chosen RubyAccess.is_backing xs cs
  else if bool_decide (0 < RubyAccess.count RubyAccess.is_read_only xs) ||
          bool_decide (RubyAccess.count RubyAccess.is_read_write xs = 1)
  then chosen (λ x, RubyAccess.is_read_only x || RubyAccess.is_read_write x) xs cs
  else None.

Definition read_from (o : option C) m a p : outcome (option packet) :=
  match o with Some c => q ← functionalRead c m a p; Ok (Some q) | None => Ok None end.

Lemma read_first_chosen fit a m p xs cs : Forall2 (answers a) xs cs →
  RubyAccess.read_first fit a m p cs = (q ← read_from (chosen fit xs cs) m a p; Ok (q, cs)).
Proof.
  induction 1 as [|x c xs cs Hx _ IH]; [done|]. cbn [RubyAccess.read_first chosen].
  unfold answers in Hx. rewrite Hx. cbn [mbind outcome_bind fst snd]. destruct (fit x); cbn [read_from].
  - by destruct (functionalRead c m a p).
  - rewrite IH. by destruct (read_from _ m a p).
Qed.

Lemma functionalRead_source (s : RubyAccess.t C M) p xs :
  Forall2 (answers (Address.makeLineAddress sys (pkt_addr p))) xs (RubyAccess.m_abs_cntrl_vec s) →
  RubyAccess.functionalRead sys s p =
    (assert_that (bool_decide (RubyAccess.count RubyAccess.is_read_write xs ≤ 1));;
    q ← read_from (source xs (RubyAccess.m_abs_cntrl_vec s)) (RubyAccess.memory s)
          (Address.makeLineAddress sys (pkt_addr p)) p;
    Ok (q, s)).
Proof.
  intros Hf. unfold RubyAccess.functionalRead. rewrite (permissions_answers _ xs) by done.
  cbn [mbind outcome_bind fst snd]. destruct (assert_that _); [|done]. cbn [mbind outcome_bind].
  unfold source. rewrite <- (Forall2_length _ _ _ Hf).
  destruct s as [cs m net]. cbn [RubyAccess.m_abs_cntrl_vec RubyAccess.memory RubyAccess.m_network] in *.
  destruct (_ && _); [|destruct (_ || _); [|done]]; rewrite (read_first_chosen _ _ _ _ xs) by done;
    by destruct (read_from _ m _ p).
Qed.

Lemma chosen_fits fit xs cs c : chosen fit xs cs = Some c →
  ∃ i x, xs !! i = Some x ∧ cs !! i = Some c ∧ fit x = true.
Proof.
  revert cs. induction xs as [|x xs IH]; intros [|c' cs]; try done. cbn [chosen].
  destruct (fit x) eqn:E; [intros [= <-]; by exists 0%nat, x|].
  intros (i & x' & ?)%IH. by exists (S i), x'.
Qed.

Lemma chosen_exists fit xs cs : length xs = length cs →
  is_Some (chosen fit xs cs) ↔ existsb fit xs = true.
Proof.
  revert cs. induction xs as [|x xs IH]; intros [|c cs] Hl; try done; cbn [chosen existsb].
  - split; [by intros []|done].
  - destruct (fit x); cbn; [by eauto|]. apply IH. by injection Hl.
Qed.

End choice.

(** ** Functional reads of a coherent system *)

Lemma filter_le_one {A} (P : A → Prop) `{∀ x, Decision (P x)} (l : list A) :
  (∀ i j x y, l !! i = Some x → l !! j = Some y → P x → P y → i = j) → (length (filter P l) ≤ 1)%nat.
Proof.
  induction l as [|x l IH]; intros Hu; [cbn; lia|]. rewrite filter_cons. case_decide as Hx.
  - destruct (filter P l) as [|y l'] eqn:E; [cbn; lia|].
    assert (y ∈ filter P l) as [Hy [j Hj]%list_elem_of_lookup]%list_elem_of_filter
      by (rewrite E; apply list_elem_of_here).
    specialize (Hu 0%nat (S j) x y eq_refl Hj Hx Hy). done.
  - apply IH. intros i j y z Hi Hj Hy Hz. specialize (Hu (S i) (S j) y z Hi Hj Hy Hz). by injection Hu.
Qed.

Section coherent.
Context (sys : RubySystem.t).

(** The controllers of [Coherence]: their permission is that of their state, and they read
    from their copy of the line or from the memory, as [L1Controller.functionalRead] and
    [DirController.functionalRead] do for a line that has no transaction. *)
Inductive party : Type :=
  | Cache_party (c : System.cache DataBlock.t)
  | Directory_party (d : System.directory DataBlock.t).

Definition permission (x : party) : AccessPermission :=
  match x with
  | Cache_party c => L1Cache.State_to_permission (System.st c)
  | Directory_party d => Directory.State_to_permission (System.dst d)
  end.

Definition bytes_at (x : party) : DataBlock.t :=
  match x with Cache_party c => System.block c | Directory_party d => System.memory d end.

#[export] Instance party_reader : Reader party unit := {|
  getAccessPermission _ := λ x, Ok (permission x, x);
  functionalRead x _ a p := o ← testAndRead sys a (bytes_at x) p; Ok (default p o) |}.

(** These are the reads of the controllers: a cache without a transaction for the line reads
    its entry, and a directory without one asks the memory, whatever is queued in its port. *)
Lemma l1_reads_entry (l1 : L1Controller.t) a p r e c : L1Controller.tbe_ptr l1 a = None →
  L1Controller.getL1CacheEntry sys l1 a = Ok r → L1Controller.deref_entry sys l1 r = Ok e →
  L1Controller.DataBlk e = System.block c →
  L1Controller.functionalRead sys l1 a p = functionalRead (Cache_party c) tt a p.
Proof.
  intros Ht Hr He Hb. unfold L1Controller.functionalRead. rewrite Ht, Hr. cbn [mbind outcome_bind].
  rewrite He. cbn [mbind outcome_bind]. by rewrite Hb.
Qed.

Lemma directory_reads_memory {M} `{FunctionalMemory M} (dir : DirController.t) (m : M) a p o d :
  DirController.tbe_ptr dir a = None → testAndRead sys a (System.memory d) p = Ok o →
  mem_read m p = default p o →
  DirController.functionalRead sys dir m a p = functionalRead (Directory_party d) tt a p.
Proof.
  intros Ht Ho Hm. unfold DirController.functionalRead, DirController.functionalMemoryRead. rewrite Ht, Hm.
  cbn. by rewrite Ho.
Qed.

Definition parties (s : System.t DataBlock.t) : list party :=
  (Cache_party <$> System.caches s) ++ [Directory_party (System.dir s)].

Definition readable (x : AccessPermission) : bool := RubyAccess.is_read_only x || RubyAccess.is_read_write x.

(** No write-back is on its way to the memory. *)
Definition memory_settled (s : System.t DataBlock.t) : Prop :=
  ∀ b, System.MemWrite b ∉ System.memory_queue (System.dir s).

Lemma parties_lookup s i x : parties s !! i = Some x →
  (∃ c, System.caches s !! i = Some c ∧ x = Cache_party c) ∨
  (i = length (System.caches s) ∧ x = Directory_party (System.dir s)).
Proof.
  unfold parties. intros [Hi|[Hl Hi]]%lookup_app_Some.
  - left. rewrite list_lookup_fmap in Hi. destruct (System.caches s !! i) as [c|]; [|done]. exists c.
    by injection Hi.
  - right. rewrite length_fmap in Hl, Hi. apply list_lookup_singleton_Some in Hi as [Hi <-].
    split; [lia|done].
Qed.

Lemma cache_writable r (c : System.cache DataBlock.t) : local_ok r c →
  L1Cache.State_to_permission (System.st c) = Read_Write → r = Owns.
Proof.
  apply (local_cases (λ r a _ _ _, L1Cache.State_to_permission a = Read_Write → r = Owns)).
  each_situation; intros ds _; by vm_compute.
Qed.

Lemma cache_readable r (c : System.cache DataBlock.t) : local_ok r c →
  readable (L1Cache.State_to_permission (System.st c)) = true → valid (System.st c) = true.
Proof.
  apply (local_cases (λ r a _ _ _, readable (L1Cache.State_to_permission a) = true → valid a = true)).
  each_situation; intros ds _; by vm_compute.
Qed.

Lemma no_backing x : RubyAccess.is_backing (permission x) = false.
Proof. by destruct x as [[[] ? ? ? ?]|[[] ? ? ? ? ?]]. Qed.

Lemma no_backings cs : existsb RubyAccess.is_backing (permission <$> cs) = false.
Proof. induction cs as [|x cs IH]; [done|]. cbn [existsb fmap list_fmap]. by rewrite no_backing. Qed.

(** The directory can be read only when it owns the line. *)
Lemma directory_readable v (d : System.directory DataBlock.t) : dir_shape v d →
  readable (Directory.State_to_permission (System.dst d)) = true →
  holder d = None ∧ fresh (System.memory_queue d) (System.memory d) v.
Proof. by destruct 1. Qed.

(** At most one controller can write. *)
Lemma one_writer s : invariant s →
  ∀ i j x y, parties s !! i = Some x → parties s !! j = Some y →
  permission x = Read_Write → permission y = Read_Write → i = j.
Proof.
  intros Hinv i j x y Hx Hy Px Py.
  assert (∀ k z, parties s !! k = Some z → permission z = Read_Write →
    holder (System.dir s) = Some k ∨ (k = length (System.caches s) ∧ holder (System.dir s) = None)) as Hw.
  { intros k z [(c & Hc & ->)|[-> ->]]%parties_lookup Hz; cbn [permission] in Hz.
    - left. by eapply owns_holder, cache_writable, Hz; apply (inv_local _ Hinv).
    - right. split; [done|]. eapply directory_readable; [apply (inv_dir _ Hinv)|]. by rewrite Hz. }
  destruct (Hw i x Hx Px) as [Hi|[-> Hi]], (Hw j y Hy Py) as [Hj|[-> Hj]]; congruence.
Qed.

(** Who can be read has the last value. *)
Lemma readable_current s x : invariant s → memory_settled s → x ∈ parties s →
  readable (permission x) = true → bytes_at x = System.latest s.
Proof.
  intros Hinv Hm [i Hi]%list_elem_of_lookup Hr.
  apply parties_lookup in Hi as [(c & Hc & ->)|[-> ->]]; cbn [permission bytes_at] in *.
  - apply (inv_data _ Hinv i c Hc). eapply cache_readable; [|done]. by apply (inv_local _ Hinv).
  - destruct (directory_readable _ _ (inv_dir _ Hinv) Hr) as [_ [[_ ->]|Hq]]; [done|].
    exfalso. apply (Hm (System.latest s)). rewrite Hq. apply list_elem_of_here.
Qed.

Lemma count_le f (xs : list AccessPermission) : Z.of_nat (length xs) < 2 ^ 32 →
  RubyAccess.count f xs = Z.of_nat (length (filter f xs)).
Proof.
  intros Hl. unfold RubyAccess.count, u32. apply uwrap_id. unfold fits.
  pose proof (length_filter f xs). lia.
Qed.

Lemma count_pos f (xs : list AccessPermission) : Z.of_nat (length xs) < 2 ^ 32 →
  0 < RubyAccess.count f xs ↔ existsb f xs = true.
Proof.
  intros Hl. rewrite count_le by done. clear Hl. induction xs as [|x xs IH]; [done|].
  rewrite filter_cons. cbn [existsb]. destruct (f x) eqn:E.
  - rewrite decide_True by done. cbn [length orb]. split; [done|intros _; lia].
  - rewrite decide_False by (intros []). exact IH.
Qed.

(** Without a backing store and with at most one writer, the first controller that can be read. *)
Lemma source_readable {C} (xs : list AccessPermission) (cs : list C) : length xs = length cs →
  Z.of_nat (length xs) < 2 ^ 32 → existsb RubyAccess.is_backing xs = false →
  RubyAccess.count RubyAccess.is_read_write xs ≤ 1 → source xs cs = chosen readable xs cs.
Proof.
  intros Hl Hn Hb Hw. unfold source. rewrite (bool_decide_eq_false_2 (RubyAccess.count RubyAccess.is_backing xs = 1)).
  2: { intros H. assert (existsb RubyAccess.is_backing xs = true) by (apply count_pos; [done|lia]). congruence. }
  rewrite andb_false_r. destruct (chosen readable xs cs) as [c|] eqn:E.
  - assert (existsb readable xs = true) as (x & Hx & Hr)%existsb_exists by (apply (chosen_exists _ _ cs); by rewrite ?E).
    replace (_ || _) with true; [done|symmetry]. apply orb_true_iff in Hr. rewrite orb_true_iff, !bool_decide_eq_true.
    destruct Hr as [Hr|Hr]; [left|right].
    + apply count_pos; [done|]. apply existsb_exists. by exists x.
    + assert (0 < RubyAccess.count RubyAccess.is_read_write xs) by (apply count_pos; [done|]; apply existsb_exists; by exists x).
      lia.
  - by destruct (_ || _).
Qed.

(** C16: in every reachable state of any number of caches, with the controllers in any order, a
    functional read does not fail its assertion, it succeeds exactly when some cache has a
    stable copy or the directory owns the line, and it returns the last value stored, as
    long as no write-back is on its way to the memory. *)
Theorem functional_read_last_value n v s cs net p q :
  System.reachable System.in_slot n v s → Z.of_nat n < 2 ^ 32 - 1 → cs ≡ₚ parties s →
  memory_settled s →
  testAndRead sys (Address.makeLineAddress sys (pkt_addr p)) (System.latest s) p = Ok (Some q) →
  RubyAccess.functionalRead sys (RubyAccess.mk cs tt net) p =
    Ok (if existsb (λ x, readable (permission x)) cs then Some q else None, RubyAccess.mk cs tt net).
Proof.
  intros Hr Hn Hcs Hm Hq. pose proof (reachable_invariant _ _ _ Hr) as Hinv.
  assert (Z.of_nat (length (permission <$> cs)) < 2 ^ 32) as Hlen.
  { rewrite length_fmap, Hcs. unfold parties. rewrite length_app, length_fmap, (reachable_length _ _ _ _ Hr).
    cbn. lia. }
  assert (RubyAccess.count RubyAccess.is_read_write (permission <$> cs) ≤ 1) as Hw.
  { rewrite count_le by done. enough (length (filter RubyAccess.is_read_write (permission <$> cs)) ≤ 1)%nat by lia.
    rewrite Hcs. apply filter_le_one. intros i j x y Hi Hj Hx Hy. rewrite list_lookup_fmap in Hi, Hj.
    apply fmap_Some in Hi as (x' & Hi & ->), Hj as (y' & Hj & ->).
    eapply (one_writer s); [done|exact Hi|exact Hj|by destruct (permission x')|by destruct (permission y')]. }
  rewrite (functionalRead_source sys _ p (permission <$> cs))
    by (apply Forall2_fmap_l, Forall_Forall2_diag, Forall_true; done).
  cbn [RubyAccess.m_abs_cntrl_vec RubyAccess.memory].
  rewrite bool_decide_eq_true_2 by done. cbn [assert_that mbind outcome_bind].
  rewrite source_readable; [|by rewrite length_fmap|done|by apply no_backings|done].
  destruct (chosen readable (permission <$> cs) cs) as [x|] eqn:E.
  - pose proof E as (i & px & Hpx & Hi & Hx)%chosen_fits.
    rewrite list_lookup_fmap, Hi in Hpx. injection Hpx as <-.
    assert (x ∈ cs) as Hin by (apply list_elem_of_lookup; by exists i).
    replace (existsb _ cs) with true by (symmetry; apply existsb_exists; exists x; by rewrite <- list_elem_of_In).
    cbn [read_from functionalRead party_reader]. rewrite (readable_current s) by (done || by rewrite <- Hcs).
    by rewrite Hq.
  - replace (existsb _ cs) with false; [done|symmetry]. apply not_true_is_false.
    intros (x & Hx%list_elem_of_In & Hr')%existsb_exists.
    assert (existsb readable (permission <$> cs) = true) as He.
    { apply existsb_exists. exists (permission x). rewrite <- list_elem_of_In. split; [by apply list_elem_of_fmap_2|done]. }
    apply (chosen_exists _ _ cs) in He as [? He]; [congruence|apply length_fmap].
Qed.

End coherent.

(** A line with the same byte everywhere, and a network without messages. *)
Definition filled (k : Z) : DataBlock.t := DataBlock.mk (replicate 64 k) true.
Definition quiet : SimpleNetwork.t := SimpleNetwork.mk [] [].

(** A cache stores. *)
Definition stored_7 : list (System.label * DataBlock.t) :=
  (λ l, (l, filled 7)) <$> [System.Processor 0 L1Cache.Event_Store; System.Grant 0; System.Memory_done;
    System.Data_to_cache 0].
#[local] Abbreviation read_parties s p :=
  (@RubyAccess.functionalRead _ _ sys64 (party_reader sys64) (RubyAccess.mk (parties s) tt quiet) p).

(** ** Witnesses for the protocol *)

Lemma functional_read_last_value_witness : ∃ s, System.reachable System.in_slot 2 (filled 0) s ∧
  read_parties s (mkPacket 4098 2 [1; 1]) = Ok (Some (mkPacket 4098 2 [7; 7]), RubyAccess.mk (parties s) tt quiet).
Proof.
  destruct (run_then (λ s, System.caches s = [System.mkCache L1Cache.State_M [] 0 (filled 7) [];
      System.mkCache L1Cache.State_I [] 0 (filled 0) []] ∧
    System.memory_queue (System.dir s) = [] ∧ System.latest s = filled 7)
    System.in_slot 2 (filled 0) stored_7) as (s & Hr & Hc & Hq & Hl); [by vm_compute|].
  exists s. split; [exact Hr|].
  rewrite (functional_read_last_value sys64 2 (filled 0) s (parties s) quiet _ (mkPacket 4098 2 [7; 7]) Hr).
  - unfold parties. by rewrite Hc.
  - lia.
  - done.
  - unfold memory_settled. rewrite Hq. intros b. apply not_elem_of_nil.
  - rewrite Hl. by vm_compute.
Defined.

(** ** A functional write is what a functional read returns *)

(** A packet whose bytes lie in one line. *)
Definition packet_ok (sys : RubySystem.t) (p : packet) : Prop :=
  fits 64 (pkt_addr p) ∧ pkt_size p = Z.of_nat (length (pkt_data p)) ∧
  pkt_addr p `mod` RubySystem.getBlockSizeBytes sys + pkt_size p ≤ RubySystem.getBlockSizeBytes sys.

(** What is assumed of the memory: it returns what was written. *)
Class MemoryLaws (M : Type) `{FunctionalMemory M} (sys : RubySystem.t) : Prop :=
  read_written (m : M) p l : packet_ok sys p → length l = length (pkt_data p) →
    mem_read (mem_write m p) (with_bytes p l) = p.

(** The memory now, or after other writes of the packet. *)
Definition now_or_written {M} `{FunctionalMemory M} (m : M) (p : packet) (m' : M) : Prop :=
  m' = m ∨ ∃ m0, m' = mem_write m0 p.

(** What the controllers promise to functional accesses: questions about permissions do not
    change the answers, nor do writes, and a controller that was written returns the bytes. *)
Class ControllerLaws (C M : Type) `{Controller C M} `{FunctionalMemory M} (sys : RubySystem.t)
    (ok : C → Prop) : Prop := {
  permission_again a c x c' : Caches.line sys a → ok c → getAccessPermission a c = Ok (x, c') →
    ok c' ∧ answers a x c';
  buffers_aside p c n c' a x c1 : ok c → functionalWriteBuffers p c = Ok (n, c') →
    getAccessPermission a c = Ok (x, c1) → ok c' ∧ ∃ c1', getAccessPermission a c' = Ok (x, c1');
  write_reads_back a p c x n m c' m' : Caches.line sys a → a = Address.makeLineAddress sys (pkt_addr p) →
    packet_ok sys p → ok c → answers a x c → functionalWrite c m a p = Ok (n, (c', m')) →
    ok c' ∧ answers a x c' ∧ now_or_written m p m' ∧
    ∀ l m3, length l = length (pkt_data p) → now_or_written m' p m3 →
      functionalRead c' m3 a (with_bytes p l) = Ok p }.

Section roundtrip.
Context {C M : Type} `{ControllerLaws C M sys ok} `{!MemoryLaws M sys}.
Implicit Types (c : C) (cs : list C) (m : M) (p : packet) (x : AccessPermission) (xs : list AccessPermission).

(** What a controller answers when asked. *)
Definition would_answer a c x : Prop := ∃ c', getAccessPermission a c = Ok (x, c').

Lemma permissions_would a cs xs cs' : Caches.line sys a → Forall ok cs → RubyAccess.permissions a cs = Ok (xs, cs') →
  Forall2 (would_answer a) cs xs ∧ Forall2 (answers a) xs cs' ∧ Forall ok cs'.
Proof.
  intros Hline Hok. unfold RubyAccess.permissions.
  enough (∀ xs0 cs0, mfold (λ acc c, r ← getAccessPermission a c; Ok (acc.1 ++ [r.1], acc.2 ++ [r.2]))
    (xs0, cs0) cs = Ok (xs, cs') → ∃ xs1 cs1, xs = xs0 ++ xs1 ∧ cs' = cs0 ++ cs1 ∧
    Forall2 (would_answer a) cs xs1 ∧ Forall2 (answers a) xs1 cs1 ∧ Forall ok cs1) as E.
  { intros (xs1 & cs1 & -> & -> & ?)%(E [] []). done. }
  induction Hok as [|c cs Hc _ IH]; intros xs0 cs0; cbn [mfold].
  { intros [= <- <-]. exists [], []. by rewrite !app_nil_r. }
  intros (acc & ([x c'] & Hx & [= <-])%bind_Ok & (xs1 & cs1 & -> & -> & Hf1 & Hf2 & Hf3)%IH)%bind_Ok.
  destruct (permission_again a c x c' Hline Hc Hx) as [? ?].
  exists (x :: xs1), (c' :: cs1). cbn. rewrite <- !app_assoc. split_and!; [done|done|..]; try by constructor.
  constructor; [by exists c'|done].
Qed.

(** A controller that was written: its answer, and what it returns. *)
Definition returns a p l m x c : Prop :=
  RubyAccess.is_absent x = false → ∀ m3, now_or_written m p m3 → functionalRead c m3 a (with_bytes p l) = Ok p.

Lemma write_controller_returns a p l c x m n c' m' : Caches.line sys a → a = Address.makeLineAddress sys (pkt_addr p) →
  packet_ok sys p → length l = length (pkt_data p) → ok c → would_answer a c x →
  RubyAccess.write_controller a p c m = Ok (n, (c', m')) →
  ok c' ∧ answers a x c' ∧ now_or_written m p m' ∧ returns a p l m' x c'.
Proof.
  intros Hline Ha Hp Hl Hc [c0 Hx] ([k c1] & Hb & ([y c2] & Hy & Hw)%bind_Ok)%bind_Ok. cbn [fst snd] in *.
  destruct (buffers_aside p c k c1 a x c0 Hc Hb Hx) as [Hc1 [c3 Hx']].
  rewrite Hx' in Hy. injection Hy as <- <-. destruct (permission_again a c1 x c3 Hline Hc1 Hx') as [Hc3 Han].
  destruct (RubyAccess.is_absent x) eqn:E.
  - injection Hw as _ <- <-. unfold returns. rewrite E. split_and!; [done|done|by left|done].
  - apply bind_Ok in Hw as ([k' [c4 m4]] & Hw & [= _ <- <-]).
    destruct (write_reads_back a p c3 x k' m c4 m4 Hline Ha Hp Hc3 Han Hw) as (? & ? & ? & Hr).
    split_and!; [done|done|done|]. intros _ m3. by apply Hr.
Qed.

Lemma returns_later a p l m m' x c : now_or_written m p m' → returns a p l m x c → returns a p l m' x c.
Proof.
  intros Hm Hr Hx m3 [->|Hm3]; apply Hr; [done|exact Hm|done|by right].
Qed.

Lemma source_present xs cs c : source xs cs = Some c →
  ∃ i x, xs !! i = Some x ∧ cs !! i = Some c ∧ RubyAccess.is_absent x = false.
Proof.
  unfold source. intros Hs.
  assert (∃ fit, chosen fit xs cs = Some c ∧ ∀ x, fit x = true → RubyAccess.is_absent x = false) as (fit & Hc & Hf).
  { destruct (_ && _); [|destruct (_ || _); [|done]]; eexists; (split; [exact Hs|]); by intros []. }
  apply chosen_fits in Hc as (i & x & ? & ? & ?). exists i, x. auto.
Qed.

Lemma source_same xs cs cs' : length xs = length cs → length xs = length cs' →
  is_Some (source xs cs) ↔ is_Some (source xs cs').
Proof.
  intros Hl1 Hl2. unfold source. destruct (_ && _); [|destruct (_ || _); [|done]]; by rewrite !chosen_exists.
Qed.

(** The loop over the controllers. *)
Lemma writes_return p l cs xs n m n' cs' m' a : Caches.line sys a → a = Address.makeLineAddress sys (pkt_addr p) →
  packet_ok sys p → length l = length (pkt_data p) → Forall ok cs → Forall2 (would_answer a) cs xs →
  mfold (λ (acc : Z * list C * M) c,
    w ← RubyAccess.write_controller a p c acc.2;
    Ok (u32 (acc.1.1 + w.1), acc.1.2 ++ [w.2.1], w.2.2)) (n, [], m) cs = Ok (n', cs', m') →
  Forall2 (answers a) xs cs' ∧ Forall2 (returns a p l m') xs cs'.
Proof.
  intros Hline Ha Hp Hl Hok Hxs.
  enough (∀ cs0 n m, mfold (λ (acc : Z * list C * M) c,
    w ← RubyAccess.write_controller a p c acc.2;
    Ok (u32 (acc.1.1 + w.1), acc.1.2 ++ [w.2.1], w.2.2)) (n, cs0, m) cs = Ok (n', cs', m') →
    ∃ cs1, cs' = cs0 ++ cs1 ∧ now_or_written m p m' ∧
      Forall2 (answers a) xs cs1 ∧ Forall2 (returns a p l m') xs cs1) as E.
  { intros (cs1 & -> & _ & ?)%E. done. }
  clear n m. revert Hok. induction Hxs as [|c x cs xs Hx _ IH]; intros Hok cs0 n m; cbn [mfold].
  { intros [= _ <- <-]. exists []. rewrite app_nil_r. split_and!; [done|by left|constructor..]. }
  apply Forall_cons in Hok as [Hc Hok].
  intros (acc & ([k [c1 m1]] & Hw & [= <-])%bind_Ok & (cs1 & -> & Hm & Hf1 & Hf2)%(IH Hok))%bind_Ok.
  destruct (write_controller_returns a p l c x m k c1 m1) as (_ & Hans & Hm1 & Hr); [done..|].
  exists (c1 :: cs1). rewrite <- app_assoc. cbn [fst snd app] in *. split_and!; [done| |by constructor|].
  - destruct Hm as [->|Hm]; [done|by right].
  - constructor; [by eapply returns_later|done].
Qed.

(** A read gives the same after all controllers have been asked. *)
Lemma functionalRead_asked (s s1 : RubyAccess.t C M) p o xs cs :
  RubyAccess.permissions (Address.makeLineAddress sys (pkt_addr p)) (RubyAccess.m_abs_cntrl_vec s) = Ok (xs, cs) →
  Forall2 (answers (Address.makeLineAddress sys (pkt_addr p))) xs cs →
  RubyAccess.functionalRead sys s p = Ok (o, s1) →
  RubyAccess.count RubyAccess.is_read_write xs ≤ 1 ∧
  (is_Some o ↔ is_Some (source xs cs)).
Proof.
  intros Hp Hans Hr.
  assert (RubyAccess.functionalRead sys (RubyAccess.mk cs (RubyAccess.memory s) (RubyAccess.m_network s)) p =
    Ok (o, s1)) as Hr'.
  { rewrite <- Hr. unfold RubyAccess.functionalRead. cbn [RubyAccess.m_abs_cntrl_vec RubyAccess.memory].
    rewrite Hp, (permissions_answers _ xs) by done. cbn [mbind outcome_bind fst snd].
    replace (length cs) with (length (RubyAccess.m_abs_cntrl_vec s)); [done|].
    rewrite <- (Forall2_length _ _ _ Hans). by apply permissions_length in Hp. }
  rewrite (functionalRead_source sys _ p xs) in Hr' by done.
  apply bind_Ok in Hr' as (u & Hw%assert_that_Ok%bool_decide_eq_true & (q & Hq & [= -> _])%bind_Ok).
  split; [done|]. cbn [RubyAccess.m_abs_cntrl_vec] in Hq. destruct (source xs cs) as [c|]; cbn [read_from] in Hq.
  - apply bind_Ok in Hq as (q' & _ & [= <-]). split; intros _; by eexists.
  - by injection Hq as <-.
Qed.

(** The system's round trip, for any controllers that keep their promises. *)
Lemma write_read_roundtrip (s s' s1 : RubyAccess.t C M) p l o b :
  Caches.line sys (Address.makeLineAddress sys (pkt_addr p)) → packet_ok sys p → length l = length (pkt_data p) →
  Forall ok (RubyAccess.m_abs_cntrl_vec s) →
  RubyAccess.functionalRead sys s (with_bytes p l) = Ok (o, s1) →
  RubyAccess.functionalWrite sys s p = Ok (b, s') →
  RubyAccess.functionalRead sys s' (with_bytes p l) = Ok ((λ _, p) <$> o, s').
Proof.
  intros Hline Hp Hl Hok Hr Hw. set (a := Address.makeLineAddress sys (pkt_addr p)) in *.
  assert (∃ xs cs, RubyAccess.permissions a (RubyAccess.m_abs_cntrl_vec s) = Ok (xs, cs)) as (xs & cs & Hxs).
  { apply bind_Ok in Hr as ([xs cs] & Hxs & _). by exists xs, cs. }
  destruct (permissions_would a _ xs cs Hline Hok Hxs) as (Hwould & Hans & _).
  destruct (functionalRead_asked s s1 (with_bytes p l) o xs cs Hxs Hans Hr) as [Hrw Ho].
  apply bind_Ok in Hw as ([[n cs'] m'] & Hw & ([k net] & _ & [= _ <-])%bind_Ok).
  destruct (writes_return p l _ xs 0 _ n cs' m' a Hline eq_refl Hp Hl Hok Hwould Hw) as [Hans' Hret].
  rewrite (functionalRead_source sys _ (with_bytes p l) xs) by exact Hans'.
  cbn [RubyAccess.m_abs_cntrl_vec RubyAccess.memory fst snd]. rewrite bool_decide_eq_true_2 by done.
  cbn [assert_that mbind outcome_bind]. rewrite (source_same xs cs cs') in Ho by by eapply Forall2_length.
  destruct (source xs cs') as [c|] eqn:Hs; cbn [read_from].
  - destruct Ho as [_ Ho]. destruct Ho as [q ->]; [by eexists|].
    apply source_present in Hs as (i & x & Hxi & Hci & Hx).
    pose proof (Forall2_lookup_lr _ _ _ _ _ _ Hret Hxi Hci) as Hc.
    change (pkt_addr (with_bytes p l)) with (pkt_addr p). fold a. by rewrite (Hc Hx m' (or_introl eq_refl)).
  - destruct o as [q|]; [|done]. destruct Ho as [Ho _]. destruct Ho; [by eexists|done].
Qed.

End roundtrip.

(** ** The controllers of the protocol keep their promises *)

Section machines.
Context (sys : RubySystem.t) (Hgeo : Address.geometry sys).
Context (counts : list Z) (junk : Z) (dirs : DirectoryMemory.statics).
Context {M : Type} `{FunctionalMemory M} `{!MemoryLaws M sys}.
Implicit Types (a : Z) (p : packet) (m : M).

(** What is written to a block of the line is read from it. *)
Lemma block_reads_back a p b o l : Caches.line sys a → a = Address.makeLineAddress sys (pkt_addr p) → packet_ok sys p →
  length l = length (pkt_data p) → testAndWrite sys a b p = Ok o →
  ∃ b', o = Some b' ∧ testAndRead sys a b' (with_bytes p l) = Ok (Some p).
Proof using Hgeo.
  intros [_ Hline] Ha (Hp & Hsz & Hin) Hl Hw. destruct o as [b'|].
  - exists b'. split; [done|]. by eapply (written_read_back sys Hgeo).
  - unfold testAndWrite in Hw. rewrite decide_True in Hw; [by apply bind_Ok in Hw as (? & _ & ?)|].
    rewrite <- Ha. exact Hline.
Qed.

(** *** Caches *)

Definition l1_caches_ok (s : L1Controller.t) : Prop := ∀ d, cache_ok sys (L1Controller.cache_of s d).

Lemma l1_buffers_aside (c : AbstractController.t payload → outcome (Z * AbstractController.t payload)) s n s' a :
  L1Controller.on_abs c s = Ok (n, s') →
  (l1_caches_ok s → l1_caches_ok s') ∧
  L1Controller.getAccessPermission sys s' a = L1Controller.getAccessPermission sys s a.
Proof.
  intros (n0 & (c0 & _ & ->)%zoom_Ok & ->)%zoom_Ok. split; [|done]. intros Hok d. by destruct d; [apply (Hok true)|apply (Hok false)].
Qed.

Lemma l1_write_tbe a p s x b : TBETable.lookup (L1Controller.TBEs s) a = Some x →
  let s' := L1Controller.with_TBEs s (TBETable.update_entry (L1Controller.TBEs s) a
    (λ x, L1Controller.tbe_with_block x b (L1Controller.tbe_Dirty x) (L1Controller.tbe_isAtomic x))) in
  L1Controller.getAccessPermission sys s' a = L1Controller.getAccessPermission sys s a ∧
  L1Controller.functionalRead sys s' a p = (o ← testAndRead sys a b p; Ok (default p o)).
Proof.
  intros Hx s'. unfold L1Controller.getAccessPermission, L1Controller.functionalRead, L1Controller.tbe_ptr, L1Controller.deref_tbe.
  unfold s'. cbn [L1Controller.TBEs L1Controller.with_TBEs]. rewrite lookup_update_tbe, decide_True, Hx by done.
  cbn [fmap option_fmap option_map from_option_or mbind outcome_bind]. rewrite lookup_update_tbe, decide_True, Hx by done.
  done.
Qed.

(** The entry of a line: in the data cache, or else in the instruction cache. *)
Definition entry_in (s : L1Controller.t) (d : bool) a (e : AbstractCacheEntry.t L1Controller.Entry) : Prop :=
  contents_at (L1Controller.cache_of s d) a = Some e ∧
  (d = false → contents_at (L1Controller.cache_of s true) a = None).

Lemma getL1CacheEntry_in s a r : Caches.line sys a → l1_caches_ok s →
  L1Controller.getL1CacheEntry sys s a = Ok (Some r) ↔ ∃ d e, r = (d, a) ∧ entry_in s d a e.
Proof.
  intros Ha Hok. unfold L1Controller.getL1CacheEntry, L1Controller.getDCacheEntry, L1Controller.getICacheEntry,
    L1Controller.cache_ptr, entry_in. rewrite !lookup_eq by done. cbn [mbind outcome_bind].
  destruct (contents_at (L1Controller.cache_of s true) a) as [e|] eqn:E1.
  - split; [intros [= <-]; exists true, e; by rewrite E1|].
    intros ([] & e' & -> & He & Hd); [done|]. by specialize (Hd eq_refl).
  - destruct (contents_at (L1Controller.cache_of s false) a) as [e|] eqn:E2.
    + split; [intros [= <-]; by exists false, e|]. intros ([] & e' & -> & He & _); [by rewrite E1 in He|done].
    + split; [done|]. intros ([] & e' & -> & He & _); [by rewrite E1 in He|by rewrite E2 in He].
Qed.

Lemma deref_entry_in s d a e : Caches.line sys a → l1_caches_ok s → entry_in s d a e →
  L1Controller.deref_entry sys s (Some (d, a)) = Ok (AbstractCacheEntry.data e).
Proof.
  intros Ha Hok [He _]. unfold L1Controller.deref_entry. cbn [from_option_or mbind outcome_bind fst snd].
  by rewrite lookup_eq, He.
Qed.

Lemma update_data_in s d a e f u s' : Caches.line sys a → l1_caches_ok s → entry_in s d a e →
  L1Controller.update_data sys (Some (d, a)) f s = Ok (u, s') →
  l1_caches_ok s' ∧ L1Controller.TBEs s' = L1Controller.TBEs s ∧
  entry_in s' d a (AbstractCacheEntry.set_data e (f (AbstractCacheEntry.data e))).
Proof.
  intros Ha Hok [He Hd]. unfold L1Controller.update_data, L1Controller.update_entry.
  cbn [from_option_or mbind outcome_bind fst snd]. intros (c & Hc & [= _ <-])%bind_Ok.
  pose proof He as Hin. apply (contents_iff sys) in Hin as (i & _ & _ & Hadr & Hperm); [|done].
  destruct (update_entry_spec sys (L1Controller.cache_of s d) a
    (λ e, AbstractCacheEntry.set_data e (f (AbstractCacheEntry.data e))) e) as (c' & Hc' & Hok' & Hcon); [done..|].
  rewrite Hc in Hc'. injection Hc' as <-. specialize (Hcon a) as Hcona. rewrite decide_True in Hcona by done.
  unfold entry_in, l1_caches_ok, L1Controller.with_cache_of.
  destruct d; cbn [L1Controller.cache_of L1Controller.base L1Controller.with_base L1Controller.TBEs] in *.
  - split_and!; [|done|done|done]. intros []; [done|apply (Hok false)].
  - split_and!; [|done|done|done]. intros []; [apply (Hok true)|done].
Qed.

Lemma l1_permission_in s a d e : Caches.line sys a → l1_caches_ok s → TBETable.lookup (L1Controller.TBEs s) a = None →
  entry_in s d a e → L1Controller.getAccessPermission sys s a =
    Ok (L1Cache.State_to_permission (L1Controller.CacheState (AbstractCacheEntry.data e))) ∧
  ∀ p, L1Controller.functionalRead sys s a p =
    (o ← testAndRead sys a (L1Controller.DataBlk (AbstractCacheEntry.data e)) p; Ok (default p o)).
Proof.
  intros Ha Hok Ht He. unfold L1Controller.getAccessPermission, L1Controller.functionalRead, L1Controller.tbe_ptr.
  rewrite Ht. assert (L1Controller.getL1CacheEntry sys s a = Ok (Some (d, a))) as ->
    by (apply getL1CacheEntry_in; [done|done|by exists d, e]).
  cbn [mbind outcome_bind]. by rewrite (deref_entry_in s d a e).
Qed.

Lemma l1_write_returns a p s n s' l : Caches.line sys a → a = Address.makeLineAddress sys (pkt_addr p) →
  packet_ok sys p → length l = length (pkt_data p) → l1_caches_ok s →
  L1Controller.functionalWrite sys a p s = Ok (n, s') →
  l1_caches_ok s' ∧ L1Controller.getAccessPermission sys s' a = L1Controller.getAccessPermission sys s a ∧
  L1Controller.functionalRead sys s' a (with_bytes p l) = Ok p.
Proof using Hgeo.
  intros Hline Ha Hp Hl Hok. unfold L1Controller.functionalWrite, L1Controller.tbe_ptr.
  destruct (TBETable.lookup (L1Controller.TBEs s) a) as [x|] eqn:Hx.
  - unfold L1Controller.deref_tbe, L1Controller.update_tbe. cbn [from_option_or mbind outcome_bind]. rewrite Hx.
    cbn [from_option_or mbind outcome_bind].
    intros (o & (b & -> & Hb)%(block_reads_back a p _ o l) & [= _ <-])%bind_Ok; [|done..].
    destruct (l1_write_tbe a (with_bytes p l) s x b Hx) as [H1 H2]. split; [exact Hok|]. split; [exact H1|].
    by rewrite H2, Hb.
  - intros ([r|] & Hr & Hw)%bind_Ok; [|by apply bind_Ok in Hw as (? & ? & _)].
    apply getL1CacheEntry_in in Hr as (d & e & -> & He); [|done..].
    apply bind_Ok in Hw as (e' & Hd & Hw). 
    assert (Ok e' = Ok (AbstractCacheEntry.data e)) as [= ->] by (rewrite <- Hd; by apply deref_entry_in).
    apply bind_Ok in Hw as (o & (b & -> & Hb)%(block_reads_back a p _ o l) & ([u s1] & Hu & [= _ <-])%bind_Ok); [|done..].
    destruct (update_data_in s d a e _ u s1 Hline Hok He Hu) as (Hok' & Ht & He').
    destruct (l1_permission_in s a d e) as [H1 _]; [done..|].
    edestruct (l1_permission_in s1 a d) as [H1' H2]; [done|done|by rewrite Ht|exact He'|].
    split; [exact Hok'|]. split; [by rewrite H1, H1'|]. rewrite H2. cbn. by rewrite Hb.
Qed.

(** *** Directories *)

#[local] Abbreviation dir_permission := (DirController.getAccessPermission sys counts junk dirs).

(** What the permission depends on. *)
Lemma dir_permission_eq a s : dir_permission a s =
  match TBETable.lookup (DirController.TBEs s) a with
  | Some x => Ok (Directory.State_to_permission (DirController.TBEState x), s)
  | None =>
      present ← DirectoryMemory.isPresent dirs (DirController.directory s) a;
      if present : bool then
        r ← DirController.getDirectoryEntry sys counts junk dirs a s;
        Ok (Directory.State_to_permission (DirController.DirectoryState r.1), r.2)
      else Ok (NotPresent, s)
  end.
Proof.
  unfold DirController.getAccessPermission, DirController.tbe_ptr, DirController.deref_tbe, DirController.isPresent,
    gets, Prelude.reads, mbind, prog_bind, outcome_bind, mret, prog_ret.
  destruct (TBETable.lookup (DirController.TBEs s) a) as [x|] eqn:E; cbn [from_option_or fst snd].
  - by rewrite E.
  - destruct (DirectoryMemory.isPresent _ _ _) as [[]|]; try done.
    by destruct (DirController.getDirectoryEntry _ _ _ _ a s) as [[]|].
Qed.

(** An entry that was made is found the next time. *)
Lemma getDirectoryEntry_again a s e s' : DirController.getDirectoryEntry sys counts junk dirs a s = Ok (e, s') →
  DirController.TBEs s' = DirController.TBEs s ∧
  DirectoryMemory.isPresent dirs (DirController.directory s') a = DirectoryMemory.isPresent dirs (DirController.directory s) a ∧
  ∃ e', DirController.getDirectoryEntry sys counts junk dirs a s' = Ok (e', s') ∧
    DirController.DirectoryState e' = DirController.DirectoryState e.
Proof.
  unfold DirController.getDirectoryEntry. intros ([e0|] & Hl & Hr)%bind_Ok.
  - injection Hr as <- <-. rewrite Hl. cbn [mbind outcome_bind]. by split_and!; [..|exists e0].
  - apply bind_Ok in Hr as (e0 & _ & (d & Hd & [= <- <-])%bind_Ok). cbn [DirController.TBEs DirController.directory DirController.with_directory].
    unfold DirectoryMemory.allocate in Hd. apply bind_Ok in Hd as (i & Hi & (l & (Hr & ->)%vset_Ok & [= <-])%bind_Ok).
    split_and!; [done|done|]. exists (DirController.changePermission e0 Read_Only). split; [|done].
    unfold DirectoryMemory.lookup, DirectoryMemory.entry_index, DirectoryMemory.isPresent in Hi |- *.
    cbn [DirectoryMemory.m_version DirectoryMemory.m_num_entries DirectoryMemory.m_entries]. rewrite Hi.
    cbn [mbind outcome_bind]. rewrite (proj2 (vget_Ok _ i (Some (DirController.changePermission e0 Read_Only)))); [done|].
    split; [lia|]. apply list_lookup_insert_eq. lia.
Qed.

Lemma dir_permission_again a s x s' : dir_permission a s = Ok (x, s') → dir_permission a s' = Ok (x, s').
Proof.
  rewrite !dir_permission_eq. destruct (TBETable.lookup (DirController.TBEs s) a) as [y|] eqn:E.
  { intros [= <- <-]. by rewrite E. }
  intros ([] & Hp & Hr)%bind_Ok.
  - apply bind_Ok in Hr as ([e s1] & He & [= <- <-]).
    apply getDirectoryEntry_again in He as (Ht & Hd & e' & He' & Hst). cbn [snd fst].
    rewrite Ht, E, Hd, Hp. cbn [mbind outcome_bind]. rewrite He'. cbn. by rewrite Hst.
  - injection Hr as <- <-. rewrite E, Hp. done.
Qed.

(** Neither the buffers nor the memory port have a part in it. *)
Lemma dir_permission_aside a s c q : dir_permission a (DirController.with_port (DirController.with_base s c) q) =
  (r ← dir_permission a s; Ok (r.1, DirController.with_port (DirController.with_base r.2 c) q)).
Proof.
  rewrite !dir_permission_eq. cbn [DirController.TBEs DirController.directory DirController.with_base DirController.with_port].
  destruct (TBETable.lookup _ a); [done|]. destruct (DirectoryMemory.isPresent _ _ _) as [[]|]; try done.
  cbn [mbind outcome_bind]. unfold DirController.getDirectoryEntry.
  cbn [DirController.TBEs DirController.directory DirController.with_base DirController.with_port].
  destruct (DirectoryMemory.lookup _ _ _ _) as [[e|]|]; [done| |done]. cbn [mbind outcome_bind].
  destruct (DirController.new_entry _ _) as [e|]; [|done]. cbn [mbind outcome_bind].
  by destruct (DirectoryMemory.allocate _ _ _ _ _ _).
Qed.

Lemma functionalMemoryWrite_inv s m p n s' m' : DirController.functionalMemoryWrite sys s m p = Ok (n, (s', m')) →
  (∃ c q, s' = DirController.with_port (DirController.with_base s c) q) ∧ m' = mem_write m p.
Proof.
  intros (b & _ & (r & _ & ([[f k] q] & _ & [= _ <- <-])%bind_Ok)%bind_Ok)%bind_Ok.
  split; [by eexists _, _|done].
Qed.

(** A write of a transaction's block leaves its state. *)
Lemma dir_permission_tbe a s x y b : TBETable.lookup (DirController.TBEs s) a = Some y →
  dir_permission a s = Ok (x, s) →
  let s' := DirController.with_TBEs s (TBETable.update_entry (DirController.TBEs s) a
    (λ x, DirController.tbe_with_request x (DirController.PhysicalAddress x) b (DirController.Len x))) in
  dir_permission a s' = Ok (x, s').
Proof.
  intros Hy Hx s'. rewrite dir_permission_eq, Hy in Hx. injection Hx as <-. rewrite dir_permission_eq.
  unfold s' at 1. cbn [DirController.TBEs DirController.with_TBEs].
  by rewrite lookup_update_tbe, decide_True, Hy.
Qed.

Lemma dir_write_returns a p s x m n s' m' : Caches.line sys a → a = Address.makeLineAddress sys (pkt_addr p) →
  packet_ok sys p → dir_permission a s = Ok (x, s) →
  DirController.functionalWrite sys s m a p = Ok (n, (s', m')) →
  dir_permission a s' = Ok (x, s') ∧ m' = mem_write m p ∧
  ∀ l m3, length l = length (pkt_data p) → now_or_written m' p m3 →
    DirController.functionalRead sys s' m3 a (with_bytes p l) = Ok p.
Proof using All.
  intros Hline Ha Hp Hx. unfold DirController.functionalWrite, DirController.functionalRead, DirController.tbe_ptr,
    DirController.deref_tbe, DirController.update_tbe.
  destruct (TBETable.lookup (DirController.TBEs s) a) as [y|] eqn:Hy; cbn [from_option_or mbind outcome_bind].
  - rewrite Hy. cbn [from_option_or mbind outcome_bind].
    intros ([k s1] & Hs1 & ([k' [s2 m2]] & ((c & q & ->) & ->)%functionalMemoryWrite_inv & [= _ <- <-])%bind_Ok)%bind_Ok.
    apply bind_Ok in Hs1 as (o & Hw & Hs1).
    destruct (block_reads_back a p _ o (pkt_data p) Hline Ha Hp eq_refl Hw) as (b & -> & _). injection Hs1 as _ <-.
    pose proof (dir_permission_tbe a s x y b Hy Hx) as Hx'. cbn [fst snd] in *.
    split; [by rewrite dir_permission_aside, Hx'|]. split; [done|]. intros l m3 Hl _.
    cbn [DirController.TBEs DirController.with_base DirController.with_port DirController.with_TBEs].
    rewrite lookup_update_tbe, decide_True, Hy by done. cbn [fmap option_fmap option_map from_option_or mbind outcome_bind].
    rewrite lookup_update_tbe, decide_True, Hy by done. cbn [fmap option_fmap option_map from_option_or mbind outcome_bind].
    destruct (block_reads_back a p _ _ l Hline Ha Hp Hl Hw) as (b' & [= <-] & Hb).
    cbn [DirController.DataBlk DirController.tbe_with_request]. by rewrite Hb.
  - intros ([k' [s2 m2]] & ((c & q & ->) & ->)%functionalMemoryWrite_inv & [= _ <- <-])%bind_Ok. cbn [fst snd] in *.
    split; [by rewrite dir_permission_aside, Hx|]. split; [done|]. intros l m3 Hl Hm3.
    cbn [DirController.TBEs DirController.with_base DirController.with_port]. rewrite Hy. f_equal.
    unfold DirController.functionalMemoryRead. destruct Hm3 as [->|[m0 ->]]; by apply read_written.
Qed.

(** *** Messages *)

(** A read of the bytes of [p] finds nothing, or finds them. *)
Definition finds p (r : outcome (option packet)) : Prop := r = Ok None ∨ r = Ok (Some p).

Lemma block_finds a b o p l : packet_ok sys p → length l = length (pkt_data p) → testAndWrite sys a b p = Ok o →
  finds p (testAndRead sys a (default b o) (with_bytes p l)).
Proof using Hgeo.
  intros (Hp & Hsz & Hin) Hl Hw. destruct o as [b'|].
  - right. by eapply (written_read_back sys Hgeo).
  - left. unfold testAndWrite, testAndRead in *. destruct (decide _) as [E|E]; [by apply bind_Ok in Hw as (? & _ & ?)|].
    done.
Qed.

Lemma message_finds (x x' : payload) f p l : packet_ok sys p → length l = length (pkt_data p) →
  payload_functionalWrite sys x p = Ok (f, x') → finds p (payload_functionalRead sys x' (with_bytes p l)).
Proof using Hgeo.
  intros Hp Hl.
  destruct x as [x|x|x|r|x|x|x]; cbn [payload_functionalWrite];
    try (unfold RequestMsg.functionalWrite, ResponseMsg.functionalWrite, MemoryMsg.functionalWrite,
           SequencerMsg.functionalWrite, DMARequestMsg.functionalWrite, DMAResponseMsg.functionalWrite;
         destruct (testAndWrite _ _ _ p) as [o|] eqn:Hw; [|done];
         apply (block_finds _ _ _ _ l Hp Hl) in Hw; destruct o; intros [= _ <-]; try exact Hw;
         unfold finds, payload_functionalRead, RequestMsg.functionalRead; cbn; destruct (RequestMsg.m_Type x); auto; exact Hw).
  intros ([f' r'] & _ & [= _ <-])%bind_Ok. by left.
Qed.

Lemma messages_find p l ms n ms' : packet_ok sys p → length l = length (pkt_data p) →
  MessageBuffer.write_each (payload_functionalWrite sys) ms p = Ok (n, ms') → length ms' = length ms ∧
  Forall (λ x, finds p (payload_functionalRead sys (Message.payload x) (with_bytes p l))) ms'.
Proof using Hgeo.
  intros Hp Hl. revert n ms'. induction ms as [|x ms IH]; intros n ms'; cbn [MessageBuffer.write_each].
  { intros [= _ <-]. by split. }
  intros ([f x'] & Hx & ([k ms1] & [Hn Hf]%IH & [= _ <-])%bind_Ok)%bind_Ok. cbn [length snd]. split; [by f_equal|].
  constructor; [|done]. cbn. by eapply message_finds.
Qed.

Lemma read_first_finds p l ms :
  Forall (λ x, finds p (payload_functionalRead sys (Message.payload x) (with_bytes p l))) ms →
  finds p (MessageBuffer.read_first (payload_functionalRead sys) ms (with_bytes p l)).
Proof. induction 1 as [|x ms [Hx|Hx] _ IH]; cbn [MessageBuffer.read_first]; [by left|by rewrite Hx|rewrite Hx; by right]. Qed.

Lemma stalled_find p l st n st' : packet_ok sys p → length l = length (pkt_data p) →
  MessageBuffer.write_stalled (payload_functionalWrite sys) st p = Ok (n, st') →
  Forall (λ x, finds p (payload_functionalRead sys (Message.payload x) (with_bytes p l))) (concat st'.*2).
Proof using Hgeo.
  intros Hp Hl. revert n st'. induction st as [|e st IH]; intros n st'; cbn [MessageBuffer.write_stalled].
  { intros [= _ <-]. constructor. }
  intros ([k ms] & [_ Hms]%(messages_find p l) & ([k' st1] & Hst%IH & [= _ <-])%bind_Ok)%bind_Ok; [|done..].
  cbn [fmap list_fmap concat snd]. by apply Forall_app.
Qed.

Lemma buffer_finds p l b n b' : packet_ok sys p → length l = length (pkt_data p) →
  MessageBuffer.functionalWrite (payload_functionalWrite sys) b p = Ok (n, b') →
  finds p (MessageBuffer.functionalRead (payload_functionalRead sys) b' (with_bytes p l)).
Proof using Hgeo.
  intros Hp Hl ([k h] & [Hlen Hh]%(messages_find p l) & ([k' st] & Hst%(stalled_find p l) & [= _ <-])%bind_Ok)%bind_Ok; [|done..].
  apply read_first_finds, Forall_app. split; [|exact Hst].
  cbn [snd]. rewrite length_map in Hlen. revert Hlen Hh. clear.
  cbn [MessageBuffer.m_prio_heap MessageBuffer.with_stall MessageBuffer.with_heap].
  generalize (MessageBuffer.m_prio_heap b) as ns. intros ns. revert h. induction ns as [|x ns IH]; intros [|y h] Hlen Hh; try done.
  apply Forall_cons in Hh as [Hy Hh]. constructor; [exact Hy|]. apply IH; [by injection Hlen|done].
Qed.

(** Messages in the network. *)
Lemma buffers_find p l n bs n' bs' : packet_ok sys p → length l = length (pkt_data p) →
  SimpleNetwork.write_buffers sys n bs p = Ok (n', bs') →
  finds p (SimpleNetwork.read_buffers sys bs' (with_bytes p l)).
Proof using Hgeo.
  intros Hp Hl Hw.
  assert (Forall (λ b, finds p (MessageBuffer.functionalRead (payload_functionalRead sys) b (with_bytes p l))) bs') as Hf.
  { revert Hw. apply (mfold_inv (λ acc, Forall (λ b, finds p (MessageBuffer.functionalRead (payload_functionalRead sys) b
      (with_bytes p l))) acc.2)); [|constructor].
    intros acc b acc' _ Hacc ([k b'] & Hb & [= <-])%bind_Ok. cbn [snd]. apply Forall_app. split; [done|].
    constructor; [by eapply buffer_finds|constructor]. }
  clear Hw. induction Hf as [|b bs1 [Hb|Hb] _ IH]; cbn [SimpleNetwork.read_buffers]; [by left|by rewrite Hb|rewrite Hb; by right].
Qed.

Lemma network_finds p l net n net' : packet_ok sys p → length l = length (pkt_data p) →
  SimpleNetwork.functionalWrite sys net p = Ok (n, net') →
  finds p (SimpleNetwork.functionalRead sys net' (with_bytes p l)).
Proof using Hgeo.
  intros Hp Hl ([k sws] & Hs & ([k' bs] & Hb & [= _ <-])%bind_Ok)%bind_Ok. cbn [fst snd] in *.
  assert (finds p (SimpleNetwork.read_switches sys sws (with_bytes p l))) as Hf.
  { assert (Forall (λ sw, finds p (SimpleNetwork.switch_read sys sw (with_bytes p l))) sws) as Hf.
    { revert Hs. apply (mfold_inv (λ acc, Forall (λ sw, finds p (SimpleNetwork.switch_read sys sw (with_bytes p l))) acc.2));
        [|constructor].
      intros acc sw acc' _ Hacc ([j sw'] & Hw & [= <-])%bind_Ok. cbn [snd]. apply Forall_app. split; [done|].
      constructor; [by eapply buffers_find|constructor]. }
    clear Hs. induction Hf as [|sw sws [Hsw|Hsw] _ IH]; cbn [SimpleNetwork.read_switches]; [by left|by rewrite Hsw|rewrite Hsw; by right]. }
  unfold SimpleNetwork.functionalRead. cbn [SimpleNetwork.m_switches SimpleNetwork.m_buffers_to_free].
  destruct Hf as [->| ->]; [|by right]. by eapply buffers_find.
Qed.

(** *** All machines *)

Definition machine_ok (s : machine) : Prop :=
  match s with L1Cache_Controller s => l1_caches_ok s | _ => True end.

Lemma machine_laws : ControllerLaws (H := machine_controller sys counts junk dirs) machine M sys machine_ok.
Proof using All.
  split.
  - intros a [s|s|s] x s' Hline Hok; cbn.
    + intros (y & Hy & [= <- <-])%bind_Ok. split; [done|]. unfold answers. cbn. by rewrite Hy.
    + intros ([y s1] & Hy & [= <- <-])%bind_Ok. split; [done|]. unfold answers. cbn.
      by rewrite (dir_permission_again _ _ _ _ Hy).
    + by intros [= <- <-].
  - intros p [s|s|s] n s' a x s1 Hok; cbn.
    + intros ([k s2] & Hw & [= <- <-])%bind_Ok (y & Hy & [= <- <-])%bind_Ok.
      destruct (l1_buffers_aside _ _ _ _ a Hw) as [Hok' Ha]. split; [by apply Hok'|]. cbn. rewrite Ha, Hy. by eexists.
    + intros ([k s2] & (c & _ & ->)%zoom_Ok & [= <- <-])%bind_Ok ([y s3] & Hy & [= <- <-])%bind_Ok. split; [done|].
      pose proof (dir_permission_aside a s c (DirController.memoryPort s)) as Ha. rewrite Hy in Ha.
      change (DirController.with_port (DirController.with_base s c) _) with (DirController.with_base s c) in Ha.
      cbn. rewrite Ha. by eexists.
    + intros ([k s2] & _ & [= <- <-])%bind_Ok [= <- <-]. split; [done|]. by eexists.
  - intros a p [s|s|s] x n m s' m' Hline Ha Hp Hok Hans; unfold answers in *; cbn in *; [| |done].
    + apply bind_Ok in Hans as (y & Hy & [= <-]). intros ([k s1] & Hw & [= <- <- <-])%bind_Ok. cbn in *.
      destruct (l1_write_returns a p s k s1 (pkt_data p) Hline Ha Hp eq_refl Hok Hw) as (Hok' & Hx & _).
      split_and!; [done|by rewrite Hx, Hy|by left|]. intros l m3 Hl _.
      apply (l1_write_returns a p s k s1 l Hline Ha Hp Hl Hok Hw).
    + apply bind_Ok in Hans as ([y s0] & Hy & [= <- ->]).
      intros ([k [s1 m1]] & Hw & [= <- <- <-])%bind_Ok. cbn in *.
      destruct (dir_write_returns a p s y m k s1 m1) as (Hx & Hm & Hr); [done..|].
      split_and!; [done|by rewrite Hx|right; by exists m|exact Hr].
Qed.

#[local] Abbreviation read_system := (@RubyAccess.functionalRead machine M sys (machine_reader sys counts junk dirs)).
#[local] Abbreviation write_system := (@RubyAccess.functionalWrite machine M sys (machine_controller sys counts junk dirs)).

(** C17: a functional write to a system of cache, directory and DMA controllers is what a later
    functional read of the same bytes returns, whatever is in the caches, transactions,
    buffers and memory: the read succeeds exactly if it would have before the write, and
    messages in the network for the line hold the bytes as well. *)
Theorem functional_write_is_read (s s' s1 : RubyAccess.t machine M) p l o b :
  packet_ok sys p → length l = length (pkt_data p) → Forall machine_ok (RubyAccess.m_abs_cntrl_vec s) →
  read_system s (with_bytes p l) = Ok (o, s1) →
  write_system s p = Ok (b, s') →
  read_system s' (with_bytes p l) = Ok ((λ _, p) <$> o, s') ∧
  finds p (SimpleNetwork.functionalRead sys (RubyAccess.m_network s') (with_bytes p l)).
Proof using All.
  intros Hp Hl Hok Hr Hw. pose proof machine_laws as HL. split.
  - eapply (write_read_roundtrip (H := machine_controller sys counts junk dirs) (ok := machine_ok) s s' s1 p l o b);
      [apply line_of_make|done..].
  - apply bind_Ok in Hw as (r & _ & ([n net] & Hn & [= _ <-])%bind_Ok). by eapply network_finds.
Qed.

End machines.

(** ** Witnesses for the controllers *)

(** A memory of bytes. *)
Definition bytes_memory : FunctionalMemory (gmap Z Z) := {|
  mem_read m p := with_bytes p ((λ a, default 0 (m !! a)) <$> seqZ (pkt_addr p) (pkt_size p));
  mem_write m p := list_to_map (zip (seqZ (pkt_addr p) (pkt_size p)) (pkt_data p)) ∪ m |}.
#[local] Existing Instance bytes_memory.

#[local] Instance bytes_memory_laws sys : MemoryLaws (gmap Z Z) sys.
Proof.
  intros m [pa ps l0] l (_ & Hsz & _) _. cbn in *. f_equal. subst ps.
  apply list_eq. intros i. rewrite list_lookup_fmap.
  destruct (l0 !! i) as [v|] eqn:Hv.
  - pose proof (lookup_lt_Some _ _ _ Hv) as Hi. rewrite lookup_seqZ_lt by lia. cbn. f_equal.
    erewrite lookup_union_Some_l; [done|]. apply elem_of_list_to_map_1.
    + rewrite fst_zip by (rewrite length_seqZ; lia). apply NoDup_seqZ.
    + apply list_elem_of_lookup. exists i. apply lookup_zip_Some. split; [|done]. by rewrite lookup_seqZ_lt by lia.
  - apply lookup_ge_None in Hv. by rewrite lookup_seqZ_ge by lia.
Qed.

(** A cache that replaces line 128, which it has modified, the directory, and the memory. *)
Definition replacing : L1Controller.t :=
  L1Controller.with_TBEs demo_l1 (TBETable.mk {[128 := L1Controller.mkTBE 128 L1Cache.State_MI_A (filled 7) true 0 false no_latencies]} 16).
Definition demo_system : RubyAccess.t machine (gmap Z Z) :=
  RubyAccess.mk [L1Cache_Controller replacing; Directory_Controller dir0] ∅ (SimpleNetwork.mk [[mandatory]] [mandatory]).
Definition demo_write : packet := mkPacket 130 2 [5; 6].

#[local] Abbreviation read_demo := (@RubyAccess.functionalRead machine _ sys64 (machine_reader sys64 [1; 1; 0] 0 demo_statics)).
#[local] Abbreviation write_demo := (@RubyAccess.functionalWrite machine _ sys64 (machine_controller sys64 [1; 1; 0] 0 demo_statics)).
Definition demo_written : RubyAccess.t machine (gmap Z Z) :=
  match write_demo demo_system demo_write with Ok r => r.2 | Err _ => demo_system end.

Definition demo_asked : RubyAccess.t machine (gmap Z Z) :=
  match read_demo demo_system (mkPacket 130 2 [0; 0]) with Ok r => r.2 | Err _ => demo_system end.

Lemma functional_write_is_read_witness :
  read_demo demo_written (mkPacket 130 2 [0; 0]) = Ok (Some (mkPacket 130 2 [5; 6]), demo_written).
Proof.
  destruct (functional_write_is_read sys64 ltac:(split; vm_compute; intuition congruence) [1; 1; 0] 0 demo_statics
    demo_system demo_written demo_asked demo_write [0; 0] (Some (mkPacket 130 2 [7; 7])) true) as [H _].
  - split_and!; vm_compute; intuition congruence.
  - reflexivity.
  - constructor; [|by constructor]. intros d. destruct (demo_fresh) as [Hok _]. apply (cache_of_ok sys64 demo_l1 d Hok).
  - vm_compute. reflexivity.
  - vm_compute. reflexivity.
  - exact H.
Defined.

